(* ===== verification/_CoqProject ===== *)
-Q . S2P
Prelude.v
Json.v
Dec.v
DecText.v
Float64.v
PyNum.v
Sizing.v
PaperDb.v
PaperExchange.v
PaperInv.v
PaperFacts.v
RiskGates.v
Scoring.v
Consumer.v
ExecDb.v
Exchange.v
PaperClient.v
Dedup.v
Dispatcher.v
Placement.v
Lifecycle.v
Recovery.v
Ledger.v
PlacementFacts.v
LiveInv.v
LiveFacts.v
Trail.v
Bus.v
BusFacts.v
Outbox.v
OutboxFacts.v
Gateway.v
GatewayFacts.v
Features.v
FeatureFacts.v
Market.v
MarketFacts.v
Shadow.v
Variants.v
ShadowFacts.v
Polls.v
PollFacts.v
RateLimiter.v
Bybit.v
BybitFacts.v
Alerts.v
Pool.v
Analytics.v
AnalyticsFacts.v
Backtest.v
BacktestFacts.v
Admin.v
AdminFacts.v
Reads.v
ReadFacts.v
Loader.v
LoaderFacts.v
Sse.v
SseFacts.v
Feed.v
FeedFacts.v
Engine.v
EngineFacts.v
Cli.v
CliFacts.v
Sockets.v
Services.v
ServiceFacts.v
