(* ===== verification/Prelude.v ===== *)
(** * scalper-v2: a verification development

    scalper-v2 is a set of services that turn trading signals into orders:
    the signal gateway writes validated signals with an outbox event each, and
    a relay publishes the events on the bus; market data stores and publishes
    1-minute candles, from which the feature engine computes indicators; the
    strategy engine filters the signals through risk gates, scores them on
    features and requests orders; the execution service places them on an
    exchange adapter, either Bybit or the paper exchange, a simulator that
    fills against candles and keeps its own paper_* tables, and follows
    rejected signals and variants of open trades in the shadow.  Around them, an
    API reads and edits the tables and streams events, a worker replays history
    as backtests, and an alerting service posts messages.  This library models
    the path of a signal from the webhook to the order, the candles and features
    it is judged by, the configuration it is judged with, sizing, the paper
    exchange with its persistence, the execution service with the live tables
    (placement, the dispatcher of fills, the position monitor, the audits, the
    start-up reconciliation), the shadow runs, backtests, analytics, the API,
    alerting, and the start and shutdown of the processes.

    ** Files, in order of dependency (paths are under src/)

    - Prelude: Python exceptions as [exn], fallible code as [res], methods as
      the state and exception monad [ST], in which a raised exception keeps
      the state reached so far; the tactics [st_inv], [inv_ok], [bool_simpl]
      and the hint database [scalper].
    - Dec: Python's [decimal.Decimal] in the default context: 28 significant
      digits, ROUND_HALF_EVEN, computed exactly, with bridges to Q.
    - Json, DecText: JSON values and dicts; [str(Decimal)] and [Decimal(str)].
    - Float64, PyNum: binary64 with unbounded exponents and its rounding error;
      [int], [str], [Decimal] and [float] of JSON values.
    - Sizing: packages/sizing/compute.py, packages/exchange/quantize.py, the
      structural guards of [SizingSection] (packages/scoring/types.py).
    - PaperDb: packages/exchange/paper/persistence.py, the paper_* tables as
      finite maps, one operation per statement, transactions with rollback.
    - PaperExchange: packages/exchange/paper/{adapter,fees,slippage,
      intra_candle}.py: [pe_config] is the constructor's arguments,
      [pe_state] the object's attributes, one definition per method.
    - PaperInv: the invariant [book_agrees] between [_active_positions] and
      the tables, a preservation rule per operation, the step relation
      [pe_step] (an operation, the passing of time, the consumption of queued
      events, a restart), and what a restart rebuilds.
    - PaperFacts: prices, fills, stops, PnL, the drain queue, and two runs
      that fall short of the code's intent.
    - RiskGates: services/strategy_engine/app/*_gate.py,
      kill_switch_reconcile.py and packages/db/queries/{trades,kill_switch}.py;
      [risk_step] is one gate run, reconcile or change of the trade tables.
    - Scoring: packages/scoring/{conditions,resolver,evaluator}; [condition]
      has a constructor per condition class, [eval] is their evaluate method.
    - Consumer: services/strategy_engine/app/consumer.py, the handler over the
      world of tables, features, audit rows and publications.
    - ExecDb: packages/db/queries/execution.py, the live tables (migrations
      0005, 0006, 0007, 0020), one operation per statement.
    - Exchange: [exchange_client], the [ExchangeClient] protocol of
      packages/exchange/protocols.py as a record of operations; [logged] adds
      the record of the calls made; [xworld] is the world of the execution
      service (exchange, live tables, bus, clock, monitor registry).
    - Dedup: packages/bus/dedup.py, the ring in front of both consumers.
    - Dispatcher: services/execution/app/{dispatcher,reconcile}.py, a fill's
      transaction, the close flow and the loop over the stream.
    - Placement: services/execution/app/{placement,placement_persist}.py, the
      request handler from the sizing seam to the monitor registration.
    - Lifecycle: services/execution/app/{lifecycle,trail_audit}.py, one tick
      of the position monitor and of the trail audit.
    - Recovery: services/execution/app/{sl_watchdog,restart}.py and the close
      of a tracked position.
    - Ledger: the invariant [ledger] of the live tables, and that processing a
      fill keeps it, whatever its outcome.
    - PlacementFacts: what a request sends to the exchange, and that handling
      it keeps the ledger.
    - LiveInv: the other operations keep the ledger; [live_step] is one
      operation of the service.
    - LiveFacts: the fills that end a dispatcher, the watchdog tick that
      raises, the orders a restart sends.
    - Trail: successive ticks of the monitor on a trailing position.
    - Bus, BusFacts: packages/bus/{envelope,protocol,client,replay_bus}.py; the
      protocol is the record [bus_ops], the replay bus a step machine.
    - Outbox, OutboxFacts: packages/outbox/{queries,relay,types}.py, one batch
      as a transaction and the loop around it.
    - Gateway, GatewayFacts: services/signal_gateway/app/{webhook,models,dedup,
      rate_limit,security,symbol_map,middleware}.py.
    - Features, FeatureFacts: packages/features/builtins, the buffer registry,
      and services/feature_engine/app/{pipeline,auto_backfill}.py.
    - Market, MarketFacts: packages/market/{subscription,ws,ohlc,backfill,
      backoff}.py and packages/db/queries/market_data.py.
    - Shadow, Variants, ShadowFacts: packages/db/queries/shadow.py and
      services/execution/app/shadow_*.py; a task is a value that says where it
      waits, [obs_step] is one turn of the event loop on the observations.
    - RateLimiter: packages/exchange/rate_limiter.py, the shared token buckets;
      [caller_step] is one await of one call, [lim_step] one step of any caller,
      of the clock or of the pause flag.
    - Bybit, BybitFacts: packages/exchange/bybit_v5/{client,adapter,ws}.py;
      [bybit_client] is the adapter as an [exchange_client].

    - PaperClient: the paper exchange as an [exchange_client].
    - Polls, PollFacts: services/execution/app/{audit,equity_snapshot,
      funding_fee_poll}.py, one tick of each, with their tables.
    - Pool: services/execution/app/pool.py, adapters from the bots table and the
      environment, with the safeguard of live mode.
    - Alerts: services/alerting/app/{config,consumer,dedup,telegram}.py.
    - Analytics, AnalyticsFacts: services/analytics_api/app/{analytics_compute,
      analytics_cache}.py and the statements they use; the cache is a step
      machine over concurrent requests.
    - Backtest, BacktestFacts: scripts/backtest.py from the run row to the summary,
      services/analytics_api/app/backtest_worker.py and their tables.
    - Admin, AdminFacts: the writing routers of the API with their audit events,
      as requests that interleave statement by statement.
    - Reads, ReadFacts: the lists of the API: WHERE builders, order, pages, totals.
    - Loader, LoaderFacts: packages/scoring/{yaml_loader,types,registry}.py and the
      start of the strategy engine.
    - Sse, SseFacts: services/analytics_api/app/sse.py and routers/events.py.
    - Feed, FeedFacts: packages/exchange/paper/historical_*_source.py and the
      gathered tasks of a backtest.
    - Engine, EngineFacts: packages/features/yaml.py, the start of the feature
      engine, its scheduled backfills and scripts/backfill_features.py.
    - Cli, CliFacts: the command line of scripts/backtest.py: overrides, the choice
      of the mode, the text of a comparison.
    - Sockets: the reconnect loops of packages/market/ws.py and
      packages/exchange/bybit_v5/ws.py as one machine, and packages/market/rest.py.
    - Services, ServiceFacts: services/*/app/main.py: starts as awaits that may
      raise, shutdown blocks as operations beside running tasks, and a checker of
      shutdown orders that is proved sound.

    ** What the theorems show

    - Intake: a webhook answered 200 has committed the signal and its event
      together, any other answer neither; the relay publishes what it commits
      at least once, marks only what was accepted, and hands the signal to the
      bus once when the bus accepts and time passes; a key is accepted once per time-to-live and
      the rate limit holds on every window.
    - Candles: a closed candle is stored before it is published, the feeds are
      exactly the open subscriptions and the frames sent on a connection have
      asked the exchange for exactly the client's streams, the backfill terminates and fills what is
      missing after the newest row.
    - Features: indicators stay in their ranges, the shared buffers refine the
      history of candles, a backfill writes what the live pipeline would have.
    - Bybit: a request is settled by its first conclusive answer and an order is
      sent at most once; a fill price averages the fills; the calls that take a
      token of a bucket stay within its rate, and a call of the limiter ends.
    - Bus: the replay bus delivers in time order, and draining it is one fold
      over the sorted messages.
    - Orders: the handler requests an order only after every guard, gate, the
      scoring decision and the audit row; a hard-stopped bot never orders; the
      audit row precedes every publication.
    - Latches: a max-drawdown latch is permanent and a daily-loss latch lasts
      its UTC day, whatever happens in between (rule induction over
      [risk_step]); both trip exactly at their limits.
    - Scores: the decision is the comparison of the float sum of the weights of
      the rules that hold with the threshold, missing and stale features and
      raising rules as configured; plugin-free conditions are their boolean
      meaning, and a composite tests the one feature of its rule.
    - Paper exchange: the book and the tables agree in every reachable state,
      a restart rebuilds the book (or raises what the database or the bus
      raises), a stop wins over a target, closes move the
      cumulative PnL by what they book, fills are never better than the last
      price, PnL is exact to half a column unit, the fill queue drains.
    - Live tables: in every reachable state of the execution service a trade
      is open exactly while its position_state row exists, remaining quantity
      plus exit fills is the quantity opened, and a trade closed by a fill is
      exited in full (rule induction over [live_step], where every operation
      may succeed or raise anywhere).
    - Placement: at most one entry order per request, and an accepted entry is
      of the requested or sized quantity on the instrument's grid and protected
      by an accepted stop or answered with a flattening order.
    - Deduplication: a key is handled again only after [capacity] other
      handled messages.
    - Trailing stop: while it trails, neither the best price nor the stop ever
      moves against the position, for prices below 10^8 with at most twelve
      decimals, trail fractions of at most six and ticks of at most twelve.
    - Restart: exactly the unknown positions outside the race window are sent
      a flattening order.
    - Sizes: caps and risk fractions hold up to the rounding of 28-digit
      decimals, quantization lands on the grid on the right side.
    - Shadow runs: an observation is decided by the first candle through its
      stop or target, a restart resumes it where an uninterrupted one would be
      (given decoded meta columns), and its outcome is written once.
    - Configuration: the strategy engine starts only on a configuration that
      satisfies every check, and the control plane stores no other; versions of a
      bot's configuration form a line, and the audit events explain the symbol map
      whatever requests interleave.
    - Polls and alerts: a tick of the audit reports exactly the divergences over
      the threshold, an alert is not repeated within its window, a live bot is
      built only with its confirmation.
    - Analytics cache: one computation of a key at a time, none while the last one
      is fresh, whatever requests interleave.
    - Event streams: connections never exceed their maximum, and a client receives
      the matching events in order but for those counted as dropped.
    - Feature engine: it starts with each buffer holding the newest candles, the
      live ones that arrive during the start behind them, and a
      backfill that is interrupted and run again writes what one run would.
    - Backtests: a run ends with its trades and an exact summary or with an error;
      and what the order of its phases means for the signals it replays.
    - Sockets and shutdown: a loop closed elsewhere than at a connection being
      opened never opens one again; no task of the execution service uses pool or
      adapters after they are closed, nor one of the other services but market
      data what it opened.
    - Behaviour short of the intent, each in a lemma or theorem of its own:
      database lookups of features by lower-case symbol, [ema_stack] rules,
      paper bots and the opposite-side gate, partial targets firing again,
      partial PnL lost by a restart, fills of emergency closes ending the
      dispatcher, a refused close aborting the watchdog tick, a refused
      trailing move that is not retried, a refused event overtaken by the next,
      a signal lost by a failed write, indicators that never leave their seed
      window, a minute without volume ending a backfill, a subscription leaked
      by a failed frame, observations forgotten by a restart, variants whose
      replay misses every cross, variants that close their parent, a stop refused
      with an unmapped code, a leverage cache that outlives a later setting, a
      position row that ends the stream of fills, waiting for a token that ends in
      going without one, a claim of a run that reads a column no table has, a
      fill that fails a backtest, a comparison that finds nothing, a series one
      point over its cap, a cache key shared with a bot named None, an audit event with a stale state before, LIKE prefixes
      with wildcards, pages of backtests that miss rows, composite conditions that
      read one feature and stacks that are never true, a universe given as a string, a misspelt shadow key
      dropped, plugins refused by the API, slots of streams lost by a cancelled
      request, backtests judged after their range, a Bollinger multiplier that ends
      the start, a socket closed while it connects, refused credentials never
      reported, a bus closed before the tasks that publish, a backfill that
      outlives its pool, a symbol listed twice.

    ** Bounds and fuel

    [drain_loop] gets the length of the queue it
    drains, and [drain_empties_queue] shows the queue is empty at the end.
    [substitute_loop] gets the length of the template plus one and consumes a
    character per round.  [fill_price_loop] recurses on the configured number
    of attempts, as the code's range loop does.  The replay bus runs a number of
    steps, and [drain_is_sorted_fold] gives a number that suffices; the relay
    runs a number of batches, and [validated_signal_is_published] says how
    many.  [backfill_pages] gets one round per missing minute, which
    [backfill_fills_the_gap] shows to be enough.  The worker of backtests runs a
    number of turns.  Everything else is structural recursion.  Decimal
    exponents are unbounded; the floats of scoring are binary64 (SpecFloat), those of the limiter and of time stamps Float64, those of
    other columns a parameter.

    ** Parameters

    PostgreSQL's coercion into NUMERIC columns is the class [PgNumeric], with
    the documented behaviour the round trips need as [PgNumericExact] and
    [PgNumericIdem], [PgNumericScale] and the instance [pg_half_away].  The
    exchange behind the execution service is any [exchange_client]; the
    ledger needs of it only that instruments have a positive minimum order and
    a step of at most twelve decimals ([GridInstruments], with the instance
    [demo_grid]) and that fills are positive and on that grid ([valid_fill]).
    Scoring plugins are function arguments of their condition.  [uuid4] is a
    counter.  nats-py is the record [nats_lib]; clients of the bus take any
    [bus_ops].  HMAC, [json.loads], [repr], [isoformat] and conversions to float
    are functions; the REST endpoint of the backfill is one that [serves] a
    history; the HTTP side of Bybit is any function that answers or times out, and
    the adapter's limiter any [limiter_ops]; [codec] says whether a pool decodes JSONB.
    Failures of connections are lists of faults drawn by successive statements, and every
    theorem of the newer components quantifies over them.
    The YAML library is [safe_load] and [safe_dump], pydantic's conversions outside
    strict mode are [coerce_int], [coerce_bool] and [coerce_dec], the import of a
    plugin [import_class], the date parser [fromisoformat], the UUID type [uuid_of]
    and [uuid_str].  The post of a message, templates and digests of the alerting
    service, the random generator and SHA-256 of the analytics, division of
    NUMERIC values, and the text of a float with four decimals are functions.  In
    Backtest.v the replay and the loaded configuration are arguments (the replay
    hands over the fills it queued; where they come from is in Feed.v and
    PaperExchange.v), in Feed.v the order handler.  In Services.v it is a parameter whether the scheduler's
    shutdown waits for its jobs and what unsubscribing a drained subscription
    gives.

    ** Not modelled

    Interleavings at the awaits inside one operation of the execution service (an
    operation is one step of [live_step]; its database transactions are atomic,
    its rows are not read again by another task in between) and failures of the
    database connection inside the operations of the live tables; the components
    that are built as step machines (rate limiter, observations, analytics
    cache, control plane, event streams, the start of the feature engine, backtest
    feed, sockets, shutdown) do interleave.  A COMMIT of the gateway whose
    acknowledgement is lost counts as rolled back; the control plane has both cases.  Metrics, logs, health
    routes and response models have no effect on the state modelled; settings read
    from the environment are arguments; migrations are modelled by the tables they
    create, without their upgrade steps; HTTP, NATS, PostgreSQL and APScheduler are
    libraries.  The user interface and the deployment files are left aside. *)

From stdpp Require Export base gmap strings list numbers option.
From Stdlib Require Export ZArith Lia Bool.

#[global] Open Scope Z_scope.

(** ** Exceptions and results

    The Python exceptions the modelled code raises or lets through. *)
Inductive exn :=
| ValueError (msg : string)
| KeyError (key : string)
| RuntimeError (msg : string)
| TypeError (msg : string)
| OrderRejected (msg : string)
| QtyValidationError (constraint : string)
| ZeroDivisionError
| OverflowError
| InvalidOperation
| NumericOverflow
| UniqueViolation (table : string)
| UndefinedTable (table : string)
| NotConnected
| AuthError
| NetworkTimeout
| RateLimitError
| UnknownState (action : string)
| FillPriceUnresolvedError
| AssertionError
| NatsError (msg : string)
| KeyNotFoundError
| PublishError (msg : string)
| SubscribeError (msg : string)
| NotImplementedError (msg : string)
| JSONDecodeError
| ExchangeError (msg : string)
| AttributeError (msg : string)
| FeatureUnderflowError
| HTTPException (status : Z)
| UndefinedColumn (name : string)
| IndexError
| CancelledError.

Inductive res (A : Type) :=
| Ok (a : A)
| Err (e : exn).
Arguments Ok {A} a.
Arguments Err {A} e.

#[global] Instance res_ret : MRet res := fun A a => Ok a.
#[global] Instance res_bind : MBind res := fun A B f r =>
  match r with Ok a => f a | Err e => Err e end.
#[global] Instance res_fmap : FMap res := fun A B f r =>
  match r with Ok a => Ok (f a) | Err e => Err e end.

#[global] Instance exn_eq_dec : EqDecision exn.
Proof. solve_decision. Defined.
#[global] Instance res_eq_dec `{EqDecision A} : EqDecision (res A).
Proof. solve_decision. Defined.

(** [except Exception]: [asyncio.CancelledError] derives from [BaseException]
    and passes through. *)
Definition is_exception (e : exn) : bool :=
  match e with CancelledError => false | _ => true end.

Definition is_ok {A} (r : res A) : bool :=
  match r with Ok _ => true | Err _ => false end.

(** [d[k]] of a Python dict: the value or [KeyError]. *)
Definition subscript {A} (k : string) (o : option A) : res A :=
  match o with Some a => Ok a | None => Err (KeyError k) end.

Lemma bind_ok_inv {A B} (m : res A) (f : A → res B) b :
  (m ≫= f) = Ok b → ∃ a, m = Ok a ∧ f a = Ok b.
Proof. destruct m; cbn; [eauto | discriminate]. Qed.

Lemma subscript_ok_inv {A} k (o : option A) a :
  subscript k o = Ok a → o = Some a.
Proof. destruct o; cbn; congruence. Qed.

(** ** State with exceptions

    A Python method that mutates its object: the state changes made before an
    exception stay. *)
Definition ST (S A : Type) : Type := S → res A * S.

#[global] Instance st_ret {S} : MRet (ST S) := fun A a s => (Ok a, s).
#[global] Instance st_bind {S} : MBind (ST S) := fun A B f m s =>
  match m s with
  | (Ok a, s') => f a s'
  | (Err e, s') => (Err e, s')
  end.

Definition get_st {S} : ST S S := fun s => (Ok s, s).
Definition gets {S A} (f : S → A) : ST S A := fun s => (Ok (f s), s).
Definition modify {S} (f : S → S) : ST S unit := fun s => (Ok tt, f s).
Definition throw {S A} (e : exn) : ST S A := fun s => (Err e, s).
Definition lift_res {S A} (r : res A) : ST S A := fun s => (r, s).

(** [try: ... except (...)]: a handled exception becomes a value, any other
    one propagates; either way the state changes made so far stay. *)
Definition attempt {S A} (handles : exn → bool) (m : ST S A) : ST S (res A) := fun s =>
  match m s with
  | (Ok a, s') => (Ok (Ok a), s')
  | (Err e, s') => if handles e then (Ok (Err e), s') else (Err e, s')
  end.

Lemma st_bind_ok_inv {S A B} (m : ST S A) (f : A → ST S B) s b s'' :
  (m ≫= f) s = (Ok b, s'') → ∃ a s', m s = (Ok a, s') ∧ f a s' = (Ok b, s'').
Proof.
  unfold mbind, st_bind. destruct (m s) as [[a|e] s']; [eauto | discriminate].
Qed.

Lemma st_bind_run {S A B} (m : ST S A) (f : A → ST S B) s a s' :
  m s = (Ok a, s') → (m ≫= f) s = f a s'.
Proof. intros H. unfold mbind, st_bind. by rewrite H. Qed.

Lemma st_bind_cases {S A B} (m : ST S A) (f : A → ST S B) s r s'' :
  (m ≫= f) s = (r, s'') →
  (∃ a s', m s = (Ok a, s') ∧ f a s' = (r, s'')) ∨ (∃ e, m s = (Err e, s'') ∧ r = Err e).
Proof.
  unfold mbind, st_bind. destruct (m s) as [[a|e] s'] eqn:E; intros H; [left | right]; [eauto|].
  injection H as <- <-. eauto.
Qed.

Lemma attempt_inv {S A} handles (m : ST S A) s r s' :
  attempt handles m s = (r, s') →
  ∃ x, m s = (x, s') ∧
    match x with
    | Ok a => r = Ok (Ok a)
    | Err e => if handles e then r = Ok (Err e) else r = Err e
    end.
Proof.
  unfold attempt. destruct (m s) as [[a|e] s1]; [|destruct (handles e) eqn:E]; intros [= <- <-];
    [exists (Ok a) | exists (Err e) | exists (Err e)]; rewrite ?E; auto.
Qed.

(** ** Automation

    [inv_ok] peels successful binds in the hypotheses; [bool_simpl] turns the
    integer tests of the code into the propositions they decide. *)
Ltac inv_ok :=
  repeat match goal with
  | H : Ok _ = Ok _ |- _ => injection H as H
  | H : Ok _ = Err _ |- _ => discriminate H
  | H : Err _ = Ok _ |- _ => discriminate H
  | H : (Ok _, _) = (Ok _, _) |- _ => injection H as H
  | H : (Err _, _) = (Ok _, _) |- _ => discriminate H
  | H : (Ok _, _) = (Err _, _) |- _ => discriminate H
  | H : mbind _ _ = Ok _ |- _ =>
      let a := fresh "a" in let H1 := fresh "H" in let H2 := fresh "H" in
      apply bind_ok_inv in H; destruct H as (a & H1 & H2)
  | H : subscript _ _ = Ok _ |- _ => apply subscript_ok_inv in H
  end.

Ltac bool_simpl :=
  repeat match goal with
  | H : _ && _ = true |- _ => apply andb_true_iff in H; destruct H
  | H : _ || _ = false |- _ => apply orb_false_iff in H; destruct H
  | H : negb _ = true |- _ => apply negb_true_iff in H
  | H : negb _ = false |- _ => apply negb_false_iff in H
  | H : (_ <? _) = true |- _ => apply Z.ltb_lt in H
  | H : (_ <? _) = false |- _ => apply Z.ltb_ge in H
  | H : (_ <=? _) = true |- _ => apply Z.leb_le in H
  | H : (_ <=? _) = false |- _ => apply Z.leb_gt in H
  | H : (_ =? _) = true |- _ => apply Z.eqb_eq in H
  | H : (_ =? _) = false |- _ => apply Z.eqb_neq in H
  end.

(** [st_inv] inverts a run of a stateful method, one bind at a time, into one
    goal per outcome. *)
Ltac st_prim H :=
  unfold get_st, gets, modify, throw, lift_res, mret, st_ret in H;
  first [discriminate H
        | injection H as <- <-
        | injection H as <-
        | let E := fresh "E" in injection H as E <-; try discriminate E
        | injection H as ->
        | simplify_eq].
Ltac st_inv :=
  repeat match goal with
  | H : (?m ≫= ?f) ?s = (_, _) |- _ =>
      let a := fresh "a" in let s1 := fresh "s" in let e := fresh "e" in
      let E1 := fresh "E" in let E2 := fresh "E" in
      apply st_bind_cases in H; destruct H as [(a & s1 & E1 & H)|(e & E1 & E2)]; [|try discriminate E2]
  | H : get_st _ = (_, _) |- _ => st_prim H
  | H : gets _ _ = (_, _) |- _ => st_prim H
  | H : modify _ _ = (_, _) |- _ => st_prim H
  | H : throw _ _ = (_, _) |- _ => st_prim H
  | H : lift_res _ _ = (_, _) |- _ => st_prim H
  | H : mret _ _ = (_, _) |- _ => st_prim H
  end.

Create HintDb scalper discriminated.
#[export] Hint Constants Opaque : scalper.
#[export] Hint Variables Opaque : scalper.

(** ** List lemmas *)
Lemma filter_none {A} (R : A → Prop) `{∀ x, Decision (R x)} l : (∀ x, x ∈ l → ¬ R x) → filter R l = [].
Proof.
  induction l as [|x l IH]; intros Hn; [done|]. rewrite filter_cons, decide_False by (apply Hn; set_solver).
  apply IH. set_solver.
Qed.
Lemma filter_every {A} (R : A → Prop) `{∀ x, Decision (R x)} l : Forall R l → filter R l = l.
Proof. induction 1 as [|x l Hx _ IH]; [done|]. by rewrite filter_cons, decide_True, IH. Qed.

(** ** Integer lemmas *)
(** The order of Python strings. *)
Lemma string_leb_trans a b c : String.leb a b = true → String.leb b c = true → String.leb a c = true.
Proof.
  unfold String.leb. revert b c. induction a as [|x a IH]; intros [|y b] [|z c]; cbn; try done. unfold Ascii.compare.
  destruct (N.compare_spec (Ascii.N_of_ascii x) (Ascii.N_of_ascii y)), (N.compare_spec (Ascii.N_of_ascii y) (Ascii.N_of_ascii z)),
    (N.compare_spec (Ascii.N_of_ascii x) (Ascii.N_of_ascii z)); try done; try lia. apply IH.
Qed.

Lemma pow10_pos k : 0 < 10 ^ k ∨ 10 ^ k = 0.
Proof. destruct (Z.le_gt_cases 0 k); [left; lia | right; by apply Z.pow_neg_r]. Qed.

Lemma pow10_gt0 k : 0 <= k → 0 < 10 ^ k.
Proof. lia. Qed.
#[export] Hint Resolve pow10_gt0 : scalper.

Lemma pow10_add a b : 0 <= a → 0 <= b → 10 ^ (a + b) = 10 ^ a * 10 ^ b.
Proof. intros. by apply Z.pow_add_r. Qed.

Lemma pow10_mono a b : a <= b → 10 ^ a <= 10 ^ b.
Proof. intros. apply Z.pow_le_mono_r; lia. Qed.
#[export] Hint Resolve pow10_mono : scalper.

(** Truncating division of a non-negative multiple never exceeds it. *)
Lemma quot_mul_le a b : 0 <= a → 0 < b → (a ÷ b) * b <= a < (a ÷ b) * b + b.
Proof.
  intros Ha Hb. pose proof (Z.quot_rem' a b). pose proof (Z.rem_bound_pos a b Ha Hb). lia.
Qed.
