(* ===== verification/Json.v ===== *)
(** * JSON values and dicts with string keys, as [json.loads] builds them *)

From S2P Require Import Prelude.
Open Scope Z_scope.

Inductive json :=
| JNull | JBool (b : bool) | JInt (z : Z) | JFloat (text : string) | JStr (s : string)
| JList (l : list json) | JObj (o : list (string * json)).
Abbreviation dict := (list (string * json)).

(** [d.get(k)] of a dict with distinct keys. *)
Fixpoint dict_get (k : string) (d : dict) : option json :=
  match d with
  | [] => None
  | (k', v) :: d' => if (k =? k')%string then Some v else dict_get k d'
  end.
(** [{**a, **b}]: the keys of [a] keep their place, [b]'s values win. *)
Definition dict_merge (a b : dict) : dict :=
  map (fun '(k, v) => (k, default v (dict_get k b))) a ++
  filter (fun kv : string * json => dict_get kv.1 a = None) b.

Lemma dict_get_filter (R : string * json → Prop) `{∀ kv, Decision (R kv)} (Q : string → Prop) `{∀ k, Decision (Q k)} k (d : dict) :
  (∀ kv, R kv ↔ Q kv.1) → dict_get k (filter R d) = if decide (Q k) then dict_get k d else None.
Proof.
  intros HR. induction d as [|[k' v] d IH]; [by destruct (decide _)|]. rewrite filter_cons. specialize (HR (k', v)). cbn in HR.
  destruct (decide (R (k', v))) as [Hq|Hq]; cbn; destruct (String.eqb_spec k k') as [->|]; rewrite ?IH; try done.
  - by rewrite decide_True by tauto.
  - by rewrite !decide_False by tauto.
Qed.
Lemma dict_get_app k (a b : dict) : dict_get k (a ++ b) = match dict_get k a with Some v => Some v | None => dict_get k b end.
Proof. induction a as [|[k' v] a IH]; cbn; [done|]. by destruct (k =? k')%string. Qed.
Lemma dict_get_merge k (a b : dict) :
  dict_get k (dict_merge a b) = match dict_get k b with Some v => Some v | None => dict_get k a end.
Proof.
  unfold dict_merge. rewrite dict_get_app.
  rewrite (dict_get_filter _ (fun q => dict_get q a = None)) by done.
  assert (dict_get k (map (fun '(q, v) => (q, default v (dict_get q b))) a)
    = match dict_get k a with Some v => Some (default v (dict_get k b)) | None => None end) as ->.
  { induction a as [|[k' v] a IH]; cbn; [done|]. by destruct (String.eqb_spec k k') as [->|]. }
  destruct (dict_get k a) as [v|] eqn:Ea; [|rewrite decide_True by done]; by destruct (dict_get k b).
Qed.
