(* ===== verification/Dec.v ===== *)
(** * Python's [decimal.Decimal] under the default context

    Every money value of the program is a [Decimal]; the arithmetic of the
    components is stated on this file's operations.  A finite decimal is a
    coefficient and an exponent; each arithmetic operation rounds its exact
    result to the 28 significant digits of Python's default context
    (ROUND_HALF_EVEN), exactly as [+], [-], [*], [/], unary minus and [abs] do.
    Comparisons are exact.  [//] truncates and [quantize] rescales, both
    raising [InvalidOperation] when the result needs more than 28 digits.

    Not represented: NaN and infinities, the sign of zero, and the exponent
    limits of +-999999 (no input of the program comes near them). *)

From S2P Require Import Prelude.
From Stdlib Require Import QArith Qabs Qpower Lqa.
From Stdlib Require Import Qround.

Open Scope Z_scope.

Record dec := mkDec { coef : Z; dexp : Z }.

#[global] Instance dec_eq_dec : EqDecision dec.
Proof. solve_decision. Defined.

(** The context precision. *)
Definition prec : Z := 28.

(** Number of decimal digits of a coefficient ([len(str(abs(c)))]). *)
Fixpoint digits_fuel (fuel : nat) (z : Z) : Z :=
  match fuel with
  | O => 1
  | S f => if z <? 10 then 1 else 1 + digits_fuel f (z / 10)
  end.
Definition ndigits (c : Z) : Z := digits_fuel (Z.to_nat (Z.log2 (Z.abs c))) (Z.abs c).

(** [n / d] rounded half to even, for [0 <= n], [0 < d]. *)
Definition div_half_even (n d : Z) : Z :=
  let q := n / d in
  let r := n mod d in
  if 2 * r <? d then q
  else if d <? 2 * r then q + 1
  else if Z.even q then q else q + 1.

(** [c / 10^k] rounded half to even (symmetric in the sign). *)
Definition round_he (c k : Z) : Z := Z.sgn c * div_half_even (Z.abs c) (10 ^ k).

(** Rounding an exact result to the context ([Decimal._fix]). *)
Definition fix_ (d : dec) : dec :=
  let nd := ndigits (coef d) in
  if nd <=? prec then d
  else
    let k := nd - prec in
    let c := round_he (coef d) k in
    if ndigits c <=? prec then mkDec c (dexp d + k)
    else mkDec (c / 10) (dexp d + k + 1).

(** Coefficient of [d] at an exponent not above its own. *)
Definition at_exp (d : dec) (e : Z) : Z := coef d * 10 ^ (dexp d - e).
Definition common_exp (a b : dec) : Z := Z.min (dexp a) (dexp b).

Definition dadd (a b : dec) : dec :=
  let e := common_exp a b in fix_ (mkDec (at_exp a e + at_exp b e) e).
Definition dsub (a b : dec) : dec :=
  let e := common_exp a b in fix_ (mkDec (at_exp a e - at_exp b e) e).
Definition dmul (a b : dec) : dec := fix_ (mkDec (coef a * coef b) (dexp a + dexp b)).
Definition dneg (a : dec) : dec := fix_ (mkDec (- coef a) (dexp a)).
Definition dabs (a : dec) : dec := fix_ (mkDec (Z.abs (coef a)) (dexp a)).

(** Exact sum, as SQL's NUMERIC [SUM] computes it. *)
Definition dadd_exact (a b : dec) : dec :=
  let e := common_exp a b in mkDec (at_exp a e + at_exp b e) e.

(** Exact comparisons. *)
Definition dcmp (a b : dec) : comparison :=
  let e := common_exp a b in at_exp a e ?= at_exp b e.
Definition dleb (a b : dec) : bool :=
  let e := common_exp a b in at_exp a e <=? at_exp b e.
Definition dltb (a b : dec) : bool := negb (dleb b a).
Definition deqb (a b : dec) : bool :=
  let e := common_exp a b in at_exp a e =? at_exp b e.
Definition dzero : dec := mkDec 0 0.

(** Python's [min(a, b)] and [max(a, b)]: the first argument wins ties. *)
Definition dmin (a b : dec) : dec := if dltb b a then b else a.
Definition dmax (a b : dec) : dec := if dltb a b then b else a.

(** Stripping of trailing zeros towards the ideal exponent of an exact quotient. *)
Fixpoint strip_zeros (fuel : nat) (c e ideal : Z) : dec :=
  match fuel with
  | O => mkDec c e
  | S f => if (e <? ideal) && (c mod 10 =? 0) then strip_zeros f (c / 10) (e + 1) ideal
           else mkDec c e
  end.

(** [a / b]: the quotient to 28 significant digits.  The integer quotient is
    taken with one digit more than the precision needs, made sticky when
    inexact, and rounded ([Decimal.__truediv__]). *)
Definition ddiv (a b : dec) : res dec :=
  if coef b =? 0 then Err (if coef a =? 0 then InvalidOperation else ZeroDivisionError)
  else if coef a =? 0 then Ok (mkDec 0 (dexp a - dexp b))
  else
    let shift := ndigits (coef b) - ndigits (coef a) + prec + 1 in
    let e := dexp a - dexp b - shift in
    let n := Z.abs (coef a) * 10 ^ (Z.max 0 shift) in
    let d := Z.abs (coef b) * 10 ^ (Z.max 0 (- shift)) in
    let q := n / d in
    let sg := Z.sgn (coef a) * Z.sgn (coef b) in
    if n mod d =? 0 then
      let s := strip_zeros (Z.to_nat (Z.max 0 (dexp a - dexp b - e))) q e (dexp a - dexp b) in
      Ok (fix_ (mkDec (sg * coef s) (dexp s)))
    else
      let q' := if q mod 5 =? 0 then q + 1 else q in
      Ok (fix_ (mkDec (sg * q') e)).

(** [a // b]: the truncated quotient. *)
Definition dfloordiv (a b : dec) : res dec :=
  if coef b =? 0 then Err (if coef a =? 0 then InvalidOperation else ZeroDivisionError)
  else
    let e := common_exp a b in
    let q := at_exp a e ÷ at_exp b e in
    if Z.abs q <? 10 ^ prec then Ok (mkDec q 0) else Err InvalidOperation.

(** [d.quantize(Decimal(10) ** e)]. *)
Definition rescale_he (d : dec) (e : Z) : dec :=
  if e <=? dexp d then mkDec (at_exp d e) e else mkDec (round_he (coef d) (e - dexp d)) e.
Definition dquantize (d : dec) (e : Z) : res dec :=
  let r := rescale_he d e in
  if ndigits (coef r) <=? prec then Ok r else Err InvalidOperation.

(** [d.to_integral_value(rounding=ROUND_FLOOR / ROUND_CEILING)]. *)
Definition dfloor (d : dec) : dec :=
  if 0 <=? dexp d then d else mkDec (coef d / 10 ^ (- dexp d)) 0.
Definition dceil (d : dec) : dec :=
  if 0 <=? dexp d then d else mkDec (- ((- coef d) / 10 ^ (- dexp d))) 0.

(** [d ** 2]: libmpdec multiplies with three digits more than the context has
    and rounds the result to the context. *)
Definition fix_to (p : Z) (d : dec) : dec :=
  let nd := ndigits (coef d) in
  if nd <=? p then d
  else
    let k := nd - p in
    let c := round_he (coef d) k in
    if ndigits c <=? p then mkDec c (dexp d + k) else mkDec (c / 10) (dexp d + k + 1).
Definition dsquare (d : dec) : dec := fix_ (fix_to (prec + 3) (mkDec (coef d * coef d) (2 * dexp d))).

(** [d.sqrt()]: the integer root with one digit more than the context, made
    sticky when inexact, and rounded. *)
Definition dsqrt (d : dec) : res dec :=
  if coef d =? 0 then Ok (mkDec 0 (dexp d / 2))
  else if coef d <? 0 then Err InvalidOperation
  else
    let odd := Z.odd (dexp d) in
    let e0 := dexp d / 2 in
    let c0 := if odd then coef d * 10 else coef d in
    let l := if odd then ndigits (coef d) / 2 + 1 else (ndigits (coef d) + 1) / 2 in
    let shift := prec + 1 - l in
    let c := if 0 <=? shift then c0 * 100 ^ shift else c0 / 100 ^ (- shift) in
    let whole := if 0 <=? shift then true else c0 mod 100 ^ (- shift) =? 0 in
    let n := Z.sqrt c in
    if whole && (n * n =? c) then
      Ok (fix_ (mkDec (if 0 <=? shift then n / 10 ^ shift else n * 10 ^ (- shift)) e0))
    else Ok (fix_ (mkDec (if n mod 5 =? 0 then n + 1 else n) (e0 - shift))).

(** [sum(l, Decimal(0))]. *)
Definition dsum (l : list dec) : dec := foldl dadd dzero l.

(** [Decimal("1.25")] is written [125 @ -2]. *)
Notation "c @ e" := (mkDec c e) (at level 30).

(** ** Digits *)
Lemma digits_fuel_bounds f z :
  0 < z < 2 ^ (Z.of_nat f + 1) →
  1 <= digits_fuel f z ∧ 10 ^ (digits_fuel f z - 1) <= z < 10 ^ digits_fuel f z.
Proof.
  revert z; induction f as [|f IH]; intros z Hz; cbn [digits_fuel].
  - assert (z = 1) as -> by (change (2 ^ (Z.of_nat 0 + 1)) with 2 in Hz; lia). cbn; lia.
  - destruct (Z.ltb_spec z 10) as [Hlt|Hge]; [cbn; lia|].
    assert (2 ^ (Z.of_nat (S f) + 1) = 2 * 2 ^ (Z.of_nat f + 1)) as Hp.
    { rewrite <- Z.pow_succ_r by lia. f_equal; lia. }
    assert (0 < z / 10 < 2 ^ (Z.of_nat f + 1)) as Hq.
    { split; [apply Z.div_str_pos; lia | apply Z.div_lt_upper_bound; lia]. }
    destruct (IH _ Hq) as (Hd & Hlo & Hhi).
    set (n := digits_fuel f (z / 10)) in *.
    split; [lia|]. replace (1 + n - 1) with ((n - 1) + 1) by lia.
    replace (1 + n) with (n + 1) by lia.
    rewrite !pow10_add by lia. change (10 ^ 1) with 10.
    pose proof (Z.div_mod z 10). pose proof (Z.mod_pos_bound z 10). lia.
Qed.

Lemma ndigits_pos c : 1 <= ndigits c.
Proof.
  unfold ndigits. destruct (Z.eq_dec c 0) as [->|Hc]; [by vm_compute|].
  apply digits_fuel_bounds. rewrite Z2Nat.id by apply Z.log2_nonneg.
  pose proof (Z.log2_spec (Z.abs c)). lia.
Qed.

Lemma ndigits_bounds c : c ≠ 0 → 10 ^ (ndigits c - 1) <= Z.abs c < 10 ^ ndigits c.
Proof.
  intros Hc. unfold ndigits. apply digits_fuel_bounds.
  rewrite Z2Nat.id by apply Z.log2_nonneg. pose proof (Z.log2_spec (Z.abs c)). lia.
Qed.

Lemma ndigits_le c k : 1 <= k → (ndigits c <= k ↔ Z.abs c < 10 ^ k).
Proof.
  intros Hk. destruct (Z.eq_dec c 0) as [->|Hc].
  { change (ndigits 0) with 1. split; intros _; [apply pow10_gt0; lia | done]. }
  pose proof (ndigits_bounds c Hc) as [Hlo Hhi]. pose proof (ndigits_pos c). split; intros H0.
  - eapply Z.lt_le_trans; [exact Hhi|]. by apply pow10_mono.
  - apply Z.nlt_ge; intros Hlt. pose proof (pow10_mono k (ndigits c - 1)). lia.
Qed.

Lemma ndigits_fits c : Z.abs c < 10 ^ prec → (ndigits c <=? prec) = true.
Proof. intros H. apply Z.leb_le. apply ndigits_le; [unfold prec; lia | done]. Qed.

Lemma ndigits_abs c : ndigits (Z.abs c) = ndigits c.
Proof. unfold ndigits. by rewrite Z.abs_idemp. Qed.

(** ** Half-even rounding of integers *)
Lemma div_half_even_spec n d :
  0 <= n → 0 < d → 2 * Z.abs (div_half_even n d * d - n) <= d ∧ 0 <= div_half_even n d.
Proof.
  intros Hn Hd. unfold div_half_even.
  pose proof (Z.div_mod n d). pose proof (Z.mod_pos_bound n d Hd). pose proof (Z.div_pos n d Hn Hd).
  assert (Hm : n = d * (n / d) + n mod d) by lia.
  set (q := n / d) in *. set (r := n mod d) in *.
  destruct (Z.ltb_spec (2 * r) d); [nia|].
  destruct (Z.ltb_spec d (2 * r)); [nia|].
  destruct (Z.even q); nia.
Qed.

Lemma round_he_spec c k :
  0 <= k → 2 * Z.abs (round_he c k * 10 ^ k - c) <= 10 ^ k.
Proof.
  intros Hk. unfold round_he. pose proof (pow10_gt0 k Hk).
  pose proof (div_half_even_spec (Z.abs c) (10 ^ k) (Z.abs_nonneg c) ltac:(lia)) as [Hb _].
  set (q := div_half_even (Z.abs c) (10 ^ k)) in *.
  destruct (Z.lt_trichotomy c 0) as [Hc|[->|Hc]].
  - replace (Z.sgn c) with (-1) by (symmetry; by apply Z.sgn_neg). lia.
  - cbn. lia.
  - replace (Z.sgn c) with 1 by (symmetry; by apply Z.sgn_pos). lia.
Qed.

Lemma round_he_nonneg c k : 0 <= k → 0 <= c → 0 <= round_he c k.
Proof.
  intros Hk Hc. unfold round_he.
  pose proof (div_half_even_spec (Z.abs c) (10 ^ k) (Z.abs_nonneg c) (pow10_gt0 k Hk)).
  destruct (Z.eq_dec c 0) as [->|]; [cbn; lia|].
  rewrite Z.sgn_pos by lia. lia.
Qed.

Lemma round_he_opp c k : round_he (- c) k = - round_he c k.
Proof. unfold round_he. rewrite Z.sgn_opp, Z.abs_opp. lia. Qed.

Lemma div_half_even_mul q d : 0 <= q → 0 < d → div_half_even (q * d) d = q.
Proof.
  intros Hq Hd. unfold div_half_even. rewrite Z.div_mul, Z.mod_mul by lia.
  destruct (Z.ltb_spec (2 * 0) d); lia.
Qed.

Lemma round_he_exact c k : 0 <= k → round_he (c * 10 ^ k) k = c.
Proof.
  intros Hk. unfold round_he. pose proof (pow10_gt0 k Hk).
  rewrite Z.sgn_mul, Z.abs_mul, (Z.abs_eq (10 ^ k)), (Z.sgn_pos (10 ^ k)), Z.mul_1_r by lia.
  rewrite div_half_even_mul by lia. rewrite Z.mul_comm. apply Z.abs_sgn.
Qed.

(** ** Values

    The rational a decimal stands for; the accuracy lemmas relate each
    operation to the exact one. *)
Definition p10 (e : Z) : Q := Qpower (10 # 1) e.
Definition dval (d : dec) : Q := (inject_Z (coef d) * p10 (dexp d))%Q.

Lemma p10_pos e : (0 < p10 e)%Q.
Proof. apply Qpower_0_lt. reflexivity. Qed.
#[export] Hint Resolve p10_pos : scalper.

Lemma p10_add a b : (p10 (a + b) == p10 a * p10 b)%Q.
Proof. apply Qpower_plus. discriminate. Qed.

Lemma p10_Z k : 0 <= k → (p10 k == inject_Z (10 ^ k))%Q.
Proof. intros Hk. unfold p10. change (10 # 1)%Q with (inject_Z 10). by rewrite Zpower_Qpower. Qed.

Lemma p10_shift a b : a <= b → (p10 b == inject_Z (10 ^ (b - a)) * p10 a)%Q.
Proof. intros H. rewrite <- p10_Z by lia. rewrite <- p10_add. by replace (b - a + a) with b by lia. Qed.

Lemma dval_at d e : e <= dexp d → (dval d == inject_Z (at_exp d e) * p10 e)%Q.
Proof. intros H. unfold dval, at_exp. rewrite (p10_shift e) by done. rewrite inject_Z_mult. ring. Qed.

Lemma Qmul_p10_le x y e : (inject_Z x * p10 e <= inject_Z y * p10 e)%Q ↔ x <= y.
Proof.
  rewrite Qmult_le_r by apply p10_pos. by rewrite <- Zle_Qle.
Qed.

Lemma Qmul_p10_eq x y e : (inject_Z x * p10 e == inject_Z y * p10 e)%Q ↔ x = y.
Proof.
  split; [|by intros ->]. intros H. rewrite Qmult_inj_r in H.
  - by apply inject_Z_injective.
  - intros H0. pose proof (p10_pos e) as Hp. rewrite H0 in Hp. by apply Qlt_irrefl in Hp.
Qed.

Lemma common_exp_l a b : common_exp a b <= dexp a.
Proof. unfold common_exp; lia. Qed.
Lemma common_exp_r a b : common_exp a b <= dexp b.
Proof. unfold common_exp; lia. Qed.

Lemma dleb_spec a b : dleb a b = true ↔ (dval a <= dval b)%Q.
Proof.
  unfold dleb. rewrite Z.leb_le, <- (Qmul_p10_le _ _ (common_exp a b)).
  rewrite (dval_at a _ (common_exp_l a b)), (dval_at b _ (common_exp_r a b)). done.
Qed.

Lemma dltb_spec a b : dltb a b = true ↔ (dval a < dval b)%Q.
Proof.
  unfold dltb. rewrite negb_true_iff, <- not_true_iff_false, dleb_spec.
  split; [apply Qnot_le_lt | apply Qlt_not_le].
Qed.

Lemma deqb_spec a b : deqb a b = true ↔ (dval a == dval b)%Q.
Proof.
  unfold deqb. rewrite Z.eqb_eq, <- (Qmul_p10_eq _ _ (common_exp a b)).
  rewrite (dval_at a _ (common_exp_l a b)), (dval_at b _ (common_exp_r a b)). done.
Qed.

Lemma dleb_false a b : dleb a b = false ↔ (dval b < dval a)%Q.
Proof. rewrite <- dltb_spec. unfold dltb. by rewrite negb_true_iff. Qed.
Lemma dltb_false a b : dltb a b = false ↔ (dval b <= dval a)%Q.
Proof. rewrite <- dleb_spec. unfold dltb. by rewrite negb_false_iff. Qed.

Lemma dval_sign d : ((0 <= dval d)%Q ↔ 0 <= coef d) ∧ ((0 < dval d)%Q ↔ 0 < coef d).
Proof.
  unfold dval. pose proof (p10_pos (dexp d)) as Hp. split; split; intros H.
  - rewrite Zle_Qle. rewrite <- (Qmult_le_r _ _ (p10 (dexp d))) by done. by rewrite Qmult_0_l.
  - apply Qmult_le_0_compat; [by rewrite (Zle_Qle 0) in H | by apply Qlt_le_weak].
  - rewrite Zlt_Qlt. rewrite <- (Qmult_lt_r _ _ (p10 (dexp d))) by done. by rewrite Qmult_0_l.
  - apply Qmult_lt_0_compat; [by rewrite (Zlt_Qlt 0) in H | done].
Qed.

Lemma dleb_zero_r a : dleb a dzero = true ↔ coef a <= 0.
Proof.
  rewrite dleb_spec. pose proof (dval_sign a) as [_ H].
  change (dval dzero) with (inject_Z 0 * p10 0)%Q.
  assert (inject_Z 0 * p10 0 == 0)%Q as -> by ring.
  split; intros Ha.
  - apply Z.nlt_ge. rewrite <- H. by apply Qle_not_lt.
  - apply Qnot_lt_le. rewrite H. lia.
Qed.

(** ** Rounding to the context *)
Lemma fix_small d : Z.abs (coef d) < 10 ^ prec → fix_ d = d.
Proof. intros H. unfold fix_. by rewrite (ndigits_fits _ H). Qed.

Lemma div_half_even_mul_le n q d : 0 <= n → 0 < d → n <= q * d → div_half_even n d <= q.
Proof.
  intros Hn Hd Hq. unfold div_half_even.
  pose proof (Z.div_mod n d ltac:(lia)). pose proof (Z.mod_pos_bound n d Hd).
  set (x := n / d) in *. set (r := n mod d) in *.
  destruct (Z.ltb_spec (2 * r) d); [nia|]. destruct (Z.ltb_spec d (2 * r)); [nia|].
  destruct (Z.even x); nia.
Qed.

(** The rounded coefficient has at most one digit too many, and then it is
    exactly +-10^28. *)
Lemma round_he_prec c :
  prec < ndigits c → Z.abs (round_he c (ndigits c - prec)) <= 10 ^ prec.
Proof.
  intros H. assert (c ≠ 0) as Hc by (intros ->; by vm_compute in H).
  set (k := ndigits c - prec) in *. assert (0 < k) by lia.
  unfold round_he. rewrite Z.abs_mul.
  assert (Z.abs (Z.sgn c) = 1) as -> by lia.
  pose proof (div_half_even_spec (Z.abs c) (10 ^ k) ltac:(lia) ltac:(lia)) as [_ Hp].
  rewrite Z.mul_1_l, Z.abs_eq by done. apply div_half_even_mul_le; [lia..|].
  rewrite <- pow10_add by (unfold prec in *; lia).
  replace (prec + k) with (ndigits c) by lia. pose proof (ndigits_bounds c Hc). lia.
Qed.

(** [fix_] either returns its argument or rounds at [k = digits - 28]. *)
Lemma fix_cases d :
  (fix_ d = d ∧ Z.abs (coef d) < 10 ^ prec) ∨
  ∃ k, 0 < k ∧ k = ndigits (coef d) - prec ∧ Z.abs (coef (fix_ d)) < 10 ^ prec ∧
       (dval (fix_ d) == inject_Z (round_he (coef d) k) * p10 (dexp d + k))%Q.
Proof.
  unfold fix_. destruct (Z.leb_spec (ndigits (coef d)) prec) as [Hle|Hgt].
  { left. split; [done|]. apply ndigits_le in Hle; [done | unfold prec; lia]. }
  right. exists (ndigits (coef d) - prec). split; [lia|]. split; [done|].
  pose proof (round_he_prec (coef d) Hgt) as Hr.
  set (k := ndigits (coef d) - prec) in *. set (c := round_he (coef d) k) in *.
  destruct (Z.leb_spec (ndigits c) prec) as [Hc|Hc]; cbn [coef dexp].
  { split; [apply ndigits_le in Hc; [done | unfold prec; lia] | done]. }
  assert (Z.abs c = 10 ^ prec) as Habs.
  { apply Z.le_antisymm; [done|]. apply Z.nlt_ge. intros Hlt.
    apply ndigits_le in Hlt; [lia | unfold prec; lia]. }
  assert (c = 10 * (c / 10)) as Hdiv.
  { apply Z.div_exact; [lia|]. assert (c = 10 ^ 28 ∨ c = - 10 ^ 28) as [->| ->]
      by (change prec with 28 in Habs; lia); by vm_compute. }
  split.
  { change (10 ^ prec) with (10 * 10 ^ 27) in *. lia. }
  unfold dval; cbn [coef dexp]. rewrite (p10_add (dexp d + k) 1).
  change (p10 1) with (inject_Z 10).
  rewrite Hdiv at 2. rewrite inject_Z_mult. ring.
Qed.

Lemma fix_exp d : dexp d <= dexp (fix_ d).
Proof. unfold fix_. repeat case_match; cbn; bool_simpl; lia. Qed.
Lemma fix_bounded d : Z.abs (coef (fix_ d)) < 10 ^ prec.
Proof. destruct (fix_cases d) as [[-> H]|(k & _ & _ & H & _)]; done. Qed.

Lemma fix_fix d : fix_ (fix_ d) = fix_ d.
Proof. apply fix_small, fix_bounded. Qed.

Lemma inject_Z_sub a b : (inject_Z (a - b) == inject_Z a - inject_Z b)%Q.
Proof. unfold Z.sub. rewrite inject_Z_plus, inject_Z_opp. ring. Qed.

Lemma inject_Z_abs a : (Qabs (inject_Z a) == inject_Z (Z.abs a))%Q.
Proof. done. Qed.

Lemma Qabs_mul_p10 x e : (Qabs (x * p10 e) == Qabs x * p10 e)%Q.
Proof. rewrite Qabs_Qmult. rewrite (Qabs_pos (p10 e)); [done | apply Qlt_le_weak, p10_pos]. Qed.

(** The unit roundoff of the context: half a unit in the 28th digit. *)
Definition ulp_rel : Q := (5 # 10) * p10 (-27).

(** Rounding to the context is accurate to one part in 2*10^27. *)
Lemma fix_rel d : (Qabs (dval (fix_ d) - dval d) <= ulp_rel * Qabs (dval d))%Q.
Proof.
  assert (0 <= ulp_rel)%Q as Hu by (vm_compute; discriminate).
  destruct (fix_cases d) as [[-> _]|(k & Hk & Hkd & _ & ->)].
  { assert (dval d - dval d == 0)%Q as -> by ring. cbn [Qabs].
    apply Qmult_le_0_compat; [done | apply Qabs_nonneg]. }
  assert (coef d ≠ 0) as Hc0.
  { intros H0. rewrite H0 in Hkd. vm_compute in Hkd. lia. }
  pose proof (ndigits_bounds _ Hc0) as [Hlo _].
  pose proof (round_he_spec (coef d) k ltac:(lia)) as Hr.
  set (c := round_he (coef d) k) in *. unfold dval.
  assert (inject_Z c * p10 (dexp d + k) - inject_Z (coef d) * p10 (dexp d) ==
          inject_Z (c * 10 ^ k - coef d) * p10 (dexp d))%Q as ->.
  { rewrite p10_add, (p10_Z k) by lia. rewrite inject_Z_sub, inject_Z_mult. ring. }
  rewrite !Qabs_mul_p10, !inject_Z_abs, Qmult_assoc. apply Qmult_le_compat_r; [|apply Qlt_le_weak, p10_pos].
  assert (Z.abs (coef d) >= 10 ^ 27 * 10 ^ k) as Hbig.
  { rewrite <- pow10_add by lia. replace (27 + k) with (ndigits (coef d) - 1) by (unfold prec in *; lia). lia. }
  assert (2 * 10 ^ 27 * Z.abs (c * 10 ^ k - coef d) <= Z.abs (coef d)) as Hz by lia.
  rewrite Zle_Qle, inject_Z_mult in Hz.
  unfold ulp_rel. change (p10 (-27)) with (1 # 1000000000000000000000000000)%Q.
  change (inject_Z (2 * 10 ^ 27)) with (2000000000000000000000000000 # 1)%Q in Hz. lra.
Qed.

(** A value with at most 28 significant digits is not changed. *)
Lemma fix_representable d m j :
  Z.abs m < 10 ^ prec → (dval d == inject_Z m * p10 j)%Q → (dval (fix_ d) == dval d)%Q.
Proof.
  intros Hm Hv. destruct (fix_cases d) as [[-> _]|(k & Hk & Hkd & _ & ->)]; [done|].
  assert (coef d ≠ 0) as Hc0 by (intros H0; rewrite H0 in Hkd; vm_compute in Hkd; lia).
  pose proof (ndigits_bounds _ Hc0) as [Hlo _].
  destruct (Z.le_gt_cases j (dexp d)) as [Hj|Hj].
  - exfalso. rewrite (dval_at d j Hj) in Hv. apply Qmul_p10_eq in Hv. unfold at_exp in Hv.
    assert (10 ^ prec <= 10 ^ (ndigits (coef d) - 1)) by (apply pow10_mono; lia).
    pose proof (pow10_gt0 (dexp d - j)). nia.
  - unfold dval in Hv. rewrite (p10_shift (dexp d) j) in Hv by lia.
    rewrite Qmult_assoc, <- inject_Z_mult in Hv. apply Qmul_p10_eq in Hv.
    assert (k <= j - dexp d) as Hkj.
    { apply Z.nlt_ge. intros Hlt.
      assert (10 ^ (prec + (j - dexp d)) <= 10 ^ (ndigits (coef d) - 1)) as Hp by (apply pow10_mono; lia).
      rewrite pow10_add in Hp by (unfold prec; lia). pose proof (pow10_gt0 (j - dexp d)). nia. }
    assert (coef d = (m * 10 ^ (j - dexp d - k)) * 10 ^ k) as Hd.
    { rewrite Hv, <- Z.mul_assoc, <- pow10_add by lia. do 2 f_equal. lia. }
    set (x := m * 10 ^ (j - dexp d - k)) in *. unfold dval. rewrite Hd.
    rewrite round_he_exact, p10_add, (p10_Z k), inject_Z_mult by lia. ring.
Qed.

Lemma round_he_sgn c k : 0 <= k → 0 <= round_he c k * Z.sgn c.
Proof.
  intros Hk. unfold round_he.
  pose proof (div_half_even_spec (Z.abs c) (10 ^ k) (Z.abs_nonneg c) (pow10_gt0 k Hk)). nia.
Qed.

Lemma fix_nonneg d : 0 <= coef d → 0 <= coef (fix_ d).
Proof.
  intros H. unfold fix_. destruct (Z.leb_spec (ndigits (coef d)) prec); [done|].
  pose proof (round_he_nonneg (coef d) (ndigits (coef d) - prec) ltac:(lia) H).
  destruct (Z.leb _ _); cbn; [done | by apply Z.div_pos].
Qed.

Lemma fix_pos d : 0 < coef d → 0 < coef (fix_ d).
Proof.
  intros H. pose proof (fix_rel d) as Hr. apply dval_sign. apply (dval_sign d) in H.
  rewrite (Qabs_pos (dval d)) in Hr by (by apply Qlt_le_weak).
  apply Qabs_Qle_condition in Hr as [Hr _].
  assert (ulp_rel < 1)%Q as Hu by (by vm_compute). nra.
Qed.

(** ** Accuracy of the operations *)
Lemma dadd_rel a b :
  (Qabs (dval (dadd a b) - (dval a + dval b)) <= ulp_rel * Qabs (dval a + dval b))%Q.
Proof.
  unfold dadd. set (e := common_exp a b). set (d := mkDec (at_exp a e + at_exp b e) e).
  assert (dval d == dval a + dval b)%Q as Hd.
  { unfold d, dval at 1; cbn [coef dexp]. rewrite inject_Z_plus.
    rewrite (dval_at a e (common_exp_l a b)), (dval_at b e (common_exp_r a b)). ring. }
  rewrite <- Hd. apply fix_rel.
Qed.

Lemma dsub_rel a b :
  (Qabs (dval (dsub a b) - (dval a - dval b)) <= ulp_rel * Qabs (dval a - dval b))%Q.
Proof.
  unfold dsub. set (e := common_exp a b). set (d := mkDec (at_exp a e - at_exp b e) e).
  assert (dval d == dval a - dval b)%Q as Hd.
  { unfold d, dval at 1; cbn [coef dexp]. rewrite inject_Z_sub.
    rewrite (dval_at a e (common_exp_l a b)), (dval_at b e (common_exp_r a b)). ring. }
  rewrite <- Hd. apply fix_rel.
Qed.

(** One more rounding on top of an error [e]. *)
Lemma rel_step (y0 y z e u A : Q) :
  (0 <= u)%Q → (Qabs (y - y0) <= e)%Q → (Qabs y0 <= A)%Q → (Qabs (z - y) <= u * Qabs y)%Q →
  (Qabs (z - y0) <= e + u * (A + e))%Q.
Proof.
  intros Hu H1 H2 H3.
  assert (Qabs y <= A + e)%Q as Hy.
  { apply Qle_trans with (Qabs y0 + Qabs (y - y0))%Q; [|lra].
    eapply Qle_trans; [|apply Qabs_triangle]. apply Qle_lteq. right. apply Qabs_wd. ring. }
  apply Qle_trans with (Qabs (z - y) + Qabs (y - y0))%Q.
  { eapply Qle_trans; [|apply Qabs_triangle]. apply Qle_lteq. right. apply Qabs_wd. ring. }
  assert (u * Qabs y <= u * (A + e))%Q by (rewrite !(Qmult_comm u); by apply Qmult_le_compat_r). lra.
Qed.

Lemma dadd_exact_value a b : (dval (dadd_exact a b) == dval a + dval b)%Q.
Proof.
  unfold dadd_exact. set (e := common_exp a b). unfold dval at 1; cbn [coef dexp].
  rewrite inject_Z_plus, (dval_at a e (common_exp_l a b)), (dval_at b e (common_exp_r a b)). ring.
Qed.

Lemma dsub_value a b :
  Z.abs (at_exp a (common_exp a b) - at_exp b (common_exp a b)) < 10 ^ prec →
  (dval (dsub a b) == dval a - dval b)%Q.
Proof.
  intros H. unfold dsub. rewrite fix_small by done. unfold dval at 1; cbn [coef dexp].
  rewrite inject_Z_sub, (dval_at a _ (common_exp_l a b)), (dval_at b _ (common_exp_r a b)). ring.
Qed.

Lemma dadd_value a b :
  Z.abs (at_exp a (common_exp a b) + at_exp b (common_exp a b)) < 10 ^ prec →
  (dval (dadd a b) == dval a + dval b)%Q.
Proof.
  intros H. unfold dadd. rewrite fix_small by done. apply dadd_exact_value.
Qed.

Lemma dmul_exact_val a b : (dval (mkDec (coef a * coef b) (dexp a + dexp b)) == dval a * dval b)%Q.
Proof. unfold dval; cbn [coef dexp]. rewrite inject_Z_mult, p10_add. ring. Qed.

Lemma dmul_rel a b :
  (Qabs (dval (dmul a b) - dval a * dval b) <= ulp_rel * Qabs (dval a * dval b))%Q.
Proof. unfold dmul. rewrite <- dmul_exact_val. apply fix_rel. Qed.

Lemma dmul_value a b :
  Z.abs (coef a * coef b) < 10 ^ prec → (dval (dmul a b) == dval a * dval b)%Q.
Proof. intros H. unfold dmul. rewrite fix_small by done. apply dmul_exact_val. Qed.

Lemma dmul_representable a b m j :
  Z.abs m < 10 ^ prec → (dval a * dval b == inject_Z m * p10 j)%Q →
  (dval (dmul a b) == dval a * dval b)%Q.
Proof.
  intros Hm Hv. unfold dmul. rewrite (fix_representable _ m j Hm); [apply dmul_exact_val|].
  by rewrite dmul_exact_val.
Qed.

Lemma dmul_nonneg a b : 0 <= coef a → 0 <= coef b → 0 <= coef (dmul a b).
Proof. intros. apply fix_nonneg. cbn. nia. Qed.

Lemma dmul_pos a b : 0 < coef a → 0 < coef b → 0 < coef (dmul a b).
Proof. intros. apply fix_pos. cbn. nia. Qed.

Lemma dabs_nonneg a : 0 <= coef (dabs a).
Proof. apply fix_nonneg. cbn. lia. Qed.
#[export] Hint Resolve dmul_nonneg dmul_pos dabs_nonneg fix_nonneg fix_pos : scalper.

(** ** Division *)
Lemma strip_zeros_value f c e ideal : (dval (strip_zeros f c e ideal) == inject_Z c * p10 e)%Q.
Proof.
  revert c e; induction f as [|f IH]; intros c e; cbn [strip_zeros]; [done|].
  destruct (_ && _) eqn:Hb; [|done]. bool_simpl.
  rewrite IH, p10_add. change (p10 1) with (inject_Z 10).
  assert (c = 10 * (c / 10)) as Hc by (apply Z.div_exact; lia).
  rewrite Hc at 2. rewrite inject_Z_mult. ring.
Qed.

Lemma strip_zeros_nonneg f c e ideal : 0 <= c → 0 <= coef (strip_zeros f c e ideal).
Proof.
  revert c e; induction f as [|f IH]; intros c e Hc; cbn [strip_zeros]; [done|].
  destruct (_ && _); [|done]. apply IH, Z.div_pos; lia.
Qed.

(** The scaled numerator and denominator of [ddiv]: the quotient has at least
    29 digits, one more than the precision. *)
Lemma ddiv_scaled A B s :
  A ≠ 0 → B ≠ 0 → s = ndigits B - ndigits A + prec + 1 →
  10 ^ prec * (Z.abs B * 10 ^ Z.max 0 (- s)) <= Z.abs A * 10 ^ Z.max 0 s.
Proof.
  intros HA HB Hs.
  pose proof (ndigits_bounds A HA) as [HA1 _]. pose proof (ndigits_bounds B HB) as [_ HB2].
  pose proof (ndigits_pos A). pose proof (ndigits_pos B).
  destruct (Z.le_gt_cases 0 s) as [Hp|Hn].
  - rewrite (Z.max_r 0 s), (Z.max_l 0 (- s)) by lia. rewrite Z.pow_0_r, Z.mul_1_r.
    assert (10 ^ (ndigits A - 1) * 10 ^ s = 10 ^ prec * 10 ^ ndigits B) as He.
    { rewrite <- !pow10_add by (unfold prec in *; lia). f_equal. lia. }
    pose proof (pow10_gt0 s Hp). pose proof (pow10_gt0 prec ltac:(unfold prec; lia)). nia.
  - rewrite (Z.max_l 0 s), (Z.max_r 0 (- s)) by lia. rewrite Z.pow_0_r, Z.mul_1_r.
    assert (10 ^ prec * (10 ^ ndigits B * 10 ^ (- s)) = 10 ^ (ndigits A - 1)) as He.
    { rewrite <- !pow10_add by (unfold prec in *; lia). f_equal. lia. }
    pose proof (pow10_gt0 (- s) ltac:(lia)). pose proof (pow10_gt0 prec ltac:(unfold prec; lia)). nia.
Qed.

(** An integer quotient candidate [c] of the scaled fraction, as a decimal. *)
Lemma ddiv_residual a b c s :
  coef b ≠ 0 →
  let n := Z.abs (coef a) * 10 ^ Z.max 0 s in
  let d := Z.abs (coef b) * 10 ^ Z.max 0 (- s) in
  let u := (inject_Z (Z.sgn (coef a)) * p10 (dexp a - Z.max 0 s))%Q in
  (dval (mkDec (Z.sgn (coef a) * Z.sgn (coef b) * c) (dexp a - dexp b - s)) * dval b
     == inject_Z (c * d) * u)%Q ∧
  (dval a == inject_Z n * u)%Q.
Proof.
  intros Hb n d u.
  assert (p10 (dexp a - dexp b - s) * p10 (dexp b) ==
          inject_Z (10 ^ Z.max 0 (- s)) * p10 (dexp a - Z.max 0 s))%Q as Hp.
  { rewrite <- p10_add, <- p10_Z, <- p10_add by lia.
    replace (dexp a - dexp b - s + dexp b) with (Z.max 0 (- s) + (dexp a - Z.max 0 s)) by lia. done. }
  assert (p10 (dexp a) == inject_Z (10 ^ Z.max 0 s) * p10 (dexp a - Z.max 0 s))%Q as Ha.
  { rewrite <- p10_Z, <- p10_add by lia.
    replace (Z.max 0 s + (dexp a - Z.max 0 s)) with (dexp a) by lia. done. }
  split.
  - unfold dval, u, d; cbn [coef dexp].
    assert (Z.abs (coef b) = Z.sgn (coef b) * coef b) as Hab by (rewrite Z.mul_comm; symmetry; apply Z.sgn_abs).
    rewrite Hab, !inject_Z_mult.
    transitivity (inject_Z (Z.sgn (coef a)) * inject_Z (Z.sgn (coef b)) * inject_Z c * inject_Z (coef b)
                  * (p10 (dexp a - dexp b - s) * p10 (dexp b)))%Q; [ring|]. rewrite Hp. ring.
  - unfold dval, u, n. rewrite Ha. rewrite <- (Z.abs_sgn (coef a)) at 1.
    rewrite !inject_Z_mult. ring.
Qed.

(** Every successful division is the context rounding of an integer quotient
    [c] within one unit of the exact scaled quotient [n / d >= 10^28]. *)
Lemma ddiv_cases a b q :
  ddiv a b = Ok q → coef a ≠ 0 →
  coef b ≠ 0 ∧
  ∃ x c n d u, q = fix_ x ∧ 0 < d ∧ 0 <= c ∧ 10 ^ prec * d <= n ∧ Z.abs (c * d - n) < d ∧
    coef x * (Z.sgn (coef a) * Z.sgn (coef b)) >= 0 ∧
    (n mod d = 0 → c * d = n) ∧
    (dval x * dval b == inject_Z (c * d) * u)%Q ∧ (dval a == inject_Z n * u)%Q ∧
    ∃ sg e, Z.abs sg = 1 ∧ (inject_Z sg * p10 e * dval b == inject_Z d * u)%Q.
Proof.
  unfold ddiv. intros H Ha.
  destruct (Z.eqb_spec (coef b) 0) as [|Hb]; [discriminate|].
  destruct (Z.eqb_spec (coef a) 0) as [|_]; [done|]. split; [done|].
  set (s := ndigits (coef b) - ndigits (coef a) + prec + 1) in *.
  set (n := Z.abs (coef a) * 10 ^ Z.max 0 s) in *.
  set (d := Z.abs (coef b) * 10 ^ Z.max 0 (- s)) in *.
  set (e := dexp a - dexp b - s) in *.
  set (sg := Z.sgn (coef a) * Z.sgn (coef b)) in *.
  set (u := (inject_Z (Z.sgn (coef a)) * p10 (dexp a - Z.max 0 s))%Q).
  assert (0 < d) as Hd by (unfold d; pose proof (pow10_gt0 (Z.max 0 (- s)) ltac:(lia)); nia).
  assert (10 ^ prec * d <= n) as Hn by (by apply ddiv_scaled).
  assert (0 <= n / d) as Hq by (apply Z.div_pos; [unfold n|]; lia).
  pose proof (Z.div_mod n d ltac:(lia)) as Hdm. pose proof (Z.mod_pos_bound n d Hd) as Hm.
  assert (sg * sg = 1) as Hsg by (unfold sg; lia).
  assert (∃ sg e, Z.abs sg = 1 ∧ (inject_Z sg * p10 e * dval b == inject_Z d * u)%Q) as Hunit.
  { exists sg, e. split; [unfold sg; lia|]. destruct (ddiv_residual a b 1 s Hb) as [Hr _].
    rewrite Z.mul_1_r, Z.mul_1_l in Hr. exact Hr. }
  destruct (Z.eqb_spec (n mod d) 0) as [H0|H0]; inv_ok.
  - set (f := Z.to_nat _) in H. pose proof (strip_zeros_value f (n / d) e (dexp a - dexp b)) as Hv.
    pose proof (strip_zeros_nonneg f (n / d) e (dexp a - dexp b) Hq) as Hnn.
    set (t := strip_zeros f (n / d) e (dexp a - dexp b)) in *.
    exists (mkDec (sg * coef t) (dexp t)), (n / d), n, d, u. cbn [coef].
    split; [done|]. do 3 (split; [done|]). split; [lia|]. split; [nia|]. split; [lia|].
    destruct (ddiv_residual a b (n / d) s Hb) as [Hr1 Hr2]. split; [|by split].
    fold sg d e u in Hr1. rewrite <- Hr1. apply Qmult_comp; [|done].
    unfold dval; cbn [coef dexp]. rewrite !inject_Z_mult, <- !Qmult_assoc.
    apply Qmult_comp; [done | exact Hv].
  - set (c := if n / d mod 5 =? 0 then n / d + 1 else n / d) in *.
    assert (c = n / d ∨ c = n / d + 1) as Hc by (unfold c; destruct (_ =? 0); lia).
    exists (mkDec (sg * c) e), c, n, d, u. cbn [coef].
    split; [done|]. split; [done|]. split; [lia|]. split; [done|].
    split; [destruct Hc as [-> | ->]; nia|]. split; [nia|]. split; [done|].
    destruct (ddiv_residual a b c s Hb) as [Hr1 Hr2]. done.
Qed.

Lemma ddiv_ok a b : coef b ≠ 0 → ∃ q, ddiv a b = Ok q.
Proof.
  intros Hb. unfold ddiv. destruct (Z.eqb_spec (coef b) 0); [done|].
  destruct (coef a =? 0); [eauto|]. destruct (_ =? 0); eauto.
Qed.

Lemma ddiv_zero_l a b q : ddiv a b = Ok q → coef a = 0 → (dval q == 0)%Q ∧ coef q = 0 ∧ coef b ≠ 0.
Proof.
  unfold ddiv. intros H H0. destruct (Z.eqb_spec (coef b) 0); [discriminate|].
  rewrite H0 in H. cbn in H. inv_ok. subst q. unfold dval; cbn. split; [ring | done].
Qed.

(** The quotient is accurate to one part in 10^27. *)
Lemma ddiv_rel a b q :
  ddiv a b = Ok q → (Qabs (dval q * dval b - dval a) <= p10 (-27) * Qabs (dval a))%Q.
Proof.
  intros H. destruct (Z.eq_dec (coef a) 0) as [H0|H0].
  { destruct (ddiv_zero_l a b q H H0) as [-> _].
    assert (dval a == 0)%Q as -> by (unfold dval; rewrite H0; ring).
    assert (0 * dval b - 0 == 0)%Q as -> by ring. vm_compute. discriminate. }
  destruct (ddiv_cases a b q H H0) as (_ & x & c & n & d & u & -> & Hd & Hc & Hn & Hcn & _ & _ & Hx & Ha & _).
  assert (Qabs (dval x * dval b - dval a) <= p10 (-28) * Qabs (dval a))%Q as H1.
  { rewrite Hx, Ha. assert (inject_Z (c * d) * u - inject_Z n * u == inject_Z (c * d - n) * u)%Q as ->
      by (rewrite inject_Z_sub; ring).
    rewrite !Qabs_Qmult, Qmult_assoc. apply Qmult_le_compat_r; [|apply Qabs_nonneg].
    rewrite !inject_Z_abs.
    assert (10 ^ 28 * Z.abs (c * d - n) <= Z.abs n) as Hz by (unfold prec in *; lia).
    rewrite Zle_Qle, inject_Z_mult in Hz. change (p10 (-28)) with (1 # 10000000000000000000000000000)%Q.
    change (inject_Z (10 ^ 28)) with (10000000000000000000000000000 # 1)%Q in Hz. lra. }
  pose proof (fix_rel x) as Hf.
  assert (Qabs (dval (fix_ x) * dval b - dval x * dval b) <= ulp_rel * Qabs (dval x * dval b))%Q as H2.
  { assert (dval (fix_ x) * dval b - dval x * dval b == (dval (fix_ x) - dval x) * dval b)%Q as -> by ring.
    rewrite !Qabs_Qmult, Qmult_assoc. apply Qmult_le_compat_r; [done | apply Qabs_nonneg]. }
  pose proof (Qabs_triangle (dval (fix_ x) * dval b - dval x * dval b) (dval x * dval b - dval a)) as H3.
  pose proof (Qabs_triangle (dval x * dval b - dval a) (dval a)) as H4.
  assert (dval x * dval b - dval a + dval a == dval x * dval b)%Q as E4 by ring. rewrite E4 in H4.
  assert (dval (fix_ x) * dval b - dval x * dval b + (dval x * dval b - dval a)
          == dval (fix_ x) * dval b - dval a)%Q as E3 by ring. rewrite E3 in H3.
  pose proof (Qabs_nonneg (dval a)) as H5.
  unfold ulp_rel in H2. change (p10 (-27)) with (1 # 1000000000000000000000000000)%Q in *.
  change (p10 (-28)) with (1 # 10000000000000000000000000000)%Q in *. lra.
Qed.

Lemma ddiv_nonneg a b q : ddiv a b = Ok q → 0 <= coef a → 0 < coef b → 0 <= coef q.
Proof.
  intros H Ha Hb. destruct (Z.eq_dec (coef a) 0) as [H0|H0].
  { destruct (ddiv_zero_l a b q H H0) as (_ & -> & _). done. }
  destruct (ddiv_cases a b q H H0) as (_ & x & c & n & d & u & -> & _ & _ & _ & _ & Hs & _).
  apply fix_nonneg. rewrite !Z.sgn_pos in Hs by lia. lia.
Qed.

Lemma dval_nonzero d : coef d ≠ 0 → ~ (dval d == 0)%Q.
Proof.
  unfold dval. intros Hd E. apply Qmult_integral in E as [E|E].
  - apply Hd. by apply inject_Z_injective.
  - pose proof (p10_pos (dexp d)) as Hp. rewrite E in Hp. by apply Qlt_irrefl in Hp.
Qed.

(** If the scaled quotient [n / d >= 10^28] equals a 28-digit decimal it is an integer. *)
Lemma quotient_integral m j sg e d n :
  Z.abs m < 10 ^ prec → Z.abs sg = 1 → 0 < d → 10 ^ prec * d <= n →
  (inject_Z n * p10 e == inject_Z (sg * m) * p10 j * inject_Z d)%Q → n mod d = 0.
Proof.
  intros Hm Hsg Hd Hn H. destruct (Z.le_gt_cases e j) as [Hj|Hj].
  - rewrite (p10_shift e j Hj) in H.
    assert (inject_Z n * p10 e == inject_Z (sg * m * 10 ^ (j - e) * d) * p10 e)%Q as H'
      by (rewrite H, !inject_Z_mult; ring).
    apply Qmul_p10_eq in H'. rewrite H'. apply Z.mod_mul. lia.
  - exfalso. rewrite (p10_shift j e) in H by lia.
    assert (inject_Z (n * 10 ^ (e - j)) * p10 j == inject_Z (sg * m * d) * p10 j)%Q as H'.
    { rewrite !inject_Z_mult. rewrite inject_Z_mult in H. rewrite <- Qmult_assoc, H. ring. }
    apply Qmul_p10_eq in H'. pose proof (pow10_gt0 (e - j) ltac:(lia)) as Hp.
    assert (sg * m <= Z.abs m) by nia. nia.
Qed.

(** An exact quotient of at most 28 digits is returned exactly. *)
Lemma ddiv_exact a b q m j :
  ddiv a b = Ok q → Z.abs m < 10 ^ prec → (dval a == inject_Z m * p10 j * dval b)%Q →
  (dval q == inject_Z m * p10 j)%Q.
Proof.
  intros H Hm Hv.
  assert (coef b ≠ 0) as Hb by (intros E; unfold ddiv in H; rewrite E in H; by destruct (coef a =? 0)).
  pose proof (dval_nonzero b Hb) as Hb0.
  destruct (Z.eq_dec (coef a) 0) as [H0|H0].
  { destruct (ddiv_zero_l a b q H H0) as [-> _].
    assert (dval a == 0)%Q as E by (unfold dval; rewrite H0; ring). rewrite E in Hv. symmetry in Hv.
    apply Qmult_integral in Hv as [Hv|Hv]; [by rewrite Hv | done]. }
  destruct (ddiv_cases a b q H H0)
    as (_ & x & c & n & d & u & -> & Hd & Hc & Hn & _ & _ & Hcd & Hx & Ha & sg & e & Hsg & Hu).
  assert (~ u == 0)%Q as Hu0 by (intros E; rewrite E, Qmult_0_r in Ha; by apply (dval_nonzero a)).
  assert (c * d = n) as Hcdn.
  { apply Hcd. apply (quotient_integral m j sg e d n); [done..|].
    apply (Qmult_inj_r _ _ u Hu0).
    transitivity (inject_Z n * u * p10 e)%Q; [ring|].
    transitivity (inject_Z (sg * m) * p10 j * (inject_Z d * u))%Q; [|ring].
    rewrite <- Ha, <- Hu, Hv. assert (sg = 1 ∨ sg = -1) as [-> | ->] by lia;
      rewrite inject_Z_mult; ring. }
  assert (dval x == inject_Z m * p10 j)%Q as Hxv.
  { apply (Qmult_inj_r _ _ (dval b) Hb0). by rewrite Hx, Hcdn, <- Ha, Hv. }
  by rewrite (fix_representable x m j Hm Hxv).
Qed.

(** ** Integral rounding and quantization *)
Lemma dfloor_spec d :
  ∃ n, (dval (dfloor d) == inject_Z n)%Q ∧ (inject_Z n <= dval d)%Q ∧ (dval d < inject_Z n + 1)%Q.
Proof.
  unfold dfloor. destruct (Z.leb_spec 0 (dexp d)) as [He|He].
  - exists (coef d * 10 ^ dexp d).
    assert (dval d == inject_Z (coef d * 10 ^ dexp d))%Q as Hv
      by (unfold dval; rewrite p10_Z, inject_Z_mult by done; ring).
    rewrite Hv. split; [done|]. split; lra.
  - set (k := - dexp d). assert (0 < k) as Hk by lia.
    exists (coef d / 10 ^ k). pose proof (pow10_gt0 k ltac:(lia)) as Hp.
    pose proof (Z.div_mod (coef d) (10 ^ k) ltac:(lia)) as Hdm.
    pose proof (Z.mod_pos_bound (coef d) (10 ^ k) Hp) as Hm.
    assert (inject_Z (10 ^ k) * p10 (dexp d) == 1)%Q as H1.
    { rewrite <- p10_Z, <- p10_add by lia. unfold k. by replace (- dexp d + dexp d) with 0 by lia. }
    set (q := coef d / 10 ^ k) in *.
    assert (dval (mkDec q 0) == inject_Z q)%Q as -> by (unfold dval; cbn [coef dexp]; change (p10 0) with 1%Q; ring).
    split; [done|].
    assert (inject_Z q == inject_Z (q * 10 ^ k) * p10 (dexp d))%Q as Hq.
    { rewrite inject_Z_mult, <- Qmult_assoc, H1. ring. }
    split.
    + rewrite Hq. unfold dval. apply Qmul_p10_le. lia.
    + assert (inject_Z q + 1 == inject_Z ((q + 1) * 10 ^ k) * p10 (dexp d))%Q as ->.
      { rewrite inject_Z_mult, inject_Z_plus, <- Qmult_assoc, H1. ring. }
      unfold dval. apply Qmult_lt_r; [apply p10_pos|]. rewrite <- Zlt_Qlt. lia.
Qed.

Lemma dneg_dfloor d : dceil d = mkDec (- coef (dfloor (mkDec (- coef d) (dexp d)))) (dexp (dfloor (mkDec (- coef d) (dexp d)))).
Proof.
  unfold dceil, dfloor; cbn [coef dexp]. destruct (0 <=? dexp d); cbn; [|done].
  destruct d; cbn. by rewrite Z.opp_involutive.
Qed.

Lemma dval_opp c e : (dval (mkDec (- c) e) == - dval (mkDec c e))%Q.
Proof. unfold dval; cbn [coef dexp]. rewrite inject_Z_opp. ring. Qed.
Lemma dneg_value d : Z.abs (coef d) < 10 ^ prec → (dval (dneg d) == - dval d)%Q.
Proof. intros Hd. unfold dneg. rewrite fix_small by (cbn [coef]; lia). apply dval_opp. Qed.

Lemma dceil_spec d :
  ∃ n, (dval (dceil d) == inject_Z n)%Q ∧ (dval d <= inject_Z n)%Q ∧ (inject_Z n < dval d + 1)%Q.
Proof.
  rewrite dneg_dfloor. set (d' := mkDec (- coef d) (dexp d)).
  destruct (dfloor_spec d') as (n & Hv & Hlo & Hhi).
  assert (dval d' == - dval d)%Q as Hd by (unfold d'; rewrite dval_opp; by destruct d).
  rewrite Hd in Hlo, Hhi. exists (- n). rewrite dval_opp, inject_Z_opp.
  split; [|split; lra]. destruct (dfloor d') as [c e]; cbn [coef dexp]. by rewrite Hv.
Qed.

Lemma dquantize_spec d e r :
  dquantize d e = Ok r →
  dexp r = e ∧ (Qabs (dval r - dval d) <= (1 # 2) * p10 e)%Q ∧ (e <= dexp d → (dval r == dval d)%Q).
Proof.
  unfold dquantize. destruct (ndigits _ <=? prec); intros H; inv_ok; subst r.
  unfold rescale_he. destruct (Z.leb_spec e (dexp d)) as [He|He]; cbn [dexp].
  - assert (dval (mkDec (at_exp d e) e) == dval d)%Q as Hv by (symmetry; by apply dval_at).
    split; [done|]. split; [|done]. rewrite Hv.
    assert (dval d - dval d == 0)%Q as -> by ring. change (Qabs 0) with 0%Q.
    apply Qmult_le_0_compat; [discriminate | apply Qlt_le_weak, p10_pos].
  - split; [done|]. split; [|lia].
    pose proof (round_he_spec (coef d) (e - dexp d) ltac:(lia)) as Hr.
    set (c := round_he (coef d) (e - dexp d)) in *.
    assert (dval (mkDec c e) - dval d == inject_Z (c * 10 ^ (e - dexp d) - coef d) * p10 (dexp d))%Q as ->.
    { unfold dval; cbn [coef dexp]. rewrite (p10_shift (dexp d) e) by lia. rewrite inject_Z_sub, inject_Z_mult. ring. }
    rewrite Qabs_mul_p10, inject_Z_abs, (p10_shift (dexp d) e) by lia.
    rewrite Qmult_assoc. apply Qmult_le_compat_r; [|apply Qlt_le_weak, p10_pos].
    rewrite Zle_Qle, inject_Z_mult in Hr. change (inject_Z 2) with (2 # 1)%Q in Hr. lra.
Qed.

(** ** Monotonicity against representable values

    Rounding never crosses a value of at most 28 digits. *)
Lemma div_half_even_ge n q d : 0 <= n → 0 < d → q * d <= n → q <= div_half_even n d.
Proof.
  intros Hn Hd Hq. unfold div_half_even.
  pose proof (Z.div_mod n d ltac:(lia)). pose proof (Z.mod_pos_bound n d Hd).
  assert (q <= n / d) by (apply Z.div_le_lower_bound; lia).
  destruct (_ <? _); [lia|]. destruct (_ <? _); [lia|]. destruct (Z.even _); lia.
Qed.

Lemma round_lower c k m j e :
  0 < c → 0 < k → 10 ^ (27 + k) <= c → Z.abs m < 10 ^ prec →
  (inject_Z m * p10 j <= inject_Z c * p10 e)%Q →
  (inject_Z m * p10 j <= inject_Z (round_he c k) * p10 (e + k))%Q.
Proof.
  intros Hc Hk Hbig Hm Hle. unfold round_he. rewrite Z.sgn_pos, Z.mul_1_l, Z.abs_eq by lia.
  pose proof (pow10_gt0 k ltac:(lia)) as Hkp. set (q := div_half_even c (10 ^ k)).
  assert (10 ^ 27 <= q) as Hq.
  { apply div_half_even_ge; [lia..|]. rewrite <- pow10_add by lia. done. }
  destruct (Z.le_gt_cases (e + k) j) as [Hj|Hj].
  - rewrite (p10_shift (e + k) j) by lia. rewrite Qmult_assoc, <- inject_Z_mult. apply Qmul_p10_le.
    apply div_half_even_ge; [lia..|]. apply (Qmul_p10_le _ _ e).
    assert (inject_Z (m * 10 ^ (j - (e + k)) * 10 ^ k) * p10 e == inject_Z m * p10 j)%Q as ->; [|done].
    rewrite (p10_shift e j), !inject_Z_mult by lia. replace (j - e) with (j - (e + k) + k) by lia.
    rewrite pow10_add, inject_Z_mult by lia. ring.
  - rewrite (p10_shift j (e + k)) by lia. rewrite Qmult_assoc, <- inject_Z_mult. apply Qmul_p10_le.
    assert (10 ^ 1 <= 10 ^ (e + k - j)) by (apply pow10_mono; lia).
    change (10 ^ prec) with (10 ^ 27 * 10) in Hm. change (10 ^ 1) with 10 in *. nia.
Qed.

Lemma round_upper c k m j e :
  0 < c → 0 < k → 10 ^ (27 + k) <= c → Z.abs m < 10 ^ prec →
  (inject_Z c * p10 e <= inject_Z m * p10 j)%Q →
  (inject_Z (round_he c k) * p10 (e + k) <= inject_Z m * p10 j)%Q.
Proof.
  intros Hc Hk Hbig Hm Hle. unfold round_he. rewrite Z.sgn_pos, Z.mul_1_l, Z.abs_eq by lia.
  pose proof (pow10_gt0 k ltac:(lia)) as Hkp.
  destruct (Z.le_gt_cases (e + k) j) as [Hj|Hj].
  - rewrite (p10_shift (e + k) j) by lia. rewrite Qmult_assoc, <- inject_Z_mult. apply Qmul_p10_le.
    apply div_half_even_mul_le; [lia..|]. apply (Qmul_p10_le _ _ e).
    assert (inject_Z (m * 10 ^ (j - (e + k)) * 10 ^ k) * p10 e == inject_Z m * p10 j)%Q as ->; [|done].
    rewrite (p10_shift e j), !inject_Z_mult by lia. replace (j - e) with (j - (e + k) + k) by lia.
    rewrite pow10_add, inject_Z_mult by lia. ring.
  - exfalso. set (i := Z.min e j).
    rewrite (p10_shift i e), (p10_shift i j), !Qmult_assoc, <- !inject_Z_mult in Hle by lia.
    apply Qmul_p10_le in Hle.
    assert (10 ^ (27 + k) * 10 ^ (e - i) = 10 ^ 27 * 10 ^ (e + k - i)) as E1
      by (rewrite <- !pow10_add by lia; f_equal; lia).
    assert (10 * 10 ^ (j - i) <= 10 ^ (e + k - i)) as E2.
    { change (10 * 10 ^ (j - i)) with (10 ^ 1 * 10 ^ (j - i)). rewrite <- pow10_add by lia. apply pow10_mono; lia. }
    pose proof (pow10_gt0 (e - i) ltac:(lia)). pose proof (pow10_gt0 (j - i) ltac:(lia)).
    change (10 ^ prec) with (10 ^ 27 * 10) in Hm. nia.
Qed.

Lemma fix_lower_bound d m j :
  Z.abs m < 10 ^ prec → (inject_Z m * p10 j <= dval d)%Q → (inject_Z m * p10 j <= dval (fix_ d))%Q.
Proof.
  intros Hm Hle. destruct (fix_cases d) as [[-> _]|(k & Hk & Hkd & _ & ->)]; [done|].
  assert (coef d ≠ 0) as Hc0 by (intros H0; rewrite H0 in Hkd; vm_compute in Hkd; lia).
  pose proof (ndigits_bounds _ Hc0) as [Hlo _]. replace (ndigits (coef d) - 1) with (27 + k) in Hlo by (unfold prec in *; lia).
  unfold dval in Hle. destruct (Z.le_gt_cases 0 (coef d)).
  - apply (round_lower _ k m j (dexp d)); [lia..|done].
  - assert (inject_Z (- coef d) * p10 (dexp d) <= inject_Z (- m) * p10 j)%Q as Hle' by (rewrite !inject_Z_opp; lra).
    apply (round_upper _ k _ _ (dexp d)) in Hle'; [|lia..].
    rewrite round_he_opp, !inject_Z_opp in Hle'. lra.
Qed.

Lemma fix_upper_bound d m j :
  Z.abs m < 10 ^ prec → (dval d <= inject_Z m * p10 j)%Q → (dval (fix_ d) <= inject_Z m * p10 j)%Q.
Proof.
  intros Hm Hle. destruct (fix_cases d) as [[-> _]|(k & Hk & Hkd & _ & ->)]; [done|].
  assert (coef d ≠ 0) as Hc0 by (intros H0; rewrite H0 in Hkd; vm_compute in Hkd; lia).
  pose proof (ndigits_bounds _ Hc0) as [Hlo _]. replace (ndigits (coef d) - 1) with (27 + k) in Hlo by (unfold prec in *; lia).
  unfold dval in Hle. destruct (Z.le_gt_cases 0 (coef d)).
  - apply (round_upper _ k m j (dexp d)); [lia..|done].
  - assert (inject_Z (- m) * p10 j <= inject_Z (- coef d) * p10 (dexp d))%Q as Hle' by (rewrite !inject_Z_opp; lra).
    apply (round_lower _ k _ _ (dexp d)) in Hle'; [|lia..].
    rewrite round_he_opp, !inject_Z_opp in Hle'. lra.
Qed.

(** Rounding is monotone. *)
Lemma div_half_even_mono n m d : 0 <= n → n <= m → 0 < d → div_half_even n d <= div_half_even m d.
Proof.
  intros Hn Hnm Hd. unfold div_half_even.
  pose proof (Z.div_mod n d ltac:(lia)). pose proof (Z.mod_pos_bound n d Hd).
  pose proof (Z.div_mod m d ltac:(lia)). pose proof (Z.mod_pos_bound m d Hd).
  pose proof (Z.div_le_mono n m d Hd Hnm).
  set (x := n / d) in *. set (y := m / d) in *. set (r := n mod d) in *. set (t := m mod d) in *.
  destruct (Z.eq_dec x y) as [<-|Hne].
  - destruct (Z.ltb_spec (2 * r) d), (Z.ltb_spec (2 * t) d); try lia; [destruct (Z.ltb_spec d (2 * t)); [lia|destruct (Z.even x); lia]|].
    destruct (Z.ltb_spec d (2 * r)), (Z.ltb_spec d (2 * t)); try lia. destruct (Z.even x); lia.
  - assert (x + 1 <= y) by lia. destruct (2 * r <? d), (d <? 2 * r), (2 * t <? d), (d <? 2 * t), (Z.even x), (Z.even y); lia.
Qed.
Lemma div_half_even_scale n d t : 0 < d → 0 < t → div_half_even (n * t) (d * t) = div_half_even n d.
Proof.
  intros Hd Ht. unfold div_half_even. rewrite Z.div_mul_cancel_r, Z.mul_mod_distr_r by lia.
  replace (2 * (n mod d * t)) with ((2 * (n mod d)) * t) by lia.
  assert (∀ a b, (a * t <? b * t) = (a <? b)) as Hlt.
  { intros a b. destruct (Z.ltb_spec (a * t) (b * t)), (Z.ltb_spec a b); try done; nia. }
  by rewrite !Hlt.
Qed.
Lemma round_scaled d e k :
  e <= dexp d → 0 < coef d → 0 < k → round_he (coef d) k = div_half_even (at_exp d e) (10 ^ (dexp d + k - e)).
Proof.
  intros He Hc Hk. unfold round_he, at_exp. rewrite Z.sgn_pos, Z.abs_eq, Z.mul_1_l by lia.
  replace (dexp d + k - e) with (k + (dexp d - e)) by lia. rewrite pow10_add by lia.
  by rewrite div_half_even_scale by (apply pow10_gt0; lia).
Qed.

Lemma fix_mono x y : 0 < coef x → (dval x <= dval y)%Q → (dval (fix_ x) <= dval (fix_ y))%Q.
Proof.
  intros Hx Hle. assert (0 < coef y) as Hy by (apply dval_sign; apply dval_sign in Hx; lra).
  destruct (fix_cases x) as [[-> Hsx]|(k & Hk & Hkd & _ & Hfx)]; [by apply fix_lower_bound|].
  destruct (fix_cases y) as [[-> Hsy]|(l & Hl & Hld & _ & Hfy)]; [by apply fix_upper_bound|].
  pose proof (ndigits_bounds (coef x) ltac:(lia)) as [Lx Ux]. pose proof (ndigits_bounds (coef y) ltac:(lia)) as [Ly Uy].
  rewrite Z.abs_eq in Lx, Ux, Ly, Uy by lia.
  replace (ndigits (coef x) - 1) with (27 + k) in Lx by (unfold prec in *; lia). replace (ndigits (coef x)) with (28 + k) in Ux by (unfold prec in *; lia).
  replace (ndigits (coef y) - 1) with (27 + l) in Ly by (unfold prec in *; lia). replace (ndigits (coef y)) with (28 + l) in Uy by (unfold prec in *; lia).
  set (e := common_exp x y). pose proof (common_exp_l x y) as Ex. pose proof (common_exp_r x y) as Ey. fold e in Ex, Ey.
  pose proof Hle as Hz. rewrite (dval_at x e Ex), (dval_at y e Ey) in Hz. apply Qmul_p10_le in Hz.
  pose proof (pow10_gt0 (dexp x - e) ltac:(lia)). pose proof (pow10_gt0 (dexp y - e) ltac:(lia)).
  assert (10 ^ (27 + k) * 10 ^ (dexp x - e) <= at_exp x e < 10 ^ (28 + k) * 10 ^ (dexp x - e)) as [Bx Tx] by (unfold at_exp; nia).
  assert (10 ^ (27 + l) * 10 ^ (dexp y - e) <= at_exp y e < 10 ^ (28 + l) * 10 ^ (dexp y - e)) as [By Ty] by (unfold at_exp; nia).
  rewrite <- pow10_add in Bx, Tx, By, Ty by lia.
  destruct (Z.lt_trichotomy (dexp x + k) (dexp y + l)) as [Hlt|[Heq|Hgt]].
  - apply (Qle_trans _ (inject_Z (10 ^ 27) * p10 (dexp x + k + 1))); [apply fix_upper_bound|apply fix_lower_bound]; try done.
    + rewrite (dval_at x e Ex), (p10_shift e (dexp x + k + 1)), Qmult_assoc, <- inject_Z_mult by lia. apply Qmul_p10_le.
      rewrite <- pow10_add by lia. replace (27 + (dexp x + k + 1 - e)) with (28 + k + (dexp x - e)) by lia. lia.
    + rewrite (dval_at y e Ey), (p10_shift e (dexp x + k + 1)), Qmult_assoc, <- inject_Z_mult by lia. apply Qmul_p10_le.
      rewrite <- pow10_add by lia. etrans; [|exact By]. apply pow10_mono. lia.
  - rewrite Hfx, Hfy, (round_scaled x e k), (round_scaled y e l), Heq by lia. apply Qmul_p10_le.
    apply div_half_even_mono; [unfold at_exp; nia|done|apply pow10_gt0; lia].
  - exfalso. assert (10 ^ (28 + l + (dexp y - e)) <= 10 ^ (27 + k + (dexp x - e))) by (apply pow10_mono; lia). lia.
Qed.
Lemma dmul_mono a b c : 0 < coef a → 0 < coef c → (dval a <= dval b)%Q → (dval (dmul a c) <= dval (dmul b c))%Q.
Proof.
  intros Ha Hc Hab. apply fix_mono; [cbn; nia|]. rewrite !dmul_exact_val.
  apply Qmult_le_compat_r; [done|]. apply Qlt_le_weak. by apply dval_sign.
Qed.

(** Adding a non-negative amount to a 28-digit value never lowers it, and
    subtracting one never raises it. *)
Lemma dadd_ge_l a b : Z.abs (coef a) < 10 ^ prec → 0 <= coef b → (dval a <= dval (dadd a b))%Q.
Proof.
  intros Ha Hb. apply (fix_lower_bound _ (coef a) (dexp a) Ha).
  pose proof (dadd_exact_value a b) as Hv. unfold dadd_exact in Hv. cbn zeta in Hv. rewrite Hv.
  apply dval_sign in Hb. fold (dval a). lra.
Qed.

Lemma dsub_le_l a b : Z.abs (coef a) < 10 ^ prec → 0 <= coef b → (dval (dsub a b) <= dval a)%Q.
Proof.
  intros Ha Hb. apply (fix_upper_bound _ (coef a) (dexp a) Ha).
  apply dval_sign in Hb. fold (dval a). set (e := common_exp a b).
  assert (dval (mkDec (at_exp a e - at_exp b e) e) == dval a - dval b)%Q as ->; [|lra].
  unfold dval at 1; cbn [coef dexp].
  rewrite inject_Z_sub, (dval_at a e (common_exp_l a b)), (dval_at b e (common_exp_r a b)). ring.
Qed.

(** ** Zero, minimum and maximum *)
Lemma dval_zero : (dval dzero == 0)%Q.
Proof. reflexivity. Qed.
Lemma dmin_spec a b : (dval (dmin a b) <= dval a)%Q ∧ (dval (dmin a b) <= dval b)%Q ∧ (dmin a b = a ∨ dmin a b = b).
Proof.
  unfold dmin. destruct (dltb b a) eqn:E; [apply dltb_spec in E | apply dltb_false in E]; split_and?;
    first [lra | by left | by right].
Qed.
Lemma dmax_spec a b : (dval a <= dval (dmax a b))%Q ∧ (dval b <= dval (dmax a b))%Q ∧ (dmax a b = a ∨ dmax a b = b).
Proof.
  unfold dmax. destruct (dltb a b) eqn:E; [apply dltb_spec in E | apply dltb_false in E]; split_and?;
    first [lra | by left | by right].
Qed.

(** ** Signs and bounds of computed results *)
Lemma dadd_nonneg a b : 0 <= coef a → 0 <= coef b → 0 <= coef (dadd a b).
Proof.
  intros Ha Hb. apply fix_nonneg. cbn. unfold at_exp.
  pose proof (pow10_pos (dexp a - common_exp a b)). pose proof (pow10_pos (dexp b - common_exp a b)). nia.
Qed.
Lemma dsub_nonneg a b : (dval b <= dval a)%Q → 0 <= coef (dsub a b).
Proof.
  intros Hle. apply fix_nonneg. cbn. rewrite (dval_at a _ (common_exp_l a b)), (dval_at b _ (common_exp_r a b)) in Hle.
  apply Qmul_p10_le in Hle. lia.
Qed.
Lemma dsum_nonneg l : Forall (fun d => 0 <= coef d) l → 0 <= coef (dsum l).
Proof.
  unfold dsum. assert (0 <= coef dzero) as H0 by done. revert H0. generalize dzero.
  induction l as [|x l IH]; intros d Hd Hl; cbn; [done|]. inversion Hl; subst. apply IH; [|done]. by apply dadd_nonneg.
Qed.
Lemma dneg_nonneg a : coef a <= 0 → 0 <= coef (dneg a).
Proof. intros. apply fix_nonneg. cbn. lia. Qed.
Lemma dmax_nonneg_r a b : 0 <= coef b → 0 <= coef (dmax a b).
Proof.
  intros Hb. destruct (dmax_spec a b) as (_ & H2 & _). apply dval_sign. apply dval_sign in Hb. lra.
Qed.
Lemma fix_to_nonneg p d : 0 <= coef d → 0 <= coef (fix_to p d).
Proof.
  intros Hd. unfold fix_to. destruct (Z.leb_spec (ndigits (coef d)) p); [done|].
  pose proof (round_he_nonneg (coef d) (ndigits (coef d) - p) ltac:(lia) Hd) as Hr.
  destruct (_ <=? p); cbn; [done|]. apply Z.div_pos; lia.
Qed.
Lemma dsquare_nonneg d : 0 <= coef (dsquare d).
Proof. apply fix_nonneg, fix_to_nonneg. cbn. nia. Qed.
Lemma dsqrt_ok d : 0 <= coef d → ∃ r, dsqrt d = Ok r ∧ 0 <= coef r.
Proof.
  intros Hd. unfold dsqrt. destruct (Z.eqb_spec (coef d) 0) as [E|E]; [eexists; split; [reflexivity|done]|].
  destruct (Z.ltb_spec (coef d) 0) as [?|_]; [lia|]. cbn zeta.
  set (sh := prec + 1 - (if Z.odd (dexp d) then ndigits (coef d) / 2 + 1 else (ndigits (coef d) + 1) / 2)).
  match goal with |- context [Z.sqrt ?x] => pose proof (Z.sqrt_nonneg x) as Hn; generalize dependent (Z.sqrt x); intros n Hn end.
  pose proof (pow10_pos sh). pose proof (pow10_pos (- sh)).
  destruct (_ && _); eexists; (split; [reflexivity|]); apply fix_nonneg; cbn.
  - destruct (0 <=? sh); [|nia]. destruct (Z.eq_dec (10 ^ sh) 0) as [->|]; [by rewrite Zdiv_0_r|]. apply Z.div_pos; lia.
  - destruct (n mod 5 =? 0); lia.
Qed.
Lemma ddiv_bounded a b q : ddiv a b = Ok q → Z.abs (coef q) < 10 ^ prec.
Proof.
  intros H. destruct (Z.eq_dec (coef a) 0) as [H0|H0].
  - destruct (ddiv_zero_l a b q H H0) as (_ & -> & _). done.
  - destruct (ddiv_cases a b q H H0) as (_ & x & c & n & d & u & -> & _). apply fix_bounded.
Qed.

(** A quotient never rounds past a representable bound. *)
Lemma ddiv_upper_bound a b q m j :
  ddiv a b = Ok q → 0 <= coef a → 0 < coef b → Z.abs m < 10 ^ prec →
  (dval a <= inject_Z m * p10 j * dval b)%Q → (dval q <= inject_Z m * p10 j)%Q.
Proof.
  intros H Ha Hb Hm Hle.
  assert (0 < dval b)%Q as Hb' by (by apply dval_sign).
  destruct (Z.eq_dec (coef a) 0) as [H0|H0].
  { destruct (ddiv_zero_l a b q H H0) as [-> _]. assert (dval a == 0)%Q as E by (unfold dval; rewrite H0; ring).
    rewrite E in Hle. apply (Qmult_le_r _ _ (dval b) Hb'). by rewrite Qmult_0_l. }
  assert (0 < dval a)%Q as Ha' by (apply dval_sign; lia).
  destruct (ddiv_cases a b q H H0)
    as (_ & x & c & n & d & u & -> & Hd & Hc & Hn & Hnear & _ & _ & Hx & Hau & sg & e & Hsg & Hu).
  assert (0 < n) as Hn0 by (pose proof (pow10_gt0 prec ltac:(done)); nia).
  assert (0 < u)%Q as Hu0.
  { rewrite Hau in Ha'. apply (Qmult_lt_l 0 u (inject_Z n)); [by rewrite (Zlt_Qlt 0) in Hn0|]. by rewrite Qmult_0_r. }
  pose proof (p10_pos e) as Hpe.
  assert (sg = 1) as ->.
  { assert (sg = 1 ∨ sg = -1) as [->| ->] by lia; [done|exfalso].
    assert (0 < inject_Z d * u)%Q as Hdu by (apply Qmult_lt_0_compat; [by rewrite (Zlt_Qlt 0) in Hd|done]).
    rewrite <-Hu in Hdu. assert (0 < p10 e * dval b)%Q by (by apply Qmult_lt_0_compat).
    assert (inject_Z (-1) * p10 e * dval b == - (p10 e * dval b))%Q as E by (unfold inject_Z; ring). rewrite E in Hdu. lra. }
  assert (dval x == inject_Z c * p10 e)%Q as Hxc.
  { apply (Qmult_inj_r _ _ (dval b)); [lra|]. rewrite Hx, inject_Z_mult, <-Qmult_assoc, <-Hu. ring. }
  assert (inject_Z n * p10 e <= inject_Z (m * d) * p10 j)%Q as Hnm.
  { apply (Qmult_le_r _ _ u Hu0). rewrite inject_Z_mult.
    assert (inject_Z n * p10 e * u == dval a * p10 e)%Q as -> by (rewrite Hau; ring).
    assert (inject_Z m * inject_Z d * p10 j * u == inject_Z m * p10 j * dval b * p10 e)%Q as ->.
    { transitivity (inject_Z m * p10 j * (inject_Z d * u))%Q; [ring|]. rewrite <-Hu. ring. }
    by apply Qmult_le_r. }
  apply fix_upper_bound; [done|]. rewrite Hxc. destruct (Z.le_gt_cases e j) as [Hej|Hej].
  - rewrite (p10_shift e j Hej) in Hnm |- *. rewrite Qmult_assoc, <-inject_Z_mult in Hnm |- *. apply Qmul_p10_le in Hnm.
    apply Qmul_p10_le. pose proof (pow10_gt0 (j - e) ltac:(lia)). nia.
  - exfalso. rewrite (p10_shift j e ltac:(lia)), Qmult_assoc, <-inject_Z_mult in Hnm. apply Qmul_p10_le in Hnm.
    pose proof (pow10_gt0 (e - j) ltac:(lia)). pose proof (pow10_gt0 prec ltac:(done)). nia.
Qed.
