(* ===== verification/DecText.v ===== *)
(** * Decimals as text

    [str(Decimal)] and [Decimal(str)], through which prices pass into JSON
    columns, and that the second undoes the first.  [dec_of_str] reads the
    numeric grammar (sign, digits with an optional point, optional exponent);
    white space, underscores, NaN and infinities are not represented and raise
    [InvalidOperation] here. *)

From S2P Require Import Prelude Dec.
From Stdlib Require Import Ascii.

Open Scope Z_scope.

(** ** Digits *)
Fixpoint digits_loop (fuel : nat) (z : Z) (acc : list Z) : list Z :=
  match fuel with
  | O => acc
  | S f => if z <? 10 then z :: acc else digits_loop f (z / 10) (z mod 10 :: acc)
  end.
Definition digits_of (z : Z) : list Z := digits_loop (S (Z.to_nat (Z.log2 z))) z [].
Definition value_from (acc : Z) (ds : list Z) : Z := fold_left (fun a d => a * 10 + d) ds acc.

Definition digit_char (d : Z) : ascii := ascii_of_N (48 + Z.to_N d).
Definition digit_val (c : ascii) : option Z :=
  let n := Z.of_N (N_of_ascii c) in if (48 <=? n) && (n <=? 57) then Some (n - 48) else None.
Definition chars_of (ds : list Z) : list ascii := digit_char <$> ds.

(** ** Printing: [Decimal.__str__] *)
Definition dot_place (len e : Z) : Z := if (e <=? 0) && (-6 <? e + len) then e + len else 1.
Definition dec_chars (d : dec) : list ascii :=
  let ds := digits_of (Z.abs (coef d)) in
  let len := Z.of_nat (length ds) in
  let left := dexp d + len in
  let dot := dot_place len (dexp d) in
  (if coef d <? 0 then ["-"%char] else []) ++
  (if dot <=? 0 then chars_of [0] ++ "."%char :: chars_of (replicate (Z.to_nat (- dot)) 0 ++ ds)
   else if len <=? dot then chars_of (ds ++ replicate (Z.to_nat (dot - len)) 0)
   else chars_of (take (Z.to_nat dot) ds) ++ "."%char :: chars_of (drop (Z.to_nat dot) ds)) ++
  (if left =? dot then []
   else "E"%char :: (if left - dot <? 0 then "-"%char else "+"%char) :: chars_of (digits_of (Z.abs (left - dot)))).
Definition dec_str (d : dec) : string := String.string_of_list_ascii (dec_chars d).

(** ** Reading: [Decimal(str)] *)
Fixpoint read_digits (acc n : Z) (s : list ascii) : Z * Z * list ascii :=
  match s with
  | c :: s' => match digit_val c with Some v => read_digits (acc * 10 + v) (n + 1) s' | None => (acc, n, s) end
  | [] => (acc, n, [])
  end.
Definition read_sign (s : list ascii) : Z * list ascii :=
  match s with
  | "-"%char :: s' => (-1, s')
  | "+"%char :: s' => (1, s')
  | _ => (1, s)
  end.
Definition read_exponent (s : list ascii) : option Z :=
  match s with
  | [] => Some 0
  | c :: s' =>
      if bool_decide (c = "E"%char) || bool_decide (c = "e"%char) then
        let '(sg, s1) := read_sign s' in
        let '(v, n, rest) := read_digits 0 0 s1 in
        match rest with [] => if 0 <? n then Some (sg * v) else None | _ => None end
      else None
  end.
Definition dec_of_str (text : string) : res dec :=
  let '(sg, s1) := read_sign (String.list_ascii_of_string text) in
  let '(v, n, s2) := read_digits 0 0 s1 in
  let '(w, k, s3) := match s2 with "."%char :: s' => read_digits v 0 s' | _ => (v, 0, s2) end in
  if n + k <=? 0 then Err InvalidOperation
  else match read_exponent s3 with
       | Some e => Ok (mkDec (sg * w) (e - k))
       | None => Err InvalidOperation
       end.

(** ** The round trip *)
Definition is_digit (d : Z) : Prop := 0 <= d <= 9.

Lemma value_app acc a b : value_from acc (a ++ b) = value_from (value_from acc a) b.
Proof. apply fold_left_app. Qed.

Lemma value_zeros n : value_from 0 (replicate n 0) = 0.
Proof. induction n as [|n IH]; [done|exact IH]. Qed.

Lemma digits_loop_spec fuel z acc :
  0 <= z < 10 ^ Z.of_nat fuel → (0 < fuel)%nat → Forall is_digit acc →
  Forall is_digit (digits_loop fuel z acc) ∧ (0 < length (digits_loop fuel z acc))%nat ∧
  ∀ a, value_from a (digits_loop fuel z acc) = value_from (value_from a (digits_loop fuel z [])) acc.
Proof.
  revert z acc. induction fuel as [|f IH]; intros z acc Hz Hf Ha; [lia|]. cbn [digits_loop].
  destruct (Z.ltb_spec z 10) as [Hlt|Hge].
  { split_and!; [constructor; [unfold is_digit; lia|done]|cbn; lia|done]. }
  assert (0 <= z / 10 < 10 ^ Z.of_nat f) as Hd.
  { split; [apply Z.div_pos; lia|]. apply Z.div_lt_upper_bound; [lia|].
    rewrite Nat2Z.inj_succ, Z.pow_succ_r in Hz by lia. lia. }
  assert (0 < f)%nat as Hf'. { destruct f; [cbn in Hd; pose proof (Z.div_str_pos z 10 ltac:(lia)); lia|lia]. }
  assert (is_digit (z mod 10)) as Hm by (pose proof (Z.mod_pos_bound z 10); unfold is_digit; lia).
  destruct (IH (z / 10) (z mod 10 :: acc) Hd Hf' ltac:(by constructor)) as (H1 & H2 & H3).
  destruct (IH (z / 10) [z mod 10] Hd Hf' ltac:(by constructor; [|constructor])) as (_ & _ & H4).
  split_and!; [done..|]. intros a. by rewrite H3, H4.
Qed.

Lemma digits_loop_value fuel z :
  0 <= z < 10 ^ Z.of_nat fuel → (0 < fuel)%nat → value_from 0 (digits_loop fuel z []) = z.
Proof.
  revert z. induction fuel as [|f IH]; intros z Hz Hf; [lia|]. cbn [digits_loop].
  destruct (Z.ltb_spec z 10); [cbn; lia|].
  assert (0 <= z / 10 < 10 ^ Z.of_nat f) as Hd.
  { split; [apply Z.div_pos; lia|]. apply Z.div_lt_upper_bound; [lia|].
    rewrite Nat2Z.inj_succ, Z.pow_succ_r in Hz by lia. lia. }
  assert (0 < f)%nat as Hf'. { destruct f; [cbn in Hd; pose proof (Z.div_str_pos z 10 ltac:(lia)); lia|lia]. }
  assert (is_digit (z mod 10)) as Hm by (pose proof (Z.mod_pos_bound z 10); unfold is_digit; lia).
  destruct (digits_loop_spec f (z / 10) [z mod 10] Hd Hf' ltac:(by constructor; [|constructor])) as (_ & _ & ->).
  rewrite IH by done. cbn. pose proof (Z.div_mod z 10). lia.
Qed.

Lemma digits_fuel_enough z : 0 <= z → 0 <= z < 10 ^ Z.of_nat (S (Z.to_nat (Z.log2 z))).
Proof.
  intros Hz. split; [done|]. rewrite Nat2Z.inj_succ, Z2Nat.id by apply Z.log2_nonneg.
  destruct (Z.eq_dec z 0) as [->|Hn]; [done|].
  eapply Z.lt_le_trans; [apply Z.log2_spec; lia|]. apply Z.pow_le_mono_l. lia.
Qed.

Lemma digits_of_spec z : 0 <= z →
  Forall is_digit (digits_of z) ∧ (0 < length (digits_of z))%nat ∧ value_from 0 (digits_of z) = z.
Proof.
  intros Hz. pose proof (digits_fuel_enough z Hz) as Hb. unfold digits_of.
  destruct (digits_loop_spec _ z [] Hb ltac:(lia) ltac:(constructor)) as (? & ? & _).
  split_and!; [done..|]. apply digits_loop_value; [done|lia].
Qed.

Lemma digit_char_val d : is_digit d → digit_val (digit_char d) = Some d.
Proof.
  unfold is_digit. intros H. assert (d = 0 ∨ d = 1 ∨ d = 2 ∨ d = 3 ∨ d = 4 ∨ d = 5 ∨ d = 6 ∨ d = 7 ∨ d = 8 ∨ d = 9) as Hd by lia.
  by destruct_or! Hd; subst.
Qed.

(** What follows a run of digits in the texts above. *)
Definition digit_free (rest : list ascii) : Prop :=
  match rest with [] => True | c :: _ => digit_val c = None end.

Lemma read_chars ds acc n rest : Forall is_digit ds → digit_free rest →
  read_digits acc n (chars_of ds ++ rest) = (value_from acc ds, n + Z.of_nat (length ds), rest).
Proof.
  intros H Hr. revert acc n. induction H as [|d ds Hd _ IH]; intros acc n; cbn [chars_of fmap list_fmap app].
  - destruct rest as [|c rest]; cbn in *; [|rewrite Hr]; by rewrite Z.add_0_r.
  - cbn [read_digits]. rewrite (digit_char_val d Hd). rewrite IH. cbn [length]. do 2 f_equal. lia.
Qed.

Lemma digit_char_head d ds rest : is_digit d →
  read_sign (chars_of (d :: ds) ++ rest) = (1, chars_of (d :: ds) ++ rest).
Proof.
  unfold is_digit. intros H. assert (d = 0 ∨ d = 1 ∨ d = 2 ∨ d = 3 ∨ d = 4 ∨ d = 5 ∨ d = 6 ∨ d = 7 ∨ d = 8 ∨ d = 9) as Hd by lia.
  by destruct_or! Hd; subst.
Qed.

(** The printed exponent, absent for 0. *)
Definition exponent_chars (x : Z) : list ascii :=
  "E"%char :: (if x <? 0 then "-"%char else "+"%char) :: chars_of (digits_of (Z.abs x)).

Lemma read_exponent_chars x : read_exponent (exponent_chars x) = Some x.
Proof.
  destruct (digits_of_spec (Z.abs x) ltac:(lia)) as (Hd & Hl & Hv). unfold exponent_chars, read_exponent. cbn [bool_decide].
  rewrite bool_decide_eq_true_2 by done. cbn [orb].
  destruct (Z.ltb_spec x 0); cbn [read_sign];
    rewrite <- (app_nil_r (chars_of _)), read_chars by done; rewrite Hv; destruct (Z.ltb_spec 0 (0 + Z.of_nat (length (digits_of (Z.abs x))))); try lia; f_equal; lia.
Qed.

(** A mantissa with [k] decimals, then an optional exponent. *)
Lemma read_mantissa (neg : bool) ip fp (dot : bool) x :
  Forall is_digit ip → Forall is_digit fp → (0 < length ip)%nat → (dot = false → fp = []) →
  dec_of_str (String.string_of_list_ascii
    ((if neg then ["-"%char] else []) ++ (chars_of ip ++ (if dot then "."%char :: chars_of fp else [])) ++
     (if x =? 0 then [] else exponent_chars x))) =
  Ok (mkDec ((if neg then -1 else 1) * value_from 0 (ip ++ fp)) (x - Z.of_nat (length fp))).
Proof.
  intros Hip Hfp Hl Hdot. unfold dec_of_str. rewrite String.list_ascii_of_string_of_list_ascii.
  set (tail := if x =? 0 then [] else exponent_chars x).
  assert (digit_free tail) as Hft by (unfold tail; by destruct (x =? 0)).
  assert (read_exponent tail = Some x) as Htail.
  { unfold tail. destruct (Z.eqb_spec x 0) as [->|_]; [done|apply read_exponent_chars]. }
  assert (match tail with "."%char :: _ => False | _ => True end) as Hnd by (unfold tail; by destruct (x =? 0)).
  assert (read_sign ((if neg then ["-"%char] else []) ++ (chars_of ip ++ (if dot then "."%char :: chars_of fp else [])) ++ tail) =
          (if neg then -1 else 1, chars_of ip ++ (if dot then "."%char :: chars_of fp else []) ++ tail)) as ->.
  { destruct neg; cbn [app]; rewrite <- app_assoc; [done|]. destruct ip as [|d ip]; [cbn in Hl; lia|].
    apply digit_char_head. by inversion Hip. }
  destruct dot.
  - rewrite read_chars by done. cbn [app]. rewrite read_chars by done. rewrite Htail, value_app.
    destruct (Z.leb_spec (0 + Z.of_nat (length ip) + (0 + Z.of_nat (length fp))) 0); [lia|]. do 2 f_equal; lia.
  - rewrite (Hdot eq_refl), app_nil_r. cbn [app length]. rewrite read_chars by done.
    assert ((match tail with "."%char :: s' => read_digits (value_from 0 ip) 0 s' | _ => (value_from 0 ip, 0, tail) end) =
            (value_from 0 ip, 0, tail)) as ->.
    { destruct tail as [|[[] [] [] [] [] [] [] []] t]; cbn in Hnd |- *; done. }
    rewrite Htail. destruct (Z.leb_spec (0 + Z.of_nat (length ip) + 0) 0); [lia|]. done.
Qed.

Lemma dec_str_roundtrip d : dec_of_str (dec_str d) = Ok d.
Proof.
  destruct d as [c e]. unfold dec_str, dec_chars. cbn [coef dexp].
  destruct (digits_of_spec (Z.abs c) ltac:(lia)) as (Hd & Hl & Hv). set (ds := digits_of (Z.abs c)) in *.
  set (len := Z.of_nat (length ds)). set (dot := dot_place len e).
  assert (∀ x, (if e + len =? dot then [] else exponent_chars x) = if e + len - dot =? 0 then [] else exponent_chars x) as Hz.
  { intros x. destruct (Z.eqb_spec (e + len) dot), (Z.eqb_spec (e + len - dot) 0); try done; lia. }
  fold (exponent_chars (e + len - dot)). rewrite Hz.
  assert ((if c <? 0 then -1 else 1) * Z.abs c = c) as Hc by (destruct (Z.ltb_spec c 0); lia).
  assert (dot = e + len ∧ e <= 0 ∨ dot = 1) as Hdot.
  { unfold dot, dot_place. destruct (Z.leb_spec e 0), (Z.ltb_spec (-6) (e + len)); cbn [andb]; lia. }
  destruct (Z.leb_spec dot 0) as [H0|H0]; [|destruct (Z.leb_spec len dot) as [H1|H1]].
  - rewrite (read_mantissa (c <? 0) [0] (replicate (Z.to_nat (- dot)) 0 ++ ds) true); [|by constructor; [unfold is_digit; lia|constructor]| |cbn; lia|done].
    2:{ apply Forall_app. split; [|done]. apply Forall_replicate. unfold is_digit. lia. }
    cbn [app]. change (value_from 0 (0 :: ?l)) with (value_from 0 l). rewrite value_app, value_zeros, Hv, Hc.
    rewrite length_app, length_replicate. do 2 f_equal. lia.
  - assert (dot = len) as Hdl by lia. rewrite Hdl, Z.sub_diag. cbn [replicate Z.to_nat]. rewrite app_nil_r.
    pose proof (read_mantissa (c <? 0) ds [] false (e + len - dot) Hd ltac:(constructor) Hl ltac:(done)) as Hr.
    cbn [app] in Hr. rewrite !app_nil_r in Hr. rewrite Hdl in Hr. rewrite Hr, Hv, Hc. cbn [length]. do 2 f_equal. lia.
  - pose proof (read_mantissa (c <? 0) (take (Z.to_nat dot) ds) (drop (Z.to_nat dot) ds) true (e + len - dot)) as Hr.
    rewrite Hr; [|by apply Forall_take|by apply Forall_drop|rewrite length_take; lia|done].
    rewrite take_drop, Hv, Hc, length_drop. do 2 f_equal. lia.
Qed.
