(* ===== verification/Float64.v ===== *)
(** * Python floats as dyadic numbers rounded to 53 bits

    Each operation is computed exactly and rounded to nearest, ties to even, as
    IEEE 754 prescribes for binary64.  Exponents are unbounded: overflow,
    underflow, infinities and NaN do not arise in the code that uses this file
    (token counts, rates and seconds).  The accuracy lemmas relate every
    operation to the exact one over Q. *)

From S2P Require Import Prelude Dec.
From Stdlib Require Import QArith Qabs Qpower Lqa.
Open Scope Z_scope.

Record b64 := mkB { bman : Z; bexp : Z }.
#[global] Instance b64_eq_dec : EqDecision b64.
Proof. solve_decision. Defined.

Definition bprec : Z := 53.
(** [n / d] for [0 < n], [0 < d], with a quotient of 53 bits. *)
Definition scaled_quotient (n d k : Z) : Z * Z := if k <=? 0 then (n * 2 ^ (- k), d) else (n, d * 2 ^ k).
Definition quotient_exp (n d : Z) : Z :=
  let k := Z.log2 n - Z.log2 d - bprec in
  let '(a, b) := scaled_quotient n d k in
  if a <? 2 ^ bprec * b then k else k + 1.
Definition round_pos (n d : Z) : b64 :=
  let k := quotient_exp n d in
  let '(a, b) := scaled_quotient n d k in mkB (div_half_even a b) k.
(** The float nearest to [n / d], [0 < d]. *)
Definition fl (n d : Z) : b64 :=
  if n =? 0 then mkB 0 0
  else let r := round_pos (Z.abs n) d in mkB (Z.sgn n * bman r) (bexp r).
Definition shift (e : Z) (r : b64) : b64 := mkB (bman r) (bexp r + e).

Definition bman_at (a : b64) (e : Z) : Z := bman a * 2 ^ (bexp a - e).
Definition bcommon (a b : b64) : Z := Z.min (bexp a) (bexp b).
Definition badd (a b : b64) : b64 := let e := bcommon a b in shift e (fl (bman_at a e + bman_at b e) 1).
Definition bsub (a b : b64) : b64 := let e := bcommon a b in shift e (fl (bman_at a e - bman_at b e) 1).
Definition bmul (a b : b64) : b64 := shift (bexp a + bexp b) (fl (bman a * bman b) 1).
Definition bdiv (a b : b64) : res b64 :=
  if bman b =? 0 then Err ZeroDivisionError
  else Ok (shift (bexp a - bexp b) (fl (Z.sgn (bman b) * bman a) (Z.abs (bman b)))).
Definition bleb (a b : b64) : bool := let e := bcommon a b in bman_at a e <=? bman_at b e.
Definition bltb (a b : b64) : bool := negb (bleb b a).
(** [min(a, b)]: the first unless the second is smaller. *)
Definition bmin (a b : b64) : b64 := if bltb b a then b else a.
Definition bone : b64 := mkB 1 0.
Definition bzero : b64 := mkB 0 0.
(** [timedelta.total_seconds()] of a duration in microseconds. *)
Definition total_seconds (us : Z) : b64 := fl us 1000000.
(** [int(x)], which truncates towards zero. *)
Definition btrunc (a : b64) : Z := if 0 <=? bexp a then bman a * 2 ^ bexp a else Z.quot (bman a) (2 ^ (- bexp a)).
(** [int(t * 1000)] of a time in seconds. *)
Definition to_millis (t : b64) : Z := btrunc (bmul t (mkB 1000 0)).

(** ** Values *)
Definition p2 (e : Z) : Q := Qpower (2 # 1) e.
Definition bval (b : b64) : Q := (inject_Z (bman b) * p2 (bexp b))%Q.
Definition roundoff : Q := p2 (- bprec).

Lemma inject_Z_pos z : 0 < z → (0 < inject_Z z)%Q.
Proof. intros H. by rewrite Zlt_Qlt in H. Qed.
Lemma inject_Z_nonneg z : 0 <= z → (0 <= inject_Z z)%Q.
Proof. intros H. by rewrite Zle_Qle in H. Qed.
Lemma p2_pos e : (0 < p2 e)%Q.
Proof. apply Qpower_0_lt. reflexivity. Qed.
Lemma p2_add a b : (p2 (a + b) == p2 a * p2 b)%Q.
Proof. apply Qpower_plus. discriminate. Qed.
Lemma p2_Z k : 0 <= k → (p2 k == inject_Z (2 ^ k))%Q.
Proof. intros Hk. unfold p2. change (2 # 1)%Q with (inject_Z 2). by rewrite Zpower_Qpower. Qed.
Lemma bval_at a e : e <= bexp a → (bval a == inject_Z (bman_at a e) * p2 e)%Q.
Proof.
  intros H. unfold bval, bman_at. rewrite inject_Z_mult, <- p2_Z by lia.
  rewrite <- Qmult_assoc, <- p2_add. by replace (bexp a - e + e) with (bexp a) by lia.
Qed.
Lemma bval_shift e r : (bval (shift e r) == bval r * p2 e)%Q.
Proof. unfold bval, shift. cbn. rewrite p2_add. ring. Qed.
Lemma bleb_spec a b : bleb a b = true ↔ (bval a <= bval b)%Q.
Proof.
  unfold bleb. rewrite Z.leb_le. rewrite (bval_at a (bcommon a b)), (bval_at b (bcommon a b)) by (unfold bcommon; lia).
  rewrite Qmult_le_r by apply p2_pos. by rewrite <- Zle_Qle.
Qed.
Lemma bltb_spec a b : bltb a b = true ↔ (bval a < bval b)%Q.
Proof.
  unfold bltb. rewrite negb_true_iff. split.
  - intros H. apply Qnot_le_lt. intros Hle. apply bleb_spec in Hle. congruence.
  - intros H. destruct (bleb b a) eqn:E; [|done]. apply bleb_spec in E. lra.
Qed.
Lemma bmin_spec a b : (bval (bmin a b) <= bval a)%Q ∧ (bval (bmin a b) <= bval b)%Q ∧ (bmin a b = a ∨ bmin a b = b).
Proof.
  unfold bmin. destruct (bltb b a) eqn:E.
  - apply bltb_spec in E. split_and!; [lra|lra|auto].
  - split_and!; [lra| |auto]. apply Qnot_lt_le. intros H. apply bltb_spec in H. congruence.
Qed.

(** ** Accuracy *)
Lemma scaled_quotient_pos n d k : 0 < n → 0 < d → 0 < (scaled_quotient n d k).1 ∧ 0 < (scaled_quotient n d k).2.
Proof.
  intros Hn Hd. unfold scaled_quotient. destruct (Z.leb_spec k 0); cbn; split; try done; apply Z.mul_pos_pos; try done; apply Z.pow_pos_nonneg; lia.
Qed.
(** The two parts have the ratio [n / d / 2^k]. *)
Lemma scaled_quotient_ratio n d k : 0 < n → 0 < d → let '(a, b) := scaled_quotient n d k in
  (inject_Z a * inject_Z d * p2 k == inject_Z n * inject_Z b)%Q.
Proof.
  intros Hn Hd. unfold scaled_quotient. destruct (Z.leb_spec k 0).
  - rewrite inject_Z_mult, <- p2_Z by lia.
    assert (inject_Z n * p2 (- k) * inject_Z d * p2 k == inject_Z n * inject_Z d * (p2 (- k) * p2 k))%Q as -> by ring.
    rewrite <- p2_add. replace (- k + k) with 0 by lia. change (p2 0) with 1%Q. ring.
  - rewrite inject_Z_mult, <- p2_Z by lia. ring.
Qed.
Lemma scaled_quotient_ge n d k M : 0 < n → 0 < d →
  M * (scaled_quotient n d k).2 <= (scaled_quotient n d k).1 ↔ (inject_Z M * inject_Z d * p2 k <= inject_Z n)%Q.
Proof.
  intros Hn Hd. pose proof (scaled_quotient_pos n d k Hn Hd) as [Ha Hb]. pose proof (scaled_quotient_ratio n d k Hn Hd) as Hr.
  destruct (scaled_quotient n d k) as [a b]. cbn in *. pose proof (p2_pos k) as Hp.
  rewrite Zlt_Qlt in Ha, Hb, Hd. change (inject_Z 0) with 0%Q in *. rewrite Zle_Qle, inject_Z_mult.
  rewrite <- (Qmult_le_r _ _ (inject_Z d * p2 k)) by (apply Qmult_lt_0_compat; done).
  rewrite <- (Qmult_le_r (inject_Z M * inject_Z d * p2 k) _ (inject_Z b)) by done. rewrite <- Hr.
  split; intros H; nra.
Qed.
(** The quotient at the chosen exponent has at least 53 bits. *)
Lemma quotient_exp_large n d : 0 < n → 0 < d →
  2 ^ (bprec - 1) * (scaled_quotient n d (quotient_exp n d)).2 <= (scaled_quotient n d (quotient_exp n d)).1.
Proof.
  intros Hn Hd. unfold quotient_exp. set (k := Z.log2 n - Z.log2 d - bprec).
  pose proof (scaled_quotient_ge n d k (2 ^ bprec) Hn Hd) as Hge.
  destruct (scaled_quotient n d k) as [a b] eqn:E. cbn in Hge. destruct (Z.ltb_spec a (2 ^ bprec * b)) as [_|Hl].
  - apply scaled_quotient_ge; [done..|].
    pose proof (Z.log2_spec n Hn) as [Hn1 _]. pose proof (Z.log2_spec d Hd) as [_ Hd2]. pose proof (Z.log2_nonneg n). pose proof (Z.log2_nonneg d).
    rewrite Zle_Qle, <- p2_Z in Hn1 by done. rewrite Zlt_Qlt, <- p2_Z in Hd2 by lia. rewrite <- p2_Z by done.
    apply (Qle_trans _ (p2 (bprec - 1) * p2 (Z.succ (Z.log2 d)) * p2 k)).
    + apply Qmult_le_compat_r; [|apply Qlt_le_weak, p2_pos]. apply Qmult_le_l; [apply p2_pos|]. by apply Qlt_le_weak.
    + rewrite <- !p2_add. replace (bprec - 1 + Z.succ (Z.log2 d) + k) with (Z.log2 n) by (unfold k; lia). done.
  - apply scaled_quotient_ge; [done..|]. apply Hge in Hl. rewrite p2_add. change (p2 1) with (2 # 1)%Q.
    change (inject_Z (2 ^ bprec)) with (2 * inject_Z (2 ^ (bprec - 1)))%Q in Hl. lra.
Qed.

Lemma round_pos_rel n d : 0 < n → 0 < d →
  (Qabs (bval (round_pos n d) * inject_Z d - inject_Z n) <= roundoff * inject_Z n)%Q ∧ 0 <= bman (round_pos n d).
Proof.
  intros Hn Hd. pose proof (quotient_exp_large n d Hn Hd) as Hl. unfold round_pos. set (k := quotient_exp n d) in *.
  pose proof (scaled_quotient_pos n d k Hn Hd) as [Ha Hb]. pose proof (scaled_quotient_ratio n d k Hn Hd) as Hr.
  destruct (scaled_quotient n d k) as [a b]. cbn in *. destruct (div_half_even_spec a b ltac:(lia) Hb) as [Hs Hq].
  split; [|done]. set (q := div_half_even a b) in *. unfold bval. cbn [bman bexp].
  assert (Qabs (inject_Z q * inject_Z b - inject_Z a) * 2 * inject_Z (2 ^ (bprec - 1)) <= inject_Z a)%Q as Hd1.
  { rewrite <- inject_Z_mult, <- inject_Z_sub. change 2%Q with (inject_Z 2). rewrite inject_Z_abs, <- !inject_Z_mult, <- Zle_Qle.
    change (2 ^ (bprec - 1)) with 4503599627370496 in *. lia. }
  apply (Qmult_le_r _ _ (inject_Z b)); [by apply inject_Z_pos|].
  assert (0 <= inject_Z d * p2 k)%Q as Hp by (apply Qmult_le_0_compat; [apply inject_Z_nonneg; lia|apply Qlt_le_weak, p2_pos]).
  assert ((inject_Z q * p2 k * inject_Z d - inject_Z n) * inject_Z b == (inject_Z q * inject_Z b - inject_Z a) * (inject_Z d * p2 k))%Q as He.
  { assert ((inject_Z q * p2 k * inject_Z d - inject_Z n) * inject_Z b == inject_Z q * p2 k * inject_Z d * inject_Z b - inject_Z n * inject_Z b)%Q as -> by ring.
    rewrite <- Hr. ring. }
  assert (0 <= inject_Z b)%Q as Hb0 by (apply inject_Z_nonneg; lia).
  assert (Qabs (inject_Z q * p2 k * inject_Z d - inject_Z n) * inject_Z b == Qabs (inject_Z q * inject_Z b - inject_Z a) * (inject_Z d * p2 k))%Q as ->.
  { assert (∀ x, Qabs x * inject_Z b == Qabs (x * inject_Z b))%Q as -> by (intros x; by rewrite Qabs_Qmult, (Qabs_pos (inject_Z b))).
    by rewrite He, Qabs_Qmult, (Qabs_pos (inject_Z d * p2 k)). }
  assert (roundoff * inject_Z n * inject_Z b == roundoff * inject_Z a * (inject_Z d * p2 k))%Q as ->.
  { assert (roundoff * inject_Z n * inject_Z b == roundoff * (inject_Z n * inject_Z b))%Q as -> by ring. rewrite <- Hr. ring. }
  apply Qmult_le_compat_r; [|done]. change roundoff with (1 # 9007199254740992)%Q.
  change (inject_Z (2 ^ (bprec - 1))) with (4503599627370496 # 1)%Q in Hd1. lra.
Qed.

(** Rounding is accurate to one part in 2^53 and keeps the sign. *)
Lemma fl_rel n d : 0 < d → (Qabs (bval (fl n d) * inject_Z d - inject_Z n) <= roundoff * Qabs (inject_Z n))%Q.
Proof.
  intros Hd. unfold fl. destruct (Z.eqb_spec n 0) as [->|Hn].
  { unfold bval. cbn. vm_compute. congruence. }
  destruct (round_pos_rel (Z.abs n) d ltac:(lia) Hd) as [Hr _]. set (r := round_pos (Z.abs n) d) in *. rewrite inject_Z_abs.
  assert (bval (mkB (Z.sgn n * bman r) (bexp r)) * inject_Z d - inject_Z n == inject_Z (Z.sgn n) * (bval r * inject_Z d - inject_Z (Z.abs n)))%Q as ->.
  { unfold bval. cbn [bman bexp]. rewrite inject_Z_mult.
    assert (inject_Z n == inject_Z (Z.sgn n) * inject_Z (Z.abs n))%Q as -> by (rewrite <- inject_Z_mult; by rewrite Z.mul_comm, Z.abs_sgn). ring. }
  rewrite Qabs_Qmult, inject_Z_abs. assert (Z.abs (Z.sgn n) = 1) as -> by (destruct n; done). change (inject_Z 1) with 1%Q. by rewrite Qmult_1_l.
Qed.
Lemma fl_nonneg n d : 0 < d → 0 <= n → 0 <= bman (fl n d).
Proof.
  intros Hd Hn. unfold fl. destruct (Z.eqb_spec n 0) as [->|]; [done|]. cbn. destruct (round_pos_rel (Z.abs n) d ltac:(lia) Hd) as [_ H].
  rewrite Z.sgn_pos by lia. lia.
Qed.
Lemma bval_nonneg a : 0 <= bman a ↔ (0 <= bval a)%Q.
Proof.
  unfold bval. pose proof (p2_pos (bexp a)) as Hp. rewrite Zle_Qle. change (inject_Z 0) with 0%Q.
  split; intros H; [apply Qmult_le_0_compat; [done|by apply Qlt_le_weak]|]. rewrite <- (Qmult_le_r _ _ _ Hp). by rewrite Qmult_0_l.
Qed.

(** Each operation, relative to the exact one. *)
Lemma fl_int_rel n e x : (x == inject_Z n * p2 e)%Q → (Qabs (bval (shift e (fl n 1)) - x) <= roundoff * Qabs x)%Q.
Proof.
  intros ->. pose proof (fl_rel n 1 ltac:(lia)) as H. change (inject_Z 1) with 1%Q in H. rewrite Qmult_1_r in H. rewrite bval_shift.
  assert (bval (fl n 1) * p2 e - inject_Z n * p2 e == (bval (fl n 1) - inject_Z n) * p2 e)%Q as -> by ring.
  rewrite !Qabs_Qmult, (Qabs_pos (p2 e)) by (apply Qlt_le_weak, p2_pos). rewrite Qmult_assoc. apply Qmult_le_compat_r; [done|apply Qlt_le_weak, p2_pos].
Qed.
Lemma badd_rel a b : (Qabs (bval (badd a b) - (bval a + bval b)) <= roundoff * Qabs (bval a + bval b))%Q.
Proof. apply fl_int_rel. rewrite (bval_at a (bcommon a b)), (bval_at b (bcommon a b)) by (unfold bcommon; lia). rewrite inject_Z_plus. ring. Qed.
Lemma bsub_rel a b : (Qabs (bval (bsub a b) - (bval a - bval b)) <= roundoff * Qabs (bval a - bval b))%Q.
Proof. apply fl_int_rel. rewrite (bval_at a (bcommon a b)), (bval_at b (bcommon a b)) by (unfold bcommon; lia). rewrite inject_Z_sub. ring. Qed.
Lemma bmul_rel a b : (Qabs (bval (bmul a b) - bval a * bval b) <= roundoff * Qabs (bval a * bval b))%Q.
Proof. apply fl_int_rel. unfold bval. rewrite p2_add, inject_Z_mult. ring. Qed.
Lemma total_seconds_rel us : (Qabs (bval (total_seconds us) - inject_Z us / 1000000) <= roundoff * Qabs (inject_Z us / 1000000))%Q.
Proof.
  pose proof (fl_rel us 1000000 ltac:(lia)) as H. unfold total_seconds. change (inject_Z 1000000) with 1000000%Q in H.
  assert (bval (fl us 1000000) - inject_Z us / 1000000 == (bval (fl us 1000000) * 1000000 - inject_Z us) * (1 # 1000000))%Q as -> by (unfold Qdiv; change (/ 1000000)%Q with (1 # 1000000)%Q; ring).
  assert (inject_Z us / 1000000 == inject_Z us * (1 # 1000000))%Q as -> by done.
  rewrite !Qabs_Qmult. change (Qabs (1 # 1000000)) with (1 # 1000000)%Q. rewrite Qmult_assoc. apply Qmult_le_compat_r; [done|discriminate].
Qed.
Lemma badd_nonneg a b : 0 <= bman a → 0 <= bman b → 0 <= bman (badd a b).
Proof. intros Ha Hb. apply fl_nonneg; [lia|]. unfold bman_at. apply Z.add_nonneg_nonneg; apply Z.mul_nonneg_nonneg; try done; apply Z.pow_nonneg; lia. Qed.
Lemma bmul_nonneg a b : 0 <= bman a → 0 <= bman b → 0 <= bman (bmul a b).
Proof. intros Ha Hb. apply fl_nonneg; [lia|]. by apply Z.mul_nonneg_nonneg. Qed.
Lemma bsub_nonneg a b : (bval b <= bval a)%Q → 0 <= bman (bsub a b).
Proof.
  intros H. apply fl_nonneg; [lia|]. apply bleb_spec in H. unfold bleb, bcommon in *. rewrite Z.min_comm in H. apply Z.leb_le in H. lia.
Qed.
(** An upper bound on the result of an operation on a nonnegative exact value. *)
Lemma rel_upper (x y : Q) : (0 <= x → Qabs (y - x) <= roundoff * Qabs x → y <= x * (1 + roundoff))%Q.
Proof. intros Hx H. rewrite (Qabs_pos x) in H by done. apply Qabs_Qle_condition in H as [_ H]. lra. Qed.
