(* ===== verification/PyNum.v ===== *)
(** * Numbers out of JSON values: [int], [str], [Decimal], [float] *)

From S2P Require Import Prelude Json Dec DecText Float64.
From stdpp Require Import pretty.
Open Scope Z_scope.

(** [int(x)] of a JSON value. *)
Definition py_int (v : json) : res Z :=
  match v with
  | JInt z => Ok z
  | JBool b => Ok (if b then 1 else 0)
  | JFloat text => d ← dec_of_str text; Ok (Z.quot (at_exp d (Z.min 0 (dexp d))) (10 ^ (- Z.min 0 (dexp d))))
  | JStr text =>
      let '(sg, s1) := read_sign (String.list_ascii_of_string text) in
      match read_digits 0 0 s1 with
      | (v, n, []) => if 0 <? n then Ok (sg * v) else Err (ValueError "invalid literal for int()")
      | _ => Err (ValueError "invalid literal for int()")
      end
  | _ => Err (TypeError "int() argument")
  end.
(** [Decimal(str(x))]; the text of anything but a number or a string is no
    number. *)
Definition decimal_str (v : json) : res dec :=
  match v with
  | JInt z => Ok (mkDec z 0)
  | JFloat text | JStr text => dec_of_str text
  | _ => Err InvalidOperation
  end.
(** [datetime.fromtimestamp(ms / 1000.0, tz=UTC)], in microseconds. *)
Definition from_millis (ms : Z) : res Z :=
  if (-62135596800000 <=? ms) && (ms <=? 253402300799999) then Ok (ms * 1000) else Err (ValueError "year is out of range").

(** [float(text)]: the nearest float; and a decimal of exactly its value. *)
Definition float_of_dec (d : dec) : b64 := fl (coef d * 10 ^ Z.max 0 (dexp d)) (10 ^ Z.max 0 (- dexp d)).
Definition dec_of_float (f : b64) : dec :=
  if 0 <=? bexp f then mkDec (bman f * 2 ^ bexp f) 0 else mkDec (bman f * 5 ^ (- bexp f)) (bexp f).
(** [Decimal(x)], which takes a float at its exact value. *)
Definition decimal_of (v : json) : res dec :=
  match v with
  | JInt z => Ok (mkDec z 0)
  | JBool b => Ok (mkDec (if b then 1 else 0) 0)
  | JStr text => dec_of_str text
  | JFloat text => d ← dec_of_str text; Ok (dec_of_float (float_of_dec d))
  | JNull | JList _ | JObj _ => Err (TypeError "conversion to Decimal is not supported")
  end.
(** [str(x)]; the text of a container is the parameter. *)
Definition py_text (repr : json → string) (v : json) : string :=
  match v with
  | JStr s => s
  | JInt z => pretty z
  | JFloat text => text
  | JBool b => if b then "True" else "False"
  | JNull => "None"
  | _ => repr v
  end.
