(* ===== verification/Sizing.v ===== *)
(** * Position sizing and exchange-grid quantization

    Models packages/sizing/compute.py, packages/exchange/quantize.py and the
    structural guards of [SizingSection] (packages/scoring/types.py).  The
    theorems bound what a sized and quantized order can risk. *)

From S2P Require Import Prelude Dec.
From Stdlib Require Import QArith Qabs Lqa SpecFloat.
From stdpp Require Import pretty.
Open Scope Z_scope.

(** ** Python floats

    Scores and rule weights are Python floats: IEEE 754 binary64, modelled by
    the standard library's [spec_float]. *)
Abbreviation pyfloat := spec_float.
Definition fadd : pyfloat → pyfloat → pyfloat := SFadd 53 1024.
Definition fleb : pyfloat → pyfloat → bool := SFleb.
Definition fzero : pyfloat := S754_zero false.

(** [math.floor] of a float. *)
Definition py_floor (x : pyfloat) : res Z :=
  match x with
  | S754_zero _ => Ok 0
  | S754_infinity _ => Err OverflowError
  | S754_nan => Err (ValueError "cannot convert float NaN to integer")
  | S754_finite s m e =>
      let n := if s then Z.neg m else Z.pos m in
      Ok (if 0 <=? e then n * 2 ^ e else n / 2 ^ (- e))
  end.

(** ** Digit-string keys *)
Definition digit_value (c : Ascii.ascii) : option Z :=
  let n := Z.of_nat (Ascii.nat_of_ascii c) in
  if (48 <=? n) && (n <=? 57) then Some (n - 48) else None.
Fixpoint digits_value (acc : Z) (s : string) : option Z :=
  match s with
  | EmptyString => Some acc
  | String c s' => match digit_value c with
                   | Some d => digits_value (10 * acc + d) s'
                   | None => None
                   end
  end.
(** [int(k)] of a digit-string; the keys are digit-strings by the guards of
    [SizingSection]. *)
Definition int_of_key (k : string) : option Z :=
  match k with EmptyString => None | _ => digits_value 0 k end.
Definition isdigit (k : string) : bool := bool_decide (is_Some (int_of_key k)).

(** ** Configuration *)
Record SizingTier := mkTier { balance_min : dec; size : dec }.
Inductive sizing_method := tier | risk_per_sl.
#[global] Instance sizing_method_eq_dec : EqDecision sizing_method.
Proof. solve_decision. Defined.

Record SizingSection := mkSizing {
  method : sizing_method;
  tiers : list SizingTier;
  score_multipliers : gmap string dec;
  risk_pct : option dec;
  max_notional_per_symbol : gmap string dec;
}.

(** [any(b <= a for a, b in pairwise(mins))], negated. *)
Fixpoint strictly_ascending (l : list dec) : bool :=
  match l with
  | a :: ((b :: _) as l') => dltb a b && strictly_ascending l'
  | _ => true
  end.

(** The field constraints ([ge=0], [gt=0]) and [_structural_guards]. *)
Definition valid_tier (t : SizingTier) : bool := dleb dzero (balance_min t) && dleb dzero (size t).
Definition structural_guards (s : SizingSection) : res SizingSection :=
  let check (b : bool) (m : string) (k : res SizingSection) := if b then k else Err (ValueError m) in
  let tail :=
    check (bool_decide (is_Some (max_notional_per_symbol s !! "default"))) "no default key"
      (check (forallb isdigit (map fst (map_to_list (score_multipliers s)))) "non-digit key" (Ok s)) in
  check (forallb valid_tier (tiers s)) "tier ge 0"
    (check (match risk_pct s with Some r => dltb dzero r | None => true end) "risk_pct gt 0"
      (match method s with
       | tier =>
           check (bool_decide (risk_pct s = None)) "risk_pct is only valid with method='risk_per_sl'"
             (check (negb (bool_decide (length (tiers s) = 0%nat))) "tiers must be non-empty"
               (check (negb (bool_decide (score_multipliers s = ∅))) "score_multipliers must be non-empty"
                 (check (strictly_ascending (map balance_min (tiers s))) "tiers must be strictly ascending" tail)))
       | risk_per_sl => check (bool_decide (is_Some (risk_pct s))) "risk_pct must be > 0" tail
       end)).

(** ** compute.py *)
Fixpoint select_tier_loop (total_equity : dec) (ts : list SizingTier) (selected : option SizingTier)
  : option SizingTier :=
  match ts with
  | [] => selected
  | t :: ts' => if dleb (balance_min t) total_equity
                then select_tier_loop total_equity ts' (Some t)
                else selected
  end.
Definition select_tier (total_equity : dec) (ts : list SizingTier) : option SizingTier :=
  select_tier_loop total_equity ts None.

(** [sorted(int(k) for k in score_multipliers)]: its first and last element. *)
Definition key_ints (m : gmap string dec) : list Z := omap int_of_key (map fst (map_to_list m)).
Definition list_min (l : list Z) : Z := match l with [] => 0 | x :: l' => fold_right Z.min x l' end.
Definition list_max (l : list Z) : Z := match l with [] => 0 | x :: l' => fold_right Z.max x l' end.

Definition apply_score_multiplier (notional : dec) (score : option pyfloat)
    (mults : gmap string dec) : res dec :=
  match score with
  | None => Ok notional
  | Some sc =>
      if bool_decide (mults = ∅) then Ok notional
      else
        fl ← py_floor sc;
        let clamped := Z.min (Z.max fl (list_min (key_ints mults))) (list_max (key_ints mults)) in
        match mults !! (pretty clamped : string) with
        | Some m => Ok (dmul notional m)
        | None => Ok notional
        end
  end.

Definition cap_notional (notional : dec) (caps : gmap string dec) (symbol : string) : res dec :=
  default_cap ← subscript "default" (caps !! "default");
  Ok (dmin notional (default default_cap (caps !! symbol))).

Definition compute_qty_from_sizing (total_equity mark_price : dec) (ts : list SizingTier)
    (score : option pyfloat) (mults caps : gmap string dec) (symbol : string) : res (option dec) :=
  match select_tier total_equity ts with
  | None => Ok None
  | Some t =>
      if dleb mark_price dzero then Err (ValueError "mark_price must be positive for sizing")
      else
        n1 ← apply_score_multiplier (size t) score mults;
        n2 ← cap_notional n1 caps symbol;
        q ← ddiv n2 mark_price;
        Ok (Some q)
  end.

Definition compute_qty_from_risk (total_equity mark_price sl_pct risk : dec)
    (caps : gmap string dec) (symbol : string) : res (option dec) :=
  if dleb total_equity dzero then Ok None
  else if dleb mark_price dzero then Err (ValueError "mark_price must be positive for sizing")
  else if dleb sl_pct dzero then Err (ValueError "sl_pct must be positive for risk-per-SL sizing")
  else if dleb risk dzero then Err (ValueError "risk_pct must be positive for risk-per-SL sizing")
  else
    let risk_amount := dmul total_equity risk in
    n1 ← ddiv risk_amount sl_pct;
    n2 ← cap_notional n1 caps symbol;
    q ← ddiv n2 mark_price;
    Ok (Some q).

(** ** quantize.py *)
Record InstrumentInfo := mkInstrument {
  ii_symbol : string;
  qty_step : dec;
  min_order_qty : dec;
  min_notional_usd : dec;
  tick_size : dec;
}.

Definition quantize_qty (qty : dec) (info : InstrumentInfo) : res dec :=
  if dltb qty (min_order_qty info) then Err (QtyValidationError "min_order_qty")
  else
    n ← dfloordiv qty (qty_step info);
    let rounded := dmul n (qty_step info) in
    if dltb rounded (min_order_qty info) then Err (QtyValidationError "min_order_qty")
    else Ok rounded.

Inductive side := buy | sell.
#[global] Instance side_eq_dec : EqDecision side.
Proof. solve_decision. Defined.

Definition quantize_price (price : dec) (s : side) (tick : dec) : res dec :=
  if dleb tick dzero then Err (ValueError "tick must be positive")
  else
    q ← ddiv price tick;
    Ok (dmul (match s with buy => dfloor q | sell => dceil q end) tick).

(** ** Tier selection *)
Lemma dltb_trans a b c : dltb a b = true → dltb b c = true → dltb a c = true.
Proof. rewrite !dltb_spec. lra. Qed.

Lemma strictly_ascending_tail a l :
  strictly_ascending (a :: l) = true → strictly_ascending l = true ∧ Forall (λ b, dltb a b = true) l.
Proof.
  revert a; induction l as [|b l IH]; intros a H; [done|].
  cbn in H. apply andb_true_iff in H as [Hab Hl]. split; [done|].
  constructor; [done|]. destruct (IH b Hl) as [_ Hf].
  eapply Forall_impl; [exact Hf|]. intros c Hc. by eapply dltb_trans.
Qed.

Lemma select_tier_loop_spec e ts sel :
  strictly_ascending (map balance_min ts) = true →
  match select_tier_loop e ts sel with
  | Some t =>
      (sel = Some t ∧ Forall (λ t', dval e < dval (balance_min t'))%Q ts) ∨
      ∃ pre post, ts = pre ++ t :: post ∧ (dval (balance_min t) <= dval e)%Q ∧
                  Forall (λ t', dval e < dval (balance_min t'))%Q post
  | None => sel = None ∧ Forall (λ t', dval e < dval (balance_min t'))%Q ts
  end.
Proof.
  revert sel; induction ts as [|t ts IH]; intros sel Hasc; cbn.
  { destruct sel; [left|]; auto. }
  cbn in Hasc. apply strictly_ascending_tail in Hasc as [Hasc Hf].
  destruct (dleb (balance_min t) e) eqn:Hle.
  - specialize (IH (Some t) Hasc). destruct (select_tier_loop e ts (Some t)) as [t'|].
    + right. destruct IH as [[[= ->] Hpost]|(pre & post & -> & Ht' & Hpost)].
      * exists [], ts. split; [done|]. split; [by apply dleb_spec | done].
      * exists (t :: pre), post. done.
    + destruct IH as [[=] _].
  - apply dleb_false in Hle.
    assert (Forall (λ t', dval e < dval (balance_min t'))%Q (t :: ts)) as Hall.
    { constructor; [done|]. rewrite Forall_map in Hf. eapply Forall_impl; [exact Hf|].
      intros t' Ht'. apply dltb_spec in Ht'. lra. }
    destruct sel; [left|]; done.
Qed.

(** On a ladder that passed the guards the selected tier is the highest one
    whose threshold the equity reaches, and no tier is selected exactly when
    the equity is below every threshold. *)
Lemma select_tier_highest e ts :
  strictly_ascending (map balance_min ts) = true →
  match select_tier e ts with
  | Some t => ∃ pre post, ts = pre ++ t :: post ∧ (dval (balance_min t) <= dval e)%Q ∧
                Forall (λ t', dval e < dval (balance_min t'))%Q post
  | None => Forall (λ t', dval e < dval (balance_min t'))%Q ts
  end.
Proof.
  intros H. pose proof (select_tier_loop_spec e ts None H) as Hs. unfold select_tier.
  destruct (select_tier_loop e ts None); [|tauto]. destruct Hs as [[[=] _]|Hs]. exact Hs.
Qed.

(** ** Quantity grid *)
Lemma at_exp_pos d e : e <= dexp d → 0 < coef d → 0 < at_exp d e.
Proof. intros He Hc. unfold at_exp. pose proof (pow10_gt0 (dexp d - e)). nia. Qed.
Lemma at_exp_nonneg d e : e <= dexp d → 0 <= coef d → 0 <= at_exp d e.
Proof. intros He Hc. unfold at_exp. pose proof (pow10_gt0 (dexp d - e)). nia. Qed.

Lemma dval_int n : (dval (mkDec n 0) == inject_Z n)%Q.
Proof. unfold dval; cbn [coef dexp]. change (p10 0) with 1%Q. ring. Qed.

(** The grid point [quantize_qty] computes, before the minimum is checked. *)
Lemma qty_grid_point qty step :
  0 < coef step → 0 <= coef qty → at_exp qty (common_exp qty step) < 10 ^ prec →
  ∃ n, 0 <= n ∧ dfloordiv qty step = Ok (mkDec n 0) ∧
    (dval (dmul (mkDec n 0) step) == inject_Z n * dval step)%Q ∧
    (dval (dmul (mkDec n 0) step) <= dval qty)%Q ∧
    (dval qty < dval (dmul (mkDec n 0) step) + dval step)%Q.
Proof.
  intros Hs Hq Hfit. set (e := common_exp qty step) in *.
  pose proof (at_exp_nonneg qty e (common_exp_l _ _) Hq) as HP.
  pose proof (at_exp_pos step e (common_exp_r _ _) Hs) as HT.
  set (P := at_exp qty e) in *. set (T := at_exp step e) in *.
  pose proof (quot_mul_le P T HP HT) as [Hlo Hhi].
  pose proof (Z.quot_pos P T HP HT) as Hn. set (n := P ÷ T) in *.
  assert (n <= P) by nia.
  exists n. split; [done|]. split.
  { unfold dfloordiv. destruct (Z.eqb_spec (coef step) 0); [lia|]. cbn zeta. fold e P T n.
    rewrite Z.abs_eq by done. destruct (Z.ltb_spec n (10 ^ prec)); [done|lia]. }
  assert (dval (dmul (mkDec n 0) step) == inject_Z n * dval step)%Q as Hv.
  { rewrite <- dval_int. apply (dmul_representable _ _ (n * T) e).
    - rewrite Z.abs_eq by nia. lia.
    - rewrite dval_int, (dval_at step e (common_exp_r _ _)), inject_Z_mult. fold T. ring. }
  split; [done|]. rewrite !Hv, (dval_at step e (common_exp_r _ _)), (dval_at qty e (common_exp_l _ _)).
  fold P T. rewrite !Qmult_assoc, <- !inject_Z_mult, <- Qmult_plus_distr_l, <- inject_Z_plus. split.
  - apply Qmul_p10_le. lia.
  - apply Qmult_lt_r; [apply p10_pos|]. rewrite <- Zlt_Qlt. lia.
Qed.

(** [quantize_qty] returns the largest multiple of the step not above the
    quantity, and refuses the order exactly when that grid point is below the
    minimum. *)
Lemma quantize_qty_correct qty info :
  0 < coef (qty_step info) → 0 <= coef qty →
  at_exp qty (common_exp qty (qty_step info)) < 10 ^ prec →
  ∃ n g, 0 <= n ∧ (dval g == inject_Z n * dval (qty_step info))%Q ∧
    (dval g <= dval qty)%Q ∧ (dval qty < dval g + dval (qty_step info))%Q ∧
    quantize_qty qty info =
      (if dltb g (min_order_qty info) then Err (QtyValidationError "min_order_qty") else Ok g).
Proof.
  intros Hs Hq Hfit. destruct (qty_grid_point qty (qty_step info) Hs Hq Hfit) as (n & Hn & Hdiv & Hv & Hle & Hlt).
  exists n, (dmul (mkDec n 0) (qty_step info)). do 4 (split; [done|]).
  unfold quantize_qty. rewrite Hdiv. cbn.
  destruct (dltb qty (min_order_qty info)) eqn:Hmin; [|done].
  replace (dltb (dmul (mkDec n 0) (qty_step info)) (min_order_qty info)) with true; [done|].
  symmetry. apply dltb_spec. apply dltb_spec in Hmin. lra.
Qed.

(** ** Price grid *)

(** Two scaled numbers leave room for the rounding of the quotient. *)
Definition fits27 (a b : dec) : Prop :=
  Z.abs (at_exp a (common_exp a b)) < 10 ^ 27 ∧ Z.abs (at_exp b (common_exp a b)) < 10 ^ 27.

Lemma Qlt_mul_cancel (x y : Q) (T : Z) : 0 < T → (x * inject_Z T < y * inject_Z T)%Q → (x < y)%Q.
Proof.
  intros HT H. apply (Qmult_lt_r _ _ (inject_Z T)); [|done]. change 0%Q with (inject_Z 0). by rewrite <- Zlt_Qlt.
Qed.

(** An integer strictly within one of an integer. *)
Lemma inject_Z_between (n m : Z) (x : Q) :
  (inject_Z n <= x)%Q → (x < inject_Z n + 1)%Q → (inject_Z m < x)%Q → (x < inject_Z m + 1)%Q → n = m.
Proof.
  intros H1 H2 H3 H4.
  assert (inject_Z n < inject_Z (m + 1))%Q as A by (rewrite inject_Z_plus; change (inject_Z 1) with 1%Q; lra).
  assert (inject_Z m < inject_Z (n + 1))%Q as B by (rewrite inject_Z_plus; change (inject_Z 1) with 1%Q; lra).
  rewrite <- Zlt_Qlt in A, B. lia.
Qed.

Lemma inject_Z_floor (n m : Z) : (inject_Z n <= inject_Z m)%Q → (inject_Z m < inject_Z n + 1)%Q → n = m.
Proof.
  intros A B. change 1%Q with (inject_Z 1) in B. rewrite <- inject_Z_plus in B.
  rewrite <- Zle_Qle in A. rewrite <- Zlt_Qlt in B. lia.
Qed.

(** The rounded quotient falls strictly between the same integers as the exact
    one, or is that integer. *)
Lemma price_quotient price tick q :
  0 < coef tick → fits27 price tick → ddiv price tick = Ok q →
  let e := common_exp price tick in
  let n := at_exp price e / at_exp tick e in
  (at_exp price e mod at_exp tick e = 0 ∧ (dval q == inject_Z n)%Q) ∨
  (at_exp price e mod at_exp tick e ≠ 0 ∧ (inject_Z n < dval q)%Q ∧ (dval q < inject_Z n + 1)%Q).
Proof.
  intros Ht [HP HT] Hdiv e n. fold e in HP, HT.
  pose proof (at_exp_pos tick e (common_exp_r _ _) Ht) as HTp.
  pose proof (dval_at price e (common_exp_l _ _)) as Hpv.
  pose proof (dval_at tick e (common_exp_r _ _)) as Htv.
  set (P := at_exp price e) in *. set (T := at_exp tick e) in *.
  pose proof (Z.div_mod P T ltac:(lia)) as Hdm. pose proof (Z.mod_pos_bound P T HTp) as Hm. fold n in Hdm.
  destruct (Z.eq_dec (P mod T) 0) as [H0|H0]; [left|right]; (split; [done|]).
  - transitivity (inject_Z n * p10 0)%Q; [|change (p10 0) with 1%Q; ring].
    apply (ddiv_exact price tick q n 0 Hdiv); [unfold prec; nia|].
    rewrite Hpv, Htv. change (p10 0) with 1%Q. replace P with (n * T) by lia. rewrite inject_Z_mult. ring.
  - pose proof (ddiv_rel price tick q Hdiv) as Hr. rewrite Hpv, Htv in Hr.
    assert (dval q * (inject_Z T * p10 e) - inject_Z P * p10 e == (dval q * inject_Z T - inject_Z P) * p10 e)%Q
      as E by ring. rewrite E, !Qabs_mul_p10, Qmult_assoc in Hr. clear E.
    apply Qmult_le_r in Hr; [|apply p10_pos]. rewrite inject_Z_abs in Hr.
    assert (p10 (-27) * inject_Z (Z.abs P) < 1)%Q as Hsmall.
    { rewrite Zlt_Qlt in HP. change (p10 (-27)) with (1 # 1000000000000000000000000000)%Q.
      change (inject_Z (10 ^ 27)) with (1000000000000000000000000000 # 1)%Q in HP. lra. }
    assert (Qabs (dval q * inject_Z T - inject_Z P) < 1)%Q as Habs by lra.
    apply Qabs_Qlt_condition in Habs as [A B].
    assert (inject_Z (n * T + 1) <= inject_Z P)%Q as L by (rewrite <- Zle_Qle; lia).
    assert (inject_Z P <= inject_Z ((n + 1) * T - 1))%Q as U by (rewrite <- Zle_Qle; lia).
    rewrite inject_Z_plus, inject_Z_mult in L. rewrite inject_Z_sub, inject_Z_mult, inject_Z_plus in U.
    change (inject_Z 1) with 1%Q in L, U.
    split; apply (Qlt_mul_cancel _ _ T HTp); lra.
Qed.

Lemma price_grid_value (g tick : dec) n e :
  e <= dexp tick → Z.abs (n * at_exp tick e) < 10 ^ prec → (dval g == inject_Z n)%Q →
  (dval (dmul g tick) == inject_Z (n * at_exp tick e) * p10 e)%Q.
Proof.
  intros He Hfit Hg.
  assert (dval g * dval tick == inject_Z (n * at_exp tick e) * p10 e)%Q as Hv
    by (rewrite Hg, (dval_at tick e He), inject_Z_mult; ring).
  by rewrite (dmul_representable g tick _ e Hfit Hv).
Qed.

(** [quantize_price] lands on the tick grid, rounding a buy down and a sell up
    by less than one tick, whatever the 28-digit division did in between. *)
Lemma quantize_price_correct price s tick :
  0 < coef tick → fits27 price tick →
  ∃ r n, quantize_price price s tick = Ok r ∧ (dval r == inject_Z n * dval tick)%Q ∧
    match s with
    | buy => (dval r <= dval price)%Q ∧ (dval price < dval r + dval tick)%Q
    | sell => (dval price <= dval r)%Q ∧ (dval r < dval price + dval tick)%Q
    end.
Proof.
  intros Ht Hfit. destruct (ddiv_ok price tick) as [q Hq]; [lia|].
  pose proof (price_quotient price tick q Ht Hfit Hq) as Hn. cbn zeta in Hn.
  destruct Hfit as [HP HT]. set (e := common_exp price tick) in *.
  pose proof (at_exp_pos tick e (common_exp_r _ _) Ht) as HTp.
  pose proof (dval_at price e (common_exp_l _ _)) as Hpv.
  pose proof (dval_at tick e (common_exp_r _ _)) as Htv.
  set (P := at_exp price e) in *. set (T := at_exp tick e) in *.
  pose proof (Z.div_mod P T ltac:(lia)) as Hdm. pose proof (Z.mod_pos_bound P T HTp) as Hm.
  set (n0 := P / T) in *.
  assert (∃ n, (dval (match s with buy => dfloor q | sell => dceil q end) == inject_Z n)%Q ∧
     match s with buy => n * T <= P < n * T + T | sell => P <= n * T < P + T end) as (n & Hv & Hb).
  { destruct s.
    - destruct (dfloor_spec q) as (n & Hv & Hlo & Hhi). exists n. split; [done|].
      assert (n = n0) as -> by (destruct Hn as [[_ E]|(_ & A & B)];
        [rewrite E in *; by apply inject_Z_floor | by apply (inject_Z_between n n0 (dval q))]).
      lia.
    - destruct (dceil_spec q) as (n & Hv & Hlo & Hhi). exists n. split; [done|].
      destruct Hn as [[H0 E]|(H0 & A & B)].
      + assert (n0 = n) as <- by (rewrite E in *; by apply inject_Z_floor). lia.
      + assert (inject_Z n0 < inject_Z n)%Q as A' by lra.
        assert (inject_Z n < inject_Z (n0 + 2))%Q as B'
          by (rewrite inject_Z_plus; change (inject_Z 2) with 2%Q; lra).
        rewrite <- Zlt_Qlt in A', B'. assert (n = n0 + 1) as -> by lia. lia. }
  exists (dmul (match s with buy => dfloor q | sell => dceil q end) tick), n.
  assert (Z.abs (n * T) < 10 ^ prec) as Hnt by (change (10 ^ prec) with (10 * 10 ^ 27); destruct s; lia).
  pose proof (price_grid_value _ tick n e (common_exp_r _ _) Hnt Hv) as Hg. fold T in Hg.
  split.
  { unfold quantize_price. destruct (dleb tick dzero) eqn:Hz; [apply dleb_zero_r in Hz; lia|]. by rewrite Hq. }
  split; [by rewrite Hg, Htv, inject_Z_mult, <- Qmult_assoc|].
  destruct s; rewrite Hg, Htv, Hpv, <- Qmult_plus_distr_l, <- inject_Z_plus;
    (split; [apply Qmul_p10_le; lia | apply Qmult_lt_r; [apply p10_pos | rewrite <- Zlt_Qlt; lia]]).
Qed.

(** On one side of one grid, quantization is monotone. *)
Lemma quantize_price_mono p p' s tick r r' :
  0 < coef tick → fits27 p tick → fits27 p' tick → quantize_price p s tick = Ok r → quantize_price p' s tick = Ok r' →
  (dval p <= dval p')%Q → (dval r <= dval r')%Q.
Proof.
  intros Ht Hf Hf' Hr Hr' Hle.
  destruct (quantize_price_correct p s tick Ht Hf) as (x & n & E & Hx & Hb). rewrite Hr in E. injection E as <-.
  destruct (quantize_price_correct p' s tick Ht Hf') as (y & m & E & Hy & Hb'). rewrite Hr' in E. injection E as <-.
  assert (0 < dval tick)%Q as Htv by (by apply dval_sign).
  assert (inject_Z n * dval tick < (inject_Z m + 1) * dval tick)%Q as Hlt
    by (rewrite Qmult_plus_distr_l, Qmult_1_l, <- Hx, <- Hy; destruct s; lra).
  apply Qmult_lt_r in Hlt; [|done]. change 1%Q with (inject_Z 1) in Hlt. rewrite <- inject_Z_plus, <- Zlt_Qlt in Hlt.
  rewrite Hx, Hy. apply Qmult_le_r; [done|]. rewrite <- Zle_Qle. lia.
Qed.

(** ** The sized notional and the risk it carries *)
Definition symbol_cap (caps : gmap string dec) (symbol : string) : dec :=
  default (default dzero (caps !! "default")) (caps !! symbol).

Lemma cap_notional_spec n caps sym r :
  cap_notional n caps sym = Ok r →
  (dval r <= dval n)%Q ∧ (dval r <= dval (symbol_cap caps sym))%Q ∧ (r = n ∨ r = symbol_cap caps sym).
Proof.
  unfold cap_notional, symbol_cap. destruct (caps !! "default") as [d|]; cbn; intros H; inv_ok; subst r.
  apply dmin_spec.
Qed.

Lemma dleb_zero_false a : dleb a dzero = false → 0 < coef a.
Proof. intros H. apply dleb_false in H. rewrite dval_zero in H. by apply dval_sign in H. Qed.

(** One division by a positive price multiplies the relative error in. *)
Lemma ddiv_upper n m q (B : Q) :
  ddiv n m = Ok q → (dval n <= B)%Q → (0 <= B)%Q → (dval q * dval m <= B * (1 + p10 (-27)))%Q.
Proof.
  intros H Hn HB. pose proof (ddiv_rel n m q H) as Hr. apply Qabs_Qle_condition in Hr as [_ Hr].
  change (p10 (-27)) with (1 # 1000000000000000000000000000)%Q in *.
  destruct (Qlt_le_dec (dval n) 0) as [Hneg|Hpos].
  - rewrite (Qabs_neg (dval n)) in Hr by lra. lra.
  - rewrite (Qabs_pos (dval n)) in Hr by lra. lra.
Qed.

Lemma compute_sizing_inv eq mark ts sc mults caps sym q :
  compute_qty_from_sizing eq mark ts sc mults caps sym = Ok (Some q) →
  0 < coef mark ∧ ∃ n1 n2, cap_notional n1 caps sym = Ok n2 ∧ ddiv n2 mark = Ok q.
Proof.
  unfold compute_qty_from_sizing. intros H. destruct (select_tier eq ts); [|by inv_ok].
  destruct (dleb mark dzero) eqn:Hm; [discriminate|]. split; [by apply dleb_zero_false|].
  inv_ok. subst. eauto.
Qed.

Lemma compute_risk_inv eq mark sl rk caps sym q :
  compute_qty_from_risk eq mark sl rk caps sym = Ok (Some q) →
  0 < coef eq ∧ 0 < coef mark ∧ 0 < coef sl ∧ 0 < coef rk ∧
  ∃ n1 n2, ddiv (dmul eq rk) sl = Ok n1 ∧ cap_notional n1 caps sym = Ok n2 ∧ ddiv n2 mark = Ok q.
Proof.
  unfold compute_qty_from_risk. intros H.
  destruct (dleb eq dzero) eqn:H1; [by inv_ok|]. destruct (dleb mark dzero) eqn:H2; [discriminate|].
  destruct (dleb sl dzero) eqn:H3; [discriminate|]. destruct (dleb rk dzero) eqn:H4; [discriminate|].
  inv_ok. subst. repeat (split; [by apply dleb_zero_false|]). eauto.
Qed.

(** C23: Whatever the method, the notional an order is sized to never exceeds the
    per-symbol cap by more than one part in 10^27. *)
Theorem sized_notional_capped eq mark ts sc mults caps sym sl rk q :
  0 <= coef (symbol_cap caps sym) →
  compute_qty_from_sizing eq mark ts sc mults caps sym = Ok (Some q) ∨
  compute_qty_from_risk eq mark sl rk caps sym = Ok (Some q) →
  (dval q * dval mark <= dval (symbol_cap caps sym) * (1 + p10 (-27)))%Q.
Proof.
  intros Hcap H. assert (0 <= dval (symbol_cap caps sym))%Q by (by apply dval_sign).
  assert (∃ n1 n2, cap_notional n1 caps sym = Ok n2 ∧ ddiv n2 mark = Ok q) as (n1 & n2 & H1 & H2).
  { destruct H as [H|H]; [by apply compute_sizing_inv in H as [_ ?]|].
    apply compute_risk_inv in H as (_ & _ & _ & _ & n1 & n2 & _ & ? & ?). eauto. }
  apply cap_notional_spec in H1 as (_ & Hc & _). by apply (ddiv_upper n2).
Qed.

Lemma Qmult_pos_le (a b c : Q) : (0 < c)%Q → (a <= b)%Q → (a * c <= b * c)%Q.
Proof. intros Hc Hab. apply Qmult_le_compat_r; [done | by apply Qlt_le_weak]. Qed.

(** Risk-per-SL sizing: if the stop is hit, the loss [qty * mark * sl_pct] is
    at most the configured fraction of equity, up to three units in 10^27. *)
Lemma risk_per_sl_bounded eq mark sl rk caps sym q :
  compute_qty_from_risk eq mark sl rk caps sym = Ok (Some q) →
  (dval q * dval mark * dval sl <= dval eq * dval rk * (1 + (3 # 1) * p10 (-27)))%Q.
Proof.
  intros H. apply compute_risk_inv in H as (He & _ & Hs & Hr & n1 & n2 & Hd1 & Hc & Hd2).
  apply cap_notional_spec in Hc as (Hc & _ & _).
  assert (0 < dval eq * dval rk)%Q as Her by (apply Qmult_lt_0_compat; by apply dval_sign).
  assert (0 < dval sl)%Q as Hsl by (by apply dval_sign).
  pose proof (dmul_rel eq rk) as Hm. rewrite (Qabs_pos (dval eq * dval rk)) in Hm by lra.
  apply Qabs_Qle_condition in Hm as [_ Hm].
  pose proof (dmul_pos eq rk He Hr) as Hrp. apply dval_sign in Hrp.
  pose proof (ddiv_upper _ sl n1 _ Hd1 (Qle_refl _) ltac:(lra)) as H1.
  pose proof (ddiv_nonneg _ _ _ Hd1 (Z.lt_le_incl _ _ (dmul_pos _ _ He Hr)) Hs) as Hn1.
  apply dval_sign in Hn1.
  pose proof (ddiv_upper n2 mark q (dval n1) Hd2 Hc Hn1) as H2.
  apply (Qmult_pos_le _ _ (dval sl) Hsl) in H2. unfold ulp_rel in Hm.
  assert (dval n1 * (1 + p10 (-27)) * dval sl == dval n1 * dval sl * (1 + p10 (-27)))%Q as E by ring.
  rewrite E in H2.
  change (p10 (-27)) with (1 # 1000000000000000000000000000)%Q in *. lra.
Qed.

Lemma apply_score_ok n sc mults :
  (∀ x, sc = Some x → is_ok (py_floor x) = true) → ∃ r, apply_score_multiplier n sc mults = Ok r.
Proof.
  intros Hsc. unfold apply_score_multiplier. destruct sc as [x|]; [|eauto].
  case_bool_decide; [eauto|]. specialize (Hsc x eq_refl). destruct (py_floor x); [|discriminate].
  cbn. destruct (mults !! _); eauto.
Qed.

Lemma guards_default s : is_ok (structural_guards s) = true → is_Some (max_notional_per_symbol s !! "default").
Proof.
  unfold structural_guards. intros H.
  repeat match type of H with
  | is_ok (if ?b then _ else _) = true => let E := fresh "E" in destruct b eqn:E; [|discriminate]
  | is_ok (match method s with _ => _ end) = true => destruct (method s)
  end; by case_bool_decide.
Qed.

(** A section that passed its guards never makes the tier pipeline raise for a
    finite score and a positive mark price: it skips or sizes. *)
Lemma tier_sizing_total s eq mark sc sym :
  is_ok (structural_guards s) = true → 0 < coef mark →
  (∀ x, sc = Some x → is_ok (py_floor x) = true) →
  ∃ r, compute_qty_from_sizing eq mark (tiers s) sc (score_multipliers s) (max_notional_per_symbol s) sym = Ok r.
Proof.
  intros Hg Hm Hsc. apply guards_default in Hg as [d Hd]. unfold compute_qty_from_sizing.
  destruct (select_tier eq (tiers s)) as [t|]; [|eauto].
  destruct (dleb mark dzero) eqn:Hz; [apply dleb_zero_r in Hz; lia|].
  destruct (apply_score_ok (size t) sc (score_multipliers s) Hsc) as [n1 ->]. cbn.
  unfold cap_notional. rewrite Hd. cbn.
  destruct (ddiv_ok (dmin n1 (default d (max_notional_per_symbol s !! sym))) mark) as [q ->]; [lia|]. cbn. eauto.
Qed.

(** ** Concrete runs *)
Definition demo_tiers : list SizingTier := [mkTier (0 @ 0) (50 @ 0); mkTier (1000 @ 0) (200 @ 0)].
Definition demo_caps : gmap string dec := {["default" := 150 @ 0]}.
Definition demo_sizing : SizingSection := mkSizing tier demo_tiers {["1" := 1 @ 0]} None demo_caps.
Definition demo_info : InstrumentInfo := mkInstrument "BTCUSDT" (1 @ (-3)) (1 @ (-3)) (5 @ 0) (10 @ (-2)).

Lemma sized_notional_capped_witness :
  ∃ q, compute_qty_from_sizing (1500 @ 0) (100 @ 0) demo_tiers None ∅ demo_caps "BTCUSDT" = Ok (Some q) ∧
    (dval q * dval (100 @ 0) <= dval (symbol_cap demo_caps "BTCUSDT") * (1 + p10 (-27)))%Q.
Proof.
  destruct (compute_qty_from_sizing (1500 @ 0) (100 @ 0) demo_tiers None ∅ demo_caps "BTCUSDT") as [[q|]|] eqn:E;
    [|vm_compute in E; discriminate..].
  exists q. split; [reflexivity|].
  apply (sized_notional_capped (1500 @ 0) (100 @ 0) demo_tiers None ∅ demo_caps "BTCUSDT" dzero dzero q); [vm_compute; discriminate|left; exact E].
Defined.

