(* ===== verification/PaperDb.v ===== *)
(** * The paper_* tables and the statements that touch them

    Models packages/exchange/paper/persistence.py over the schema of
    migrations/versions/0008_paper_tables.py: the four tables as records of
    finite maps, one operation per helper.  Identity columns come from
    sequences, which a rolled-back transaction does not rewind.

    PostgreSQL itself is not under src/: coercing a value into a
    NUMERIC(p, s) column is the parameter [pg_numeric] of the class
    [PgNumeric]; [PgNumericExact], [PgNumericScale] and [PgNumericIdem] state what
    PostgreSQL documents and the proofs rely on: a value within the column's
    scale is stored unchanged or refused, a stored value has the scale, and a
    value read from the column is stored back unchanged. *)

From S2P Require Import Prelude Dec Sizing.
From Stdlib Require Import QArith.
Open Scope Z_scope.

Class PgNumeric := pg_numeric : Z → Z → dec → option dec.
(** A value with no more decimals than the column is stored unchanged, or
    refused when it needs more digits than the column has. *)
Class PgNumericExact `{PgNumeric} : Prop :=
  pg_numeric_exact : ∀ p s d, - s <= dexp d →
    match pg_numeric p s d with
    | Some d' => Z.abs (at_exp d (- s)) < 10 ^ p ∧ (dval d' == dval d)%Q
    | None => 10 ^ p <= Z.abs (at_exp d (- s))
    end.
(** What a column returns is stored back unchanged. *)
Class PgNumericIdem `{PgNumeric} : Prop :=
  pg_numeric_idem : ∀ p s d d', pg_numeric p s d = Some d' → pg_numeric p s d' = Some d'.

(** What a column returns has at most its scale. *)
Class PgNumericScale `{PgNumeric} : Prop :=
  pg_numeric_scale : ∀ p s d d', pg_numeric p s d = Some d' → - s <= dexp d'.

(** A function with these laws: round half away from zero to the scale, refuse
    what exceeds the precision. *)
Definition pg_half_away : PgNumeric := fun p s d =>
  let k := dexp d + s in
  let c := if 0 <=? k then coef d * 10 ^ k
           else Z.sgn (coef d) * ((2 * Z.abs (coef d) + 10 ^ (- k)) / (2 * 10 ^ (- k))) in
  if Z.abs c <? 10 ^ p then Some (mkDec c (- s)) else None.

Lemma pg_half_away_exact : @PgNumericExact pg_half_away.
Proof.
  intros p s d He. unfold pg_numeric, pg_half_away.
  assert (at_exp d (- s) = coef d * 10 ^ (dexp d + s)) as Ha by (unfold at_exp; do 2 f_equal; lia).
  rewrite (proj2 (Z.leb_le 0 (dexp d + s))), <- Ha by lia. cbn zeta.
  destruct (Z.ltb_spec (Z.abs (at_exp d (- s))) (10 ^ p)); [split; [done|]|done]. by rewrite (dval_at d (- s)).
Qed.
Lemma pg_half_away_scale : @PgNumericScale pg_half_away.
Proof.
  intros p s d d'. unfold pg_numeric, pg_half_away. cbv zeta. set (c := if 0 <=? dexp d + s then _ else _).
  destruct (Z.abs c <? 10 ^ p); [|discriminate]. intros [= <-]. cbn [dexp]. lia.
Qed.
Lemma pg_half_away_idem : @PgNumericIdem pg_half_away.
Proof.
  intros p s d d'. unfold pg_numeric, pg_half_away. cbv zeta. set (c := if 0 <=? dexp d + s then _ else _).
  destruct (Z.abs c <? 10 ^ p) eqn:E; [|discriminate]. intros [= <-]. cbn [coef dexp].
  replace (- s + s) with 0 by lia. cbn. by rewrite Z.mul_1_r, E.
Qed.

(** ** The tables

    Columns that the paper code never writes nor reads (they keep their
    defaults) are left out. *)
Inductive trade_status := st_open | st_closed.
#[global] Instance trade_status_eq_dec : EqDecision trade_status.
Proof. solve_decision. Defined.

Record paper_order := mkOrder {
  po_bot_id : string; po_correlation_id : string; po_exchange_order_id : string;
  po_symbol : string; po_side : side; po_order_type : string;
  po_qty : dec; po_price : option dec; po_status : string;
  po_requested_at : Z; po_idempotent : bool;
}.
Record paper_trade := mkTrade {
  pt_bot_id : string; pt_open_order_id : Z; pt_close_order_id : option Z;
  pt_symbol : string; pt_side : side; pt_entry_price : dec; pt_exit_price : option dec;
  pt_qty : dec; pt_notional_usd : dec; pt_realized_pnl : option dec; pt_fees_paid : option dec;
  pt_close_reason : option string; pt_opened_at : Z; pt_closed_at : option Z;
  pt_status : trade_status;
}.
Record paper_execution := mkExec {
  pe_exchange_exec_id : string; pe_order_id : Z; pe_trade_id : Z; pe_bot_id : string;
  pe_symbol : string; pe_side : side; pe_price : dec; pe_qty : dec; pe_fee : dec;
  pe_exec_type : string; pe_executed_at : Z;
}.
Record paper_position := mkPos {
  pp_trade_id : Z; pp_side : side; pp_entry_price : dec; pp_qty : dec;
  pp_remaining_qty : dec; pp_sl_price : option dec; pp_tp_price : option dec;
  pp_tp_hit : bool; pp_updated_at : Z;
}.

Record db := mkDb {
  paper_orders : gmap Z paper_order;
  paper_trades : gmap Z paper_trade;
  paper_executions : list paper_execution;
  paper_positions : gmap (string * string) paper_position;
  order_seq : Z;
  trade_seq : Z;
}.
Definition empty_db : db := mkDb ∅ ∅ [] ∅ 1 1.

(** [async with conn.transaction()]: an exception restores the tables; the
    sequences keep their values. *)
Definition transaction {A} (m : ST db A) : ST db A := fun d =>
  match m d with
  | (Ok a, d') => (Ok a, d')
  | (Err e, d') =>
      (Err e, mkDb (paper_orders d) (paper_trades d) (paper_executions d) (paper_positions d)
                   (order_seq d') (trade_seq d'))
  end.

Section statements.
Context `{PgNumeric}.

(** A value bound to a NUMERIC(p, s) column. *)
Definition col (p s : Z) (v : dec) : res dec :=
  match pg_numeric p s v with Some v' => Ok v' | None => Err NumericOverflow end.
Definition col_opt (p s : Z) (v : option dec) : res (option dec) :=
  match v with None => Ok None | Some v => Some <$> col p s v end.

Definition insert_paper_order (bot_id correlation_id exchange_order_id symbol : string) (sd : side)
    (order_type : string) (qty : dec) (price : option dec) (status : string) (requested_at : Z)
    (idempotent_flag : bool) : ST db Z := fun d =>
  let id := order_seq d in
  let d1 := mkDb (paper_orders d) (paper_trades d) (paper_executions d) (paper_positions d)
                 (id + 1) (trade_seq d) in
  match col 30 12 qty, col_opt 30 12 price with
  | Ok q, Ok p =>
      (Ok id, mkDb (<[id := mkOrder bot_id correlation_id exchange_order_id symbol sd order_type q p
                              status requested_at idempotent_flag]> (paper_orders d))
                   (paper_trades d) (paper_executions d) (paper_positions d) (id + 1) (trade_seq d))
  | Err e, _ | _, Err e => (Err e, d1)
  end.

Definition insert_paper_trade (bot_id : string) (open_order_id : Z) (symbol : string) (sd : side)
    (entry_price qty notional_usd fees_paid : dec) (opened_at : Z) : ST db Z := fun d =>
  let id := trade_seq d in
  let d1 := mkDb (paper_orders d) (paper_trades d) (paper_executions d) (paper_positions d)
                 (order_seq d) (id + 1) in
  match col 30 12 entry_price, col 30 12 qty, col 20 4 notional_usd, col 20 4 fees_paid with
  | Ok ep, Ok q, Ok n, Ok f =>
      (Ok id, mkDb (paper_orders d)
                   (<[id := mkTrade bot_id open_order_id None symbol sd ep None q n None (Some f)
                              None opened_at None st_open]> (paper_trades d))
                   (paper_executions d) (paper_positions d) (order_seq d) (id + 1))
  | Err e, _, _, _ | _, Err e, _, _ | _, _, Err e, _ | _, _, _, Err e => (Err e, d1)
  end.

Definition insert_paper_execution (exec_id : string) (order_id trade_id : Z) (bot_id symbol : string)
    (sd : side) (price qty fee : dec) (exec_type : string) (executed_at : Z) : ST db unit := fun d =>
  if existsb (fun x => bool_decide (pe_exchange_exec_id x = exec_id) && (pe_executed_at x =? executed_at))
       (paper_executions d)
  then (Err (UniqueViolation "paper_executions"), d)
  else match col 30 12 price, col 30 12 qty, col 20 8 fee with
  | Ok p, Ok q, Ok f =>
      (Ok tt, mkDb (paper_orders d) (paper_trades d)
                (paper_executions d ++ [mkExec exec_id order_id trade_id bot_id symbol sd p q f exec_type executed_at])
                (paper_positions d) (order_seq d) (trade_seq d))
  | Err e, _, _ | _, Err e, _ | _, _, Err e => (Err e, d)
  end.

Definition insert_paper_position (bot_id symbol : string) (trade_id : Z) (sd : side)
    (entry_price qty remaining_qty : dec) (updated_at : Z) : ST db unit := fun d =>
  match paper_positions d !! (bot_id, symbol) with
  | Some _ => (Err (UniqueViolation "paper_positions"), d)
  | None =>
      match col 30 12 entry_price, col 30 12 qty, col 30 12 remaining_qty with
      | Ok ep, Ok q, Ok r =>
          (Ok tt, mkDb (paper_orders d) (paper_trades d) (paper_executions d)
                    (<[(bot_id, symbol) := mkPos trade_id sd ep q r None None false updated_at]> (paper_positions d))
                    (order_seq d) (trade_seq d))
      | Err e, _, _ | _, Err e, _ | _, _, Err e => (Err e, d)
      end
  end.

Definition with_trades (f : gmap Z paper_trade → gmap Z paper_trade) (d : db) : db :=
  mkDb (paper_orders d) (f (paper_trades d)) (paper_executions d) (paper_positions d) (order_seq d) (trade_seq d).
Definition with_positions (f : gmap (string * string) paper_position → gmap (string * string) paper_position)
    (d : db) : db :=
  mkDb (paper_orders d) (paper_trades d) (paper_executions d) (f (paper_positions d)) (order_seq d) (trade_seq d).

(** The SET clauses of the UPDATE statements. *)
Definition set_closed (exit_price realized_pnl fees_paid : dec) (closed_at : Z) (reason : string)
    (close_order_id : Z) (t : paper_trade) : paper_trade :=
  mkTrade (pt_bot_id t) (pt_open_order_id t) (Some close_order_id) (pt_symbol t) (pt_side t)
    (pt_entry_price t) (Some exit_price) (pt_qty t) (pt_notional_usd t) (Some realized_pnl)
    (Some fees_paid) (Some reason) (pt_opened_at t) (Some closed_at) st_closed.
Definition set_partial (new_qty new_fees new_pnl : dec) (t : paper_trade) : paper_trade :=
  mkTrade (pt_bot_id t) (pt_open_order_id t) (pt_close_order_id t) (pt_symbol t) (pt_side t)
    (pt_entry_price t) (pt_exit_price t) new_qty (pt_notional_usd t) (Some new_pnl)
    (Some new_fees) (pt_close_reason t) (pt_opened_at t) (pt_closed_at t) (pt_status t).
Definition set_sl_tp (sl tp : option dec) (updated_at : Z) (p : paper_position) : paper_position :=
  mkPos (pp_trade_id p) (pp_side p) (pp_entry_price p) (pp_qty p) (pp_remaining_qty p) sl tp (pp_tp_hit p) updated_at.
Definition set_remaining (q : dec) (tp_hit : bool) (updated_at : Z) (p : paper_position) : paper_position :=
  mkPos (pp_trade_id p) (pp_side p) (pp_entry_price p) (pp_qty p) q (pp_sl_price p) (pp_tp_price p) tp_hit updated_at.

Definition close_paper_trade (trade_id : Z) (exit_price realized_pnl fees_paid : dec) (closed_at : Z)
    (reason : string) (close_order_id : Z) : ST db unit := fun d =>
  match col 30 12 exit_price, col 20 4 realized_pnl, col 20 4 fees_paid with
  | Ok x, Ok r, Ok f => (Ok tt, with_trades (alter (set_closed x r f closed_at reason close_order_id) trade_id) d)
  | Err e, _, _ | _, Err e, _ | _, _, Err e => (Err e, d)
  end.

Definition update_paper_trade_partial (trade_id : Z) (new_qty new_fees_paid new_realized_pnl : dec)
  : ST db unit := fun d =>
  match col 30 12 new_qty, col 20 4 new_fees_paid, col 20 4 new_realized_pnl with
  | Ok q, Ok f, Ok r => (Ok tt, with_trades (alter (set_partial q f r) trade_id) d)
  | Err e, _, _ | _, Err e, _ | _, _, Err e => (Err e, d)
  end.

Definition update_paper_position_sl_tp (bot_id symbol : string) (sl tp : option dec) (updated_at : Z)
  : ST db unit := fun d =>
  match col_opt 30 12 sl, col_opt 30 12 tp with
  | Ok s, Ok t => (Ok tt, with_positions (alter (set_sl_tp s t updated_at) (bot_id, symbol)) d)
  | Err e, _ | _, Err e => (Err e, d)
  end.

Definition update_paper_position_partial (bot_id symbol : string) (new_remaining : dec) (tp_hit : bool)
    (updated_at : Z) : ST db unit := fun d =>
  match col 30 12 new_remaining with
  | Ok q => (Ok tt, with_positions (alter (set_remaining q tp_hit updated_at) (bot_id, symbol)) d)
  | Err e => (Err e, d)
  end.

Definition delete_paper_position (bot_id symbol : string) : ST db unit :=
  modify (with_positions (delete (bot_id, symbol))).

Definition cancel_status (o : paper_order) : paper_order :=
  mkOrder (po_bot_id o) (po_correlation_id o) (po_exchange_order_id o) (po_symbol o) (po_side o)
    (po_order_type o) (po_qty o) (po_price o) "cancelled" (po_requested_at o) (po_idempotent o).
Definition update_paper_order_cancelled (order_id : Z) (bot_id : string) : ST db unit :=
  modify (fun d =>
    mkDb (alter (fun o => if bool_decide (po_bot_id o = bot_id) then cancel_status o else o) order_id (paper_orders d))
      (paper_trades d) (paper_executions d) (paper_positions d) (order_seq d) (trade_seq d)).
End statements.

(** ** Reads *)
Record hydrate_row := mkHydrate {
  hr_symbol : string; hr_trade_id : Z; hr_side : side; hr_entry_price : dec; hr_qty : dec;
  hr_remaining_qty : dec; hr_sl_price : option dec; hr_tp_price : option dec; hr_tp_hit : bool;
  hr_fees_paid : option dec; hr_open_order_id : Z; hr_entry_fee : dec;
}.

(** paper_positions JOIN paper_trades JOIN paper_executions (the 'open' one). *)
Definition select_paper_positions_for_hydrate (bot_id : string) (d : db) : list hydrate_row :=
  '((bot, sym), p) ← map_to_list (paper_positions d);
  if bool_decide (bot = bot_id) then
    match paper_trades d !! pp_trade_id p with
    | None => []
    | Some t =>
        x ← paper_executions d;
        if (pe_order_id x =? pt_open_order_id t) && bool_decide (pe_exec_type x = "open")
        then [mkHydrate sym (pp_trade_id p) (pp_side p) (pp_entry_price p) (pp_qty p) (pp_remaining_qty p)
                (pp_sl_price p) (pp_tp_price p) (pp_tp_hit p) (pt_fees_paid t) (pt_open_order_id t) (pe_fee x)]
        else []
    end
  else [].

(** Rows shaped for [Position]: symbol, side, remaining_qty, entry_price. *)
Definition select_paper_positions (bot_id : string) (symbol : option string) (d : db)
  : list (string * side * dec * dec) :=
  '((bot, sym), p) ← map_to_list (paper_positions d);
  if bool_decide (bot = bot_id) && (match symbol with None => true | Some s => bool_decide (sym = s) end)
  then [(sym, pp_side p, pp_remaining_qty p, pp_entry_price p)] else [].

(** SUM over a column of selected rows, COALESCEd to 0. *)
Definition sum_dec (l : list dec) : dec := fold_right dadd_exact dzero l.
Definition closed_pnl (bot_id : string) (since : option Z) (t : paper_trade) : option dec :=
  if bool_decide (pt_bot_id t = bot_id) && bool_decide (pt_status t = st_closed) &&
     (match since with
      | None => true
      | Some s => match pt_closed_at t with Some c => s <=? c | None => false end
      end)
  then pt_realized_pnl t else None.
Definition sum_paper_trades_realized_pnl (bot_id : string) (d : db) : dec :=
  sum_dec (omap (closed_pnl bot_id None) (snd <$> map_to_list (paper_trades d))).
Definition sum_paper_trades_realized_pnl_since (bot_id : string) (since : Z) (d : db) : dec :=
  sum_dec (omap (closed_pnl bot_id (Some since)) (snd <$> map_to_list (paper_trades d))).

(** SUM(price * qty) / NULLIF(SUM(qty), 0), with the quotient of NUMERICs as
    PostgreSQL computes it. *)
Definition select_paper_execution_vwap_by_order_id (pg_div : dec → dec → dec) (exchange_order_id : string) (d : db) : option dec :=
  let xs := filter (fun x => (po_exchange_order_id <$> paper_orders d !! pe_order_id x) = Some exchange_order_id) (paper_executions d) in
  let total := sum_dec (pe_qty <$> xs) in
  if deqb total dzero then None
  else Some (pg_div (sum_dec ((fun x => mkDec (coef (pe_price x) * coef (pe_qty x)) (dexp (pe_price x) + dexp (pe_qty x))) <$> xs)) total).

(** Sums are exact and do not depend on the order. *)
Lemma sum_dec_app l1 l2 : (dval (sum_dec (l1 ++ l2)) == dval (sum_dec l1) + dval (sum_dec l2))%Q.
Proof.
  induction l1 as [|a l1 IH]; [change (sum_dec []) with dzero; rewrite dval_zero; cbn [app]; ring|].
  change (sum_dec ((a :: l1) ++ l2)) with (dadd_exact a (sum_dec (l1 ++ l2))).
  change (sum_dec (a :: l1)) with (dadd_exact a (sum_dec l1)). rewrite !dadd_exact_value, IH. ring.
Qed.
Lemma sum_dec_perm l1 l2 : l1 ≡ₚ l2 → (dval (sum_dec l1) == dval (sum_dec l2))%Q.
Proof.
  induction 1; cbn; rewrite ?dadd_exact_value; [done|by rewrite IHPermutation| |by etrans]. ring.
Qed.
