(* ===== verification/PaperExchange.v ===== *)
(** * The paper exchange simulator

    Models packages/exchange/paper/adapter.py (class [PaperExchange]) with the
    pure helpers it calls: fees.py, slippage.py and intra_candle.py.  The
    object's attributes are the fields of [pe_state], the constructor's
    arguments those of [pe_config]; one definition per method, in the state
    and exception monad, over the tables of PaperDb.  [uuid4] is a supply of
    fresh names; [now_fn] reads the state's clock; the two event queues, the
    bus and the terminal callback are the lists of what was put on them.

    Each method runs to completion before the next one starts: interleavings
    at the awaits inside a method, the blocking of a full queue and failures
    of the database connection are not represented. *)

From S2P Require Import Prelude Dec Sizing PaperDb.
From stdpp Require Import pretty.
From Stdlib Require Import QArith.
Open Scope Z_scope.

(** ** fees.py and slippage.py *)
Definition compute_fee (qty fill_price fee_rate : dec) : dec := dmul (dmul (dabs qty) fill_price) fee_rate.

Definition fixed_pct (price fixed_slippage_pct : dec) : dec := dmul price fixed_slippage_pct.
Definition proportional_to_qty (price qty qty_slippage_coeff : dec) : dec :=
  dmul (dmul price qty_slippage_coeff) (dabs qty).
Definition half_spread (high low half_spread_factor : dec) : res dec :=
  h ← ddiv (dsub high low) (mkDec 2 0);
  Ok (dmul h half_spread_factor).

(** ** intra_candle.py *)
Definition generate_intra_candle_path (o h l c : dec) : res (dec * dec * dec * dec) :=
  if dltb h l then Err (ValueError "intra_candle: low > high")
  else if dltb o l || dltb h o then Err (ValueError "intra_candle: open outside [low, high]")
  else if dltb c l || dltb h c then Err (ValueError "intra_candle: close outside [low, high]")
  else if dleb o c then Ok (o, h, l, c)
  else Ok (o, l, h, c).

(** ** Data *)
Inductive slippage_model := m_fixed_pct | m_proportional_to_qty | m_half_spread.
Inductive pe_mode := live | replay.
Inductive tpsl := Full | Partial.
Inductive slt := protective | be | trail.
Inductive fill_kind := k_sl | k_tp.
#[global] Instance slippage_model_eq_dec : EqDecision slippage_model. Proof. solve_decision. Defined.
#[global] Instance pe_mode_eq_dec : EqDecision pe_mode. Proof. solve_decision. Defined.
#[global] Instance tpsl_eq_dec : EqDecision tpsl. Proof. solve_decision. Defined.
#[global] Instance slt_eq_dec : EqDecision slt. Proof. solve_decision. Defined.
#[global] Instance fill_kind_eq_dec : EqDecision fill_kind. Proof. solve_decision. Defined.

Record candle := mkCandle {
  c_symbol : string; c_bucket_start : Z;
  c_open : dec; c_high : dec; c_low : dec; c_close : dec; c_volume : dec; c_is_closed : bool;
}.

(** One entry of [_active_positions]: a dict whose keys may be absent. *)
Record position := mkPosition {
  p_trade_id : option Z; p_side : option side; p_qty : option dec;
  p_entry_price : option dec; p_entry_fee : option dec; p_fees_paid : option dec;
  p_sl_price : option dec; p_tp_price : option dec; p_tp_size : option dec;
  p_tpsl_mode : option tpsl; p_tp_hit : option bool; p_sl_type : option slt;
  p_realized_pnl : option dec;
}.
Definition empty_position : position :=
  mkPosition None None None None None None None None None None None None None.

Record PendingSLTPFill := mkFill {
  f_symbol : string; f_side : side; f_qty : dec; f_trigger_price : dec;
  f_triggered_at : Z; f_kind : fill_kind; f_tpsl_mode : tpsl;
}.
Record TerminalEvent := mkTerminal {
  te_symbol : string; te_exec_type : fill_kind; te_sl_type_at_close : slt;
  te_tpsl_mode_at_close : tpsl; te_realized_pnl : dec;
}.
Record ExecutionEvent := mkExecEvent {
  ee_exec_id : string; ee_order_id : string; ee_symbol : string; ee_side : side;
  ee_price : dec; ee_qty : dec; ee_fee : dec; ee_executed_at : Z;
}.
Record PositionEvent := mkPosEvent {
  pv_symbol : string; pv_side : option side; pv_size : dec; pv_entry_price : option dec; pv_leverage : option Z;
  pv_unrealized_pnl : option dec; pv_occurred_at : Z;
}.
Record TradeClosedPayload := mkTradeClosed { tc_trade_id : Z; tc_bot_id : string; tc_closed_at : Z }.

Record seed_state := mkSeed {
  sd_symbol : string; sd_trade_id : Z; sd_side : side; sd_qty : dec; sd_entry_price : dec;
  sd_entry_fee : option dec; sd_fees_paid : option dec; sd_sl_price : option dec; sd_tp_price : option dec;
  sd_tp_size : option dec; sd_tpsl_mode : option tpsl; sd_tp_hit : option bool; sd_sl_type : option slt;
  sd_opened_at : option Z;
}.

Record pe_config := mkConfig {
  bot_id : string; seed_balance : dec; slippage : slippage_model; fee_rate : dec;
  slippage_params : gmap string dec; mode : pe_mode; has_historical_source : bool;
  has_replay_clock : bool; seed_open_state : option seed_state;
  has_terminal_callback : bool; emit_parent_lifecycle : bool; bus_connected : bool;
}.

Record pe_state := mkState {
  last_price : gmap string dec;
  last_candle : gmap string candle;
  active_positions : gmap string position;
  pending_sl_tp_fills : list PendingSLTPFill;
  execution_queue : list ExecutionEvent;
  position_queue : list PositionEvent;
  terminals : list TerminalEvent;
  published : list TradeClosedPayload;
  clock : Z;
  uuids : Z;
  tables : db;
}.
Abbreviation PE := (ST pe_state).

Definition set_positions (f : gmap string position → gmap string position) (s : pe_state) : pe_state :=
  mkState (last_price s) (last_candle s) (f (active_positions s)) (pending_sl_tp_fills s) (execution_queue s)
    (position_queue s) (terminals s) (published s) (clock s) (uuids s) (tables s).
Definition set_pending (l : list PendingSLTPFill) (s : pe_state) : pe_state :=
  mkState (last_price s) (last_candle s) (active_positions s) l (execution_queue s)
    (position_queue s) (terminals s) (published s) (clock s) (uuids s) (tables s).
Definition set_market (sym : string) (px : dec) (c : candle) (s : pe_state) : pe_state :=
  mkState (<[sym := px]> (last_price s)) (<[sym := c]> (last_candle s)) (active_positions s)
    (pending_sl_tp_fills s) (execution_queue s) (position_queue s) (terminals s) (published s)
    (clock s) (uuids s) (tables s).
Definition put_events (x : ExecutionEvent) (p : PositionEvent) (s : pe_state) : pe_state :=
  mkState (last_price s) (last_candle s) (active_positions s) (pending_sl_tp_fills s)
    (execution_queue s ++ [x]) (position_queue s ++ [p]) (terminals s) (published s) (clock s) (uuids s) (tables s).
Definition put_terminal (t : TerminalEvent) (s : pe_state) : pe_state :=
  mkState (last_price s) (last_candle s) (active_positions s) (pending_sl_tp_fills s) (execution_queue s)
    (position_queue s) (terminals s ++ [t]) (published s) (clock s) (uuids s) (tables s).
Definition put_published (t : TradeClosedPayload) (s : pe_state) : pe_state :=
  mkState (last_price s) (last_candle s) (active_positions s) (pending_sl_tp_fills s) (execution_queue s)
    (position_queue s) (terminals s) (published s ++ [t]) (clock s) (uuids s) (tables s).
Definition set_clock (t : Z) (s : pe_state) : pe_state :=
  mkState (last_price s) (last_candle s) (active_positions s) (pending_sl_tp_fills s) (execution_queue s)
    (position_queue s) (terminals s) (published s) t (uuids s) (tables s).
Definition set_uuids (n : Z) (s : pe_state) : pe_state :=
  mkState (last_price s) (last_candle s) (active_positions s) (pending_sl_tp_fills s) (execution_queue s)
    (position_queue s) (terminals s) (published s) (clock s) n (tables s).
Definition set_tables (d : db) (s : pe_state) : pe_state :=
  mkState (last_price s) (last_candle s) (active_positions s) (pending_sl_tp_fills s) (execution_queue s)
    (position_queue s) (terminals s) (published s) (clock s) (uuids s) d.

(** Running a database action on the object's pool. *)
Definition on_db {A} (m : ST db A) : PE A := fun s =>
  let '(r, d) := m (tables s) in (r, set_tables d s).

(** [f"{prefix}{uuid.uuid4()}"]. *)
Definition fresh_id (prefix : string) : PE string := fun s =>
  (Ok (prefix +:+ pretty (uuids s)), set_uuids (uuids s + 1) s).

Definition initial_state (now : Z) (d : db) : pe_state := mkState ∅ ∅ ∅ [] [] [] [] [] now 0 d.

(** ** Construction *)
Definition required_keys (m : slippage_model) : gset string :=
  match m with
  | m_fixed_pct => {["fixed_slippage_pct"]}
  | m_proportional_to_qty => {["qty_slippage_coeff"]}
  | m_half_spread => {["half_spread_factor"]}
  end.

Definition paper_exchange_init (cfg : pe_config) (now : Z) (d : db) : res pe_state :=
  if negb (bool_decide (dom (slippage_params cfg) = required_keys (slippage cfg)))
  then Err (ValueError "slippage_params keys")
  else if bool_decide (mode cfg = replay) && negb (has_historical_source cfg)
  then Err (ValueError "mode='replay' requires historical_source")
  else if bool_decide (mode cfg = live) && has_historical_source cfg
  then Err (ValueError "mode='live' must not pass historical_source")
  else Ok (initial_state now d).

Section methods.
Context `{PgNumeric} (cfg : pe_config).

(** ** Start-up *)
Definition apply_seed_open_state (s : pe_state) : pe_state :=
  match seed_open_state cfg with
  | None => s
  | Some sd =>
      let pos := mkPosition (Some (sd_trade_id sd)) (Some (sd_side sd)) (Some (sd_qty sd))
        (Some (sd_entry_price sd)) (Some (default dzero (sd_entry_fee sd)))
        (Some (default dzero (sd_fees_paid sd))) (sd_sl_price sd) (sd_tp_price sd)
        (Some (default (sd_qty sd) (sd_tp_size sd))) (Some (default Full (sd_tpsl_mode sd)))
        (Some (default false (sd_tp_hit sd))) (Some (default protective (sd_sl_type sd))) None in
      let entry := sd_entry_price sd in
      set_market (sd_symbol sd) entry
        (mkCandle (sd_symbol sd) (default (clock s) (sd_opened_at sd)) entry entry entry entry dzero true)
        (set_positions <[sd_symbol sd := pos]> s)
  end.

(** The entry rebuilt from one joined row; [fees_paid] NULL makes
    [Decimal(None)] raise. *)
Definition hydrated_position (r : hydrate_row) : res position :=
  match hr_fees_paid r with
  | None => Err (TypeError "conversion from NoneType to Decimal is not supported")
  | Some f =>
      Ok (mkPosition (Some (hr_trade_id r)) (Some (hr_side r)) (Some (hr_remaining_qty r))
            (Some (hr_entry_price r)) (Some (hr_entry_fee r)) (Some f) (hr_sl_price r) (hr_tp_price r)
            None (Some Full) (Some (hr_tp_hit r)) None None)
  end.
Fixpoint hydrate_rows (rows : list hydrate_row) : PE unit :=
  match rows with
  | [] => mret tt
  | r :: rows' =>
      p ← lift_res (hydrated_position r);
      modify (set_positions <[hr_symbol r := p]>) ;; hydrate_rows rows'
  end.
Definition hydrate_active_positions : PE unit :=
  s ← get_st; hydrate_rows (select_paper_positions_for_hydrate (bot_id cfg) (tables s)).

(** [query] and [subscribe] are what the read of the tables and
    [bus.subscribe] on market.ohlc.1m.> come to; an exception of either
    propagates, after what was done before it. *)
Definition start_consuming (query subscribe : res unit) : PE unit :=
  if bool_decide (mode cfg = live)
  then lift_res query ;; hydrate_active_positions ;; modify apply_seed_open_state ;; lift_res subscribe
  else throw (RuntimeError "start_consuming() requires mode='live'").

(** ** Fill detection *)
Definition in_range (lo x hi : dec) : bool := dleb lo x && dleb x hi.

(** Shared body of [_check_sl_tp_crosses] and [_check_sl_tp_crosses_replay]:
    the stop first, then the target; [Partial] targets fill [tp_size]. *)
Definition check_crosses (symbol : string) (low high : dec) : PE unit :=
  s ← get_st;
  match active_positions s !! symbol with
  | None => mret tt
  | Some pos =>
      tm ← lift_res (subscript "tpsl_mode" (p_tpsl_mode pos));
      match p_side pos, p_qty pos with
      | Some sd, Some q =>
          let tp_branch : PE unit :=
            match p_tp_price pos with
            | Some tp =>
                if in_range low tp high then
                  match (match tm with Partial => p_tp_size pos | Full => Some q end) with
                  | None => throw (ValueError "Partial TP without tp_size")
                  | Some tq =>
                      modify (set_pending (pending_sl_tp_fills s ++ [mkFill symbol sd tq tp (clock s) k_tp tm]))
                  end
                else mret tt
            | None => mret tt
            end in
          match p_sl_price pos with
          | Some sl =>
              if in_range low sl high
              then modify (set_pending (pending_sl_tp_fills s ++ [mkFill symbol sd q sl (clock s) k_sl tm]))
              else tp_branch
          | None => tp_branch
          end
      | _, _ => mret tt
      end
  end.
Definition check_sl_tp_crosses (c : candle) : PE unit := check_crosses (c_symbol c) (c_low c) (c_high c).
Definition check_sl_tp_crosses_replay (symbol : string) (low high : dec) : PE unit := check_crosses symbol low high.

(** ** Orders *)
Definition compute_slippage (price qty : dec) (c : candle) : res dec :=
  match slippage cfg with
  | m_fixed_pct =>
      k ← subscript "fixed_slippage_pct" (slippage_params cfg !! "fixed_slippage_pct"); Ok (fixed_pct price k)
  | m_proportional_to_qty =>
      k ← subscript "qty_slippage_coeff" (slippage_params cfg !! "qty_slippage_coeff");
      Ok (proportional_to_qty price qty k)
  | m_half_spread =>
      k ← subscript "half_spread_factor" (slippage_params cfg !! "half_spread_factor");
      half_spread (c_high c) (c_low c) k
  end.

Definition compute_realized_pnl (sd : side) (entry_price exit_price qty fees_open fees_close : dec) : res dec :=
  let gross := match sd with
               | buy => dmul (dsub exit_price entry_price) qty
               | sell => dmul (dsub entry_price exit_price) qty
               end in
  dquantize (dsub (dsub gross fees_open) fees_close) (-4).

Definition persist_open (symbol : string) (sd : side) (qty fill_price fee : dec) (placed_at : Z)
    (order_id exec_id correlation_id : string) : PE Z :=
  s ← get_st;
  if bool_decide (is_Some (active_positions s !! symbol ≫= p_side))
  then throw (OrderRejected "position_already_open")
  else
    notional ← lift_res (dquantize (dmul qty fill_price) (-4));
    trade_id ← on_db (transaction (
      oid ← insert_paper_order (bot_id cfg) correlation_id order_id symbol sd "market" qty (Some fill_price)
              "filled" placed_at false;
      tid ← insert_paper_trade (bot_id cfg) oid symbol sd fill_price qty notional fee placed_at;
      insert_paper_execution exec_id oid tid (bot_id cfg) symbol sd fill_price qty fee "open" placed_at ;;
      insert_paper_position (bot_id cfg) symbol tid sd fill_price qty qty placed_at ;;
      mret tid));
    modify (set_positions <[symbol :=
      mkPosition (Some trade_id) (Some sd) (Some qty) (Some fill_price) (Some fee) (Some fee)
        None None None (Some Full) (Some false) None None]>) ;;
    modify (put_events (mkExecEvent exec_id order_id symbol sd fill_price qty fee placed_at)
                       (mkPosEvent symbol (Some sd) qty (Some fill_price) None None placed_at)) ;;
    mret trade_id.

Definition persist_close (symbol : string) (sd : side) (qty fill_price fee : dec) (placed_at : Z)
    (order_id exec_id correlation_id : string) : PE unit :=
  s ← get_st;
  match active_positions s !! symbol with
  | None => throw (OrderRejected "no_position_to_close")
  | Some ex =>
    match p_side ex with
    | None => throw (OrderRejected "no_position_to_close")
    | Some position_side =>
      trade_id ← lift_res (subscript "trade_id" (p_trade_id ex));
      entry_price ← lift_res (subscript "entry_price" (p_entry_price ex));
      remaining_qty ← lift_res (subscript "qty" (p_qty ex));
      prior_fees ← lift_res (subscript "fees_paid" (p_fees_paid ex));
      entry_fee ← lift_res (subscript "entry_fee" (p_entry_fee ex));
      pnl ← lift_res (compute_realized_pnl position_side entry_price fill_price remaining_qty entry_fee fee);
      let total := dadd pnl (default (mkDec 0 (-4)) (p_realized_pnl ex)) in
      on_db (transaction (
        oid ← insert_paper_order (bot_id cfg) correlation_id order_id symbol sd "market" qty (Some fill_price)
                "filled" placed_at false;
        insert_paper_execution exec_id oid trade_id (bot_id cfg) symbol sd fill_price qty fee "close" placed_at ;;
        close_paper_trade trade_id fill_price total (dadd prior_fees fee) placed_at "manual" oid ;;
        delete_paper_position (bot_id cfg) symbol)) ;;
      modify (set_positions (delete symbol)) ;;
      modify (put_events (mkExecEvent exec_id order_id symbol sd fill_price qty fee placed_at)
                         (mkPosEvent symbol None dzero None None None placed_at)) ;;
      (if emit_parent_lifecycle cfg && bus_connected cfg
       then modify (put_published (mkTradeClosed trade_id (bot_id cfg) placed_at))
       else mret tt)
    end
  end.

Definition place_market_order (symbol : string) (sd : side) (qty : dec) (reduce_only : bool)
  : PE (string * Z * option Z) :=
  s ← get_st;
  match last_price s !! symbol with
  | None => throw (ValueError "No last-observed price")
  | Some px =>
      c ← lift_res (subscript symbol (last_candle s !! symbol));
      slip ← lift_res (compute_slippage px qty c);
      let fill_price := match sd with buy => dadd px slip | sell => dsub px slip end in
      let fee := compute_fee qty fill_price (fee_rate cfg) in
      let placed_at := clock s in
      order_id ← fresh_id "paper-";
      exec_id ← fresh_id "paper-exec-";
      correlation_id ← fresh_id "paper-corr-";
      if reduce_only
      then persist_close symbol sd qty fill_price fee placed_at order_id exec_id correlation_id ;;
           mret (order_id, placed_at, None)
      else tid ← persist_open symbol sd qty fill_price fee placed_at order_id exec_id correlation_id;
           mret (order_id, placed_at, Some tid)
  end.

(** ** Draining detected fills *)
Record drain_ctx := mkCtx {
  dc_trade_id : Z; dc_entry_price : dec; dc_position_side : side; dc_prior_fees : dec; dc_fee : dec;
  dc_close_side : side; dc_order_id : string; dc_exec_id : string; dc_correlation_id : string;
}.
Definition build_drain_context (fill : PendingSLTPFill) (pos : position) : PE drain_ctx :=
  trade_id ← lift_res (subscript "trade_id" (p_trade_id pos));
  entry_price ← lift_res (subscript "entry_price" (p_entry_price pos));
  sd ← lift_res (subscript "side" (p_side pos));
  prior_fees ← lift_res (subscript "fees_paid" (p_fees_paid pos));
  order_id ← fresh_id "paper-";
  exec_id ← fresh_id "paper-exec-";
  correlation_id ← fresh_id "paper-corr-";
  mret (mkCtx trade_id entry_price sd prior_fees
          (compute_fee (f_qty fill) (f_trigger_price fill) (fee_rate cfg))
          (match sd with buy => sell | sell => buy end) order_id exec_id correlation_id).

Definition kind_name (k : fill_kind) : string := match k with k_sl => "sl" | k_tp => "tp" end.

Definition insert_synthetic_close_order (fill : PendingSLTPFill) (ctx : drain_ctx) : ST db Z :=
  insert_paper_order (bot_id cfg) (dc_correlation_id ctx) (dc_order_id ctx) (f_symbol fill) (dc_close_side ctx)
    (kind_name (f_kind fill)) (f_qty fill) (Some (f_trigger_price fill)) "filled" (f_triggered_at fill) true.
Definition insert_close_execution (fill : PendingSLTPFill) (ctx : drain_ctx) (order_id : Z) : ST db unit :=
  insert_paper_execution (dc_exec_id ctx) order_id (dc_trade_id ctx) (bot_id cfg) (f_symbol fill)
    (dc_close_side ctx) (f_trigger_price fill) (f_qty fill) (dc_fee ctx) (kind_name (f_kind fill)) (f_triggered_at fill).
Definition emit_close_events (fill : PendingSLTPFill) (ctx : drain_ctx) (remaining : dec)
    (side_after : option side) (entry_after : option dec) : PE unit :=
  modify (put_events
    (mkExecEvent (dc_exec_id ctx) (dc_order_id ctx) (f_symbol fill) (dc_close_side ctx) (f_trigger_price fill)
       (f_qty fill) (dc_fee ctx) (f_triggered_at fill))
    (mkPosEvent (f_symbol fill) side_after remaining entry_after None None (f_triggered_at fill))).

(** The in-place update [_drain_partial_tp] makes to the position dict. *)
Definition partial_tp_update (q fees pnl : dec) (pos : position) : position :=
  mkPosition (p_trade_id pos) (p_side pos) (Some q) (p_entry_price pos) (p_entry_fee pos) (Some fees)
    (p_sl_price pos) (p_tp_price pos) (p_tp_size pos) (p_tpsl_mode pos) (Some true) (Some trail) (Some pnl).

Definition drain_partial_tp (fill : PendingSLTPFill) : PE unit :=
  s ← get_st;
  pos ← lift_res (subscript (f_symbol fill) (active_positions s !! f_symbol fill));
  ctx ← build_drain_context fill pos;
  partial_pnl ← lift_res (compute_realized_pnl (dc_position_side ctx) (dc_entry_price ctx) (f_trigger_price fill)
                            (f_qty fill) dzero (dc_fee ctx));
  qty ← lift_res (subscript "qty" (p_qty pos));
  let new_qty := dsub qty (f_qty fill) in
  let new_fees := dadd (dc_prior_fees ctx) (dc_fee ctx) in
  let new_pnl := dadd (default (mkDec 0 (-4)) (p_realized_pnl pos)) partial_pnl in
  on_db (transaction (
    oid ← insert_synthetic_close_order fill ctx;
    insert_close_execution fill ctx oid ;;
    update_paper_trade_partial (dc_trade_id ctx) new_qty new_fees new_pnl ;;
    update_paper_position_partial (bot_id cfg) (f_symbol fill) new_qty true (f_triggered_at fill))) ;;
  modify (set_positions (alter (partial_tp_update new_qty new_fees new_pnl) (f_symbol fill))) ;;
  emit_close_events fill ctx new_qty (Some (dc_position_side ctx)) (Some (dc_entry_price ctx)).

Definition drain_full_close (fill : PendingSLTPFill) : PE unit :=
  s ← get_st;
  pos ← lift_res (subscript (f_symbol fill) (active_positions s !! f_symbol fill));
  ctx ← build_drain_context fill pos;
  entry_fee ← lift_res (subscript "entry_fee" (p_entry_fee pos));
  pnl ← lift_res (compute_realized_pnl (dc_position_side ctx) (dc_entry_price ctx) (f_trigger_price fill)
                    (f_qty fill) entry_fee (dc_fee ctx));
  let total := dadd pnl (default (mkDec 0 (-4)) (p_realized_pnl pos)) in
  on_db (transaction (
    oid ← insert_synthetic_close_order fill ctx;
    insert_close_execution fill ctx oid ;;
    close_paper_trade (dc_trade_id ctx) (f_trigger_price fill) total (dadd (dc_prior_fees ctx) (dc_fee ctx))
      (f_triggered_at fill) (kind_name (f_kind fill)) oid ;;
    delete_paper_position (bot_id cfg) (f_symbol fill))) ;;
  let snapshot := mkTerminal (f_symbol fill) (f_kind fill) (default protective (p_sl_type pos))
                    (default Full (p_tpsl_mode pos)) total in
  modify (set_positions (delete (f_symbol fill))) ;;
  emit_close_events fill ctx dzero None None ;;
  (if has_terminal_callback cfg then modify (put_terminal snapshot) else mret tt).

Definition drain_sl_tp_fill (fill : PendingSLTPFill) : PE unit :=
  match f_kind fill, f_tpsl_mode fill with
  | k_tp, Partial => drain_partial_tp fill
  | _, _ => drain_full_close fill
  end.

(** [while self._pending_sl_tp_fills: fill = pop(0); await drain(fill)]; the
    fuel is the length of the queue, and draining never enqueues. *)
Fixpoint drain_loop (n : nat) : PE unit :=
  match n with
  | O => mret tt
  | S n' =>
      s ← get_st;
      match pending_sl_tp_fills s with
      | [] => mret tt
      | fill :: rest => modify (set_pending rest) ;; drain_sl_tp_fill fill ;; drain_loop n'
      end
  end.
Definition drain_pending : PE unit := s ← get_st; drain_loop (length (pending_sl_tp_fills s)).

(** ** Market data *)
Definition on_candle (c : candle) : PE unit :=
  if c_is_closed c
  then modify (set_market (c_symbol c) (c_close c) c) ;; check_sl_tp_crosses c ;; drain_pending
  else mret tt.

(** [ReplayClock.set]: the clock never moves back. *)
Definition replay_clock_set (t : Z) (s : pe_state) : pe_state := if clock s <? t then set_clock t s else s.

Fixpoint replay_segments (symbol : string) (segs : list (dec * dec)) : PE unit :=
  match segs with
  | [] => mret tt
  | (a, b) :: segs' =>
      check_sl_tp_crosses_replay symbol (dmin a b) (dmax a b) ;; drain_pending ;; replay_segments symbol segs'
  end.

Definition process_replay_candle (c : candle) : PE unit :=
  modify (fun s => if has_replay_clock cfg then replay_clock_set (c_bucket_start c) s else s) ;;
  modify (set_market (c_symbol c) (c_close c)
            (mkCandle (c_symbol c) (c_bucket_start c) (c_open c) (c_high c) (c_low c) (c_close c) (c_volume c) true)) ;;
  path ← lift_res (generate_intra_candle_path (c_open c) (c_high c) (c_low c) (c_close c));
  let '(o, p1, p2, cl) := path in
  replay_segments (c_symbol c) [(o, p1); (p1, p2); (p2, cl)].

Fixpoint replay_all (cs : list candle) : PE unit :=
  match cs with
  | [] => mret tt
  | c :: cs' => process_replay_candle c ;; replay_all cs'
  end.
Definition run_replay (historical_source : list candle) : PE unit :=
  if bool_decide (mode cfg = replay) then replay_all historical_source
  else throw (RuntimeError "run_replay() requires mode='replay'").

(** ** Stops, cancellation and reads *)
Definition set_trading_stop (symbol : string) (tm : tpsl) (sl_price tp_price tp_size : option dec)
    (sl_type : option slt) : PE unit :=
  match sl_type with
  | Some trail => throw (ValueError "sl_type='trail' may only be set by _drain_partial_tp")
  | _ =>
      s ← get_st;
      let ex := default empty_position (active_positions s !! symbol) in
      let stl := match sl_type with
                 | Some t => Some t
                 | None => match p_sl_type ex with Some t => Some t | None => Some protective end
                 end in
      modify (set_positions <[symbol :=
        mkPosition (p_trade_id ex) (p_side ex) (p_qty ex) (p_entry_price ex) (p_entry_fee ex) (p_fees_paid ex)
          sl_price tp_price tp_size (Some tm) (p_tp_hit ex) stl (p_realized_pnl ex)]>) ;;
      on_db (update_paper_position_sl_tp (bot_id cfg) symbol sl_price tp_price (clock s))
  end.

Definition set_leverage (symbol : string) (leverage : Z) : PE unit := mret tt.
Definition cancel_order (symbol : string) (order_id : Z) : PE unit :=
  on_db (update_paper_order_cancelled order_id (bot_id cfg)).
Definition get_positions (symbol : option string) : PE (list (string * side * dec * dec)) :=
  gets (fun s => select_paper_positions (bot_id cfg) symbol (tables s)).

Definition check_sub_account (sub_account : string) : PE unit :=
  if bool_decide (sub_account = bot_id cfg) then mret tt else throw (ValueError "sub_account mismatch").
Definition get_closed_pnl_cumulative (sub_account : string) : PE dec :=
  check_sub_account sub_account ;; gets (fun s => sum_paper_trades_realized_pnl (bot_id cfg) (tables s)).
Definition get_closed_pnl_window (sub_account : string) (since : Z) : PE dec :=
  check_sub_account sub_account ;; gets (fun s => sum_paper_trades_realized_pnl_since (bot_id cfg) since (tables s)).
Record FundingFee := mkFunding { ff_symbol : string; ff_settled_at : Z; ff_funding : dec }.
Definition get_funding_fees_window (sub_account : string) (since : Z) : PE (list FundingFee) :=
  check_sub_account sub_account ;; mret [].

Record AccountBalance := mkBalance {
  wallet_balance : dec; available_balance : dec; total_equity : dec; margin_balance : dec; unrealized_pnl : dec;
}.
Definition get_account_balance (sub_account : string) : PE AccountBalance :=
  realized ← get_closed_pnl_cumulative sub_account;
  let w := dadd (seed_balance cfg) realized in mret (mkBalance w w w w dzero).

Definition get_mark_price (symbol : string) : PE dec :=
  s ← get_st;
  match last_price s !! symbol with
  | None => throw (OrderRejected "no last price observed")
  | Some p => mret p
  end.

Definition paper_instrument_fixtures : gmap string InstrumentInfo := list_to_map [
  ("BTCUSDT", mkInstrument "BTCUSDT" (1 @ (-3)) (1 @ (-3)) (5 @ 0) (10 @ (-2)));
  ("ETHUSDT", mkInstrument "ETHUSDT" (1 @ (-2)) (1 @ (-2)) (5 @ 0) (1 @ (-2)));
  ("SOLUSDT", mkInstrument "SOLUSDT" (1 @ (-1)) (1 @ (-1)) (5 @ 0) (10 @ (-3))) ].
Definition get_fill_price (pg_div : dec → dec → dec) (symbol order_id : string) : PE (option dec) :=
  gets (fun s => select_paper_execution_vwap_by_order_id pg_div order_id (tables s)).
Definition get_instrument_info (symbol : string) : PE InstrumentInfo :=
  match paper_instrument_fixtures !! symbol with
  | None => throw (OrderRejected "paper instrument fixture not configured")
  | Some i => mret i
  end.
End methods.
