(* ===== verification/PaperInv.v ===== *)
(** * The paper book and its tables agree

    The invariant of the paper exchange and the proof that every operation
    keeps it, whether it returns or raises: each entry of [_active_positions]
    with a side has its paper_positions row and its open paper_trades row with
    the same identity, side, remaining quantity and fees, and a symbol without
    such an entry has no row. *)

From S2P Require Import Prelude Dec Sizing PaperDb PaperExchange.
Open Scope Z_scope.

(** ** Preservation, outcome by outcome *)
Definition preserves {S A} (P : S → Prop) (m : ST S A) : Prop :=
  ∀ s r s', P s → m s = (r, s') → P s'.

Section preserves_rules.
Context {S : Type} (P : S → Prop).
Lemma preserves_ret {A} (a : A) : preserves P (mret a : ST S A).
Proof. intros s r s' Hs [= <- <-]. done. Qed.
Lemma preserves_throw {A} e : preserves P (throw e : ST S A).
Proof. intros s r s' Hs [= <- <-]. done. Qed.
Lemma preserves_lift {A} (x : res A) : preserves P (lift_res x : ST S A).
Proof. intros s r s' Hs [= <- <-]. done. Qed.
Lemma preserves_bind {A B} (m : ST S A) (f : A → ST S B) :
  preserves P m → (∀ a, preserves P (f a)) → preserves P (m ≫= f).
Proof.
  intros Hm Hf s r s' Hs. unfold mbind, st_bind. destruct (m s) as [[a|e] s1] eqn:E.
  - intros H. eapply Hf; [|exact H]. by eapply Hm.
  - intros [= <- <-]. by eapply Hm.
Qed.
Lemma preserves_get {B} (f : S → ST S B) :
  (∀ s r s', P s → f s s = (r, s') → P s') → preserves P (get_st ≫= f).
Proof. intros Hf s r s' Hs H. eapply Hf; [exact Hs|]. exact H. Qed.
Lemma preserves_get_st : preserves P get_st.
Proof. intros s r s' Hs [= <- <-]. done. Qed.
Lemma preserves_gets {A} (f : S → A) : preserves P (gets f).
Proof. intros s r s' Hs [= <- <-]. done. Qed.
Lemma preserves_modify (f : S → S) : (∀ s, P s → P (f s)) → preserves P (modify f).
Proof. intros Hf s r s' Hs [= <- <-]. auto. Qed.
End preserves_rules.
#[export] Hint Resolve preserves_ret preserves_throw preserves_lift preserves_get_st preserves_gets preserves_modify : scalper.

(** Walks down a method's binds. *)
Ltac preserve :=
  repeat first [solve [auto with scalper]
               | match goal with |- preserves _ (_ ≫= _) => apply preserves_bind; [|intros] end].

(** ** What the statements do to the tables *)
Section statements.
Context `{PgNumeric}.

Ltac open_stmt :=
  repeat match goal with
  | |- context [match ?x with _ => _ end] => destruct x eqn:?
  | H : context [match ?x with _ => _ end] |- _ => destruct x eqn:?
  end; simplify_eq; try done.

Lemma insert_paper_order_ok b c x sy sd ty q p st at_ f d id d' :
  insert_paper_order b c x sy sd ty q p st at_ f d = (Ok id, d') →
  id = order_seq d ∧ paper_trades d' = paper_trades d ∧ paper_executions d' = paper_executions d ∧
  paper_positions d' = paper_positions d ∧ trade_seq d' = trade_seq d ∧ order_seq d' = id + 1 ∧
  ∃ o, paper_orders d' = <[id := o]> (paper_orders d).
Proof. unfold insert_paper_order. intros E. open_stmt. cbn. eauto 12. Qed.

Lemma insert_paper_trade_ok b o sy sd ep q n f at_ d id d' :
  insert_paper_trade b o sy sd ep q n f at_ d = (Ok id, d') →
  id = trade_seq d ∧ paper_executions d' = paper_executions d ∧ paper_positions d' = paper_positions d ∧
  trade_seq d' = id + 1 ∧ order_seq d' = order_seq d ∧
  ∃ ep' q' n' f', col 30 12 ep = Ok ep' ∧ col 30 12 q = Ok q' ∧ col 20 4 f = Ok f' ∧
    paper_trades d' = <[id := mkTrade b o None sy sd ep' None q' n' None (Some f') None at_ None st_open]> (paper_trades d).
Proof. unfold insert_paper_trade. intros E. open_stmt. cbn. eauto 15. Qed.

Lemma insert_paper_execution_ok i o t b sy sd p q f ty at_ d u d' :
  insert_paper_execution i o t b sy sd p q f ty at_ d = (Ok u, d') →
  paper_trades d' = paper_trades d ∧ paper_positions d' = paper_positions d ∧
  trade_seq d' = trade_seq d ∧ order_seq d' = order_seq d ∧
  ∃ x, paper_executions d' = paper_executions d ++ [x] ∧
       pe_order_id x = o ∧ pe_exec_type x = ty ∧ pe_trade_id x = t ∧ pe_symbol x = sy ∧ pe_side x = sd ∧
       col 30 12 p = Ok (pe_price x) ∧ col 30 12 q = Ok (pe_qty x) ∧ col 20 8 f = Ok (pe_fee x).
Proof. unfold insert_paper_execution. intros E. open_stmt. cbn. eauto 15. Qed.

Lemma insert_paper_position_ok b sy t sd ep q rq at_ d u d' :
  insert_paper_position b sy t sd ep q rq at_ d = (Ok u, d') →
  paper_positions d !! (b, sy) = None ∧
  paper_trades d' = paper_trades d ∧ paper_executions d' = paper_executions d ∧
  trade_seq d' = trade_seq d ∧ order_seq d' = order_seq d ∧
  ∃ ep' q' r', col 30 12 ep = Ok ep' ∧ col 30 12 rq = Ok r' ∧
    paper_positions d' = <[(b, sy) := mkPos t sd ep' q' r' None None false at_]> (paper_positions d).
Proof. unfold insert_paper_position. intros E. open_stmt. cbn. eauto 15. Qed.

Lemma close_paper_trade_ok t x r f at_ rs o d u d' :
  close_paper_trade t x r f at_ rs o d = (Ok u, d') →
  ∃ x' r' f', col 30 12 x = Ok x' ∧ col 20 4 r = Ok r' ∧ col 20 4 f = Ok f' ∧
    d' = with_trades (alter (set_closed x' r' f' at_ rs o) t) d.
Proof. unfold close_paper_trade. intros E. open_stmt. eauto 10. Qed.

Lemma update_paper_trade_partial_ok t q f r d u d' :
  update_paper_trade_partial t q f r d = (Ok u, d') →
  ∃ q' f' r', col 30 12 q = Ok q' ∧ col 20 4 f = Ok f' ∧ col 20 4 r = Ok r' ∧
    d' = with_trades (alter (set_partial q' f' r') t) d.
Proof. unfold update_paper_trade_partial. intros E. open_stmt. eauto 10. Qed.

Lemma update_paper_position_partial_ok b sy q tp at_ d u d' :
  update_paper_position_partial b sy q tp at_ d = (Ok u, d') →
  ∃ q', col 30 12 q = Ok q' ∧ d' = with_positions (alter (set_remaining q' tp at_) (b, sy)) d.
Proof. unfold update_paper_position_partial. intros E. open_stmt. eauto. Qed.

(** Sequences only grow. *)
Definition seq_grows (n : Z * Z) (d : db) : Prop := n.1 <= trade_seq d ∧ n.2 <= order_seq d.
Definition seqs (d : db) : Z * Z := (trade_seq d, order_seq d).
Lemma seq_grows_stmts n :
  (∀ b c x sy sd ty q p st at_ f, preserves (seq_grows n) (insert_paper_order b c x sy sd ty q p st at_ f)) ∧
  (∀ b o sy sd ep q nn f at_, preserves (seq_grows n) (insert_paper_trade b o sy sd ep q nn f at_)) ∧
  (∀ i o t b sy sd p q f ty at_, preserves (seq_grows n) (insert_paper_execution i o t b sy sd p q f ty at_)) ∧
  (∀ b sy t sd ep q rq at_, preserves (seq_grows n) (insert_paper_position b sy t sd ep q rq at_)) ∧
  (∀ t x r f at_ rs o, preserves (seq_grows n) (close_paper_trade t x r f at_ rs o)) ∧
  (∀ t q f r, preserves (seq_grows n) (update_paper_trade_partial t q f r)) ∧
  (∀ b sy q tp at_, preserves (seq_grows n) (update_paper_position_partial b sy q tp at_)) ∧
  (∀ b sy, preserves (seq_grows n) (delete_paper_position b sy)).
Proof.
  unfold preserves, seq_grows, insert_paper_order, insert_paper_trade, insert_paper_execution,
    insert_paper_position, close_paper_trade, update_paper_trade_partial, update_paper_position_partial,
    delete_paper_position, modify, with_trades, with_positions.
  repeat split; intros; open_stmt; cbn in *; lia.
Qed.

Lemma transaction_err {A} (m : ST db A) d e d' :
  transaction m d = (Err e, d') →
  paper_trades d' = paper_trades d ∧ paper_executions d' = paper_executions d ∧
  paper_positions d' = paper_positions d ∧ ∃ d1, m d = (Err e, d1) ∧ seqs d' = seqs d1.
Proof. unfold transaction. destruct (m d) as [[a|e'] d1]; [discriminate|]. intros [= -> <-]. cbn. eauto 10. Qed.

Lemma transaction_ok {A} (m : ST db A) d a d' : transaction m d = (Ok a, d') → m d = (Ok a, d').
Proof. unfold transaction. destruct (m d) as [[a'|e'] d1]; [done|discriminate]. Qed.
End statements.

(** ** The invariant *)
Section invariant.
Context `{PgNumeric} (cfg : pe_config).

(** An open entry [pos] of symbol [sym] and its rows: the position row, the
    open trade it points at and the execution that opened it. *)
Record agrees (d : db) (sym : string) (pos : position) (sd : side) (q ep ef fp : dec) (tid : Z)
    (row : paper_position) (t : paper_trade) (x : paper_execution) : Prop := mkAgrees {
  ag_qty : p_qty pos = Some q;
  ag_entry : p_entry_price pos = Some ep;
  ag_entry_fee : p_entry_fee pos = Some ef;
  ag_fees : p_fees_paid pos = Some fp;
  ag_tid : p_trade_id pos = Some tid;
  ag_row : paper_positions d !! (bot_id cfg, sym) = Some row;
  ag_row_tid : pp_trade_id row = tid;
  ag_row_side : pp_side row = sd;
  ag_row_qty : col 30 12 q = Ok (pp_remaining_qty row);
  ag_row_entry : col 30 12 ep = Ok (pp_entry_price row);
  ag_trade : paper_trades d !! tid = Some t;
  ag_trade_bot : pt_bot_id t = bot_id cfg;
  ag_trade_sym : pt_symbol t = sym;
  ag_trade_side : pt_side t = sd;
  ag_trade_open : pt_status t = st_open;
  ag_trade_qty : col 30 12 q = Ok (pt_qty t);
  ag_trade_fees : fmap Some (col 20 4 fp) = Ok (pt_fees_paid t);
  ag_exec : x ∈ paper_executions d;
  ag_exec_order : pe_order_id x = pt_open_order_id t;
  ag_exec_type : pe_exec_type x = "open";
  ag_exec_fee : col 20 8 ef = Ok (pe_fee x);
  ag_exec_only : ∀ x', x' ∈ paper_executions d → pe_order_id x' = pt_open_order_id t → x' = x;
}.
Definition open_entry (d : db) (sym : string) (pos : position) (sd : side) : Prop :=
  ∃ q ep ef fp tid row t x, agrees d sym pos sd q ep ef fp tid row t x.

Definition book_entry (d : db) (sym : string) (o : option position) : Prop :=
  match o with
  | Some pos =>
      is_Some (p_tpsl_mode pos) ∧
      match p_side pos with
      | Some sd => open_entry d sym pos sd
      | None => paper_positions d !! (bot_id cfg, sym) = None
      end
  | None => paper_positions d !! (bot_id cfg, sym) = None
  end.
(** The sequences are ahead of every id in use. *)
Definition ids_below (d : db) : Prop :=
  (∀ id t, paper_trades d !! id = Some t → id < trade_seq d ∧ pt_open_order_id t < order_seq d) ∧
  (∀ x, x ∈ paper_executions d → pe_order_id x < order_seq d).
Definition book_agrees (s : pe_state) : Prop :=
  (∀ sym, book_entry (tables s) sym (active_positions s !! sym)) ∧ ids_below (tables s).

(** ** Frame lemmas

    Every statement sequence only appends executions, on order ids taken from
    the sequence. *)
Definition execs_extend (d d' : db) : Prop :=
  ∃ l, paper_executions d' = paper_executions d ++ l ∧ Forall (fun x => order_seq d <= pe_order_id x) l.
Lemma execs_extend_same d d' : paper_executions d' = paper_executions d → execs_extend d d'.
Proof. exists []. by rewrite app_nil_r. Qed.
Lemma execs_extend_app d d' x :
  paper_executions d' = paper_executions d ++ [x] → pe_order_id x = order_seq d → execs_extend d d'.
Proof. intros E Ho. exists [x]. split; [done|]. constructor; [lia|constructor]. Qed.
#[local] Hint Resolve execs_extend_same execs_extend_app : scalper.

Lemma open_entry_frame d d' sym pos sd :
  ids_below d → open_entry d sym pos sd →
  paper_positions d' !! (bot_id cfg, sym) = paper_positions d !! (bot_id cfg, sym) →
  (∀ id t, paper_trades d !! id = Some t → pt_symbol t = sym → paper_trades d' !! id = Some t) →
  execs_extend d d' → open_entry d' sym pos sd.
Proof.
  intros [Hi _] (q & ep & ef & fp & tid & row & t & x & A) Hp Ht (l & X & Hl). destruct A.
  exists q, ep, ef, fp, tid, row, t, x. split; eauto; try congruence.
  - rewrite X. set_solver.
  - intros x'. rewrite X. intros [Hx'|Hx']%elem_of_app Ho; [by apply ag_exec_only0|].
    eapply list_elem_of_In in Hx'; rewrite Forall_forall in Hl; apply Hl in Hx'. destruct (Hi _ _ ag_trade0). lia.
Qed.

Lemma book_entry_frame d d' sym o :
  ids_below d → book_entry d sym o →
  paper_positions d' !! (bot_id cfg, sym) = paper_positions d !! (bot_id cfg, sym) →
  (∀ id t, paper_trades d !! id = Some t → pt_symbol t = sym → paper_trades d' !! id = Some t) →
  execs_extend d d' → book_entry d' sym o.
Proof.
  intros Hi. unfold book_entry. destruct o as [pos|]; [|congruence]. intros [Hm Hs] Hp Ht Hx. split; [done|].
  destruct (p_side pos); [|congruence]. by eapply open_entry_frame.
Qed.

(** Growing sequences keep ids below them. *)
Lemma ids_below_frame d d' :
  ids_below d → trade_seq d <= trade_seq d' → order_seq d <= order_seq d' →
  (∀ id t', paper_trades d' !! id = Some t' →
     (∃ t, paper_trades d !! id = Some t ∧ pt_open_order_id t' = pt_open_order_id t) ∨
     (id < trade_seq d' ∧ pt_open_order_id t' < order_seq d')) →
  (∀ x, x ∈ paper_executions d' → x ∈ paper_executions d ∨ pe_order_id x < order_seq d') →
  ids_below d'.
Proof.
  intros [H1 H2] Ht Ho Hts Hxs. split.
  - intros id t' Hid. destruct (Hts _ _ Hid) as [(t & Ht' & E)|?]; [|done]. apply H1 in Ht'. lia.
  - intros x Hx. destruct (Hxs _ Hx) as [Hx'|?]; [|done]. apply H2 in Hx'. lia.
Qed.

(** A failed transaction leaves the book as it was. *)
Lemma book_agrees_rollback {A} (m : ST db A) s d' e :
  preserves (seq_grows (seqs (tables s))) m →
  book_agrees s → transaction m (tables s) = (Err e, d') → book_agrees (set_tables d' s).
Proof.
  intros Hm [Hb Ht] E. apply transaction_err in E as (E1 & E2 & E3 & d1 & E4 & [= E5 E6]).
  assert (seq_grows (seqs (tables s)) d1) as [G1 G2] by (eapply Hm; [|exact E4]; unfold seq_grows; cbn; lia).
  cbn in G1, G2. split; cbn.
  - intros sym. eapply book_entry_frame; [done|apply Hb|..]; rewrite ?E1, ?E3; auto with scalper.
  - eapply ids_below_frame; [done|lia..| |]; rewrite ?E1, ?E2; eauto.
Qed.

(** Only the tables and the active positions matter. *)
Lemma book_agrees_ext s s' :
  tables s' = tables s → active_positions s' = active_positions s → book_agrees s → book_agrees s'.
Proof. unfold book_agrees. by intros -> ->. Qed.

Lemma on_db_inv {A} (m : ST db A) s r s' :
  on_db m s = (r, s') → ∃ d, m (tables s) = (r, d) ∧ s' = set_tables d s.
Proof. unfold on_db. destruct (m (tables s)) as [r' d]. intros [= -> <-]. eauto. Qed.

(** ** Opening a position *)
Lemma open_body_ok corr oid xid sym sd px q n fee at_ d tid d' :
  (o ← insert_paper_order (bot_id cfg) corr oid sym sd "market" q (Some px) "filled" at_ false;
   t ← insert_paper_trade (bot_id cfg) o sym sd px q n fee at_;
   insert_paper_execution xid o t (bot_id cfg) sym sd px q fee "open" at_ ;;
   insert_paper_position (bot_id cfg) sym t sd px q q at_ ;;
   mret t) d = (Ok tid, d') →
  ids_below d →
  tid = trade_seq d ∧ trade_seq d' = tid + 1 ∧ order_seq d' = order_seq d + 1 ∧
  (∃ t, paper_trades d' = <[tid := t]> (paper_trades d) ∧ pt_open_order_id t = order_seq d) ∧
  (∃ row, paper_positions d' = <[(bot_id cfg, sym) := row]> (paper_positions d)) ∧
  (∃ x, paper_executions d' = paper_executions d ++ [x] ∧ pe_order_id x = order_seq d) ∧
  open_entry d' sym (mkPosition (Some tid) (Some sd) (Some q) (Some px) (Some fee) (Some fee)
                       None None None (Some Full) (Some false) None None) sd.
Proof.
  intros E [_ Hbx]. st_inv.
  match goal with H : insert_paper_order _ _ _ _ _ _ _ _ _ _ _ _ = _ |- _ =>
    apply insert_paper_order_ok in H as (-> & T1 & X1 & P1 & S1 & O1 & _) end.
  match goal with H : insert_paper_trade _ _ _ _ _ _ _ _ _ _ = _ |- _ =>
    apply insert_paper_trade_ok in H as (-> & X2 & P2 & S2 & O2 & ep & q' & n' & f' & C1 & C2 & C3 & T2) end.
  match goal with H : insert_paper_execution _ _ _ _ _ _ _ _ _ _ _ _ = _ |- _ =>
    apply insert_paper_execution_ok in H as (T3 & P3 & S3 & O3 & x & X3 & Q1 & Q2 & _ & _ & _ & _ & _ & Q3) end.
  match goal with H : insert_paper_position _ _ _ _ _ _ _ _ _ = _ |- _ =>
    apply insert_paper_position_ok in H as (_ & T4 & X4 & S4 & O4 & ep2 & q2 & r2 & C4 & C5 & P4) end.
  rewrite S1 in *. split_and!; [done|lia|lia| | | |].
  - rewrite T4, T3, T2, T1. eauto.
  - rewrite P4, P3, P2, P1. eauto.
  - rewrite X4, X3, X2, X1. eauto.
  - eexists q, px, fee, fee, (trade_seq d), _, _, x.
    split; try reflexivity; rewrite ?P4, ?T4, ?T3, ?T2, ?X4, ?X3; simplify_map_eq; try done.
    + by rewrite C3.
    + set_solver.
    + intros x'. rewrite X2, X1. intros [Hx'| ->%list_elem_of_singleton]%elem_of_app Ho; [|done].
      apply Hbx in Hx'. cbn in Ho. lia.
Qed.

Lemma preserves_open corr oid xid sym sd px q n fee at_ k :
  preserves (seq_grows k)
   (o ← insert_paper_order (bot_id cfg) corr oid sym sd "market" q (Some px) "filled" at_ false;
    t ← insert_paper_trade (bot_id cfg) o sym sd px q n fee at_;
    insert_paper_execution xid o t (bot_id cfg) sym sd px q fee "open" at_ ;;
    insert_paper_position (bot_id cfg) sym t sd px q q at_ ;;
    mret t).
Proof.
  destruct (seq_grows_stmts k) as (H1 & H2 & H3 & H4 & _). repeat (apply preserves_bind; intros); auto with scalper.
Qed.

Lemma persist_open_agrees sym sd q px fee at_ oid xid corr :
  preserves book_agrees (persist_open cfg sym sd q px fee at_ oid xid corr).
Proof.
  intros s r s' Hs E. unfold persist_open in E. st_inv; try done.
  case_bool_decide as Hside; [by st_inv|]. st_inv; try done; repeat match goal with
    H : on_db _ _ = _ |- _ => apply on_db_inv in H as (d & H & ->) end.
  - match goal with H : transaction _ _ = _ |- _ => apply transaction_ok in H;
      apply open_body_ok in H as (-> & S & O & (t & T & Ho1) & (row & P) & (x & X & Ho2) & Ho); [|apply Hs] end.
    destruct Hs as [Hb Ht]. split; cbn.
    + intros sym'. destruct (decide (sym' = sym)) as [->|Hne].
      * rewrite lookup_insert_eq. split; [eauto|]. exact Ho.
      * rewrite lookup_insert_ne by done. eapply book_entry_frame; [done|apply Hb|..].
        -- rewrite P, lookup_insert_ne by congruence. done.
        -- intros id t' Hid _. rewrite T, lookup_insert_ne; [done|]. apply Ht in Hid. lia.
        -- eauto with scalper.
    + eapply ids_below_frame; [exact Ht|lia..| |].
      * intros id t'. rewrite T. intros [[<- <-]|[_ Hid]]%lookup_insert_Some; [right; lia|eauto].
      * intros x'. rewrite X. intros [?| ->%list_elem_of_singleton]%elem_of_app; [auto|right; lia].
  - eapply book_agrees_rollback; [|done|done]. apply preserves_open.
Qed.

(** ** Closing a position *)
Definition close_body (order : ST db Z) (exec : Z → ST db unit) (tid : Z) (sym : string) (x pnl fees : dec)
    (at_ : Z) (reason : string) : ST db unit :=
  o ← order; exec o ;; close_paper_trade tid x pnl fees at_ reason o ;; delete_paper_position (bot_id cfg) sym.

(** What the order and execution inserts of every closing path guarantee. *)
Definition quiet_order (order : ST db Z) : Prop := ∀ d o d', order d = (Ok o, d') →
  paper_trades d' = paper_trades d ∧ paper_executions d' = paper_executions d ∧
  paper_positions d' = paper_positions d ∧ trade_seq d' = trade_seq d ∧ o = order_seq d ∧ order_seq d' = order_seq d + 1.
Definition appends_exec (o : Z) (exec : ST db unit) : Prop := ∀ d u d', exec d = (Ok u, d') →
  paper_trades d' = paper_trades d ∧ paper_positions d' = paper_positions d ∧
  trade_seq d' = trade_seq d ∧ order_seq d' = order_seq d ∧
  ∃ x, paper_executions d' = paper_executions d ++ [x] ∧ pe_order_id x = o.

Lemma insert_order_quiet b c x sy sd ty q p st at_ f : quiet_order (insert_paper_order b c x sy sd ty q p st at_ f).
Proof. intros d o d' E. apply insert_paper_order_ok in E as (-> & ? & ? & ? & ? & ? & _). done. Qed.
Lemma insert_exec_appends i o t b sy sd p q f ty at_ : appends_exec o (insert_paper_execution i o t b sy sd p q f ty at_).
Proof. intros d u d' E. apply insert_paper_execution_ok in E as (? & ? & ? & ? & x & ? & ? & _). eauto 10. Qed.

Lemma close_body_ok order exec tid sym x pnl fees at_ reason d u d' :
  quiet_order order → (∀ o, appends_exec o (exec o)) →
  close_body order exec tid sym x pnl fees at_ reason d = (Ok u, d') →
  ∃ x' pnl' fees' o e, col 20 4 pnl = Ok pnl' ∧ col 30 12 x = Ok x' ∧
    paper_trades d' = alter (set_closed x' pnl' fees' at_ reason o) tid (paper_trades d) ∧
    paper_positions d' = delete (bot_id cfg, sym) (paper_positions d) ∧
    paper_executions d' = paper_executions d ++ [e] ∧ pe_order_id e = order_seq d ∧
    trade_seq d' = trade_seq d ∧ order_seq d' = order_seq d + 1.
Proof.
  intros Ho Hx E. unfold close_body in E. st_inv.
  match goal with H : order d = _ |- _ => apply Ho in H as (T1 & X1 & P1 & S1 & -> & O1) end.
  match goal with H : exec _ _ = _ |- _ => apply Hx in H as (T2 & P2 & S2 & O2 & e & X2 & Q) end.
  match goal with H : close_paper_trade _ _ _ _ _ _ _ _ = _ |- _ =>
    apply close_paper_trade_ok in H as (x' & r' & f' & Cx & C & _ & ->) end.
  unfold delete_paper_position in E. st_inv. do 5 eexists. split; [exact C|]. split; [exact Cx|]. cbn.
  by rewrite T2, T1, P2, P1, X2, X1, S2, S1, O2, O1.
Qed.

Lemma close_body_seq order exec tid sym x pnl fees at_ reason k :
  preserves (seq_grows k) order → (∀ o, preserves (seq_grows k) (exec o)) →
  preserves (seq_grows k) (close_body order exec tid sym x pnl fees at_ reason).
Proof.
  intros Ho Hx. destruct (seq_grows_stmts k) as (_ & _ & _ & _ & H5 & _ & _ & H8).
  unfold close_body. repeat (apply preserves_bind; intros); auto.
Qed.

Lemma ids_below_alter d d' tid e f :
  ids_below d → paper_trades d' = alter f tid (paper_trades d) → (∀ t, pt_open_order_id (f t) = pt_open_order_id t) →
  paper_executions d' = paper_executions d ++ [e] → pe_order_id e = order_seq d →
  trade_seq d' = trade_seq d → order_seq d' = order_seq d + 1 → ids_below d'.
Proof.
  intros Hi T Hf X Q S O. eapply ids_below_frame; [exact Hi|lia..| |].
  - intros id t'. rewrite T, lookup_alter_Some. intros [(<- & t & Ht & ->)|[_ Ht]]; eauto.
  - intros x'. rewrite X. intros [?| ->%list_elem_of_singleton]%elem_of_app; [auto|right; lia].
Qed.

Lemma book_agrees_closed s d' sym pos sd tid e f :
  book_agrees s → active_positions s !! sym = Some pos → p_side pos = Some sd → p_trade_id pos = Some tid →
  paper_trades d' = alter f tid (paper_trades (tables s)) →
  paper_positions d' = delete (bot_id cfg, sym) (paper_positions (tables s)) →
  paper_executions d' = paper_executions (tables s) ++ [e] → pe_order_id e = order_seq (tables s) →
  trade_seq d' = trade_seq (tables s) → order_seq d' = order_seq (tables s) + 1 →
  (∀ t, pt_open_order_id (f t) = pt_open_order_id t) →
  book_agrees (set_positions (delete sym) (set_tables d' s)).
Proof.
  intros [Hb Ht] Hpos Hsd Htid T P X Q S O Hf.
  pose proof (Hb sym) as Hsym. rewrite Hpos in Hsym. destruct Hsym as [_ Hsym]. rewrite Hsd in Hsym.
  destruct Hsym as (q & ep & ef & fp & tid' & row & t & x & A).
  assert (tid' = tid) as -> by (pose proof (ag_tid _ _ _ _ _ _ _ _ _ _ _ _ A); congruence).
  pose proof (ag_trade _ _ _ _ _ _ _ _ _ _ _ _ A) as Htr.
  pose proof (ag_trade_sym _ _ _ _ _ _ _ _ _ _ _ _ A) as Hts.
  split; cbn.
  - intros sym'. destruct (decide (sym' = sym)) as [->|Hne].
    + rewrite lookup_delete_eq. cbn. by rewrite P, lookup_delete_eq.
    + rewrite lookup_delete_ne by done. eapply book_entry_frame; [done|apply Hb|..].
      * rewrite P, lookup_delete_ne by congruence. done.
      * intros id t' Hid Hs'. rewrite T, lookup_alter_ne; [done|]. intros <-. congruence.
      * eauto with scalper.
  - by eapply ids_below_alter.
Qed.

Lemma open_fields s sym pos sd :
  book_agrees s → active_positions s !! sym = Some pos → p_side pos = Some sd →
  open_entry (tables s) sym pos sd.
Proof. intros [Hb _] Hpos Hsd. specialize (Hb sym). rewrite Hpos in Hb. cbn in Hb. rewrite Hsd in Hb. tauto. Qed.

Lemma persist_close_agrees sym sd q px fee at_ oid xid corr :
  preserves book_agrees (persist_close cfg sym sd q px fee at_ oid xid corr).
Proof.
  intros s r s' Hs E. unfold persist_close in E. st_inv; try done.
  destruct (active_positions s !! sym) as [ex|] eqn:Hpos; [|by st_inv].
  destruct (p_side ex) as [psd|] eqn:Hsd; [|by st_inv].
  st_inv; try done; repeat match goal with
    | H : on_db _ _ = _ |- _ => apply on_db_inv in H as (d & H & ->)
    | H : subscript _ _ = Ok _ |- _ => apply subscript_ok_inv in H
    end; match goal with Ht : p_trade_id ex = Some ?t |- _ => rename t into tid; rename Ht into Htid end.
  - match goal with H : transaction _ _ = _ |- _ => apply transaction_ok in H;
      apply (close_body_ok _ (fun o => insert_paper_execution xid o tid (bot_id cfg) sym sd px q fee "close" at_))
        in H as (x' & pnl' & fees' & o & e & _ & _ & T & P & X & Q & S & O); [|apply insert_order_quiet | intros; apply insert_exec_appends] end.
    eapply book_agrees_ext; [..|eapply (book_agrees_closed s d sym ex psd tid); eauto].
    + destruct (_ && _); st_inv; done.
    + destruct (_ && _); st_inv; done.
  - eapply book_agrees_rollback; [|done|done].
    destruct (seq_grows_stmts (seqs (tables s))) as (H1 & _ & H3 & _).
    apply (close_body_seq _ (fun o => insert_paper_execution xid o tid (bot_id cfg) sym sd px q fee "close" at_)); auto.
Qed.

Lemma fresh_id_agrees p : preserves book_agrees (fresh_id p).
Proof. intros s r s' Hs [= <- <-]. by eapply book_agrees_ext. Qed.
#[local] Hint Resolve fresh_id_agrees persist_open_agrees persist_close_agrees : scalper.

Lemma place_market_order_agrees sym sd q ro : preserves book_agrees (place_market_order cfg sym sd q ro).
Proof.
  unfold place_market_order. apply preserves_bind; [auto with scalper|intros s0].
  destruct (last_price s0 !! sym); [|auto with scalper]. repeat (apply preserves_bind; [auto with scalper|intros]).
  destruct ro; preserve.
Qed.

(** ** Stops *)
Lemma set_trading_stop_agrees sym tm sl tp ts st : preserves book_agrees (set_trading_stop cfg sym tm sl tp ts st).
Proof.
  unfold set_trading_stop. destruct (decide (st = Some trail)) as [->|Hst]; [auto with scalper|].
  intros s r s' Hs E.
  assert ((s0 ← get_st;
    modify (set_positions <[sym := let ex := default empty_position (active_positions s0 !! sym) in
        mkPosition (p_trade_id ex) (p_side ex) (p_qty ex) (p_entry_price ex) (p_entry_fee ex) (p_fees_paid ex)
          sl tp ts (Some tm) (p_tp_hit ex)
          (match st with Some t => Some t | None => match p_sl_type ex with Some t => Some t | None => Some protective end end)
          (p_realized_pnl ex)]>) ;;
    on_db (update_paper_position_sl_tp (bot_id cfg) sym sl tp (clock s0))) s = (r, s')) as E'
    by (destruct st as [[]|]; done).
  clear E. st_inv.
  apply on_db_inv in E' as (d & E & ->). destruct Hs as [Hb Ht].
  assert (seqs d = seqs (tables s) ∧ paper_trades d = paper_trades (tables s) ∧
          paper_executions d = paper_executions (tables s) ∧
          ∃ f, paper_positions d = alter f (bot_id cfg, sym) (paper_positions (tables s)) ∧
               ∀ p, pp_trade_id (f p) = pp_trade_id p ∧ pp_side (f p) = pp_side p ∧
                    pp_entry_price (f p) = pp_entry_price p ∧ pp_remaining_qty (f p) = pp_remaining_qty p)
    as ([= S O] & T & X & f & P & Hf).
  { cbn in E. unfold update_paper_position_sl_tp in E. destruct (col_opt 30 12 sl), (col_opt 30 12 tp); simplify_eq; cbn;
      (split; [done|]; split; [done|]; split; [done|]).
    1: by exists (set_sl_tp a a0 (clock s)). all: exists id; split; [|done]; by rewrite alter_id. }
  split; cbn; [|eapply ids_below_frame; [exact Ht|lia..| |]; rewrite ?T, ?X; eauto].
  intros sym'. destruct (decide (sym' = sym)) as [->|Hne].
  - rewrite lookup_insert_eq. cbn. split; [eauto|]. specialize (Hb sym).
    destruct (active_positions s !! sym) as [pos|] eqn:Hpos; cbn in *.
    + destruct Hb as [_ Hb]. destruct (p_side pos) as [sd|].
      * destruct Hb as (q & ep & ef & fp & tid & row & t & x & A). destruct A. destruct (Hf row) as (F1 & F2 & F3 & F4).
        exists q, ep, ef, fp, tid, (f row), t, x. split; cbn; rewrite ?P, ?T, ?X, ?F1, ?F2, ?F3, ?F4; try done.
        by rewrite lookup_alter_eq, ag_row0.
      * by rewrite P, lookup_alter_eq, Hb.
    + by rewrite P, lookup_alter_eq, Hb.
  - rewrite lookup_insert_ne by done. eapply book_entry_frame; [done|apply Hb|..].
    + rewrite P, lookup_alter_ne by congruence. done.
    + intros id t Hid _. by rewrite T.
    + auto with scalper.
Qed.


(** ** Draining *)
Lemma build_drain_context_frame fill pos s r s' :
  build_drain_context cfg fill pos s = (r, s') →
  ∃ n, s' = set_uuids n s ∧
    ∀ ctx, r = Ok ctx → p_trade_id pos = Some (dc_trade_id ctx) ∧ p_side pos = Some (dc_position_side ctx) ∧
      p_entry_price pos = Some (dc_entry_price ctx) ∧ p_fees_paid pos = Some (dc_prior_fees ctx) ∧
      dc_fee ctx = compute_fee (f_qty fill) (f_trigger_price fill) (fee_rate cfg).
Proof.
  destruct s as [? ? ? ? ? ? ? ? ? n0 ?]. unfold build_drain_context, fresh_id.
  destruct (p_trade_id pos) as [tid|] eqn:E1; [|intros [= <- <-]; by exists n0].
  destruct (p_entry_price pos) as [ep|] eqn:E2; [|intros [= <- <-]; by exists n0].
  destruct (p_side pos) as [sd|] eqn:E3; [|intros [= <- <-]; by exists n0].
  destruct (p_fees_paid pos) as [fp|] eqn:E4; [|intros [= <- <-]; by exists n0].
  intros [= <- <-]. eexists. split; [reflexivity|]. by intros ctx [= <-].
Qed.

Lemma book_agrees_uuids n s : book_agrees (set_uuids n s) ↔ book_agrees s.
Proof. split; by apply book_agrees_ext. Qed.

(** The two shapes of the drain transactions. *)
Lemma synthetic_order_quiet fill ctx : quiet_order (insert_synthetic_close_order cfg fill ctx).
Proof. apply insert_order_quiet. Qed.
Lemma close_execution_appends fill ctx o : appends_exec o (insert_close_execution cfg fill ctx o).
Proof. apply insert_exec_appends. Qed.
#[local] Hint Resolve synthetic_order_quiet close_execution_appends : scalper.

Lemma synthetic_order_seq fill ctx k : preserves (seq_grows k) (insert_synthetic_close_order cfg fill ctx).
Proof. destruct (seq_grows_stmts k) as (H1 & _). apply H1. Qed.
Lemma close_execution_seq fill ctx o k : preserves (seq_grows k) (insert_close_execution cfg fill ctx o).
Proof. destruct (seq_grows_stmts k) as (_ & _ & H3 & _). apply H3. Qed.
#[local] Hint Resolve synthetic_order_seq close_execution_seq : scalper.

Lemma drain_full_close_agrees fill : preserves book_agrees (drain_full_close cfg fill).
Proof.
  intros s r s' Hs E. unfold drain_full_close in E. st_inv; try done.
  all: match goal with H : subscript _ (_ !! _) = Ok ?p |- _ => apply subscript_ok_inv in H; rename p into pos; rename H into Hpos end.
  all: match goal with H : build_drain_context _ _ _ _ = _ |- _ =>
      apply build_drain_context_frame in H as (n & -> & Hctx) end; try by apply book_agrees_uuids.
  all: match goal with H : on_db _ _ = _ |- _ => apply on_db_inv in H as (d & H & ->) end.
  all: destruct (Hctx _ eq_refl) as (Htid & Hside & _).
  - match goal with H : transaction _ _ = _ |- _ => apply transaction_ok in H;
      apply (close_body_ok _ (insert_close_execution cfg fill _))
        in H as (x' & pnl' & fees' & o & e & _ & _ & T & P & X & Q & S & O); [|auto with scalper..] end.
    eapply book_agrees_ext; [..|eapply (book_agrees_closed s d (f_symbol fill) pos); eauto].
    all: unfold emit_close_events in *; destruct (has_terminal_callback cfg); by st_inv.
  - eapply book_agrees_rollback; [|by apply book_agrees_uuids|done].
    apply (close_body_seq _ (insert_close_execution cfg fill _)); auto with scalper.
Qed.

Definition partial_body (fill : PendingSLTPFill) (ctx : drain_ctx) (q fees pnl : dec) : ST db unit :=
  o ← insert_synthetic_close_order cfg fill ctx;
  insert_close_execution cfg fill ctx o ;;
  update_paper_trade_partial (dc_trade_id ctx) q fees pnl ;;
  update_paper_position_partial (bot_id cfg) (f_symbol fill) q true (f_triggered_at fill).

Lemma partial_body_ok fill ctx q fees pnl d u d' :
  partial_body fill ctx q fees pnl d = (Ok u, d') →
  ∃ q' f' r' e, col 30 12 q = Ok q' ∧ col 20 4 fees = Ok f' ∧ col 20 4 pnl = Ok r' ∧
    paper_trades d' = alter (set_partial q' f' r') (dc_trade_id ctx) (paper_trades d) ∧
    paper_positions d' = alter (set_remaining q' true (f_triggered_at fill)) (bot_id cfg, f_symbol fill) (paper_positions d) ∧
    paper_executions d' = paper_executions d ++ [e] ∧ pe_order_id e = order_seq d ∧
    trade_seq d' = trade_seq d ∧ order_seq d' = order_seq d + 1.
Proof.
  intros E. unfold partial_body in E. st_inv.
  match goal with H : insert_synthetic_close_order _ _ _ d = _ |- _ =>
    apply synthetic_order_quiet in H as (T1 & X1 & P1 & S1 & -> & O1) end.
  match goal with H : insert_close_execution _ _ _ _ _ = _ |- _ =>
    apply close_execution_appends in H as (T2 & P2 & S2 & O2 & e & X2 & Q) end.
  match goal with H : update_paper_trade_partial _ _ _ _ _ = _ |- _ =>
    apply update_paper_trade_partial_ok in H as (q' & f' & r' & C1 & C2 & C3 & ->) end.
  apply update_paper_position_partial_ok in E as (q2 & C4 & ->). rewrite C1 in C4. injection C4 as <-.
  exists q', f', r', e. cbn. by rewrite T2, T1, P2, P1, X2, X1, S2, S1, O2, O1.
Qed.

Lemma partial_body_seq fill ctx q fees pnl k : preserves (seq_grows k) (partial_body fill ctx q fees pnl).
Proof.
  destruct (seq_grows_stmts k) as (_ & _ & _ & _ & _ & H6 & H7 & _). unfold partial_body. preserve.
Qed.

Lemma book_agrees_partial s d' sym pos sd tid q fees pnl q' f' r' at_ e :
  book_agrees s → active_positions s !! sym = Some pos → p_side pos = Some sd → p_trade_id pos = Some tid →
  col 30 12 q = Ok q' → col 20 4 fees = Ok f' →
  paper_trades d' = alter (set_partial q' f' r') tid (paper_trades (tables s)) →
  paper_positions d' = alter (set_remaining q' true at_) (bot_id cfg, sym) (paper_positions (tables s)) →
  paper_executions d' = paper_executions (tables s) ++ [e] → pe_order_id e = order_seq (tables s) →
  trade_seq d' = trade_seq (tables s) → order_seq d' = order_seq (tables s) + 1 →
  book_agrees (set_positions (alter (partial_tp_update q fees pnl) sym) (set_tables d' s)).
Proof.
  intros Hs Hpos Hsd Htid C1 C2 T P X Q S O.
  destruct (open_fields _ _ _ _ Hs Hpos Hsd) as (q0 & ep & ef & fp & tid' & row & t & x & A).
  destruct Hs as [Hb Ht]. destruct A. assert (tid' = tid) as -> by congruence.
  split; cbn.
  - intros sym'. destruct (decide (sym' = sym)) as [->|Hne].
    + rewrite lookup_alter_eq, Hpos. cbn. specialize (Hb sym). rewrite Hpos in Hb. destruct Hb as [Hm _].
      split; [done|]. rewrite Hsd.
      exists q, ep, ef, fees, tid, (set_remaining q' true at_ row), (set_partial q' f' r' t), x.
      split; cbn; rewrite ?P, ?T, ?X, ?C2, ?lookup_alter_eq, ?ag_row0, ?ag_trade0; try done; [set_solver|].
      intros x' [Hx'| ->%list_elem_of_singleton]%elem_of_app Ho; [by apply ag_exec_only0|].
      destruct (proj1 Ht _ _ ag_trade0). lia.
    + rewrite lookup_alter_ne by done. eapply book_entry_frame; [done|apply Hb|..].
      * rewrite P, lookup_alter_ne by congruence. done.
      * intros id t' Hid Hs'. rewrite T, lookup_alter_ne; [done|]. intros <-. congruence.
      * eauto with scalper.
  - by eapply ids_below_alter.
Qed.

Lemma drain_partial_tp_agrees fill : preserves book_agrees (drain_partial_tp cfg fill).
Proof.
  intros s r s' Hs E. unfold drain_partial_tp in E. st_inv; try done.
  all: match goal with H : subscript _ (_ !! _) = Ok ?p |- _ => apply subscript_ok_inv in H; rename p into pos; rename H into Hpos end.
  all: match goal with H : build_drain_context _ _ _ _ = _ |- _ =>
      apply build_drain_context_frame in H as (n & -> & Hctx) end; try by apply book_agrees_uuids.
  all: match goal with H : on_db _ _ = _ |- _ => apply on_db_inv in H as (d & H & ->) end.
  all: destruct (Hctx _ eq_refl) as (Htid & Hside & _).
  - match goal with H : transaction _ _ = _ |- _ => apply transaction_ok in H;
      apply partial_body_ok in H as (q' & f' & r' & e & C1 & C2 & _ & T & P & X & Q & S & O) end.
    unfold emit_close_events in E. st_inv.
    eapply book_agrees_ext; [reflexivity..|]. eapply (book_agrees_partial (set_uuids n s)); eauto.
  - eapply book_agrees_rollback; [|by apply book_agrees_uuids|done]. apply partial_body_seq.
Qed.

Lemma drain_sl_tp_fill_agrees fill : preserves book_agrees (drain_sl_tp_fill cfg fill).
Proof.
  unfold drain_sl_tp_fill. destruct (f_kind fill), (f_tpsl_mode fill);
    auto using drain_full_close_agrees, drain_partial_tp_agrees.
Qed.

Lemma modify_quiet f :
  (∀ s, tables (f s) = tables s ∧ active_positions (f s) = active_positions s) → preserves book_agrees (modify f).
Proof. intros Hf. apply preserves_modify. intros s. destruct (Hf s). by apply book_agrees_ext. Qed.

Lemma drain_loop_agrees n : preserves book_agrees (drain_loop cfg n).
Proof.
  induction n; cbn [drain_loop]; [auto with scalper|]. apply preserves_bind; [auto with scalper|intros s0].
  destruct (pending_sl_tp_fills s0); [auto with scalper|].
  apply preserves_bind; [by apply modify_quiet|intros]. apply preserves_bind; [apply drain_sl_tp_fill_agrees|done].
Qed.
Lemma drain_pending_agrees : preserves book_agrees (drain_pending cfg).
Proof. apply preserves_bind; [auto with scalper|intros]. apply drain_loop_agrees. Qed.

Lemma check_crosses_agrees sym lo hi : preserves book_agrees (check_crosses sym lo hi).
Proof.
  assert (∀ l, preserves book_agrees (modify (set_pending l))) by (intros; by apply modify_quiet).
  unfold check_crosses. apply preserves_bind; [auto with scalper|intros s0].
  repeat match goal with
  | |- preserves _ (match ?x with _ => _ end) => destruct x
  | |- preserves _ (_ ≫= _) => apply preserves_bind; [|intros]
  end; auto with scalper.
Qed.
#[local] Hint Resolve check_crosses_agrees drain_pending_agrees : scalper.

Lemma on_candle_agrees c : preserves book_agrees (on_candle cfg c).
Proof.
  unfold on_candle. destruct (c_is_closed c); [|auto with scalper].
  apply preserves_bind; [by apply modify_quiet|intros]. apply preserves_bind; [apply check_crosses_agrees|auto with scalper].
Qed.

Lemma replay_segments_agrees sym segs : preserves book_agrees (replay_segments cfg sym segs).
Proof.
  induction segs as [|[a b] segs IH]; cbn; [auto with scalper|].
  apply preserves_bind; [apply check_crosses_agrees|intros]. preserve.
Qed.
Lemma process_replay_candle_agrees c : preserves book_agrees (process_replay_candle cfg c).
Proof.
  unfold process_replay_candle. apply preserves_bind; [|intros].
  { apply modify_quiet. intros s. destruct (has_replay_clock cfg); [|done]. unfold replay_clock_set. by destruct (_ <? _). }
  apply preserves_bind; [by apply modify_quiet|intros]. apply preserves_bind; [auto with scalper|intros [[[o p1] p2] cl]].
  apply replay_segments_agrees.
Qed.

Lemma run_replay_agrees cs : preserves book_agrees (run_replay cfg cs).
Proof.
  unfold run_replay. case_bool_decide; [|auto with scalper].
  induction cs; cbn; [auto with scalper|]. apply preserves_bind; [apply process_replay_candle_agrees|done].
Qed.

Lemma cancel_order_agrees sym oid : preserves book_agrees (cancel_order cfg sym oid).
Proof. intros s r s' [Hb Ht] [= <- <-]. split; [|exact Ht]. intros sym'. eapply book_entry_frame; [exact Ht|apply Hb|done..|by apply execs_extend_same]. Qed.

(** ** Restart: the book rebuilt from the tables *)
Lemma hydrate_rows_spec rows s :
  (∀ r, r ∈ rows → is_Some (hr_fees_paid r)) →
  ∃ s', hydrate_rows rows s = (Ok tt, s') ∧ tables s' = tables s ∧
    ∀ sym, (∃ r, r ∈ rows ∧ hr_symbol r = sym ∧ ∃ p, hydrated_position r = Ok p ∧ active_positions s' !! sym = Some p) ∨
           ((∀ r, r ∈ rows → hr_symbol r ≠ sym) ∧ active_positions s' !! sym = active_positions s !! sym).
Proof.
  revert s. induction rows as [|r rows IH]; intros s Hf; cbn [hydrate_rows].
  { exists s. split_and!; [done..|]. right. split; [set_solver|done]. }
  destruct (Hf r) as [f Hfee]; [set_solver|].
  destruct (hydrated_position r) as [p|] eqn:Hp; [|unfold hydrated_position in Hp; by rewrite Hfee in Hp].
  destruct (IH (set_positions <[hr_symbol r := p]> s)) as (s' & E & T & Hs'); [set_solver|].
  exists s'. split_and!; [exact E|exact T|]. intros sym.
  destruct (Hs' sym) as [(r' & Hin & Hsym & Hr')|[Hno Heq]]; [left; set_solver|].
  cbn in Heq. destruct (decide (hr_symbol r = sym)) as [<-|Hne].
  - left. rewrite lookup_insert_eq in Heq. set_solver.
  - right. rewrite lookup_insert_ne in Heq by done. set_solver.
Qed.

Lemma elem_of_hydrate_rows b d r :
  r ∈ select_paper_positions_for_hydrate b d ↔
  ∃ sym p t x, paper_positions d !! (b, sym) = Some p ∧ paper_trades d !! pp_trade_id p = Some t ∧
    x ∈ paper_executions d ∧ pe_order_id x = pt_open_order_id t ∧ pe_exec_type x = "open" ∧
    r = mkHydrate sym (pp_trade_id p) (pp_side p) (pp_entry_price p) (pp_qty p) (pp_remaining_qty p)
          (pp_sl_price p) (pp_tp_price p) (pp_tp_hit p) (pt_fees_paid t) (pt_open_order_id t) (pe_fee x).
Proof.
  unfold select_paper_positions_for_hydrate. rewrite list_elem_of_bind. split.
  - intros ([[b' sym] p] & Hr & Hp%elem_of_map_to_list). case_bool_decide as Hb; [|set_solver]. subst b'.
    destruct (paper_trades d !! pp_trade_id p) as [t|] eqn:Ht; [|set_solver].
    apply list_elem_of_bind in Hr as (x & Hr & Hx). destruct (_ && _) eqn:Hc; [|set_solver].
    bool_simpl. apply bool_decide_eq_true in H1. apply list_elem_of_singleton in Hr. eauto 12.
  - intros (sym & p & t & x & Hp & Ht & Hx & Ho & Hty & ->). exists ((b, sym), p).
    split; [|by apply elem_of_map_to_list]. rewrite bool_decide_true, Ht by done.
    apply list_elem_of_bind. exists x. split; [|done]. rewrite Ho, Z.eqb_refl, bool_decide_true by done. set_solver.
Qed.

Lemma col_idem `{!PgNumericIdem} p sc d d' : col p sc d = Ok d' → col p sc d' = Ok d'.
Proof.
  unfold col. destruct (pg_numeric p sc d) eqn:E; [|discriminate]. intros [= <-].
  by rewrite (pg_numeric_idem _ _ _ _ E).
Qed.

(** The entry a restart builds for an open position. *)
Definition rebuilt (d : db) (sym : string) (pos pos' : position) : Prop :=
  ∃ sd q ep ef fp tid row t x, p_side pos = Some sd ∧ agrees d sym pos sd q ep ef fp tid row t x ∧
    pos' = mkPosition (Some tid) (Some sd) (Some (pp_remaining_qty row)) (Some (pp_entry_price row))
             (Some (pe_fee x)) (pt_fees_paid t) (pp_sl_price row) (pp_tp_price row) None (Some Full)
             (Some (pp_tp_hit row)) None None.

Lemma rebuilt_of_row s sym row :
  book_agrees s → paper_positions (tables s) !! (bot_id cfg, sym) = Some row →
  ∃ pos pos' r, active_positions s !! sym = Some pos ∧ rebuilt (tables s) sym pos pos' ∧
    r ∈ select_paper_positions_for_hydrate (bot_id cfg) (tables s) ∧ hr_symbol r = sym ∧
    ∀ r', r' ∈ select_paper_positions_for_hydrate (bot_id cfg) (tables s) → hr_symbol r' = sym →
      is_Some (hr_fees_paid r') ∧ hydrated_position r' = Ok pos'.
Proof.
  intros [Hb _] Hrow. specialize (Hb sym). unfold book_entry in Hb.
  destruct (active_positions s !! sym) as [pos|] eqn:Hpos; [|congruence]. destruct Hb as [_ Hb].
  destruct (p_side pos) as [sd|] eqn:Hsd; [|congruence]. destruct Hb as (q & ep & ef & fp & tid & row' & t & x & A).
  assert (row' = row) as -> by (destruct A; congruence).
  exists pos. eexists. eexists. split; [done|]. split; [by exists sd, q, ep, ef, fp, tid, row, t, x|]. destruct A.
  split; [apply elem_of_hydrate_rows; exists sym, row, t, x; by subst tid|]. split; [done|].
  intros r' (sym' & p & t' & x' & Hp & Ht' & Hx & Ho & _ & ->)%elem_of_hydrate_rows Hs. cbn in Hs. subst sym'.
  assert (p = row) as -> by congruence. subst tid. assert (t' = t) as -> by congruence. assert (x' = x) as -> by auto.
  destruct (col 20 4 fp); [|discriminate]. injection ag_trade_fees0 as Hf. unfold hydrated_position. cbn.
  rewrite <- Hf, ag_row_side0. eauto.
Qed.

Lemma hydrate_book s s0 :
  book_agrees s → tables s0 = tables s → active_positions s0 = ∅ →
  ∃ s', hydrate_active_positions cfg s0 = (Ok tt, s') ∧ tables s' = tables s ∧
    ∀ sym, (∃ pos pos', active_positions s !! sym = Some pos ∧ active_positions s' !! sym = Some pos' ∧
                        rebuilt (tables s) sym pos pos') ∨
           (active_positions s' !! sym = None ∧ paper_positions (tables s) !! (bot_id cfg, sym) = None).
Proof.
  intros Hs T0 A0.
  destruct (hydrate_rows_spec (select_paper_positions_for_hydrate (bot_id cfg) (tables s)) s0) as (s' & E & T & Hs').
  { intros r Hr. pose proof Hr as (sym & p & t & x & Hp & _ & _ & _ & _ & ->)%elem_of_hydrate_rows.
    destruct (rebuilt_of_row s sym p Hs Hp) as (pos & pos' & r & _ & _ & _ & _ & Hall). by destruct (Hall _ Hr eq_refl). }
  exists s'. split; [unfold hydrate_active_positions, mbind, st_bind, get_st; by rewrite T0|]. split; [congruence|].
  intros sym. destruct (Hs' sym) as [(r & Hr & Hsym & p' & Hp' & Ha)|[Hno Ha]].
  - left. pose proof Hr as (sym' & p & t & x & Hp & _ & _ & _ & _ & ->)%elem_of_hydrate_rows. cbn in Hsym. subst sym'.
    destruct (rebuilt_of_row s sym p Hs Hp) as (pos & pos' & r & Hpos & Hre & _ & _ & Hall).
    destruct (Hall _ Hr eq_refl) as [_ Heq]. assert (p' = pos') as -> by congruence. eauto.
  - right. split; [by rewrite Ha, A0, lookup_empty|].
    destruct (paper_positions (tables s) !! (bot_id cfg, sym)) as [row|] eqn:Hp; [|done].
    destruct (rebuilt_of_row s sym row Hs Hp) as (pos & pos' & r & _ & _ & Hr & Hsym & _). by destruct (Hno _ Hr).
Qed.

Lemma rebuilt_agrees `{!PgNumericIdem} d sym pos pos' : rebuilt d sym pos pos' → book_entry d sym (Some pos').
Proof.
  intros (sd & q & ep & ef & fp & tid & row & t & x & Hsd & A & ->). cbn. split; [eauto|]. destruct A.
  destruct (col 20 4 fp) as [fp'|] eqn:Hfp; [|discriminate]. injection ag_trade_fees0 as Hf. apply col_idem in Hfp.
  exists (pp_remaining_qty row), (pp_entry_price row), (pe_fee x), fp', tid, row, t, x.
  split; cbn; try done; eauto using col_idem.
  - rewrite <- ag_trade_qty0, ag_row_qty0. eauto using col_idem.
  - by rewrite Hfp, <- Hf.
Qed.

Lemma hydrate_agrees `{!PgNumericIdem} s s0 :
  book_agrees s → tables s0 = tables s → active_positions s0 = ∅ →
  ∃ s', hydrate_active_positions cfg s0 = (Ok tt, s') ∧ book_agrees s'.
Proof.
  intros Hs T0 A0. destruct (hydrate_book _ _ Hs T0 A0) as (s' & E & T & Hs'). exists s'. split; [done|].
  split; rewrite T; [|apply Hs]. intros sym.
  destruct (Hs' sym) as [(pos & pos' & _ & -> & Hre)|[-> Hn]]; [by eapply rebuilt_agrees|done].
Qed.

(** ** Every reachable state *)
Inductive op :=
| op_market_order (symbol : string) (sd : side) (qty : dec) (reduce_only : bool)
| op_trading_stop (symbol : string) (tm : tpsl) (sl tp size : option dec) (st : option slt)
| op_cancel (symbol : string) (order_id : Z)
| op_candle (c : candle)
| op_replay (historical_source : list candle).
Definition run_op (o : op) : PE unit :=
  match o with
  | op_market_order sym sd q ro => place_market_order cfg sym sd q ro ;; mret tt
  | op_trading_stop sym tm sl tp sz st => set_trading_stop cfg sym tm sl tp sz st
  | op_cancel sym oid => cancel_order cfg sym oid
  | op_candle c => on_candle cfg c
  | op_replay cs => run_replay cfg cs
  end.
Definition consume_events (s : pe_state) : pe_state :=
  mkState (last_price s) (last_candle s) (active_positions s) (pending_sl_tp_fills s) [] [] [] [] (clock s) (uuids s) (tables s).

(** An operation that returns or raises, the clock moving on, a consumer of
    the event queues, or the process restarting over the same database. *)
Inductive pe_step : pe_state → pe_state → Prop :=
| step_op o r s s' : run_op o s = (r, s') → pe_step s s'
| step_time t s : clock s <= t → pe_step s (set_clock t s)
| step_consume s : pe_step s (consume_events s)
| step_restart now q sub s s' : clock s <= now →
    start_consuming cfg q sub (set_uuids (uuids s) (initial_state now (tables s))) = (Ok tt, s') → pe_step s s'.

Lemma run_op_agrees o : preserves book_agrees (run_op o).
Proof.
  destruct o; cbn [run_op]; auto using set_trading_stop_agrees, cancel_order_agrees, on_candle_agrees, run_replay_agrees.
  apply preserves_bind; [apply place_market_order_agrees|auto with scalper].
Qed.

Lemma pe_step_agrees `{!PgNumericIdem} s s' :
  seed_open_state cfg = None → book_agrees s → pe_step s s' → book_agrees s'.
Proof.
  intros Hseed Hs. destruct 1 as [o r s s' E|t s _|s|now q sub s s' _ E].
  - by eapply run_op_agrees.
  - by eapply book_agrees_ext.
  - by eapply book_agrees_ext.
  - destruct (hydrate_agrees s (set_uuids (uuids s) (initial_state now (tables s))) Hs eq_refl eq_refl) as (s1 & E1 & Hs1).
    unfold start_consuming in E. case_bool_decide; [|discriminate].
    apply st_bind_ok_inv in E as (u & s2 & [= _ <-] & E). rewrite (st_bind_run _ _ _ _ _ E1) in E.
    apply st_bind_ok_inv in E as (u' & s2 & [= _ <-] & [= _ <-]). by unfold apply_seed_open_state; rewrite Hseed.
Qed.

Lemma initial_agrees now : book_agrees (initial_state now empty_db).
Proof. split; [intros sym; cbn; by rewrite lookup_empty|]. split; cbn; set_solver. Qed.
Lemma steps_agree `{!PgNumericIdem} s s' :
  seed_open_state cfg = None → book_agrees s → rtc pe_step s s' → book_agrees s'.
Proof.
  intros Hseed Hs Hr. induction Hr as [s|s s1 s2 Hstep _ IH]; [done|]. apply IH. by eapply pe_step_agrees.
Qed.

(** C2: in every state a paper exchange without seeded positions reaches from an empty database,
    whatever its operations returned or raised and however often the process
    restarted, each open entry of the book has its position row, its open
    trade row and its opening execution with the same identity, side,
    remaining quantity, entry price and fees, and a symbol without an open
    entry has no position row. *)
Theorem reachable_book_agrees `{!PgNumericIdem} now s :
  seed_open_state cfg = None → rtc pe_step (initial_state now empty_db) s → book_agrees s.
Proof.
  intros Hseed Hr. eapply steps_agree; [done|apply initial_agrees|done].
Qed.

(** C24: a restart of a live-mode exchange without seeded positions, over the
    tables of a reachable state, raises only what reading the tables or
    subscribing to the candles raises, never because of the rows it reads, and
    writes nothing.  Once the tables are read, and so before the first candle
    can arrive, the book holds exactly the open positions, with trade, side,
    entry price, quantity and fees as the columns hold them, and has forgotten
    the rest of the entry. *)
Theorem restart_rebuilds_book `{!PgNumericIdem} now now' query subscribe s :
  mode cfg = live → seed_open_state cfg = None → rtc pe_step (initial_state now empty_db) s →
  ∃ s', start_consuming cfg query subscribe (set_uuids (uuids s) (initial_state now' (tables s))) = (query ≫= (fun _ => subscribe), s') ∧
    tables s' = tables s ∧
    (is_ok query = true → ∀ sym,
       match active_positions s !! sym ≫= (fun pos => p_side pos ≫= fun _ => Some pos) with
       | Some pos => ∃ pos', active_positions s' !! sym = Some pos' ∧ rebuilt (tables s) sym pos pos'
       | None => active_positions s' !! sym = None
       end).
Proof.
  intros Hmode Hseed Hr. assert (book_agrees s) as Hs by (eapply steps_agree; [done|apply initial_agrees|done]).
  set (s0 := set_uuids (uuids s) (initial_state now' (tables s))). unfold start_consuming. rewrite bool_decide_true by done.
  destruct query as [[]|e]; [|by exists s0]. destruct (hydrate_book s s0 Hs eq_refl eq_refl) as (s' & E & T & Hs').
  exists s'. split_and!; [|done|].
  { rewrite (st_bind_run (lift_res (Ok tt)) _ s0 tt s0 eq_refl), (st_bind_run _ _ _ _ _ E).
    unfold modify, apply_seed_open_state. by rewrite Hseed. }
  intros _ sym. destruct (Hs' sym) as [(pos & pos' & -> & -> & Hre)|[-> Hn]].
  - cbn. pose proof Hre as (sd & _ & _ & _ & _ & _ & _ & _ & _ & -> & _). cbn. eauto.
  - destruct (active_positions s !! sym) as [pos|] eqn:Hpos; [|done]. cbn. destruct (p_side pos) as [sd|] eqn:Hsd; [|done].
    destruct (open_fields _ _ _ _ Hs Hpos Hsd) as (q & ep & ef & fp & tid & row & t & x & A). destruct A. congruence.
Qed.
End invariant.

(** ** A concrete run

    A bot that buys 2 BTCUSDT at 100 with a protective stop at 90 and a
    partial target of 1 at 110, over [pg_half_away]. *)
Definition demo_cfg (m : pe_mode) : pe_config :=
  mkConfig "bot" (1000 @ 0) m_fixed_pct (1 @ (-3)) {["fixed_slippage_pct" := 1 @ (-3)]} m
    (bool_decide (m = replay)) false None true true true.
Definition demo_candle (t o h l c : Z) : candle := mkCandle "BTCUSDT" t (o @ 0) (h @ 0) (l @ 0) (c @ 0) (1 @ 0) true.
Definition demo_run (m : pe_mode) (ops : list op) (s : pe_state) : pe_state :=
  fold_left (fun s o => (run_op (H := pg_half_away) (demo_cfg m) o s).2) ops s.
Definition demo_market (m : pe_mode) (c : candle) : op :=
  match m with live => op_candle c | replay => op_replay [c] end.
Definition demo_open (m : pe_mode) : pe_state :=
  demo_run m [ demo_market m (demo_candle 0 100 101 99 100);
               op_market_order "BTCUSDT" buy (2 @ 0) false;
               op_trading_stop "BTCUSDT" Partial (Some (90 @ 0)) (Some (110 @ 0)) (Some (1 @ 0)) None ]
    (initial_state 0 empty_db).

Lemma demo_steps m ops s : rtc (pe_step (H := pg_half_away) (demo_cfg m)) s (demo_run m ops s).
Proof.
  revert s. induction ops as [|o ops IH]; intros s; [constructor|]. cbn [demo_run fold_left].
  eapply rtc_l; [|apply IH]. destruct (run_op (H := pg_half_away) (demo_cfg m) o s) as [r s'] eqn:E. by econstructor.
Qed.

Lemma demo_open_reachable m : rtc (pe_step (H := pg_half_away) (demo_cfg m)) (initial_state 0 empty_db) (demo_open m).
Proof. unfold demo_open. apply demo_steps. Qed.
Definition demo_position : position :=
  mkPosition (Some 1) (Some buy) (Some (2 @ 0)) (Some (100100 @ (-3))) (Some (200200 @ (-6))) (Some (200200 @ (-6)))
    (Some (90 @ 0)) (Some (110 @ 0)) (Some (1 @ 0)) (Some Partial) (Some false) (Some protective) None.
Lemma demo_open_entry : active_positions (demo_open live) !! "BTCUSDT" = Some demo_position.
Proof. vm_compute. reflexivity. Qed.

Lemma reachable_book_agrees_witness : book_agrees (H := pg_half_away) (demo_cfg live) (demo_open live).
Proof.
  exact (reachable_book_agrees (H := pg_half_away) (demo_cfg live) (H0 := pg_half_away_idem) 0 _ eq_refl (demo_open_reachable live)).
Defined.

Lemma restart_rebuilds_book_witness :
  ∃ s', start_consuming (demo_cfg live) (Ok tt) (Ok tt) (set_uuids (uuids (demo_open live)) (initial_state 7 (tables (demo_open live)))) = (Ok tt, s') ∧
    is_Some (active_positions s' !! "BTCUSDT").
Proof.
  destruct (restart_rebuilds_book (H := pg_half_away) (demo_cfg live) (H0 := pg_half_away_idem) 0 7 (Ok tt) (Ok tt) _
              eq_refl eq_refl (demo_open_reachable live)) as (s' & E & _ & Hs').
  exists s'. split; [exact E|]. specialize (Hs' eq_refl "BTCUSDT"). rewrite demo_open_entry in Hs'.
  destruct Hs' as (pos' & -> & _). eauto.
Defined.
