(* ===== verification/PaperFacts.v ===== *)
(** * What the paper exchange does with prices and money

    Functional facts about the paper exchange: the candle path covers the
    candle's range, market fills are adverse, a stop inside the candle closes
    the position at the stop, realised PnL is exact to half a column unit and
    adds up, the fill queue drains; and two runs where the code falls short of
    its intent. *)

From S2P Require Import Prelude Dec Sizing PaperDb PaperExchange PaperInv.
From Stdlib Require Import QArith Qabs Lqa.
Open Scope Z_scope.

(** ** The candle path *)
Lemma in_range_spec lo x hi : in_range lo x hi = true ↔ (dval lo <= dval x)%Q ∧ (dval x <= dval hi)%Q.
Proof. unfold in_range. by rewrite andb_true_iff, !dleb_spec. Qed.

(** The segments [_process_replay_candle] checks, in order. *)
Definition path_segments (path : dec * dec * dec * dec) : list (dec * dec) :=
  let '(o, p1, p2, c) := path in [(o, p1); (p1, p2); (p2, c)].
Definition crossed (x : dec) (seg : dec * dec) : bool := in_range (dmin seg.1 seg.2) x (dmax seg.1 seg.2).

Lemma crossed_spec x a b :
  crossed x (a, b) = true ↔
  ((dval a <= dval x ∧ dval x <= dval b) ∨ (dval b <= dval x ∧ dval x <= dval a))%Q.
Proof.
  unfold crossed. cbn [fst snd]. rewrite in_range_spec.
  pose proof (dmin_spec a b) as (? & ? & [H1|H1]); pose proof (dmax_spec a b) as (? & ? & [H2|H2]); rewrite H1, H2 in *;
    split; intros; first [lra | by left; lra | by right; lra].
Qed.

(** The path a replay candle follows crosses exactly the prices of the
    candle's range, so replay detects a level iff the live whole-candle check
    does; it starts at the open, ends at the close and visits both extremes,
    the favourable one for the candle's colour first. *)
Lemma replay_path_covers_candle o h l c path :
  generate_intra_candle_path o h l c = Ok path →
  (∀ x, existsb (crossed x) (path_segments path) = in_range l x h) ∧
  path = (if dleb o c then (o, h, l, c) else (o, l, h, c)).
Proof.
  unfold generate_intra_candle_path. destruct (dltb h l) eqn:E1; [discriminate|].
  destruct (dltb o l || dltb h o) eqn:E2; [discriminate|]. destruct (dltb c l || dltb h c) eqn:E3; [discriminate|].
  bool_simpl. rewrite dltb_false in *.
  intros E. split; [|by destruct (dleb o c); inv_ok].
  intros x. apply eq_true_iff_eq. rewrite in_range_spec.
  destruct (dleb o c); inv_ok; subst path; cbn [path_segments existsb]; rewrite !orb_true_iff, !crossed_spec;
    (split; [intros [H'|[H'|[H'|H']]]; [lra..|discriminate] | intros; right; left; first [by left; lra | by right; lra]]).
Qed.

(** ** Market fills *)
Lemma half_spread_nonneg hi lo k sl :
  (dval lo <= dval hi)%Q → 0 <= coef k → half_spread hi lo k = Ok sl → 0 <= coef sl.
Proof.
  intros Hle Hk E. unfold half_spread in E. inv_ok. subst sl. apply dmul_nonneg; [|done].
  eapply ddiv_nonneg; [eassumption| |done]. apply fix_nonneg. cbn.
  apply dleb_spec in Hle. unfold dleb in Hle. apply Z.leb_le in Hle.
  replace (common_exp lo hi) with (common_exp hi lo) in Hle by (unfold common_exp; lia). lia.
Qed.

Section fills.
Context `{PgNumeric} (cfg : pe_config).

(** Non-negative model parameters. *)
Definition params_nonneg : Prop := ∀ k v, slippage_params cfg !! k = Some v → 0 <= coef v.

Lemma compute_slippage_nonneg px q c sl :
  params_nonneg → 0 <= coef px → (dval (c_low c) <= dval (c_high c))%Q →
  compute_slippage cfg px q c = Ok sl → 0 <= coef sl.
Proof.
  intros Hp Hpx Hc E. unfold params_nonneg in Hp. unfold compute_slippage in E. destruct (slippage cfg); inv_ok.
  - subst sl. apply dmul_nonneg; eauto.
  - subst sl. apply dmul_nonneg; [apply dmul_nonneg; eauto | apply dabs_nonneg].
  - by eapply half_spread_nonneg; [|eapply Hp|].
Qed.

(** Successful runs of the two persisting methods. *)
Lemma persist_open_ok sym sd q px fee at_ oid xid corr s tid s' :
  persist_open cfg sym sd q px fee at_ oid xid corr s = (Ok tid, s') →
  execution_queue s' = execution_queue s ++ [mkExecEvent xid oid sym sd px q fee at_].
Proof.
  intros E. unfold persist_open in E. st_inv. case_bool_decide; [by st_inv|]. st_inv.
  by match goal with Hd : on_db _ _ = _ |- _ => apply on_db_inv in Hd as (d & _ & ->) end.
Qed.

Record closes (reason : string) (sym : string) (px q fee : dec) (ef : dec) (s s' : pe_state) (ex : position) (total : dec) : Prop := mkCloses {
  cl_entry : active_positions s !! sym = Some ex;
  cl_open : ∃ sd tid ep pf pnl, p_side ex = Some sd ∧ p_trade_id ex = Some tid ∧ p_entry_price ex = Some ep ∧
    p_fees_paid ex = Some pf ∧ p_entry_fee ex = Some ef ∧ compute_realized_pnl sd ep px q ef fee = Ok pnl ∧
    total = dadd pnl (default (mkDec 0 (-4)) (p_realized_pnl ex)) ∧
    ∃ order exec at_, quiet_order order ∧ (∀ o, appends_exec o (exec o)) ∧
      close_body cfg order exec tid sym px total (dadd pf fee) at_ reason (tables s) = (Ok tt, tables s');
  cl_book : active_positions s' = delete sym (active_positions s);
}.

Lemma persist_close_ok sym sd q px fee at_ oid xid corr s u s' :
  persist_close cfg sym sd q px fee at_ oid xid corr s = (Ok u, s') →
  execution_queue s' = execution_queue s ++ [mkExecEvent xid oid sym sd px q fee at_] ∧
  ∃ ex rq ef total, p_qty ex = Some rq ∧ closes "manual" sym px rq fee ef s s' ex total.
Proof.
  intros E. unfold persist_close in E. st_inv. destruct (active_positions s !! sym) as [ex|] eqn:Hex; [|by st_inv].
  destruct (p_side ex) as [psd|] eqn:Hsd; [|by st_inv]. st_inv.
  repeat match goal with
  | Hd : on_db _ _ = _ |- _ => apply on_db_inv in Hd as (d & Hd & ->); apply transaction_ok in Hd
  | Hs : subscript _ _ = Ok _ |- _ => apply subscript_ok_inv in Hs
  end.
  match goal with Hd : mbind _ _ _ = (Ok ?u, d) |- _ => destruct u end.
  assert (∃ s1, s' = s1 ∧ tables s1 = d ∧ active_positions s1 = delete sym (active_positions s) ∧
            execution_queue s1 = execution_queue s ++ [mkExecEvent xid oid sym sd px q fee at_]) as (s1 & -> & T & A & X)
    by (destruct (_ && _); st_inv; eauto).
  split; [done|]. do 4 eexists. split; [eassumption|]. split; [done| |done].
  do 5 eexists. do 6 (split; [eassumption|]). split; [reflexivity|]. rewrite T.
  match goal with Ht : p_trade_id _ = Some ?t |- _ =>
    exists (insert_paper_order (bot_id cfg) corr oid sym sd "market" q (Some px) "filled" at_ false),
      (fun o => insert_paper_execution xid o t (bot_id cfg) sym sd px q fee "close" at_), at_ end.
  split; [|split; [|assumption]]; intros; [apply insert_order_quiet|apply insert_exec_appends].
Qed.

Lemma drain_full_close_ok fill s u s' :
  drain_full_close cfg fill s = (Ok u, s') →
  ∃ ex ef total, closes (kind_name (f_kind fill)) (f_symbol fill) (f_trigger_price fill) (f_qty fill)
    (compute_fee (f_qty fill) (f_trigger_price fill) (fee_rate cfg)) ef s s' ex total.
Proof.
  intros E. unfold drain_full_close in E. st_inv.
  repeat match goal with
  | Hd : on_db _ _ = _ |- _ => apply on_db_inv in Hd as (d & Hd & ->); apply transaction_ok in Hd
  | Hs : subscript _ _ = Ok _ |- _ => apply subscript_ok_inv in Hs
  | Hb : build_drain_context _ _ _ _ = _ |- _ => apply build_drain_context_frame in Hb as (n & -> & Hctx)
  end.
  destruct (Hctx _ eq_refl) as (Ht & Hsd & Hep & Hfp & <-).
  match goal with Hd : mbind _ _ _ = (Ok ?u, d) |- _ => destruct u end.
  assert (tables s' = d ∧ active_positions s' = delete (f_symbol fill) (active_positions s)) as [T A]
    by (unfold emit_close_events in *; destruct (has_terminal_callback cfg); by st_inv).
  do 3 eexists. split; [eassumption| |done].
  do 5 eexists. do 6 (split; [eassumption|]). split; [reflexivity|]. rewrite T.
  match goal with Hc : ∀ c, Ok ?ctx = Ok c → _ |- _ =>
    exists (insert_synthetic_close_order cfg fill ctx), (insert_close_execution cfg fill ctx), (f_triggered_at fill) end.
  split; [|split; [|assumption]]; intros; [apply synthetic_order_quiet|apply close_execution_appends].
Qed.

(** The event a successful order puts on the execution queue. *)
Lemma place_market_order_event sym sd q ro s x s' :
  place_market_order cfg sym sd q ro s = (Ok x, s') →
  ∃ px c sl ev, last_price s !! sym = Some px ∧ last_candle s !! sym = Some c ∧
    compute_slippage cfg px q c = Ok sl ∧ execution_queue s' = execution_queue s ++ [ev] ∧
    ee_side ev = sd ∧ ee_qty ev = q ∧ ee_symbol ev = sym ∧
    ee_price ev = (match sd with buy => dadd px sl | sell => dsub px sl end) ∧
    ee_fee ev = compute_fee q (ee_price ev) (fee_rate cfg).
Proof.
  intros E. unfold place_market_order in E. st_inv. destruct (last_price s !! sym) as [px|]; [|by st_inv].
  st_inv. unfold fresh_id in *. simplify_eq.
  match goal with Hc : subscript _ _ = Ok ?c, Hs : compute_slippage _ _ _ _ = Ok ?sl |- _ =>
    apply subscript_ok_inv in Hc; exists px, c, sl end.
  destruct ro; st_inv; simplify_eq;
    match goal with
    | Hp : persist_close _ _ _ _ _ _ _ _ _ _ _ = _ |- _ => apply persist_close_ok in Hp as [-> _]
    | Hp : persist_open _ _ _ _ _ _ _ _ _ _ _ = _ |- _ => apply persist_open_ok in Hp as ->
    end; eexists; by split_and!.
Qed.

Lemma place_market_order_close sym sd q s x s' :
  place_market_order cfg sym sd q true s = (Ok x, s') →
  ∃ s0 px fee at_ oid xid corr, tables s0 = tables s ∧ active_positions s0 = active_positions s ∧
    persist_close cfg sym sd q px fee at_ oid xid corr s0 = (Ok tt, s').
Proof.
  intros E. unfold place_market_order in E. st_inv. destruct (last_price s !! sym) as [px|]; [|by st_inv].
  st_inv. unfold fresh_id in *. simplify_eq.
  match goal with Hp : persist_close _ _ _ _ _ _ _ _ _ _ _ = (Ok ?u, _) |- _ => destruct u; do 7 eexists; split_and!; [| |exact Hp]; done end.
Qed.

(** With non-negative slippage parameters, a market order never fills
    better than the last observed price: a buy at or above it, a sell at or
    below it, and its fee is non-negative whenever the fill price is. *)
Lemma market_fill_is_adverse sym sd q ro s x s' :
  params_nonneg → 0 <= coef (fee_rate cfg) →
  (∀ px, last_price s !! sym = Some px → 0 <= coef px < 10 ^ prec) →
  (∀ c, last_candle s !! sym = Some c → (dval (c_low c) <= dval (c_high c))%Q) →
  place_market_order cfg sym sd q ro s = (Ok x, s') →
  ∃ px ev, last_price s !! sym = Some px ∧ execution_queue s' = execution_queue s ++ [ev] ∧
    ee_symbol ev = sym ∧ ee_side ev = sd ∧ ee_qty ev = q ∧
    match sd with
    | buy => (dval px <= dval (ee_price ev))%Q ∧ 0 <= coef (ee_fee ev)
    | sell => (dval (ee_price ev) <= dval px)%Q ∧ (0 <= coef (ee_price ev) → 0 <= coef (ee_fee ev))
    end.
Proof.
  intros Hp Hr Hpx Hc E. apply place_market_order_event in E as (px & c & sl & ev & E1 & E2 & E3 & E4 & E5 & E6 & E7 & E8 & E9).
  destruct (Hpx _ E1) as [H1 H2].
  assert (0 <= coef sl) as Hsl by (by eapply compute_slippage_nonneg; [..|apply Hc|]).
  assert (0 <= coef (ee_price ev) → 0 <= coef (ee_fee ev)) as Hfee.
  { rewrite E9. intros. apply dmul_nonneg; [apply dmul_nonneg; [apply dabs_nonneg|done]|done]. }
  exists px, ev. do 5 (split; [done|]). destruct sd.
  - assert (dval px <= dval (ee_price ev))%Q by (rewrite E8; apply dadd_ge_l; lia). split; [done|].
    apply Hfee. apply dval_sign. apply dval_sign in H1. lra.
  - split; [|done]. rewrite E8. apply dsub_le_l; lia.
Qed.

(** ** Money *)
Definition closed_pnls (since : option Z) (d : db) : list dec :=
  omap (closed_pnl (bot_id cfg) since) (snd <$> map_to_list (paper_trades d)).

Lemma closed_pnls_alter since d d' tid t f :
  paper_trades d !! tid = Some t → paper_trades d' = alter f tid (paper_trades d) →
  ∃ rest, closed_pnls since d ≡ₚ option_list (closed_pnl (bot_id cfg) since t) ++ rest ∧
          closed_pnls since d' ≡ₚ option_list (closed_pnl (bot_id cfg) since (f t)) ++ rest.
Proof.
  intros Ht T. exists (omap (closed_pnl (bot_id cfg) since) (snd <$> map_to_list (delete tid (paper_trades d)))).
  assert (∀ (m : gmap Z paper_trade) x, m !! tid = Some x →
    omap (closed_pnl (bot_id cfg) since) (snd <$> map_to_list m) ≡ₚ
    option_list (closed_pnl (bot_id cfg) since x) ++ omap (closed_pnl (bot_id cfg) since) (snd <$> map_to_list (delete tid m))) as Hm.
  { intros m x Hx. rewrite <- (map_to_list_delete _ _ _ Hx). cbn. by destruct (closed_pnl _ _ x). }
  split; [by apply Hm|]. unfold closed_pnls. rewrite T, (Hm _ (f t)) by (by rewrite lookup_alter_eq, Ht).
  by rewrite delete_alter_eq.
Qed.

Lemma closes_settles reason sym px q fee ef s s' ex total :
  book_agrees cfg s → closes reason sym px q fee ef s s' ex total →
  ∃ tid t total', p_trade_id ex = Some tid ∧ paper_trades (tables s') !! tid = Some t ∧
    pt_status t = st_closed ∧ pt_close_reason t = Some reason ∧ pt_realized_pnl t = Some total' ∧
    col 20 4 total = Ok total' ∧ (Some <$> col 30 12 px) = Ok (pt_exit_price t) ∧
    paper_positions (tables s') !! (bot_id cfg, sym) = None ∧
    (dval (sum_paper_trades_realized_pnl (bot_id cfg) (tables s')) ==
     dval (sum_paper_trades_realized_pnl (bot_id cfg) (tables s)) + dval total')%Q.
Proof.
  intros Hs [Hex (sd & tid & ep & pf & pnl & Hsd & Htid & _ & _ & _ & _ & _ & order & exec & at_ & Ho & Hx & E) _].
  apply close_body_ok in E as (x' & total' & fees' & o & e & C & Cx & T & P & _ & _ & _ & _); [|done..].
  destruct (open_fields _ _ _ _ _ Hs Hex Hsd) as (q0 & ep0 & ef0 & fp & tid' & row & t & x & A). destruct A.
  assert (tid' = tid) as -> by congruence.
  exists tid, (set_closed x' total' fees' at_ reason o t), total'. split_and!; try done.
  - by rewrite T, lookup_alter_eq, ag_trade.
  - by rewrite Cx.
  - by rewrite P, lookup_delete_eq.
  - destruct (closed_pnls_alter None _ _ _ _ _ ag_trade T) as (rest & P1 & P2).
    unfold sum_paper_trades_realized_pnl. fold (closed_pnls None (tables s')). fold (closed_pnls None (tables s)).
    assert (closed_pnl (bot_id cfg) None t = None) as C1.
    { unfold closed_pnl. by rewrite ag_trade_open, andb_false_r. }
    assert (closed_pnl (bot_id cfg) None (set_closed x' total' fees' at_ reason o t) = Some total') as C2.
    { unfold closed_pnl. cbn [set_closed pt_bot_id]. by rewrite ag_trade_bot, bool_decide_true. }
    rewrite (sum_dec_perm _ _ P1), (sum_dec_perm _ _ P2), !sum_dec_app, C1, C2.
    change (sum_dec (option_list (Some total'))) with (dadd_exact total' dzero). rewrite dadd_exact_value.
    change (sum_dec (option_list None)) with dzero. rewrite dval_zero. ring.
Qed.

(** Closing a position by a reduce-only market order or by a drained stop
    or target moves the bot's cumulative closed PnL by exactly the amount
    booked on the trade row, which is the PnL of the closing leg plus the PnL
    accumulated by partial targets, and removes the position row. *)
Lemma close_moves_closed_pnl sym s s' :
  book_agrees cfg s →
  (∃ sd q x, place_market_order cfg sym sd q true s = (Ok x, s')) ∨
  (∃ fill, f_symbol fill = sym ∧ drain_full_close cfg fill s = (Ok tt, s')) →
  ∃ ex tid t sd ep ef px q fee pnl total',
    active_positions s !! sym = Some ex ∧ p_trade_id ex = Some tid ∧ p_side ex = Some sd ∧
    p_entry_price ex = Some ep ∧ p_entry_fee ex = Some ef ∧ compute_realized_pnl sd ep px q ef fee = Ok pnl ∧
    col 20 4 (dadd pnl (default (mkDec 0 (-4)) (p_realized_pnl ex))) = Ok total' ∧
    paper_trades (tables s') !! tid = Some t ∧ pt_status t = st_closed ∧ pt_realized_pnl t = Some total' ∧
    paper_positions (tables s') !! (bot_id cfg, sym) = None ∧ active_positions s' !! sym = None ∧
    (dval (sum_paper_trades_realized_pnl (bot_id cfg) (tables s')) ==
     dval (sum_paper_trades_realized_pnl (bot_id cfg) (tables s)) + dval total')%Q.
Proof.
  intros Hs Hop.
  assert (∃ s0 reason px q fee ef ex total, tables s0 = tables s ∧ active_positions s0 = active_positions s ∧
            closes reason sym px q fee ef s0 s' ex total)
    as (s0 & reason & px & q & fee & ef & ex & total & T0 & A0 & Hc).
  { destruct Hop as [(sd & q & x & E)|(fill & <- & E)].
    - apply place_market_order_close in E as (s0 & px & fee & at_ & oid & xid & corr & T0 & A0 & E).
      apply persist_close_ok in E as (_ & ex & rq & ef & total & _ & Hc). eauto 12.
    - apply drain_full_close_ok in E as (ex & ef & total & Hc). eauto 12. }
  assert (book_agrees cfg s0) as Hs0 by (by eapply book_agrees_ext).
  pose proof Hc as [Hex (sd & tid & ep & pf & pnl & Hsd & Htid & Hep & _ & Hef & Hpnl & -> & _) Hbk].
  destruct (closes_settles _ _ _ _ _ _ _ _ _ _ Hs0 Hc) as (tid' & t & total' & Htid' & Ht & Hst & _ & Hr & Hcol & _ & Hp & Hsum).
  assert (tid' = tid) as -> by congruence. rewrite T0 in Hsum. rewrite A0 in *.
  exists ex, tid, t, sd, ep, ef, px, q, fee, pnl, total'. rewrite Hbk, lookup_delete_eq. by split_and!.
Qed.
End fills.

(** ** Realised PnL *)
Definition exact_pnl (sd : side) (entry exit qty fees_open fees_close : dec) : Q :=
  (match sd with
   | buy => (dval exit - dval entry) * dval qty
   | sell => (dval entry - dval exit) * dval qty
   end - dval fees_open - dval fees_close)%Q.

Lemma Qabs_sub_le (a b : Q) : (Qabs (a - b) <= Qabs a + Qabs b)%Q.
Proof. rewrite <- (Qabs_opp b). apply Qabs_triangle. Qed.
Lemma ulp_nonneg : (0 <= ulp_rel)%Q.
Proof. vm_compute. discriminate. Qed.

Lemma ulp_val : (ulp_rel == 1 # 2000000000000000000000000000)%Q.
Proof. reflexivity. Qed.
Lemma p27_val : (p10 (-27) == 1 # 1000000000000000000000000000)%Q.
Proof. reflexivity. Qed.

Lemma gross_rel a b q :
  (Qabs (dval (dmul (dsub a b) q) - (dval a - dval b) * dval q) <= (3 # 1) * ulp_rel * Qabs ((dval a - dval b) * dval q))%Q.
Proof.
  set (G := ((dval a - dval b) * dval q)%Q).
  assert (Qabs (dval (dsub a b) * dval q - G) <= ulp_rel * Qabs G)%Q as H1.
  { unfold G. rewrite (Qabs_Qmult (dval a - dval b)).
    assert (dval (dsub a b) * dval q - (dval a - dval b) * dval q == (dval (dsub a b) - (dval a - dval b)) * dval q)%Q as -> by ring.
    rewrite Qabs_Qmult, Qmult_assoc. apply Qmult_le_compat_r; [apply dsub_rel|apply Qabs_nonneg]. }
  pose proof (rel_step G _ _ _ _ (Qabs G) ulp_nonneg H1 (Qle_refl _) (dmul_rel (dsub a b) q)) as H2.
  pose proof (Qabs_nonneg G). rewrite ulp_val in *. lra.
Qed.

Lemma fees_rel g G fo fc F :
  (Qabs (dval g - G) <= (3 # 1) * ulp_rel * Qabs G)%Q →
  (Qabs G + Qabs (dval fo) + Qabs (dval fc) == F)%Q →
  (Qabs (dval (dsub (dsub g fo) fc) - (G - dval fo - dval fc)) <= (8 # 1) * ulp_rel * F)%Q.
Proof.
  intros Hg HF.
  assert (Qabs (dval g - dval fo - (G - dval fo)) <= (3 # 1) * ulp_rel * Qabs G)%Q as H1.
  { assert (dval g - dval fo - (G - dval fo) == dval g - G)%Q as -> by ring. done. }
  pose proof (rel_step _ _ _ _ _ _ ulp_nonneg H1 (Qabs_sub_le G (dval fo)) (dsub_rel g fo)) as H2.
  set (e2 := ((3 # 1) * ulp_rel * Qabs G + ulp_rel * (Qabs G + Qabs (dval fo) + (3 # 1) * ulp_rel * Qabs G))%Q) in *.
  assert (Qabs (dval (dsub g fo) - dval fc - (G - dval fo - dval fc)) <= e2)%Q as H3.
  { assert (dval (dsub g fo) - dval fc - (G - dval fo - dval fc) == dval (dsub g fo) - (G - dval fo))%Q as -> by ring. done. }
  assert (Qabs (G - dval fo - dval fc) <= F)%Q as H4.
  { pose proof (Qabs_sub_le (G - dval fo) (dval fc)). pose proof (Qabs_sub_le G (dval fo)). lra. }
  pose proof (rel_step _ _ _ _ _ _ ulp_nonneg H3 H4 (dsub_rel (dsub g fo) fc)) as H5.
  pose proof (Qabs_nonneg G). pose proof (Qabs_nonneg (dval fo)). pose proof (Qabs_nonneg (dval fc)).
  unfold e2 in *. rewrite ulp_val in *. lra.
Qed.

(** The realised PnL of a close, as the code computes it in 28-digit
    decimals and rounds it to the column, is the exact PnL net of fees to half
    a unit of the fourth decimal plus a relative 4e-27. *)
Lemma realized_pnl_accurate sd entry exit qty fo fc r :
  compute_realized_pnl sd entry exit qty fo fc = Ok r →
  dexp r = -4 ∧
  (Qabs (dval r - exact_pnl sd entry exit qty fo fc) <=
   (1 # 20000) + (4 # 1) * p10 (-27) *
     (Qabs ((dval exit - dval entry) * dval qty) + Qabs (dval fo) + Qabs (dval fc)))%Q.
Proof.
  intros E. unfold compute_realized_pnl in E. apply dquantize_spec in E as (He & Hq & _). split; [done|].
  set (F := (Qabs ((dval exit - dval entry) * dval qty) + Qabs (dval fo) + Qabs (dval fc))%Q).
  set (n := dsub _ fc) in Hq.
  assert (Qabs (dval n - exact_pnl sd entry exit qty fo fc) <= (8 # 1) * ulp_rel * F)%Q as Hn.
  { unfold n, exact_pnl. destruct sd; apply fees_rel; try apply gross_rel; [done|].
    unfold F. assert ((dval entry - dval exit) * dval qty == - ((dval exit - dval entry) * dval qty))%Q as -> by ring.
    by rewrite Qabs_opp. }
  apply Qle_trans with (Qabs (dval r - dval n) + Qabs (dval n - exact_pnl sd entry exit qty fo fc))%Q.
  { eapply Qle_trans; [|apply Qabs_triangle]. apply Qle_lteq. right. apply Qabs_wd. ring. }
  rewrite ulp_val in Hn. rewrite p27_val. change (p10 (-4)) with (1 # 10000)%Q in Hq. lra.
Qed.

(** ** The fill queue *)
Section queue.
Context `{PgNumeric} (cfg : pe_config).

Definition pending_is (l : list PendingSLTPFill) (s : pe_state) : Prop := pending_sl_tp_fills s = l.
Lemma on_db_pending {A} l (m : ST db A) : preserves (pending_is l) (on_db m).
Proof. intros s r s' Hs E. by apply on_db_inv in E as (d & _ & ->). Qed.
Lemma context_pending l fill pos : preserves (pending_is l) (build_drain_context cfg fill pos).
Proof. intros s r s' Hs E. by apply build_drain_context_frame in E as (n & -> & _). Qed.
Lemma emit_pending l fill ctx q sd e : preserves (pending_is l) (emit_close_events fill ctx q sd e).
Proof. by apply preserves_modify. Qed.
Lemma set_positions_pending l f : preserves (pending_is l) (modify (set_positions f)).
Proof. by apply preserves_modify. Qed.
#[local] Hint Resolve on_db_pending context_pending emit_pending set_positions_pending : scalper.

Lemma drain_pending_frame l fill : preserves (pending_is l) (drain_sl_tp_fill cfg fill).
Proof.
  assert (preserves (pending_is l) (drain_full_close cfg fill)) as Hfull.
  { unfold drain_full_close. preserve. destruct (has_terminal_callback cfg); [by apply preserves_modify|preserve]. }
  unfold drain_sl_tp_fill. destruct (f_kind fill), (f_tpsl_mode fill); try exact Hfull. unfold drain_partial_tp. preserve.
Qed.

Lemma drain_loop_queue n s r s' :
  (length (pending_sl_tp_fills s) <= n)%nat → drain_loop cfg n s = (r, s') →
  match r with
  | Ok _ => pending_sl_tp_fills s' = []
  | Err _ => ∃ done fill, pending_sl_tp_fills s = done ++ fill :: pending_sl_tp_fills s'
  end.
Proof.
  revert s. induction n as [|n IH]; intros s Hn E; cbn [drain_loop] in E.
  - st_inv. by destruct (pending_sl_tp_fills s); [|cbn in Hn; lia].
  - st_inv. destruct (pending_sl_tp_fills s) as [|fill rest] eqn:Hq; [by st_inv|].
    apply st_bind_cases in E as [(u & s1 & [= <- <-] & E)|(e & [=] & _)].
    apply st_bind_cases in E as [(u & s1 & E1 & E)|(e & E1 & ->)];
      apply (drain_pending_frame rest) in E1; try done; unfold pending_is in E1.
    + apply IH in E; [|rewrite E1; cbn in Hn; lia]. destruct r; [done|]. destruct E as (l & f & E).
      exists (fill :: l), f. cbn. congruence.
    + exists [], fill. cbn. congruence.
Qed.

(** Draining terminates with the queue empty, and when a fill raises, that
    fill is dropped and the ones behind it stay queued: nothing is duplicated
    or reordered. *)
Lemma drain_empties_queue s r s' :
  drain_pending cfg s = (r, s') →
  match r with
  | Ok _ => pending_sl_tp_fills s' = []
  | Err _ => ∃ done fill, pending_sl_tp_fills s = done ++ fill :: pending_sl_tp_fills s'
  end.
Proof. intros E. apply (drain_loop_queue (length (pending_sl_tp_fills s))); [lia|exact E]. Qed.

Lemma drain_full_close_err fill s e s' :
  drain_full_close cfg fill s = (Err e, s') →
  active_positions s' = active_positions s ∧ paper_trades (tables s') = paper_trades (tables s) ∧
  paper_positions (tables s') = paper_positions (tables s).
Proof.
  intros E. unfold drain_full_close in E. st_inv; try done;
  repeat match goal with
  | Hb : build_drain_context _ _ _ _ = _ |- _ => apply build_drain_context_frame in Hb as (n & -> & _)
  | Hd : on_db _ _ = (Err _, _) |- _ => apply on_db_inv in Hd as (d & (? & ? & ? & _)%transaction_err & ->)
  end; try done.
  unfold emit_close_events in *. destruct (has_terminal_callback cfg); by st_inv.
Qed.

Lemma check_crosses_stop sym lo hi s pos sd q tm sl :
  active_positions s !! sym = Some pos → p_side pos = Some sd → p_qty pos = Some q → p_tpsl_mode pos = Some tm →
  p_sl_price pos = Some sl → in_range lo sl hi = true →
  check_crosses sym lo hi s = (Ok tt, set_pending (pending_sl_tp_fills s ++ [mkFill sym sd q sl (clock s) k_sl tm]) s).
Proof.
  intros Hpos Hsd Hq Htm Hsl Hin. unfold check_crosses, mbind, st_bind, get_st. rewrite Hpos, Htm. cbn.
  by rewrite Hsd, Hq, Hsl, Hin.
Qed.

(** A closed candle through the stop: the full close of the position runs, on
    the state with the candle recorded and the queue empty. *)
Lemma on_candle_stop c s pos sd q tm sl r s' :
  pending_sl_tp_fills s = [] → c_is_closed c = true → active_positions s !! c_symbol c = Some pos →
  p_side pos = Some sd → p_qty pos = Some q → p_tpsl_mode pos = Some tm → p_sl_price pos = Some sl →
  in_range (c_low c) sl (c_high c) = true → on_candle cfg c s = (r, s') →
  drain_full_close cfg (mkFill (c_symbol c) sd q sl (clock s) k_sl tm)
    (set_pending [] (set_pending [mkFill (c_symbol c) sd q sl (clock s) k_sl tm] (set_market (c_symbol c) (c_close c) c s))) = (r, s').
Proof.
  intros Hq Hcl Hpos Hsd Hqty Htm Hsl Hin E. unfold on_candle in E. rewrite Hcl in E.
  set (s1 := set_market (c_symbol c) (c_close c) c s) in *.
  rewrite (st_bind_run (modify (set_market (c_symbol c) (c_close c) c)) _ s tt s1 eq_refl) in E.
  rewrite (st_bind_run _ _ _ _ _ (check_crosses_stop _ _ _ s1 _ _ _ _ _ Hpos Hsd Hqty Htm Hsl Hin)) in E.
  change (pending_sl_tp_fills s1) with (pending_sl_tp_fills s) in E. rewrite Hq in E. cbn [app] in E. change (clock s1) with (clock s) in E.
  set (fill := mkFill (c_symbol c) sd q sl (clock s) k_sl tm) in *. set (s2 := set_pending [fill] s1) in *.
  unfold drain_pending in E. rewrite (st_bind_run get_st _ s2 s2 s2 eq_refl) in E. cbn [s2 set_pending pending_sl_tp_fills length drain_loop] in E.
  fold s2 in E. rewrite (st_bind_run get_st _ s2 s2 s2 eq_refl) in E. cbn [s2 set_pending pending_sl_tp_fills] in E. fold s2 in E.
  rewrite (st_bind_run (modify (set_pending [])) _ s2 tt (set_pending [] s2) eq_refl) in E.
  change (drain_sl_tp_fill cfg fill) with (drain_full_close cfg fill) in E.
  apply st_bind_cases in E as [([] & s3 & E & [= <- <-])|(e & E & ->)]; exact E.
Qed.

(** C11: when a closed candle's range contains the stop of an open position, the
    position is closed in full at the stop price with reason 'sl', even if the
    range contains the target too; if a statement fails, the transaction is
    rolled back and the position stays open as it was. *)
Theorem stop_wins_and_closes c s pos sd sl r s' :
  book_agrees cfg s → pending_sl_tp_fills s = [] → c_is_closed c = true →
  active_positions s !! c_symbol c = Some pos → p_side pos = Some sd → p_sl_price pos = Some sl →
  in_range (c_low c) sl (c_high c) = true →
  on_candle cfg c s = (r, s') →
  match r with
  | Ok _ =>
      active_positions s' = delete (c_symbol c) (active_positions s) ∧ pending_sl_tp_fills s' = [] ∧
      ∃ tid t, p_trade_id pos = Some tid ∧ paper_trades (tables s') !! tid = Some t ∧
        pt_status t = st_closed ∧ pt_close_reason t = Some "sl" ∧ (Some <$> col 30 12 sl) = Ok (pt_exit_price t) ∧
        paper_positions (tables s') !! (bot_id cfg, c_symbol c) = None
  | Err _ =>
      active_positions s' = active_positions s ∧ paper_trades (tables s') = paper_trades (tables s) ∧
      paper_positions (tables s') = paper_positions (tables s)
  end.
Proof.
  intros Hs Hq Hcl Hpos Hsd Hsl Hin E.
  assert (is_Some (p_tpsl_mode pos) ∧ is_Some (p_qty pos)) as [[tm Htm] [q Hqty]].
  { pose proof (proj1 Hs (c_symbol c)) as Hb. rewrite Hpos in Hb. destruct Hb as [Hm Hb]. rewrite Hsd in Hb.
    destruct Hb as (q & ? & ? & ? & ? & ? & ? & ? & A). destruct A. eauto. }
  apply (on_candle_stop c s pos sd q tm sl r s' Hq Hcl Hpos Hsd Hqty Htm Hsl Hin) in E.
  set (s2 := set_pending [_] _) in E. destruct r as [u|e].
  - split; [|split].
    + apply drain_full_close_ok in E as (ex & ef & total & Hc). by destruct Hc.
    + by apply (drain_pending_frame [] (mkFill (c_symbol c) sd q sl (clock s) k_sl tm)) in E.
    + assert (book_agrees cfg (set_pending [] s2)) as Hs2 by (by eapply book_agrees_ext; [..|exact Hs]).
      apply drain_full_close_ok in E as (ex & ef & total & Hc).
      destruct (closes_settles _ _ _ _ _ _ _ _ _ _ _ Hs2 Hc) as (tid & t & total' & H1 & H2 & H3 & H4 & _ & _ & H5 & H6 & _).
      pose proof (cl_entry _ _ _ _ _ _ _ _ _ _ _ Hc) as Hex. cbn in Hex. assert (ex = pos) as -> by congruence. eauto 10.
  - by apply drain_full_close_err in E.
Qed.
End queue.

(** ** Concrete runs *)
Section witnesses.
#[local] Existing Instance pg_half_away.

Definition demo_quoted : pe_state := demo_run live [op_candle (demo_candle 0 100 101 99 100)] (initial_state 0 empty_db).

Lemma demo_open_agrees m : book_agrees (demo_cfg m) (demo_open m).
Proof. apply (steps_agree _ (H0 := pg_half_away_idem) (initial_state 0 empty_db)); [done|apply initial_agrees|apply demo_open_reachable]. Qed.

Definition demo_fill : PendingSLTPFill := mkFill "BTCUSDT" buy (2 @ 0) (90 @ 0) 0 k_sl Partial.
(** The candle holds both the stop and the target. *)
Definition demo_wide : candle := demo_candle 60 100 112 89 95.
Lemma stop_wins_and_closes_witness :
  in_range (c_low demo_wide) (110 @ 0) (c_high demo_wide) = true ∧
  ∃ u s' tid t, on_candle (demo_cfg live) demo_wide (demo_open live) = (Ok u, s') ∧
    paper_trades (tables s') !! tid = Some t ∧ pt_close_reason t = Some "sl".
Proof.
  split; [reflexivity|].
  destruct (on_candle (demo_cfg live) demo_wide (demo_open live)) as [r s'] eqn:E.
  assert (is_ok (on_candle (demo_cfg live) demo_wide (demo_open live)).1 = true) as Hok by (vm_compute; reflexivity).
  rewrite E in Hok.
  pose proof (stop_wins_and_closes (demo_cfg live) demo_wide (demo_open live) demo_position buy (90 @ 0) r s'
    (demo_open_agrees live) ltac:(vm_compute; reflexivity) eq_refl demo_open_entry eq_refl eq_refl eq_refl E) as Hw.
  destruct r as [u|]; [|discriminate]. destruct Hw as (_ & _ & tid & t & _ & Ht & _ & Hr & _). exists u, s', tid, t. exact (conj eq_refl (conj Ht Hr)).
Defined.

(** A partial target is taken once per path segment that touches it: the
    code checks [tp_hit] nowhere, so one replay candle through the target
    sells 1 three times out of a position of 2 and leaves a quantity of -1. *)
Lemma partial_target_refires_within_candle :
  let s := demo_run replay [op_replay [demo_candle 60 100 112 99 111]] (demo_open replay) in
  (active_positions s !! "BTCUSDT" ≫= p_qty) = Some ((-1) @ 0) ∧
  map (fun x => (pe_exec_type x, dcmp (pe_qty x) (1 @ 0))) (filter (fun x => pe_exec_type x = "tp") (paper_executions (tables s)))
    = [("tp", Eq); ("tp", Eq); ("tp", Eq)].
Proof. vm_compute. split; reflexivity. Qed.

(** The PnL a partial target booked is lost by a restart: stopping out the
    rest of the position books -0.6002 with an uninterrupted process and
    -10.3902 after a restart in between. *)
Lemma restart_forgets_partial_pnl :
  let s := demo_run live [op_candle (demo_candle 60 100 112 99 111)] (demo_open live) in
  let s' := (start_consuming (demo_cfg live) (Ok tt) (Ok tt) (set_uuids (uuids s) (initial_state (clock s) (tables s)))).2 in
  let stop_out := demo_run live [op_candle (demo_candle 120 100 101 89 89)] in
  let booked s := sum_paper_trades_realized_pnl "bot" (tables s) in
  booked (stop_out s) = dadd_exact (booked (stop_out s')) (97900 @ (-4)).
Proof. vm_compute. reflexivity. Qed.
End witnesses.
