(* ===== verification/RiskGates.v ===== *)
(** * The pre-scoring risk gates

    Models services/strategy_engine/app/{cooldown_gate, concurrent_caps_gate,
    loss_limit_gate, drawdown_gate, opposite_side_gate, kill_switch_reconcile}.py
    over the reads and the latch writes of packages/db/queries/{trades,
    kill_switch, execution}.py.  Times are microseconds of UTC, so a date is a
    quotient by the length of a day; a gate is one definition in the state and
    exception monad over the tables it reads. *)

From S2P Require Import Prelude Dec Sizing PaperDb PaperInv.
From stdpp Require Import sorting.
From Stdlib Require Import QArith Lqa.
Open Scope Z_scope.

(** ** Time *)
Definition day_us : Z := 86400000000.
Definition minute_us : Z := 60000000.
Definition utc_date (t : Z) : Z := t / day_us.
Definition utc_midnight (t : Z) : Z := utc_date t * day_us.

(** ** Configuration and tables *)
Inductive exchange_mode := em_live | em_testnet | em_paper | em_demo.
Record RiskSection := mkRisk {
  cooldown_after_loss_minutes : Z; cooldown_after_streak_n_losses : Z;
  cooldown_after_streak_n_losses_minutes : Z; max_open_trades_per_bot : Z; max_open_trades_global : Z;
  daily_loss_limit_usd : dec; max_drawdown_pct : dec; block_opposite_side : bool;
}.
(** The [Field(ge=0)] constraints pydantic enforces on load. *)
Definition risk_valid (r : RiskSection) : bool :=
  (0 <=? cooldown_after_loss_minutes r) && (0 <=? cooldown_after_streak_n_losses r) &&
  (0 <=? cooldown_after_streak_n_losses_minutes r) && (0 <=? max_open_trades_per_bot r) &&
  (0 <=? max_open_trades_global r) && dleb dzero (daily_loss_limit_usd r) && dleb dzero (max_drawdown_pct r).

(** The columns of trades / paper_trades the gates read. *)
Record trade_row := mkTradeRow {
  tr_id : Z; tr_bot_id : string; tr_status : trade_status;
  tr_realized_pnl : option dec; tr_closed_at : option Z;
}.
Inductive trip_reason := daily_loss_limit | max_drawdown.
#[global] Instance trip_reason_eq_dec : EqDecision trip_reason. Proof. solve_decision. Defined.
Record KillSwitchState := mkKill {
  ks_tripped : bool; ks_trip_reason : option trip_reason; ks_tripped_at : option Z;
  ks_daily_anchor_date : option Z; ks_cumulative_loss_usd : option dec; ks_updated_at : Z;
}.
Record risk_db := mkRiskDb {
  t_trades : list trade_row; t_paper_trades : list trade_row;
  bot_kill_switch_state : gmap string KillSwitchState;
  position_state : gmap (string * string) side;
}.
Abbreviation RG := (ST risk_db).

Inductive trade_table := tbl_trades | tbl_paper_trades.
Definition trade_table_of (m : exchange_mode) : trade_table :=
  match m with em_paper => tbl_paper_trades | _ => tbl_trades end.
Definition rows_of (t : trade_table) (d : risk_db) : list trade_row :=
  match t with tbl_trades => t_trades d | tbl_paper_trades => t_paper_trades d end.
Definition set_kill (k : gmap string KillSwitchState) (d : risk_db) : risk_db :=
  mkRiskDb (t_trades d) (t_paper_trades d) k (position_state d).

(** ** packages/db/queries/trades.py *)

(** ORDER BY closed_at, id: NULL sorts above every time. *)
Definition at_or_before (a b : trade_row) : bool :=
  match tr_closed_at a, tr_closed_at b with
  | Some x, Some y => (x <? y) || ((x =? y) && (tr_id a <=? tr_id b))
  | Some _, None => true
  | None, Some _ => false
  | None, None => tr_id a <=? tr_id b
  end.
Definition earlier (a b : trade_row) : Prop := at_or_before a b = true.
#[global] Instance earlier_dec : RelDecision earlier.
Proof. intros a b. unfold earlier. apply _. Defined.

(** WHERE bot_id = $1 AND status = 'closed' AND realized_pnl IS NOT NULL. *)
Definition counts_for (bot_id : string) (t : trade_row) : bool :=
  bool_decide (tr_bot_id t = bot_id) && bool_decide (tr_status t = st_closed) &&
  match tr_realized_pnl t with Some _ => true | None => false end.
Definition closed_rows (tbl : trade_table) (bot_id : string) (d : risk_db) : list trade_row :=
  filter (fun t => counts_for bot_id t = true) (rows_of tbl d).
Definition pnl_of (t : trade_row) : dec := default dzero (tr_realized_pnl t).

Definition select_recent_closed_trades (tbl : trade_table) (bot_id : string) (limit : Z) (d : risk_db)
  : list (dec * option Z) :=
  map (fun t => (pnl_of t, tr_closed_at t))
    (take (Z.to_nat limit) (reverse (merge_sort earlier (closed_rows tbl bot_id d)))).

Definition count_open_trades (tbl : trade_table) (bot_id : option string) (d : risk_db) : Z :=
  Z.of_nat (length (filter (fun t => bool_decide (tr_status t = st_open) &&
    match bot_id with Some b => bool_decide (tr_bot_id t = b) | None => true end = true) (rows_of tbl d))).

Definition sum_realized_pnl_since (tbl : trade_table) (bot_id : string) (since : Z) (d : risk_db) : dec :=
  sum_dec (map pnl_of (filter (fun t => match tr_closed_at t with Some c => since <=? c | None => false end = true)
                         (closed_rows tbl bot_id d))).

(** SUM(...) OVER (ORDER BY closed_at, id ROWS UNBOUNDED PRECEDING). *)
Fixpoint running (acc : dec) (l : list dec) : list dec :=
  match l with
  | [] => []
  | x :: l' => let acc' := dadd_exact acc x in acc' :: running acc' l'
  end.
(** COALESCE(MAX(...), 0). *)
Fixpoint max_dec (l : list dec) : option dec :=
  match l with
  | [] => None
  | x :: l' => Some (match max_dec l' with Some m => dmax x m | None => x end)
  end.
Definition select_pnl_peak_and_current (tbl : trade_table) (bot_id : string) (d : risk_db) : dec * dec :=
  let pnls := map pnl_of (merge_sort earlier (closed_rows tbl bot_id d)) in
  (default dzero (max_dec (running dzero pnls)), sum_dec (map pnl_of (closed_rows tbl bot_id d))).

(** ** packages/db/queries/kill_switch.py *)
Definition is_stale_daily_latch (st : KillSwitchState) (now : Z) : bool :=
  if negb (ks_tripped st) then false
  else if negb (bool_decide (ks_trip_reason st = Some daily_loss_limit)) then false
  else match ks_daily_anchor_date st with
       | None => false
       | Some a => a <? utc_date now
       end.

Section gates.
Context `{PgNumeric}.

Definition upsert_kill_switch_trip (bot_id : string) (reason : trip_reason) (tripped_at anchor : Z) (loss : dec)
  : RG unit := fun d =>
  match col 20 4 loss with
  | Ok l => (Ok tt, set_kill (<[bot_id := mkKill true (Some reason) (Some tripped_at) (Some anchor) (Some l) tripped_at]>
                                (bot_kill_switch_state d)) d)
  | Err e => (Err e, d)
  end.
Definition clear_kill_switch (bot_id : string) (updated_at : Z) : RG unit :=
  modify (fun d => set_kill (<[bot_id := mkKill false None None None None updated_at]> (bot_kill_switch_state d)) d).

(** ** cooldown_gate.py *)
Inductive cooldown_reason := cooldown_after_loss | cooldown_after_streak | cooldown_after_loss_and_streak.
Record CooldownDecision := mkCooldown {
  cd_active : bool; cd_reason : option cooldown_reason; cd_until : option Z;
  cd_streak_count : Z; cd_last_loss_at : option Z;
}.
Definition cooldown_inactive : CooldownDecision := mkCooldown false None None 0 None.

Definition compute_limit (r : RiskSection) : Z :=
  let loss_enabled := 0 <? cooldown_after_loss_minutes r in
  let streak_enabled := (0 <? cooldown_after_streak_n_losses r) && (0 <? cooldown_after_streak_n_losses_minutes r) in
  if negb loss_enabled && negb streak_enabled then 0
  else Z.max (if loss_enabled then 1 else 0) (if streak_enabled then cooldown_after_streak_n_losses r else 0).

Fixpoint walk_streak_loop (rows : list (dec * option Z)) (streak : Z) (last : option Z) : Z * option Z :=
  match rows with
  | [] => (streak, last)
  | (pnl, closed_at) :: rows' =>
      if dltb pnl dzero
      then walk_streak_loop rows' (streak + 1) (match last with None => closed_at | Some _ => last end)
      else (streak, last)
  end.
Definition walk_streak (rows : list (dec * option Z)) : Z * option Z := walk_streak_loop rows 0 None.

Definition build_decision (now : Z) (r : RiskSection) (streak_count : Z) (last_loss_at : option Z) : CooldownDecision :=
  match last_loss_at with
  | None => cooldown_inactive
  | Some last =>
      let loss_until :=
        if 0 <? cooldown_after_loss_minutes r then
          let candidate := last + cooldown_after_loss_minutes r * minute_us in
          if now <? candidate then Some candidate else None
        else None in
      let streak_until :=
        if (0 <? cooldown_after_streak_n_losses r) && (0 <? cooldown_after_streak_n_losses_minutes r) &&
           (cooldown_after_streak_n_losses r <=? streak_count) then
          let candidate := last + cooldown_after_streak_n_losses_minutes r * minute_us in
          if now <? candidate then Some candidate else None
        else None in
      match loss_until, streak_until with
      | Some a, Some b => mkCooldown true (Some cooldown_after_loss_and_streak) (Some (Z.max a b)) streak_count last_loss_at
      | Some a, None => mkCooldown true (Some cooldown_after_loss) (Some a) streak_count last_loss_at
      | None, Some b => mkCooldown true (Some cooldown_after_streak) (Some b) streak_count last_loss_at
      | None, None => mkCooldown false None None streak_count last_loss_at
      end
  end.

Definition check_cooldown (bot_id : string) (m : exchange_mode) (now : Z) (r : RiskSection) : RG CooldownDecision :=
  let limit := compute_limit r in
  if limit =? 0 then mret cooldown_inactive
  else
    d ← get_st;
    let '(streak_count, last_loss_at) := walk_streak (select_recent_closed_trades (trade_table_of m) bot_id limit d) in
    mret (build_decision now r streak_count last_loss_at).

(** ** concurrent_caps_gate.py *)
Inductive caps_reason := r_max_open_trades_per_bot | r_max_open_trades_global.
Record CapsDecision := mkCaps {
  cp_blocked : bool; cp_reason : option caps_reason; cp_current_count : option Z; cp_cap_limit : option Z;
}.
Definition caps_not_blocked : CapsDecision := mkCaps false None None None.
Definition check_concurrent_caps (bot_id : string) (m : exchange_mode) (r : RiskSection) : RG CapsDecision :=
  let per_bot_cap := max_open_trades_per_bot r in
  let global_cap := max_open_trades_global r in
  if (per_bot_cap <=? 0) && (global_cap <=? 0) then mret caps_not_blocked
  else
    d ← get_st;
    let per_bot_count := count_open_trades (trade_table_of m) (Some bot_id) d in
    if (0 <? per_bot_cap) && (per_bot_cap <=? per_bot_count)
    then mret (mkCaps true (Some r_max_open_trades_per_bot) (Some per_bot_count) (Some per_bot_cap))
    else
      let global_count := count_open_trades (trade_table_of m) None d in
      if (0 <? global_cap) && (global_cap <=? global_count)
      then mret (mkCaps true (Some r_max_open_trades_global) (Some global_count) (Some global_cap))
      else mret caps_not_blocked.

(** ** loss_limit_gate.py *)
Record LossLimitDecision := mkLoss {
  ll_blocked : bool; ll_reason : option trip_reason; ll_cumulative_loss_usd : option dec; ll_limit_usd : option dec;
}.
Definition loss_not_blocked : LossLimitDecision := mkLoss false None None None.
(** From [since = ...] to the end of the connection block. *)
Definition loss_recompute (bot_id : string) (m : exchange_mode) (now : Z) (limit : dec) : RG LossLimitDecision :=
  d ← get_st;
  let total := sum_realized_pnl_since (trade_table_of m) bot_id (utc_midnight now) d in
  if dleb total (dneg limit)
  then upsert_kill_switch_trip bot_id daily_loss_limit now (utc_date now) total ;;
       mret (mkLoss true (Some daily_loss_limit) (Some total) (Some limit))
  else mret loss_not_blocked.
Definition check_daily_loss_limit (bot_id : string) (m : exchange_mode) (now : Z) (r : RiskSection) : RG LossLimitDecision :=
  let limit := daily_loss_limit_usd r in
  if dleb limit dzero then mret loss_not_blocked
  else
    d ← get_st;
    match bot_kill_switch_state d !! bot_id with
    | Some st =>
        if ks_tripped st then
          if is_stale_daily_latch st now
          then clear_kill_switch bot_id now ;; loss_recompute bot_id m now limit
          else mret (mkLoss true (ks_trip_reason st) (ks_cumulative_loss_usd st) (Some limit))
        else loss_recompute bot_id m now limit
    | None => loss_recompute bot_id m now limit
    end.

(** ** drawdown_gate.py *)
Record DrawdownDecision := mkDrawdown {
  dd_blocked : bool; dd_reason : option trip_reason; dd_drawdown_pct : option dec; dd_limit_pct : option dec;
}.
Definition drawdown_not_blocked : DrawdownDecision := mkDrawdown false None None None.
(** From the peak/current read to the end of the connection block. *)
Definition drawdown_recompute (bot_id : string) (m : exchange_mode) (now : Z) (limit : dec) : RG DrawdownDecision :=
  d ← get_st;
  let '(peak, current) := select_pnl_peak_and_current (trade_table_of m) bot_id d in
  if dleb peak dzero then mret drawdown_not_blocked
  else
    pct ← lift_res (ddiv (dsub peak current) peak);
    if dleb limit pct
    then upsert_kill_switch_trip bot_id max_drawdown now (utc_date now) current ;;
         mret (mkDrawdown true (Some max_drawdown) (Some pct) (Some limit))
    else mret drawdown_not_blocked.
Definition check_max_drawdown (bot_id : string) (m : exchange_mode) (now : Z) (r : RiskSection) : RG DrawdownDecision :=
  let limit := max_drawdown_pct r in
  if dleb limit dzero then mret drawdown_not_blocked
  else
    d ← get_st;
    match bot_kill_switch_state d !! bot_id with
    | Some st =>
        if ks_tripped st then
          if is_stale_daily_latch st now
          then clear_kill_switch bot_id now ;; drawdown_recompute bot_id m now limit
          else mret (mkDrawdown true (ks_trip_reason st) None (Some limit))
        else drawdown_recompute bot_id m now limit
    | None => drawdown_recompute bot_id m now limit
    end.

(** ** opposite_side_gate.py *)
Inductive position_table := tbl_position_state | tbl_paper_position_state.
Definition position_table_of (m : exchange_mode) : position_table :=
  match m with em_paper => tbl_paper_position_state | _ => tbl_position_state end.

(** No migration creates paper_position_state. *)
Definition select_open_position_side (bot_id symbol : string) (t : position_table) : RG (option side) :=
  match t with
  | tbl_position_state => gets (fun d => position_state d !! (bot_id, symbol))
  | tbl_paper_position_state => throw (UndefinedTable "paper_position_state")
  end.

Record OppositeSideDecision := mkOpposite {
  os_active : bool; os_reason : option string; os_open_side : option side; os_signal_side : side;
}.
Definition check_opposite_side (bot_id : string) (m : exchange_mode) (symbol : string) (signal_side : side)
    (r : RiskSection) : RG OppositeSideDecision :=
  if negb (block_opposite_side r) then mret (mkOpposite false None None signal_side)
  else
    open_side ← select_open_position_side bot_id symbol (position_table_of m);
    match open_side with
    | Some o =>
        if negb (bool_decide (o = signal_side))
        then mret (mkOpposite true (Some "opposite_side_open") open_side signal_side)
        else mret (mkOpposite false None open_side signal_side)
    | None => mret (mkOpposite false None open_side signal_side)
    end.

(** ** kill_switch_reconcile.py *)
Definition reconcile_kill_switch_on_startup (bot_id : string) (now : Z) : RG unit :=
  d ← get_st;
  match bot_kill_switch_state d !! bot_id with
  | None => mret tt
  | Some st => if is_stale_daily_latch st now then clear_kill_switch bot_id now else mret tt
  end.
End gates.

(** ** Cooldown: the LIMIT loses nothing *)
Definition is_loss (p : dec * option Z) : bool := dltb p.1 dzero.
Fixpoint loss_prefix (rows : list (dec * option Z)) : list (dec * option Z) :=
  match rows with
  | r :: rows' => if is_loss r then r :: loss_prefix rows' else []
  | [] => []
  end.

Lemma walk_streak_loop_spec rows n last :
  walk_streak_loop rows n last =
  (n + Z.of_nat (length (loss_prefix rows)),
   fold_left (fun l r => match l with None => r.2 | Some _ => l end) (loss_prefix rows) last).
Proof.
  revert n last. induction rows as [|[pnl c] rows IH]; intros n last; cbn [walk_streak_loop loss_prefix].
  { cbn. f_equal. lia. }
  unfold is_loss at 1 2. cbn [fst]. destruct (dltb pnl dzero); [|cbn; f_equal; lia].
  rewrite IH. cbn [length fold_left snd]. f_equal. lia.
Qed.

Lemma loss_prefix_take k rows : loss_prefix (take k rows) = take k (loss_prefix rows).
Proof.
  revert k. induction rows as [|r rows IH]; intros [|k]; cbn; [done..|]. destruct (is_loss r); [|done]. by rewrite IH.
Qed.

(** The first time of a list of closed rows. *)
Lemma first_time_take k (l : list (dec * option Z)) :
  (0 < k)%nat → Forall (fun r => is_Some r.2) l →
  fold_left (fun o r => match o with None => r.2 | Some _ => o end) (take k l) None =
  fold_left (fun o r => match o with None => r.2 | Some _ => o end) l None.
Proof.
  assert (∀ (l : list (dec * option Z)) t, fold_left (fun o r => match o with None => r.2 | Some _ => o end) l (Some t) = Some t) as Hs.
  { intros l'. induction l'; intros; cbn; auto. }
  intros Hk. destruct k; [lia|]. destruct 1 as [|[p c] l [t Ht]]; [done|]. cbn in *. subst c. by rewrite !Hs.
Qed.

(** Reading only [_compute_limit] rows gives the verdict, reason and expiry
    that reading every closed trade of the bot would give, for a configuration
    that loads and closed trades that carry their closing time. *)
Lemma cooldown_limit_suffices now r rows :
  risk_valid r = true → Forall (fun x => is_Some x.2) rows → compute_limit r ≠ 0 →
  let verdict rs := let '(n, last) := walk_streak rs in build_decision now r n last in
  cd_active (verdict (take (Z.to_nat (compute_limit r)) rows)) = cd_active (verdict rows) ∧
  cd_reason (verdict (take (Z.to_nat (compute_limit r)) rows)) = cd_reason (verdict rows) ∧
  cd_until (verdict (take (Z.to_nat (compute_limit r)) rows)) = cd_until (verdict rows).
Proof.
  intros Hv Ht Hl. unfold risk_valid in Hv. bool_simpl. cbv zeta. unfold walk_streak. rewrite !walk_streak_loop_spec, loss_prefix_take.
  assert (Forall (fun x => is_Some x.2) (loss_prefix rows)) as Hp.
  { clear -Ht. induction Ht as [|x rows Hx _ IH]; cbn; [constructor|]. destruct (is_loss x); constructor; done. }
  assert (0 < compute_limit r) as Hpos.
  { revert Hl. unfold compute_limit. destruct (0 <? cooldown_after_loss_minutes r) eqn:E1;
      destruct ((0 <? cooldown_after_streak_n_losses r) && _) eqn:E2; cbn; bool_simpl; lia. }
  rewrite first_time_take by (done || lia). set (last := fold_left _ _ _). rewrite length_take.
  unfold build_decision. destruct last as [t|]; [|done].
  assert ((0 <? cooldown_after_streak_n_losses r) && (0 <? cooldown_after_streak_n_losses_minutes r) = true →
          cooldown_after_streak_n_losses r <= compute_limit r) as Hle.
  { intros E. unfold compute_limit. rewrite E. destruct (0 <? cooldown_after_loss_minutes r); cbn; lia. }
  destruct ((0 <? cooldown_after_streak_n_losses r) && (0 <? cooldown_after_streak_n_losses_minutes r)) eqn:E; cbn [andb].
  - specialize (Hle eq_refl).
    replace (cooldown_after_streak_n_losses r <=? 0 + Z.of_nat (Z.to_nat (compute_limit r) `min` length (loss_prefix rows)))
      with (cooldown_after_streak_n_losses r <=? 0 + Z.of_nat (length (loss_prefix rows)))
      by (apply eq_true_iff_eq; rewrite !Z.leb_le; lia).
    cbv zeta. repeat match goal with |- context [if ?b then _ else _] => destruct b end; done.
  - cbv zeta. repeat match goal with |- context [if ?b then _ else _] => destruct b end; done.
Qed.

Lemma build_decision_active now r n t :
  cd_active (build_decision now r n (Some t)) =
  (0 <? cooldown_after_loss_minutes r) && (now <? t + cooldown_after_loss_minutes r * minute_us) ||
  (0 <? cooldown_after_streak_n_losses r) && (0 <? cooldown_after_streak_n_losses_minutes r) &&
  (cooldown_after_streak_n_losses r <=? n) && (now <? t + cooldown_after_streak_n_losses_minutes r * minute_us).
Proof.
  unfold build_decision. cbv zeta.
  destruct (0 <? cooldown_after_loss_minutes r), (now <? t + cooldown_after_loss_minutes r * minute_us),
    ((0 <? cooldown_after_streak_n_losses r) && (0 <? cooldown_after_streak_n_losses_minutes r) && _),
    (now <? t + cooldown_after_streak_n_losses_minutes r * minute_us); done.
Qed.

(** The cooldown gate blocks exactly while the newest closed trade is a
    loss younger than the loss cooldown, or ends a streak of at least N losses
    younger than the streak cooldown. *)
Lemma cooldown_active_iff now r rows :
  Forall (fun x => is_Some x.2) rows →
  cd_active (let '(n, last) := walk_streak rows in build_decision now r n last) = true ↔
  ∃ pnl t rest, rows = (pnl, Some t) :: rest ∧ (dval pnl < 0)%Q ∧
    ((0 < cooldown_after_loss_minutes r ∧ now < t + cooldown_after_loss_minutes r * minute_us) ∨
     (0 < cooldown_after_streak_n_losses r ∧ 0 < cooldown_after_streak_n_losses_minutes r ∧
      cooldown_after_streak_n_losses r <= Z.of_nat (length (loss_prefix rows)) ∧
      now < t + cooldown_after_streak_n_losses_minutes r * minute_us)).
Proof.
  intros Ht. unfold walk_streak. rewrite walk_streak_loop_spec.
  destruct rows as [|[pnl c] rest]; [cbn; split; [discriminate|intros (? & ? & ? & [=] & _)]|].
  apply Forall_cons in Ht as [[t Hc] Ht]. cbn in Hc. subst c.
  change (loss_prefix ((pnl, Some t) :: rest)) with (if dltb pnl dzero then (pnl, Some t) :: loss_prefix rest else []).
  destruct (dltb pnl dzero) eqn:Hl; [apply dltb_spec in Hl|apply dltb_false in Hl].
  2: { split; [cbn; discriminate|]. intros (? & ? & ? & [= <- <- <-] & Hneg & _). rewrite dval_zero in Hl. lra. }
  assert (∀ (l : list (dec * option Z)) t, fold_left (fun o x => match o with None => x.2 | Some _ => o end) l (Some t) = Some t) as Hs.
  { intros l'. induction l'; intros; cbn; auto. }
  cbn [fold_left snd]. rewrite Hs. set (n := length _). rewrite build_decision_active.
  rewrite dval_zero in Hl.
  rewrite orb_true_iff, !andb_true_iff, !Z.ltb_lt, Z.leb_le, Z.add_0_l. split.
  - intros E. exists pnl, t, rest. tauto.
  - intros (? & ? & ? & [= <- <- <-] & _ & Hcase). tauto.
Qed.

(** ** The latch over time *)
Section latch.
Context `{PgNumeric}.

(** What can happen to the tables: a gate or the startup reconcile runs for
    some bot with some configuration at a time up to [horizon], returning or
    raising, and anybody else changes trades and positions. *)
Inductive risk_step (horizon : Z) : risk_db → risk_db → Prop :=
| step_loss b m now r x d d' : utc_date now <= horizon →
    check_daily_loss_limit b m now r d = (x, d') → risk_step horizon d d'
| step_drawdown b m now r x d d' : utc_date now <= horizon →
    check_max_drawdown b m now r d = (x, d') → risk_step horizon d d'
| step_reconcile b now x d d' : utc_date now <= horizon →
    reconcile_kill_switch_on_startup b now d = (x, d') → risk_step horizon d d'
| step_trading ts ps pos d : risk_step horizon d (mkRiskDb ts ps (bot_kill_switch_state d) pos).

(** A latch no gate running up to day [horizon] may clear. *)
Definition locked (horizon : Z) (st : KillSwitchState) : Prop :=
  ks_tripped st = true ∧
  (ks_trip_reason st = Some max_drawdown ∨
   ∃ a, ks_trip_reason st = Some daily_loss_limit ∧ ks_daily_anchor_date st = Some a ∧ horizon <= a).
Definition latched (b : string) (st : KillSwitchState) (d : risk_db) : Prop := bot_kill_switch_state d !! b = Some st.

Lemma locked_not_stale horizon st now : locked horizon st → utc_date now <= horizon → is_stale_daily_latch st now = false.
Proof.
  intros [Ht Hr] Hn. unfold is_stale_daily_latch. rewrite Ht. cbn.
  destruct Hr as [->|(a & -> & -> & Ha)]; [done|]. cbn. apply Z.ltb_ge. lia.
Qed.

Lemma upsert_other b b' st reason t a l :
  b ≠ b' → preserves (latched b st) (upsert_kill_switch_trip b' reason t a l).
Proof.
  intros Hne d r d' Hd E. unfold upsert_kill_switch_trip in E. destruct (col 20 4 l); injection E as <- <-; [|done].
  unfold latched. cbn. by rewrite lookup_insert_ne.
Qed.
Lemma clear_other b b' st t : b ≠ b' → preserves (latched b st) (clear_kill_switch b' t).
Proof. intros Hne. apply preserves_modify. intros d Hd. unfold latched. cbn. by rewrite lookup_insert_ne. Qed.
#[local] Hint Resolve upsert_other clear_other : scalper.

(** The shape both latch gates share. *)
Lemma latch_gate_keeps {A} horizon b st b' now (recompute : RG A) (verdict : KillSwitchState → A) :
  locked horizon st → utc_date now <= horizon → (b ≠ b' → preserves (latched b st) recompute) →
  preserves (latched b st)
    (d ← get_st;
     match bot_kill_switch_state d !! b' with
     | Some st =>
         if ks_tripped st then
           if is_stale_daily_latch st now then clear_kill_switch b' now ;; recompute else mret (verdict st)
         else recompute
     | None => recompute
     end).
Proof.
  intros Hl Hn Hre. apply preserves_get. intros d x d' Hd E. destruct (decide (b = b')) as [<-|Hne].
  - unfold latched in Hd. rewrite Hd, (proj1 Hl), (locked_not_stale _ _ _ Hl Hn) in E. injection E as <- <-. exact Hd.
  - specialize (Hre Hne). revert Hd E.
    destruct (bot_kill_switch_state d !! b') as [st'|]; [|apply Hre]. destruct (ks_tripped st'); [|apply Hre].
    destruct (is_stale_daily_latch st' now); [|by intros ? [= <- <-]].
    apply preserves_bind; [by apply clear_other|done].
Qed.

Lemma loss_gate_keeps horizon b st b' m now r :
  locked horizon st → utc_date now <= horizon → preserves (latched b st) (check_daily_loss_limit b' m now r).
Proof.
  intros Hl Hn. unfold check_daily_loss_limit. destruct (dleb _ _); [auto with scalper|].
  eapply (latch_gate_keeps horizon b st b' now _
            (fun st => mkLoss true (ks_trip_reason st) (ks_cumulative_loss_usd st) (Some (daily_loss_limit_usd r)))); [done..|].
  intros Hne. unfold loss_recompute. apply preserves_bind; [auto with scalper|intros d]. cbv zeta. case_match; preserve.
Qed.

Lemma drawdown_gate_keeps horizon b st b' m now r :
  locked horizon st → utc_date now <= horizon → preserves (latched b st) (check_max_drawdown b' m now r).
Proof.
  intros Hl Hn. unfold check_max_drawdown. destruct (dleb _ _); [auto with scalper|].
  eapply (latch_gate_keeps horizon b st b' now _
            (fun st => mkDrawdown true (ks_trip_reason st) None (Some (max_drawdown_pct r)))); [done..|].
  intros Hne. unfold drawdown_recompute. apply preserves_bind; [auto with scalper|intros d]. destruct (select_pnl_peak_and_current _ _ _) as [p c].
  destruct (dleb p _); [auto with scalper|]. apply preserves_bind; [auto with scalper|intros pct]. destruct (dleb _ _); preserve.
Qed.

Lemma reconcile_keeps horizon b st b' now :
  locked horizon st → utc_date now <= horizon → preserves (latched b st) (reconcile_kill_switch_on_startup b' now).
Proof.
  intros Hl Hn. apply preserves_get. intros d x d' Hd E. destruct (decide (b = b')) as [<-|Hne].
  - unfold latched in Hd. rewrite Hd, (locked_not_stale _ _ _ Hl Hn) in E. injection E as <- <-. exact Hd.
  - revert Hd E. destruct (bot_kill_switch_state d !! b') as [st'|]; [|by intros ? [= <- <-]].
    destruct (is_stale_daily_latch st' now); [by apply clear_other|by intros ? [= <- <-]].
Qed.

Lemma risk_steps_keep horizon b st d d' :
  locked horizon st → rtc (risk_step horizon) d d' → latched b st d → latched b st d'.
Proof.
  intros Hl. induction 1 as [|d d1 d2 Hstep _ IH]; [done|]. intros Hd. apply IH. clear IH.
  destruct Hstep; [eapply loss_gate_keeps|eapply drawdown_gate_keeps|eapply reconcile_keeps|]; eauto.
Qed.

Lemma latched_blocks b st d m now r :
  latched b st d → ks_tripped st = true → is_stale_daily_latch st now = false →
  (0 < coef (daily_loss_limit_usd r) → ∃ x, check_daily_loss_limit b m now r d = (Ok x, d) ∧ ll_blocked x = true ∧ ll_reason x = ks_trip_reason st) ∧
  (0 < coef (max_drawdown_pct r) → ∃ x, check_max_drawdown b m now r d = (Ok x, d) ∧ dd_blocked x = true ∧ dd_reason x = ks_trip_reason st).
Proof.
  intros Hd Ht Hs. unfold latched in Hd. split; intros Hpos; unfold check_daily_loss_limit, check_max_drawdown;
    destruct (dleb _ dzero) eqn:E; try (apply dleb_zero_r in E; lia);
    unfold mbind, st_bind, get_st; rewrite Hd, Ht, Hs; eexists; split; [reflexivity|done|reflexivity|done].
Qed.

(** C8: a max-drawdown latch is a hard stop: no sequence of gate runs, startup
    reconciles and trades, over any number of days, clears or rewrites it, and
    at every later time both kill-switch gates block the bot when enabled. *)
Theorem max_drawdown_is_hard_stop b st d d' m now r :
  latched b st d → ks_tripped st = true → ks_trip_reason st = Some max_drawdown →
  (∃ horizon, rtc (risk_step horizon) d d') →
  latched b st d' ∧
  (0 < coef (daily_loss_limit_usd r) → ∃ x, check_daily_loss_limit b m now r d' = (Ok x, d') ∧ ll_blocked x = true ∧ ll_reason x = Some max_drawdown) ∧
  (0 < coef (max_drawdown_pct r) → ∃ x, check_max_drawdown b m now r d' = (Ok x, d') ∧ dd_blocked x = true ∧ dd_reason x = Some max_drawdown).
Proof.
  intros Hd Ht Hr [horizon Hs]. assert (latched b st d') as Hd' by (eapply risk_steps_keep; [|done|done]; split; auto).
  split; [done|]. rewrite <- Hr. apply latched_blocks; [done..|]. unfold is_stale_daily_latch. by rewrite Ht, Hr.
Qed.

(** A daily-loss latch survives everything until its UTC day is over, wins
    and restarts included, and both gates block on it that day. *)
Lemma daily_latch_sticky_within_day b st a d d' m now r :
  latched b st d → ks_tripped st = true → ks_trip_reason st = Some daily_loss_limit →
  ks_daily_anchor_date st = Some a → rtc (risk_step a) d d' → utc_date now <= a →
  latched b st d' ∧
  (0 < coef (daily_loss_limit_usd r) → ∃ x, check_daily_loss_limit b m now r d' = (Ok x, d') ∧ ll_blocked x = true ∧ ll_reason x = Some daily_loss_limit) ∧
  (0 < coef (max_drawdown_pct r) → ∃ x, check_max_drawdown b m now r d' = (Ok x, d') ∧ dd_blocked x = true ∧ dd_reason x = Some daily_loss_limit).
Proof.
  intros Hd Ht Hr Ha Hs Hn. assert (locked a st) as Hl by (split; [done|right; exists a; split; [done|]; split; [done|lia]]).
  assert (latched b st d') as Hd' by (by eapply risk_steps_keep). split; [done|]. rewrite <- Hr.
  apply latched_blocks; [done..|]. by eapply locked_not_stale.
Qed.
End latch.

(** ** Fresh verdicts *)
Section verdicts.
Context `{PgNumeric}.

(** No latch that blocks at [now]. *)
Definition no_live_latch (b : string) (now : Z) (d : risk_db) : Prop :=
  ∀ st, bot_kill_switch_state d !! b = Some st → ks_tripped st = true → is_stale_daily_latch st now = true.
Definition not_tripped (b : string) (d : risk_db) : Prop :=
  ∀ st, bot_kill_switch_state d !! b = Some st → ks_tripped st = false.

(** A gate's recompute runs over the tables, with a stale latch cleared. *)
Lemma latch_gate_recomputes {A} b now (recompute : RG A) (verdict : KillSwitchState → A) d :
  no_live_latch b now d →
  ∃ d1, t_trades d1 = t_trades d ∧ t_paper_trades d1 = t_paper_trades d ∧ not_tripped b d1 ∧
    (d ← get_st;
     match bot_kill_switch_state d !! b with
     | Some st =>
         if ks_tripped st then
           if is_stale_daily_latch st now then clear_kill_switch b now ;; recompute else mret (verdict st)
         else recompute
     | None => recompute
     end) d = recompute d1.
Proof.
  intros Hn. unfold not_tripped, mbind, st_bind, get_st. destruct (bot_kill_switch_state d !! b) as [st|] eqn:Hst.
  2: { exists d. split_and!; [done..| |done]. intros st'. by rewrite Hst. }
  destruct (ks_tripped st) eqn:Ht.
  2: { exists d. split_and!; [done..| |done]. intros st'. rewrite Hst. by intros [= <-]. }
  rewrite (Hn _ Hst Ht). eexists. split_and!; [..|reflexivity]; [done..|].
  intros st'. cbn. rewrite lookup_insert_eq. by intros [= <-].
Qed.

Lemma rows_of_eq t d d' : t_trades d' = t_trades d → t_paper_trades d' = t_paper_trades d → rows_of t d' = rows_of t d.
Proof. by destruct t. Qed.
Lemma closed_rows_eq t b d d' :
  t_trades d' = t_trades d → t_paper_trades d' = t_paper_trades d → closed_rows t b d' = closed_rows t b d.
Proof. intros E1 E2. unfold closed_rows. by rewrite (rows_of_eq t d d'). Qed.

(** Without a live latch the daily-loss gate blocks exactly when today's
    realised PnL has reached minus the limit, and then latches the bot with
    today's UTC date and that PnL; otherwise it leaves no tripped latch. *)
Lemma daily_loss_trips_at_limit b m now r d x d' :
  0 < coef (daily_loss_limit_usd r) < 10 ^ prec → no_live_latch b now d →
  let total := sum_realized_pnl_since (trade_table_of m) b (utc_midnight now) d in
  check_daily_loss_limit b m now r d = (x, d') →
  if dleb total (dneg (daily_loss_limit_usd r))
  then (dval total <= - dval (daily_loss_limit_usd r))%Q ∧
       match col 20 4 total with
       | Ok l => x = Ok (mkLoss true (Some daily_loss_limit) (Some total) (Some (daily_loss_limit_usd r))) ∧
           latched b (mkKill true (Some daily_loss_limit) (Some now) (Some (utc_date now)) (Some l) now) d'
       | Err e => x = Err e ∧ not_tripped b d'
       end
  else (- dval (daily_loss_limit_usd r) < dval total)%Q ∧ x = Ok loss_not_blocked ∧ not_tripped b d'.
Proof.
  intros [Hl0 Hl1] Hn total E. unfold check_daily_loss_limit in E.
  destruct (dleb (daily_loss_limit_usd r) dzero) eqn:Hz; [apply dleb_zero_r in Hz; lia|].
  destruct (latch_gate_recomputes b now (loss_recompute b m now (daily_loss_limit_usd r))
    (fun st => mkLoss true (ks_trip_reason st) (ks_cumulative_loss_usd st) (Some (daily_loss_limit_usd r))) d Hn)
    as (d1 & E1 & E2 & Hnt & Heq).
  rewrite Heq in E. clear Heq. unfold loss_recompute in E. apply st_bind_cases in E as [(d2 & d3 & [= <- <-] & E)|(e & [=] & _)].
  assert (sum_realized_pnl_since (trade_table_of m) b (utc_midnight now) d1 = total) as Ht
    by (unfold total, sum_realized_pnl_since; by rewrite (closed_rows_eq _ b d d1)).
  rewrite Ht in E. pose proof (dneg_value (daily_loss_limit_usd r) ltac:(lia)) as Hneg.
  destruct (dleb total (dneg (daily_loss_limit_usd r))) eqn:Hle.
  - apply dleb_spec in Hle. rewrite Hneg in Hle. split; [done|].
    unfold upsert_kill_switch_trip, mbind, st_bind in E. destruct (col 20 4 total); cbn in E; injection E as <- <-; [|done].
    split; [done|]. unfold latched. cbn. by rewrite lookup_insert_eq.
  - apply dleb_false in Hle. rewrite Hneg in Hle. injection E as <- <-. done.
Qed.

(** ** Peak and current *)
Definition prefix_sum (l : list dec) (k : nat) : dec := fold_left dadd_exact (take k l) dzero.

Lemma elem_of_running acc l x :
  x ∈ running acc l ↔ ∃ k, (0 < k <= length l)%nat ∧ x = fold_left dadd_exact (take k l) acc.
Proof.
  revert acc. induction l as [|y l IH]; intros acc; cbn [running].
  - split; [set_solver|]. intros (k & Hk & _). cbn in Hk. lia.
  - rewrite elem_of_cons, IH. split.
    + intros [->|(k & Hk & ->)]; [exists 1%nat; cbn; split; [lia|by rewrite take_0]|exists (S k); cbn; split; [lia|done]].
    + intros ([|k] & Hk & ->); [lia|]. cbn in *. destruct k; [left; by rewrite take_0|right; exists (S k); split; [lia|done]].
Qed.

Lemma max_dec_spec l m :
  max_dec l = Some m → (∃ x, x ∈ l ∧ m = x) ∧ ∀ x, x ∈ l → (dval x <= dval m)%Q.
Proof.
  revert m. induction l as [|y l IH]; intros m; cbn; [discriminate|]. intros [= <-].
  destruct (max_dec l) as [m'|] eqn:E.
  - destruct (IH m' eq_refl) as [(x & Hx & ->) Hall]. unfold dmax. destruct (dltb y x) eqn:Hl.
    + apply dltb_spec in Hl. split; [set_solver|]. intros z [->|Hz]%elem_of_cons; [lra|by apply Hall].
    + apply dltb_false in Hl. split; [set_solver|]. intros z [->|Hz]%elem_of_cons; [lra|]. apply Hall in Hz. lra.
  - split; [set_solver|]. intros z [->|Hz]%elem_of_cons; [lra|]. destruct l; [set_solver|discriminate].
Qed.

Lemma fold_left_sum l acc : (dval (fold_left dadd_exact l acc) == dval acc + dval (sum_dec l))%Q.
Proof.
  revert acc. induction l as [|x l IH]; intros acc.
  - cbn [fold_left]. change (sum_dec []) with dzero. rewrite dval_zero. ring.
  - cbn [fold_left]. rewrite IH. change (sum_dec (x :: l)) with (dadd_exact x (sum_dec l)). rewrite !dadd_exact_value. ring.
Qed.

(** The peak the drawdown gate reads is the high-water mark of the bot's
    cumulative realised PnL in closing order (0 with no closed trade), the
    current value is its last point, and so never above the peak. *)
Lemma peak_is_high_water_mark tbl b d :
  let pnls := map pnl_of (merge_sort earlier (closed_rows tbl b d)) in
  let '(peak, current) := select_pnl_peak_and_current tbl b d in
  (∀ k, (0 < k <= length pnls)%nat → (dval (prefix_sum pnls k) <= dval peak)%Q) ∧
  (dval current == dval (prefix_sum pnls (length pnls)))%Q ∧
  if decide (pnls = []) then peak = dzero
  else (∃ k, (0 < k <= length pnls)%nat ∧ peak = prefix_sum pnls k) ∧ (dval current <= dval peak)%Q.
Proof.
  cbv zeta. unfold select_pnl_peak_and_current. set (pnls := map pnl_of (merge_sort earlier _)).
  assert (dval (sum_dec (map pnl_of (closed_rows tbl b d))) == dval (prefix_sum pnls (length pnls)))%Q as Hcur.
  { unfold prefix_sum. rewrite take_ge, fold_left_sum by lia. rewrite dval_zero, Qplus_0_l.
    apply sum_dec_perm. unfold pnls. by rewrite merge_sort_Permutation. }
  assert (∀ k, (0 < k <= length pnls)%nat → prefix_sum pnls k ∈ running dzero pnls) as Hin.
  { intros k Hk. apply elem_of_running. eauto. }
  destruct (max_dec (running dzero pnls)) as [m|] eqn:Hm; cbn [default].
  - apply max_dec_spec in Hm as [(x & Hx & ->) Hall]. cbn.
    split; [intros k Hk; by apply Hall, Hin|]. split; [done|].
    apply elem_of_running in Hx as (k & Hk & ->). case_decide as Hnil; [rewrite Hnil in Hk; cbn in Hk; lia|].
    split; [by exists k|]. rewrite Hcur. apply Hall, Hin. lia.
  - destruct pnls as [|y l] eqn:Hp; [|discriminate]. cbn. split; [intros; lia|]. split; [done|done].
Qed.

(** Without a live latch the drawdown gate always reaches a verdict: it
    never divides by zero, never blocks a bot whose peak is not positive, and
    blocks exactly when the give-back ratio has reached the limit, latching
    the bot for good. *)
Lemma drawdown_trips_at_limit b m now r d x d' :
  0 < coef (max_drawdown_pct r) → no_live_latch b now d →
  let '(peak, current) := select_pnl_peak_and_current (trade_table_of m) b d in
  check_max_drawdown b m now r d = (x, d') →
  if dleb peak dzero then x = Ok drawdown_not_blocked ∧ not_tripped b d'
  else ∃ pct, ddiv (dsub peak current) peak = Ok pct ∧
    if dleb (max_drawdown_pct r) pct
    then match col 20 4 current with
         | Ok l => x = Ok (mkDrawdown true (Some max_drawdown) (Some pct) (Some (max_drawdown_pct r))) ∧
             latched b (mkKill true (Some max_drawdown) (Some now) (Some (utc_date now)) (Some l) now) d'
         | Err e => x = Err e ∧ not_tripped b d'
         end
    else x = Ok drawdown_not_blocked ∧ not_tripped b d'.
Proof.
  intros Hl Hn. destruct (select_pnl_peak_and_current _ _ d) as [peak current] eqn:Hpc. intros E.
  unfold check_max_drawdown in E. destruct (dleb (max_drawdown_pct r) dzero) eqn:Hz; [apply dleb_zero_r in Hz; lia|].
  destruct (latch_gate_recomputes b now (drawdown_recompute b m now (max_drawdown_pct r))
    (fun st => mkDrawdown true (ks_trip_reason st) None (Some (max_drawdown_pct r))) d Hn) as (d1 & E1 & E2 & Hnt & Heq).
  rewrite Heq in E. clear Heq. unfold drawdown_recompute in E. apply st_bind_cases in E as [(d2 & d3 & [= <- <-] & E)|(e & [=] & _)].
  assert (select_pnl_peak_and_current (trade_table_of m) b d1 = (peak, current)) as Hpc1.
  { rewrite <- Hpc. unfold select_pnl_peak_and_current. by rewrite (closed_rows_eq _ b d d1). }
  rewrite Hpc1 in E. destruct (dleb peak dzero) eqn:Hp; [by injection E as <- <-|].
  assert (coef peak ≠ 0) as Hp0 by (intros H0; assert (dleb peak dzero = true) by (apply dleb_zero_r; lia); congruence).
  destruct (ddiv_ok (dsub peak current) peak Hp0) as [pct Hpct]. exists pct. split; [done|].
  rewrite Hpct in E. unfold mbind, st_bind, lift_res in E. destruct (dleb (max_drawdown_pct r) pct); [|by injection E as <- <-].
  unfold upsert_kill_switch_trip in E. destruct (col 20 4 current); cbn in E; injection E as <- <-; [|done].
  split; [done|]. unfold latched. cbn. by rewrite lookup_insert_eq.
Qed.

(** ** Caps *)

(** The caps gate lets a signal through exactly when every enabled cap
    still has room, so the trade it may open never exceeds a cap; it never
    raises, changes nothing, and reports the per-bot cap first. *)
Lemma caps_gate_has_room b m r d :
  ∃ x, check_concurrent_caps b m r d = (Ok x, d) ∧
    (cp_blocked x = false ↔
       (0 < max_open_trades_per_bot r → count_open_trades (trade_table_of m) (Some b) d < max_open_trades_per_bot r) ∧
       (0 < max_open_trades_global r → count_open_trades (trade_table_of m) None d < max_open_trades_global r)) ∧
    (cp_reason x = Some r_max_open_trades_global →
       0 < max_open_trades_per_bot r → count_open_trades (trade_table_of m) (Some b) d < max_open_trades_per_bot r).
Proof.
  unfold check_concurrent_caps, mbind, st_bind, get_st.
  set (nb := count_open_trades _ (Some b) d). set (ng := count_open_trades _ None d).
  destruct ((_ <=? 0) && (_ <=? 0)) eqn:E0; [bool_simpl; eexists; split; [reflexivity|]; cbn; split; [split; lia|discriminate]|].
  destruct ((0 <? max_open_trades_per_bot r) && _) eqn:E1.
  { bool_simpl. eexists. split; [reflexivity|]. cbn. split; [|discriminate]. split; [discriminate|]. intros [Hb _]. lia. }
  destruct ((0 <? max_open_trades_global r) && _) eqn:E2.
  all: eexists; (split; [reflexivity|]); cbn; apply andb_false_iff in E1; rewrite Z.ltb_ge, Z.leb_gt in E1.
  - bool_simpl. split; [split; [discriminate|]; intros [_ Hg]; lia | lia].
  - apply andb_false_iff in E2. rewrite Z.ltb_ge, Z.leb_gt in E2. split; [split; [lia|done]|discriminate].
Qed.

(** ** Opposite side *)

(** Outside paper mode the opposite-side gate blocks exactly when the bot
    holds the other side of the symbol; in paper mode with the guard at its
    default it raises on every signal, because the table it reads is created
    by no migration. *)
Lemma opposite_side_verdict b m sym sd r d :
  (m ≠ em_paper → ∃ x, check_opposite_side b m sym sd r d = (Ok x, d) ∧
     (os_active x = true ↔ block_opposite_side r = true ∧ ∃ o, position_state d !! (b, sym) = Some o ∧ o ≠ sd)) ∧
  (m = em_paper → block_opposite_side r = true →
     check_opposite_side b m sym sd r d = (Err (UndefinedTable "paper_position_state"), d)).
Proof.
  unfold check_opposite_side. split.
  - intros Hm. destruct (block_opposite_side r); cbn [negb].
    2: { eexists. split; [reflexivity|]. cbn. split; [discriminate|intros [[=] _]]. }
    replace (position_table_of m) with tbl_position_state by (by destruct m). cbn.
    unfold mbind, st_bind, gets. destruct (position_state d !! (b, sym)) as [o|].
    + case_bool_decide as Ho; cbn; (eexists; split; [reflexivity|]); cbn; split; [discriminate| |eauto|done].
      by intros (_ & ? & [= <-] & ?).
    + eexists. split; [reflexivity|]. cbn. split; [discriminate|intros (_ & ? & [=] & _)].
  - intros -> ->. reflexivity.
Qed.

(** ** What a passed gate says of the tables

    The state of the tables in which a bot may open a position, written
    without the gates' verdicts. *)
Definition newest_first (m : exchange_mode) (b : string) (d : risk_db) : list trade_row :=
  reverse (merge_sort earlier (closed_rows (trade_table_of m) b d)).
Definition lost (t : trade_row) : Prop := (dval (pnl_of t) < 0)%Q.

(** When the newest closed trade is a loss, its cooldown is over, and so is
    the one of the streak it ends. *)
Definition cooled_down (b : string) (m : exchange_mode) (now : Z) (r : RiskSection) (d : risk_db) : Prop :=
  ∀ t rest c, newest_first m b d = t :: rest → tr_closed_at t = Some c → lost t →
    (0 < cooldown_after_loss_minutes r → c + cooldown_after_loss_minutes r * minute_us <= now) ∧
    (0 < cooldown_after_streak_n_losses r <= Z.of_nat (length (t :: rest)) →
     0 < cooldown_after_streak_n_losses_minutes r →
     Forall lost (take (Z.to_nat (cooldown_after_streak_n_losses r)) (t :: rest)) →
     c + cooldown_after_streak_n_losses_minutes r * minute_us <= now).

Record clear_to_open (b : string) (m : exchange_mode) (sym : string) (sd : side) (now : Z) (r : RiskSection) (d : risk_db) : Prop := {
  co_side : block_opposite_side r = true → m ≠ em_paper ∧ ∀ o, position_state d !! (b, sym) = Some o → o = sd;
  co_cooldown : cooled_down b m now r d;
  co_cap_bot : 0 < max_open_trades_per_bot r → count_open_trades (trade_table_of m) (Some b) d < max_open_trades_per_bot r;
  co_cap_all : 0 < max_open_trades_global r → count_open_trades (trade_table_of m) None d < max_open_trades_global r;
  co_latch : 0 < coef (daily_loss_limit_usd r) ∨ 0 < coef (max_drawdown_pct r) →
    ∀ st, bot_kill_switch_state d !! b = Some st → ks_tripped st = true →
      ks_trip_reason st = Some daily_loss_limit ∧ ∃ a, ks_daily_anchor_date st = Some a ∧ a < utc_date now;
  co_daily_loss : 0 < coef (daily_loss_limit_usd r) < 10 ^ prec →
    (- dval (daily_loss_limit_usd r) < dval (sum_realized_pnl_since (trade_table_of m) b (utc_midnight now) d))%Q;
  co_drawdown : 0 < coef (max_drawdown_pct r) →
    let '(peak, current) := select_pnl_peak_and_current (trade_table_of m) b d in
    (dval peak <= 0)%Q ∨ ∃ pct, ddiv (dsub peak current) peak = Ok pct ∧ (dval pct < dval (max_drawdown_pct r))%Q;
}.

Lemma stale_latch_iff st now :
  ks_tripped st = true →
  is_stale_daily_latch st now = true ↔
  ks_trip_reason st = Some daily_loss_limit ∧ ∃ a, ks_daily_anchor_date st = Some a ∧ a < utc_date now.
Proof.
  intros Ht. unfold is_stale_daily_latch. rewrite Ht. cbn [negb]. case_bool_decide as Hr; cbn [negb].
  2: { split; [discriminate|by intros [? _]]. }
  destruct (ks_daily_anchor_date st) as [a|]; [rewrite Z.ltb_lt|]; split; try discriminate; eauto.
  - by intros (_ & ? & [= <-] & ?).
  - by intros (_ & ? & [=] & _).
Qed.

Lemma loss_prefix_covers n rows :
  (n <= length rows)%nat → Forall (fun x => is_loss x = true) (take n rows) → (n <= length (loss_prefix rows))%nat.
Proof.
  revert rows. induction n as [|n IH]; intros [|x rows] Hn Hf; cbn in *; [lia..|].
  apply Forall_cons in Hf as [-> Hf]. cbn. apply le_n_S, IH; [lia|done].
Qed.

Lemma cooldown_pass b m now r d x d' :
  check_cooldown b m now r d = (Ok x, d') → cd_active x = false → d' = d ∧ cooled_down b m now r d.
Proof.
  intros E Hx. set (rows := map (fun t => (pnl_of t, tr_closed_at t)) (newest_first m b d)).
  assert (d' = d ∧ (compute_limit r = 0 ∨ x = let '(n, last) := walk_streak (take (Z.to_nat (compute_limit r)) rows) in build_decision now r n last))
    as [-> Hv].
  { revert E. unfold check_cooldown. destruct (_ =? 0) eqn:E0; [intros [= <- <-]; split; [done|left; lia]|].
    unfold rows. rewrite firstn_map. fold (select_recent_closed_trades (trade_table_of m) b (compute_limit r) d).
    unfold mbind, st_bind, get_st. destruct (walk_streak _). intros [= <- <-]. auto. }
  split; [done|]. intros t rest c Hl Hc Hneg.
  assert (rows = (pnl_of t, Some c) :: map (fun t => (pnl_of t, tr_closed_at t)) rest) as Hrows by (unfold rows; by rewrite Hl; cbn; rewrite Hc).
  assert (∀ u, lost u ↔ dltb (pnl_of u) dzero = true) as Hlost by (intros u; unfold lost; by rewrite dltb_spec, dval_zero).
  assert (0 < compute_limit r → cd_active (build_decision now r (Z.of_nat (Z.to_nat (compute_limit r) `min` length (loss_prefix rows))) (Some c)) = false) as Hact.
  { intros Hpos. destruct Hv as [?|Hv]; [lia|]. rewrite <- Hx, Hv. unfold walk_streak. rewrite walk_streak_loop_spec, loss_prefix_take, length_take.
    assert (∀ (l : list (dec * option Z)) t, fold_left (fun o x => match o with None => x.2 | Some _ => o end) l (Some t) = Some t) as Hs
      by (intros l'; induction l'; intros; cbn; auto).
    rewrite Hrows. set (tl := map _ rest). change (loss_prefix ((pnl_of t, Some c) :: tl)) with (if dltb (pnl_of t) dzero then (pnl_of t, Some c) :: loss_prefix tl else []).
    rewrite (proj1 (Hlost t) Hneg).
    destruct (Z.to_nat (compute_limit r)) as [|k] eqn:Hk; [lia|]. cbn [take fold_left snd]. by rewrite Hs, Z.add_0_l. }
  rewrite build_decision_active in Hact. split.
  - intros Hm. assert (0 < compute_limit r) as Hpos.
    { unfold compute_limit. rewrite (proj2 (Z.ltb_lt _ _) Hm). cbn. destruct (_ && _) eqn:E2; bool_simpl; lia. }
    apply Hact in Hpos as [Hpos _]%orb_false_iff. rewrite (proj2 (Z.ltb_lt _ _) Hm) in Hpos. by apply Z.ltb_ge in Hpos.
  - intros [Hn Hlen] Hm Hall.
    assert (cooldown_after_streak_n_losses r <= compute_limit r) as Hlim.
    { unfold compute_limit. rewrite (proj2 (Z.ltb_lt _ _) Hm), (proj2 (Z.ltb_lt _ _) Hn). cbn. rewrite andb_false_r. lia. }
    assert (Z.to_nat (cooldown_after_streak_n_losses r) <= length (loss_prefix rows))%nat as Hpre.
    { apply loss_prefix_covers; [rewrite Hrows; cbn; rewrite length_map; cbn in Hlen; lia|].
      unfold rows. rewrite firstn_map, Hl, Forall_map. eapply Forall_impl; [exact Hall|]. intros u Hu. by apply Hlost. }
    assert (0 < compute_limit r) as Hpos by lia. apply Hact in Hpos as [_ Hpos]%orb_false_iff.
    rewrite (proj2 (Z.ltb_lt _ _) Hm), (proj2 (Z.ltb_lt _ _) Hn), (proj2 (Z.leb_le _ _)) in Hpos by lia. by apply Z.ltb_ge in Hpos.
Qed.

Lemma opposite_side_pass b m sym sd r d x d' :
  check_opposite_side b m sym sd r d = (Ok x, d') → os_active x = false →
  d' = d ∧ (block_opposite_side r = true → m ≠ em_paper ∧ ∀ o, position_state d !! (b, sym) = Some o → o = sd).
Proof.
  intros E Hx. destruct (opposite_side_verdict b m sym sd r d) as [Hl Hp].
  assert (m = em_paper ∨ m ≠ em_paper) as [Hm|Hm] by (destruct m; auto).
  - destruct (block_opposite_side r) eqn:Hb; [rewrite (Hp Hm eq_refl) in E; discriminate|].
    unfold check_opposite_side in E. rewrite Hb in E. by injection E as <- <-.
  - destruct (Hl Hm) as (y & Ey & Hy). rewrite Ey in E. injection E as <- <-. split; [done|]. intros Hb. split; [done|].
    intros o Ho. destruct (decide (o = sd)) as [|Hne]; [done|]. rewrite (proj2 Hy) in Hx; [discriminate|eauto].
Qed.

Lemma caps_pass b m r d x d' :
  check_concurrent_caps b m r d = (Ok x, d') → cp_blocked x = false →
  d' = d ∧ (0 < max_open_trades_per_bot r → count_open_trades (trade_table_of m) (Some b) d < max_open_trades_per_bot r) ∧
  (0 < max_open_trades_global r → count_open_trades (trade_table_of m) None d < max_open_trades_global r).
Proof.
  intros E Hx. destruct (caps_gate_has_room b m r d) as (y & Ey & Hy & _). rewrite Ey in E. injection E as <- <-.
  split; [done|]. by apply Hy.
Qed.

Lemma passed_no_live_latch b m now r d :
  (∀ x d', 0 < coef (daily_loss_limit_usd r) → check_daily_loss_limit b m now r d = (Ok x, d') → ll_blocked x = false → no_live_latch b now d) ∧
  (∀ x d', 0 < coef (max_drawdown_pct r) → check_max_drawdown b m now r d = (Ok x, d') → dd_blocked x = false → no_live_latch b now d).
Proof.
  split; intros x d' Hpos E Hx st Hst Ht; destruct (is_stale_daily_latch st now) eqn:Hs; try done;
    destruct (latched_blocks b st d m now r Hst Ht Hs) as [H1 H2];
    [destruct (H1 Hpos) as (y & Ey & Hy & _)|destruct (H2 Hpos) as (y & Ey & Hy & _)]; congruence.
Qed.

(** A passed daily-loss gate leaves the trades, and no live latch where there
    was one. *)
Lemma loss_pass b m now r d x d' :
  check_daily_loss_limit b m now r d = (Ok x, d') → ll_blocked x = false →
  t_trades d' = t_trades d ∧ t_paper_trades d' = t_paper_trades d ∧ (no_live_latch b now d' → no_live_latch b now d) ∧
  (0 < coef (daily_loss_limit_usd r) → no_live_latch b now d) ∧
  (0 < coef (daily_loss_limit_usd r) < 10 ^ prec →
   (- dval (daily_loss_limit_usd r) < dval (sum_realized_pnl_since (trade_table_of m) b (utc_midnight now) d))%Q).
Proof.
  intros E Hx. destruct (decide (0 < coef (daily_loss_limit_usd r))) as [Hpos|Hz].
  2: { unfold check_daily_loss_limit in E. rewrite (proj2 (dleb_zero_r _)) in E by lia. injection E as <- <-. split_and!; [done..|lia|lia]. }
  pose proof (proj1 (passed_no_live_latch b m now r d) x d' Hpos E Hx) as Hn.
  assert (t_trades d' = t_trades d ∧ t_paper_trades d' = t_paper_trades d) as [H1 H2].
  { unfold check_daily_loss_limit in E. destruct (dleb _ dzero); [by injection E as <- <-|].
    destruct (latch_gate_recomputes b now (loss_recompute b m now (daily_loss_limit_usd r))
      (fun st => mkLoss true (ks_trip_reason st) (ks_cumulative_loss_usd st) (Some (daily_loss_limit_usd r))) d Hn) as (d1 & <- & <- & _ & Heq).
    rewrite Heq in E. unfold loss_recompute, mbind, st_bind, get_st in E. destruct (dleb _ _); [|by injection E as <- <-].
    destruct (upsert_kill_switch_trip _ _ _ _ _ _) as [[]?]; [injection E as <- _; discriminate|discriminate]. }
  split_and!; [done..|]. intros Hlim. pose proof (daily_loss_trips_at_limit b m now r d (Ok x) d' Hlim Hn E) as Hv. cbv zeta in Hv.
  destruct (dleb _ _); [|by destruct Hv]. destruct Hv as [_ Hv]. destruct (col _ _ _); destruct Hv as [Hv _]; [|discriminate]. injection Hv as ->. discriminate.
Qed.

Lemma drawdown_pass b m now r d x d' :
  check_max_drawdown b m now r d = (Ok x, d') → dd_blocked x = false → 0 < coef (max_drawdown_pct r) →
  no_live_latch b now d ∧
  let '(peak, current) := select_pnl_peak_and_current (trade_table_of m) b d in
  (dval peak <= 0)%Q ∨ ∃ pct, ddiv (dsub peak current) peak = Ok pct ∧ (dval pct < dval (max_drawdown_pct r))%Q.
Proof.
  intros E Hx Hpos. pose proof (proj2 (passed_no_live_latch b m now r d) x d' Hpos E Hx) as Hn. split; [done|].
  pose proof (drawdown_trips_at_limit b m now r d (Ok x) d' Hpos Hn) as Hv.
  destruct (select_pnl_peak_and_current _ _ _) as [peak current]. specialize (Hv E).
  destruct (dleb peak dzero) eqn:Hp; [left; apply dleb_spec in Hp; by rewrite dval_zero in Hp|]. right.
  destruct Hv as (pct & Hpct & Hv). exists pct. split; [done|]. destruct (dleb _ pct) eqn:Hle; [|by apply dleb_false in Hle].
  destruct (col _ _ _); destruct Hv as [Hv _]; [|discriminate]. injection Hv as ->. discriminate.
Qed.
End verdicts.

(** ** Concrete runs

    A paper bot that closed a win of 100 and then three losses of 30, one a
    minute, the last at minute 4 of day 1. *)
Section witnesses.
#[local] Existing Instance pg_half_away.

Definition demo_risk : RiskSection := mkRisk 5 3 10 2 10 (80 @ 0) (2 @ (-1)) true.
Definition demo_row (id pnl minute : Z) : trade_row :=
  mkTradeRow id "bot" st_closed (Some (pnl @ 0)) (Some (day_us + minute * minute_us)).
Definition demo_rows : list trade_row := [demo_row 1 100 1; demo_row 2 (-30) 2; demo_row 3 (-30) 3; demo_row 4 (-30) 4].
Definition demo_db (k : gmap string KillSwitchState) : risk_db := mkRiskDb [] demo_rows k ∅.
Definition demo_now : Z := day_us + 6 * minute_us.
Definition demo_latch (reason : trip_reason) : KillSwitchState :=
  mkKill true (Some reason) (Some demo_now) (Some 1) (Some ((-90) @ 0)) demo_now.
Definition demo_closed : list (dec * option Z) := select_recent_closed_trades tbl_paper_trades "bot" 10 (demo_db ∅).

Lemma demo_latched reason : latched "bot" (demo_latch reason) (demo_db {["bot" := demo_latch reason]}).
Proof. apply lookup_singleton_eq. Qed.

Lemma max_drawdown_is_hard_stop_witness :
  ∃ d', rtc (risk_step 5) (demo_db {["bot" := demo_latch max_drawdown]}) d' ∧ latched "bot" (demo_latch max_drawdown) d'.
Proof.
  pose (d0 := demo_db {["bot" := demo_latch max_drawdown]}).
  exists (check_daily_loss_limit "bot" em_paper (5 * day_us) demo_risk d0).2.
  assert (rtc (risk_step 5) d0 (check_daily_loss_limit "bot" em_paper (5 * day_us) demo_risk d0).2) as Hr.
  { eapply rtc_l; [|apply rtc_refl]. eapply (step_loss 5 "bot" em_paper (5 * day_us) demo_risk); [vm_compute; discriminate|].
    apply surjective_pairing. }
  split; [exact Hr|].
  apply (max_drawdown_is_hard_stop "bot" (demo_latch max_drawdown) d0 _ em_paper 0 demo_risk);
    [apply demo_latched|reflexivity|reflexivity|exists 5; exact Hr].
Defined.

Definition demo_db_losses : risk_db := mkRiskDb [] [demo_row 2 (-30) 2; demo_row 3 (-50) 3] ∅ ∅.
Lemma no_latch_at_all b now ts ps pos : no_live_latch b now (mkRiskDb ts ps ∅ pos).
Proof. intros st Hst. cbn in Hst. rewrite lookup_empty in Hst. discriminate. Qed.

End witnesses.
