(* ===== verification/Scoring.v ===== *)
(** * Conditions, feature resolution and the scoring pipeline

    Models packages/scoring/conditions/{simple,series,composite,plugin}.py,
    packages/scoring/resolver.py with the two reads of
    packages/db/queries/feature_engine.py it uses, and
    packages/scoring/evaluator.py.  A plugin rule is code loaded at run time:
    it is a function argument of its condition and may raise.

    Weights, scores and thresholds are binary64 floats.  A feature's wire float
    is represented by the decimal of its shortest repr, which is what
    [Decimal(str(x))] yields, so the two conversion helpers keep the value;
    NaN and infinite features are not represented.  Symbols are ASCII. *)

From S2P Require Import Prelude Dec Sizing.
From stdpp Require Import sorting.
From Stdlib Require Import QArith Lqa Ascii.
Open Scope Z_scope.

(** ** Values *)
Inductive FeatureValue := value_num (d : dec) | value_bool (b : bool) | value_json (j : string).
Inductive variant := v_num | v_bool | v_json.
Definition got_variant (v : FeatureValue) : variant :=
  match v with value_num _ => v_num | value_bool _ => v_bool | value_json _ => v_json end.

Inductive action := LONG | SHORT | CLOSE.
#[global] Instance action_eq_dec : EqDecision action. Proof. solve_decision. Defined.
Record SignalValidated := mkSignal {
  sg_source : string; sg_idempotency_key : string; sg_received_at : Z; sg_symbol : string;
  sg_action : action; sg_expires_at : Z;
}.

(** What a condition reports besides its outcome. *)
Inductive cond_error :=
| feature_missing (ref : string)
| json_unsupported
| type_mismatch (expected : variant) (got : option variant)
| feature_history_missing (ref : string)
| feature_history_too_short (have need : Z)
| plugin_metadata (m : string).

Record RuleContext := mkCtx {
  rc_signal : SignalValidated;
  rc_feature_snapshot : gmap string FeatureValue;
  rc_feature_ref : string;
  rc_feature_history : gmap string (list FeatureValue);
}.
Abbreviation outcome := (bool * option cond_error)%type.

(** ** Conditions *)
Inductive scalar := s_num (d : dec) | s_bool (b : bool).
Inductive condition :=
| EqualsCondition (value : scalar)
| NotEqualsCondition (value : scalar)
| GtCondition (value : dec)
| GteCondition (value : dec)
| LtCondition (value : dec)
| LteCondition (value : dec)
| BetweenCondition (mn mx : dec)
| InCondition (values : list scalar)
| RisingCondition (n_samples : Z)
| FallingCondition (n_samples : Z)
| EmaStackCondition (features : list string) (up : bool)
| AndCondition (conditions : list condition)
| OrCondition (conditions : list condition)
| NotCondition (c : condition)
| WhenThenElseCondition (when then_ else_ : condition)
| PluginCondition (lookback_candles : option Z) (rule : RuleContext → res outcome).

(** Python [==] across Decimal and bool: True is 1 and False is 0. *)
Definition bool_dec (b : bool) : dec := if b then mkDec 1 0 else mkDec 0 0.
Definition scalar_dec (s : scalar) : dec := match s with s_num d => d | s_bool b => bool_dec b end.
Definition py_in (d : dec) (values : list scalar) : bool := existsb (fun s => deqb d (scalar_dec s)) values.

Definition with_feature (ctx : RuleContext) (k : FeatureValue → outcome) : outcome :=
  match rc_feature_snapshot ctx !! rc_feature_ref ctx with
  | None => (false, Some (feature_missing (rc_feature_ref ctx)))
  | Some v => k v
  end.
Definition mismatch (expected : variant) (v : FeatureValue) : outcome :=
  (false, Some (type_mismatch expected (Some (got_variant v)))).

Definition eval_equals (value : scalar) (ctx : RuleContext) : outcome :=
  with_feature ctx (fun v =>
    match v, value with
    | value_json _, _ => (false, Some json_unsupported)
    | value_bool b, s_bool b' => (Bool.eqb b b', None)
    | value_num d, s_num d' => (deqb d d', None)
    | _, s_bool _ => mismatch v_bool v
    | _, s_num _ => mismatch v_num v
    end).
Definition eval_not_equals (value : scalar) (ctx : RuleContext) : outcome :=
  with_feature ctx (fun v =>
    match v, value with
    | value_json _, _ => (false, Some json_unsupported)
    | value_bool b, s_bool b' => (negb (Bool.eqb b b'), None)
    | value_num d, s_num d' => (negb (deqb d d'), None)
    | _, s_bool _ => mismatch v_bool v
    | _, s_num _ => mismatch v_num v
    end).
Definition eval_numeric (test : dec → bool) (ctx : RuleContext) : outcome :=
  with_feature ctx (fun v => match v with value_num d => (test d, None) | _ => mismatch v_num v end).
Definition eval_in (values : list scalar) (ctx : RuleContext) : outcome :=
  with_feature ctx (fun v =>
    match values with
    | s_bool _ :: _ => match v with value_bool b => (py_in (bool_dec b) values, None) | _ => mismatch v_bool v end
    | _ => match v with value_num d => (py_in d values, None) | _ => mismatch v_num v end
    end).

(** ** series.py *)
Fixpoint nums_of (l : list FeatureValue) : option (list dec) :=
  match l with
  | [] => Some []
  | value_num d :: l' => match nums_of l' with Some ds => Some (d :: ds) | None => None end
  | _ :: _ => None
  end.
Definition last_n (n : Z) {A} (l : list A) : list A := drop (length l - Z.to_nat n) l.
Definition check_history_window (ctx : RuleContext) (n_samples : Z) : list dec + cond_error :=
  match rc_feature_history ctx !! rc_feature_ref ctx with
  | None => inr (feature_history_missing (rc_feature_ref ctx))
  | Some history =>
      if Z.of_nat (length history) <? n_samples
      then inr (feature_history_too_short (Z.of_nat (length history)) n_samples)
      else match nums_of (last_n n_samples history) with
           | Some values => inl values
           | None => inr (type_mismatch v_num None)
           end
  end.
(** [for i in range(1, len(values)): if not R(values[i-1], values[i]): return False]. *)
Fixpoint pairwise (R : dec → dec → bool) (l : list dec) : bool :=
  match l with
  | a :: (b :: _) as l' => if R a b then pairwise R l' else false
  | _ => true
  end.
Definition eval_series (R : dec → dec → bool) (n_samples : Z) (ctx : RuleContext) : outcome :=
  match check_history_window ctx n_samples with
  | inr e => (false, Some e)
  | inl values => (pairwise R values, None)
  end.
Fixpoint stack_values (refs : list string) (snap : gmap string FeatureValue) : list dec + cond_error :=
  match refs with
  | [] => inl []
  | r :: refs' =>
      match snap !! r with
      | None => inr (feature_missing r)
      | Some (value_num d) =>
          match stack_values refs' snap with inl ds => inl (d :: ds) | inr e => inr e end
      | Some _ => inr (type_mismatch v_num None)
      end
  end.
Definition eval_ema_stack (refs : list string) (up : bool) (ctx : RuleContext) : outcome :=
  match stack_values refs (rc_feature_snapshot ctx) with
  | inr e => (false, Some e)
  | inl values => (pairwise (if up then fun a b => dltb b a else dltb) values, None)
  end.

(** ** Condition.evaluate *)
Fixpoint eval (c : condition) (ctx : RuleContext) {struct c} : res outcome :=
  match c with
  | EqualsCondition v => Ok (eval_equals v ctx)
  | NotEqualsCondition v => Ok (eval_not_equals v ctx)
  | GtCondition x => Ok (eval_numeric (fun d => dltb x d) ctx)
  | GteCondition x => Ok (eval_numeric (fun d => dleb x d) ctx)
  | LtCondition x => Ok (eval_numeric (fun d => dltb d x) ctx)
  | LteCondition x => Ok (eval_numeric (fun d => dleb d x) ctx)
  | BetweenCondition a b => Ok (eval_numeric (fun d => dleb a d && dleb d b) ctx)
  | InCondition vs => Ok (eval_in vs ctx)
  | RisingCondition n => Ok (eval_series dltb n ctx)
  | FallingCondition n => Ok (eval_series (fun a b => dltb b a) n ctx)
  | EmaStackCondition refs up => Ok (eval_ema_stack refs up ctx)
  | AndCondition cs =>
      (fix all (cs : list condition) : res outcome := match cs with
         | [] => Ok (true, None)
         | c :: cs' => match eval c ctx with Ok (b, _) => if b then all cs' else Ok (false, None) | Err e => Err e end
         end) cs
  | OrCondition cs =>
      (fix any (cs : list condition) : res outcome := match cs with
         | [] => Ok (false, None)
         | c :: cs' => match eval c ctx with Ok (b, _) => if b then Ok (true, None) else any cs' | Err e => Err e end
         end) cs
  | NotCondition c => match eval c ctx with Ok (b, _) => Ok (negb b, None) | Err e => Err e end
  | WhenThenElseCondition w t f => match eval w ctx with Ok (b, _) => if b then eval t ctx else eval f ctx | Err e => Err e end
  | PluginCondition _ rule => rule ctx
  end.

(** ** resolver.py: references *)
Definition lower_ascii (a : ascii) : ascii :=
  let n := nat_of_ascii a in if (65 <=? n)%nat && (n <=? 90)%nat then ascii_of_nat (n + 32) else a.
Fixpoint lower (s : string) : string :=
  match s with EmptyString => EmptyString | String a s' => String (lower_ascii a) (lower s') end.

(** [[^}]+] up to the closing brace. *)
Fixpoint token_to_brace (s : string) : option (string * string) :=
  match s with
  | EmptyString => None
  | String a s' =>
      if bool_decide (a = "}"%char) then Some (EmptyString, s')
      else match token_to_brace s' with Some (t, r) => Some (String a t, r) | None => None end
  end.
(** [_TEMPLATE_RE.sub(_replace, template)]; the fuel bounds the scan. *)
Fixpoint substitute_loop (fuel : nat) (s sym : string) : res string :=
  match fuel with
  | O => Ok s
  | S fuel' =>
      match s with
      | EmptyString => Ok EmptyString
      | String a s1 =>
          let skip := r ← substitute_loop fuel' s1 sym; Ok (String a r) in
          match s1 with
          | String b s2 =>
              if bool_decide (a = "$"%char) && bool_decide (b = "{"%char) then
                match token_to_brace s2 with
                | Some (t, rest) =>
                    if bool_decide (t = EmptyString) then skip
                    else if bool_decide (t = "signal.symbol")
                    then r ← substitute_loop fuel' rest sym; Ok (lower sym +:+ r)
                    else Err (ValueError "unsupported template")
                | None => skip
                end
              else skip
          | EmptyString => skip
          end
      end
  end.
Definition substitute_template (template : string) (sg : SignalValidated) : res string :=
  substitute_loop (S (String.length template)) template (sg_symbol sg).

Fixpoint split_dots (s : string) : list string :=
  match s with
  | EmptyString => [EmptyString]
  | String a s' =>
      if bool_decide (a = "."%char) then EmptyString :: split_dots s'
      else match split_dots s' with x :: xs => String a x :: xs | [] => [String a EmptyString] end
  end.
(** INTERVAL_DELTA of packages/features/intervals.py, in seconds. *)
Definition interval_seconds (i : string) : option Z :=
  if bool_decide (i = "1m") then Some 60
  else if bool_decide (i = "5m") then Some 300
  else if bool_decide (i = "15m") then Some 900
  else if bool_decide (i = "1h") then Some 3600
  else if bool_decide (i = "4h") then Some 14400
  else if bool_decide (i = "1d") then Some 86400
  else None.
Definition parse_feature_ref (ref : string) : res (string * string * Z) :=
  match split_dots ref with
  | _ :: symbol :: interval :: _ :: _ =>
      match interval_seconds interval with
      | Some secs => Ok (symbol, interval, secs)
      | None => Err (ValueError "unknown interval")
      end
  | _ => Err (ValueError "malformed feature-ref")
  end.

(** ** resolver.py: lookups *)
Record FeatureUpdate := mkUpdate {
  fu_computed_at : Z; fu_value_num : option dec; fu_value_bool : option bool; fu_value_json : option string;
}.
Inductive kv_reply := kv_bus_error | kv_miss | kv_undecodable | kv_update (u : FeatureUpdate).
Record feature_row := mkFeature {
  fr_feature_name : string; fr_symbol : string; fr_value_num : option dec; fr_value_bool : option bool;
  fr_value_json : option string; fr_computed_at : Z;
}.
Record resolver_env := mkEnv { kv_get : string → kv_reply; features : list feature_row; env_now : Z }.

(** The body of both conversion helpers; [FeatureValue] refuses three Nones. *)
Definition to_feature_value (n : option dec) (b : option bool) (j : option string) : res FeatureValue :=
  match n, b, j with
  | Some d, _, _ => Ok (value_num d)
  | None, Some b, _ => Ok (value_bool b)
  | None, None, Some j => Ok (value_json j)
  | None, None, None => Err (ValueError "FeatureValue must have exactly one value set")
  end.
Definition feature_update_to_feature_value (u : FeatureUpdate) : res FeatureValue :=
  to_feature_value (fu_value_num u) (fu_value_bool u) (fu_value_json u).
Definition db_row_to_feature_value (r : feature_row) : res FeatureValue :=
  to_feature_value (fr_value_num r) (fr_value_bool r) (fr_value_json r).

Definition computed_before (a b : feature_row) : Prop := fr_computed_at a <= fr_computed_at b.
#[global] Instance computed_before_dec : RelDecision computed_before.
Proof. intros a b. unfold computed_before. apply _. Defined.
Definition features_of (name symbol : string) (e : resolver_env) : list feature_row :=
  merge_sort computed_before
    (filter (fun r => bool_decide (fr_feature_name r = name) && bool_decide (fr_symbol r = symbol) = true) (features e)).
Definition select_latest_feature (name symbol : string) (e : resolver_env) : option feature_row :=
  last (features_of name symbol e).
Definition max_history_window : Z := 200.
Definition select_feature_history (name symbol : string) (n_samples : Z) (e : resolver_env) : list feature_row :=
  last_n (Z.min n_samples max_history_window) (features_of name symbol e).

Inductive resolver_status := rs_ok | rs_data_missing | rs_data_stale.
Record ResolverResult := mkResolved { rv_value : option FeatureValue; rv_status : resolver_status }.

Fixpoint upper (s : string) : string :=
  match s with
  | EmptyString => EmptyString
  | String a s' =>
      let n := nat_of_ascii a in
      String (if (97 <=? n)%nat && (n <=? 122)%nat then ascii_of_nat (n - 32) else a) (upper s')
  end.

Definition check_staleness (v : FeatureValue) (computed_at max_staleness_sec : Z) (e : resolver_env) : ResolverResult :=
  let age_sec := (env_now e - computed_at) ÷ 1000000 in
  if max_staleness_sec <? age_sec then mkResolved None rs_data_stale else mkResolved (Some v) rs_ok.

Definition try_kv (key : string) (e : resolver_env) : res (option (FeatureValue * Z)) :=
  match kv_get e key with
  | kv_update u => v ← feature_update_to_feature_value u; Ok (Some (v, fu_computed_at u))
  | _ => Ok None
  end.
Definition try_db (ref symbol : string) (e : resolver_env) : res (option (FeatureValue * Z)) :=
  match select_latest_feature ref symbol e with
  | Some r => v ← db_row_to_feature_value r; Ok (Some (v, fr_computed_at r))
  | None => Ok None
  end.

Definition resolve (rule_feature : string) (sg : SignalValidated) (max_staleness_sec : option Z) (e : resolver_env)
  : res ResolverResult :=
  ref ← substitute_template rule_feature sg;
  p ← parse_feature_ref ref;
  let '(symbol, _, secs) := p in
  let max_s := default (2 * secs) max_staleness_sec in
  kv ← try_kv (ref +:+ ":" +:+ upper (sg_symbol sg)) e;
  match kv with
  | Some (v, at_) => Ok (check_staleness v at_ max_s e)
  | None =>
      db ← try_db ref symbol e;
      match db with
      | Some (v, at_) => Ok (check_staleness v at_ max_s e)
      | None => Ok (mkResolved None rs_data_missing)
      end
  end.

Fixpoint map_res {A B} (f : A → res B) (l : list A) : res (list B) :=
  match l with
  | [] => Ok []
  | a :: l' => b ← f a; bs ← map_res f l'; Ok (b :: bs)
  end.
Definition resolve_history (rule_feature : string) (sg : SignalValidated) (n_samples : Z) (e : resolver_env)
  : res (list FeatureValue) :=
  ref ← substitute_template rule_feature sg;
  p ← parse_feature_ref ref;
  let '(symbol, _, _) := p in
  map_res db_row_to_feature_value (select_feature_history ref symbol n_samples e).

(** ** evaluator.py *)
Inductive on_error_policy := oe_skip | oe_reject.
Record ScoringRule := mkRule {
  rl_name : string; rl_weight : pyfloat; rl_feature : string; rl_condition : condition;
  rl_on_error : on_error_policy; rl_required : bool; rl_max_staleness_sec : option Z;
}.
Inductive scoring_mode := sm_active | sm_passthrough.
Record ScoringConfig := mkScoring { sc_mode : scoring_mode; sc_trigger_threshold : pyfloat; sc_rules : list ScoringRule }.

Inductive rule_outcome := ro_bool (b : bool) | ro_data_missing | ro_data_stale | ro_error_skipped.
Record RuleResult := mkRuleResult {
  rr_name : string; rr_weight : pyfloat; rr_applied_weight : pyfloat; rr_result : rule_outcome;
}.
Inductive decision := execute | reject | passthrough.
Inductive reject_reason := required_feature_missing | required_feature_stale | rule_error | score_below_threshold.
Record ScoringResult := mkResult {
  sr_decision : decision; sr_reason : option reject_reason; sr_total_score : pyfloat; sr_threshold : pyfloat;
  sr_rule_results : list RuleResult; sr_feature_snapshot : gmap string FeatureValue;
}.

Definition required_history_window (c : condition) : option Z :=
  match c with
  | RisingCondition n | FallingCondition n => Some n
  | PluginCondition lookback _ => lookback
  | _ => None
  end.

(** [RuleResult | ScoringResult], with the snapshot as the call left it. *)
Inductive rule_step := continue_with (rr : RuleResult) | early (reason : reject_reason) (rr : RuleResult).

Definition evaluate_rule (rule : ScoringRule) (sg : SignalValidated) (e : resolver_env) (snap : gmap string FeatureValue)
  : res (rule_step * gmap string FeatureValue) :=
  let skipped o := mkRuleResult (rl_name rule) (rl_weight rule) fzero o in
  resolved ← resolve (rl_feature rule) sg (rl_max_staleness_sec rule) e;
  match rv_status resolved with
  | rs_data_missing =>
      Ok (if rl_required rule then early required_feature_missing (skipped ro_data_missing)
          else continue_with (skipped ro_data_missing), snap)
  | rs_data_stale =>
      Ok (if rl_required rule then early required_feature_stale (skipped ro_data_stale)
          else continue_with (skipped ro_data_stale), snap)
  | rs_ok =>
      match rv_value resolved with
      | None => Err (RuntimeError "resolver returned ok with None value")
      | Some v =>
          ref ← substitute_template (rl_feature rule) sg;
          let snap' := <[ref := v]> snap in
          history ← match required_history_window (rl_condition rule) with
                    | Some n => resolve_history (rl_feature rule) sg n e
                    | None => Ok []
                    end;
          let hist : gmap string (list FeatureValue) :=
            match history with [] => ∅ | _ => {[ref := history]} end in
          let ctx := mkCtx sg {[ref := v]} ref hist in
          match eval (rl_condition rule) ctx with
          | Err _ =>
              Ok (match rl_on_error rule with
                  | oe_reject => early rule_error (skipped ro_error_skipped)
                  | oe_skip => continue_with (skipped ro_error_skipped)
                  end, snap')
          | Ok (b, _) =>
              Ok (continue_with (mkRuleResult (rl_name rule) (rl_weight rule) (if b then rl_weight rule else fzero) (ro_bool b)),
                  snap')
          end
      end
  end.

Fixpoint evaluate_rules (rules : list ScoringRule) (sg : SignalValidated) (e : resolver_env) (threshold : pyfloat)
    (results : list RuleResult) (snap : gmap string FeatureValue) (total : pyfloat)
  : res (ScoringResult + (list RuleResult * gmap string FeatureValue * pyfloat)) :=
  match rules with
  | [] => Ok (inr (results, snap, total))
  | rule :: rules' =>
      x ← evaluate_rule rule sg e snap;
      match x with
      | (early reason rr, snap') => Ok (inl (mkResult reject (Some reason) total threshold (results ++ [rr]) snap'))
      | (continue_with rr, snap') =>
          evaluate_rules rules' sg e threshold (results ++ [rr]) snap' (fadd total (rr_applied_weight rr))
      end
  end.

Definition evaluate (cfg : ScoringConfig) (sg : SignalValidated) (e : resolver_env) : res ScoringResult :=
  r ← evaluate_rules (sc_rules cfg) sg e (sc_trigger_threshold cfg) [] ∅ fzero;
  match r with
  | inl early_reject => Ok early_reject
  | inr (results, snap, total) =>
      let '(d, reason) :=
        match sc_mode cfg with
        | sm_passthrough => (passthrough, None)
        | sm_active =>
            if fleb (sc_trigger_threshold cfg) total then (execute, None) else (reject, Some score_below_threshold)
        end in
      Ok (mkResult d reason total (sc_trigger_threshold cfg) results snap)
  end.

(** ** Conditions mean what they say *)
Section condition_induction.
Variable P : condition → Prop.
Hypothesis Hleaf : ∀ c, match c with
  | AndCondition _ | OrCondition _ | NotCondition _ | WhenThenElseCondition _ _ _ => False | _ => True end → P c.
Hypothesis Hand : ∀ cs, Forall P cs → P (AndCondition cs).
Hypothesis Hor : ∀ cs, Forall P cs → P (OrCondition cs).
Hypothesis Hnot : ∀ c, P c → P (NotCondition c).
Hypothesis Hwhen : ∀ w t e, P w → P t → P e → P (WhenThenElseCondition w t e).
Fixpoint condition_tree_ind (c : condition) : P c :=
  match c return P c with
  | AndCondition cs => Hand cs ((fix go cs : Forall P cs :=
      match cs with [] => Forall_nil_2 P | c :: cs' => Forall_cons_2 P c cs' (condition_tree_ind c) (go cs') end) cs)
  | OrCondition cs => Hor cs ((fix go cs : Forall P cs :=
      match cs with [] => Forall_nil_2 P | c :: cs' => Forall_cons_2 P c cs' (condition_tree_ind c) (go cs') end) cs)
  | NotCondition c => Hnot c (condition_tree_ind c)
  | WhenThenElseCondition w t e => Hwhen w t e (condition_tree_ind w) (condition_tree_ind t) (condition_tree_ind e)
  | c => Hleaf c I
  end.
End condition_induction.

Fixpoint plugin_free (c : condition) : bool :=
  match c with
  | AndCondition cs | OrCondition cs => forallb plugin_free cs
  | NotCondition c => plugin_free c
  | WhenThenElseCondition w t e => plugin_free w && plugin_free t && plugin_free e
  | PluginCondition _ _ => false
  | _ => true
  end.

(** The feature compared with a test; false when it is absent or of another type. *)
Definition num_test (ctx : RuleContext) (test : dec → bool) : bool :=
  match rc_feature_snapshot ctx !! rc_feature_ref ctx with Some (value_num d) => test d | _ => false end.
Definition bool_test (ctx : RuleContext) (test : bool → bool) : bool :=
  match rc_feature_snapshot ctx !! rc_feature_ref ctx with Some (value_bool b) => test b | _ => false end.
Definition scalar_test (ctx : RuleContext) (v : scalar) (pos : bool) : bool :=
  match v with
  | s_num d => num_test ctx (fun x => if pos then deqb x d else negb (deqb x d))
  | s_bool b => bool_test ctx (fun x => if pos then Bool.eqb x b else negb (Bool.eqb x b))
  end.
(** The last [n] samples exist, are all numbers and compare pairwise. *)
Definition series_test (ctx : RuleContext) (R : dec → dec → bool) (n : Z) : bool :=
  match rc_feature_history ctx !! rc_feature_ref ctx with
  | Some h => (n <=? Z.of_nat (length h)) && match nums_of (last_n n h) with Some ds => pairwise R ds | None => false end
  | None => false
  end.

(** The boolean meaning of a condition tree. *)
Fixpoint holds (ctx : RuleContext) (c : condition) : bool :=
  match c with
  | EqualsCondition v => scalar_test ctx v true
  | NotEqualsCondition v => scalar_test ctx v false
  | GtCondition x => num_test ctx (fun d => dltb x d)
  | GteCondition x => num_test ctx (fun d => dleb x d)
  | LtCondition x => num_test ctx (fun d => dltb d x)
  | LteCondition x => num_test ctx (fun d => dleb d x)
  | BetweenCondition a b => num_test ctx (fun d => dleb a d && dleb d b)
  | InCondition vs =>
      match vs with
      | s_bool _ :: _ => bool_test ctx (fun b => py_in (bool_dec b) vs)
      | _ => num_test ctx (fun d => py_in d vs)
      end
  | RisingCondition n => series_test ctx dltb n
  | FallingCondition n => series_test ctx (fun a b => dltb b a) n
  | EmaStackCondition refs up =>
      match stack_values refs (rc_feature_snapshot ctx) with
      | inl ds => pairwise (if up then fun a b => dltb b a else dltb) ds
      | inr _ => false
      end
  | AndCondition cs => forallb (holds ctx) cs
  | OrCondition cs => existsb (holds ctx) cs
  | NotCondition c => negb (holds ctx c)
  | WhenThenElseCondition w t e => if holds ctx w then holds ctx t else holds ctx e
  | PluginCondition _ _ => false
  end.

Lemma eval_series_outcome R n ctx : (eval_series R n ctx).1 = series_test ctx R n.
Proof.
  unfold eval_series, series_test, check_history_window. destruct (_ !! _) as [h|]; [|done].
  destruct (Z.ltb_spec (Z.of_nat (length h)) n) as [Hl|Hl]; [|rewrite (proj2 (Z.leb_le _ _) Hl)].
  - by rewrite (proj2 (Z.leb_gt _ _) Hl).
  - by destruct (nums_of _).
Qed.

Lemma leaf_outcome c ctx :
  match c with AndCondition _ | OrCondition _ | NotCondition _ | WhenThenElseCondition _ _ _ => False | _ => True end →
  plugin_free c = true → ∃ err, eval c ctx = Ok (holds ctx c, err).
Proof.
  intros Hc Hp.
  assert (∀ (o : outcome) b, o.1 = b → ∃ err, (Ok o : res outcome) = Ok (b, err)) as Hfst by (intros [b' err] b ?; cbn in *; subst; eauto).
  destruct c; try done; cbn [eval holds]; apply Hfst; try apply eval_series_outcome;
    unfold eval_equals, eval_not_equals, eval_numeric, eval_in, eval_ema_stack, with_feature, scalar_test, num_test, bool_test, mismatch.
  all: try (destruct (_ !! _) as [[]|]; try destruct value; try done; fail).
  - destruct (_ !! _) as [[]|], values as [|[] ?]; done.
  - by destruct (stack_values _ _).
Qed.

(** A condition tree without plugins never raises, and its outcome is its
    boolean meaning: [and], [or], [not] and [when_then_else] are the boolean
    connectives whatever the order of evaluation, with an absent or ill-typed
    feature counting as false. *)
Lemma eval_is_boolean c ctx : plugin_free c = true → ∃ err, eval c ctx = Ok (holds ctx c, err).
Proof.
  induction c as [c Hc|cs IH|cs IH|c IH|w t e IHw IHt IHe] using condition_tree_ind; intros Hp; cbn in Hp.
  - by apply leaf_outcome.
  - cbn [eval holds]. induction IH as [|c cs Hc _ IHcs]; cbn in *; [eauto|]. bool_simpl.
    destruct Hc as [err ->]; [done|]. destruct (holds ctx c); cbn; eauto.
  - cbn [eval holds]. induction IH as [|c cs Hc _ IHcs]; cbn in *; [eauto|]. bool_simpl.
    destruct Hc as [err ->]; [done|]. destruct (holds ctx c); cbn; eauto.
  - cbn [eval holds]. destruct (IH Hp) as [err ->]. eauto.
  - cbn [eval holds]. bool_simpl. destruct IHw as [err ->]; [done|]. destruct (holds ctx w); auto.
Qed.

(** ** Where a value comes from *)
Lemma sorted_last {A} (R : A → A → Prop) l x :
  Reflexive R → StronglySorted R l → last l = Some x → ∀ y, y ∈ l → R y x.
Proof.
  intros Hrefl. induction 1 as [|z l Hs IH Hz]; [discriminate|]. destruct l as [|z' l].
  { intros [= <-] y ->%list_elem_of_singleton. apply Hrefl. }
  intros Hx y [->|Hy]%elem_of_cons; [|by apply IH]. rewrite Forall_forall in Hz. apply Hz. apply last_Some_elem_of. exact Hx.
Qed.

(** The one column that is set, numbers first. *)
Definition is_value (n : option dec) (b : option bool) (j : option string) (v : FeatureValue) : Prop :=
  (∃ d, n = Some d ∧ v = value_num d) ∨ (∃ x, n = None ∧ b = Some x ∧ v = value_bool x) ∨
  (∃ x, n = None ∧ b = None ∧ j = Some x ∧ v = value_json x).
Definition row_of (ref sym : string) (e : resolver_env) (row : feature_row) : Prop :=
  row ∈ features e ∧ fr_feature_name row = ref ∧ fr_symbol row = sym.
Definition row_value (row : feature_row) : FeatureValue → Prop := is_value (fr_value_num row) (fr_value_bool row) (fr_value_json row).

(** The value of the reference and its time: the update under the reference
    and the signal's symbol in the bucket; without one a newest row of the
    table; or nothing. *)
Inductive sourced (ref sym : string) (sg : SignalValidated) (e : resolver_env) : option (FeatureValue * Z) → Prop :=
| from_bucket u v :
    kv_get e (ref +:+ ":" +:+ upper (sg_symbol sg)) = kv_update u →
    is_value (fu_value_num u) (fu_value_bool u) (fu_value_json u) v → sourced ref sym sg e (Some (v, fu_computed_at u))
| from_table row v :
    (∀ u, kv_get e (ref +:+ ":" +:+ upper (sg_symbol sg)) ≠ kv_update u) →
    row_of ref sym e row → (∀ row', row_of ref sym e row' → fr_computed_at row' <= fr_computed_at row) →
    row_value row v → sourced ref sym sg e (Some (v, fr_computed_at row))
| from_nowhere :
    (∀ u, kv_get e (ref +:+ ":" +:+ upper (sg_symbol sg)) ≠ kv_update u) → (∀ row, ¬ row_of ref sym e row) →
    sourced ref sym sg e None.

Lemma to_feature_value_spec n b j v : to_feature_value n b j = Ok v → is_value n b j v.
Proof. unfold is_value. destruct n as [d|], b as [x|], j as [y|]; intros [= <-]; eauto 10. Qed.

Lemma elem_of_features_of ref sym e row : row ∈ features_of ref sym e ↔ row_of ref sym e row.
Proof.
  unfold features_of, row_of. rewrite merge_sort_Permutation, list_elem_of_filter, andb_true_iff, !bool_decide_eq_true. tauto.
Qed.

Lemma select_latest_newest ref sym e :
  match select_latest_feature ref sym e with
  | Some row => row_of ref sym e row ∧ ∀ row', row_of ref sym e row' → fr_computed_at row' <= fr_computed_at row
  | None => ∀ row, ¬ row_of ref sym e row
  end.
Proof.
  unfold select_latest_feature. destruct (last (features_of ref sym e)) as [row|] eqn:Hl.
  - split; [apply elem_of_features_of; by apply last_Some_elem_of|]. intros row' Hr'. apply elem_of_features_of in Hr'.
    apply (sorted_last computed_before (features_of ref sym e) row); [intros ?; unfold computed_before; lia| |done|done].
    apply StronglySorted_merge_sort; [intros ? ? ?; unfold computed_before; lia|intros ? ?; unfold computed_before; lia].
  - intros row Hr. apply elem_of_features_of in Hr. apply last_None in Hl. rewrite Hl in Hr. by apply not_elem_of_nil in Hr.
Qed.

Lemma kv_sourced ref sym sg e kv :
  try_kv (ref +:+ ":" +:+ upper (sg_symbol sg)) e = Ok kv →
  match kv with
  | Some p => sourced ref sym sg e (Some p)
  | None => ∀ u, kv_get e (ref +:+ ":" +:+ upper (sg_symbol sg)) ≠ kv_update u
  end.
Proof.
  unfold try_kv. destruct (kv_get e _) as [| | |u] eqn:Hk; try (by intros [= <-]).
  intros (v & Hv & [= <-])%bind_ok_inv. econstructor; [exact Hk|by apply to_feature_value_spec].
Qed.
Lemma db_sourced ref sym sg e db :
  (∀ u, kv_get e (ref +:+ ":" +:+ upper (sg_symbol sg)) ≠ kv_update u) → try_db ref sym e = Ok db → sourced ref sym sg e db.
Proof.
  intros Hk. unfold try_db. pose proof (select_latest_newest ref sym e) as Hl. destruct (select_latest_feature ref sym e) as [row|].
  - intros (v & Hv & [= <-])%bind_ok_inv. destruct Hl. eapply from_table; [done..|by apply to_feature_value_spec].
  - intros [= <-]. by apply from_nowhere.
Qed.

(** ** The pipeline

    What a rule comes to, written from the reference, the stored values and
    the meaning of its condition. *)
Definition past_limit (rule : ScoringRule) (secs at_ : Z) (e : resolver_env) : Prop :=
  default (2 * secs) (rl_max_staleness_sec rule) < (env_now e - at_) ÷ 1000000.
Definition history_for (rule : ScoringRule) (ref sym : string) (e : resolver_env) (h : list FeatureValue) : Prop :=
  match required_history_window (rl_condition rule) with
  | Some n => Forall2 row_value (select_feature_history ref sym n e) h
  | None => h = []
  end.
Definition context_of (sg : SignalValidated) (ref : string) (v : FeatureValue) (h : list FeatureValue) : RuleContext :=
  mkCtx sg {[ref := v]} ref (if decide (h = []) then ∅ else {[ref := h]}).

Inductive judged (rule : ScoringRule) (sg : SignalValidated) (e : resolver_env) : rule_outcome → Prop :=
| j_missing ref sym i secs :
    substitute_template (rl_feature rule) sg = Ok ref → parse_feature_ref ref = Ok (sym, i, secs) →
    sourced ref sym sg e None → judged rule sg e ro_data_missing
| j_stale ref sym i secs v at_ :
    substitute_template (rl_feature rule) sg = Ok ref → parse_feature_ref ref = Ok (sym, i, secs) →
    sourced ref sym sg e (Some (v, at_)) → past_limit rule secs at_ e → judged rule sg e ro_data_stale
| j_fresh ref sym i secs v at_ h o :
    substitute_template (rl_feature rule) sg = Ok ref → parse_feature_ref ref = Ok (sym, i, secs) →
    sourced ref sym sg e (Some (v, at_)) → ¬ past_limit rule secs at_ e → history_for rule ref sym e h →
    (if plugin_free (rl_condition rule) then o = ro_bool (holds (context_of sg ref v h) (rl_condition rule))
     else match eval (rl_condition rule) (context_of sg ref v h) with
          | Ok (b, _) => o = ro_bool b
          | Err _ => o = ro_error_skipped
          end) →
    judged rule sg e o.

(** What a rule adds to the score, and when it ends the evaluation. *)
Definition worth (rule : ScoringRule) (o : rule_outcome) : pyfloat :=
  match o with ro_bool true => rl_weight rule | _ => fzero end.
Definition rejects (rule : ScoringRule) (o : rule_outcome) (why : reject_reason) : Prop :=
  (o = ro_data_missing ∧ rl_required rule = true ∧ why = required_feature_missing) ∨
  (o = ro_data_stale ∧ rl_required rule = true ∧ why = required_feature_stale) ∨
  (o = ro_error_skipped ∧ rl_on_error rule = oe_reject ∧ why = rule_error).
Definition passes (sg : SignalValidated) (e : resolver_env) (rule : ScoringRule) (o : rule_outcome) : Prop :=
  judged rule sg e o ∧ ∀ why, ¬ rejects rule o why.
Definition listed (rule : ScoringRule) (o : rule_outcome) : RuleResult := mkRuleResult (rl_name rule) (rl_weight rule) (worth rule o) o.
Definition score (rules : list ScoringRule) (os : list rule_outcome) : pyfloat := fold_left fadd (zip_with worth rules os) fzero.

Lemma resolve_cases rule sg e r :
  resolve (rl_feature rule) sg (rl_max_staleness_sec rule) e = Ok r →
  ∃ ref sym i secs src, substitute_template (rl_feature rule) sg = Ok ref ∧ parse_feature_ref ref = Ok (sym, i, secs) ∧
    sourced ref sym sg e src ∧
    match src with
    | None => rv_status r = rs_data_missing
    | Some (v, at_) => (past_limit rule secs at_ e ∧ rv_status r = rs_data_stale) ∨
                       (¬ past_limit rule secs at_ e ∧ rv_status r = rs_ok ∧ rv_value r = Some v)
    end.
Proof.
  assert (∀ v at_ secs, let r := check_staleness v at_ (default (2 * secs) (rl_max_staleness_sec rule)) e in
    (past_limit rule secs at_ e ∧ rv_status r = rs_data_stale) ∨ (¬ past_limit rule secs at_ e ∧ rv_status r = rs_ok ∧ rv_value r = Some v)) as Hst.
  { intros v at_ secs. unfold check_staleness, past_limit. cbv zeta. destruct (Z.ltb_spec (default (2 * secs) (rl_max_staleness_sec rule)) ((env_now e - at_) ÷ 1000000));
      [by left|right; split; [lia|done]]. }
  unfold resolve. intros (ref & Href & E)%bind_ok_inv. apply bind_ok_inv in E as ([[sym i] secs] & Hp & E).
  apply bind_ok_inv in E as (kv & Hkv & E). apply (kv_sourced ref sym) in Hkv. exists ref, sym, i, secs.
  destruct kv as [[v at_]|]; [injection E as <-; exists (Some (v, at_)); auto|].
  apply bind_ok_inv in E as (db & Hdb & E). apply (db_sourced _ _ sg) in Hdb; [|done].
  destruct db as [[v at_]|]; injection E as <-; [exists (Some (v, at_)); auto|by exists None].
Qed.

Lemma map_res_values rows vs : map_res db_row_to_feature_value rows = Ok vs → Forall2 row_value rows vs.
Proof.
  revert vs. induction rows as [|r rows IH]; intros vs; cbn [map_res]; [intros [= <-]; constructor|].
  intros (v & Hv & E)%bind_ok_inv. apply bind_ok_inv in E as (vs' & Hvs & [= <-]). constructor; [by apply to_feature_value_spec|auto].
Qed.

Lemma history_read rule sg e ref sym i secs h :
  substitute_template (rl_feature rule) sg = Ok ref → parse_feature_ref ref = Ok (sym, i, secs) →
  match required_history_window (rl_condition rule) with
  | Some n => resolve_history (rl_feature rule) sg n e
  | None => Ok []
  end = Ok h → history_for rule ref sym e h.
Proof.
  intros Href Hp. unfold history_for. destruct (required_history_window _) as [n|]; [|by intros [= <-]].
  unfold resolve_history. rewrite Href. cbn [mbind res_bind]. rewrite Hp. cbn [mbind res_bind]. apply map_res_values.
Qed.

(** A rule is judged, listed with what it is worth, and ends the evaluation
    exactly when its outcome rejects. *)
Lemma evaluate_rule_inv rule sg e snap st snap' :
  evaluate_rule rule sg e snap = Ok (st, snap') →
  ∃ o, judged rule sg e o ∧
    match st with
    | continue_with rr => rr = listed rule o ∧ ∀ why, ¬ rejects rule o why
    | early why rr => rr = listed rule o ∧ rejects rule o why
    end.
Proof.
  unfold evaluate_rule. intros (res & Hres & E)%bind_ok_inv. apply resolve_cases in Hres as (ref & sym & i & secs & src & Href & Hp & Hsrc & Hcase).
  destruct src as [[v at_]|]; [destruct Hcase as [[Hpast Hst]|(Hfresh & Hst & Hv)]|]; rewrite ?Hst, ?Hcase in E.
  - exists ro_data_stale. split; [by eapply j_stale|]. unfold listed, rejects. destruct (rl_required rule); simplify_eq; naive_solver.
  - rewrite Hv, Href in E. cbn [mbind res_bind] in E. apply bind_ok_inv in E as (h & Hh & E). apply (history_read _ _ _ _ _ _ _ _ Href Hp) in Hh.
    replace (match h with [] => ∅ | _ => {[ref := h]} end : gmap string (list FeatureValue))
      with (if decide (h = []) then ∅ else {[ref := h]} : gmap string (list FeatureValue)) in E by (by destruct h).
    fold (context_of sg ref v h) in E.
    assert (∀ o, (if plugin_free (rl_condition rule) then o = ro_bool (holds (context_of sg ref v h) (rl_condition rule))
      else match eval (rl_condition rule) (context_of sg ref v h) with Ok (b, _) => o = ro_bool b | Err _ => o = ro_error_skipped end) → judged rule sg e o) as Hj
      by (intros o Ho; by eapply j_fresh).
    destruct (plugin_free (rl_condition rule)) eqn:Hpf.
    + destruct (eval_is_boolean _ (context_of sg ref v h) Hpf) as [err Hev]. rewrite Hev in E. simplify_eq.
      eexists. split; [by apply Hj|]. split; [done|]. unfold rejects. naive_solver.
    + destruct (eval _ _) as [[b err]|err]; simplify_eq; (eexists; split; [by apply Hj|]); unfold listed, rejects.
      * split; [done|]. naive_solver.
      * destruct (rl_on_error rule); naive_solver.
  - exists ro_data_missing. split; [by eapply j_missing|]. unfold listed, rejects. destruct (rl_required rule); simplify_eq; naive_solver.
Qed.

Lemma zip_snoc {A B C} (f : A → B → C) l k x y : length l = length k → zip_with f (l ++ [x]) (k ++ [y]) = zip_with f l k ++ [f x y].
Proof. intros Hl. by rewrite zip_with_app. Qed.
Lemma score_snoc rules os rule o : length rules = length os → score (rules ++ [rule]) (os ++ [o]) = fadd (score rules os) (worth rule o).
Proof. intros Hl. unfold score. by rewrite zip_snoc, fold_left_app. Qed.

(** The rules seen so far and their outcomes, with the running score. *)
Lemma evaluate_rules_spec rules sg e th seen os snap out :
  Forall2 (passes sg e) seen os →
  evaluate_rules rules sg e th (zip_with listed seen os) snap (score seen os) = Ok out →
  match out with
  | inr (rs, _, total) => ∃ os', Forall2 (passes sg e) (seen ++ rules) os' ∧ rs = zip_with listed (seen ++ rules) os' ∧ total = score (seen ++ rules) os'
  | inl r => ∃ pre rule post os' o why, rules = pre ++ rule :: post ∧ Forall2 (passes sg e) (seen ++ pre) os' ∧
      judged rule sg e o ∧ rejects rule o why ∧ sr_rule_results r = zip_with listed (seen ++ pre) os' ++ [listed rule o] ∧
      sr_decision r = reject ∧ sr_reason r = Some why ∧ sr_total_score r = score (seen ++ pre) os' ∧ sr_threshold r = th
  end.
Proof.
  revert seen os snap. induction rules as [|rule rules IH]; intros seen os snap Hos E; cbn [evaluate_rules] in E.
  - simplify_eq. exists os. by rewrite app_nil_r.
  - pose proof (Forall2_length _ _ _ Hos) as Hlen.
    apply bind_ok_inv in E as ([st snap'] & H & H0). apply evaluate_rule_inv in H as (o & Hj & Hst). destruct st as [rr|why rr]; destruct Hst as [-> Hrej].
    + rewrite <- zip_snoc in H0 by done. cbn [rr_applied_weight listed] in H0. rewrite <- score_snoc in H0 by done.
      apply (IH (seen ++ [rule]) (os ++ [o])) in H0; [|by apply Forall2_app, Forall2_cons].
      destruct out as [r|[[rs' s'] total]].
      * destruct H0 as (pre & rule' & post & os' & o' & why & -> & H1). rewrite <- app_assoc in H1. by exists (rule :: pre), rule', post, os', o', why.
      * by rewrite <- app_assoc in H0.
    + simplify_eq. exists [], rule, rules, os, o, why. rewrite app_nil_r. by split_and!.
Qed.

(** C9: a rule is judged on the value of its feature, taken from the bucket or
    else from a newest row of the table: missing, stale past the rule's limit,
    or else the boolean meaning of its condition (of a plugin, what it
    answers).  The score is the left-to-right float sum of the weights of the
    rules that hold, every other outcome counting nothing.  The evaluation ends
    before the last rule exactly at a required feature missing or stale or a
    rule that raises under on_error=reject, and rejects with that reason; else
    every rule is listed and the signal executes iff the sum reaches the
    threshold (in passthrough mode, always passes). *)
Theorem score_decides cfg sg e r :
  evaluate cfg sg e = Ok r →
  sr_threshold r = sc_trigger_threshold cfg ∧
  ((∃ os, Forall2 (passes sg e) (sc_rules cfg) os ∧ sr_rule_results r = zip_with listed (sc_rules cfg) os ∧
    sr_total_score r = score (sc_rules cfg) os ∧
    match sc_mode cfg with
    | sm_passthrough => sr_decision r = passthrough ∧ sr_reason r = None
    | sm_active => if fleb (sc_trigger_threshold cfg) (score (sc_rules cfg) os)
                   then sr_decision r = execute ∧ sr_reason r = None
                   else sr_decision r = reject ∧ sr_reason r = Some score_below_threshold
    end) ∨
   (∃ pre rule post os o why, sc_rules cfg = pre ++ rule :: post ∧ Forall2 (passes sg e) pre os ∧
      judged rule sg e o ∧ rejects rule o why ∧ sr_rule_results r = zip_with listed pre os ++ [listed rule o] ∧
      sr_decision r = reject ∧ sr_reason r = Some why ∧ sr_total_score r = score pre os)).
Proof.
  unfold evaluate. intros (a & H & H0)%bind_ok_inv. apply (evaluate_rules_spec _ _ _ _ [] []) in H; [|constructor].
  destruct a as [r'|[[rs snap] total]].
  - simplify_eq. destruct H as (pre & rule & post & os & o & why & H1 & H2 & H3 & H4 & H5 & H6 & H7 & H8 & H9).
    split; [done|]. right. by exists pre, rule, post, os, o, why.
  - destruct H as (os & H & -> & ->). cbn [app] in *.
    destruct (sc_mode cfg); [destruct (fleb _ _) eqn:Hf|]; simplify_eq; (split; [done|]); left; exists os; cbn; rewrite ?Hf; done.
Qed.

(** ** References *)
Fixpoint avoids (x : ascii) (s : string) : bool :=
  match s with EmptyString => true | String a s' => negb (bool_decide (a = x)) && avoids x s' end.

Lemma substitute_plain fuel s sym : (String.length s < fuel)%nat → avoids "$" s = true → substitute_loop fuel s sym = Ok s.
Proof.
  revert s. induction fuel as [|fuel IH]; intros [|a s] Hl Hs; cbn in Hl; [lia|lia|done|].
  cbn [substitute_loop]. cbn in Hs. apply andb_true_iff in Hs as [Ha Hs]. apply negb_true_iff in Ha. rewrite Ha. cbn [andb].
  rewrite IH by (done || lia). by destruct s.
Qed.

Lemma substitute_skip fuel s t sym r :
  avoids "$" s = true → substitute_loop fuel t sym = Ok r →
  substitute_loop (String.length s + fuel) (s +:+ t) sym = Ok (s +:+ r).
Proof.
  intros Hs Ht. induction s as [|a s IH]; [exact Ht|]. cbn in Hs. apply andb_true_iff in Hs as [Ha Hs]. apply negb_true_iff in Ha.
  change (String a s +:+ t) with (String a (s +:+ t)). cbn [String.length Nat.add substitute_loop]. rewrite Ha. cbn [andb].
  rewrite IH by done. by destruct (s +:+ t).
Qed.

Lemma length_app_str s t : String.length (s +:+ t) = (String.length s + String.length t)%nat.
Proof. induction s as [|a s IH]; [done|]. change (String a s +:+ t) with (String a (s +:+ t)). cbn. by f_equal. Qed.

Lemma token_symbol post : token_to_brace ("signal.symbol}" +:+ post) = Some ("signal.symbol", post).
Proof. reflexivity. Qed.
Lemma substitute_token fuel post sym :
  (String.length post < fuel)%nat → avoids "$" post = true →
  substitute_loop (S fuel) ("${signal.symbol}" +:+ post) sym = Ok (lower sym +:+ post).
Proof.
  intros Hf Hp. change ("${signal.symbol}" +:+ post) with (String "$" (String "{" ("signal.symbol}" +:+ post))).
  cbn [substitute_loop]. rewrite token_symbol, (substitute_plain fuel post) by done. reflexivity.
Qed.

(** A template with one [${signal.symbol}] and no other [$] resolves to the
    reference with the symbol in lower case. *)
Lemma template_substitutes_symbol pre post sg :
  avoids "$" pre = true → avoids "$" post = true →
  substitute_template (pre +:+ "${signal.symbol}" +:+ post) sg = Ok (pre +:+ lower (sg_symbol sg) +:+ post).
Proof.
  intros Hpre Hpost. unfold substitute_template. rewrite length_app_str, <- Nat.add_succ_r.
  apply substitute_skip; [done|]. apply substitute_token; [|done]. rewrite length_app_str. cbn. lia.
Qed.

Lemma split_dots_head s t : avoids "." s = true → split_dots (s +:+ String "." t) = s :: split_dots t.
Proof.
  induction s as [|a s IH]; intros Hs; [done|]. cbn in Hs. apply andb_true_iff in Hs as [Ha Hs]. apply negb_true_iff in Ha.
  change (String a s +:+ String "." t) with (String a (s +:+ String "." t)). cbn [split_dots]. by rewrite Ha, IH.
Qed.

Lemma lower_ascii_idem a : lower_ascii (lower_ascii a) = lower_ascii a.
Proof. destruct a as [[] [] [] [] [] [] [] []]; reflexivity. Qed.
Lemma lower_idem s : lower (lower s) = lower s.
Proof. induction s as [|a s IH]; cbn; [done|]. by rewrite lower_ascii_idem, IH. Qed.
Lemma lower_avoids_dot s : avoids "." s = true → avoids "." (lower s) = true.
Proof.
  induction s as [|a s IH]; [done|]. cbn. rewrite !andb_true_iff. intros [Ha Hs]. split; [|by apply IH].
  revert Ha. destruct a as [[] [] [] [] [] [] [] []]; (discriminate || reflexivity).
Qed.

(** ** Lookups *)

(** The feature engine stores rows under the candle's symbol, which is upper
    case. *)
Definition stored_upper (e : resolver_env) : Prop := ∀ r, r ∈ features e → lower (fr_symbol r) ≠ fr_symbol r.

Lemma features_of_lower name sym e : stored_upper e → features_of name (lower sym) e = [].
Proof.
  intros Hu. unfold features_of. apply Permutation_nil_r. rewrite merge_sort_Permutation. apply Permutation_nil_r.
  apply elem_of_nil_inv. intros r [Hs Hr]%list_elem_of_filter. apply andb_true_iff in Hs as [_ Hs].
  apply bool_decide_eq_true in Hs. apply (Hu r Hr). by rewrite Hs, lower_idem.
Qed.

(** References of the templated form [ind.${signal.symbol}.<interval>.<rest>]. *)
Definition templated (interval rest : string) : string := "ind." +:+ "${signal.symbol}" +:+ "." +:+ interval +:+ "." +:+ rest.

Lemma templated_ref sg interval rest :
  avoids "$" interval = true → avoids "$" rest = true →
  substitute_template (templated interval rest) sg = Ok ("ind." +:+ lower (sg_symbol sg) +:+ "." +:+ interval +:+ "." +:+ rest).
Proof.
  intros Hi Hr. unfold substitute_template, templated. rewrite length_app_str, <- Nat.add_succ_r.
  apply substitute_skip; [done|]. apply substitute_token; [rewrite (length_app_str "${signal.symbol}"); cbn [String.length]; lia|].
  change (avoids "$" ("." +:+ interval +:+ "." +:+ rest)) with (avoids "$" (interval +:+ String "." rest)).
  clear -Hi Hr. induction interval as [|a s IH]; [exact Hr|]. cbn in Hi. apply andb_true_iff in Hi as [Ha Hs].
  change (String a s +:+ String "." rest) with (String a (s +:+ String "." rest)). cbn. by rewrite Ha, IH.
Qed.
Lemma templated_parse sg interval rest :
  avoids "." (sg_symbol sg) = true → avoids "." interval = true →
  parse_feature_ref ("ind." +:+ lower (sg_symbol sg) +:+ "." +:+ interval +:+ "." +:+ rest) =
  match interval_seconds interval with
  | Some secs => Ok (lower (sg_symbol sg), interval, secs)
  | None => Err (ValueError "unknown interval")
  end.
Proof.
  intros Hs Hi. unfold parse_feature_ref.
  assert (split_dots ("ind." +:+ lower (sg_symbol sg) +:+ "." +:+ interval +:+ "." +:+ rest) =
          "ind" :: lower (sg_symbol sg) :: interval :: split_dots rest) as ->.
  { etrans; [by apply (split_dots_head "ind" (lower (sg_symbol sg) +:+ "." +:+ interval +:+ "." +:+ rest))|]. f_equal.
    etrans; [apply (split_dots_head (lower (sg_symbol sg)) (interval +:+ "." +:+ rest)); by apply lower_avoids_dot|]. f_equal.
    by apply (split_dots_head interval rest). }
  destruct (split_dots rest) eqn:Hr; [|done]. exfalso. destruct rest as [|a rest]; [discriminate|]. cbn in Hr.
  destruct (bool_decide _); [discriminate|]. by destruct (split_dots rest).
Qed.

(** The three consequences, for any reference that parses to a lower-case symbol. *)
Section lower_reference.
Context (e : resolver_env) (sg : SignalValidated) (tmpl ref s i : string) (secs : Z).
Hypothesis Hu : stored_upper e.
Hypothesis Href : substitute_template tmpl sg = Ok ref.
Hypothesis Hparse : parse_feature_ref ref = Ok (lower s, i, secs).

Lemma history_empty n : resolve_history tmpl sg n e = Ok [].
Proof.
  unfold resolve_history. rewrite Href. cbn [mbind res_bind]. rewrite Hparse. cbn [mbind res_bind].
  unfold select_feature_history. rewrite features_of_lower by done. unfold last_n. by destruct (_ - _)%nat.
Qed.

Lemma resolved_from_kv r ms :
  resolve tmpl sg ms e = Ok r → rv_status r = rs_ok →
  ∃ v at_, rv_value r = Some v ∧ try_kv (ref +:+ ":" +:+ upper (sg_symbol sg)) e = Ok (Some (v, at_)).
Proof.
  intros Hr Hok. unfold resolve in Hr. rewrite Href in Hr. cbn [mbind res_bind] in Hr. rewrite Hparse in Hr. cbn [mbind res_bind] in Hr.
  apply bind_ok_inv in Hr as (kv & Hkv & Hr). destruct kv as [[v at_]|].
  - simplify_eq. unfold check_staleness in *. destruct (_ <? _); [done|]. cbn. eauto.
  - unfold try_db, select_latest_feature in Hr. rewrite features_of_lower in Hr by done. cbn in Hr. by simplify_eq.
Qed.

Lemma series_rule_scores_nothing rule n rr snap snap' :
  rl_feature rule = tmpl → rl_condition rule = RisingCondition n ∨ rl_condition rule = FallingCondition n →
  evaluate_rule rule sg e snap = Ok (continue_with rr, snap') → rr_applied_weight rr = fzero.
Proof.
  intros Hf Hc E. unfold evaluate_rule in E. rewrite Hf in E. apply bind_ok_inv in E as (res & _ & E).
  destruct (rv_status res); [|destruct (rl_required rule); simplify_eq; done..].
  destruct (rv_value res); [|done]. rewrite Href in E. cbn [mbind res_bind] in E.
  assert (required_history_window (rl_condition rule) = Some n) as Hw by (destruct Hc as [->| ->]; done).
  rewrite Hw, history_empty in E. cbn [mbind res_bind] in E.
  destruct Hc as [Hc|Hc]; rewrite Hc in E; cbn [eval] in E; unfold eval_series, check_history_window in E;
    cbn [rc_feature_history] in E; rewrite lookup_empty in E; simplify_eq; done.
Qed.
End lower_reference.

(** For a templated feature the database side of the resolver never finds
    a row stored under an upper-case symbol, because it asks for the
    lower-case symbol of the reference: a value can only come from the KV
    bucket, the history is always empty, and a [rising] or [falling] rule
    never scores. *)
Lemma database_lookups_miss_upper_case e sg interval rest secs :
  stored_upper e → avoids "." (sg_symbol sg) = true → interval_seconds interval = Some secs →
  avoids "$" interval = true → avoids "." interval = true → avoids "$" rest = true →
  (∀ n, resolve_history (templated interval rest) sg n e = Ok []) ∧
  (∀ r ms, resolve (templated interval rest) sg ms e = Ok r → rv_status r = rs_ok →
     ∃ key v at_, rv_value r = Some v ∧ try_kv key e = Ok (Some (v, at_))) ∧
  (∀ rule n rr snap snap', rl_feature rule = templated interval rest →
     rl_condition rule = RisingCondition n ∨ rl_condition rule = FallingCondition n →
     evaluate_rule rule sg e snap = Ok (continue_with rr, snap') → rr_applied_weight rr = fzero).
Proof.
  intros Hu Hsym Hsecs Hi Hid Hrest.
  pose proof (templated_ref sg interval rest Hi Hrest) as Href.
  pose proof (templated_parse sg interval rest Hsym Hid) as Hparse. rewrite Hsecs in Hparse.
  revert Href Hparse. generalize (templated interval rest) as tmpl.
  generalize ("ind." +:+ lower (sg_symbol sg) +:+ "." +:+ interval +:+ "." +:+ rest) as ref. intros ref tmpl Href Hparse.
  split; [intros n; by eapply history_empty|]. split.
  - intros r ms Hr Hok. destruct (resolved_from_kv _ _ _ _ _ _ _ Hu Href Hparse _ _ Hr Hok) as (v & at_ & H1 & H2). eauto.
  - intros rule n rr snap snap'. by eapply series_rule_scores_nothing.
Qed.

(** ** ema_stack under the evaluator *)
Lemma dltb_irrefl d : dltb d d = false.
Proof. apply dltb_false. lra. Qed.

Lemma stack_of_singleton ref v refs ds :
  stack_values refs {[ref := v]} = inl ds → length ds = length refs ∧ ∃ d, Forall (eq d) ds.
Proof.
  revert ds. induction refs as [|r refs IH]; intros ds; cbn [stack_values]; [intros [= <-]; split; [done|exists dzero; constructor]|].
  destruct ({[ref := v]} !! r) as [v'|] eqn:Hr; [|discriminate]. apply lookup_singleton_Some in Hr as [<- <-].
  destruct v as [d| |]; [|discriminate..]. destruct (stack_values refs _) as [ds'|] eqn:E; [|discriminate]. intros [= <-].
  destruct (IH ds' eq_refl) as [Hl [d' Hd']]. split; [cbn; by f_equal|].
  destruct refs as [|r' refs]; cbn in *; [destruct ds'; [exists d; by constructor|discriminate]|].
  destruct ({[ref := value_num d]} !! r') as [v'|] eqn:Hr'; [|discriminate]. apply lookup_singleton_Some in Hr' as [<- <-].
  destruct (stack_values refs _); [|discriminate]. injection E as <-. inversion Hd'; subst. exists d. by constructor.
Qed.

Lemma pairwise_const R d ds : R d d = false → (2 <= length ds)%nat → Forall (eq d) ds → pairwise R ds = false.
Proof.
  intros HR Hl Hd. destruct ds as [|a [|b ds]]; cbn in Hl; [lia..|].
  inversion Hd as [|? ? <- Hd']; subst. inversion Hd' as [|? ? <- _]; subst. cbn. by rewrite HR.
Qed.

(** An [ema_stack] rule never scores: the evaluator hands a condition the
    one feature its rule names, and three names over one value are either
    missing or equal, never strictly ordered. *)
Lemma ema_stack_never_scores rule refs up sg e snap rr snap' :
  rl_condition rule = EmaStackCondition refs up → length refs = 3%nat →
  evaluate_rule rule sg e snap = Ok (continue_with rr, snap') → rr_applied_weight rr = fzero.
Proof.
  intros Hc Hl E. unfold evaluate_rule in E. rewrite Hc in E. cbn [required_history_window eval] in E.
  apply bind_ok_inv in E as (res & _ & E). destruct (rv_status res); [|destruct (rl_required rule); simplify_eq; done..].
  destruct (rv_value res) as [v|]; [|done]. apply bind_ok_inv in E as (ref & _ & E). cbn [mbind res_bind] in E.
  unfold eval_ema_stack in E. cbn [rc_feature_snapshot] in E.
  destruct (stack_values refs {[ref := v]}) as [ds|err] eqn:Hs; [|simplify_eq; done].
  apply stack_of_singleton in Hs as [Hlen [d Hd]].
  rewrite (pairwise_const _ d) in E; [simplify_eq; done| |lia|done]. destruct up; apply dltb_irrefl.
Qed.

(** ** Concrete runs *)
Definition demo_signal : SignalValidated := mkSignal "tv" "key" 0 "BTCUSDT" LONG 1000000000.
Definition demo_env : resolver_env :=
  mkEnv (fun k => if bool_decide (k = "ind.btcusdt.1m.rsi_14:BTCUSDT") then kv_update (mkUpdate 0 (Some (25 @ 0)) None None) else kv_miss)
    [mkFeature "ind.btcusdt.1m.rsi_14" "BTCUSDT" (Some (24 @ 0)) None None 0;
     mkFeature "ind.btcusdt.1m.rsi_14" "BTCUSDT" (Some (25 @ 0)) None None 60000000] 60000000.
Definition demo_ctx : RuleContext := mkCtx demo_signal {["f" := value_num (25 @ 0)]} "f" ∅.
Definition demo_condition : condition := AndCondition [LtCondition (30 @ 0); NotCondition (RisingCondition 2)].
Definition fone : pyfloat := SpecFloat.S754_finite false 4503599627370496 (-52).
Definition demo_rule (c : condition) : ScoringRule := mkRule "r" fone (templated "1m" "rsi_14") c oe_skip false None.
Definition demo_scoring : ScoringConfig := mkScoring sm_active fone [demo_rule demo_condition].

Lemma score_decides_witness :
  ∃ r os, evaluate demo_scoring demo_signal demo_env = Ok r ∧ sr_decision r = execute ∧
    Forall2 (passes demo_signal demo_env) (sc_rules demo_scoring) os ∧ score (sc_rules demo_scoring) os = fone.
Proof.
  destruct (evaluate demo_scoring demo_signal demo_env) as [r|] eqn:E; [|vm_compute in E; discriminate].
  destruct (score_decides _ _ _ _ E) as [_ [(os & Hos & _ & Ht & _)|(pre & rule & post & os & o & why & _ & _ & _ & _ & _ & Hd & _)]].
  - exists r, os. split; [reflexivity|]. vm_compute in E. injection E as <-. by split_and!.
  - vm_compute in E. injection E as <-. discriminate Hd.
Defined.

Lemma demo_stored_upper : stored_upper demo_env.
Proof. intros r Hr. cbn in Hr. rewrite !elem_of_cons, elem_of_nil in Hr. destruct Hr as [->|[->|[]]]; vm_compute; discriminate. Qed.

