(* ===== verification/Consumer.v ===== *)
(** * The strategy-engine signal handler

    Models services/strategy_engine/app/consumer.py: [make_signal_handler]'s
    closure with its steps 0, 3a to 3h and the five pre-scoring gates in their
    order, and the four helpers it calls, over the tables of RiskGates and the
    pipeline of Scoring.  The handler's value is the label it logs; what it
    persists and publishes is in the world it leaves.

    The calls whose failure the handler catches fail or not as [faults] says;
    a gate's exception is not caught and propagates.  Metrics counters and the
    log lines other than the label are not represented. *)

From S2P Require Import Prelude Dec Sizing PaperDb PaperInv RiskGates Scoring.
From stdpp Require Import sorting.
Open Scope Z_scope.

(** ** Configuration *)
Record ExecutionSection := mkExecution {
  x_qty : dec; x_leverage : Z; x_sl_pct : dec; x_tp_pct : dec; x_tp_qty_pct : dec; x_be_trigger : dec;
  x_be_sl_level : dec; x_trail_pct : dec; x_fee_rate : dec; x_sl_retry_count : Z; x_emergency_close : bool;
}.
Record ShadowVariant := mkVariant { sv_name : string; sv_overrides : gmap string dec }.
Record ShadowConfig := mkShadow { sh_enabled : bool; sh_variants : list ShadowVariant; sh_max_duration_hours : dec }.
Record BotConfig := mkBot {
  b_bot_id : string; b_version : Z; b_symbols : list string; b_mode : exchange_mode;
  b_source_filter : option (list string); b_execution : ExecutionSection; b_scoring : ScoringConfig;
  b_shadow : option ShadowConfig; b_risk : RiskSection; b_sizing : option SizingSection;
}.

(** ** Messages *)
Record OrderRequest := mkOrderRequest {
  or_bot_id : string; or_signal_id : Z; or_symbol : string; or_side : side; or_qty : dec; or_leverage : Z;
  or_sl_pct : dec; or_tp_pct : dec; or_tp_qty_pct : dec; or_be_trigger : dec; or_be_sl_level : dec; or_trail_pct : dec;
  or_exchange_mode : exchange_mode; or_shadow_variants : list ShadowVariant; or_shadow_max_duration_hours : option dec;
  or_score : option pyfloat; or_sizing : option SizingSection;
}.
Record SignalRejected := mkRejected {
  rj_bot_id : string; rj_signal_id : Z; rj_idempotency_key : string; rj_symbol : string; rj_action : action;
  rj_reason : reject_reason; rj_total_score : pyfloat; rj_threshold : pyfloat; rj_rejected_at : Z;
}.
Record ShadowRejectedStart := mkShadowStart {
  ss_signal_id : Z; ss_bot_id : string; ss_symbol : string; ss_action : action; ss_virtual_entry_price : dec;
  ss_sl_pct : dec; ss_tp_pct : dec; ss_be_trigger : dec; ss_be_sl_level : dec; ss_rejected_at : Z;
}.
Inductive message :=
| orders_request (m : OrderRequest)
| signals_rejected (m : SignalRejected)
| shadow_rejected_start (m : ShadowRejectedStart).
Record envelope := mkEnvelope { ev_correlation_id : string; ev_payload : option SignalValidated }.

(** ** The world *)
Record signal_row := mkSignalRow { sg_id : Z; sg_key : string; sg_row_received_at : Z }.
Record eval_row := mkEval {
  se_bot_id : string; se_signal_id : Z; se_evaluated_at : Z; se_result : ScoringResult; se_config_version : Z;
  se_correlation_id : string;
}.
Record world := mkWorld {
  w_risk : risk_db; w_signals : list signal_row; w_resolver : resolver_env; w_closes : gmap string dec;
  w_scoring_evaluations : list eval_row; w_published : list (string * message);
}.
Record faults := mkFaults { insert_fails : bool; publish_fails : bool; close_fails : bool }.
Abbreviation W := (ST world).

Definition set_risk (d : risk_db) (w : world) : world :=
  mkWorld d (w_signals w) (w_resolver w) (w_closes w) (w_scoring_evaluations w) (w_published w).
Definition add_eval (r : eval_row) (w : world) : world :=
  mkWorld (w_risk w) (w_signals w) (w_resolver w) (w_closes w) (w_scoring_evaluations w ++ [r]) (w_published w).
Definition add_published (m : string * message) (w : world) : world :=
  mkWorld (w_risk w) (w_signals w) (w_resolver w) (w_closes w) (w_scoring_evaluations w) (w_published w ++ [m]).
Definition on_risk {A} (m : RG A) : W A := fun w => let '(r, d) := m (w_risk w) in (r, set_risk d w).

Definition received_before (a b : signal_row) : Prop := sg_row_received_at a <= sg_row_received_at b.
#[global] Instance received_before_dec : RelDecision received_before.
Proof. intros a b. unfold received_before. apply _. Defined.
Definition select_signal_id_by_idempotency_key (key : string) (lower_bound : Z) (w : world) : option Z :=
  sg_id <$> last (merge_sort received_before
    (filter (fun r => bool_decide (sg_key r = key) && (lower_bound <=? sg_row_received_at r) = true) (w_signals w))).

(** [bus.publish] with the caught errors. *)
Definition publish (f : faults) (correlation_id : string) (m : message) : W unit :=
  if publish_fails f then mret tt else modify (add_published (correlation_id, m)).

(** ** Helpers *)
Definition action_to_side (a : action) : res side :=
  match a with LONG => Ok buy | SHORT => Ok sell | CLOSE => Err (KeyError "CLOSE") end.

(** The message [_publish_order_request] builds. *)
Definition order_request_of (b : BotConfig) (sg : SignalValidated) (signal_id : Z) (score : pyfloat) (sd : side) : OrderRequest :=
  let enabled := match b_shadow b with Some s => if sh_enabled s then Some s else None | None => None end in
  let x := b_execution b in
  mkOrderRequest (b_bot_id b) signal_id (sg_symbol sg) sd (x_qty x) (x_leverage x)
    (x_sl_pct x) (x_tp_pct x) (x_tp_qty_pct x) (x_be_trigger x) (x_be_sl_level x) (x_trail_pct x) (b_mode b)
    (match enabled with Some s => sh_variants s | None => [] end) (sh_max_duration_hours <$> enabled) (Some score) (b_sizing b).
Definition publish_order_request (f : faults) (b : BotConfig) (sg : SignalValidated) (signal_id : Z) (score : pyfloat)
    (corr : string) : W unit :=
  sd ← lift_res (action_to_side (sg_action sg));
  publish f corr (orders_request (order_request_of b sg signal_id score sd)).

Definition signal_rejected_of (b : BotConfig) (sg : SignalValidated) (signal_id : Z) (r : ScoringResult) (now : Z) : SignalRejected :=
  mkRejected (b_bot_id b) signal_id (sg_idempotency_key sg) (sg_symbol sg) (sg_action sg)
    (default score_below_threshold (sr_reason r)) (sr_total_score r) (sr_threshold r) now.
Definition publish_signal_rejected (f : faults) (b : BotConfig) (sg : SignalValidated) (signal_id : Z)
    (r : ScoringResult) (now : Z) (corr : string) : W unit :=
  publish f corr (signals_rejected (signal_rejected_of b sg signal_id r now)).

Definition resolve_virtual_entry (f : faults) (symbol : string) : W dec :=
  gets (fun w => if close_fails f then dzero else default dzero (w_closes w !! symbol)).

Definition shadow_start_of (b : BotConfig) (sg : SignalValidated) (signal_id now : Z) (entry : dec) : ShadowRejectedStart :=
  let x := b_execution b in
  mkShadowStart signal_id (b_bot_id b) (sg_symbol sg) (sg_action sg) entry
    (x_sl_pct x) (x_tp_pct x) (x_be_trigger x) (x_be_sl_level x) now.
Definition publish_shadow_rejected_start (f : faults) (b : BotConfig) (sg : SignalValidated) (signal_id now : Z)
    (entry : dec) (corr : string) : W unit :=
  publish f corr (shadow_rejected_start (shadow_start_of b sg signal_id now entry)).

(** ** The handler *)
Inductive label :=
| signal_validated_validation_failed | signal_expired | signal_outside_universe | signal_outside_source_filter
| close_action_unsupported_v1 | signal_blocked_opposite_side | signal_blocked_cooldown | signal_blocked_caps
| signal_blocked_loss_limit | signal_blocked_drawdown | signal_id_unresolved | scoring_evaluator_crashed
| scoring_evaluations_insert_failed | order_requested | signal_was_rejected.

Section handler.
Context `{PgNumeric} (b : BotConfig) (max_signal_age_seconds : Z).

(** The five gates between 3b and 3c, in order; [None] when all pass. *)
Definition run_gates (sg : SignalValidated) (now : Z) : W (option label) :=
  let bot := b_bot_id b in let m := b_mode b in let r := b_risk b in
  sd ← lift_res (action_to_side (sg_action sg));
  o ← on_risk (check_opposite_side bot m (sg_symbol sg) sd r);
  if os_active o then mret (Some signal_blocked_opposite_side) else
  c ← on_risk (check_cooldown bot m now r);
  if cd_active c then mret (Some signal_blocked_cooldown) else
  k ← on_risk (check_concurrent_caps bot m r);
  if cp_blocked k then mret (Some signal_blocked_caps) else
  l ← on_risk (check_daily_loss_limit bot m now r);
  if ll_blocked l then mret (Some signal_blocked_loss_limit) else
  d ← on_risk (check_max_drawdown bot m now r);
  if dd_blocked d then mret (Some signal_blocked_drawdown) else mret None.

(** Steps 3d, 3h and 3e to 3g. *)
Definition score_and_dispatch (f : faults) (corr : string) (sg : SignalValidated) (signal_id now : Z) : W label :=
  w ← get_st;
  match evaluate (b_scoring b) sg (w_resolver w) with
  | Err _ => mret scoring_evaluator_crashed
  | Ok r =>
      if insert_fails f then mret scoring_evaluations_insert_failed
      else
        modify (add_eval (mkEval (b_bot_id b) signal_id now r (b_version b) corr)) ;;
        match sr_decision r with
        | execute | passthrough =>
            publish_order_request f b sg signal_id (sr_total_score r) corr ;; mret order_requested
        | reject =>
            publish_signal_rejected f b sg signal_id r now corr ;;
            entry ← resolve_virtual_entry f (sg_symbol sg);
            publish_shadow_rejected_start f b sg signal_id now entry corr ;;
            mret signal_was_rejected
        end
  end.

Definition handle (f : faults) (now : Z) (env : envelope) : W label :=
  match ev_payload env with
  | None => mret signal_validated_validation_failed
  | Some sg =>
      if sg_expires_at sg <? now then mret signal_expired
      else if negb (bool_decide (sg_symbol sg ∈ b_symbols b)) then mret signal_outside_universe
      else if match b_source_filter b with Some l => negb (bool_decide (sg_source sg ∈ l)) | None => false end
      then mret signal_outside_source_filter
      else if bool_decide (sg_action sg = CLOSE) then mret close_action_unsupported_v1
      else
        g ← run_gates sg now;
        match g with
        | Some l => mret l
        | None =>
            w ← get_st;
            match select_signal_id_by_idempotency_key (sg_idempotency_key sg) (now - max_signal_age_seconds * 1000000) w with
            | None => mret signal_id_unresolved
            | Some signal_id => score_and_dispatch f (ev_correlation_id env) sg signal_id now
            end
        end
  end.
End handler.

(** ** What the handler does *)
Section handler_facts.
Context `{PgNumeric} (b : BotConfig) (max_age : Z).

(** Only the risk tables may differ. *)
Definition risk_only (w w' : world) : Prop := ∃ d, w' = set_risk d w.
Lemma risk_only_refl w : risk_only w w.
Proof. exists (w_risk w). by destruct w. Qed.

Lemma on_risk_inv {A} (m : RG A) w r w' : on_risk m w = (r, w') → ∃ d, m (w_risk w) = (r, d) ∧ w' = set_risk d w.
Proof. unfold on_risk. destruct (m (w_risk w)) as [r' d]. intros [= -> <-]. eauto. Qed.

Lemma on_risk_only {A} w0 (m : RG A) : preserves (risk_only w0) (on_risk m).
Proof. intros w r w' [d ->] E. apply on_risk_inv in E as (d' & _ & ->). by exists d'. Qed.
#[local] Hint Resolve on_risk_only : scalper.

Lemma run_gates_risk_only sg now w0 : preserves (risk_only w0) (run_gates b sg now).
Proof.
  unfold run_gates. preserve.
  repeat match goal with |- preserves _ (if ?x then _ else _) => destruct x; preserve end.
Qed.

(** A valid entry signal for this bot. *)
Definition admissible (now : Z) (sg : SignalValidated) : Prop :=
  now <= sg_expires_at sg ∧ sg_symbol sg ∈ b_symbols b ∧
  match b_source_filter b with Some l => sg_source sg ∈ l | None => True end ∧ sg_action sg ≠ CLOSE.

(** Either nothing is persisted or published, or the handler got through to
    step 3d with every gate passed. *)
Lemma handle_cases f now env w r w' :
  handle b max_age f now env w = (r, w') →
  risk_only w w' ∨
  ∃ sg sid w1, ev_payload env = Some sg ∧ admissible now sg ∧ run_gates b sg now w = (Ok None, w1) ∧ risk_only w w1 ∧
    select_signal_id_by_idempotency_key (sg_idempotency_key sg) (now - max_age * 1000000) w1 = Some sid ∧
    score_and_dispatch b f (ev_correlation_id env) sg sid now w1 = (r, w').
Proof.
  unfold handle. destruct (ev_payload env) as [sg|]; [|intros [= <- <-]; left; apply risk_only_refl].
  destruct (_ <? now) eqn:Hexp; [intros [= <- <-]; left; apply risk_only_refl|].
  case_bool_decide as Hsym; cbn [negb]; [|intros [= <- <-]; left; apply risk_only_refl].
  destruct (match b_source_filter b with Some l => _ | None => _ end) eqn:Hsrc; [intros [= <- <-]; left; apply risk_only_refl|].
  case_bool_decide as Hact; [intros [= <- <-]; left; apply risk_only_refl|].
  intros E. apply st_bind_cases in E as [(g & w1 & Hg & E)|(e & Hg & ->)].
  2: { left. eapply run_gates_risk_only; [apply risk_only_refl|done]. }
  assert (risk_only w w1) as Hw1 by (eapply run_gates_risk_only; [apply risk_only_refl|done]).
  destruct g as [l|]; [injection E as <- <-; by left|].
  apply st_bind_cases in E as [(w2 & w3 & [= <- <-] & E)|(e & [=] & _)].
  destruct (select_signal_id_by_idempotency_key _ _ w1) as [sid|] eqn:Hid; [|injection E as <- <-; by left].
  right. exists sg, sid, w1. split; [done|]. split; [|done]. apply Z.ltb_ge in Hexp. split; [done|]. split; [done|]. split; [|done].
  destruct (b_source_filter b); [|done]. apply negb_false_iff in Hsrc. by apply bool_decide_eq_true in Hsrc.
Qed.

(** What a decision publishes while the bus works. *)
Definition messages_for (f : faults) (sg : SignalValidated) (sid now : Z) (closes : gmap string dec) (res : ScoringResult)
  : list message :=
  match sr_decision res with
  | reject =>
      [signals_rejected (signal_rejected_of b sg sid res now);
       shadow_rejected_start (shadow_start_of b sg sid now (if close_fails f then dzero else default dzero (closes !! sg_symbol sg)))]
  | _ => match action_to_side (sg_action sg) with
         | Ok sd => [orders_request (order_request_of b sg sid (sr_total_score res) sd)]
         | Err _ => []
         end
  end.

(** Steps 3d to 3h: at most one audit row, written before anything is
    published, and what is published follows from the decision on it. *)
Lemma dispatch_spec f corr sg sid now w r w' :
  sg_action sg ≠ CLOSE → score_and_dispatch b f corr sg sid now w = (r, w') →
  (w' = w ∧ (r = Ok scoring_evaluator_crashed ∨ r = Ok scoring_evaluations_insert_failed)) ∨
  ∃ res, evaluate (b_scoring b) sg (w_resolver w) = Ok res ∧ insert_fails f = false ∧
    r = Ok (match sr_decision res with reject => signal_was_rejected | _ => order_requested end) ∧
    w' = mkWorld (w_risk w) (w_signals w) (w_resolver w) (w_closes w)
           (w_scoring_evaluations w ++ [mkEval (b_bot_id b) sid now res (b_version b) corr])
           (w_published w ++ if publish_fails f then [] else map (pair corr) (messages_for f sg sid now (w_closes w) res)).
Proof.
  intros Hact E. unfold score_and_dispatch in E. apply st_bind_cases in E as [(w1 & w2 & [= <- <-] & E)|(e & [=] & _)].
  destruct (evaluate (b_scoring b) sg (w_resolver w)) as [res|e] eqn:Hev; [|injection E as <- <-; left; auto].
  destruct (insert_fails f) eqn:Hins; [injection E as <- <-; left; auto|]. right. exists res. do 2 (split; [done|]).
  assert (∃ sd, action_to_side (sg_action sg) = Ok sd) as [sd Hsd] by (destruct (sg_action sg); [eauto..|done]).
  unfold messages_for. rewrite Hsd.
  unfold publish_order_request, publish_signal_rejected, publish_shadow_rejected_start, resolve_virtual_entry, publish in E.
  rewrite Hsd in E. destruct (sr_decision res), (publish_fails f); injection E as <- <-; (split; [done|]);
    unfold add_eval, add_published; cbn; rewrite ?app_nil_r, <- ?app_assoc; done.
Qed.

(** All five gates pass only over tables in which the bot may open. *)
Lemma run_gates_clear sg now w w1 :
  run_gates b sg now w = (Ok None, w1) →
  ∃ sd, action_to_side (sg_action sg) = Ok sd ∧ clear_to_open (b_bot_id b) (b_mode b) (sg_symbol sg) sd now (b_risk b) (w_risk w).
Proof.
  intros E. unfold run_gates in E. apply st_bind_ok_inv in E as (sd & w2 & [= Hsd <-] & E). exists sd. split; [done|].
  apply st_bind_ok_inv in E as (o & w2 & E1 & E). apply on_risk_inv in E1 as (d1 & E1 & ->).
  destruct (os_active o) eqn:Ho; [discriminate|]. apply opposite_side_pass in E1 as [-> H1]; [|done].
  apply st_bind_ok_inv in E as (c & w3 & E2 & E). apply on_risk_inv in E2 as (d2 & E2 & ->).
  destruct (cd_active c) eqn:Hc; [discriminate|]. apply cooldown_pass in E2 as [-> H2]; [|done].
  apply st_bind_ok_inv in E as (k & w4 & E3 & E). apply on_risk_inv in E3 as (d3 & E3 & ->).
  destruct (cp_blocked k) eqn:Hk; [discriminate|]. apply caps_pass in E3 as (-> & H3 & H4); [|done].
  apply st_bind_ok_inv in E as (l & w5 & E4 & E). apply on_risk_inv in E4 as (d4 & E4 & ->).
  destruct (ll_blocked l) eqn:Hl; [discriminate|]. apply loss_pass in E4 as (Ht & Hp & Hback & Hn4 & H5); [|done].
  apply st_bind_ok_inv in E as (x & w6 & E5 & E). apply on_risk_inv in E5 as (d5 & E5 & ->).
  destruct (dd_blocked x) eqn:Hx; [discriminate|]. pose proof (drawdown_pass _ _ _ _ _ _ _ E5 Hx) as H6. cbn [w_risk set_risk] in *.
  constructor; [done..| |done|].
  - intros Hen st Hst Htr. apply stale_latch_iff; [done|]. revert st Hst Htr. change (no_live_latch (b_bot_id b) now (w_risk w)).
    destruct Hen as [Hen|Hen]; [by apply Hn4|by apply Hback, H6].
  - intros Hen. destruct (H6 Hen) as [_ Hv]. unfold select_pnl_peak_and_current in Hv.
    by rewrite (closed_rows_eq _ (b_bot_id b) (w_risk w) d4 Ht Hp) in Hv.
Qed.

(** [sid] is the newest stored signal with the key, no older than [floor]. *)
Definition newest_signal (key : string) (floor sid : Z) (rows : list signal_row) : Prop :=
  ∃ row, row ∈ rows ∧ sg_id row = sid ∧ sg_key row = key ∧ floor <= sg_row_received_at row ∧
    ∀ row', row' ∈ rows → sg_key row' = key → sg_row_received_at row' <= sg_row_received_at row.

Lemma select_signal_newest key floor w sid :
  select_signal_id_by_idempotency_key key floor w = Some sid → newest_signal key floor sid (w_signals w).
Proof.
  unfold select_signal_id_by_idempotency_key. set (l := filter _ (w_signals w)). intros E.
  apply fmap_Some in E as (row & Hl & ->).
  assert (∀ r, r ∈ l ↔ r ∈ w_signals w ∧ sg_key r = key ∧ floor <= sg_row_received_at r) as Hin.
  { intros r. unfold l. rewrite list_elem_of_filter, andb_true_iff, bool_decide_eq_true, Z.leb_le. tauto. }
  assert (row ∈ l) as Hrow by (apply last_Some_elem_of in Hl; by rewrite merge_sort_Permutation in Hl).
  apply Hin in Hrow as (H1 & H2 & H3). exists row. split_and!; [done..|]. intros r' Hr' Hk.
  destruct (decide (floor <= sg_row_received_at r')) as [Hf|]; [|lia].
  apply (sorted_last received_before (merge_sort received_before l) row); [intros ?; unfold received_before; lia| |done|].
  - apply StronglySorted_merge_sort; [intros ? ? ?; unfold received_before; lia|intros ? ?; unfold received_before; lia].
  - rewrite merge_sort_Permutation. by apply Hin.
Qed.

(** What an order request carries: the bot, the signal, its direction as the
    side of the entry, and the execution, shadow and sizing settings of the
    configuration. *)
Record carries (sg : SignalValidated) (sid : Z) (score : pyfloat) (m : OrderRequest) : Prop := {
  ca_ids : or_bot_id m = b_bot_id b ∧ or_signal_id m = sid ∧ or_symbol m = sg_symbol sg;
  ca_long : sg_action sg = LONG → or_side m = buy;
  ca_short : sg_action sg = SHORT → or_side m = sell;
  ca_size : or_qty m = x_qty (b_execution b) ∧ or_leverage m = x_leverage (b_execution b) ∧ or_sizing m = b_sizing b;
  ca_stops : or_sl_pct m = x_sl_pct (b_execution b) ∧ or_tp_pct m = x_tp_pct (b_execution b) ∧
    or_tp_qty_pct m = x_tp_qty_pct (b_execution b) ∧ or_be_trigger m = x_be_trigger (b_execution b) ∧
    or_be_sl_level m = x_be_sl_level (b_execution b) ∧ or_trail_pct m = x_trail_pct (b_execution b);
  ca_mode : or_exchange_mode m = b_mode b ∧ or_score m = Some score;
  ca_shadow : match b_shadow b with
    | Some s => if sh_enabled s then or_shadow_variants m = sh_variants s ∧ or_shadow_max_duration_hours m = Some (sh_max_duration_hours s)
                else or_shadow_variants m = [] ∧ or_shadow_max_duration_hours m = None
    | None => or_shadow_variants m = [] ∧ or_shadow_max_duration_hours m = None
    end;
}.

Lemma order_request_carries sg sid score sd :
  action_to_side (sg_action sg) = Ok sd → carries sg sid score (order_request_of b sg sid score sd).
Proof.
  intros Hsd. constructor; try done.
  1, 2: intros Ha; rewrite Ha in Hsd; by injection Hsd as <-.
  cbn. destruct (b_shadow b) as [s|]; [|done]. by destruct (sh_enabled s).
Qed.

(** C1: an order is requested only for an unexpired LONG or SHORT signal of the
    bot's universe and sources, and only over tables in which the bot may open
    a position: no open position on the other side (with that guard on), no
    running loss or streak cooldown, room under both caps on open trades, no
    live kill-switch latch, today's realised loss short of its limit and the
    give-back from the peak short of its limit (each guard where enabled).  The
    scoring decided execute or passthrough, its audit row was persisted, the
    signal id is that of the newest stored row of the signal's key within the
    age limit, LONG is sent as buy and SHORT as sell, and every other field is
    the configuration's. *)
Theorem order_requires_every_check f now env w r w' :
  handle b max_age f now env w = (r, w') →
  ∃ l, w_published w' = w_published w ++ l ∧
    ∀ c m, (c, orders_request m) ∈ l → ∃ sg sid res,
      ev_payload env = Some sg ∧ c = ev_correlation_id env ∧ admissible now sg ∧
      clear_to_open (b_bot_id b) (b_mode b) (sg_symbol sg) (or_side m) now (b_risk b) (w_risk w) ∧
      newest_signal (sg_idempotency_key sg) (now - max_age * 1000000) sid (w_signals w) ∧
      evaluate (b_scoring b) sg (w_resolver w) = Ok res ∧ sr_decision res ≠ reject ∧
      w_scoring_evaluations w' = w_scoring_evaluations w ++ [mkEval (b_bot_id b) sid now res (b_version b) (ev_correlation_id env)] ∧
      carries sg sid (sr_total_score res) m.
Proof.
  intros E. apply handle_cases in E as [[d ->]|(sg & sid & w1 & H1 & H2 & H3 & [d ->] & Hid & E)].
  { exists []. cbn. rewrite app_nil_r. split; [done|set_solver]. }
  apply run_gates_clear in H3 as (sd & Hsd & Hclear). apply select_signal_newest in Hid.
  apply dispatch_spec in E as [[-> _]|(res & Hev & _ & _ & ->)]; [| |apply H2].
  { exists []. cbn. rewrite app_nil_r. split; [done|set_solver]. }
  eexists. split; [reflexivity|]. intros c m Hm. cbn in Hm.
  destruct (publish_fails f); [set_solver|]. apply list_elem_of_fmap in Hm as (msg & [= -> <-] & Hm).
  exists sg, sid, res. unfold messages_for in Hm. rewrite Hsd in Hm.
  destruct (sr_decision res); [|set_solver|].
  all: apply list_elem_of_singleton in Hm as [= ->]; split_and!; [done..|by apply order_request_carries].
Qed.

(** Nothing is published without its audit row: if the handler publishes
    anything it has appended exactly one evaluation, and on every other path
    (expired, filtered, gated, unresolved, crashed, insert failed or a gate
    raising) it persists and publishes nothing. *)
Lemma audit_row_precedes_publish f now env w r w' :
  handle b max_age f now env w = (r, w') →
  (w_published w' = w_published w ∧ w_scoring_evaluations w' = w_scoring_evaluations w) ∨
  (∃ row l, w_scoring_evaluations w' = w_scoring_evaluations w ++ [row] ∧ w_published w' = w_published w ++ l ∧
     insert_fails f = false ∧ (r = Ok order_requested ∨ r = Ok signal_was_rejected) ∧
     (publish_fails f = false → l ≠ []) ∧ se_correlation_id row = ev_correlation_id env).
Proof.
  intros E. apply handle_cases in E as [[d ->]|(sg & sid & w1 & H1 & H2 & H3 & [d ->] & _ & E)]; [by left|].
  apply dispatch_spec in E as [[-> _]|(res & Hev & Hins & -> & ->)]; [by left| |apply H2]. right. cbn.
  do 2 eexists. do 3 (split; [done|]). split; [destruct (sr_decision res); auto|]. split; [|done].
  intros ->. unfold messages_for. destruct (sr_decision res), (sg_action sg) eqn:Ha; cbn; try done; by destruct H2 as (_ & _ & _ & []).
Qed.

(** Gates before the drawdown gate keep a locked latch. *)
Lemma reading_gates_keep P sym sd now :
  preserves P (check_opposite_side (b_bot_id b) (b_mode b) sym sd (b_risk b)) ∧
  preserves P (check_cooldown (b_bot_id b) (b_mode b) now (b_risk b)) ∧
  preserves P (check_concurrent_caps (b_bot_id b) (b_mode b) (b_risk b)).
Proof.
  unfold check_opposite_side, check_cooldown, check_concurrent_caps, select_open_position_side. split_and!.
  all: repeat match goal with
  | |- preserves _ (match ?x with _ => _ end) => destruct x
  | |- preserves _ (_ ≫= _) => apply preserves_bind; [|intros]
  | |- preserves _ (let _ := _ in _) => cbv zeta
  end; auto with scalper.
Qed.

Lemma on_risk_keeps {A} P (m : RG A) w r w' : preserves P m → P (w_risk w) → on_risk m w = (r, w') → P (w_risk w').
Proof. intros Hm Hw E. apply on_risk_inv in E as (d & E & ->). by eapply Hm. Qed.

Lemma run_gates_pass st sg now w w1 :
  locked (utc_date now) st → latched (b_bot_id b) st (w_risk w) → run_gates b sg now w = (Ok None, w1) →
  ∃ w2 x, latched (b_bot_id b) st (w_risk w2) ∧
    check_max_drawdown (b_bot_id b) (b_mode b) now (b_risk b) (w_risk w2) = (Ok x, w_risk w1) ∧ dd_blocked x = false.
Proof.
  intros Hlk Hl E. unfold run_gates in E. apply st_bind_ok_inv in E as (sd & w2 & [= Hsd <-] & E).
  destruct (reading_gates_keep (latched (b_bot_id b) st) (sg_symbol sg) sd now) as (K1 & K2 & K3).
  apply st_bind_ok_inv in E as (o & w2 & E1 & E). apply (on_risk_keeps _ _ _ _ _ K1) in E1; [|done].
  destruct (os_active o); [discriminate|].
  apply st_bind_ok_inv in E as (c & w3 & E2 & E). apply (on_risk_keeps _ _ _ _ _ K2) in E2; [|done].
  destruct (cd_active c); [discriminate|].
  apply st_bind_ok_inv in E as (k & w4 & E3 & E). apply (on_risk_keeps _ _ _ _ _ K3) in E3; [|done].
  destruct (cp_blocked k); [discriminate|].
  apply st_bind_ok_inv in E as (l & w5 & E4 & E).
  apply (on_risk_keeps _ _ _ _ _ (loss_gate_keeps (utc_date now) (b_bot_id b) st _ _ _ _ Hlk (Z.le_refl _))) in E4; [|done].
  destruct (ll_blocked l); [discriminate|].
  apply st_bind_ok_inv in E as (x & w6 & E5 & E). apply on_risk_inv in E5 as (d & E5 & ->).
  destruct (dd_blocked x) eqn:Hx; [discriminate|]. injection E as <-. eauto 10.
Qed.

(** C10: once the max-drawdown latch of a bot is set and its gate enabled, the
    handler never scores a signal or requests an order again, whatever the
    signal, the time and the state of everything else. *)
Theorem hard_stopped_bot_never_orders st f now env w r w' :
  latched (b_bot_id b) st (w_risk w) → ks_tripped st = true → ks_trip_reason st = Some max_drawdown →
  0 < coef (max_drawdown_pct (b_risk b)) → handle b max_age f now env w = (r, w') →
  w_published w' = w_published w ∧ w_scoring_evaluations w' = w_scoring_evaluations w.
Proof.
  intros Hl Ht Hr Hpos E. apply handle_cases in E as [[d ->]|(sg & sid & w1 & _ & _ & Hg & _)]; [done|]. exfalso.
  assert (locked (utc_date now) st) as Hlk by (split; auto).
  destruct (run_gates_pass st sg now w w1 Hlk Hl Hg) as (w2 & x & Hl2 & E & Hx).
  destruct (latched_blocks _ st _ (b_mode b) now (b_risk b) Hl2 Ht) as [_ Hd]; [by eapply locked_not_stale|].
  destruct (Hd Hpos) as (x' & E' & Hx' & _). congruence.
Qed.

(** A paper bot with the opposite-side guard at its default never gets past
    the first gate: an admissible signal makes the handler raise on the
    missing table, with nothing persisted or published. *)
Lemma paper_bot_raises_on_entry f now env sg w :
  b_mode b = em_paper → block_opposite_side (b_risk b) = true → ev_payload env = Some sg → admissible now sg →
  handle b max_age f now env w = (Err (UndefinedTable "paper_position_state"), w).
Proof.
  intros Hm Hb Hp (Hexp & Hsym & Hsrc & Hact). unfold handle. rewrite Hp.
  rewrite (proj2 (Z.ltb_ge _ _) Hexp), bool_decide_true by done. cbn [negb].
  replace (match b_source_filter b with Some l => negb (bool_decide (sg_source sg ∈ l)) | None => false end) with false
    by (destruct (b_source_filter b); [by rewrite bool_decide_true|done]).
  rewrite bool_decide_false by done. unfold run_gates, on_risk, check_opposite_side. rewrite Hm, Hb.
  destruct w. by destruct (sg_action sg).
Qed.
End handler_facts.

(** ** Concrete runs *)
Section witnesses.
#[local] Existing Instance pg_half_away.

Definition demo_bot (m : exchange_mode) : BotConfig :=
  mkBot "bot" 1 ["BTCUSDT"] m None (mkExecution (1 @ (-2)) 5 (1 @ (-2)) (2 @ (-2)) (5 @ (-1)) (1 @ (-2)) (1 @ (-3)) (1 @ (-2)) (6 @ (-4)) 3 true)
    demo_scoring None demo_risk None.
Definition demo_world (k : gmap string KillSwitchState) : world :=
  mkWorld (mkRiskDb [] [] k ∅) [mkSignalRow 7 "key" 0] demo_env ∅ [] [].
Definition no_faults : faults := mkFaults false false false.
Definition demo_envelope : envelope := mkEnvelope "corr" (Some demo_signal).

Lemma order_requires_every_check_witness :
  ∃ w' m, handle (demo_bot em_live) 600 no_faults 60000000 demo_envelope (demo_world ∅) = (Ok order_requested, w') ∧
    w_published w' = [("corr", orders_request m)] ∧ or_side m = buy ∧ or_signal_id m = 7 ∧
    clear_to_open "bot" em_live (sg_symbol demo_signal) buy 60000000 demo_risk (w_risk (demo_world ∅)).
Proof.
  destruct (handle (demo_bot em_live) 600 no_faults 60000000 demo_envelope (demo_world ∅)) as [r w'] eqn:E.
  destruct (order_requires_every_check (demo_bot em_live) 600 no_faults 60000000 demo_envelope (demo_world ∅) r w' E) as (l & Hl & Hm).
  vm_compute in E. injection E as <- <-. vm_compute in Hl. subst l.
  eexists _, _. split; [reflexivity|]. split; [reflexivity|]. split; [reflexivity|]. split; [reflexivity|].
  destruct (Hm _ _ (list_elem_of_here _ _)) as (sg & sid & res & [= <-] & _ & _ & Hc & _). exact Hc.
Defined.

Lemma hard_stopped_bot_never_orders_witness :
  ∃ r w', handle (demo_bot em_live) 600 no_faults 60000000 demo_envelope (demo_world {["bot" := demo_latch max_drawdown]}) = (r, w') ∧
    w_published w' = [].
Proof.
  destruct (handle (demo_bot em_live) 600 no_faults 60000000 demo_envelope (demo_world {["bot" := demo_latch max_drawdown]})) as [r w'] eqn:E.
  exists r, w'. split; [reflexivity|].
  apply (hard_stopped_bot_never_orders (demo_bot em_live) 600 (demo_latch max_drawdown) no_faults 60000000 demo_envelope _ r w'
    (lookup_singleton_eq _ _) eq_refl eq_refl eq_refl E).
Defined.

End witnesses.
