(* ===== verification/ExecDb.v ===== *)
(** * The live tables and the statements of the execution service

    Models packages/db/queries/execution.py over the schema of
    migrations/versions/{0005_orders_trades_executions, 0006_position_state,
    0007_trading_events, 0020_trades_lifecycle_state}.py: orders, trades,
    executions, position_state and trading_events, one operation per
    statement.  NUMERIC columns coerce as in PaperDb; the identity columns come
    from sequences that a rolled-back transaction does not rewind.

    Foreign keys are not checked: the code only inserts references it has just
    read or inserted.  A [fetchrow] without ORDER BY returns the matching row
    with the smallest id.  The FSM parameters of [trades.meta] are decimals
    written with [str] and read back with [Decimal], which is the identity. *)

From S2P Require Import Prelude Dec Sizing PaperDb PaperExchange.
From stdpp Require Import sorting.
Open Scope Z_scope.

(** ** Rows *)
Inductive lifecycle_state :=
| ls_signal_received | ls_order_requested | ls_order_placed | ls_open | ls_partially_closed | ls_tp_hit
| ls_breakeven_set | ls_trailing_active | ls_closing | ls_closed | ls_failed | ls_orphaned | ls_reconciled.

Inductive exec_type := x_open | x_partial_tp | x_sl | x_trail | x_close | x_unknown.
#[global] Instance exec_type_eq_dec : EqDecision exec_type.
Proof. solve_decision. Defined.

Record fsm_params := mkFsm { be_trigger : dec; be_sl_level : dec; trail_pct : dec }.

Record order_row := mkOrderRow {
  ord_bot_id : string; ord_signal_id : option Z; ord_correlation_id : string; ord_exchange_order_id : string;
  ord_exchange : string; ord_symbol : string; ord_side : side; ord_order_type : string; ord_qty : dec;
  ord_price : option dec; ord_status : string; ord_requested_at : Z; ord_filled_at : option Z;
  ord_closed_at : option Z; ord_idempotent : bool;
}.
Record live_trade := mkLiveTrade {
  trd_bot_id : string; trd_signal_id : option Z; trd_open_order_id : Z; trd_close_order_id : option Z;
  trd_symbol : string; trd_side : side; trd_entry_price : dec; trd_exit_price : option dec; trd_qty : dec;
  trd_notional_usd : dec; trd_realized_pnl : option dec; trd_fees_paid : option dec;
  trd_close_reason : option string; trd_opened_at : Z; trd_closed_at : option Z; trd_status : trade_status;
  trd_meta : option fsm_params; trd_lifecycle_state : option lifecycle_state;
}.
Record execution_row := mkExecution {
  exe_exchange_exec_id : string; exe_order_id : Z; exe_trade_id : option Z; exe_bot_id : string;
  exe_symbol : string; exe_side : side; exe_price : dec; exe_qty : dec; exe_fee : dec;
  exe_exec_type : exec_type; exe_executed_at : Z;
}.
Record position_state_row := mkPosState {
  ps_trade_id : Z; ps_side : side; ps_entry_price : dec; ps_qty : dec; ps_remaining_qty : dec;
  ps_sl_price : option dec; ps_tp_price : option dec; ps_sl_type : option slt; ps_best_price : option dec;
  ps_mfe_price : option dec; ps_mae_price : option dec; ps_running_pnl : dec; ps_updated_at : Z;
}.

(** The order events of packages/bus/schemas/orders.py that the service both
    audits and publishes. *)
Inductive order_event :=
| OrderPlaced (bot_id : string) (order_id : Z) (exchange_order_id symbol : string) (timestamp : Z)
| SLMoved (bot_id : string) (order_id : Z) (exchange_order_id symbol : string) (timestamp : Z)
    (new_sl_price : dec) (sl_type : slt)
| OrderClosed (bot_id : string) (order_id : Z) (exchange_order_id symbol : string) (timestamp : Z)
    (realized_pnl : dec) (close_reason : string).
(** The payloads of trading_events. *)
Inductive event_payload :=
| pl_order (e : order_event)
| pl_sl_overwrite (bot_id symbol : string) (trade_id : Z) (sl_type : option slt) (expected observed : dec)
| pl_trail_drift (bot_id symbol : string) (trade_id : Z) (sd : side) (best_price trail_pct expected observed drift tolerance : dec)
| pl_funding_window (sub_account : string) (window_start window_end : Z) (cumulative_funding : dec) (settlement_count : Z).
Record trading_event := mkTradingEvent {
  tev_occurred_at : Z; tev_bot_id : option string; tev_correlation_id : option string; tev_event_type : string;
  tev_payload : event_payload;
}.

Record live_db := mkLive {
  orders : gmap Z order_row;
  trades : gmap Z live_trade;
  executions : list execution_row;
  position_states : gmap (string * string) position_state_row;
  trading_events : list trading_event;
  orders_seq : Z;
  trades_seq : Z;
}.
Definition empty_live : live_db := mkLive ∅ ∅ [] ∅ [] 1 1.

Definition with_live_trades (f : gmap Z live_trade → gmap Z live_trade) (d : live_db) : live_db :=
  mkLive (orders d) (f (trades d)) (executions d) (position_states d) (trading_events d) (orders_seq d) (trades_seq d).
Definition with_position_states
    (f : gmap (string * string) position_state_row → gmap (string * string) position_state_row) (d : live_db) : live_db :=
  mkLive (orders d) (trades d) (executions d) (f (position_states d)) (trading_events d) (orders_seq d) (trades_seq d).

(** What a rolled-back transaction leaves: the tables before, the sequences
    after. *)
Definition rolled_back (d d' : live_db) : live_db :=
  mkLive (orders d) (trades d) (executions d) (position_states d) (trading_events d) (orders_seq d') (trades_seq d').

(** PostgreSQL's exact [-] on NUMERIC. *)
Definition pg_sub (a b : dec) : dec := dadd_exact a (mkDec (- coef b) (dexp b)).

(** [fetchrow] of a SELECT by a condition. *)
Definition row_before {V} (a b : Z * V) : Prop := a.1 <= b.1.
#[global] Instance row_before_dec {V} : RelDecision (@row_before V).
Proof. intros a b. unfold row_before. apply _. Defined.
Definition find_row {V} (P : V → bool) (m : gmap Z V) : option (Z * V) :=
  head (filter (fun kv => P kv.2 = true) (merge_sort row_before (map_to_list m))).

Section statements.
Context `{PgNumeric}.

(** ** Inserts *)
Definition insert_order (bot_id : string) (signal_id : option Z) (correlation_id exchange_order_id exchange symbol : string)
    (sd : side) (order_type : string) (qty : dec) (price : option dec) (status : string) (requested_at : Z)
    (filled_at closed_at : option Z) (idempotent_flag : bool) : ST live_db Z := fun d =>
  let id := orders_seq d in
  match col 30 12 qty, col_opt 30 12 price with
  | Ok q, Ok p =>
      (Ok id, mkLive (<[id := mkOrderRow bot_id signal_id correlation_id exchange_order_id exchange symbol sd
                               order_type q p status requested_at filled_at closed_at idempotent_flag]> (orders d))
                (trades d) (executions d) (position_states d) (trading_events d) (id + 1) (trades_seq d))
  | Err e, _ | _, Err e =>
      (Err e, mkLive (orders d) (trades d) (executions d) (position_states d) (trading_events d) (id + 1) (trades_seq d))
  end.

Definition insert_trade (bot_id : string) (signal_id : option Z) (open_order_id : Z) (symbol : string) (sd : side)
    (entry_price qty notional_usd : dec) (opened_at : Z) (meta : option fsm_params) : ST live_db Z := fun d =>
  let id := trades_seq d in
  match col 30 12 entry_price, col 30 12 qty, col 20 4 notional_usd with
  | Ok ep, Ok q, Ok n =>
      (Ok id, mkLive (orders d)
                (<[id := mkLiveTrade bot_id signal_id open_order_id None symbol sd ep None q n None None None opened_at
                           None st_open meta None]> (trades d))
                (executions d) (position_states d) (trading_events d) (orders_seq d) (id + 1))
  | Err e, _, _ | _, Err e, _ | _, _, Err e =>
      (Err e, mkLive (orders d) (trades d) (executions d) (position_states d) (trading_events d) (orders_seq d) (id + 1))
  end.

Definition insert_position_state (bot_id symbol : string) (trade_id : Z) (sd : side) (entry_price qty remaining_qty : dec)
    (sl_price tp_price : option dec) (sl_type : option slt) (updated_at : Z) : ST live_db unit := fun d =>
  match position_states d !! (bot_id, symbol) with
  | Some _ => (Err (UniqueViolation "position_state"), d)
  | None =>
      match col 30 12 entry_price, col 30 12 qty, col 30 12 remaining_qty, col_opt 30 12 sl_price, col_opt 30 12 tp_price with
      | Ok ep, Ok q, Ok r, Ok sl, Ok tp =>
          (Ok tt, with_position_states <[(bot_id, symbol) :=
             mkPosState trade_id sd ep q r sl tp sl_type None None None dzero updated_at]> d)
      | Err e, _, _, _, _ | _, Err e, _, _, _ | _, _, Err e, _, _ | _, _, _, Err e, _ | _, _, _, _, Err e => (Err e, d)
      end
  end.

Definition insert_trading_event (occurred_at : Z) (bot_id correlation_id : option string) (event_type : string) (payload : event_payload)
  : ST live_db unit := modify (fun d =>
  mkLive (orders d) (trades d) (executions d) (position_states d)
    (trading_events d ++ [mkTradingEvent occurred_at bot_id correlation_id event_type payload])
    (orders_seq d) (trades_seq d)).

Definition insert_execution (exec_id : string) (order_id : Z) (trade_id : option Z) (bot_id symbol : string) (sd : side)
    (price qty fee : dec) (x : exec_type) (executed_at : Z) : ST live_db unit := fun d =>
  if existsb (fun r => bool_decide (exe_exchange_exec_id r = exec_id) && (exe_executed_at r =? executed_at)) (executions d)
  then (Err (UniqueViolation "executions"), d)
  else match col 30 12 price, col 30 12 qty, col 20 8 fee with
  | Ok p, Ok q, Ok f =>
      (Ok tt, mkLive (orders d) (trades d)
                (executions d ++ [mkExecution exec_id order_id trade_id bot_id symbol sd p q f x executed_at])
                (position_states d) (trading_events d) (orders_seq d) (trades_seq d))
  | Err e, _, _ | _, Err e, _ | _, _, Err e => (Err e, d)
  end.

(** ** Updates *)
Definition set_trade_closed (exit_price realized_pnl : dec) (fees_paid : option dec) (closed_at : Z) (reason : string)
    (close_order_id : Z) (t : live_trade) : live_trade :=
  mkLiveTrade (trd_bot_id t) (trd_signal_id t) (trd_open_order_id t) (Some close_order_id) (trd_symbol t) (trd_side t)
    (trd_entry_price t) (Some exit_price) (trd_qty t) (trd_notional_usd t) (Some realized_pnl)
    (match fees_paid with None => trd_fees_paid t | Some f => Some f end) (Some reason) (trd_opened_at t)
    (Some closed_at) st_closed (trd_meta t) (trd_lifecycle_state t).
Definition update_trade_close (trade_id : Z) (exit_price realized_pnl : dec) (fees_paid : option dec) (closed_at : Z)
    (reason : string) (close_order_id : Z) : ST live_db unit := fun d =>
  match col 30 12 exit_price, col 20 4 realized_pnl, col_opt 20 4 fees_paid with
  | Ok x, Ok r, Ok f => (Ok tt, with_live_trades (alter (set_trade_closed x r f closed_at reason close_order_id) trade_id) d)
  | Err e, _, _ | _, Err e, _ | _, _, Err e => (Err e, d)
  end.

Definition set_lifecycle (l : lifecycle_state) (t : live_trade) : live_trade :=
  mkLiveTrade (trd_bot_id t) (trd_signal_id t) (trd_open_order_id t) (trd_close_order_id t) (trd_symbol t) (trd_side t)
    (trd_entry_price t) (trd_exit_price t) (trd_qty t) (trd_notional_usd t) (trd_realized_pnl t) (trd_fees_paid t)
    (trd_close_reason t) (trd_opened_at t) (trd_closed_at t) (trd_status t) (trd_meta t) (Some l).
Definition update_trade_lifecycle_state (trade_id : Z) (l : lifecycle_state) : ST live_db unit :=
  modify (with_live_trades (alter (set_lifecycle l) trade_id)).

Definition set_fees (f : dec) (t : live_trade) : live_trade :=
  mkLiveTrade (trd_bot_id t) (trd_signal_id t) (trd_open_order_id t) (trd_close_order_id t) (trd_symbol t) (trd_side t)
    (trd_entry_price t) (trd_exit_price t) (trd_qty t) (trd_notional_usd t) (trd_realized_pnl t) (Some f)
    (trd_close_reason t) (trd_opened_at t) (trd_closed_at t) (trd_status t) (trd_meta t) (trd_lifecycle_state t).
Definition update_trade_fees_incremental (trade_id : Z) (fee_delta : dec) : ST live_db unit := fun d =>
  match trades d !! trade_id with
  | None => (Ok tt, d)
  | Some t =>
      match col 20 4 (dadd_exact (default dzero (trd_fees_paid t)) fee_delta) with
      | Ok f => (Ok tt, with_live_trades (alter (set_fees f) trade_id) d)
      | Err e => (Err e, d)
      end
  end.

Definition set_after_fill (remaining : dec) (new_sl_type : option slt) (updated_at : Z) (p : position_state_row) : position_state_row :=
  mkPosState (ps_trade_id p) (ps_side p) (ps_entry_price p) (ps_qty p) remaining (ps_sl_price p) (ps_tp_price p)
    (match new_sl_type with None => ps_sl_type p | Some s => Some s end) (ps_best_price p) (ps_mfe_price p)
    (ps_mae_price p) (ps_running_pnl p) updated_at.
(** Returns the number of rows updated. *)
Definition update_position_state_after_fill (bot_id symbol : string) (trade_id : Z) (qty_delta : dec)
    (new_sl_type : option slt) (updated_at : Z) : ST live_db Z := fun d =>
  match position_states d !! (bot_id, symbol) with
  | Some p =>
      if ps_trade_id p =? trade_id then
        match col 30 12 (pg_sub (ps_remaining_qty p) qty_delta) with
        | Ok r => (Ok 1, with_position_states <[(bot_id, symbol) := set_after_fill r new_sl_type updated_at p]> d)
        | Err e => (Err e, d)
        end
      else (Ok 0, d)
  | None => (Ok 0, d)
  end.

Definition set_monitor (best mfe mae pnl : dec) (updated_at : Z) (p : position_state_row) : position_state_row :=
  mkPosState (ps_trade_id p) (ps_side p) (ps_entry_price p) (ps_qty p) (ps_remaining_qty p) (ps_sl_price p) (ps_tp_price p)
    (ps_sl_type p) (Some best) (Some mfe) (Some mae) pnl updated_at.
Definition update_position_state_monitor_tick (bot_id symbol : string) (best mfe mae running_pnl : dec) (updated_at : Z)
  : ST live_db unit := fun d =>
  match col 30 12 best, col 30 12 mfe, col 30 12 mae, col 20 4 running_pnl with
  | Ok b, Ok f, Ok a, Ok r => (Ok tt, with_position_states (alter (set_monitor b f a r updated_at) (bot_id, symbol)) d)
  | Err e, _, _, _ | _, Err e, _, _ | _, _, Err e, _ | _, _, _, Err e => (Err e, d)
  end.

Definition set_sl (sl : dec) (sl_type : slt) (updated_at : Z) (p : position_state_row) : position_state_row :=
  mkPosState (ps_trade_id p) (ps_side p) (ps_entry_price p) (ps_qty p) (ps_remaining_qty p) (Some sl) (ps_tp_price p)
    (Some sl_type) (ps_best_price p) (ps_mfe_price p) (ps_mae_price p) (ps_running_pnl p) updated_at.
Definition update_position_state_sl (bot_id symbol : string) (sl_price : dec) (sl_type : slt) (updated_at : Z)
  : ST live_db unit := fun d =>
  match col 30 12 sl_price with
  | Ok s => (Ok tt, with_position_states (alter (set_sl s sl_type updated_at) (bot_id, symbol)) d)
  | Err e => (Err e, d)
  end.

Definition delete_position_state (bot_id symbol : string) : ST live_db unit :=
  modify (with_position_states (delete (bot_id, symbol))).
End statements.

(** ** Reads *)
Definition select_order_id_by_exchange_id (exchange_order_id : string) (d : live_db) : option Z :=
  fst <$> find_row (fun o => bool_decide (ord_exchange_order_id o = exchange_order_id)) (orders d).
Definition select_trade_by_open_order_id (open_order_id : Z) (d : live_db) : option Z :=
  fst <$> find_row (fun t => trd_open_order_id t =? open_order_id) (trades d).
Definition select_trade_by_close_order_id (close_order_id : Z) (d : live_db) : option Z :=
  fst <$> find_row (fun t => bool_decide (trd_close_order_id t = Some close_order_id)) (trades d).
Definition select_open_order_id_by_trade_id (trade_id : Z) (d : live_db) : option Z :=
  trd_open_order_id <$> trades d !! trade_id.
Definition select_order_meta_by_id (order_id : Z) (d : live_db) : option (string * string) :=
  (fun o => (ord_correlation_id o, ord_exchange_order_id o)) <$> orders d !! order_id.
Definition select_position_state (bot_id symbol : string) (d : live_db) : option position_state_row :=
  position_states d !! (bot_id, symbol).

(** [meta] of an emergency-closed trade is empty: reading it raises. *)
Definition select_trade_fsm_params (trade_id : Z) (d : live_db) : res (option fsm_params) :=
  match trades d !! trade_id with
  | None => Ok None
  | Some t => match trd_meta t with Some f => Ok (Some f) | None => Err (KeyError "be_trigger") end
  end.

(** ORDER BY bot_id, symbol. *)
Definition key_before (a b : (string * string) * position_state_row) : Prop :=
  if bool_decide (a.1.1 = b.1.1) then String.leb a.1.2 b.1.2 = true else String.leb a.1.1 b.1.1 = true.
#[global] Instance key_before_dec : RelDecision key_before.
Proof. intros a b. unfold key_before. case_bool_decide; apply _. Defined.
Definition select_position_states_for_bots (bot_ids : list string) (d : live_db) : list ((string * string) * position_state_row) :=
  filter (fun r => r.1.1 ∈ bot_ids) (merge_sort key_before (map_to_list (position_states d))).

Definition select_recent_open_trade_exists (bot_id symbol : string) (since : Z) (d : live_db) : bool :=
  bool_decide (is_Some (find_row (fun t => bool_decide (trd_bot_id t = bot_id) && bool_decide (trd_symbol t = symbol) &&
    (since <=? trd_opened_at t) && bool_decide (trd_status t = st_open)) (trades d))).

Definition realized_since (bot_ids : list string) (since : Z) (t : live_trade) : option dec :=
  if bool_decide (trd_bot_id t ∈ bot_ids) && match trd_closed_at t with Some c => since <=? c | None => false end
  then trd_realized_pnl t else None.
Definition select_realized_pnl_sum_for_bots_since (bot_ids : list string) (since : Z) (d : live_db) : dec :=
  sum_dec (omap (realized_since bot_ids since) (snd <$> map_to_list (trades d))).
