(* ===== verification/Exchange.v ===== *)
(** * The exchange interface and the world of the execution service

    [exchange_client] is the [ExchangeClient] protocol of
    packages/exchange/protocols.py as a record of operations over the state
    [E] of the remote side: the execution service is modelled against it and
    its theorems hold for every client, the Bybit adapter included (Bybit).
    [logged] wraps a client with the record of the
    calls made, so that a theorem can speak of what was sent and in which
    order.  The world adds the live tables, the bus, the clock and the registry
    of monitor tasks. *)

From S2P Require Import Prelude Dec Sizing PaperDb PaperExchange Consumer ExecDb.
Open Scope Z_scope.

(** ** packages/exchange/types.py and protocols.py *)
Record OrderPlaceResult := mkPlaced { exchange_order_id : string; placed_at : Z; paper_trade_id : option Z }.
Record Position := mkExPosition {
  xp_symbol : string; xp_side : option side; xp_size : dec; xp_entry_price : option dec;
  xp_leverage : option Z; xp_unrealized_pnl : option dec; xp_sl_price : option dec;
}.

Record exchange_client (E : Type) := mkClient {
  ex_set_leverage : string → Z → ST E unit;
  ex_place_market_order : string → side → dec → bool → ST E OrderPlaceResult;
  ex_set_trading_stop : string → tpsl → option dec → option dec → option dec → ST E unit;
  ex_get_positions : option string → ST E (list Position);
  ex_get_fill_price : string → string → ST E (option dec);
  ex_get_instrument_info : string → ST E InstrumentInfo;
  ex_get_account_balance : string → ST E AccountBalance;
  ex_get_mark_price : string → ST E dec;
  ex_get_closed_pnl_cumulative : string → ST E dec;
  ex_get_closed_pnl_window : string → Z → ST E dec;
  ex_get_funding_fees_window : string → Z → ST E (list FundingFee);
}.
Arguments mkClient {E}.
Arguments ex_set_leverage {E}. Arguments ex_place_market_order {E}. Arguments ex_set_trading_stop {E}.
Arguments ex_get_positions {E}. Arguments ex_get_fill_price {E}. Arguments ex_get_instrument_info {E}.
Arguments ex_get_account_balance {E}. Arguments ex_get_mark_price {E}. Arguments ex_get_closed_pnl_cumulative {E}.
Arguments ex_get_closed_pnl_window {E}. Arguments ex_get_funding_fees_window {E}.

(** The exceptions of packages/exchange/errors.py that callers group. *)
Definition transient (e : exn) : bool :=
  match e with AuthError | NetworkTimeout | RateLimitError => true | _ => false end.
Definition rejected_or_transient (e : exn) : bool :=
  match e with OrderRejected _ => true | _ => transient e end.
Definition any_exchange_failure (e : exn) : bool :=
  match e with UnknownState _ => true | _ => rejected_or_transient e end.

(** ** Recording the calls that change the remote side *)
Inductive call :=
| c_leverage (symbol : string) (leverage : Z) (ok : bool)
| c_order (symbol : string) (sd : side) (qty : dec) (reduce_only : bool) (ok : bool)
| c_stop (symbol : string) (mode : tpsl) (sl tp size : option dec) (ok : bool).

Definition recorded {E A} (c : bool → call) (m : ST E A) : ST (E * list call) A := fun '(e, l) =>
  let '(r, e') := m e in (r, (e', l ++ [c (is_ok r)])).
Definition unrecorded {E A} (m : ST E A) : ST (E * list call) A := fun '(e, l) =>
  let '(r, e') := m e in (r, (e', l)).
Definition logged {E} (c : exchange_client E) : exchange_client (E * list call) := {|
  ex_set_leverage sym n := recorded (c_leverage sym n) (ex_set_leverage c sym n);
  ex_place_market_order sym sd q ro := recorded (c_order sym sd q ro) (ex_place_market_order c sym sd q ro);
  ex_set_trading_stop sym md sl tp sz := recorded (c_stop sym md sl tp sz) (ex_set_trading_stop c sym md sl tp sz);
  ex_get_positions sym := unrecorded (ex_get_positions c sym);
  ex_get_fill_price sym oid := unrecorded (ex_get_fill_price c sym oid);
  ex_get_instrument_info sym := unrecorded (ex_get_instrument_info c sym);
  ex_get_account_balance acc := unrecorded (ex_get_account_balance c acc);
  ex_get_mark_price sym := unrecorded (ex_get_mark_price c sym);
  ex_get_closed_pnl_cumulative acc := unrecorded (ex_get_closed_pnl_cumulative c acc);
  ex_get_closed_pnl_window acc since := unrecorded (ex_get_closed_pnl_window c acc since);
  ex_get_funding_fees_window acc since := unrecorded (ex_get_funding_fees_window c acc since);
|}.

(** ** Messages and monitor tasks *)
Inductive parent_kind := kind_live | kind_paper.
Record request_envelope := mkRequestEnvelope {
  re_correlation_id : string; re_published_at : Z;
  re_payload_bot_id : option string; re_payload_signal_id : option string;
  re_request : option OrderRequest;
}.
Inductive xmessage :=
| orders_events (e : order_event)
| orders_dlq (env : request_envelope)
| shadow_start (parent_trade_id : Z) (kind : parent_kind) (symbol : string) (sd : side) (entry_price qty : dec)
    (variants : list ShadowVariant)
| trade_closed (parent_trade_id : Z) (kind : parent_kind) (closed_at : Z).
(** The arguments of [run_position_monitor_for_trade] that name the trade. *)
Record monitor_args := mkMonitor {
  mon_bot_id : string; mon_symbol : string; mon_side : side; mon_entry_price : dec; mon_qty : dec;
}.

(** ** The world *)
Record xworld (E : Type) := mkXWorld {
  x_exchange : E;
  x_live : live_db;
  x_published : list (string * string * xmessage);
  x_clock : Z;
  x_monitors : gmap Z monitor_args;
}.
Arguments mkXWorld {E}. Arguments x_exchange {E}. Arguments x_live {E}. Arguments x_published {E}.
Arguments x_clock {E}. Arguments x_monitors {E}.

Section world.
Context {E : Type}.
Abbreviation X := (ST (xworld E)).

Definition set_exchange (e : E) (w : xworld E) : xworld E := mkXWorld e (x_live w) (x_published w) (x_clock w) (x_monitors w).
Definition set_live (d : live_db) (w : xworld E) : xworld E := mkXWorld (x_exchange w) d (x_published w) (x_clock w) (x_monitors w).
Definition on_exchange {A} (m : ST E A) : X A := fun w =>
  let '(r, e) := m (x_exchange w) in (r, set_exchange e w).
Definition on_live {A} (m : ST live_db A) : X A := fun w =>
  let '(r, d) := m (x_live w) in (r, set_live d w).
Definition reads {A} (f : live_db → A) : X A := gets (fun w => f (x_live w)).

(** [async with pool.acquire() as conn, conn.transaction()]: an exception
    rolls the tables back and nothing else. *)
Definition in_transaction {A} (m : X A) : X A := fun w =>
  match m w with
  | (Ok a, w') => (Ok a, w')
  | (Err e, w') => (Err e, set_live (rolled_back (x_live w) (x_live w')) w')
  end.

Definition now_fn : X Z := gets x_clock.
Definition sleep (us : Z) : X unit := modify (fun w =>
  mkXWorld (x_exchange w) (x_live w) (x_published w) (x_clock w + us) (x_monitors w)).
(** A publication inside [try ... except Exception]: the bus takes the message
    or the failure is logged. *)
Definition publish_best_effort (accepts : xmessage → bool) (bot_id corr : string) (m : xmessage) : X unit := modify (fun w =>
  if accepts m then mkXWorld (x_exchange w) (x_live w) (x_published w ++ [(bot_id, corr, m)]) (x_clock w) (x_monitors w)
  else w).
Definition spawn_monitor (trade_id : Z) (a : monitor_args) : X unit := modify (fun w =>
  mkXWorld (x_exchange w) (x_live w) (x_published w) (x_clock w) (<[trade_id := a]> (x_monitors w))).
End world.
