(* ===== verification/PaperClient.v ===== *)
(** * The paper exchange behind the protocol

    The [PaperExchange] methods as an [exchange_client], so that the execution
    service runs on the simulator as it runs on Bybit.  A paper position has no
    leverage, no unrealized PnL and no stop on the exchange. *)

From S2P Require Import Prelude Dec Sizing PaperDb PaperExchange Exchange.
Open Scope Z_scope.

Section paper_client.
Context `{PgNumeric} (pg_div : dec → dec → dec) (cfg : pe_config).

Definition paper_position_of (row : string * side * dec * dec) : Position :=
  let '(symbol, sd, remaining_qty, entry_price) := row in mkExPosition symbol (Some sd) remaining_qty (Some entry_price) None None None.
Definition paper_client : exchange_client pe_state := {|
  ex_set_leverage := PaperExchange.set_leverage;
  ex_place_market_order symbol sd qty reduce_only :=
    r ← place_market_order cfg symbol sd qty reduce_only; let '(id, at_, trade_id) := r in mret (mkPlaced id at_ trade_id);
  ex_set_trading_stop symbol tm sl tp size := set_trading_stop cfg symbol tm sl tp size None;
  ex_get_positions symbol := rows ← get_positions cfg symbol; mret (paper_position_of <$> rows);
  ex_get_fill_price := get_fill_price pg_div;
  ex_get_instrument_info := get_instrument_info;
  ex_get_account_balance := get_account_balance cfg;
  ex_get_mark_price := get_mark_price;
  ex_get_closed_pnl_cumulative := get_closed_pnl_cumulative cfg;
  ex_get_closed_pnl_window := get_closed_pnl_window cfg;
  ex_get_funding_fees_window := get_funding_fees_window cfg;
|}.
End paper_client.
