(* ===== verification/Dedup.v ===== *)
(** * Consumer-side deduplication

    Models packages/bus/dedup.py: [DedupingConsumer], a ring of the last
    [capacity] keys (an [OrderedDict], oldest first) in front of a handler.
    The key is remembered before the handler runs, so a message whose handler
    raised is not handled again while its key is in the ring.  Messages are
    consumed one after the other. *)

From S2P Require Import Prelude.
Open Scope Z_scope.

Section consumer.
Context {S M : Type} (key_fn : M → string) (capacity : nat).

(** The part of [consume] under the lock. *)
Definition remember (key : string) (seen : list string) : bool * list string :=
  if bool_decide (key ∈ seen) then (false, seen)
  else let seen' := seen ++ [key] in
       (true, if (capacity <? length seen')%nat then tail seen' else seen').

Definition consume (process : M → ST S unit) (m : M) : ST (list string * S) unit := fun '(seen, s) =>
  let '(is_fresh, seen') := remember (key_fn m) seen in
  if is_fresh then let '(r, s') := process m s in (r, (seen', s')) else (Ok tt, (seen', s)).

(** A subscription: every message is consumed, whatever the previous ones
    did. *)
Fixpoint deliver (process : M → ST S unit) (ms : list M) (st : list string * S) : list string * S :=
  match ms with
  | [] => st
  | m :: ms' => deliver process ms' (consume process m st).2
  end.
End consumer.

(** A handler with the record of the messages it was run on. *)
Definition recording {S M} (process : M → ST S unit) (m : M) : ST (S * list M) unit := fun '(s, l) =>
  let '(r, s') := process m s in (r, (s', l ++ [m])).

Section facts.
Context {S M : Type} (key_fn : M → string) (capacity : nat) (process : M → ST S unit).
Abbreviation run := (deliver key_fn capacity (recording process)).

(** The ring holds the keys of the last [capacity] handled messages. *)
Definition ring_of (l : list M) (seen : list string) : Prop :=
  seen = drop (length l - capacity) (map key_fn l) ∧
  ∀ i j x y, l !! i = Some x → l !! j = Some y → (i < j)%nat → key_fn x = key_fn y → (capacity < j - i)%nat.

Lemma drop_succ {A} n (l : list A) : drop (Datatypes.S n) l = tail (drop n l).
Proof. revert l. induction n as [|n IH]; intros [|a l]; [done|done|done|]. exact (IH l). Qed.

Lemma consume_ring m seen s l seen' s' l' r :
  ring_of l seen → consume key_fn capacity (recording process) m (seen, (s, l)) = (r, (seen', (s', l'))) →
  ring_of l' seen' ∧
  (l' = l ∧ key_fn m ∈ map key_fn l ∧ seen' = seen ∨ l' = l ++ [m] ∧ key_fn m ∉ seen).
Proof.
  intros [-> Hd]. unfold consume, remember. case_bool_decide as Hin.
  - intros [= <- <- <- <-]. split; [by split|]. left. split_and!; [done| |done].
    apply list_elem_of_lookup in Hin as [i Hi]. rewrite lookup_drop in Hi. by eapply list_elem_of_lookup_2.
  - unfold recording. destruct (process m s) as [r0 s0]. intros [= <- <- <- <-]. split; [|by right].
    split.
    + rewrite length_app, length_drop, length_map, map_app, length_app. cbn [length map].
      destruct (Nat.ltb_spec capacity (length l - (length l - capacity) + 1)).
      * replace (length l + 1 - capacity)%nat with (Datatypes.S (length l - capacity)) by lia.
        rewrite drop_succ, drop_app_le by (rewrite length_map; lia). done.
      * replace (length l + 1 - capacity)%nat with 0%nat by lia.
        replace (length l - capacity)%nat with 0%nat by lia. by rewrite !drop_0.
    + intros i j x y Hi Hj Hij Hk. apply lookup_app_Some in Hj as [Hj|[Hlen Hj]].
      { apply (Hd i j x y); auto. rewrite lookup_app_l in Hi; [done|]. apply lookup_lt_Some in Hj. lia. }
      assert (j = length l ∧ y = m) as [-> ->].
      { destruct (j - length l)%nat eqn:Ej; cbn in Hj; [|done]. split; [lia|congruence]. }
      rewrite lookup_app_l in Hi by lia. destruct (Nat.lt_ge_cases capacity (length l - i)); [done|].
      exfalso. apply Hin. rewrite <-Hk. apply list_elem_of_lookup_2 with (i := (i - (length l - capacity))%nat).
      rewrite lookup_drop, list_lookup_fmap. replace (length l - capacity + (i - (length l - capacity)))%nat with i by lia.
      by rewrite Hi.
Qed.

Lemma run_spec ms : ∀ seen s l seen' s' l',
  ring_of l seen → run ms (seen, (s, l)) = (seen', (s', l')) →
  ring_of l' seen' ∧ (∃ k, l' = l ++ k ∧ k `sublist_of` ms) ∧ ∀ m, m ∈ ms → key_fn m ∈ map key_fn l'.
Proof.
  induction ms as [|m ms IH]; intros seen s l seen' s' l' Hr.
  - cbn. intros [= <- <- <-]. split_and!; [done| |by intros ? ?%not_elem_of_nil]. exists []. by rewrite app_nil_r.
  - cbn [deliver]. destruct (consume _ _ _ _ _) as [r0 [seen1 [s1 l1]]] eqn:E. cbn [snd].
    apply consume_ring in E as [Hr1 Hl1]; [|done].
    intros [Hr' [(k & -> & Hk) Hall]]%IH; [|done]. split; [done|].
    assert (∃ k', l1 = l ++ k' ∧ k' `sublist_of` [m] ∧ key_fn m ∈ map key_fn l1) as (k' & -> & Hk' & Hm).
    { destruct Hl1 as [(-> & ? & _)|[-> _]]; [exists []|exists [m]]; rewrite ?app_nil_r; split_and!; auto using sublist_nil_l.
      rewrite map_app. apply elem_of_app. right. by left. }
    split.
    + exists (k' ++ k). rewrite <-app_assoc. split; [done|]. by apply (sublist_app k' [m] k ms).
    + intros x [->|?]%elem_of_cons; [|by auto]. rewrite map_app. apply elem_of_app. by left.
Qed.

(** Any [capacity + 1] consecutive handled messages have distinct keys. *)
Lemma window_distinct l seen i :
  ring_of l seen → NoDup (take (Datatypes.S capacity) (drop i (map key_fn l))).
Proof.
  intros [_ Hgap]. apply NoDup_alt. intros a b z Ha Hb.
  apply lookup_take_Some in Ha as [Ha Hla], Hb as [Hb Hlb]. rewrite lookup_drop, list_lookup_fmap in Ha, Hb.
  destruct (l !! (i + a)%nat) as [u|] eqn:Eu; [|done]. destruct (l !! (i + b)%nat) as [v|] eqn:Ev; [|done].
  injection Ha as Hu. injection Hb as Hv.
  destruct (Nat.lt_trichotomy a b) as [?|[?|?]]; [|done|];
    [pose proof (Hgap _ _ _ _ Eu Ev ltac:(lia) ltac:(congruence))
    |pose proof (Hgap _ _ _ _ Ev Eu ltac:(lia) ltac:(congruence))]; lia.
Qed.

(** With no more keys than the ring holds, no key is handled twice. *)
Lemma no_repeat l seen (D : list string) i j x y :
  ring_of l seen → (∀ x, x ∈ l → key_fn x ∈ D) → (length D <= capacity)%nat →
  l !! i = Some x → l !! j = Some y → (i < j)%nat → key_fn x ≠ key_fn y.
Proof.
  intros Hr Hsub Hlen Hx Hy Hij Hk. pose proof (proj2 Hr i j x y Hx Hy Hij Hk).
  apply lookup_lt_Some in Hy. pose proof (window_distinct l seen i Hr) as Hnd.
  assert (length (take (Datatypes.S capacity) (drop i (map key_fn l))) <= length D)%nat as Hle.
  { apply NoDup_incl_length; [by apply NoDup_ListNoDup|]. intros k Hin. apply list_elem_of_In in Hin.
    apply elem_of_take in Hin as (a & Ha & _). rewrite lookup_drop in Ha. apply list_elem_of_lookup_2 in Ha.
    apply list_elem_of_fmap in Ha as (z & -> & Hz). apply list_elem_of_In. auto. }
  rewrite length_take, length_drop, length_map in Hle. lia.
Qed.

(** A message is handled unless its key is among the last [capacity]
    handled ones: nothing is invented or reordered, every key delivered is
    handled, two runs of a key are more than [capacity] handled messages
    apart, and with no more distinct keys than the ring holds each key is
    handled exactly once, even when its handler raised. *)
Lemma handled_once_per_window ms s seen' s' l' :
  deliver key_fn capacity (recording process) ms ([], (s, [])) = (seen', (s', l')) →
  l' `sublist_of` ms ∧
  (∀ m, m ∈ ms → key_fn m ∈ map key_fn l') ∧
  (∀ i j x y, l' !! i = Some x → l' !! j = Some y → (i < j)%nat → key_fn x = key_fn y → (capacity < j - i)%nat) ∧
  ((length (remove_dups (map key_fn ms)) <= capacity)%nat → NoDup (map key_fn l')).
Proof.
  intros [Hr [(k & -> & Hk) Hall]]%run_spec; [|by split; [done|intros ??????]]. cbn [app] in *.
  split_and!; [done|done|exact (proj2 Hr)|]. intros Hlen. apply NoDup_alt. intros i j z Hi Hj.
  rewrite list_lookup_fmap in Hi, Hj. destruct (k !! i) as [x|] eqn:Ex; [|done]. destruct (k !! j) as [y|] eqn:Ey; [|done].
  injection Hi as Hi. injection Hj as Hj.
  assert (∀ x, x ∈ k → key_fn x ∈ remove_dups (map key_fn ms)) as Hsub.
  { intros u Hu. apply elem_of_remove_dups, list_elem_of_fmap_2. by eapply elem_of_sublist. }
  destruct (Nat.lt_trichotomy i j) as [?|[?|?]]; [exfalso|done|exfalso].
  - by eapply (no_repeat k _ _ i j x y); eauto; congruence.
  - by eapply (no_repeat k _ _ j i y x); eauto; congruence.
Qed.
End facts.

