(* ===== verification/Dispatcher.v ===== *)
(** * The execution dispatcher and the close flow

    Models services/execution/app/dispatcher.py ([ExecutionDispatcher._process],
    [_derive_exec_type], [run_dispatcher_for_bot]) and
    services/execution/app/reconcile.py, over the live tables of ExecDb and any
    exchange client.  One fill is processed at a time; the per-sub-account
    lock, which orders the snapshot pairs of different bots, is therefore not
    represented, and neither are log lines. *)

From S2P Require Import Prelude Dec Sizing PaperDb PaperExchange Consumer ExecDb Exchange Dedup.
Open Scope Z_scope.

(** [_derive_exec_type]: what a fill is, the trade it belongs to and the stop
    type observed. *)
Definition derive_exec_type (bot_id : string) (ev : ExecutionEvent) (order_id_match : option Z) (d : live_db)
  : exec_type * option Z * option slt :=
  match order_id_match with
  | Some oid =>
      match select_trade_by_open_order_id oid d with
      | Some tid => (x_open, Some tid, None)
      | None =>
          match select_trade_by_close_order_id oid d with
          | Some tid => (x_close, Some tid, None)
          | None => (x_unknown, None, None)
          end
      end
  | None =>
      match select_position_state bot_id (ee_symbol ev) d with
      | None => (x_unknown, None, None)
      | Some ps =>
          if bool_decide (ee_side ev = ps_side ps) then (x_unknown, Some (ps_trade_id ps), ps_sl_type ps)
          else if dltb (ee_qty ev) (ps_remaining_qty ps) then (x_partial_tp, Some (ps_trade_id ps), Some trail)
          else if deqb (ee_qty ev) (ps_remaining_qty ps) then
            match ps_sl_type ps with
            | Some trail => (x_trail, Some (ps_trade_id ps), ps_sl_type ps)
            | Some _ => (x_sl, Some (ps_trade_id ps), ps_sl_type ps)
            | None => (x_unknown, Some (ps_trade_id ps), ps_sl_type ps)
            end
          else (x_unknown, Some (ps_trade_id ps), ps_sl_type ps)
      end
  end.

(** [_EXEC_TYPE_TO_CLOSE_REASON.get(exec_type, "unknown")]. *)
Definition close_reason_of (x : exec_type) : string :=
  match x with x_close => "manual" | x_sl => "sl" | x_trail => "trail" | _ => "unknown" end.

Section dispatcher.
Context {E : Type} `{PgNumeric} (cl : exchange_client E) (bot_id sub_account : string)
  (closed_pnl_post_close_sleep : Z) (accepts : xmessage → bool).
Abbreviation X := (ST (xworld E)).

(** ** reconcile.py *)
Definition reconcile_close (symbol : string) (trade_id : Z) (close_order_id : option Z) (x : exec_type)
    (fees_paid_at_close : option dec) (final_fill_price : dec) (closed_at : Z) : X (order_event * string * string) :=
  open_oid ← reads (select_open_order_id_by_trade_id trade_id);
  oid ← match close_order_id with
        | Some oid => mret oid
        | None => match open_oid with
                  | Some oid => mret oid
                  | None => throw (RuntimeError "orphan trade")
                  end
        end;
  meta ← reads (select_order_meta_by_id oid);
  match meta with
  | None => throw (RuntimeError "orders row not found")
  | Some (correlation_id, close_exchange_order_id) =>
      before_total ← on_exchange (ex_get_closed_pnl_cumulative cl sub_account);
      sleep closed_pnl_post_close_sleep ;;
      after_total ← on_exchange (ex_get_closed_pnl_cumulative cl sub_account);
      let delta := dsub after_total before_total in
      let close_reason := close_reason_of x in
      on_live (update_trade_close trade_id final_fill_price delta fees_paid_at_close closed_at close_reason oid) ;;
      on_live (update_trade_lifecycle_state trade_id ls_closed) ;;
      on_live (delete_position_state bot_id symbol) ;;
      mret (OrderClosed bot_id oid close_exchange_order_id symbol closed_at delta close_reason,
            correlation_id, close_exchange_order_id)
  end.

Definition emit_post_commit_close_event (correlation_id : string) (closed : order_event) (trade_id closed_at : Z) : X unit :=
  publish_best_effort accepts bot_id correlation_id (orders_events closed) ;;
  publish_best_effort accepts bot_id correlation_id (trade_closed trade_id kind_live closed_at).

(** ** dispatcher.py *)

(** The order an execution row is attributed to. *)
Definition order_id_for_insert (order_id_match trade_id : option Z) : X Z :=
  match order_id_match with
  | Some oid => mret oid
  | None =>
      match trade_id with
      | Some tid =>
          resolved ← reads (select_open_order_id_by_trade_id tid);
          match resolved with
          | Some oid => mret oid
          | None => throw (RuntimeError "orphan synthetic fill")
          end
      | None => throw (RuntimeError "unattributable fill")
      end
  end.

(** A fill that is not an opening one reduces the position it belongs to. *)
Definition apply_exit_fill (ev : ExecutionEvent) (x : exec_type) (trade_id : option Z) : X unit :=
  if bool_decide (x = x_open) then mret tt
  else
    match trade_id with
    | None => throw AssertionError
    | Some tid =>
        now ← now_fn;
        rows ← on_live (update_position_state_after_fill bot_id (ee_symbol ev) tid (ee_qty ev)
                          (if bool_decide (x = x_partial_tp) then Some trail else None) now);
        if rows =? 0 then throw (RuntimeError "position_state.trade_id mismatch") else mret tt
    end.

(** The close flow when nothing remains, the lifecycle mark otherwise. *)
Definition after_fill (ev : ExecutionEvent) (x : exec_type) (order_id_match trade_id : option Z) (ps_after : option position_state_row)
  : X (option (order_event * string)) :=
  match ps_after with
  | Some ps =>
      if bool_decide (x = x_open) then mret None
      else
        match trade_id with
        | None => throw (RuntimeError "internal invariant: trade_id None")
        | Some tid =>
            if deqb (ps_remaining_qty ps) dzero then
              p ← reconcile_close (ee_symbol ev) tid order_id_match x None (ee_price ev) (ee_executed_at ev);
              mret (Some p.1)
            else on_live (update_trade_lifecycle_state tid ls_partially_closed) ;; mret None
        end
  | None => mret None
  end.

(** The body of the transaction. *)
Definition process_tx (ev : ExecutionEvent) : X (option (order_event * string) * option Z) :=
  order_id_match ← reads (select_order_id_by_exchange_id (ee_order_id ev));
  derived ← reads (derive_exec_type bot_id ev order_id_match);
  let '(x, trade_id, _) := derived in
  ps_check ← reads (select_position_state bot_id (ee_symbol ev));
  if bool_decide (x = x_unknown) && bool_decide (is_Some trade_id) &&
     match ps_check with Some ps => dltb (ps_remaining_qty ps) (ee_qty ev) | None => false end
  then throw (RuntimeError "over-fill")
  else if bool_decide (is_Some order_id_match) && bool_decide (trade_id = None)
  then throw (RuntimeError "orphan order match")
  else
    oid ← order_id_for_insert order_id_match trade_id;
    on_live (insert_execution (ee_exec_id ev) oid trade_id bot_id (ee_symbol ev) (ee_side ev) (ee_price ev) (ee_qty ev)
               (ee_fee ev) x (ee_executed_at ev)) ;;
    apply_exit_fill ev x trade_id ;;
    match trade_id with
    | Some tid => on_live (update_trade_fees_incremental tid (ee_fee ev))
    | None => mret tt
    end ;;
    ps_after ← reads (select_position_state bot_id (ee_symbol ev));
    closed ← after_fill ev x order_id_match trade_id ps_after;
    mret (closed, trade_id).

Definition process (ev : ExecutionEvent) : X unit :=
  r ← in_transaction (process_tx ev);
  match r with
  | (Some (payload, correlation_id), Some tid) => emit_post_commit_close_event correlation_id payload tid (ee_executed_at ev)
  | (Some _, None) => throw AssertionError
  | (None, _) => mret tt
  end.

(** [run_dispatcher_for_bot] over the events the stream yields: the first
    exception ends the task. *)
Fixpoint run_dispatcher_for_bot (capacity : nat) (events : list ExecutionEvent) : ST (list string * xworld E) unit :=
  match events with
  | [] => mret tt
  | ev :: events' => consume ee_exec_id capacity process ev ;; run_dispatcher_for_bot capacity events'
  end.
End dispatcher.
