(* ===== verification/Placement.v ===== *)
(** * Order placement

    Models services/execution/app/placement.py ([make_per_bot_handler]'s
    [_handle] and its dedup wrapper) and placement_persist.py.  The handler is
    one definition cut at its numbered steps, in the order of the code; it
    returns the label of the log line that ends it.  Metrics and the text of
    log lines are left out, as is the elapsed time a retry reports. *)

From S2P Require Import Prelude Dec Sizing PaperDb PaperExchange RiskGates Consumer ExecDb Exchange Dedup.
Open Scope Z_scope.

(** ** Pure helpers of placement_persist.py *)
Definition compute_sl_price (sd : side) (fill_price sl_pct : dec) : dec :=
  match sd with buy => dmul fill_price (dsub (1 @ 0) sl_pct) | sell => dmul fill_price (dadd (1 @ 0) sl_pct) end.
Definition compute_tp_price (sd : side) (fill_price tp_pct : dec) : dec :=
  match sd with buy => dmul fill_price (dadd (1 @ 0) tp_pct) | sell => dmul fill_price (dsub (1 @ 0) tp_pct) end.
Definition compute_tp_size (fill_qty tp_qty_pct : dec) : dec := dmul fill_qty tp_qty_pct.
Definition compute_notional_usd (qty price : dec) : res dec := dquantize (dmul qty price) (-4).
Definition opposite_side (sd : side) : side := match sd with buy => sell | sell => buy end.

(** [OrderRequestDedupConsumer._extract_key]. *)
Definition extract_key (env : request_envelope) : string :=
  default "None" (re_payload_bot_id env) +:+ ":" +:+ default "None" (re_payload_signal_id env).

Inductive placement_label :=
| order_request_validation_failed | sizing_fetch_failed | sizing_compute_failed | signal_skipped_sub_lowest_tier
| qty_validation_failed | get_instrument_info_failed | tp_size_below_min_order_qty | set_leverage_failed
| place_market_order_unknown_state | place_market_order_rejected | place_market_order_failed
| paper_placed | emergency_close_invoked | placement_persist_tx_failed | placed.

Section placement.
Context {E : Type} `{PgNumeric} (cl : exchange_client E) (bot_id sub_account : string)
  (fill_price_retry_attempts : nat) (fill_price_retry_backoff : Z) (accepts : xmessage → bool).
Abbreviation X := (ST (xworld E)).

(** ** placement_persist.py *)
Definition persist_placement_tx (r : OrderRequest) (env : request_envelope) (pr : OrderPlaceResult)
    (fill_price sl_price tp_price tp_size notional_usd : dec) (sl_set_at : Z) (qty : dec)
  : ST live_db (order_event * order_event * Z) :=
  open_order_id ← insert_order bot_id (Some (or_signal_id r)) (re_correlation_id env) (exchange_order_id pr) "bybit"
    (or_symbol r) (or_side r) "market" qty (Some fill_price) "filled" (re_published_at env) (Some (placed_at pr)) None false;
  trade_id ← insert_trade bot_id (Some (or_signal_id r)) open_order_id (or_symbol r) (or_side r) fill_price qty notional_usd
    (placed_at pr) (Some (mkFsm (or_be_trigger r) (or_be_sl_level r) (or_trail_pct r)));
  update_trade_lifecycle_state trade_id ls_open ;;
  insert_position_state bot_id (or_symbol r) trade_id (or_side r) fill_price qty qty (Some sl_price) (Some tp_price)
    (Some protective) sl_set_at ;;
  let order_placed := OrderPlaced bot_id open_order_id (exchange_order_id pr) (or_symbol r) (placed_at pr) in
  let sl_moved := SLMoved bot_id open_order_id (exchange_order_id pr) (or_symbol r) sl_set_at sl_price protective in
  insert_trading_event (placed_at pr) (Some bot_id) (Some (re_correlation_id env)) "order_placed" (pl_order order_placed) ;;
  insert_trading_event sl_set_at (Some bot_id) (Some (re_correlation_id env)) "sl_moved" (pl_order sl_moved) ;;
  mret (order_placed, sl_moved, trade_id).

Definition emit_post_commit_events (correlation_id : string) (order_placed sl_moved : order_event) : X unit :=
  publish_best_effort accepts bot_id correlation_id (orders_events order_placed) ;;
  publish_best_effort accepts bot_id correlation_id (orders_events sl_moved).

Definition emit_post_commit_shadow_start_event (correlation_id : string) (parent_trade_id : Z) (kind : parent_kind)
    (symbol : string) (sd : side) (entry_price qty : dec) (variants : list ShadowVariant) : X unit :=
  publish_best_effort accepts bot_id correlation_id (shadow_start parent_trade_id kind symbol sd entry_price qty variants).

(** The transaction of [emergency_close]: the trade is born and closed in it. *)
Definition emergency_close_tx (r : OrderRequest) (env : request_envelope) (pr : OrderPlaceResult) (close_exchange_order_id : string)
    (fill_price qty notional : dec) (close_at : Z) : ST live_db (order_event * order_event) :=
  open_order_id ← insert_order bot_id (Some (or_signal_id r)) (re_correlation_id env) (exchange_order_id pr) "bybit"
    (or_symbol r) (or_side r) "market" qty (Some fill_price) "emergency_closed" (re_published_at env)
    (Some (placed_at pr)) (Some close_at) false;
  close_order_id ← insert_order bot_id (Some (or_signal_id r)) (re_correlation_id env) close_exchange_order_id "bybit"
    (or_symbol r) (opposite_side (or_side r)) "market" qty (Some fill_price) "filled" close_at
    (Some close_at) (Some close_at) false;
  trade_id ← insert_trade bot_id (Some (or_signal_id r)) open_order_id (or_symbol r) (or_side r) fill_price qty notional
    (placed_at pr) None;
  update_trade_lifecycle_state trade_id ls_open ;;
  update_trade_close trade_id fill_price dzero (Some dzero) close_at "emergency" close_order_id ;;
  update_trade_lifecycle_state trade_id ls_closed ;;
  let order_placed := OrderPlaced bot_id open_order_id (exchange_order_id pr) (or_symbol r) (placed_at pr) in
  let order_closed := OrderClosed bot_id close_order_id close_exchange_order_id (or_symbol r) close_at dzero "emergency" in
  insert_trading_event (placed_at pr) (Some bot_id) (Some (re_correlation_id env)) "order_placed" (pl_order order_placed) ;;
  insert_trading_event close_at (Some bot_id) (Some (re_correlation_id env)) "order_closed" (pl_order order_closed) ;;
  mret (order_placed, order_closed).

Definition is_unknown_state (e : exn) : bool := match e with UnknownState _ => true | _ => false end.
Definition any_exception (e : exn) : bool := true.

(** Only [UnknownState] of the reduce-only order is caught. *)
Definition emergency_close (r : OrderRequest) (env : request_envelope) (pr : OrderPlaceResult) (fill_price qty : dec) : X unit :=
  close_at ← now_fn;
  c ← attempt is_unknown_state (on_exchange (ex_place_market_order cl (or_symbol r) (opposite_side (or_side r)) qty true));
  match c with
  | Err _ => mret tt
  | Ok close_result =>
      notional ← lift_res (compute_notional_usd qty fill_price);
      t ← attempt any_exception (in_transaction (on_live
            (emergency_close_tx r env pr (exchange_order_id close_result) fill_price qty notional close_at)));
      match t with
      | Err _ => mret tt
      | Ok (order_placed, order_closed) =>
          publish_best_effort accepts bot_id (re_correlation_id env) (orders_events order_placed) ;;
          publish_best_effort accepts bot_id (re_correlation_id env) (orders_events order_closed)
      end
  end.

(** ** placement.py *)
Definition is_value_error (e : exn) : bool := match e with ValueError _ => true | _ => false end.
Definition is_qty_error (e : exn) : bool := match e with QtyValidationError _ => true | _ => false end.

(** The sizing seam: the static quantity, or one computed from equity and mark
    price; a label when the request is skipped. *)
Definition working_qty (r : OrderRequest) : X (placement_label + dec) :=
  match or_sizing r with
  | None => mret (inr (or_qty r))
  | Some sz =>
      fetched ← attempt transient (balance ← on_exchange (ex_get_account_balance cl sub_account);
                                   mark_price ← on_exchange (ex_get_mark_price cl (or_symbol r));
                                   mret (balance, mark_price));
      match fetched with
      | Err _ => mret (inl sizing_fetch_failed)
      | Ok (balance, mark_price) =>
          computed ← match method sz with
                     | risk_per_sl =>
                         match risk_pct sz with
                         | None => mret (Err (ValueError "risk_per_sl sizing requires risk_pct"))
                         | Some rp =>
                             attempt is_value_error (lift_res (compute_qty_from_risk (total_equity balance) mark_price (or_sl_pct r) rp
                               (max_notional_per_symbol sz) (or_symbol r)))
                         end
                     | tier =>
                         attempt is_value_error (lift_res (compute_qty_from_sizing (total_equity balance) mark_price (tiers sz) (or_score r)
                           (score_multipliers sz) (max_notional_per_symbol sz) (or_symbol r)))
                     end;
          match computed with
          | Err _ => mret (inl sizing_compute_failed)
          | Ok None => mret (inl signal_skipped_sub_lowest_tier)
          | Ok (Some q) => mret (inr q)
          end
      end
  end.

(** Steps 3a and 3b: entry and partial-target quantities on the exchange grid. *)
Definition preflight (r : OrderRequest) (wq : dec) : X (placement_label + InstrumentInfo * dec * dec) :=
  q ← attempt (fun e => is_qty_error e || transient e)
        (info ← on_exchange (ex_get_instrument_info cl (or_symbol r));
         quantized ← lift_res (quantize_qty wq info);
         mret (info, quantized));
  match q with
  | Err e => mret (inl (if is_qty_error e then qty_validation_failed else get_instrument_info_failed))
  | Ok (info, quantized) =>
      t ← attempt is_qty_error (lift_res (quantize_qty (compute_tp_size quantized (or_tp_qty_pct r)) info));
      match t with
      | Err _ => mret (inl tp_size_below_min_order_qty)
      | Ok tp_size => mret (inr (info, quantized, tp_size))
      end
  end.

(** Step 6: a transient failure counts as no price yet; the last attempt does
    not wait. *)
Fixpoint fill_price_loop (attempts : nat) (symbol order_id : string) : X (option dec) :=
  match attempts with
  | O => mret None
  | S n =>
      p ← attempt transient (on_exchange (ex_get_fill_price cl symbol order_id));
      match p with
      | Ok (Some price) => mret (Some price)
      | _ => (match n with O => mret tt | _ => sleep fill_price_retry_backoff end) ;; fill_price_loop n symbol order_id
      end
  end.

(** Step 7: the paper exchange keeps its own tables. *)
Definition paper_fork (r : OrderRequest) (env : request_envelope) (pr : OrderPlaceResult)
    (fill_price sl_price tp_price tp_size qty : dec) : X placement_label :=
  on_exchange (ex_set_trading_stop cl (or_symbol r) Full (Some sl_price) None None) ;;
  on_exchange (ex_set_trading_stop cl (or_symbol r) Partial None (Some tp_price) (Some tp_size)) ;;
  match or_shadow_variants r, paper_trade_id pr with
  | _ :: _, Some tid =>
      emit_post_commit_shadow_start_event (re_correlation_id env) tid kind_paper (or_symbol r) (or_side r) fill_price qty
        (or_shadow_variants r)
  | _, _ => mret tt
  end ;;
  mret paper_placed.

(** Steps 8 to 12. *)
Definition protect_and_persist (r : OrderRequest) (env : request_envelope) (pr : OrderPlaceResult)
    (fill_price sl_price tp_price tp_size notional_usd qty : dec) : X placement_label :=
  sl ← attempt any_exchange_failure (on_exchange (ex_set_trading_stop cl (or_symbol r) Full (Some sl_price) None None));
  match sl with
  | Err _ => emergency_close r env pr fill_price qty ;; mret emergency_close_invoked
  | Ok _ =>
      sl_set_at ← now_fn;
      _ ← attempt any_exchange_failure
            (on_exchange (ex_set_trading_stop cl (or_symbol r) Partial None (Some tp_price) (Some tp_size)));
      t ← attempt any_exception (in_transaction (on_live
            (persist_placement_tx r env pr fill_price sl_price tp_price tp_size notional_usd sl_set_at qty)));
      match t with
      | Err _ => mret placement_persist_tx_failed
      | Ok (order_placed, sl_moved, trade_id) =>
          emit_post_commit_events (re_correlation_id env) order_placed sl_moved ;;
          match or_shadow_variants r with
          | [] => mret tt
          | variants => emit_post_commit_shadow_start_event (re_correlation_id env) trade_id kind_live (or_symbol r) (or_side r)
                          fill_price qty variants
          end ;;
          spawn_monitor trade_id (mkMonitor bot_id (or_symbol r) (or_side r) fill_price qty) ;;
          mret placed
      end
  end.

(** Steps 6 and onwards, once the order is accepted. *)
Definition after_order (r : OrderRequest) (env : request_envelope) (info : InstrumentInfo) (pr : OrderPlaceResult)
    (qty tp_size : dec) : X placement_label :=
  p ← fill_price_loop fill_price_retry_attempts (or_symbol r) (exchange_order_id pr);
  match p with
  | None => publish_best_effort accepts bot_id (re_correlation_id env) (orders_dlq env) ;; throw FillPriceUnresolvedError
  | Some fill_price =>
      sl_price ← lift_res (quantize_price (compute_sl_price (or_side r) fill_price (or_sl_pct r)) (or_side r) (tick_size info));
      tp_price ← lift_res (quantize_price (compute_tp_price (or_side r) fill_price (or_tp_pct r)) (or_side r) (tick_size info));
      notional_usd ← lift_res (compute_notional_usd qty fill_price);
      match or_exchange_mode r with
      | em_paper => paper_fork r env pr fill_price sl_price tp_price tp_size qty
      | _ => protect_and_persist r env pr fill_price sl_price tp_price tp_size notional_usd qty
      end
  end.

Definition handle (env : request_envelope) : X placement_label :=
  match re_request env with
  | None => mret order_request_validation_failed
  | Some r =>
      wq ← working_qty r;
      match wq with
      | inl l => mret l
      | inr wq =>
          pf ← preflight r wq;
          match pf with
          | inl l => mret l
          | inr (info, qty, tp_size) =>
              lev ← attempt rejected_or_transient (on_exchange (ex_set_leverage cl (or_symbol r) (or_leverage r)));
              match lev with
              | Err _ => mret set_leverage_failed
              | Ok _ =>
                  o ← attempt any_exchange_failure (on_exchange (ex_place_market_order cl (or_symbol r) (or_side r) qty false));
                  match o with
                  | Err (UnknownState _) => mret place_market_order_unknown_state
                  | Err (OrderRejected _) => mret place_market_order_rejected
                  | Err _ => mret place_market_order_failed
                  | Ok pr => after_order r env info pr qty tp_size
                  end
              end
          end
      end
  end.
End placement.

(** The subscription handler: [OrderRequestDedupConsumer.consume] around
    [_handle]. *)
Definition consume_request {E} `{PgNumeric} (cl : exchange_client E) (bot_id sub_account : string) (attempts : nat) (backoff : Z)
    (accepts : xmessage → bool) (capacity : nat) : request_envelope → ST (list string * xworld E) unit :=
  consume extract_key capacity (fun env => handle cl bot_id sub_account attempts backoff accepts env ≫= fun _ => mret tt).
