(* ===== verification/Lifecycle.v ===== *)
(** * The position monitor and the trail audit

    Models services/execution/app/lifecycle.py and trail_audit.py: one tick of
    [run_position_monitor_for_trade] with the break-even and trailing moves of
    the stop, [_detect_sl_overwrite], and one tick of the audit that compares
    the stop on the exchange with the recomputed one.  The loop around a tick
    only sleeps and counts stale prices for a log line.  A tick is not a
    transaction: each statement commits on its own. *)

From S2P Require Import Prelude Dec Sizing PaperDb PaperExchange Consumer ExecDb Exchange Placement.
From stdpp Require Import pretty sorting.
Open Scope Z_scope.

(** ** Pure helpers *)
Definition check_be_trigger (sd : side) (current_price entry_price trigger : dec) : res bool :=
  match sd with
  | buy => r ← ddiv (dsub current_price entry_price) entry_price; Ok (dleb trigger r)
  | sell => r ← ddiv (dsub entry_price current_price) entry_price; Ok (dleb trigger r)
  end.
Definition compute_be_sl_price (sd : side) (entry_price level : dec) : dec :=
  match sd with buy => dmul entry_price (dadd (1 @ 0) level) | sell => dmul entry_price (dsub (1 @ 0) level) end.
Definition compute_trail_sl_price (sd : side) (best_price pct : dec) : dec :=
  match sd with buy => dmul best_price (dsub (1 @ 0) pct) | sell => dmul best_price (dadd (1 @ 0) pct) end.
Definition update_best_price (sd : side) (current_price : dec) (ps_best : option dec) : dec :=
  match ps_best with
  | None => current_price
  | Some b => match sd with
              | buy => if dltb b current_price then current_price else b
              | sell => if dltb current_price b then current_price else b
              end
  end.
Definition update_mfe_mae (sd : side) (current_price : dec) (ps_mfe ps_mae : option dec) : dec * dec :=
  let mfe := default current_price ps_mfe in
  let mae := default current_price ps_mae in
  match sd with
  | buy => (if dltb mfe current_price then current_price else mfe, if dltb current_price mae then current_price else mae)
  | sell => (if dltb current_price mfe then current_price else mfe, if dltb mae current_price then current_price else mae)
  end.

(** What the KV bucket [latest_price] answers. *)
Inductive kv_price := kv_no_price | kv_bad_price | kv_latest (price : dec).

Section monitor.
Context {E : Type} `{PgNumeric} (cl : exchange_client E).
Abbreviation X := (ST (xworld E)).

(** [_detect_sl_overwrite]: an audit row when the stop on the exchange is
    neither absent nor the recorded one. *)
Definition detect_sl_overwrite (bot_id symbol : string) (trade_id : Z) (ps_sl_price : option dec) (ps_sl_type : option slt) : X unit :=
  match ps_sl_price with
  | None => mret tt
  | Some expected =>
      r ← attempt any_exchange_failure (on_exchange (ex_get_positions cl (Some symbol)));
      match r with
      | Err _ => mret tt
      | Ok positions =>
          match head (filter (fun p => xp_symbol p = symbol) positions) with
          | None => mret tt
          | Some pos =>
              if dleb (xp_size pos) dzero then mret tt
              else match xp_sl_price pos with
                   | None => mret tt
                   | Some observed =>
                       if deqb observed expected then mret tt
                       else now ← now_fn;
                            on_live (insert_trading_event now (Some bot_id)
                              (Some ("sl-overwrite-" +:+ bot_id +:+ "-" +:+ symbol +:+ "-" +:+ pretty trade_id)) "sl_overwrite_detected"
                              (pl_sl_overwrite bot_id symbol trade_id ps_sl_type expected observed))
                   end
          end
      end
  end.

(** A move of the stop: the exchange first, the tables only when it accepted. *)
Definition move_stop (bot_id symbol : string) (sd : side) (trade_id : Z) (raw_sl : dec) (t : slt) (l : lifecycle_state) : X unit :=
  instrument ← on_exchange (ex_get_instrument_info cl symbol);
  new_sl ← lift_res (quantize_price raw_sl sd (tick_size instrument));
  r ← attempt any_exchange_failure (on_exchange (ex_set_trading_stop cl symbol Full (Some new_sl) None None));
  match r with
  | Err _ => mret tt
  | Ok _ =>
      now ← now_fn;
      on_live (update_position_state_sl bot_id symbol new_sl t now) ;;
      on_live (update_trade_lifecycle_state trade_id l)
  end.

(** One round of the loop; [false] when the monitor ends. *)
Definition monitor_tick (trade_id : Z) (a : monitor_args) (kv : kv_price) : X bool :=
  let bot_id := mon_bot_id a in let symbol := mon_symbol a in let sd := mon_side a in let entry := mon_entry_price a in
  match kv with
  | kv_latest price =>
      row ← reads (select_position_state bot_id symbol);
      match row with
      | None => mret false
      | Some ps =>
          let running_pnl := dmul (dmul (dsub price entry) (mon_qty a)) (match sd with buy => 1 @ 0 | sell => (-1) @ 0 end) in
          let new_best := update_best_price sd price (ps_best_price ps) in
          let '(new_mfe, new_mae) := update_mfe_mae sd price (ps_mfe_price ps) (ps_mae_price ps) in
          now ← now_fn;
          on_live (update_position_state_monitor_tick bot_id symbol new_best new_mfe new_mae running_pnl now) ;;
          detect_sl_overwrite bot_id symbol trade_id (ps_sl_price ps) (ps_sl_type ps) ;;
          f ← reads (select_trade_fsm_params trade_id);
          f ← lift_res f;
          match f with
          | None => mret true
          | Some f =>
              trigger ← (if bool_decide (ps_sl_type ps = Some protective)
                         then lift_res (check_be_trigger sd price entry (be_trigger f)) else mret false);
              (if (trigger : bool) then move_stop bot_id symbol sd trade_id (compute_be_sl_price sd entry (be_sl_level f)) be ls_breakeven_set
               else if bool_decide (ps_sl_type ps = Some trail) &&
                       match ps_best_price ps with Some b => negb (deqb new_best b) | None => false end
               then move_stop bot_id symbol sd trade_id (compute_trail_sl_price sd new_best (trail_pct f)) trail ls_trailing_active
               else mret tt) ;;
              mret true
          end
      end
  | _ => mret true
  end.
End monitor.

(** ** Python dicts built by comprehension: the last value of a key, at the
    place of the first. *)
Fixpoint dict_set {A} (k : string) (v : A) (l : list (string * A)) : list (string * A) :=
  match l with
  | [] => [(k, v)]
  | (k', v') :: l' => if bool_decide (k = k') then (k, v) :: l' else (k', v') :: dict_set k v l'
  end.
Definition dict_of {A} (l : list (string * A)) : list (string * A) := fold_left (fun acc kv => dict_set kv.1 kv.2 acc) l [].
Fixpoint dict_get {A} (k : string) (l : list (string * A)) : option A :=
  match l with
  | [] => None
  | (k', v) :: l' => if bool_decide (k = k') then Some v else dict_get k l'
  end.
(** [{p.symbol: p for p in positions if p.size > 0}]. *)
Definition open_positions (ps : list Position) : list (string * Position) :=
  dict_of (map (fun p => (xp_symbol p, p)) (filter (fun p => dltb dzero (xp_size p) = true) ps)).

Definition string_le (a b : string) : Prop := String.leb a b = true.
#[global] Instance string_le_dec : RelDecision string_le.
Proof. intros a b. unfold string_le. apply _. Defined.
(** [sorted(adapters)], paper bots left out. *)
Definition sorted_bots {A} (adapters : gmap string A) : list string := merge_sort string_le (map fst (map_to_list adapters)).

(** ** trail_audit.py *)
Section audit.
Context {E : Type} `{PgNumeric} (adapters : gmap string (exchange_client E)) (paper_bot_ids : gset string) (drift_tolerance_pct : dec).
Abbreviation X := (ST (xworld E)).

(** The candidates of phase A: trailing rows with a best price and their
    parameters. *)
Fixpoint audit_candidates (rows : list ((string * string) * position_state_row))
  : X (list (string * string * position_state_row * dec * dec)) :=
  match rows with
  | [] => mret []
  | ((bot, sym), ps) :: rows' =>
      match ps_best_price ps with
      | Some best =>
          if bool_decide (ps_sl_type ps = Some trail) then
            f ← reads (select_trade_fsm_params (ps_trade_id ps));
            f ← lift_res f;
            rest ← audit_candidates rows';
            mret (match f with Some f => (bot, sym, ps, best, trail_pct f) :: rest | None => rest end)
          else audit_candidates rows'
      | None => audit_candidates rows'
      end
  end.

(** Phase B for one candidate. *)
Definition audit_one (cl : exchange_client E) (ex : list (string * Position)) (c : string * string * position_state_row * dec * dec)
  : X (option (string * string * event_payload)) :=
  let '(bot, sym, ps, best, pct) := c in
  match dict_get sym ex with
  | None => mret None
  | Some pos =>
      match xp_sl_price pos with
      | None => mret None
      | Some observed =>
          instrument ← on_exchange (ex_get_instrument_info cl sym);
          expected ← lift_res (quantize_price (compute_trail_sl_price (ps_side ps) best pct) (ps_side ps) (tick_size instrument));
          if dleb expected dzero then mret None
          else
            drift ← lift_res (ddiv (dabs (dsub observed expected)) expected);
            if dleb drift drift_tolerance_pct then mret None
            else mret (Some (bot, "trail-audit-" +:+ bot +:+ "-" +:+ sym +:+ "-" +:+ pretty (ps_trade_id ps),
                             pl_trail_drift bot sym (ps_trade_id ps) (ps_side ps) best pct expected observed drift drift_tolerance_pct))
      end
  end.
Fixpoint audit_each (cl : exchange_client E) (ex : list (string * Position)) (cs : list (string * string * position_state_row * dec * dec))
  : X (list (string * string * event_payload)) :=
  match cs with
  | [] => mret []
  | c :: cs' => h ← audit_one cl ex c; rest ← audit_each cl ex cs'; mret (option_list h ++ rest)
  end.
Fixpoint audit_bots (bots : list string) (cands : list (string * string * position_state_row * dec * dec))
  : X (list (string * string * event_payload)) :=
  match bots with
  | [] => mret []
  | b :: bots' =>
      let mine := filter (fun c => c.1.1.1.1 = b) cands in
      hits ← match mine, adapters !! b with
             | _ :: _, Some cl =>
                 r ← attempt any_exchange_failure (on_exchange (ex_get_positions cl None));
                 match r with
                 | Err _ => mret []
                 | Ok positions => audit_each cl (open_positions positions) mine
                 end
             | _, _ => mret []
             end;
      rest ← audit_bots bots' cands;
      mret (hits ++ rest)
  end.
Fixpoint emit_hits (hits : list (string * string * event_payload)) : X unit :=
  match hits with
  | [] => mret tt
  | (bot, corr, payload) :: hits' =>
      now ← now_fn; on_live (insert_trading_event now (Some bot) (Some corr) "trail_sl_drift_detected" payload) ;; emit_hits hits'
  end.
Definition run_trail_audit_tick : X unit :=
  let live := filter (fun b => b ∉ paper_bot_ids) (sorted_bots adapters) in
  match live with
  | [] => mret tt
  | _ =>
      rows ← reads (select_position_states_for_bots live);
      cands ← audit_candidates rows;
      hits ← audit_bots live cands;
      emit_hits hits
  end.
End audit.
