(* ===== verification/Recovery.v ===== *)
(** * The stop-loss watchdog and the reconciliation at start-up

    Models services/execution/app/sl_watchdog.py with
    [emergency_close_tracked_position] of placement_persist.py, and restart.py.
    A tick or a start-up is one definition over all adapters; the exchanges
    share the state [E].  The watchdog's counters are process memory, kept
    beside the world. *)

From S2P Require Import Prelude Dec Sizing PaperDb PaperExchange Consumer ExecDb Exchange Placement Lifecycle.
From stdpp Require Import sorting.
Open Scope Z_scope.

Section recovery.
Context {E : Type} `{PgNumeric} (adapters : gmap string (exchange_client E)) (accepts : xmessage → bool).
Abbreviation X := (ST (xworld E)).

(** ** Closing a tracked position *)
Definition close_tracked_tx (bot_id symbol : string) (trade_id open_oid close_at : Z) (closed : order_event) : ST live_db unit :=
  update_trade_close trade_id dzero dzero None close_at "emergency" open_oid ;;
  update_trade_lifecycle_state trade_id ls_closed ;;
  delete_position_state bot_id symbol ;;
  insert_trading_event close_at (Some bot_id) (Some ("sl-watchdog-" +:+ bot_id +:+ "-" +:+ symbol)) "sl_watchdog_emergency_close" (pl_order closed).

Definition emergency_close_tracked_position (cl : exchange_client E) (bot_id symbol : string) (ps : position_state_row) : X unit :=
  close_at ← now_fn;
  c ← attempt is_unknown_state (on_exchange (ex_place_market_order cl symbol (opposite_side (ps_side ps)) (ps_remaining_qty ps) true));
  match c with
  | Err _ => mret tt
  | Ok close_result =>
      t ← attempt any_exception (
            open_oid ← reads (select_open_order_id_by_trade_id (ps_trade_id ps));
            match open_oid with
            | None => mret None
            | Some oid =>
                let closed := OrderClosed bot_id oid (exchange_order_id close_result) symbol close_at dzero "emergency" in
                in_transaction (on_live (close_tracked_tx bot_id symbol (ps_trade_id ps) oid close_at closed)) ;;
                mret (Some closed)
            end);
      match t with
      | Ok (Some closed) =>
          publish_best_effort accepts bot_id ("sl-watchdog-" +:+ bot_id +:+ "-" +:+ symbol) (orders_events closed)
      | _ => mret tt
      end
  end.

(** ** sl_watchdog.py *)
Abbreviation counters := (gmap (string * string) Z).
Abbreviation WD := (ST (counters * xworld E)).
Definition in_world {A} (m : X A) : WD A := fun '(c, w) => let '(r, w') := m w in (r, (c, w')).
Definition set_counter (k : string * string) (n : option Z) : WD unit :=
  modify (fun '(c, w) => (partial_alter (fun _ => n) k c, w)).

Definition sl_missing (pos : Position) : bool :=
  match xp_sl_price pos with None => true | Some sl => dleb sl dzero end.

(** The inner loop over a bot's open positions; the keys seen with their stop
    missing. *)
Fixpoint watch_positions (threshold : Z) (cl : exchange_client E) (bot : string) (rows : list (string * position_state_row))
    (ex : list (string * Position)) : WD (list (string * string)) :=
  match ex with
  | [] => mret []
  | (symbol, pos) :: ex' =>
      match dict_get symbol rows with
      | None => watch_positions threshold cl bot rows ex'
      | Some ps =>
          if negb (sl_missing pos) then set_counter (bot, symbol) None ;; watch_positions threshold cl bot rows ex'
          else
            st ← get_st;
            let count := default 0 (st.1 !! (bot, symbol)) + 1 in
            set_counter (bot, symbol) (Some count) ;;
            (if threshold <=? count
             then in_world (emergency_close_tracked_position cl bot symbol ps) ;; set_counter (bot, symbol) None
             else mret tt) ;;
            seen ← watch_positions threshold cl bot rows ex';
            mret ((bot, symbol) :: seen)
      end
  end.

(** The loop over the live bots: who was observed, and which keys had their
    stop missing. *)
Fixpoint watch_bots (threshold : Z) (rows : list ((string * string) * position_state_row)) (bots : list string)
  : WD (list string * list (string * string)) :=
  match bots with
  | [] => mret ([], [])
  | bot :: bots' =>
      match adapters !! bot with
      | None => watch_bots threshold rows bots'
      | Some cl =>
          r ← in_world (attempt any_exception (on_exchange (ex_get_positions cl None)));
          match r with
          | Err _ => watch_bots threshold rows bots'
          | Ok positions =>
              let mine := map (fun r => (r.1.2, r.2)) (filter (fun r => r.1.1 = bot) rows) in
              seen ← watch_positions threshold cl bot mine (open_positions positions);
              rest ← watch_bots threshold rows bots';
              mret (bot :: rest.1, seen ++ rest.2)
          end
      end
  end.

(** End-of-tick prune: observed bots' keys that were not seen missing. *)
Definition prune (observed : list string) (seen : list (string * string)) (c : counters) : counters :=
  filter (fun kv => ¬ (kv.1.1 ∈ observed ∧ kv.1 ∉ seen)) c.

Definition run_sl_watchdog_tick (paper_bot_ids : gset string) (threshold : Z) : WD unit :=
  let live := filter (fun b => b ∉ paper_bot_ids) (sorted_bots adapters) in
  match live with
  | [] => mret tt
  | _ =>
      rows ← in_world (reads (select_position_states_for_bots live));
      o ← watch_bots threshold rows live;
      modify (fun '(c, w) => (prune o.1 o.2 c, w))
  end.

(** ** restart.py *)
Definition close_orphan_db (bot_id symbol : string) (ps : position_state_row) : X unit :=
  open_oid ← reads (select_open_order_id_by_trade_id (ps_trade_id ps));
  match open_oid with
  | None => mret tt
  | Some oid =>
      now ← now_fn;
      in_transaction (on_live (
        update_trade_close (ps_trade_id ps) dzero dzero None now "reconcile_gone" oid ;;
        update_trade_lifecycle_state (ps_trade_id ps) ls_reconciled ;;
        delete_position_state bot_id symbol))
  end.

Definition handle_orphan_exchange (cl : exchange_client E) (bot_id : string) (race_window : Z) (pos : Position) : X unit :=
  match xp_side pos with
  | None => mret tt
  | Some sd =>
      now ← now_fn;
      in_race ← reads (select_recent_open_trade_exists bot_id (xp_symbol pos) (now - race_window));
      if (in_race : bool) then mret tt
      else _ ← attempt any_exception (on_exchange (ex_place_market_order cl (xp_symbol pos) (opposite_side sd) (xp_size pos) true));
           mret tt
  end.

Definition spawn_matching_monitor (bot_id symbol : string) (ps : position_state_row) : X unit :=
  spawn_monitor (ps_trade_id ps) (mkMonitor bot_id symbol (ps_side ps) (ps_entry_price ps) (ps_qty ps)).

Fixpoint each {A} (f : A → X unit) (l : list A) : X unit :=
  match l with [] => mret tt | a :: l' => f a ;; each f l' end.

Definition reconcile_bot (race_window : Z) (rows : list ((string * string) * position_state_row)) (bot : string) : X unit :=
  match adapters !! bot with
  | None => mret tt
  | Some cl =>
      positions ← on_exchange (ex_get_positions cl None);
      let ex := open_positions positions in
      let db_rows := dict_of (map (fun r => (r.1.2, r.2)) (filter (fun r => r.1.1 = bot) rows)) in
      let orphan_db := filter (fun r => dict_get r.1 ex = None) db_rows in
      let orphan_ex := filter (fun p => dict_get p.1 db_rows = None) ex in
      let matching := filter (fun r => is_Some (dict_get r.1 ex)) db_rows in
      each (fun r => close_orphan_db bot r.1 r.2) orphan_db ;;
      each (fun p => handle_orphan_exchange cl bot race_window p.2) orphan_ex ;;
      each (fun r => spawn_matching_monitor bot r.1 r.2) matching
  end.

Definition reconcile_on_startup (race_window : Z) : X unit :=
  let bot_ids := sorted_bots adapters in
  match bot_ids with
  | [] => mret tt
  | _ =>
      rows ← reads (select_position_states_for_bots bot_ids);
      each (reconcile_bot race_window rows) bot_ids
  end.
End recovery.
