(* ===== verification/Ledger.v ===== *)
(** * The live ledger

    The invariant that ties orders, trades, executions and position_state
    together, and the proof that processing a fill keeps it: a trade is open
    exactly while its position_state row exists, the row's remaining quantity
    plus the exit fills booked on the trade is the quantity opened, and a trade
    closed by a fill has been exited in full. *)

From S2P Require Import Prelude Dec Sizing PaperDb PaperExchange PaperInv Consumer ExecDb Exchange Dedup Dispatcher.
From Stdlib Require Import QArith Qabs Lqa.
From stdpp Require Import sorting.
Open Scope Z_scope.

(** ** Exit fills of a trade *)
Definition exits (tid : Z) (x : execution_row) : Prop := exe_trade_id x = Some tid ∧ exe_exec_type x ≠ x_open.
#[global] Instance exits_dec tid x : Decision (exits tid x).
Proof. unfold exits. apply _. Defined.
Definition exited (tid : Z) (l : list execution_row) : Q := dval (sum_dec (map exe_qty (filter (exits tid) l))).

Lemma exited_snoc tid l x :
  (exited tid (l ++ [x]) == exited tid l + if decide (exits tid x) then dval (exe_qty x) else 0)%Q.
Proof.
  unfold exited. rewrite list.filter_app, map_app, sum_dec_app. rewrite filter_cons, filter_nil.
  destruct (decide (exits tid x)); cbn [map]; unfold sum_dec at 2; cbn [fold_right]; rewrite ?dadd_exact_value, dval_zero; ring.
Qed.
Lemma exited_none tid l : (∀ x, x ∈ l → exe_trade_id x ≠ Some tid) → (exited tid l == 0)%Q.
Proof.
  intros Hno. unfold exited. assert (filter (exits tid) l = []) as ->; [|exact dval_zero].
  destruct (filter (exits tid) l) as [|x k] eqn:Hf; [done|]. exfalso.
  assert (x ∈ filter (exits tid) l) as Hx by (rewrite Hf; by left). apply list_elem_of_filter in Hx as [[Hx _] Hin].
  by apply (Hno x).
Qed.

(** ** The invariant *)

(** At most the twelve decimals of a NUMERIC(30, 12) column. *)
Definition fits_qty (d : dec) : Prop := - 12 <= dexp d.

Definition by_fill (reason : string) : Prop := reason ≠ "emergency" ∧ reason ≠ "reconcile_gone".

Record row_agrees (d : live_db) (b sym : string) (p : position_state_row) (t : live_trade) : Prop := {
  ra_trade : trades d !! ps_trade_id p = Some t;
  ra_open : trd_status t = st_open;
  ra_bot : trd_bot_id t = b;
  ra_symbol : trd_symbol t = sym;
  ra_side : trd_side t = ps_side p;
  ra_qty : trd_qty t = ps_qty p;
  ra_positive : 0 < coef (ps_remaining_qty p);
  ra_fits : fits_qty (ps_remaining_qty p);
  ra_ledger : (dval (ps_remaining_qty p) + exited (ps_trade_id p) (executions d) == dval (ps_qty p))%Q;
}.

Record ledger (d : live_db) : Prop := {
  lg_row : ∀ b sym p, position_states d !! (b, sym) = Some p → ∃ t, row_agrees d b sym p t;
  lg_open : ∀ tid t, trades d !! tid = Some t → trd_status t = st_open →
    ∃ p, position_states d !! (trd_bot_id t, trd_symbol t) = Some p ∧ ps_trade_id p = tid;
  lg_close : ∀ tid t, trades d !! tid = Some t → trd_status t = st_closed ↔ is_Some (trd_close_order_id t);
  lg_exited : ∀ tid t reason, trades d !! tid = Some t → trd_status t = st_closed → trd_close_reason t = Some reason →
    by_fill reason → (exited tid (executions d) == dval (trd_qty t))%Q;
  lg_ids : ∀ tid t, trades d !! tid = Some t → tid < trades_seq d;
  lg_execs : ∀ x tid, x ∈ executions d → exe_trade_id x = Some tid → tid < trades_seq d;
}.

Lemma empty_ledger : ledger empty_live.
Proof. split; cbn; intros; simplify_map_eq; try done; by apply not_elem_of_nil in H. Qed.

(** What the columns that the ledger does not mention may do. *)
Record same_trade (t t' : live_trade) : Prop := {
  st_bot : trd_bot_id t' = trd_bot_id t; st_sym : trd_symbol t' = trd_symbol t; st_sd : trd_side t' = trd_side t;
  st_q : trd_qty t' = trd_qty t; st_st : trd_status t' = trd_status t; st_co : trd_close_order_id t' = trd_close_order_id t;
  st_cr : trd_close_reason t' = trd_close_reason t;
}.
Lemma same_trade_refl t : same_trade t t.
Proof. by split. Qed.
#[export] Hint Resolve same_trade_refl : scalper.

(** Changes that keep trades, rows and exits as they are. *)
Lemma ledger_frame d d' :
  ledger d →
  (∀ tid, option_Forall2 same_trade (trades d !! tid) (trades d' !! tid)) →
  position_states d' = position_states d →
  (∀ tid, exited tid (executions d') == exited tid (executions d))%Q →
  (∀ x, x ∈ executions d' → x ∈ executions d ∨ ∃ tid t, exe_trade_id x = Some tid ∧ trades d !! tid = Some t) →
  trades_seq d <= trades_seq d' →
  ledger d'.
Proof.
  intros [Hr Ho Hc Hx Hi He] Ht Hp Hex Hexs Hs.
  assert (∀ tid t', trades d' !! tid = Some t' → ∃ t, trades d !! tid = Some t ∧ same_trade t t') as Hback.
  { intros tid t' H'. specialize (Ht tid). rewrite H' in Ht. inversion Ht; subst. eauto. }
  split.
  - intros b sym p H'. rewrite Hp in H'. destruct (Hr _ _ _ H') as [t R]. destruct R.
    specialize (Ht (ps_trade_id p)). rewrite ra_trade0 in Ht. inversion Ht as [? t' [] Heq1 Heq2|]; subst.
    exists t'. split; try congruence; try done. rewrite Hex. done.
  - intros tid t' H' Hst. destruct (Hback _ _ H') as (t & H0 & []). rewrite Hp.
    destruct (Ho _ _ H0) as (p & Hp0 & ?); [congruence|]. exists p. split; [congruence|done].
  - intros tid t' H'. destruct (Hback _ _ H') as (t & H0 & []). rewrite st_st0, st_co0. by apply (Hc tid).
  - intros tid t' reason H' Hst Hrs Hbf. destruct (Hback _ _ H') as (t & H0 & []). rewrite Hex, st_q0.
    apply (Hx tid t reason); congruence.
  - intros tid t' H'. destruct (Hback _ _ H') as (t & H0 & _). apply Hi in H0. lia.
  - intros x tid Hin Htid. destruct (Hexs _ Hin) as [H0|(tid0 & t & H0 & H1)].
    + pose proof (He _ _ H0 Htid). lia.
    + apply Hi in H1. simplify_eq. lia.
Qed.

(** Two rows never share a trade. *)
Lemma rows_injective d b sym p b' sym' p' :
  ledger d → position_states d !! (b, sym) = Some p → position_states d !! (b', sym') = Some p' →
  ps_trade_id p = ps_trade_id p' → b = b' ∧ sym = sym'.
Proof.
  intros [Hr _ _ _ _ _] H1 H2 Ht. destruct (Hr _ _ _ H1) as [t [] ], (Hr _ _ _ H2) as [t' []]. naive_solver congruence.
Qed.

(** ** New trades *)
Section new_trade.
Context (d d' : live_db) (t : live_trade).
Hypothesis before : ledger d.
Hypothesis drawn : trades d' = <[trades_seq d := t]> (trades d).
Hypothesis same_execs : executions d' = executions d.
Hypothesis next_seq : trades_seq d' = trades_seq d + 1.

Lemma new_trade_unknown : trades d !! trades_seq d = None.
Proof. destruct (trades d !! trades_seq d) as [u|] eqn:Hu; [|done]. apply (lg_ids _ before) in Hu. lia. Qed.
Lemma new_trade_exited : (exited (trades_seq d) (executions d) == 0)%Q.
Proof. apply exited_none. intros x Hx Hid. pose proof (lg_execs _ before _ _ Hx Hid). lia. Qed.
Lemma new_trade_old tid u : trades d !! tid = Some u → trades d' !! tid = Some u.
Proof. intros Hu. rewrite drawn, lookup_insert_ne; [done|]. apply (lg_ids _ before) in Hu. lia. Qed.
Lemma new_trade_row_old b sym p u : row_agrees d b sym p u → row_agrees d' b sym p u.
Proof. intros []. split; try done; [by apply new_trade_old|by rewrite same_execs]. Qed.
Lemma new_trade_ids tid u : trades d' !! tid = Some u → tid < trades_seq d'.
Proof. rewrite drawn, next_seq. intros [[<- _]|[_ Hu]]%lookup_insert_Some; [lia|]. apply (lg_ids _ before) in Hu. lia. Qed.
Lemma new_trade_execs x tid : x ∈ executions d' → exe_trade_id x = Some tid → tid < trades_seq d'.
Proof. rewrite same_execs, next_seq. intros Hx Hid. pose proof (lg_execs _ before _ _ Hx Hid). lia. Qed.

(** A trade opened with its row. *)
Lemma ledger_opened p :
  position_states d !! (trd_bot_id t, trd_symbol t) = None →
  position_states d' = <[(trd_bot_id t, trd_symbol t) := p]> (position_states d) →
  ps_trade_id p = trades_seq d → ps_side p = trd_side t → ps_qty p = trd_qty t → ps_remaining_qty p = trd_qty t →
  trd_status t = st_open → trd_close_order_id t = None → 0 < coef (trd_qty t) → fits_qty (trd_qty t) → ledger d'.
Proof.
  intros Hfree Hps Hid Hsd Hq Hrem Hst Hco Hpos Hfits. split.
  - intros b sym p'. rewrite Hps. intros [[[= <- <-] <-]|[Hne Hp']]%lookup_insert_Some.
    + exists t. split; rewrite ?Hid, ?Hrem; try done. { by rewrite drawn, lookup_insert_eq. }
      rewrite same_execs, new_trade_exited, Hq. ring.
    + destruct (lg_row _ before _ _ _ Hp') as [u Hu]. exists u. by apply new_trade_row_old.
  - intros tid u. rewrite drawn. intros [[<- <-]|[_ Hu]]%lookup_insert_Some Ho; rewrite Hps.
    + exists p. by rewrite lookup_insert_eq.
    + destruct (lg_open _ before _ _ Hu Ho) as (p' & Hp' & ?). exists p'. split; [|done].
      rewrite lookup_insert_ne; [done|]. intros [= Eb Es]. rewrite Eb, Es in Hfree. congruence.
  - intros tid u. rewrite drawn. intros [[<- <-]|[_ Hu]]%lookup_insert_Some; [|by apply (lg_close _ before tid)].
    rewrite Hst, Hco. split; [done|by intros []].
  - intros tid u reason. rewrite drawn, same_execs. intros [[<- <-]|[_ Hu]]%lookup_insert_Some ???; [congruence|].
    by apply (lg_exited _ before tid u reason).
  - apply new_trade_ids.
  - apply new_trade_execs.
Qed.

(** A trade born closed, outside the fill flow. *)
Lemma ledger_born_closed reason :
  position_states d' = position_states d → trd_status t = st_closed → is_Some (trd_close_order_id t) →
  trd_close_reason t = Some reason → ¬ by_fill reason → ledger d'.
Proof.
  intros Hps Hst Hco Hcr Hby. split.
  - intros b sym p'. rewrite Hps. intros Hp'. destruct (lg_row _ before _ _ _ Hp') as [u Hu]. exists u. by apply new_trade_row_old.
  - intros tid u. rewrite drawn, Hps. intros [[<- <-]|[_ Hu]]%lookup_insert_Some Ho; [congruence|]. by apply (lg_open _ before).
  - intros tid u. rewrite drawn. intros [[<- <-]|[_ Hu]]%lookup_insert_Some; [|by apply (lg_close _ before tid)]. by rewrite Hst.
  - intros tid u reason'. rewrite drawn, same_execs. intros [[<- <-]|[_ Hu]]%lookup_insert_Some ???; [congruence|].
    by apply (lg_exited _ before tid u reason').
  - apply new_trade_ids.
  - apply new_trade_execs.
Qed.
End new_trade.

Lemma exited_other tid l x : ¬ exits tid x → (exited tid (l ++ [x]) == exited tid l)%Q.
Proof. intros Hn. rewrite exited_snoc, decide_False by done. ring. Qed.
Lemma exited_this tid l x : exits tid x → (exited tid (l ++ [x]) == exited tid l + dval (exe_qty x))%Q.
Proof. intros Hn. rewrite exited_snoc, decide_True by done. ring. Qed.

Section exit_fill.
Context (d d' : live_db) (b sym : string) (p : position_state_row) (x0 : execution_row).
Hypothesis before : ledger d.
Hypothesis row : position_states d !! (b, sym) = Some p.
Hypothesis fill : exits (ps_trade_id p) x0.
Hypothesis booked : executions d' = executions d ++ [x0].
Hypothesis same_seq : trades_seq d' = trades_seq d.
Hypothesis others : ∀ tid, tid ≠ ps_trade_id p → option_Forall2 same_trade (trades d !! tid) (trades d' !! tid).

Lemma fill_other tid : tid ≠ ps_trade_id p → (exited tid (executions d') == exited tid (executions d))%Q.
Proof. intros Hne. rewrite booked. apply exited_other. intros [Heq _]. destruct fill. congruence. Qed.

Lemma fill_back tid t' :
  tid ≠ ps_trade_id p → trades d' !! tid = Some t' → ∃ t, trades d !! tid = Some t ∧ same_trade t t'.
Proof. intros Hne H'. specialize (others tid Hne). rewrite H' in others. inversion others; subst; eauto. Qed.

Lemma fill_row_other b' sym' p' :
  (b', sym') ≠ (b, sym) → position_states d !! (b', sym') = Some p' → ∃ t, row_agrees d' b' sym' p' t.
Proof.
  intros Hne H'. destruct (lg_row _ before _ _ _ H') as [t []].
  assert (ps_trade_id p' ≠ ps_trade_id p) as Hid.
  { intros Heq. apply Hne. by destruct (rows_injective _ _ _ _ _ _ _ before H' row Heq) as [-> ->]. }
  pose proof (others _ Hid) as Ho. rewrite ra_trade0 in Ho. inversion Ho as [? t' [] Heq1 Heq2|]; subst.
  exists t'. split; try congruence; try done. by rewrite fill_other.
Qed.

Lemma fill_ids tid t' : tid ≠ ps_trade_id p → trades d' !! tid = Some t' → tid < trades_seq d'.
Proof. intros Hne (t & H0 & _)%fill_back; [|done]. rewrite same_seq. by eapply lg_ids. Qed.
Lemma fill_execs x tid : x ∈ executions d' → exe_trade_id x = Some tid → tid < trades_seq d'.
Proof.
  rewrite booked, same_seq. intros [Hx| ->%list_elem_of_singleton]%elem_of_app Htid; [by eapply lg_execs|].
  destruct fill as [Hf _]. rewrite Hf in Htid. injection Htid as <-.
  destruct (lg_row _ before _ _ _ row) as [t []]. by eapply lg_ids.
Qed.

(** A fill that leaves a positive remainder. *)
Lemma ledger_partial r sl now t t' :
  trades d !! ps_trade_id p = Some t → trades d' !! ps_trade_id p = Some t' → same_trade t t' →
  position_states d' = <[(b, sym) := set_after_fill r sl now p]> (position_states d) →
  0 < coef r → fits_qty r →
  (dval r + dval (exe_qty x0) == dval (ps_remaining_qty p))%Q → ledger d'.
Proof.
  intros Ht Ht' Hsame Hps Hpos Hfits Hsum. destruct (lg_row _ before _ _ _ row) as [t0 R]. destruct R.
  assert (t0 = t) as -> by congruence. destruct Hsame. split.
  - intros b' sym' p' H'. rewrite Hps in H'. apply lookup_insert_Some in H' as [[[= <- <-] <-]|[Hne H']].
    + exists t'. split; cbn [ps_trade_id ps_side ps_qty ps_remaining_qty set_after_fill]; try congruence; try done.
      rewrite booked, exited_this by done. rewrite <- ra_ledger0, <- Hsum. ring.
    + by apply fill_row_other.
  - intros tid u Hu Hst. rewrite Hps. destruct (decide (tid = ps_trade_id p)) as [->|Hne].
    + assert (u = t') as -> by congruence. rewrite st_bot0, st_sym0, ra_bot0, ra_symbol0. eexists. by rewrite lookup_insert_eq.
    + destruct (fill_back _ _ Hne Hu) as (u0 & Hu0 & []). destruct (lg_open _ before _ _ Hu0) as (q & Hq & Hid); [congruence|].
      exists q. rewrite st_bot1, st_sym1. rewrite lookup_insert_ne; [done|]. intros [= Eb Es]. rewrite <- Eb, <- Es, row in Hq. congruence.
  - intros tid u Hu. destruct (decide (tid = ps_trade_id p)) as [->|Hne].
    + assert (u = t') as -> by congruence. rewrite st_st0, st_co0. by apply (lg_close _ before (ps_trade_id p)).
    + destruct (fill_back _ _ Hne Hu) as (u0 & Hu0 & []). rewrite st_st1, st_co1. by apply (lg_close _ before tid).
  - intros tid u reason Hu Hst Hrs Hbf. destruct (decide (tid = ps_trade_id p)) as [->|Hne]; [congruence|].
    destruct (fill_back _ _ Hne Hu) as (u0 & Hu0 & []). rewrite fill_other, st_q1 by done.
    apply (lg_exited _ before tid u0 reason); congruence.
  - intros tid u Hu. destruct (decide (tid = ps_trade_id p)) as [->|Hne]; [|by eapply fill_ids].
    rewrite same_seq. by eapply lg_ids.
  - apply fill_execs.
Qed.

(** The fill that leaves nothing closes the trade and removes the row. *)
Lemma ledger_closed t t' reason :
  trades d !! ps_trade_id p = Some t → trades d' !! ps_trade_id p = Some t' →
  trd_qty t' = trd_qty t → trd_status t' = st_closed → is_Some (trd_close_order_id t') → trd_close_reason t' = Some reason →
  position_states d' = delete (b, sym) (position_states d) →
  (dval (exe_qty x0) == dval (ps_remaining_qty p))%Q → ledger d'.
Proof.
  intros Ht Ht' Hq Hst Hco Hcr Hps Hsum. destruct (lg_row _ before _ _ _ row) as [t0 R]. destruct R.
  assert (t0 = t) as -> by congruence. split.
  - intros b' sym' p' H'. rewrite Hps in H'. apply lookup_delete_Some in H' as [Hne H']. by apply fill_row_other.
  - intros tid u Hu Hst'. destruct (decide (tid = ps_trade_id p)) as [->|Hne]; [congruence|].
    destruct (fill_back _ _ Hne Hu) as (u0 & Hu0 & []). destruct (lg_open _ before _ _ Hu0) as (q & Hq0 & Hid); [congruence|].
    exists q. rewrite Hps, st_bot0, st_sym0, lookup_delete_ne; [done|]. intros [= Eb Es]. rewrite <- Eb, <- Es, row in Hq0. congruence.
  - intros tid u Hu. destruct (decide (tid = ps_trade_id p)) as [->|Hne].
    + assert (u = t') as -> by congruence. by rewrite Hst.
    + destruct (fill_back _ _ Hne Hu) as (u0 & Hu0 & []). rewrite st_st0, st_co0. by apply (lg_close _ before tid).
  - intros tid u reason' Hu Hst' Hrs Hbf. destruct (decide (tid = ps_trade_id p)) as [->|Hne].
    + assert (u = t') as -> by congruence. rewrite booked, exited_this by done. rewrite Hq, ra_qty0, <- ra_ledger0, Hsum. ring.
    + destruct (fill_back _ _ Hne Hu) as (u0 & Hu0 & []). rewrite fill_other, st_q0 by done.
      apply (lg_exited _ before tid u0 reason'); congruence.
  - intros tid u Hu. destruct (decide (tid = ps_trade_id p)) as [->|Hne]; [|by eapply fill_ids].
    rewrite same_seq. by eapply lg_ids.
  - apply fill_execs.
Qed.
End exit_fill.

(** ** Inverting the operations of the dispatcher *)
Lemma find_row_some {V} (P : V → bool) (m : gmap Z V) k v : find_row P m = Some (k, v) → m !! k = Some v ∧ P v = true.
Proof.
  unfold find_row. intros Hh%head_Some_elem_of. apply list_elem_of_filter in Hh as [HP Hin].
  rewrite merge_sort_Permutation in Hin. by apply elem_of_map_to_list in Hin.
Qed.

Section inversions.
Context {E : Type}.
Abbreviation X := (ST (xworld E)).
Lemma on_live_inv {A} (m : ST live_db A) (w w' : xworld E) r :
  on_live m w = (r, w') → ∃ d', m (x_live w) = (r, d') ∧ w' = set_live d' w.
Proof. unfold on_live. destruct (m (x_live w)) as [r0 d0]. intros [= <- <-]. eauto. Qed.
Lemma on_exchange_inv {A} (m : ST E A) (w w' : xworld E) r :
  on_exchange m w = (r, w') → ∃ e', m (x_exchange w) = (r, e') ∧ w' = set_exchange e' w.
Proof. unfold on_exchange. destruct (m (x_exchange w)) as [r0 e0]. intros [= <- <-]. eauto. Qed.
Lemma reads_run {A B} (f : live_db → A) (k : A → X B) w : (reads f ≫= k) w = k (f (x_live w)) w.
Proof. done. Qed.
Lemma on_live_run {A B} (m : ST live_db A) (k : A → X B) w a d :
  m (x_live w) = (Ok a, d) → (on_live m ≫= k) w = k a (set_live d w).
Proof. intros Hm. unfold mbind, st_bind, on_live. by rewrite Hm. Qed.
Lemma reads_inv {A} (f : live_db → A) (w w' : xworld E) r : reads f w = (r, w') → r = Ok (f (x_live w)) ∧ w' = w.
Proof. unfold reads, gets. by intros [= <- <-]. Qed.
Lemma in_transaction_inv {A} (m : X A) w r w' :
  in_transaction m w = (r, w') →
  (∃ a, r = Ok a ∧ m w = (Ok a, w')) ∨
  (∃ e w1, r = Err e ∧ m w = (Err e, w1) ∧ w' = set_live (rolled_back (x_live w) (x_live w1)) w1).
Proof. unfold in_transaction. destruct (m w) as [[a|e] w1]; intros [= <- <-]; eauto 10. Qed.
End inversions.

(** [x_inv] extends [st_inv] to the accesses of the world. *)
Ltac x_inv :=
  repeat (st_inv; match goal with
  | H : on_live _ _ = (_, _) |- _ => apply on_live_inv in H as (? & ? & ->)
  | H : on_exchange _ _ = (_, _) |- _ => apply on_exchange_inv in H as (? & ? & ->)
  | H : reads _ _ = (_, _) |- _ => apply reads_inv in H as [? ->]; simplify_eq
  | H : now_fn _ = (_, _) |- _ => unfold now_fn in H
  | H : sleep _ _ = (_, _) |- _ => unfold sleep in H
  | H : publish_best_effort _ _ _ _ _ = (_, _) |- _ => unfold publish_best_effort in H
  | H : spawn_monitor _ _ _ = (_, _) |- _ => unfold spawn_monitor in H
  end); st_inv.

Section statements_inv.
Context `{PgNumeric}.
Lemma insert_execution_ok i oid tid b sym sd px q fee x at_ d d' r :
  insert_execution i oid tid b sym sd px q fee x at_ d = (Ok r, d') →
  ∃ px' q' fee', col 30 12 q = Ok q' ∧
    d' = mkLive (orders d) (trades d) (executions d ++ [mkExecution i oid tid b sym sd px' q' fee' x at_])
           (position_states d) (trading_events d) (orders_seq d) (trades_seq d).
Proof. unfold insert_execution. intros Hi. repeat case_match; simplify_eq; eauto 10. Qed.
Lemma update_fees_ok tid fee d d' r :
  update_trade_fees_incremental tid fee d = (Ok r, d') →
  d' = d ∨ ∃ f, d' = with_live_trades (alter (set_fees f) tid) d.
Proof. unfold update_trade_fees_incremental. intros Hi. repeat case_match; simplify_eq; eauto. Qed.
Lemma update_trade_close_ok tid px pnl fees at_ reason oid d d' r :
  update_trade_close tid px pnl fees at_ reason oid d = (Ok r, d') →
  ∃ px' pnl' fees', col 20 4 pnl = Ok pnl' ∧ d' = with_live_trades (alter (set_trade_closed px' pnl' fees' at_ reason oid) tid) d.
Proof. unfold update_trade_close. intros Hi. repeat case_match; simplify_eq; eauto 10. Qed.
Lemma after_fill_update_ok b sym tid q sl now d d' n :
  update_position_state_after_fill b sym tid q sl now d = (Ok n, d') → n ≠ 0 →
  ∃ p r, position_states d !! (b, sym) = Some p ∧ ps_trade_id p = tid ∧ col 30 12 (pg_sub (ps_remaining_qty p) q) = Ok r ∧
    d' = with_position_states <[(b, sym) := set_after_fill r sl now p]> d.
Proof. unfold update_position_state_after_fill. intros Hi Hn. repeat case_match; simplify_eq; bool_simpl; eauto 10. Qed.
End statements_inv.

(** ** Quantities in NUMERIC(30, 12) columns *)
Lemma pg_sub_value a b : (dval (pg_sub a b) == dval a - dval b)%Q.
Proof. unfold pg_sub. rewrite dadd_exact_value. unfold dval at 2. cbn [coef dexp]. rewrite inject_Z_opp. unfold dval. ring. Qed.

Section columns.
Context `{PgNumeric, !PgNumericExact, !PgNumericScale}.
Lemma col_exact x y : - 12 <= dexp x → col 30 12 x = Ok y → (dval y == dval x)%Q.
Proof.
  intros He. unfold col. pose proof (pg_numeric_exact 30 12 x He) as Hx.
  destruct (pg_numeric 30 12 x); intros [= <-]. by destruct Hx.
Qed.
Lemma col_fits x y : col 30 12 x = Ok y → fits_qty y.
Proof. unfold col. destruct (pg_numeric 30 12 x) eqn:Hp; intros [= <-]. by apply pg_numeric_scale in Hp. Qed.

(** What a fill within the remainder stores. *)
Lemma fill_columns p q q' r :
  fits_qty p → 0 < coef q → - 12 <= dexp q → (dval q <= dval p)%Q →
  col 30 12 q = Ok q' → col 30 12 (pg_sub p q) = Ok r →
  (dval q' == dval q)%Q ∧ (dval r == dval p - dval q)%Q ∧ fits_qty r.
Proof.
  intros Hp Hq He Hle Hc Hr.
  split_and!; [by apply col_exact| |by eapply col_fits].
  rewrite (col_exact (pg_sub p q) r); [apply pg_sub_value| |done].
  unfold pg_sub, dadd_exact. cbn [dexp]. unfold common_exp. cbn [dexp]. unfold fits_qty in Hp. lia.
Qed.

End columns.

(** ** Processing a fill *)

(** The fills an exchange reports: a positive quantity of at most twelve
    decimals. *)
Definition valid_fill (ev : ExecutionEvent) : Prop := 0 < coef (ee_qty ev) ∧ fits_qty (ee_qty ev).

Inductive derived (bot_id : string) (ev : ExecutionEvent) (d : live_db) : option Z → exec_type → option Z → Prop :=
| derived_open oid tid t : trades d !! tid = Some t → trd_open_order_id t = oid → derived bot_id ev d (Some oid) x_open (Some tid)
| derived_close oid tid t : trades d !! tid = Some t → trd_close_order_id t = Some oid →
    derived bot_id ev d (Some oid) x_close (Some tid)
| derived_nothing om : derived bot_id ev d om x_unknown None
| derived_exit x p : position_states d !! (bot_id, ee_symbol ev) = Some p → x ≠ x_open → x ≠ x_close →
    x = x_unknown ∨ (dval (ee_qty ev) <= dval (ps_remaining_qty p))%Q → derived bot_id ev d None x (Some (ps_trade_id p)).

Lemma derive_derived bot_id ev om d x tid sl : derive_exec_type bot_id ev om d = (x, tid, sl) → derived bot_id ev d om x tid.
Proof.
  unfold derive_exec_type. destruct om as [oid|].
  - destruct (select_trade_by_open_order_id oid d) as [k|] eqn:Eo.
    { intros [= <- <- <-]. unfold select_trade_by_open_order_id in Eo. apply fmap_Some in Eo as ([k' t] & Hf & ->).
      apply find_row_some in Hf as [? ?]. bool_simpl. by econstructor. }
    destruct (select_trade_by_close_order_id oid d) as [k|] eqn:Ec; intros [= <- <- <-]; [|by constructor].
    unfold select_trade_by_close_order_id in Ec. apply fmap_Some in Ec as ([k' t] & Hf & ->).
    apply find_row_some in Hf as [? ?%bool_decide_eq_true]. by econstructor.
  - destruct (select_position_state bot_id (ee_symbol ev) d) as [p|] eqn:Ep; [|intros [= <- <- <-]; by constructor].
    case_bool_decide; [intros [= <- <- _]; constructor; auto|].
    destruct (dltb _ _) eqn:El; [apply dltb_spec in El; intros [= <- <- _]; constructor; auto; right; lra|].
    destruct (deqb _ _) eqn:Ee; [apply deqb_spec in Ee|intros [= <- <- _]; constructor; auto].
    destruct (ps_sl_type p) as [[]|]; intros [= <- <- _]; constructor; auto; right; lra.
Qed.

Section processing.
Context {E : Type} `{PgNumeric} (cl : exchange_client E) (bot_id sub_account : string)
  (post_close_sleep : Z) (accepts : xmessage → bool).
Abbreviation tx := (process_tx cl bot_id sub_account post_close_sleep).

Lemma reconcile_close_ok symbol tid om x fees px at_ w a w' :
  reconcile_close cl bot_id sub_account post_close_sleep symbol tid om x fees px at_ w = (Ok a, w') →
  ∃ px' pnl' fees' oid, x_live w' = with_position_states (delete (bot_id, symbol))
    (with_live_trades (fun m => alter (set_lifecycle ls_closed) tid
      (alter (set_trade_closed px' pnl' fees' at_ (close_reason_of x) oid) tid m)) (x_live w)).
Proof.
  unfold reconcile_close. intros Hr. x_inv.
  assert (s0 = w) as -> by (destruct om; [by x_inv|]; destruct (select_open_order_id_by_trade_id _ _); by x_inv).
  destruct (select_order_meta_by_id _ _) as [[corr xid]|]; x_inv.
  apply update_trade_close_ok in H2 as (px' & pnl' & fees' & _ & ->).
  unfold update_trade_lifecycle_state, delete_position_state, modify in *. simplify_eq. exists px', pnl', fees', a1. done.
Qed.

Lemma apply_exit_fill_ok ev x tid (w : xworld E) a w' :
  apply_exit_fill bot_id ev x tid w = (Ok a, w') →
  (x = x_open ∧ w' = w) ∨
  (x ≠ x_open ∧ ∃ p r sl now, tid = Some (ps_trade_id p) ∧ position_states (x_live w) !! (bot_id, ee_symbol ev) = Some p ∧
     col 30 12 (pg_sub (ps_remaining_qty p) (ee_qty ev)) = Ok r ∧
     w' = set_live (with_position_states <[(bot_id, ee_symbol ev) := set_after_fill r sl now p]> (x_live w)) w).
Proof.
  unfold apply_exit_fill. case_bool_decide as Hx; intros Hr; [x_inv; by left|]. destruct tid as [tid|]; [|x_inv].
  x_inv. destruct (a1 =? 0) eqn:Ez; x_inv. bool_simpl. right. split; [done|].
  apply after_fill_update_ok in H0 as (p & r & Hp & <- & Hr & ->); [|done]. eauto 10.
Qed.

Context `{!PgNumericExact, !PgNumericScale}.

(** The tables after the execution row, the row update and the fees. *)
Lemma exit_fill_keeps (d d' : live_db) ev p q' r sl now row0 u :
  ledger d → position_states d !! (bot_id, ee_symbol ev) = Some p → valid_fill ev →
  (dval (ee_qty ev) <= dval (ps_remaining_qty p))%Q → col 30 12 (ee_qty ev) = Ok q' →
  col 30 12 (pg_sub (ps_remaining_qty p) (ee_qty ev)) = Ok r →
  exits (ps_trade_id p) row0 → exe_qty row0 = q' →
  executions d' = executions d ++ [row0] → trades_seq d' = trades_seq d →
  (∀ tid, option_Forall2 same_trade (trades d !! tid) (trades d' !! tid)) →
  position_states d' = <[(bot_id, ee_symbol ev) := set_after_fill r sl now p]> (position_states d) →
  (deqb r dzero = false → ledger d') ∧
  (deqb r dzero = true → ∀ px pnl fees at_ reason oid,
     ledger (with_position_states (delete (bot_id, ee_symbol ev))
       (with_live_trades (fun m => alter (set_lifecycle u) (ps_trade_id p)
          (alter (set_trade_closed px pnl fees at_ reason oid) (ps_trade_id p) m)) d'))).
Proof.
  intros Hl Hp [Hv1 Hv2] Hle Hq Hr Hex Hrow Hx Hs Ht Hps. destruct (lg_row _ Hl _ _ _ Hp) as [t R]. destruct R.
  destruct (fill_columns _ _ _ _ ra_fits0 Hv1 Hv2 Hle Hq Hr) as (Eq & Er & Hfr).
  pose proof (Ht (ps_trade_id p)) as Ht0. rewrite ra_trade0 in Ht0. inversion Ht0 as [? t' Hsame Heq1 Heq2|]; subst.
  symmetry in Heq2. split; intros Hz.
  - apply (ledger_partial d d' _ _ p row0 Hl Hp Hex Hx Hs ltac:(auto) r sl now t t' ra_trade0 Heq2 Hsame Hps); [|done|rewrite Eq, Er; ring].
    assert (¬ (dval r == 0)%Q) as Hnz. { intros Hr0. rewrite <- dval_zero in Hr0. apply deqb_spec in Hr0. congruence. }
    apply dval_sign. rewrite Er in *. lra.
  - intros. apply deqb_spec in Hz. rewrite dval_zero in Hz.
    eapply (ledger_closed d _ _ _ p row0 Hl Hp Hex); [exact Hx|exact Hs| |exact ra_trade0|..]; cbn.
    + intros tid Hne. cbn. rewrite !lookup_alter_ne by done. apply Ht.
    + by rewrite !lookup_alter_eq, Heq2.
    + cbn. by destruct Hsame.
    + done.
    + cbn. eauto.
    + done.
    + rewrite Hps. by rewrite delete_insert_eq.
    + rewrite Eq. lra.
Qed.

Lemma order_id_keeps om tid (w w' : xworld E) r : order_id_for_insert om tid w = (r, w') → w' = w.
Proof.
  unfold order_id_for_insert. intros Hr. destruct om; [by x_inv|]. destruct tid as [tid|]; x_inv; [|done].
  destruct (select_open_order_id_by_trade_id _ _); by x_inv.
Qed.

(** The fee update changes nothing the ledger mentions. *)
Lemma fees_same tid fee d d' r :
  update_trade_fees_incremental tid fee d = (Ok r, d') →
  (∀ k, option_Forall2 same_trade (trades d !! k) (trades d' !! k)) ∧ executions d' = executions d ∧
  position_states d' = position_states d ∧ trades_seq d' = trades_seq d.
Proof.
  intros [->|[f ->]]%update_fees_ok; (split_and!; [|done..]); intros k; [|cbn; destruct (decide (k = tid)) as [->|?]].
  - destruct (trades d !! k); constructor. auto with scalper.
  - rewrite lookup_alter_eq. destruct (trades d !! tid); constructor. by split.
  - rewrite lookup_alter_ne by done. destruct (trades d !! k); constructor. auto with scalper.
Qed.

Lemma lifecycle_keeps l tid d : ledger d → ledger (with_live_trades (alter (set_lifecycle l) tid) d).
Proof.
  intros Hl. apply (ledger_frame d); try done; auto.
  intros k. cbn. destruct (decide (k = tid)) as [->|?]; [rewrite lookup_alter_eq|rewrite lookup_alter_ne by done];
    destruct (trades d !! _); constructor; by split.
Qed.

Lemma after_fill_open ev om tid ps w r w' :
  after_fill cl bot_id sub_account post_close_sleep ev x_open om tid ps w = (r, w') → w' = w.
Proof. unfold after_fill. rewrite bool_decide_true by done. intros Hr. destruct ps; by x_inv. Qed.

Lemma process_tx_keeps ev w a w' :
  ledger (x_live w) → valid_fill ev → tx ev w = (Ok a, w') → ledger (x_live w').
Proof.
  intros Hl Hv. unfold process_tx. intros Hr. x_inv.
  destruct (derive_exec_type _ _ _ _) as [[x tid] sl] eqn:Ed. x_inv.
  destruct (bool_decide (x = x_unknown) && _ && _) eqn:Eover; [x_inv|].
  destruct (bool_decide (is_Some _) && _) eqn:Eorphan; [x_inv|]. x_inv.
  pose proof (order_id_keeps _ _ _ _ _ E0) as ->. apply derive_derived in Ed.
  apply insert_execution_ok in H2 as (px' & q' & fee' & Hq & ->).
  destruct Ed as [oid tid t Ht Ho|oid tid t Ht Hc|om|x p Hp Hx1 Hx2 Hx3].
  - apply apply_exit_fill_ok in E2 as [[_ ->]|[? _]]; [|done]. apply on_live_inv in E3 as (d3 & H3 & ->).
    apply fees_same in H3 as (F1 & F2 & F3 & F4). apply after_fill_open in E5 as ->. cbn in *.
    apply (ledger_frame (x_live w) d3 Hl F1 F3); rewrite ?F2, ?F4.
    + intros k. apply exited_other. by intros [_ ?].
    + intros y [?| ->%list_elem_of_singleton]%elem_of_app; [by left|]. right. cbn. eauto.
    + lia.
  - exfalso. apply apply_exit_fill_ok in E2 as [[? _]|[_ (p & r & sl' & now & [= ->] & Hp & _)]]; [done|]. cbn in Hp.
    destruct (lg_row _ Hl _ _ _ Hp) as [t' []]. pose proof (proj2 (lg_close _ Hl _ _ Ht)) as Hcl. rewrite Hc in Hcl.
    specialize (Hcl ltac:(eauto)). congruence.
  - exfalso. destruct om; [done|]. unfold order_id_for_insert in E0. x_inv.
  - assert (dval (ee_qty ev) <= dval (ps_remaining_qty p))%Q as Hle.
    { destruct Hx3 as [->|?]; [|done]. unfold select_position_state in Eover. rewrite Hp in Eover. cbn in Eover.
      by apply dltb_false in Eover. }
    apply apply_exit_fill_ok in E2 as [[? _]|[_ (p' & r & sl' & now & _ & Hp' & Hr & ->)]]; [done|].
    cbn in Hp'. assert (p' = p) as -> by congruence. apply on_live_inv in E3 as (d3 & H3 & ->).
    apply fees_same in H3 as (F1 & F2 & F3 & F4). cbn in *.
    destruct (exit_fill_keeps (x_live w) d3 ev p q' r sl' now
      (mkExecution (ee_exec_id ev) a0 (Some (ps_trade_id p)) bot_id (ee_symbol ev) (ee_side ev) px' q' fee' x (ee_executed_at ev))
      ls_closed) as [Hk1 Hk2]; auto; [by split|].
    unfold after_fill in E5. cbn in E5. unfold select_position_state in E5. rewrite F3, lookup_insert_eq in E5.
    rewrite bool_decide_false in E5 by done. cbn [ps_remaining_qty set_after_fill] in E5.
    destruct (deqb r dzero) eqn:Ez; apply st_bind_ok_inv in E5 as (y & s5 & E6 & [= _ <-]).
    + apply reconcile_close_ok in E6 as (px & pnl & fees & oid & ->). by apply Hk2.
    + apply on_live_inv in E6 as (d4 & [= _ <-] & ->). by apply lifecycle_keeps, Hk1.
Qed.

(** A fill draws no trade id, whatever its outcome. *)
Definition at_seq (n : Z) (w : xworld E) : Prop := trades_seq (x_live w) = n.
Lemma at_seq_live {A} n (m : ST live_db A) : preserves (fun d => trades_seq d = n) m → preserves (at_seq n) (on_live m).
Proof. intros Hm w r w' Hw (d' & Hd & ->)%on_live_inv. unfold at_seq. cbn. by eapply Hm. Qed.
Lemma at_seq_exchange {A} n (m : ST E A) : preserves (at_seq n) (on_exchange m).
Proof. intros w r w' Hw (e' & He & ->)%on_exchange_inv. done. Qed.
Lemma at_seq_reads {A} n (f : live_db → A) : preserves (at_seq n) (reads f).
Proof. intros w r w' Hw [-> ->]%reads_inv. done. Qed.
Ltac stmt_seq := intros; intros ? ? ? ? ?; repeat case_match; simplify_eq; done.

Lemma process_tx_seq n ev : preserves (at_seq n) (tx ev).
Proof.
  assert (∀ i oid tid b sym sd px q fee x at_, preserves (fun d => trades_seq d = n) (insert_execution i oid tid b sym sd px q fee x at_)) as H1'.
  { unfold insert_execution. stmt_seq. }
  assert (∀ tid fee, preserves (fun d => trades_seq d = n) (update_trade_fees_incremental tid fee)) as H2'.
  { unfold update_trade_fees_incremental. stmt_seq. }
  assert (∀ tid px pnl fees at_ rs oid, preserves (fun d => trades_seq d = n) (update_trade_close tid px pnl fees at_ rs oid)) as H3'.
  { unfold update_trade_close. stmt_seq. }
  assert (∀ b sym tid q sl now, preserves (fun d => trades_seq d = n) (update_position_state_after_fill b sym tid q sl now)) as H4'.
  { unfold update_position_state_after_fill. stmt_seq. }
  unfold process_tx, order_id_for_insert, apply_exit_fill, after_fill, reconcile_close, update_trade_lifecycle_state,
    delete_position_state, now_fn, sleep.
  repeat first [ apply at_seq_reads | apply at_seq_exchange | solve [auto with scalper]
               | apply at_seq_live; solve [auto with scalper]
               | apply preserves_bind; [|intros] | case_match
               | apply preserves_modify; by intros ].
Qed.

(** Processing a fill keeps the ledger, whether it commits or raises. *)
Lemma process_keeps ev w r w' :
  ledger (x_live w) → valid_fill ev → process cl bot_id sub_account post_close_sleep accepts ev w = (r, w') → ledger (x_live w').
Proof.
  intros Hl Hv. unfold process. intros [(a & w1 & Ht & Hr)|(e & Ht & _)]%st_bind_cases;
    apply in_transaction_inv in Ht as [(a' & Ha & Ht)|(e' & w2 & Ha & Ht & ->)]; try done.
  - injection Ha as <-. apply process_tx_keeps in Ht; [|done..].
    destruct a as [[[]|] []]; [unfold emit_post_commit_close_event, publish_best_effort in Hr|..]; x_inv; auto;
      repeat case_match; auto.
  - pose proof (process_tx_seq _ ev w _ _ eq_refl Ht) as Hs. unfold at_seq in Hs.
    apply (ledger_frame (x_live w)); cbn; [done| |done|done|by left|lia].
    intros tid. destruct (trades (x_live w) !! tid); constructor. by split.
Qed.
End processing.
