(* ===== verification/PlacementFacts.v ===== *)
(** * What a placement sends to the exchange and writes

    The handler of Placement run against any exchange client with its calls
    recorded: at most one entry order, and an accepted entry is protected by a
    stop or flattened; the rows it writes keep the ledger. *)

From S2P Require Import Prelude Dec Sizing PaperDb PaperExchange PaperInv RiskGates Consumer ExecDb Exchange Dedup Dispatcher Placement Ledger.
From Stdlib Require Import QArith Qabs Lqa.
From stdpp Require Import pretty.
Open Scope Z_scope.

(** ** The record of calls *)
Section calls.
Context {E : Type}.
Abbreviation X := (ST (xworld (E * list call))).
Definition calls (w : xworld (E * list call)) : list call := (x_exchange w).2.
Definition at_calls (l : list call) (w : xworld (E * list call)) : Prop := calls w = l.

Lemma calls_recorded {A} (c : bool → call) (m : ST E A) w r w' :
  on_exchange (recorded c m) w = (r, w') → calls w' = calls w ++ [c (is_ok r)].
Proof.
  intros (e' & He & ->)%on_exchange_inv. unfold recorded in He. unfold calls. destruct (x_exchange w) as [e l].
  destruct (m e) as [r0 e0]. injection He as <- <-. done.
Qed.
Lemma calls_unrecorded {A} (m : ST E A) l : preserves (at_calls l) (on_exchange (unrecorded m)).
Proof.
  intros w r w' Hw (e' & He & ->)%on_exchange_inv. unfold unrecorded in He. unfold at_calls, calls in *.
  destruct (x_exchange w) as [e l0]. destruct (m e) as [r0 e0]. injection He as <- <-. done.
Qed.
Lemma calls_live {A} (m : ST live_db A) l : preserves (at_calls l) (on_live m).
Proof. intros w r w' Hw (d' & _ & ->)%on_live_inv. done. Qed.
Lemma calls_attempt {A} h (m : X A) l : preserves (at_calls l) m → preserves (at_calls l) (attempt h m).
Proof. intros Hm w r w' Hw (x & Hx & _)%attempt_inv. by eapply Hm. Qed.
Lemma calls_transaction {A} (m : X A) l : preserves (at_calls l) m → preserves (at_calls l) (in_transaction m).
Proof.
  intros Hm w r w' Hw [(a & -> & Ha)|(e & w1 & -> & Ha & ->)]%in_transaction_inv; [by eapply Hm|].
  eapply Hm in Ha; [|done]. done.
Qed.
Lemma quiet_keeps {A} (m : X A) w r w' : m w = (r, w') → (∀ l, preserves (at_calls l) m) → calls w' = calls w.
Proof. intros Hm Hq. by apply (Hq (calls w) w r w' eq_refl). Qed.
Lemma calls_publish acc b c m l : preserves (at_calls l) (publish_best_effort acc b c m).
Proof. apply preserves_modify. intros w Hw. by case_match. Qed.
Lemma calls_sleep n l : preserves (at_calls l) (sleep n).
Proof. apply preserves_modify. by intros w Hw. Qed.
Lemma calls_spawn t a l : preserves (at_calls l) (spawn_monitor t a).
Proof. apply preserves_modify. by intros w Hw. Qed.
Lemma calls_now l : preserves (at_calls l) now_fn.
Proof. apply preserves_gets. Qed.
End calls.
#[export] Hint Resolve calls_unrecorded calls_live calls_publish calls_sleep calls_spawn calls_now : scalper.

(** Walks a method that sends nothing. *)
Ltac quiet :=
  repeat first [ solve [auto with scalper] | apply calls_attempt | apply calls_transaction
               | apply preserves_bind; [|intros ?] | case_match ].

Section facts.
Context {E : Type} `{PgNumeric} (cl : exchange_client E) (bot_id sub_account : string)
  (attempts : nat) (backoff : Z) (accepts : xmessage → bool).
Abbreviation lcl := (logged cl).

Lemma working_qty_quiet r l : preserves (at_calls l) (working_qty lcl sub_account r).
Proof. unfold working_qty, logged. cbn. quiet. Qed.
Lemma preflight_quiet r wq l : preserves (at_calls l) (preflight lcl r wq).
Proof. unfold preflight, logged. cbn. quiet. Qed.
Lemma fill_price_quiet n sym oid l : preserves (at_calls l) (fill_price_loop lcl backoff n sym oid).
Proof. induction n as [|n IH]; cbn; quiet. Qed.

Lemma calls_stop sym md sl tp sz w r w' :
  on_exchange (ex_set_trading_stop lcl sym md sl tp sz) w = (r, w') → calls w' = calls w ++ [c_stop sym md sl tp sz (is_ok r)].
Proof. apply calls_recorded. Qed.
Lemma calls_order sym sd q ro w r w' :
  on_exchange (ex_place_market_order lcl sym sd q ro) w = (r, w') → calls w' = calls w ++ [c_order sym sd q ro (is_ok r)].
Proof. apply calls_recorded. Qed.
Lemma calls_lever sym n w r w' :
  on_exchange (ex_set_leverage lcl sym n) w = (r, w') → calls w' = calls w ++ [c_leverage sym n (is_ok r)].
Proof. apply calls_recorded. Qed.

(** What follows an accepted entry of [q]: on every return the stop is set, or
    its failure is answered with a reduce-only order for the same quantity. *)
Definition answered (sym : string) (sd : side) (q : dec) (out : res placement_label) (post : list call) : Prop :=
  match out with
  | Ok emergency_close_invoked =>
      ∃ sl ok, post = [c_stop sym Full (Some sl) None None false; c_order sym (opposite_side sd) q true ok]
  | Ok _ => ∃ sl tp size ok, post = [c_stop sym Full (Some sl) None None true; c_stop sym Partial None (Some tp) (Some size) ok]
  | Err _ => ∀ c, c ∈ post → match c with
                             | c_leverage _ _ _ => False
                             | c_order s d n ro _ => s = sym ∧ d = opposite_side sd ∧ n = q ∧ ro = true
                             | c_stop s _ _ _ _ _ => s = sym
                             end
  end.

Lemma emergency_close_calls r env pr px q w out w' :
  emergency_close lcl bot_id accepts r env pr px q w = (out, w') →
  ∃ ok, calls w' = calls w ++ [c_order (or_symbol r) (opposite_side (or_side r)) q true ok].
Proof.
  unfold emergency_close. intros [(t & w1 & [= <- <-] & Hr)|(e & [=] & _)]%st_bind_cases.
  apply st_bind_cases in Hr as [(c & w2 & Hc & Hr)|(e & Hc & ->)]; apply attempt_inv in Hc as (x & Hx%calls_order & _).
  - exists (is_ok x). rewrite <- Hx. apply (quiet_keeps _ _ _ _ Hr). intros l. destruct c as [pr'|e]; quiet.
  - eauto.
Qed.

Lemma protect_calls r env pr px sl tp tps no q w out w' :
  protect_and_persist lcl bot_id accepts r env pr px sl tp tps no q w = (out, w') →
  ∃ post, calls w' = calls w ++ post ∧ answered (or_symbol r) (or_side r) q out post.
Proof.
  unfold protect_and_persist. intros [(s1 & w1 & Hs & Hr)|(e & Hs & ->)]%st_bind_cases;
    apply attempt_inv in Hs as (x & Hx%calls_stop & Hcase).
  2: { eexists. split; [exact Hx|]. intros c ->%list_elem_of_singleton. done. }
  destruct s1 as [u|e1].
  2: { assert (x = Err e1) as ->. { destruct x; [done|]. by repeat case_match; simplify_eq. }
       apply st_bind_cases in Hr as [(v & w2 & He & [= <- <-])|(e & He & ->)];
         apply emergency_close_calls in He as [ok Hok]; rewrite Hok, Hx, <- app_assoc; eexists; (split; [done|]).
       - cbn. eauto.
       - intros c Hc. set_unfold in Hc. destruct Hc as [->|[->|[]]]; done. }
  assert (is_ok x = true) as Hok. { destruct x; [done|]. by repeat case_match. } rewrite Hok in Hx.
  apply st_bind_cases in Hr as [(t0 & w2 & [= <- <-] & Hr)|(e & [=] & _)].
  apply st_bind_cases in Hr as [(y & w3 & Hy & Hr)|(e & Hy & ->)]; apply attempt_inv in Hy as (z & Hz%calls_stop & _).
  2: { rewrite Hz, Hx, <- app_assoc. eexists. split; [done|]. intros c Hc. set_unfold in Hc. destruct Hc as [->|[->|[]]]; done. }
  rewrite Hx, <- app_assoc in Hz.
  assert (calls w' = calls w3) as ->. { apply (quiet_keeps _ _ _ _ Hr). intros l. unfold emit_post_commit_events, emit_post_commit_shadow_start_event. quiet. }
  eexists. split; [exact Hz|].
  assert (out ≠ Ok emergency_close_invoked) as Hne.
  { intros ->. apply st_bind_ok_inv in Hr as ([[[op sm] tid]|e] & w4 & _ & Hr); [|discriminate].
    apply st_bind_ok_inv in Hr as (? & ? & _ & Hr). apply st_bind_ok_inv in Hr as (? & ? & _ & Hr).
    apply st_bind_ok_inv in Hr as (? & ? & _ & Hr). discriminate. }
  destruct out as [[]|e]; cbn; try done; eauto 10.
  intros c Hc. set_unfold in Hc. destruct Hc as [->|[->|[]]]; done.
Qed.

Lemma paper_calls r env pr px sl tp tps q w out w' :
  paper_fork lcl bot_id accepts r env pr px sl tp tps q w = (out, w') →
  ∃ post, calls w' = calls w ++ post ∧ answered (or_symbol r) (or_side r) q out post.
Proof.
  unfold paper_fork. intros [(s1 & w1 & Hs%calls_stop & Hr)|(e & Hs%calls_stop & ->)]%st_bind_cases.
  2: { eexists. split; [exact Hs|]. intros c ->%list_elem_of_singleton. done. }
  apply st_bind_cases in Hr as [(s2 & w2 & Hs2%calls_stop & Hr)|(e & Hs2%calls_stop & ->)]; rewrite Hs, <- app_assoc in Hs2.
  2: { eexists. split; [exact Hs2|]. intros c Hc. set_unfold in Hc. destruct Hc as [->|[->|[]]]; done. }
  exists [c_stop (or_symbol r) Full (Some sl) None None true; c_stop (or_symbol r) Partial None (Some tp) (Some tps) true].
  cbn in Hs2. split; [rewrite <- Hs2; apply (quiet_keeps _ _ _ _ Hr); intros l; unfold emit_post_commit_shadow_start_event; quiet|].
  apply st_bind_cases in Hr as [(s3 & w3 & _ & [= <- <-])|(e & _ & ->)]; [cbn; eauto 10|].
  intros c Hc. set_unfold in Hc. destruct Hc as [->|[->|[]]]; done.
Qed.

Lemma after_order_calls r env info pr q tps w out w' :
  after_order lcl bot_id attempts backoff accepts r env info pr q tps w = (out, w') →
  ∃ post, calls w' = calls w ++ post ∧ answered (or_symbol r) (or_side r) q out post.
Proof.
  assert (∀ e w1, calls w1 = calls w → out = Err e → w' = w1 → ∃ post, calls w' = calls w ++ post ∧ answered (or_symbol r) (or_side r) q out post) as Hnone.
  { intros e w1 Hw -> ->. exists []. rewrite app_nil_r. split; [done|]. by intros c ?%not_elem_of_nil. }
  unfold after_order. intros [(p & w1 & Hp & Hr)|(e & Hp & ->)]%st_bind_cases;
    apply quiet_keeps in Hp; [|intros; apply fill_price_quiet| |intros; apply fill_price_quiet]; [|by eapply Hnone].
  destruct p as [px|].
  2: { apply st_bind_cases in Hr as [(u & w2 & Hu & [= <- <-])|(e & Hu & ->)];
         (apply quiet_keeps in Hu; [|intros; apply calls_publish]); (eapply Hnone; [|done|done]; congruence). }
  x_inv; try (by eapply Hnone).
  destruct (or_exchange_mode r); rewrite <- Hp; first [eapply protect_calls; exact Hr | eapply paper_calls; exact Hr].
Qed.

(** The remote side behind the record. *)
Definition remote (w : xworld (E * list call)) : E := (x_exchange w).1.
Lemma unrecorded_remote {A} (m : ST E A) w r w' : on_exchange (unrecorded m) w = (r, w') → m (remote w) = (r, remote w').
Proof.
  intros (e' & He & ->)%on_exchange_inv. unfold unrecorded in He. unfold remote. destruct (x_exchange w) as [e l].
  cbn. destruct (m e) as [r0 e0]. by injection He as <- <-.
Qed.

(** The quantity a request asks for: its own, or, with a sizing section, the
    one computed from the account's equity and the symbol's mark price as the
    exchange reports them. *)
Definition intended (r : OrderRequest) (e : E) (wq : dec) (e' : E) : Prop :=
  match or_sizing r with
  | None => wq = or_qty r ∧ e' = e
  | Some sz => ∃ bal mark e1,
      ex_get_account_balance cl sub_account e = (Ok bal, e1) ∧ ex_get_mark_price cl (or_symbol r) e1 = (Ok mark, e') ∧
      match method sz with
      | risk_per_sl => ∃ rp, risk_pct sz = Some rp ∧
          compute_qty_from_risk (total_equity bal) mark (or_sl_pct r) rp (max_notional_per_symbol sz) (or_symbol r) = Ok (Some wq)
      | tier =>
          compute_qty_from_sizing (total_equity bal) mark (tiers sz) (or_score r) (score_multipliers sz)
            (max_notional_per_symbol sz) (or_symbol r) = Ok (Some wq)
      end
  end.

(** [q] is at least the instrument's minimum and, for quantities the decimal
    context holds, the largest multiple of its step not above [wq]. *)
Definition on_grid (info : InstrumentInfo) (wq q : dec) : Prop :=
  (dval (min_order_qty info) <= dval q)%Q ∧
  (0 < coef (qty_step info) → 0 <= coef wq → at_exp wq (common_exp wq (qty_step info)) < 10 ^ prec →
   ∃ n, 0 <= n ∧ (dval q == inject_Z n * dval (qty_step info))%Q ∧ (dval q <= dval wq < dval q + dval (qty_step info))%Q).

Lemma quantize_qty_on_grid wq info q : quantize_qty wq info = Ok q → on_grid info wq q.
Proof.
  intros Hq. split.
  - revert Hq. unfold quantize_qty. destruct (dltb wq _); [done|]. intros (n & _ & Hr)%bind_ok_inv.
    destruct (dltb _ _) eqn:Hge in Hr; [done|]. injection Hr as <-. by apply dltb_false in Hge.
  - intros Hs Hw Hf. destruct (quantize_qty_correct wq info Hs Hw Hf) as (n & g & Hn & Hg & Hle & Hlt & Heq).
    rewrite Heq in Hq. destruct (dltb g _); [done|]. injection Hq as <-. by exists n.
Qed.

Lemma attempt_ok {A} h (m : ST (xworld (E * list call)) A) w a w' : attempt h m w = (Ok (Ok a), w') → m w = (Ok a, w').
Proof. intros (x & Hx & Hc)%attempt_inv. destruct x as [y|e]; [by injection Hc as ->|by case_match]. Qed.

Lemma working_qty_intended r w wq w' : working_qty lcl sub_account r w = (Ok (inr wq), w') → intended r (remote w) wq (remote w').
Proof.
  unfold working_qty, intended. destruct (or_sizing r) as [sz|]; [|by intros [= <- <-]].
  intros (f & w1 & Hf & Hr)%st_bind_ok_inv. destruct f as [[bal mark]|]; [|discriminate].
  apply attempt_ok in Hf. apply st_bind_ok_inv in Hf as (b0 & w2 & Hb & Hf). apply st_bind_ok_inv in Hf as (m0 & w3 & Hm & [= -> -> ->]).
  apply unrecorded_remote in Hb, Hm. apply st_bind_ok_inv in Hr as (c & w4 & Hc & Hr).
  destruct c as [[q|]|]; [|discriminate..]. injection Hr as -> <-.
  exists bal, mark, (remote w2). split; [done|]. destruct (method sz).
  all: cycle 1.
  all: try (destruct (risk_pct sz) as [rp|]; [|discriminate]).
  all: apply attempt_ok in Hc; unfold lift_res in Hc; injection Hc as Hc <-; eauto.
Qed.

Lemma preflight_grid r wq w info q tps w' :
  preflight lcl r wq w = (Ok (inr (info, q, tps)), w') →
  (∃ e, ex_get_instrument_info cl (or_symbol r) (remote w) = (Ok info, e)) ∧ on_grid info wq q.
Proof.
  unfold preflight. intros (c & w1 & Hc & Hr)%st_bind_ok_inv. destruct c as [[info0 q0]|e]; [|discriminate].
  apply st_bind_ok_inv in Hr as (t & w2 & _ & Hr). destruct t as [t|e]; [|discriminate].
  unfold mret, st_ret in Hr. simplify_eq. apply attempt_ok in Hc.
  apply st_bind_ok_inv in Hc as (i & w3 & Hi%unrecorded_remote & Hx). x_inv. split; [eauto|by apply quantize_qty_on_grid].
Qed.

(** C4: a request leads to at most one entry order, sent once.  Its quantity is
    the one the request asks for (its own, or computed from the equity and mark
    price the exchange reports) rounded down to the step of the instrument as
    the exchange describes it, and not below the instrument's minimum.  If the
    exchange accepts the order, then whenever the handler returns, the
    protective stop was accepted, or its refusal was answered with a
    reduce-only order for the same quantity; and even when the handler raises
    it sends nothing else but stops and that order. *)
Theorem accepted_entry_is_answered env r w out w' :
  re_request env = Some r → calls w = [] →
  handle lcl bot_id sub_account attempts backoff accepts env w = (out, w') →
  calls w' = [] ∨ (∃ ok, calls w' = [c_leverage (or_symbol r) (or_leverage r) ok]) ∨
  ∃ wq e1 info e2 q ok post,
    intended r (remote w) wq e1 ∧ ex_get_instrument_info cl (or_symbol r) e1 = (Ok info, e2) ∧ on_grid info wq q ∧
    calls w' = [c_leverage (or_symbol r) (or_leverage r) true; c_order (or_symbol r) (or_side r) q false ok] ++ post ∧
    if ok then answered (or_symbol r) (or_side r) q out post else post = [].
Proof.
  intros Hreq H0. unfold handle. rewrite Hreq.
  intros [(wq & w1 & Hw & Hr)|(e & Hw & ->)]%st_bind_cases; pose proof Hw as Hwq;
    (apply quiet_keeps in Hw; [|intros; apply working_qty_quiet]); [|left; congruence].
  destruct wq as [l|wq]; [injection Hr as <- <-; left; congruence|]. apply working_qty_intended in Hwq.
  apply st_bind_cases in Hr as [(pf & w2 & Hpf & Hr)|(e & Hpf & ->)]; pose proof Hpf as Hpf2;
    (apply quiet_keeps in Hpf2; [|intros; apply preflight_quiet]); [|left; congruence].
  destruct pf as [l|[[info q] tps]]; [injection Hr as <- <-; left; congruence|]. apply preflight_grid in Hpf as [[e2 Hinfo] Hgrid]. right.
  apply st_bind_cases in Hr as [(lev & w3 & Hlev & Hr)|(e & Hlev & ->)]; apply attempt_inv in Hlev as (x & Hx%calls_lever & Hcase);
    rewrite Hpf2, Hw, H0 in Hx; cbn in Hx; [|eauto].
  destruct lev as [u|e]; [|injection Hr as <- <-; eauto].
  assert (is_ok x = true) as Hok by (destruct x; [done|]; by case_match). rewrite Hok in Hx. right.
  apply st_bind_cases in Hr as [(o & w4 & Ho & Hr)|(e & Ho & ->)]; apply attempt_inv in Ho as (y & Hy%calls_order & Hcy);
    rewrite Hx in Hy; exists wq, (remote w1), info, e2, q, (is_ok y).
  2: { destruct y as [z|e']; [done|]. exists []. by rewrite app_nil_r. }
  destruct o as [pr|e].
  - assert (is_ok y = true) as Hoy by (destruct y; [done|]; by case_match). rewrite Hoy in Hy |- *.
    apply after_order_calls in Hr as (post & Hpost & Hans). exists post. by rewrite Hpost, Hy.
  - assert (is_ok y = false) as Hoy by (by destruct y). rewrite Hoy in Hy |- *. exists []. rewrite app_nil_r.
    split_and!; [done..| |done]. cbn in Hy. rewrite <- Hy. by destruct e; injection Hr as _ <-.
Qed.
End facts.

(** ** The rows a placement writes *)
Section rows.
Context `{PgNumeric, !PgNumericExact, !PgNumericScale}.

Lemma insert_order_ok b sg c xid ex sym sd ty q px st ra fa ca idf d id d' :
  insert_order b sg c xid ex sym sd ty q px st ra fa ca idf d = (Ok id, d') →
  trades d' = trades d ∧ executions d' = executions d ∧ position_states d' = position_states d ∧ trades_seq d' = trades_seq d.
Proof. unfold insert_order. intros Hi. repeat case_match; simplify_eq; done. Qed.
Lemma insert_trade_ok b sg oid sym sd ep q n at_ meta d id d' :
  insert_trade b sg oid sym sd ep q n at_ meta d = (Ok id, d') →
  ∃ t q', col 30 12 q = Ok q' ∧ id = trades_seq d ∧ trades d' = <[id := t]> (trades d) ∧ executions d' = executions d ∧
    position_states d' = position_states d ∧ trades_seq d' = trades_seq d + 1 ∧
    trd_bot_id t = b ∧ trd_symbol t = sym ∧ trd_side t = sd ∧ trd_qty t = q' ∧ trd_status t = st_open ∧ trd_close_order_id t = None.
Proof. unfold insert_trade. intros Hi. repeat case_match; simplify_eq. eexists _, _. split_and!; try done. Qed.
Lemma insert_position_state_ok b sym tid sd ep q rem sl tp st at_ d u d' :
  insert_position_state b sym tid sd ep q rem sl tp st at_ d = (Ok u, d') →
  position_states d !! (b, sym) = None ∧ ∃ p q' rem', col 30 12 q = Ok q' ∧ col 30 12 rem = Ok rem' ∧
    d' = with_position_states <[(b, sym) := p]> d ∧ ps_trade_id p = tid ∧ ps_side p = sd ∧ ps_qty p = q' ∧ ps_remaining_qty p = rem'.
Proof.
  unfold insert_position_state. intros Hi. destruct (position_states d !! (b, sym)) eqn:Hp; [done|]. split; [done|].
  repeat case_match; simplify_eq. eexists _, _, _. split_and!; try done.
Qed.

Lemma stored_positive q q' : 0 < coef q → fits_qty q → col 30 12 q = Ok q' → 0 < coef q' ∧ fits_qty q'.
Proof.
  intros Hq Hf Hc. split; [|by eapply col_fits]. apply dval_sign. rewrite (col_exact _ _ Hf Hc). by apply dval_sign.
Qed.

Lemma persist_placement_keeps bot r env pr px sl tp tps no at_ q d x d' :
  ledger d → 0 < coef q → fits_qty q → persist_placement_tx bot r env pr px sl tp tps no at_ q d = (Ok x, d') → ledger d'.
Proof.
  intros Hl Hq Hf. unfold persist_placement_tx. intros (oid & d1 & Ho & Hr)%st_bind_ok_inv.
  apply insert_order_ok in Ho as (O1 & O2 & O3 & O4). apply st_bind_ok_inv in Hr as (tid & d2 & Ht & Hr).
  apply insert_trade_ok in Ht as (t & q' & Hc & -> & T1 & T2 & T3 & T4 & B & Sy & Sd & Q & St & Co).
  apply st_bind_ok_inv in Hr as (u & d3 & [= <- <-] & Hr). apply st_bind_ok_inv in Hr as (u & d4 & Hp & Hr).
  apply insert_position_state_ok in Hp as (Hfree & p & q1 & q2 & C1 & C2 & -> & P1 & P2 & P3 & P4). cbn in Hr.
  injection Hr as <- <-. rewrite Hc in C1, C2. injection C1 as <-. injection C2 as <-.
  destruct (stored_positive _ _ Hq Hf Hc) as [Hpos Hfits].
  apply (ledger_opened d _ (set_lifecycle ls_open t) Hl) with (p := p); cbn in *; try congruence.
  by rewrite T1, O1, O4, alter_insert_eq.
Qed.

Lemma emergency_close_keeps bot r env pr xid px q no at_ d x d' :
  ledger d → emergency_close_tx bot r env pr xid px q no at_ d = (Ok x, d') → ledger d'.
Proof.
  intros Hl. unfold emergency_close_tx. intros (oid & d1 & Ho & Hr)%st_bind_ok_inv.
  apply insert_order_ok in Ho as (O1 & O2 & O3 & O4). apply st_bind_ok_inv in Hr as (oid2 & d2 & Ho & Hr).
  apply insert_order_ok in Ho as (R1 & R2 & R3 & R4). apply st_bind_ok_inv in Hr as (tid & d3 & Ht & Hr).
  apply insert_trade_ok in Ht as (t & q' & Hc & -> & T1 & T2 & T3 & T4 & _).
  apply st_bind_ok_inv in Hr as (u & d4 & [= <- <-] & Hr). apply st_bind_ok_inv in Hr as (u & d5 & Hx & Hr).
  apply update_trade_close_ok in Hx as (px' & pnl' & fees' & _ & ->). cbn in Hr. injection Hr as <- <-.
  eapply (ledger_born_closed d _ _ Hl) with (reason := "emergency"); cbn in *.
  - rewrite T1, R1, O1, R4, O4, !alter_insert_eq. reflexivity.
  - congruence.
  - congruence.
  - congruence.
  - done.
  - cbn. eauto.
  - done.
  - by intros [? _].
Qed.
End rows.

(** ** A placement keeps the ledger *)

(** What the exchange documents of its instruments: a positive minimum order
    and a step of at most twelve decimals. *)
Class GridInstruments {E} (cl : exchange_client E) : Prop :=
  grid_instruments : ∀ sym e info e', ex_get_instrument_info cl sym e = (Ok info, e') →
    0 < coef (min_order_qty info) ∧ - 12 <= dexp (qty_step info).

Lemma quantize_qty_fits wq info q :
  0 < coef (min_order_qty info) → - 12 <= dexp (qty_step info) → quantize_qty wq info = Ok q → 0 < coef q ∧ fits_qty q.
Proof.
  intros Hmin Hstep. unfold quantize_qty. destruct (dltb wq _); [done|]. intros (n & Hn & Hr)%bind_ok_inv.
  destruct (dltb _ _) eqn:Hge in Hr; [done|]. injection Hr as <-. apply dltb_false in Hge. split.
  - apply dval_sign. apply dval_sign in Hmin. lra.
  - unfold fits_qty, dmul. etrans; [|apply fix_exp]. cbn. unfold dfloordiv in Hn. repeat case_match; simplify_eq. cbn. lia.
Qed.

Section keeps.
Context {E : Type} `{PgNumeric, !PgNumericExact, !PgNumericScale} (cl : exchange_client E) `{!GridInstruments cl}
  (bot_id sub_account : string) (attempts : nat) (backoff : Z) (accepts : xmessage → bool).
Definition in_ledger (w : xworld E) : Prop := ledger (x_live w).

Lemma ledger_exchange {A} (m : ST E A) : preserves in_ledger (on_exchange m).
Proof. intros w r w' Hw (e' & _ & ->)%on_exchange_inv. done. Qed.
Lemma ledger_attempt {A} h (m : ST (xworld E) A) : preserves in_ledger m → preserves in_ledger (attempt h m).
Proof. intros Hm w r w' Hw (x & Hx & _)%attempt_inv. by eapply Hm. Qed.
Lemma ledger_publish acc b c m : preserves in_ledger (publish_best_effort acc b c m).
Proof. apply preserves_modify. intros w Hw. by case_match. Qed.
Lemma ledger_sleep n : preserves in_ledger (sleep n).
Proof. apply preserves_modify. by intros w Hw. Qed.
Lemma ledger_spawn t a : preserves in_ledger (spawn_monitor t a).
Proof. apply preserves_modify. by intros w Hw. Qed.
Lemma ledger_now : preserves in_ledger now_fn.
Proof. apply preserves_gets. Qed.
Lemma ledger_transaction {A} (m : ST live_db A) :
  (∀ d a d', ledger d → m d = (Ok a, d') → ledger d') → (∀ n, preserves (fun d => n <= trades_seq d) m) →
  preserves in_ledger (in_transaction (on_live m)).
Proof.
  intros Hok Hseq w r w' Hw [(a & -> & Ha)|(e & w1 & -> & Ha & ->)]%in_transaction_inv;
    apply on_live_inv in Ha as (d' & Hd & ->); [by eapply Hok|].
  apply (Hseq _ _ _ _ (Z.le_refl _)) in Hd. unfold in_ledger. cbn.
  apply (ledger_frame (x_live w)); cbn; [done| |done|done|by left|done].
  intros tid. destruct (trades (x_live w) !! tid); constructor. auto with scalper.
Qed.
Hint Resolve ledger_exchange ledger_publish ledger_sleep ledger_spawn ledger_now : scalper.
Ltac keeps := repeat first [ solve [auto with scalper] | apply ledger_attempt | apply preserves_bind; [|intros ?] | case_match ].
Ltac stmt_seq := intros; intros ? ? ? ? ?; repeat case_match; simplify_eq; cbn; lia.

Lemma insert_order_seq b sg c xid ex sym sd ty q px st ra fa ca idf n :
  preserves (fun d => n <= trades_seq d) (insert_order b sg c xid ex sym sd ty q px st ra fa ca idf).
Proof. unfold insert_order. stmt_seq. Qed.
Lemma insert_trade_seq b sg oid sym sd ep q no at_ meta n :
  preserves (fun d => n <= trades_seq d) (insert_trade b sg oid sym sd ep q no at_ meta).
Proof. unfold insert_trade. stmt_seq. Qed.
Lemma insert_position_state_seq b sym tid sd ep q rem sl tp st at_ n :
  preserves (fun d => n <= trades_seq d) (insert_position_state b sym tid sd ep q rem sl tp st at_).
Proof. unfold insert_position_state. stmt_seq. Qed.
Lemma update_trade_close_seq tid px pnl fees at_ rs oid n :
  preserves (fun d => n <= trades_seq d) (update_trade_close tid px pnl fees at_ rs oid).
Proof. unfold update_trade_close. stmt_seq. Qed.
Hint Resolve insert_order_seq insert_trade_seq insert_position_state_seq update_trade_close_seq : scalper.

Lemma emergency_ledger r env pr px q : preserves in_ledger (emergency_close cl bot_id accepts r env pr px q).
Proof.
  unfold emergency_close. keeps. apply ledger_transaction; [intros; by eapply emergency_close_keeps|].
  intros n. unfold emergency_close_tx, update_trade_lifecycle_state, insert_trading_event. preserve.
Qed.
Hint Resolve emergency_ledger : scalper.
Lemma protect_ledger r env pr px sl tp tps no q :
  0 < coef q → fits_qty q → preserves in_ledger (protect_and_persist cl bot_id accepts r env pr px sl tp tps no q).
Proof.
  intros Hq Hf. unfold protect_and_persist, emit_post_commit_events, emit_post_commit_shadow_start_event. keeps.
  apply ledger_transaction; [intros; by eapply persist_placement_keeps|].
  intros n. unfold persist_placement_tx, update_trade_lifecycle_state, insert_trading_event. preserve.
Qed.

Lemma fill_price_ledger n sym oid : preserves in_ledger (fill_price_loop cl backoff n sym oid).
Proof. induction n as [|n IH]; cbn; keeps. Qed.
Hint Resolve protect_ledger fill_price_ledger : scalper.

Lemma preflight_fits r wq w info q tps w' :
  preflight cl r wq w = (Ok (inr (info, q, tps)), w') → 0 < coef q ∧ fits_qty q.
Proof.
  unfold preflight. intros (c & w1 & Hc & Hr)%st_bind_ok_inv. destruct c as [[info0 q0]|e]; [|discriminate].
  apply st_bind_ok_inv in Hr as (t & w2 & _ & Hr). destruct t as [t|e]; [|discriminate].
  unfold mret, st_ret in Hr. simplify_eq.
  apply attempt_inv in Hc as (x & Hx & Hcase). destruct x as [y|e]; [injection Hcase as <-|by case_match].
  apply st_bind_ok_inv in Hx as (i & w3 & (e' & Hi & ->)%on_exchange_inv & Hx).
  apply grid_instruments in Hi as [Hmin Hstep]. x_inv. by eapply quantize_qty_fits.
Qed.

(** Handling a request keeps the ledger, whatever its outcome. *)
Lemma handle_keeps env : preserves in_ledger (handle cl bot_id sub_account attempts backoff accepts env).
Proof.
  unfold handle. destruct (re_request env) as [r|]; [|keeps].
  apply preserves_bind; [unfold working_qty; keeps|]. intros [l|wq]; [keeps|].
  assert (preserves in_ledger (preflight cl r wq)) as Hkeep by (unfold preflight; keeps).
  intros w out w' Hw [([l|[[info q] tps]] & w1 & Hpf & Hr)|(e & Hpf & ->)]%st_bind_cases;
    pose proof (Hkeep _ _ _ Hw Hpf) as Hw1; [by injection Hr as <- <-| |done].
  pose proof (preflight_fits _ _ _ _ _ _ _ Hpf) as [Hq Hf]. eapply preserves_bind; [| |exact Hw1|exact Hr]; [keeps|].
  unfold after_order, paper_fork, emit_post_commit_shadow_start_event. intros ?. keeps.
Qed.
End keeps.

(** ** A concrete exchange *)

(** Accepts every order, numbering them, fills them at 100 and holds no
    position afterwards. *)
Definition demo_instrument (sym : string) : InstrumentInfo := mkInstrument sym (1 @ (-3)) (1 @ (-3)) (5 @ 0) (1 @ (-2)).
Definition demo_client (stop : res unit) : exchange_client Z := {|
  ex_set_leverage _ _ := mret tt;
  ex_place_market_order _ _ _ _ := fun n => (Ok (mkPlaced (pretty n) 10 None), n + 1);
  ex_set_trading_stop _ _ _ _ _ := lift_res stop;
  ex_get_positions _ := mret [];
  ex_get_fill_price _ _ := mret (Some (100 @ 0));
  ex_get_instrument_info sym := mret (demo_instrument sym);
  ex_get_account_balance _ := mret (mkBalance (1000 @ 0) (1000 @ 0) (1000 @ 0) (1000 @ 0) dzero);
  ex_get_mark_price _ := mret (100 @ 0);
  ex_get_closed_pnl_cumulative _ := mret dzero;
  ex_get_closed_pnl_window _ _ := mret dzero;
  ex_get_funding_fees_window _ _ := mret [];
|}.
Lemma demo_grid stop : GridInstruments (demo_client stop).
Proof. intros sym e info e' [= <- <-]. done. Qed.

Definition demo_request : OrderRequest :=
  mkOrderRequest "bot" 7 "BTCUSDT" buy (2 @ 0) 5 (1 @ (-2)) (2 @ (-2)) (5 @ (-1)) (1 @ (-2)) (1 @ (-3)) (5 @ (-3))
    em_live [] None None None.
Definition demo_envelope : request_envelope := mkRequestEnvelope "corr" 9 (Some "bot") (Some "7") (Some demo_request).
Definition demo_world {E} (e : E) : xworld E := mkXWorld e empty_live [] 10 ∅.
Definition accept_all (m : xmessage) : bool := true.

Lemma accepted_entry_is_answered_witness :
  let entry ok := [c_leverage "BTCUSDT" 5 true; c_order "BTCUSDT" buy (2000 @ (-3)) false ok] in
  let run stop := handle (H := pg_half_away) (logged (demo_client stop)) "bot" "acct" 3 1000000 accept_all demo_envelope (demo_world (1, [])) in
  (∃ post, calls (run (Ok tt)).2 = entry true ++ post ∧ answered "BTCUSDT" buy (2000 @ (-3)) (Ok placed) post) ∧
  (∃ post, calls (run (Err NetworkTimeout)).2 = entry true ++ post ∧ answered "BTCUSDT" buy (2000 @ (-3)) (Ok emergency_close_invoked) post).
Proof.
  assert (∀ stop out w', handle (H := pg_half_away) (logged (demo_client stop)) "bot" "acct" 3 1000000 accept_all demo_envelope
    (demo_world (1, [])) = (out, w') → length (calls w') = 4%nat →
    ∃ q post, calls w' = [c_leverage "BTCUSDT" 5 true; c_order "BTCUSDT" buy q false true] ++ post ∧ answered "BTCUSDT" buy q out post) as Hrun.
  { intros stop out w' Hr Hlen.
    destruct (accepted_entry_is_answered (H := pg_half_away) (demo_client stop) "bot" "acct" 3 1000000 accept_all
      demo_envelope demo_request (demo_world (1, [])) out w' eq_refl eq_refl Hr) as [H0|[[ok H0]|(wq & e1 & info & e2 & q & ok & post & _ & _ & _ & H0 & Ha)]];
      [rewrite H0 in Hlen; discriminate..|].
    destruct ok; [eauto|]. subst post. rewrite H0 in Hlen. discriminate. }
  split.
  - destruct (Hrun (Ok tt) _ _ ltac:(vm_compute; reflexivity) eq_refl) as (q & post & Hc & Ha).
    injection Hc as <- <-. eexists. split; [vm_compute; reflexivity|exact Ha].
  - destruct (Hrun (Err NetworkTimeout) _ _ ltac:(vm_compute; reflexivity) eq_refl) as (q & post & Hc & Ha).
    injection Hc as <- <-. eexists. split; [vm_compute; reflexivity|exact Ha].
Defined.
