(* ===== verification/LiveInv.v ===== *)
(** * The live ledger in every reachable state

    Every operation of the execution service that writes the live tables (a
    request handled, a fill dispatched, a monitor or audit tick, a watchdog
    tick, a start-up reconciliation) keeps the ledger, and so does any sequence
    of them; with what a watchdog tick and a reconciliation achieve. *)

From S2P Require Import Prelude Dec Sizing PaperDb PaperExchange PaperInv RiskGates Consumer ExecDb Exchange Dedup Dispatcher Placement Lifecycle Recovery Ledger PlacementFacts.
From Stdlib Require Import QArith Qabs Lqa.
From stdpp Require Import sorting.
Open Scope Z_scope.

(** ** Row updates outside the ledger *)
Lemma ledger_touch f k d :
  (∀ p, ps_trade_id (f p) = ps_trade_id p ∧ ps_side (f p) = ps_side p ∧ ps_qty (f p) = ps_qty p ∧
        ps_remaining_qty (f p) = ps_remaining_qty p) →
  ledger d → ledger (with_position_states (alter f k) d).
Proof.
  intros Hf Hl. split; cbn.
  - intros b sym p. destruct (decide (k = (b, sym))) as [->|Hne]; [rewrite lookup_alter_eq|rewrite lookup_alter_ne by done].
    + intros (q & Hq & ->)%fmap_Some. destruct (lg_row _ Hl _ _ _ Hq) as [t []]. destruct (Hf q) as (F1 & F2 & F3 & F4).
      exists t. split; cbn; rewrite ?F1, ?F2, ?F3, ?F4; done.
    + intros Hp. destruct (lg_row _ Hl _ _ _ Hp) as [t []]. exists t. by split.
  - intros tid t Ht Ho. destruct (lg_open _ Hl _ _ Ht Ho) as (p & Hp & Hid).
    destruct (decide (k = (trd_bot_id t, trd_symbol t))) as [->|Hne]; [rewrite lookup_alter_eq, Hp|rewrite lookup_alter_ne by done; eauto].
    exists (f p). destruct (Hf p) as (F1 & _). split; [done|congruence].
  - apply (lg_close _ Hl).
  - apply (lg_exited _ Hl).
  - apply (lg_ids _ Hl).
  - apply (lg_execs _ Hl).
Qed.

(** A row read earlier still names its trade: whatever rows are left, the
    trade of a snapshot row is tracked under its own key and no other. *)
Definition tracks (rows : list ((string * string) * position_state_row)) (d : live_db) : Prop :=
  ∀ r k p, r ∈ rows → position_states d !! k = Some p → ps_trade_id p = ps_trade_id r.2 ↔ k = r.1.

(** Closing the trade of such a row outside the fill flow, with its row. *)
Lemma ledger_dropped d k tid px pnl fees at_ reason oid l :
  ledger d → (∀ k' p, position_states d !! k' = Some p → ps_trade_id p = tid ↔ k' = k) → ¬ by_fill reason →
  ledger (with_position_states (delete k) (with_live_trades (alter (set_lifecycle l) tid)
    (with_live_trades (alter (set_trade_closed px pnl fees at_ reason oid) tid) d))).
Proof.
  intros Hl Hk Hby.
  assert (∀ i u, alter (set_lifecycle l) tid (alter (set_trade_closed px pnl fees at_ reason oid) tid (trades d)) !! i = Some u →
    (∃ t, i = tid ∧ trades d !! tid = Some t ∧ u = set_lifecycle l (set_trade_closed px pnl fees at_ reason oid t)) ∨
    (i ≠ tid ∧ trades d !! i = Some u)) as Hback.
  { intros i u. destruct (decide (i = tid)) as [->|Hne]; [|rewrite !lookup_alter_ne by done; by right].
    rewrite !lookup_alter_eq. intros (t1 & (t & Ht & ->)%fmap_Some & ->)%fmap_Some. left. eauto. }
  split; cbn.
  - intros b sym p Hp. apply lookup_delete_Some in Hp as [Hne Hp]. destruct (lg_row _ Hl _ _ _ Hp) as [u []]. exists u. split; try done.
    cbn. assert (tid ≠ ps_trade_id p) by (intros Heq; symmetry in Heq; apply (Hk _ _ Hp) in Heq; congruence).
    by rewrite !lookup_alter_ne.
  - intros i u [(t & -> & Ht & ->)|[Hne Hu]]%Hback Ho; [done|]. destruct (lg_open _ Hl _ _ Hu Ho) as (q & Hq & Hid). exists q.
    rewrite lookup_delete_ne; [done|]. intros Heq. apply Hne. rewrite <- Hid. by apply (Hk _ _ Hq).
  - intros i u [(t & -> & Ht & ->)|[Hne Hu]]%Hback; [cbn; by split; eauto|by apply (lg_close _ Hl i)].
  - intros i u reason' [(t & -> & Ht & ->)|[Hne Hu]]%Hback; [by intros _ [= <-]|]. intros. by apply (lg_exited _ Hl i u reason').
  - intros i u [(t & -> & Ht & ->)|[Hne Hu]]%Hback; by apply (lg_ids _ Hl _ _ ltac:(eassumption)).
  - apply (lg_execs _ Hl).
Qed.

Lemma tracks_mono rows d d' :
  tracks rows d → position_states d' ⊆ position_states d → tracks rows d'.
Proof. intros Ht Hs r k p Hr Hp. apply Ht; [done|]. by eapply lookup_weaken. Qed.
Lemma selected_rows bots d r :
  r ∈ select_position_states_for_bots bots d → position_states d !! r.1 = Some r.2.
Proof.
  intros [_ Hr]%list_elem_of_filter. apply elem_of_map_to_list. rewrite <- surjective_pairing.
  by rewrite <- (merge_sort_Permutation key_before).
Qed.
Lemma tracks_selected bots d : ledger d → tracks (select_position_states_for_bots bots d) d.
Proof.
  intros Hl r [b sym] p Hr%selected_rows Hp. destruct r as [[b' sym'] p']. cbn in *. split.
  - intros Heq. by destruct (rows_injective _ _ _ _ _ _ _ Hl Hp Hr Heq) as [-> ->].
  - intros [= -> ->]. congruence.
Qed.

(** ** The monitor and the audit *)
Section monitor.
Context {E : Type} `{PgNumeric}.

Lemma ledger_on_live {A} (m : ST live_db A) : preserves ledger m → preserves (@in_ledger E) (on_live m).
Proof. intros Hm w r w' Hw (d' & Hd & ->)%on_live_inv. by eapply Hm. Qed.
Lemma ledger_reads {A} (f : live_db → A) : preserves (@in_ledger E) (reads f).
Proof. apply preserves_gets. Qed.
Lemma monitor_update_ledger b sym best mfe mae pnl at_ : preserves ledger (update_position_state_monitor_tick b sym best mfe mae pnl at_).
Proof.
  intros d r d' Hd. unfold update_position_state_monitor_tick. intros. repeat case_match; simplify_eq; try done.
  by apply ledger_touch.
Qed.
Lemma sl_update_ledger b sym sl t at_ : preserves ledger (update_position_state_sl b sym sl t at_).
Proof.
  intros d r d' Hd. unfold update_position_state_sl. intros. repeat case_match; simplify_eq; try done. by apply ledger_touch.
Qed.
Lemma lifecycle_ledger tid l : preserves ledger (update_trade_lifecycle_state tid l).
Proof. intros d r d' Hd [= <- <-]. by apply lifecycle_keeps. Qed.
Lemma event_ledger at_ b c ty p : preserves ledger (insert_trading_event at_ b c ty p).
Proof.
  intros d r d' Hd [= <- <-]. apply (ledger_frame d); cbn; [done| |done|done|by left|lia].
  intros tid. destruct (trades d !! tid); constructor. auto with scalper.
Qed.
Hint Resolve ledger_on_live ledger_reads monitor_update_ledger sl_update_ledger lifecycle_ledger event_ledger
  ledger_exchange ledger_publish ledger_sleep ledger_spawn ledger_now : scalper.
Ltac keeps := repeat first [ solve [auto with scalper] | apply ledger_attempt | apply preserves_bind; [|intros ?] | case_match ].

Lemma monitor_keeps (cl : exchange_client E) tid a kv : preserves in_ledger (monitor_tick cl tid a kv).
Proof. unfold monitor_tick, detect_sl_overwrite, move_stop. keeps. Qed.

Lemma audit_keeps adapters papers tol : preserves (@in_ledger E) (run_trail_audit_tick adapters papers tol).
Proof.
  unfold run_trail_audit_tick. case_match; [keeps|]. apply preserves_bind; [keeps|]. intros rows.
  apply preserves_bind; [induction rows as [|[[b0 sy] ps] rows IH]; cbn; keeps|]. intros cands.
  apply preserves_bind; [|intros hits; induction hits as [|[[b0 co] pl] hits IH]; cbn; keeps].
  match goal with |- preserves _ (audit_bots _ _ ?l _) => generalize l end. intros bots.
  induction bots as [|b0 bots IH]; cbn; [keeps|]. apply preserves_bind; [|intros; keeps].
  assert (∀ cl ex cs, preserves (@in_ledger E) (audit_each tol cl ex cs)) as Heach.
  { intros cl ex cs. induction cs as [|c cs IHc]; cbn; [keeps|]. apply preserves_bind; [|intros; keeps].
    destruct c as [[[[]]]]. unfold audit_one. keeps. }
  keeps.
Qed.
End monitor.

(** ** The watchdog and the reconciliation *)
Lemma dict_get_elem {A} k (l : list (string * A)) v : dict_get k l = Some v → (k, v) ∈ l.
Proof.
  induction l as [|[k' v'] l IH]; cbn; [done|]. case_bool_decide as Hk; [intros [= <-]; subst; by left|]. intros ?. right. auto.
Qed.
Lemma dict_set_elem {A} k (v : A) l x : x ∈ dict_set k v l → x = (k, v) ∨ x ∈ l.
Proof.
  induction l as [|[k' v'] l IH]; cbn; [intros ?%list_elem_of_singleton; by left|].
  case_bool_decide; intros [->|Hx]%elem_of_cons; [by left|right; by right|right; by left|].
  destruct (IH Hx); [by left|right; by right].
Qed.
Lemma dict_of_elem {A} (l : list (string * A)) x : x ∈ dict_of l → x ∈ l.
Proof.
  unfold dict_of. assert (∀ acc, x ∈ fold_left (fun acc kv => dict_set kv.1 kv.2 acc) l acc → x ∈ acc ∨ x ∈ l) as Hgen.
  { induction l as [|kv l IH]; cbn; [by left|]. intros acc [Hx|Hx]%IH; [|right; by right].
    apply dict_set_elem in Hx as [->|Hx]; [|by left]. right. destruct kv. by left. }
  intros [?%not_elem_of_nil|?]%Hgen; done.
Qed.
Lemma bot_rows_elem bot (rows : list ((string * string) * position_state_row)) x :
  x ∈ map (fun r => (r.1.2, r.2)) (filter (fun r => r.1.1 = bot) rows) → ((bot, x.1), x.2) ∈ rows.
Proof. intros ([[b s] p] & -> & [Hb Hr]%list_elem_of_filter)%list_elem_of_fmap. cbn in *. by subst. Qed.

Section recovery.
Context {E : Type} `{PgNumeric} (adapters : gmap string (exchange_client E)) (accepts : xmessage → bool).
Context (rows : list ((string * string) * position_state_row)).

(** The ledger, and the rows read at the start of the tick still current. *)
Definition in_snapshot (w : xworld E) : Prop := in_ledger w ∧ tracks rows (x_live w).

Lemma snapshot_frame {A} (m : ST (xworld E) A) :
  (∀ w r w', m w = (r, w') → x_live w' = x_live w) → preserves in_snapshot m.
Proof. intros Hm w r w' [Hl Ht] Hr. apply Hm in Hr. unfold in_snapshot, in_ledger. by rewrite Hr. Qed.
Lemma snapshot_exchange {A} (m : ST E A) : preserves in_snapshot (on_exchange m).
Proof. apply snapshot_frame. by intros w r w' (e' & _ & ->)%on_exchange_inv. Qed.
Lemma snapshot_reads {A} (f : live_db → A) : preserves in_snapshot (reads f).
Proof. apply preserves_gets. Qed.
Lemma snapshot_now : preserves in_snapshot now_fn.
Proof. apply preserves_gets. Qed.
Lemma snapshot_attempt {A} h (m : ST (xworld E) A) : preserves in_snapshot m → preserves in_snapshot (attempt h m).
Proof. intros Hm w r w' Hw (x & Hx & _)%attempt_inv. by eapply Hm. Qed.
Lemma snapshot_publish b c m : preserves in_snapshot (publish_best_effort accepts b c m).
Proof. apply preserves_modify. intros w Hw. by case_match. Qed.
Lemma snapshot_spawn t a : preserves in_snapshot (spawn_monitor t a).
Proof. apply preserves_modify. by intros w Hw. Qed.

(** The transaction that closes a tracked trade, with whatever follows. *)
Lemma snapshot_drop {A} (m : ST live_db A) r :
  r ∈ rows →
  (∀ d a d', m d = (Ok a, d') → ∃ px pnl fees at_ reason oid l, ¬ by_fill reason ∧
     let d1 := with_position_states (delete r.1) (with_live_trades (alter (set_lifecycle l) (ps_trade_id r.2))
                 (with_live_trades (alter (set_trade_closed px pnl fees at_ reason oid) (ps_trade_id r.2)) d)) in
     trades d' = trades d1 ∧ executions d' = executions d1 ∧ position_states d' = position_states d1 ∧ trades_seq d' = trades_seq d1) →
  (∀ n, preserves (fun d => n <= trades_seq d) m) →
  preserves in_snapshot (in_transaction (on_live m)).
Proof.
  intros Hr Hok Hseq w out w' [Hl Ht] [(a & -> & Ha)|(e & w1 & -> & Ha & ->)]%in_transaction_inv;
    apply on_live_inv in Ha as (d' & Hd & ->).
  - apply Hok in Hd as (px & pnl & fees & at_ & reason & oid & l & Hby & D1 & D2 & D3 & D4).
    pose proof (ledger_dropped _ r.1 (ps_trade_id r.2) px pnl fees at_ reason oid l Hl
      (fun k p => Ht r k p Hr) Hby) as Hd1. split.
    + apply (ledger_frame _ d' Hd1); [|done|by intros i; rewrite D2|intros x; rewrite D2; by left|by rewrite D4].
      intros i. rewrite D1. destruct (_ !! i); constructor. auto with scalper.
    + eapply tracks_mono; [exact Ht|]. cbn. rewrite D3. apply delete_subseteq.
  - apply (Hseq _ _ _ _ (Z.le_refl _)) in Hd. split; [|done].
    apply (ledger_frame (x_live w)); cbn; [done| |done|done|by left|done].
    intros i. destruct (trades (x_live w) !! i); constructor. auto with scalper.
Qed.
Hint Resolve snapshot_exchange snapshot_reads snapshot_now snapshot_publish snapshot_spawn update_trade_close_seq : scalper.
Ltac keeps := repeat first [ solve [auto with scalper] | apply snapshot_attempt | apply preserves_bind; [|intros ?] | case_match ].

Lemma tracked_close_keeps cl bot sym ps :
  ((bot, sym), ps) ∈ rows → preserves in_snapshot (emergency_close_tracked_position accepts cl bot sym ps).
Proof.
  intros Hr. unfold emergency_close_tracked_position. keeps. apply (snapshot_drop _ _ Hr).
  - intros d res0 d' (u & d1 & Hc & Hd)%st_bind_ok_inv. apply update_trade_close_ok in Hc as (px & pnl & fees & _ & ->).
    cbn in Hd. injection Hd as <- <-. eexists px, pnl, fees, _, "emergency", _, ls_closed. split; [by intros [? _]|]. by split_and!.
  - intros n. unfold close_tracked_tx, update_trade_lifecycle_state, delete_position_state, insert_trading_event. preserve.
Qed.

Lemma orphan_close_keeps bot sym ps : ((bot, sym), ps) ∈ rows → preserves in_snapshot (close_orphan_db bot sym ps).
Proof.
  intros Hr. unfold close_orphan_db. keeps. apply (snapshot_drop _ _ Hr).
  - intros d res0 d' (u & d1 & Hc & Hd)%st_bind_ok_inv. apply update_trade_close_ok in Hc as (px & pnl & fees & _ & ->).
    cbn in Hd. injection Hd as <- <-. eexists px, pnl, fees, _, "reconcile_gone", _, ls_reconciled. split; [by intros [_ ?]|]. by split_and!.
  - intros n. unfold update_trade_lifecycle_state, delete_position_state. preserve.
Qed.

Lemma each_keeps {A} (f : A → ST (xworld E) unit) l :
  (∀ a, a ∈ l → preserves in_snapshot (f a)) → preserves in_snapshot (each f l).
Proof.
  induction l as [|a l IH]; intros Hf; cbn; [keeps|]. apply preserves_bind; [apply Hf; by left|]. intros _.
  apply IH. intros b Hb. apply Hf. by right.
Qed.

Lemma reconcile_bot_keeps window bot : preserves in_snapshot (reconcile_bot adapters window rows bot).
Proof.
  unfold reconcile_bot. destruct (adapters !! bot) as [cl|]; [|keeps]. apply preserves_bind; [keeps|]. intros positions.
  repeat (apply preserves_bind; [|intros _]); apply each_keeps; intros x Hx.
  - apply list_elem_of_filter in Hx as [_ Hx%dict_of_elem%bot_rows_elem]. by apply orphan_close_keeps.
  - unfold handle_orphan_exchange. keeps.
  - unfold spawn_matching_monitor. keeps.
Qed.

(** The watchdog's counters are beside the world. *)
Definition in_snapshot_wd (s : gmap (string * string) Z * xworld E) : Prop := in_snapshot s.2.
Lemma wd_world {A} (m : ST (xworld E) A) : preserves in_snapshot m → preserves in_snapshot_wd (in_world m).
Proof. intros Hm [c w] r [c' w'] Hw. cbn. destruct (m w) as [r0 w0] eqn:Em. intros [= <- <- <-]. by eapply Hm. Qed.
Lemma wd_counter k n : preserves in_snapshot_wd (set_counter k n).
Proof. apply preserves_modify. by intros [c w] Hw. Qed.
Hint Resolve wd_counter tracked_close_keeps : scalper.

Lemma watch_positions_keeps th cl bot mine ex :
  (∀ x, x ∈ mine → ((bot, x.1), x.2) ∈ rows) → preserves in_snapshot_wd (watch_positions accepts th cl bot mine ex).
Proof.
  intros Hmine. induction ex as [|[sym pos] ex IH]; cbn; [auto with scalper|].
  destruct (dict_get sym mine) as [ps|] eqn:Hg; [|done]. apply dict_get_elem, Hmine in Hg. cbn in Hg.
  repeat first [ solve [auto with scalper] | apply wd_world | apply preserves_bind; [|intros ?] | case_match ].
Qed.
Lemma watch_bots_keeps th bots : preserves in_snapshot_wd (watch_bots adapters accepts th rows bots).
Proof.
  induction bots as [|bot bots IH]; cbn; [auto with scalper|]. destruct (adapters !! bot) as [cl|]; [|done].
  apply preserves_bind; [apply wd_world; keeps|]. intros [positions|e]; [|done].
  apply preserves_bind; [apply watch_positions_keeps, bot_rows_elem|]. intros seen.
  apply preserves_bind; [done|]. auto with scalper.
Qed.
End recovery.

Section keep.
Context {E : Type} `{PgNumeric} (adapters : gmap string (exchange_client E)) (accepts : xmessage → bool).

Lemma watchdog_keeps papers th c w r c' w' :
  in_ledger w → run_sl_watchdog_tick adapters accepts papers th (c, w) = (r, (c', w')) → in_ledger w'.
Proof.
  intros Hw. unfold run_sl_watchdog_tick. case_match; [by intros [= _ _ <-]|].
  set (live := _ :: _). intros Hr.
  apply st_bind_cases in Hr as [(rows & [c1 w1] & Hrd & Hr)|(e & [=] & _)]. cbn in Hrd. injection Hrd as <- <- <-.
  assert (in_snapshot_wd (select_position_states_for_bots live (x_live w)) (c, w)) as Hs by (by split; [|apply tracks_selected]).
  apply st_bind_cases in Hr as [(o & [c2 w2] & Ho & Hr)|(e & Ho & _)]; apply (watch_bots_keeps _ _ _ _ _ _ _ _ Hs) in Ho as [Hl _].
  - by injection Hr as _ _ <-.
  - done.
Qed.

Lemma startup_keeps window : preserves (@in_ledger E) (reconcile_on_startup adapters window).
Proof.
  intros w r w' Hw. unfold reconcile_on_startup. case_match; [by intros [= _ <-]|].
  set (bots := _ :: _). intros Hr. apply st_bind_cases in Hr as [(rows & w1 & [= <- <-] & Hr)|(e & [=] & _)].
  assert (in_snapshot (select_position_states_for_bots bots (x_live w)) w) as Hs by (by split; [|apply tracks_selected]).
  eapply each_keeps in Hr as [Hl _]; [done| |exact Hs]. intros b _. apply reconcile_bot_keeps.
Qed.
End keep.

(** ** The service *)
Section service.
Context {E : Type} `{PgNumeric, !PgNumericExact, !PgNumericScale}.
Context (adapters : gmap string (exchange_client E)) (papers : gset string) (sub_account : string → string)
  (attempts : nat) (backoff post_close_sleep race_window threshold : Z) (drift_tolerance : dec) (accepts : xmessage → bool).
Abbreviation state := (gmap (string * string) Z * xworld E)%type.

(** One operation of the service, with any outcome, on the watchdog's counters
    and the world; between operations the exchange, the clock and the registry
    of monitors change freely, but nothing else writes the tables. *)
Inductive live_step : state → state → Prop :=
| step_request b cl env c w r w' :
    adapters !! b = Some cl → handle cl b (sub_account b) attempts backoff accepts env w = (r, w') → live_step (c, w) (c, w')
| step_fill b cl ev c w r w' :
    adapters !! b = Some cl → valid_fill ev → process cl b (sub_account b) post_close_sleep accepts ev w = (r, w') →
    live_step (c, w) (c, w')
| step_monitor b cl tid a kv c w r w' :
    adapters !! b = Some cl → monitor_tick cl tid a kv w = (r, w') → live_step (c, w) (c, w')
| step_audit c w r w' :
    run_trail_audit_tick adapters papers drift_tolerance w = (r, w') → live_step (c, w) (c, w')
| step_watchdog s r s' :
    run_sl_watchdog_tick adapters accepts papers threshold s = (r, s') → live_step s s'
| step_restart c w r w' :
    reconcile_on_startup adapters race_window (mkXWorld (x_exchange w) (x_live w) (x_published w) (x_clock w) ∅) = (r, w') →
    live_step (c, w) (∅, w')
| step_outside c w w' : x_live w' = x_live w → live_step (c, w) (c, w').

Hypothesis grid : ∀ b cl, adapters !! b = Some cl → GridInstruments cl.

Lemma live_step_keeps s s' : live_step s s' → in_ledger s.2 → in_ledger s'.2.
Proof.
  intros Hs Hl. destruct Hs as [b cl env c w r w' Ha Hr|b cl ev c w r w' Ha Hv Hr|b cl tid a kv c w r w' Ha Hr|c w r w' Hr
    |[c w] r [c' w'] Hr|c w r w' Hr|c w w' Hr]; cbn in *.
  - pose proof (grid _ _ Ha). by eapply handle_keeps.
  - by eapply process_keeps.
  - by eapply monitor_keeps.
  - by eapply audit_keeps.
  - by eapply watchdog_keeps.
  - eapply startup_keeps; [|exact Hr]. exact Hl.
  - unfold in_ledger. by rewrite Hr.
Qed.

(** C3: in every state the execution service reaches from empty tables, by any
    sequence of handled requests, fills, monitor, audit and watchdog ticks and
    restarts, each with any outcome, the tables agree: a trade is open exactly
    while its position_state row exists, under its own bot and symbol and with
    a positive remaining quantity; remaining plus the exit fills booked is the
    quantity opened; a closed trade has its close order; and a trade closed by
    a fill has exit fills for its whole quantity. *)
Theorem reachable_ledger c w c' w' : x_live w = empty_live → rtc live_step (c, w) (c', w') → ledger (x_live w').
Proof.
  intros Hz Hs. assert (in_ledger w) as Hl by (unfold in_ledger; rewrite Hz; exact empty_ledger). clear Hz.
  change (in_ledger (c', w').2). change (in_ledger (c, w).2) in Hl. revert Hs Hl. generalize (c, w), (c', w'). intros s s' Hs.
  induction Hs as [|s1 s2 s3 Hone _ IH]; [done|]. intros Hl. by apply IH, (live_step_keeps s1).
Qed.
End service.

(** ** A concrete run *)
Definition demo_adapters : gmap string (exchange_client Z) := {[ "bot" := demo_client (Ok tt) ]}.
Definition demo_fill (i : string) (qty : dec) (at_ : Z) : ExecutionEvent :=
  mkExecEvent i "take-profit" "BTCUSDT" sell (102 @ 0) qty (1 @ (-2)) at_.
Section demo.
#[local] Existing Instance pg_half_away.
Definition demo_opened : xworld Z :=
  (handle (demo_client (Ok tt)) "bot" "acct" 3 1000000 accept_all demo_envelope (demo_world 1)).2.
Definition demo_partial : xworld Z :=
  (process (demo_client (Ok tt)) "bot" "acct" 2000000 accept_all (demo_fill "x1" (1 @ 0) 20) demo_opened).2.
Definition demo_closed : xworld Z :=
  (process (demo_client (Ok tt)) "bot" "acct" 2000000 accept_all (demo_fill "x2" (1 @ 0) 30) demo_partial).2.

Lemma reachable_ledger_witness :
  ledger (x_live demo_closed) ∧ (exited 1 (executions (x_live demo_closed)) == 2)%Q ∧
  (∃ p, position_states (x_live demo_partial) !! ("bot", "BTCUSDT") = Some p ∧ ps_remaining_qty p = 1000000000000 @ (-12)) ∧
  position_states (x_live demo_closed) = ∅ ∧
  (trd_status <$> trades (x_live demo_closed) !! 1) = Some st_closed.
Proof.
  assert (rtc (live_step demo_adapters ∅ (fun _ => "acct") 3 1000000 2000000 60 3 (1 @ (-2)) accept_all)
    (∅, demo_world 1) (∅, demo_closed)) as Hrun.
  { apply rtc_l with (y := (∅, demo_opened)); [|apply rtc_l with (y := (∅, demo_partial))]; [| |apply rtc_once].
    + eapply (step_request _ _ _ _ _ _ _ _ _ _ "bot" (demo_client (Ok tt)) demo_envelope); [reflexivity|]. apply surjective_pairing.
    + eapply (step_fill _ _ _ _ _ _ _ _ _ _ "bot" (demo_client (Ok tt)) (demo_fill "x1" (1 @ 0) 20)); [reflexivity|done|]. apply surjective_pairing.
    + eapply (step_fill _ _ _ _ _ _ _ _ _ _ "bot" (demo_client (Ok tt)) (demo_fill "x2" (1 @ 0) 30)); [reflexivity|done|]. apply surjective_pairing. }
  assert (∀ b cl, demo_adapters !! b = Some cl → GridInstruments cl) as Hgrid.
  { unfold demo_adapters. intros b cl [_ <-]%lookup_singleton_Some. apply demo_grid. }
  pose proof pg_half_away_exact. pose proof pg_half_away_scale.
  pose proof (reachable_ledger _ _ _ _ _ _ _ _ _ _ Hgrid ∅ (demo_world 1) ∅ demo_closed eq_refl Hrun) as Hl.
  split; [exact Hl|]. split; [vm_compute; reflexivity|]. split; [eexists; split; vm_compute; reflexivity|].
  split; vm_compute; reflexivity.
Defined.
End demo.
