(* ===== verification/LiveFacts.v ===== *)
(** * Where the live components stop, and what a restart sends

    The fills that end a dispatcher, the watchdog tick that raises, and the
    orders a start-up reconciliation sends. *)

From S2P Require Import Prelude Dec Sizing PaperDb PaperExchange PaperInv RiskGates Consumer ExecDb Exchange Dedup Dispatcher Placement Lifecycle Recovery Ledger PlacementFacts LiveInv.
From stdpp Require Import sorting.
Open Scope Z_scope.

(** ** Fills that end the dispatcher *)
Section dispatcher.
Context {E : Type} `{PgNumeric} (cl : exchange_client E) (bot_id sub_account : string)
  (post_close_sleep : Z) (accepts : xmessage → bool).

(** A fill of an order that opened no trade: either the order is unknown and
    the bot has no position in the symbol, or the order is on record but no
    trade names it as its opening order. *)
Definition not_an_opening (ev : ExecutionEvent) (d : live_db) : Prop :=
  match select_order_id_by_exchange_id (ee_order_id ev) d with
  | None => position_states d !! (bot_id, ee_symbol ev) = None
  | Some oid => select_trade_by_open_order_id oid d = None
  end.

Lemma rolled_back_same d d' : orders_seq d' = orders_seq d → trades_seq d' = trades_seq d → rolled_back d d' = d.
Proof. intros H1 H2. unfold rolled_back. rewrite H1, H2. by destruct d. Qed.
Lemma set_live_same (w : xworld E) d : set_live (x_live w) (set_live d w) = w.
Proof. by destruct w. Qed.
Lemma set_live_id (w : xworld E) : set_live (x_live w) w = w.
Proof. by destruct w. Qed.

(** The trade such an order closed has no row. *)
Lemma closing_order_untracked ev d d1 oid tid q sl now :
  ledger d → select_trade_by_close_order_id oid d = Some tid → position_states d1 = position_states d →
  update_position_state_after_fill bot_id (ee_symbol ev) tid q sl now d1 = (Ok 0, d1).
Proof.
  intros Hl Hc Hd. unfold select_trade_by_close_order_id in Hc. apply fmap_Some in Hc as ([k t] & Hf & ->).
  apply find_row_some in Hf as [Ht Hco%bool_decide_eq_true]. cbn in *.
  unfold update_position_state_after_fill. rewrite Hd. destruct (position_states d !! (bot_id, ee_symbol ev)) as [p|] eqn:Hp; [|done].
  destruct (Z.eqb_spec (ps_trade_id p) k) as [<-|Hne]; [|done]. exfalso.
  destruct (lg_row _ Hl _ _ _ Hp) as [t' []]. assert (t' = t) as -> by congruence.
  pose proof (proj2 (lg_close _ Hl _ _ Ht) ltac:(rewrite Hco; eauto)). congruence.
Qed.

Lemma insert_execution_seqs i oid tid b sym sd px q fee x at_ d r d' :
  insert_execution i oid tid b sym sd px q fee x at_ d = (r, d') →
  orders_seq d' = orders_seq d ∧ trades_seq d' = trades_seq d ∧ trades d' = trades d ∧ position_states d' = position_states d.
Proof. unfold insert_execution. intros Hi. repeat case_match; simplify_eq; done. Qed.

Lemma insert_execution_exception i oid tid b sym sd px q fee x at_ d e d' :
  insert_execution i oid tid b sym sd px q fee x at_ d = (Err e, d') → is_exception e = true.
Proof. unfold insert_execution, col. intros Hi. repeat case_match; simplify_eq; done. Qed.
Lemma process_tx_halts ev w :
  ledger (x_live w) → not_an_opening ev (x_live w) →
  ∃ e w', process_tx cl bot_id sub_account post_close_sleep ev w = (Err e, w') ∧ set_live (rolled_back (x_live w) (x_live w')) w' = w ∧ is_exception e = true.
Proof.
  intros Hl Hn. unfold not_an_opening in Hn. unfold process_tx. rewrite !reads_run. unfold derive_exec_type.
  assert (set_live (rolled_back (x_live w) (x_live w)) w = w) as Hw by (rewrite rolled_back_same by done; apply set_live_id).
  destruct (select_order_id_by_exchange_id (ee_order_id ev) (x_live w)) as [oid|] eqn:Ho.
  2: { unfold select_position_state. rewrite Hn. cbn. eauto. }
  rewrite Hn. destruct (select_trade_by_close_order_id oid (x_live w)) as [tid|] eqn:Hc; rewrite reads_run; cbn [bool_decide andb]; [|eauto].
  rewrite !bool_decide_false by done. cbn [andb]. rewrite bool_decide_true by eauto. cbn [andb].
  rewrite (bool_decide_false (Some tid = None)), (st_bind_run _ _ w oid w) by done.
  destruct (insert_execution (ee_exec_id ev) oid (Some tid) bot_id (ee_symbol ev) (ee_side ev) (ee_price ev) (ee_qty ev) (ee_fee ev)
    x_close (ee_executed_at ev) (x_live w)) as [r d1] eqn:Hi.
  pose proof (insert_execution_seqs _ _ _ _ _ _ _ _ _ _ _ _ _ _ Hi) as (S1 & S2 & _ & S4).
  assert (set_live (rolled_back (x_live w) d1) (set_live d1 w) = w) as Hw1 by (rewrite rolled_back_same by done; apply set_live_same).
  destruct r as [[]|e].
  - rewrite (on_live_run _ _ _ _ _ Hi). eexists (RuntimeError _), (set_live d1 w). split; [|split; [exact Hw1|reflexivity]].
    assert (∀ x, x ≠ x_open → apply_exit_fill bot_id ev x (Some tid) (set_live d1 w) =
      (Err (RuntimeError "position_state.trade_id mismatch"), set_live d1 w)) as Hx; [|by unfold mbind, st_bind; rewrite Hx].
    intros x Hx. unfold apply_exit_fill. rewrite bool_decide_false, (st_bind_run _ _ _ (x_clock w) (set_live d1 w)) by done.
    erewrite on_live_run; [|by apply (closing_order_untracked ev (x_live w) d1 oid tid)]. done.
  - exists e, (set_live d1 w). split; [|split; [exact Hw1|by eapply insert_execution_exception]]. unfold mbind, st_bind, on_live. by rewrite Hi.
Qed.

(** In every state that satisfies the ledger, a fill whose order opened no
    trade (an unknown order while the bot holds no position in the symbol, or
    an order that is on record as no trade's opening order, such as the order
    that closed a trade in an emergency) makes the dispatcher raise; nothing is
    written, no later fill of the stream is processed, and the fill stays
    remembered as handled. *)
Lemma unattributed_fill_ends_dispatcher capacity ev evs seen w :
  ledger (x_live w) → not_an_opening ev (x_live w) → ee_exec_id ev ∉ seen → (0 < capacity)%nat →
  ∃ e seen', run_dispatcher_for_bot cl bot_id sub_account post_close_sleep accepts capacity (ev :: evs) (seen, w) = (Err e, (seen', w)) ∧
    ee_exec_id ev ∈ seen' ∧ is_exception e = true.
Proof.
  intros Hl Hn Hfresh Hcap. destruct (process_tx_halts ev w Hl Hn) as (e & w' & He & Hw & Hx).
  assert (process cl bot_id sub_account post_close_sleep accepts ev w = (Err e, w)) as Hp.
  { unfold process, mbind, st_bind, in_transaction. by rewrite He, Hw. }
  cbn. unfold mbind, st_bind, consume, remember. rewrite bool_decide_false by done. rewrite Hp. eexists _, _. split; [done|]. split; [|done].
  destruct (Nat.ltb_spec capacity (length (seen ++ [ee_exec_id ev]))); [|apply elem_of_app; right; by left].
  destruct seen as [|k seen]; [cbn in *; lia|]. cbn. apply elem_of_app. right. by left.
Qed.
End dispatcher.

(** The world after an entry whose stop was refused: the trade is closed in an
    emergency, by the order numbered 2. *)
Definition demo_emergency : xworld Z :=
  (handle (H := pg_half_away) (demo_client (Err NetworkTimeout)) "bot" "acct" 3 1000000 accept_all demo_envelope (demo_world 1)).2.
Lemma demo_emergency_ledger : ledger (x_live demo_emergency).
Proof.
  pose proof pg_half_away_exact. pose proof pg_half_away_scale. pose proof (demo_grid (Err NetworkTimeout)).
  refine (handle_keeps (H := pg_half_away) (demo_client (Err NetworkTimeout)) "bot" "acct" 3 1000000 accept_all demo_envelope
    (demo_world 1) _ demo_emergency _ (surjective_pairing _)). exact empty_ledger.
Qed.

(** ** The watchdog tick that raises *)
Section watchdog.
Context {E : Type} `{PgNumeric} (adapters : gmap string (exchange_client E)) (accepts : xmessage → bool).

(** The row of a tracked position, looked up among the rows of its bot. *)
Lemma dict_get_found {A} k (l : list (string * A)) v :
  (k, v) ∈ l → (∀ v', (k, v') ∈ l → v' = v) → dict_get k l = Some v.
Proof.
  induction l as [|[k' v'] l IH]; intros Hin Hone; cbn; [by apply not_elem_of_nil in Hin|].
  case_bool_decide as Hk; [subst; f_equal; apply Hone; by left|].
  apply IH; [|intros u Hu; apply Hone; by right]. apply elem_of_cons in Hin as [[= -> ->]|?]; done.
Qed.
Lemma bot_row_found bots bot symbol d ps :
  bot ∈ bots → position_states d !! (bot, symbol) = Some ps →
  dict_get symbol (map (fun r => (r.1.2, r.2)) (filter (fun r => r.1.1 = bot) (select_position_states_for_bots bots d))) = Some ps.
Proof.
  intros Hb Hp. apply dict_get_found.
  - apply list_elem_of_fmap. exists ((bot, symbol), ps). split; [done|]. apply list_elem_of_filter. split; [done|].
    apply list_elem_of_filter. split; [done|]. rewrite merge_sort_Permutation. by apply elem_of_map_to_list.
  - intros v Hr. apply bot_rows_elem, selected_rows in Hr. cbn in Hr. congruence.
Qed.

Lemma tracked_close_refused (cl : exchange_client E) bot symbol ps w e e2 :
  ex_place_market_order cl symbol (opposite_side (ps_side ps)) (ps_remaining_qty ps) true (x_exchange w) = (Err e, e2) →
  is_unknown_state e = false → emergency_close_tracked_position accepts cl bot symbol ps w = (Err e, set_exchange e2 w).
Proof.
  intros Ho He. unfold emergency_close_tracked_position, mbind, st_bind, now_fn, gets, attempt, on_exchange.
  by rewrite Ho, He.
Qed.
Lemma watch_refused threshold (cl : exchange_client E) bot rows symbol pos ex ps c w e e2 :
  dict_get symbol rows = Some ps → sl_missing pos = true → threshold <= default 0 (c !! (bot, symbol)) + 1 →
  emergency_close_tracked_position accepts cl bot symbol ps w = (Err e, set_exchange e2 w) →
  watch_positions accepts threshold cl bot rows ((symbol, pos) :: ex) (c, w) =
    (Err e, (<[(bot, symbol) := default 0 (c !! (bot, symbol)) + 1]> c, set_exchange e2 w)).
Proof.
  intros Hg Hsl Hth Hc. cbn [watch_positions]. rewrite Hg, Hsl. cbn [negb].
  unfold mbind, st_bind, get_st, set_counter, modify. cbn [fst]. rewrite (proj2 (Z.leb_le _ _) Hth).
  unfold in_world. by rewrite Hc.
Qed.

(** Once a tracked position has been without its stop for the configured
    number of ticks, a closing order that the exchange refuses with anything
    but an unknown state makes the whole watchdog tick raise: no other position
    or bot is looked at, and the counter stays at the reached count. *)
Lemma refused_close_aborts_watchdog papers threshold bot bots cl positions symbol pos ex ps c w e e1 e2 :
  filter (fun b => b ∉ papers) (sorted_bots adapters) = bot :: bots → adapters !! bot = Some cl →
  ex_get_positions cl None (x_exchange w) = (Ok positions, e1) → open_positions positions = (symbol, pos) :: ex →
  position_states (x_live w) !! (bot, symbol) = Some ps →
  sl_missing pos = true → threshold <= default 0 (c !! (bot, symbol)) + 1 →
  ex_place_market_order cl symbol (opposite_side (ps_side ps)) (ps_remaining_qty ps) true e1 = (Err e, e2) → is_unknown_state e = false →
  run_sl_watchdog_tick adapters accepts papers threshold (c, w) =
    (Err e, (<[(bot, symbol) := default 0 (c !! (bot, symbol)) + 1]> c, set_exchange e2 w)).
Proof.
  intros Hlive Ha Hp Hopen Hrow Hsl Hth Ho He. unfold run_sl_watchdog_tick. rewrite Hlive.
  pose proof (bot_row_found (bot :: bots) bot symbol (x_live w) ps ltac:(by left) Hrow) as Hg.
  unfold mbind at 1, st_bind at 1. cbn [in_world reads gets]. set (rows := select_position_states_for_bots _ _) in *.
  assert (watch_bots adapters accepts threshold rows (bot :: bots) (c, w) =
    (Err e, (<[(bot, symbol) := default 0 (c !! (bot, symbol)) + 1]> c, set_exchange e2 w))) as Hw; [|by unfold mbind, st_bind; rewrite Hw].
  cbn [watch_bots]. rewrite Ha. unfold mbind at 1, st_bind at 1. unfold in_world at 1, attempt, on_exchange at 1. rewrite Hp, Hopen.
  unfold mbind, st_bind. erewrite watch_refused; [done|exact Hg|done|done|]. by apply tracked_close_refused.
Qed.
End watchdog.

(** An exchange that holds the given positions and refuses every order. *)
Definition refusing_client (ps : list Position) : exchange_client Z := {|
  ex_set_leverage _ _ := mret tt;
  ex_place_market_order _ _ _ _ := throw (OrderRejected "insufficient margin");
  ex_set_trading_stop _ _ _ _ _ := mret tt;
  ex_get_positions _ := mret ps;
  ex_get_fill_price _ _ := mret None;
  ex_get_instrument_info sym := mret (demo_instrument sym);
  ex_get_account_balance _ := throw NetworkTimeout;
  ex_get_mark_price _ := mret (100 @ 0);
  ex_get_closed_pnl_cumulative _ := mret dzero;
  ex_get_closed_pnl_window _ _ := mret dzero;
  ex_get_funding_fees_window _ _ := mret [];
|}.
Definition unprotected : Position := mkExPosition "BTCUSDT" (Some buy) (2 @ 0) (Some (100 @ 0)) (Some 5) None None.

(** ** What a restart sends *)
Lemma dict_get_set {A} k k' (v : A) l : dict_get k (dict_set k' v l) = if bool_decide (k = k') then Some v else dict_get k l.
Proof.
  induction l as [|[k0 v0] l IH]; cbn; [by case_bool_decide|]. repeat case_bool_decide; subst; cbn; repeat case_bool_decide; try done.
Qed.
Lemma dict_get_of_none {A} k (l : list (string * A)) : dict_get k (dict_of l) = None ↔ ∀ v, (k, v) ∉ l.
Proof.
  unfold dict_of. assert (∀ acc, dict_get k (fold_left (fun acc kv => dict_set kv.1 kv.2 acc) l acc) = None ↔
    dict_get k acc = None ∧ ∀ v, (k, v) ∉ l) as Hgen.
  { induction l as [|[k' v'] l IH]; cbn; intros acc; [split; [split; [done|intros v; apply not_elem_of_nil]|by intros []]|].
    rewrite IH, dict_get_set. cbn. setoid_rewrite not_elem_of_cons. case_bool_decide; subst; naive_solver. }
  rewrite Hgen. cbn. naive_solver.
Qed.
Lemma open_positions_symbol ps sym p : (sym, p) ∈ open_positions ps → xp_symbol p = sym.
Proof. intros (q & [= -> ->] & _)%dict_of_elem%list_elem_of_fmap. done. Qed.

Definition recent_open (bot sym : string) (since : Z) (t : live_trade) : Prop :=
  trd_bot_id t = bot ∧ trd_symbol t = sym ∧ since <= trd_opened_at t ∧ trd_status t = st_open.
Lemma find_row_is_some {V} (P : V → bool) (m : gmap Z V) : is_Some (find_row P m) ↔ ∃ i v, m !! i = Some v ∧ P v = true.
Proof.
  split.
  - intros [[i v] Hf]. apply find_row_some in Hf as [? ?]. eauto.
  - intros (i & v & Hi & Hv). unfold find_row.
    assert ((i, v) ∈ filter (fun kv => P kv.2 = true) (merge_sort row_before (map_to_list m))) as Hin.
    { apply list_elem_of_filter. split; [done|]. rewrite merge_sort_Permutation. by apply elem_of_map_to_list. }
    destruct (filter _ _); [by apply not_elem_of_nil in Hin|]. cbn. eauto.
Qed.
Lemma recent_open_spec bot sym since d :
  select_recent_open_trade_exists bot sym since d = true ↔ ∃ i t, trades d !! i = Some t ∧ recent_open bot sym since t.
Proof.
  unfold select_recent_open_trade_exists, recent_open. rewrite bool_decide_eq_true, find_row_is_some.
  do 2 (apply exist_proper; intros ?). rewrite !andb_true_iff, !bool_decide_eq_true, Z.leb_le. naive_solver.
Qed.

Section restart.
Context {E : Type} `{PgNumeric} (cl : exchange_client E) (adapters : gmap string (exchange_client (E * list call)))
  (window : Z) (rows : list ((string * string) * position_state_row)) (bot : string).
Abbreviation X := (ST (xworld (E * list call))).

(** Nothing sent, the clock as before, no trade opened. *)
Definition settled (w0 w : xworld (E * list call)) : Prop :=
  calls w = calls w0 ∧ x_clock w = x_clock w0 ∧
  ∀ i t sym since, trades (x_live w) !! i = Some t → recent_open bot sym since t → ∃ t0, trades (x_live w0) !! i = Some t0 ∧ recent_open bot sym since t0.

Lemma settled_same w0 w w' : settled w0 w → calls w' = calls w → x_clock w' = x_clock w → trades (x_live w') = trades (x_live w) → settled w0 w'.
Proof. intros (Hc & Ht & Hr) Ec Et Er. split_and!; [congruence|congruence|]. by rewrite Er. Qed.

Lemma orphan_db_settled w0 sym ps : preserves (settled w0) (close_orphan_db bot sym ps : X unit).
Proof.
  unfold close_orphan_db. apply preserves_bind; [apply preserves_gets|]. intros [oid|]; [|apply preserves_ret].
  apply preserves_bind; [apply preserves_gets|]. intros now w r w' (Hc & Hk & Hr).
  intros [(a & -> & Ha)|(e & w1 & -> & Ha & ->)]%in_transaction_inv; apply on_live_inv in Ha as (d' & Hd & ->).
  - apply st_bind_ok_inv in Hd as (u & d1 & Hx & Hd). apply update_trade_close_ok in Hx as (px & pnl & fees & _ & ->).
    cbn in Hd. injection Hd as <- <-. split_and!; [done|done|]. cbn. intros i t sy since. destruct (decide (i = ps_trade_id ps)) as [->|Hne].
    + rewrite !lookup_alter_eq. intros (t1 & (t0 & Ht & ->)%fmap_Some & ->)%fmap_Some (_ & _ & _ & Hst). done.
    + rewrite !lookup_alter_ne by done. apply Hr.
  - split_and!; [done|done|]. cbn. apply Hr.
Qed.

Lemma each_settled {A} w0 (f : A → X unit) l : (∀ a, preserves (settled w0) (f a)) → preserves (settled w0) (each f l).
Proof. intros Hf. induction l as [|a l IH]; cbn; [apply preserves_ret|]. by apply preserves_bind. Qed.

(** The answer to one unknown position: an order, unless the position has no
    side or a trade has just been opened. *)
Definition flatten (p : Position) (ok : bool) : option call :=
  (fun sd => c_order (xp_symbol p) (opposite_side sd) (xp_size p) true ok) <$> xp_side p.

Lemma handle_orphan_sent w p r w' :
  handle_orphan_exchange (logged cl) bot window p w = (r, w') →
  r = Ok tt ∧ x_clock w' = x_clock w ∧ x_live w' = x_live w ∧
  ∃ ok, calls w' = calls w ++ if select_recent_open_trade_exists bot (xp_symbol p) (x_clock w - window) (x_live w) then []
                              else option_list (flatten p ok).
Proof.
  unfold handle_orphan_exchange, flatten. destruct (xp_side p) as [sd|]; cbn [fmap option_fmap option_map].
  2: { intros [= <- <-]. split_and!; [done..|]. exists true. case_match; by rewrite app_nil_r. }
  intros Hr. rewrite (st_bind_run _ _ w (x_clock w) w) in Hr by done. rewrite reads_run in Hr.
  destruct (select_recent_open_trade_exists _ _ _ _); [injection Hr as <- <-; split_and!; [done..|]; exists true; by rewrite app_nil_r|].
  apply st_bind_cases in Hr as [(c & w1 & Hc & [= <- <-])|(e & Hc & ->)]; apply attempt_inv in Hc as (x & Hx & Hcase).
  - pose proof Hx as Hx2. apply calls_order in Hx2. apply on_exchange_inv in Hx as (e' & _ & ->). split_and!; [done..|]. eauto.
  - destruct x; [done|]. done.
Qed.

Lemma each_orphan_sent ps : ∀ w w',
  each (fun p : string * Position => handle_orphan_exchange (logged cl) bot window p.2) ps w = (Ok tt, w') →
  (∀ c, c ∈ calls w' → c ∈ calls w ∨ ∃ p ok, p ∈ ps ∧ flatten p.2 ok = Some c) ∧
  (∀ c, c ∈ calls w → c ∈ calls w') ∧
  (∀ p, p ∈ ps → is_Some (xp_side p.2) → select_recent_open_trade_exists bot (xp_symbol p.2) (x_clock w - window) (x_live w) = false →
     ∃ ok c, flatten p.2 ok = Some c ∧ c ∈ calls w').
Proof.
  induction ps as [|p ps IH]; intros w w'.
  { intros [= <-]. split_and!; [auto|auto|]. by intros p ?%not_elem_of_nil. }
  cbn [each]. intros (u & w1 & Hp & Hr)%st_bind_ok_inv. apply handle_orphan_sent in Hp as (_ & Hk & Hd & ok & Hc).
  apply IH in Hr as (I1 & I2 & I3). split_and!.
  - intros c [Hin|(q & ok' & Hq & Hf)]%I1; [|right; exists q, ok'; split; [by right|done]].
    rewrite Hc in Hin. apply elem_of_app in Hin as [?|Hin]; [by left|]. right. exists p, ok. split; [by left|].
    case_match; [by apply not_elem_of_nil in Hin|]. destruct (flatten p.2 ok); cbn in Hin; set_unfold in Hin; naive_solver.
  - intros c Hin. apply I2. rewrite Hc. apply elem_of_app. by left.
  - intros q [->|Hq]%elem_of_cons Hsd Hrace; [|apply I3; [done|done|by rewrite Hk, Hd]].
    rewrite Hrace in Hc. destruct Hsd as [sd Hsd]. unfold flatten in *. rewrite Hsd in *. cbn in *. eexists ok, _. split; [done|].
    apply I2. rewrite Hc. apply elem_of_app. right. by left.
Qed.

Lemma unknown_rows sym :
  dict_get sym (dict_of (map (fun r => (r.1.2, r.2)) (filter (fun r : (string * string) * position_state_row => r.1.1 = bot) rows))) = None ↔
  ∀ ps, ((bot, sym), ps) ∉ rows.
Proof.
  rewrite dict_get_of_none. split; intros Hno ps Hin; apply (Hno ps).
  - apply list_elem_of_fmap. exists ((bot, sym), ps). split; [done|]. by apply list_elem_of_filter.
  - by apply bot_rows_elem in Hin.
Qed.

(** The reconciliation of a bot sends nothing but reduce-only orders that
    flatten open exchange positions of symbols the bot has no position_state
    row for, each for the position's full size; and it sends one for every such
    position that has a side, unless a live trade of the bot in the symbol is
    open and younger than the race window. *)
Lemma restart_flattens_unknown_positions positions e1 w w' :
  adapters !! bot = Some (logged cl) → ex_get_positions cl None (x_exchange w).1 = (Ok positions, e1) →
  reconcile_bot adapters window rows bot w = (Ok tt, w') →
  (∀ c, c ∈ calls w' → c ∈ calls w ∨
     ∃ sym p ok, (sym, p) ∈ open_positions positions ∧ (∀ ps, ((bot, sym), ps) ∉ rows) ∧ flatten p ok = Some c) ∧
  (∀ sym p sd, (sym, p) ∈ open_positions positions → (∀ ps, ((bot, sym), ps) ∉ rows) → xp_side p = Some sd →
     select_recent_open_trade_exists bot sym (x_clock w - window) (x_live w) = false →
     ∃ ok, c_order sym (opposite_side sd) (xp_size p) true ok ∈ calls w').
Proof.
  intros Ha Hpos. unfold reconcile_bot. rewrite Ha. intros (ps0 & w1 & Hg & Hr)%st_bind_ok_inv.
  assert (settled w w1 ∧ ps0 = positions) as [Hs ->].
  { unfold on_exchange, logged, unrecorded in Hg. cbn in Hg. destruct (x_exchange w) as [e l] eqn:Hx. cbn in Hpos. rewrite Hpos in Hg. injection Hg as <- <-.
    split; [|done]. split_and!; [unfold calls; cbn; by rewrite Hx|done|]. intros i t sy since ??. by exists t. }
  apply st_bind_ok_inv in Hr as ([] & w2 & Hdb & Hr). eapply each_settled in Hdb as (Hc & Hk & Hrc); [|intros; apply orphan_db_settled|exact Hs].
  apply st_bind_ok_inv in Hr as ([] & w3 & Hex & Hr). apply each_orphan_sent in Hex as (I1 & _ & I3).
  assert (calls w' = calls w3) as ->.
  { apply (quiet_keeps _ _ _ _ Hr). intros l. match goal with |- preserves _ (each _ ?k) => generalize k end. intros k.
    unfold spawn_matching_monitor. induction k as [|a k IH]; cbn; quiet. }
  split.
  - intros c [Hin|([sym p] & ok & Hin & Hf)]%I1; [left; congruence|]. right. exists sym, p, ok.
    apply list_elem_of_filter in Hin as [Hno Hin]. cbn in Hno. by rewrite unknown_rows in Hno.
  - intros sym p sd Hin Hno Hsd Hrace. pose proof (open_positions_symbol _ _ _ Hin) as Hsym.
    destruct (I3 (sym, p)) as (ok & c & Hf & Hcall).
    + apply list_elem_of_filter. split; [|done]. cbn. by apply unknown_rows.
    + cbn. eauto.
    + cbn. rewrite Hsym, Hk. apply not_true_iff_false. intros (i & t & Ht & Hro)%recent_open_spec.
      destruct (Hrc _ _ _ _ Ht Hro) as (t0 & Ht0 & Hro0). apply not_true_iff_false in Hrace. apply Hrace, recent_open_spec. eauto.
    + unfold flatten in Hf. cbn in Hf. rewrite Hsd, Hsym in Hf. cbn in Hf. injection Hf as <-. eauto.
Qed.
End restart.

(** A bot whose position is not in position_state, such as one that trades on
    paper. *)
Definition demo_untracked : gmap string (exchange_client (Z * list call)) := {[ "bot" := logged (refusing_client [unprotected]) ]}.
