(* ===== verification/Trail.v ===== *)
(** * The trailing stop

    What successive ticks of the position monitor do to a position whose stop
    trails: the recorded best price and stop only move in the position's
    favour, and a stop the exchange refused is sent again only after a new best
    price. *)

From S2P Require Import Prelude Dec Sizing PaperDb PaperExchange PaperInv RiskGates Consumer ExecDb Exchange Dispatcher Placement Lifecycle Ledger PlacementFacts LiveInv.
From Stdlib Require Import QArith Qabs Lqa.
Open Scope Z_scope.

(** [y] is at least as good as [x] for the side: as a best price, and as a
    stop. *)
Definition tighter (sd : side) (x y : dec) : Prop :=
  match sd with buy => (dval x <= dval y)%Q | sell => (dval y <= dval x)%Q end.
Lemma tighter_refl sd x : tighter sd x x.
Proof. destruct sd; apply Qle_refl. Qed.
Lemma tighter_trans sd x y z : tighter sd x y → tighter sd y z → tighter sd x z.
Proof. destruct sd; cbn; lra. Qed.
Lemma tighter_val sd x y z : (dval y == dval z)%Q → tighter sd x y → tighter sd x z.
Proof. destruct sd; cbn; intros ->; done. Qed.
Lemma tighter_val_l sd x y z : (dval x == dval z)%Q → tighter sd x y → tighter sd z y.
Proof. destruct sd; cbn; intros ->; done. Qed.

(** ** Prices and parameters within bounds *)

(** A fraction of at most six decimals and a grid of at most twelve. *)
Record trail_config (pct tick : dec) : Prop := {
  tc_pct : 0 <= coef pct; tc_below_one : (dval pct < 1)%Q; tc_decimals : - 6 <= dexp pct;
  tc_tick : 0 < coef tick; tc_tick_decimals : - 12 <= dexp tick; tc_tick_bound : (dval tick < inject_Z (10 ^ 9))%Q;
}.
Definition good_price (p : dec) : Prop := 0 < coef p ∧ - 12 <= dexp p ∧ (dval p < inject_Z (10 ^ 8))%Q.

Lemma scaled_bound p e : - 18 <= e → e <= dexp p → 0 < coef p → (dval p < inject_Z (10 ^ 9))%Q → Z.abs (at_exp p e) < 10 ^ 27.
Proof.
  intros He Hle Hp Hb. pose proof (at_exp_pos p e Hle Hp). rewrite Z.abs_eq by lia. rewrite (dval_at p e Hle) in Hb.
  apply Z.nle_gt. intros Hge.
  assert (inject_Z (10 ^ 9) <= inject_Z (at_exp p e) * p10 e)%Q; [|lra].
  apply (Qle_trans _ (inject_Z (10 ^ 27) * p10 e)); [|apply Qmul_p10_le; lia].
  rewrite (p10_shift (-18) e), Qmult_assoc, <- inject_Z_mult by lia.
  apply (Qle_trans _ (inject_Z (10 ^ 27) * p10 (-18))); [vm_compute; discriminate|]. apply Qmul_p10_le.
  pose proof (pow10_gt0 (e - -18) ltac:(lia)). lia.
Qed.

Section prices.
Context (sd : side) (pct tick : dec).
Hypothesis config : trail_config pct tick.
Definition trail_factor : dec := match sd with buy => dsub (1 @ 0) pct | sell => dadd (1 @ 0) pct end.
Lemma trail_price_factor b : compute_trail_sl_price sd b pct = dmul b trail_factor.
Proof. unfold trail_factor. by destruct sd. Qed.

Lemma trail_factor_bounds : 0 < coef trail_factor ∧ - 6 <= dexp trail_factor ∧ (dval trail_factor <= 2)%Q.
Proof.
  destruct config as [Hp H1 Hd _ _ _]. set (e := common_exp (1 @ 0) pct).
  pose proof (common_exp_l (1 @ 0) pct) as El. pose proof (common_exp_r (1 @ 0) pct) as Er. fold e in El, Er.
  assert (- 6 <= e) as He by (unfold e, common_exp; cbn; lia).
  assert (0 <= at_exp pct e < at_exp (1 @ 0) e) as Hlt.
  { split; [by apply at_exp_nonneg|]. rewrite (dval_at pct e Er) in H1.
    assert (1 == inject_Z (at_exp (1 @ 0) e) * p10 e)%Q as Ho by (rewrite <- (dval_at (1 @ 0) e El); reflexivity).
    rewrite Ho in H1. apply Z.nle_gt. intros Hge. apply (Qmul_p10_le _ _ e) in Hge. lra. }
  unfold trail_factor. destruct sd; split_and!; try (etrans; [|apply fix_exp]; cbn; exact He); try (apply fix_pos; cbn; fold e; lia).
  - apply (Qle_trans _ (dval (1 @ 0))); [apply dsub_le_l; done|vm_compute; discriminate].
  - apply (Qle_trans _ (inject_Z 2 * p10 0)); [|vm_compute; discriminate]. apply fix_upper_bound; [done|]. fold e.
    assert (dval (mkDec (at_exp (1 @ 0) e + at_exp pct e) e) == dval (1 @ 0) + dval pct)%Q as ->.
    { unfold dval at 1; cbn [coef dexp]. rewrite inject_Z_plus, (dval_at (1 @ 0) e El), (dval_at pct e Er). ring. }
    change (dval (1 @ 0)) with 1%Q. change (inject_Z 2 * p10 0)%Q with 2%Q. lra.
Qed.

Lemma trail_price_fits b : good_price b → 0 < coef (compute_trail_sl_price sd b pct) ∧ fits27 (compute_trail_sl_price sd b pct) tick.
Proof.
  intros (Hb & Hbe & Hbv). destruct trail_factor_bounds as (Hf & Hfe & Hfv). destruct config. rewrite trail_price_factor.
  assert (0 < coef (dmul b trail_factor)) as Hpos by (by apply dmul_pos).
  assert (- 18 <= dexp (dmul b trail_factor)) as Hexp by (unfold dmul; etrans; [|apply fix_exp]; cbn; lia).
  assert (dval (dmul b trail_factor) < inject_Z (10 ^ 9))%Q as Hval.
  { apply (Qle_lt_trans _ (inject_Z 2 * p10 8)); [|reflexivity]. apply fix_upper_bound; [done|]. rewrite dmul_exact_val.
    apply (dval_sign b) in Hb. apply (dval_sign trail_factor) in Hf. change (inject_Z 2 * p10 8)%Q with (200000000 # 1)%Q.
    change (inject_Z (10 ^ 8)) with (100000000 # 1)%Q in Hbv.
    apply (Qle_trans _ (dval b * 2)); [apply Qmult_le_l; [done|lra]|lra]. }
  split; [done|]. set (e := common_exp (dmul b trail_factor) tick).
  assert (- 18 <= e) as He by (unfold e, common_exp; lia).
  split; apply scaled_bound; auto using common_exp_l, common_exp_r.
Qed.

(** The trailing stop of a price on the grid, and how it follows the price. *)
Definition trail_stop (b : dec) : res dec := quantize_price (compute_trail_sl_price sd b pct) sd tick.
Lemma trail_stop_ok b : good_price b → ∃ q, trail_stop b = Ok q.
Proof. intros [_ Hf]%trail_price_fits. destruct (quantize_price_correct _ sd tick (tc_tick _ _ config) Hf) as (r & _ & Hr & _). eauto. Qed.
Lemma trail_stop_follows b b' q q' :
  good_price b → good_price b' → tighter sd b b' → trail_stop b = Ok q → trail_stop b' = Ok q' → tighter sd q q'.
Proof.
  intros Hg Hg' Ht Hq Hq'. pose proof trail_factor_bounds as (Hf & _). pose proof (tc_tick _ _ config) as Htick.
  pose proof (trail_price_fits _ Hg) as [_ F]. pose proof (trail_price_fits _ Hg') as [_ F'].
  assert (tighter sd (compute_trail_sl_price sd b pct) (compute_trail_sl_price sd b' pct)) as Hm.
  { destruct Hg as (Hb & _), Hg' as (Hb' & _). rewrite !trail_price_factor. unfold tighter in *. unfold trail_factor in *. destruct sd; by apply dmul_mono. }
  unfold trail_stop, tighter in *. destruct sd;
    [exact (quantize_price_mono _ _ _ _ _ _ Htick F F' Hq Hq' Hm)|exact (quantize_price_mono _ _ _ _ _ _ Htick F' F Hq' Hq Hm)].
Qed.
Lemma grid_exp p q : quantize_price p sd tick = Ok q → - 12 <= dexp q.
Proof.
  unfold quantize_price. destruct (dleb tick dzero); [done|]. intros (x & Hx & [= <-])%bind_ok_inv. destruct config.
  unfold dmul. etrans; [|apply fix_exp]. cbn. assert (0 <= dexp (match sd with buy => dfloor x | sell => dceil x end)); [|lia].
  destruct sd; unfold dceil, dfloor; repeat case_match; cbn; lia.
Qed.
End prices.

(** ** One tick *)
Section ticks.
Context {E : Type} `{PgNumeric, !PgNumericExact, !PgNumericScale} (cl : exchange_client E) (tid : Z) (a : monitor_args) (pct tick : dec).
Abbreviation sd := (mon_side a).
Abbreviation world := (xworld (E * list call)).
Hypothesis config : trail_config pct tick.
Hypothesis one_tick : ∀ sym e info e', ex_get_instrument_info cl sym e = (Ok info, e') → tick_size info = tick.

(** The position trails: recorded best price [b], recorded stop [s]. *)
Definition trailing (b s : dec) (w : world) : Prop :=
  ∃ ps f, position_states (x_live w) !! (mon_bot_id a, mon_symbol a) = Some ps ∧
    ps_sl_type ps = Some trail ∧ ps_best_price ps = Some b ∧ ps_sl_price ps = Some s ∧ good_price b ∧
    select_trade_fsm_params tid (x_live w) = Ok (Some f) ∧ trail_pct f = pct.

Definition same_rows (w w' : world) : Prop :=
  position_states (x_live w') = position_states (x_live w) ∧ trades (x_live w') = trades (x_live w) ∧ calls w' = calls w.
Lemma trailing_same b s w w' : same_rows w w' → trailing b s w → trailing b s w'.
Proof. intros (Hp & Ht & _) (ps & f & Hrow). exists ps, f. unfold select_trade_fsm_params in *. by rewrite Hp, Ht. Qed.

Lemma trailing_live b s w w' : x_live w' = x_live w → trailing b s w → trailing b s w'.
Proof. intros Hw (ps & f & Hrow). exists ps, f. by rewrite Hw. Qed.
Lemma tick_of sym w info w1 : on_exchange (ex_get_instrument_info (logged cl) sym) w = (Ok info, w1) → tick_size info = tick.
Proof.
  intros (e' & He & _)%on_exchange_inv. cbn in He. unfold unrecorded in He. destruct (x_exchange w) as [e0 l0].
  destruct (ex_get_instrument_info cl sym e0) as [r0 e1] eqn:Hg. injection He as -> _. by eapply one_tick.
Qed.

Lemma same_unrecorded {A} w (m : ST E A) : preserves (same_rows w) (on_exchange (unrecorded m)).
Proof.
  intros w1 r w2 (Hp & Ht & Hc) Hr. pose proof (calls_unrecorded m (calls w1) w1 r w2 eq_refl Hr) as Hc2.
  apply on_exchange_inv in Hr as (e & _ & ->). split_and!; [done|done|]. by rewrite Hc2.
Qed.
Lemma same_attempt {A} w h (m : ST world A) : preserves (same_rows w) m → preserves (same_rows w) (attempt h m).
Proof. intros Hm w1 r w2 Hw (x & Hx & _)%attempt_inv. by eapply Hm. Qed.
Lemma same_event w at_ b c ty p : preserves (same_rows w) (on_live (insert_trading_event at_ b c ty p)).
Proof. intros w1 r w2 Hw (d & [= <- <-] & ->)%on_live_inv. done. Qed.
Lemma same_now w : preserves (same_rows w) now_fn.
Proof. apply preserves_gets. Qed.
Hint Resolve same_unrecorded same_event same_now : scalper.

Lemma detect_same w sl ty :
  preserves (same_rows w) (detect_sl_overwrite (logged cl) (mon_bot_id a) (mon_symbol a) tid sl ty).
Proof.
  unfold detect_sl_overwrite, logged. cbn.
  repeat first [ solve [auto with scalper] | apply same_attempt | apply preserves_bind; [|intros ?] | case_match ].
Qed.

(** Writing the tick's measurements. *)
Lemma good_stored b b' : good_price b → col 30 12 b = Ok b' → good_price b' ∧ (dval b' == dval b)%Q.
Proof.
  intros (Hb & He & Hv) Hc. pose proof (col_exact _ _ He Hc) as Hx. split; [|done]. split_and!; [|by eapply col_fits|by rewrite Hx].
  apply dval_sign. rewrite Hx. by apply dval_sign.
Qed.
Lemma measured w b s nb mfe mae pnl at_ r w1 :
  trailing b s w → good_price nb → on_live (update_position_state_monitor_tick (mon_bot_id a) (mon_symbol a) nb mfe mae pnl at_) w = (r, w1) →
  calls w1 = calls w ∧
  match r with
  | Err _ => trailing b s w1
  | Ok _ => ∃ b', good_price b' ∧ (dval b' == dval nb)%Q ∧ trailing b' s w1
  end.
Proof.
  intros (ps & f & Hp & Hty & Hb & Hs & Hg & Hf & Hpct) Hnb (d & Hd & ->)%on_live_inv. split; [done|].
  unfold update_position_state_monitor_tick in Hd. destruct (col 30 12 nb) as [b'|] eqn:Hc.
  2: { repeat case_match; simplify_eq; by exists ps, f. }
  destruct (good_stored _ _ Hnb Hc) as [Hg' Hv'].
  repeat case_match; simplify_eq; try (by exists ps, f).
  exists b'. split; [done|]. split; [done|]. eexists _, f. cbn. rewrite lookup_alter_eq, Hp. cbn. split_and!; done.
Qed.

(** Moving the stop to [q]. *)
Definition moved (b s q : dec) (w w1 : world) : Prop :=
  (calls w1 = calls w ∧ trailing b s w1) ∨
  ∃ ok, calls w1 = calls w ++ [c_stop (mon_symbol a) Full (Some q) None None ok] ∧
        (trailing b s w1 ∨ ok = true ∧ ∃ s', (dval s' == dval q)%Q ∧ trailing b s' w1).

Lemma stop_recorded b s q at_ w1 r w2 :
  - 12 <= dexp q → trailing b s w1 →
  (on_live (update_position_state_sl (mon_bot_id a) (mon_symbol a) q trail at_) ;;
   on_live (update_trade_lifecycle_state tid ls_trailing_active)) w1 = (r, w2) →
  calls w2 = calls w1 ∧ (trailing b s w2 ∨ ∃ s', (dval s' == dval q)%Q ∧ trailing b s' w2).
Proof.
  intros He (ps & f & Hp & Hty & Hb & Hs & Hg & Hf & Hpct) Hr.
  apply st_bind_cases in Hr as [(u & w3 & Hu & Hr)|(e & Hu & ->)]; apply on_live_inv in Hu as (d & Hd & ->);
    unfold update_position_state_sl in Hd; destruct (col 30 12 q) as [s'|] eqn:Hc; simplify_eq.
  - apply on_live_inv in Hr as (d2 & Hd2 & ->). unfold update_trade_lifecycle_state, modify in Hd2. injection Hd2 as _ <-.
    split; [done|]. right. exists s'. split; [by apply col_exact|]. eexists _, f. cbn. rewrite lookup_alter_eq, Hp. cbn.
    split_and!; try done. unfold select_trade_fsm_params in *. cbn. rewrite lookup_alter_eq. destruct (trades (x_live w1) !! tid); done.
  - split; [done|]. left. by exists ps, f.
Qed.

Lemma move_stop_moves b s raw q w r w1 :
  trailing b s w → quantize_price raw sd tick = Ok q →
  move_stop (logged cl) (mon_bot_id a) (mon_symbol a) sd tid raw trail ls_trailing_active w = (r, w1) → moved b s q w w1.
Proof.
  intros Ht Hq. unfold move_stop. intros [(info & w2 & Hi & Hr)|(e & Hi & ->)]%st_bind_cases.
  2: { left. pose proof (same_unrecorded w _ w _ _ ltac:(done) Hi) as Hs. split; [apply Hs|by eapply trailing_same]. }
  pose proof (same_unrecorded w _ w _ _ ltac:(done) Hi) as Hs. pose proof Hs as (_ & _ & Hcalls). eapply trailing_same in Ht; [|exact Hs].
  pose proof (tick_of _ _ _ _ Hi) as Htick.
  rewrite Htick in Hr. rewrite (st_bind_run _ _ w2 q w2) in Hr by (by rewrite Hq).
  apply st_bind_cases in Hr as [(st & w3 & Hst & Hr)|(e & Hst & ->)]; apply attempt_inv in Hst as (x & Hx & Hcase);
    pose proof Hx as Hx2; apply calls_stop in Hx2; apply on_exchange_inv in Hx as (e' & _ & Hw3); right; exists (is_ok x).
  2: { rewrite Hx2, Hcalls. split; [done|]. left. eapply trailing_live; [|exact Ht]. by subst. }
  assert (trailing b s w3) as Ht3 by (eapply trailing_live; [|exact Ht]; by subst).
  destruct st as [u|e]; [|injection Hr as _ <-; rewrite Hx2, Hcalls; split; [done|by left]].
  assert (is_ok x = true) as Hok by (destruct x; [done|]; by case_match).
  rewrite (st_bind_run _ _ w3 (x_clock w3) w3) in Hr by done.
  apply (stop_recorded b s q) in Hr as [Hc Hrec]; [|by eapply grid_exp|done]. rewrite Hc, Hx2, Hcalls, Hok. split; [done|].
  destruct Hrec as [?|Hrec]; [by left|by right].
Qed.

(** What a tick at a good price does: nothing is recorded, or the measurements
    are, and with a strictly better best price the stop may be moved. *)
Lemma tick_shape b s p w r w' :
  trailing b s w → good_price p → monitor_tick (logged cl) tid a (kv_latest p) w = (r, w') →
  (calls w' = calls w ∧ trailing b s w') ∨
  let nb := update_best_price sd p (Some b) in
  ∃ b', good_price b' ∧ (dval b' == dval nb)%Q ∧
    ((calls w' = calls w ∧ trailing b' s w') ∨
     (¬ dval nb == dval b)%Q ∧ ∃ q, trail_stop sd pct tick nb = Ok q ∧ moved b' s q w w').
Proof.
  intros Ht Hp. unfold monitor_tick. rewrite reads_run. pose proof Ht as (ps & f & Hrow & Hty & Hb & Hs & Hg & Hf & Hpct).
  unfold select_position_state. rewrite Hrow, Hb. destruct (update_mfe_mae _ _ _ _) as [mfe mae].
  set (nb := update_best_price sd p (Some b)).
  assert (good_price nb) as Hnb by (unfold nb, update_best_price; destruct sd; by case_match).
  intros Hr. rewrite (st_bind_run _ _ w (x_clock w) w) in Hr by done.
  apply st_bind_cases in Hr as [(u & w1 & Hu & Hr)|(e & Hu & ->)]; apply (measured w b s) in Hu as [Hc1 Hu]; [|done|done|by left|done|done].
  destruct Hu as (b' & Hg' & Hv' & Ht1). right. exists b'. split; [done|]. split; [done|].
  apply st_bind_cases in Hr as [(u2 & w2 & Hu2 & Hr)|(e & Hu2 & ->)];
    apply (detect_same w1) in Hu2 as Hsame; [|done|left; split; [destruct Hsame as (_ & _ & ->); done|by eapply trailing_same]|done].
  pose proof (trailing_same _ _ _ _ Hsame Ht1) as Ht2. destruct Hsame as (_ & _ & Hc2). rewrite Hc1 in Hc2.
  destruct Ht2 as (ps2 & f2 & Hrest). pose proof Hrest as (_ & _ & _ & _ & _ & Hf2 & Hpct2).
  assert (trailing b' s w2) as Ht2 by (by exists ps2, f2). clear Hrest.
  rewrite reads_run, Hf2, (st_bind_run _ _ w2 (Some f2) w2), Hty in Hr by done.
  rewrite (bool_decide_false (Some trail = Some protective)), (st_bind_run _ _ w2 false w2), bool_decide_true in Hr by done. cbn [andb] in Hr.
  rewrite Hpct2 in Hr. destruct (deqb nb b) eqn:Heq; cbn [negb] in Hr.
  { injection Hr as _ <-. by left. }
  right. split; [intros Hv; apply deqb_spec in Hv; congruence|].
  destruct (trail_stop_ok sd pct tick config nb Hnb) as [q Hq]. exists q. split; [done|].
  assert (∀ w3 r3, move_stop (logged cl) (mon_bot_id a) (mon_symbol a) sd tid (compute_trail_sl_price sd nb pct) trail ls_trailing_active w2 = (r3, w3) →
    moved b' s q w w3) as Hmove.
  { intros w3 r3 Hm. apply (move_stop_moves b' s _ q) in Hm; [|done|done]. unfold moved in *. by rewrite Hc2 in Hm. }
  apply st_bind_cases in Hr as [(u3 & w3 & Hm & [= _ <-])|(e & Hm & ->)]; by eapply Hmove.
Qed.

(** ** Successive ticks *)
Definition monitor_ticks (kvs : list kv_price) (w : world) : world :=
  fold_left (fun w kv => (monitor_tick (logged cl) tid a kv w).2) kvs w.
Definition good_kv (kv : kv_price) : Prop := match kv with kv_latest p => good_price p | _ => True end.

Lemma best_improves p b : tighter sd b (update_best_price sd p (Some b)).
Proof.
  unfold update_best_price, tighter. destruct sd.
  - destruct (dltb b p) eqn:El; [apply dltb_spec in El|]; lra.
  - destruct (dltb p b) eqn:El; [apply dltb_spec in El|]; lra.
Qed.
Lemma no_new_best p b : tighter sd p b → update_best_price sd p (Some b) = b.
Proof. unfold update_best_price, tighter. destruct sd; intros ->%dltb_false; done. Qed.

(** The recorded stop is no tighter than the trailing stop of the recorded best
    price. *)
Definition behind (b s : dec) : Prop := ∃ q, trail_stop sd pct tick b = Ok q ∧ tighter sd s q.

Lemma tick_ratchets b s kv w :
  trailing b s w → behind b s → good_kv kv →
  let w' := (monitor_tick (logged cl) tid a kv w).2 in
  ∃ b' s', trailing b' s' w' ∧ behind b' s' ∧ tighter sd b b' ∧ tighter sd s s' ∧
    ∀ c, c ∈ calls w' → c ∈ calls w ∨ ∃ q ok, c = c_stop (mon_symbol a) Full (Some q) None None ok ∧ tighter sd s q.
Proof.
  intros Ht Hbe Hkv w'. destruct kv as [| |p]; [by exists b, s; split_and!; auto using tighter_refl..|].
  pose proof Hbe as (q & Hq & Hsq). pose proof Ht as (_ & _ & _ & _ & _ & _ & Hg & _).
  destruct (tick_shape b s p w _ w' Ht Hkv (surjective_pairing _)) as [[Hc Ht']|(b' & Hg' & Hv & Hcase)].
  { exists b, s. rewrite Hc. split_and!; auto using tighter_refl. }
  set (nb := update_best_price sd p (Some b)) in *. pose proof (best_improves p b) as Hnb. fold nb in Hnb.
  assert (tighter sd b b') as Hbb by (eapply tighter_val; [symmetry; exact Hv|done]).
  destruct (trail_stop_ok sd pct tick config b' Hg') as [q' Hq'].
  pose proof (trail_stop_follows sd pct tick config b b' q q' Hg Hg' Hbb Hq Hq') as Hqq.
  assert (behind b' s) as Hbe' by (exists q'; split; [done|by eapply tighter_trans]).
  destruct Hcase as [[Hc Ht']|(_ & qn & Hqn & Hm)].
  { exists b', s. rewrite Hc. split_and!; auto using tighter_refl. }
  assert (good_price nb) as Hgn by (unfold nb, update_best_price; destruct sd; by case_match).
  pose proof (trail_stop_follows sd pct tick config b nb q qn Hg Hgn Hnb Hq Hqn) as Hqqn.
  assert (tighter sd s qn) as Hsn by (by eapply tighter_trans).
  destruct Hm as [[Hc Ht']|(ok & Hc & Hm)]; rewrite Hc; [exists b', s; split_and!; auto using tighter_refl|].
  assert (∀ c, c ∈ calls w ++ [c_stop (mon_symbol a) Full (Some qn) None None ok] →
    c ∈ calls w ∨ ∃ q ok, c = c_stop (mon_symbol a) Full (Some q) None None ok ∧ tighter sd s q) as Hcalls.
  { intros c [?| ->%list_elem_of_singleton]%elem_of_app; [by left|right; eauto]. }
  destruct Hm as [Ht'|(_ & s' & Hs' & Ht')]; [exists b', s; split_and!; auto using tighter_refl|].
  exists b', s'. split_and!; auto; [|by eapply tighter_val; [symmetry|]].
  exists q'. split; [done|]. eapply tighter_val_l; [symmetry; exact Hs'|].
  apply (trail_stop_follows sd pct tick config nb b' qn q'); auto. eapply tighter_val; [symmetry; exact Hv|apply tighter_refl].
Qed.

(** C39: while the position trails with its recorded stop no tighter than the
    trailing stop of its recorded best price, no sequence of monitor ticks,
    whatever the exchange answers, ever loosens anything: the best price and the
    recorded stop only move in the position's favour, and every stop sent to
    the exchange is at least as tight as the one recorded before. *)
Theorem trailing_stop_ratchets kvs b s w :
  trailing b s w → behind b s → Forall good_kv kvs →
  ∃ b' s', trailing b' s' (monitor_ticks kvs w) ∧ behind b' s' ∧ tighter sd b b' ∧ tighter sd s s' ∧
    ∀ c, c ∈ calls (monitor_ticks kvs w) → c ∈ calls w ∨ ∃ q ok, c = c_stop (mon_symbol a) Full (Some q) None None ok ∧ tighter sd s q.
Proof.
  revert b s w. induction kvs as [|kv kvs IH]; intros b s w Ht Hb Hall; cbn.
  { exists b, s. split_and!; auto using tighter_refl. }
  inversion_clear Hall. destruct (tick_ratchets b s kv w) as (b1 & s1 & Ht1 & Hb1 & Hbb & Hss & Hc1); [done..|].
  destruct (IH b1 s1 (monitor_tick (logged cl) tid a kv w).2) as (b2 & s2 & Ht2 & Hb2 & Hbb2 & Hss2 & Hc2); [done..|].
  exists b2, s2. split_and!; [done|done|by eapply tighter_trans|by eapply tighter_trans|].
  intros c [Hin|(q & ok & -> & Hq)]%Hc2; [by apply Hc1|]. right. exists q, ok. split; [done|by eapply tighter_trans].
Qed.

Lemma quiet_ticks kvs p : ∀ b s w,
  trailing b s w → (dval b == dval p)%Q → Forall good_kv kvs → Forall (fun kv => match kv with kv_latest x => tighter sd x p | _ => True end) kvs →
  calls (monitor_ticks kvs w) = calls w ∧ ∃ b', trailing b' s (monitor_ticks kvs w).
Proof.
  induction kvs as [|kv kvs IH]; intros b s w Ht Hv Hall Hp; cbn; [by eauto|]. inversion_clear Hall. inversion_clear Hp.
  assert (calls (monitor_tick (logged cl) tid a kv w).2 = calls w ∧ ∃ b1, (dval b1 == dval p)%Q ∧ trailing b1 s (monitor_tick (logged cl) tid a kv w).2)
    as [Hc (b1 & Hv1 & Ht1)].
  { destruct kv as [| |x]; [by split; [done|exists b]..|].
    destruct (tick_shape b s x w _ _ Ht ltac:(done) (surjective_pairing _)) as [[Hc Ht']|(b' & _ & Hv' & Hcase)]; [by split; [|exists b]|].
    rewrite no_new_best in Hv', Hcase by (eapply tighter_val; [symmetry; exact Hv|done]).
    destruct Hcase as [[Hc Ht']|(Hne & _)]; [|by destruct Hne]. split; [done|]. exists b'. split; [by rewrite Hv'|done]. }
  destruct (IH b1 s _ Ht1 Hv1) as [Hc2 Hex]; [done..|]. split; [etrans; [exact Hc2|exact Hc]|exact Hex].
Qed.

(** When the exchange refuses the move of a trailing stop, the better price
    is already recorded: however many ticks follow, none of them sends the stop
    again or changes the recorded one until the price improves once more. *)
Lemma refused_trail_move_not_retried kvs p q b s w :
  trailing b s w → good_price p →
  let w1 := (monitor_tick (logged cl) tid a (kv_latest p) w).2 in
  calls w1 = calls w ++ [c_stop (mon_symbol a) Full (Some q) None None false] →
  Forall good_kv kvs → Forall (fun kv => match kv with kv_latest x => tighter sd x p | _ => True end) kvs →
  calls (monitor_ticks kvs w1) = calls w1 ∧ ∃ b', trailing b' s (monitor_ticks kvs w1).
Proof.
  intros Ht Hp w1 Hc1 Hall Hno.
  assert (calls w1 ≠ calls w) as Hneq.
  { rewrite Hc1. intros Heq%(f_equal length). rewrite length_app in Heq. cbn in Heq. lia. }
  destruct (tick_shape b s p w _ w1 Ht Hp (surjective_pairing _)) as [[Hc _]|(b' & _ & Hv & [[Hc _]|(Hne & qn & _ & Hm)])];
    [done..|].
  assert (update_best_price sd p (Some b) = p) as Hbest.
  { unfold update_best_price in *. destruct sd; by destruct (dltb _ _). }
  rewrite Hbest in Hv. destruct Hm as [[Hc _]|(ok & Hc & Hm)]; [done|].
  assert (ok = false) as ->. { rewrite Hc in Hc1. apply app_inv_head in Hc1. by injection Hc1. }
  destruct Hm as [Ht1|[[=] _]]. by apply (quiet_ticks kvs p b' s w1).
Qed.
End ticks.

(** ** A concrete run *)
Definition demo_monitor : monitor_args := mkMonitor "bot" "BTCUSDT" buy (100 @ 0) (2 @ 0).
Section demo.
#[local] Existing Instance pg_half_away.

(** Opened at 100, the stop moved to break-even at 101, half of it taken at the
    target. *)
Definition demo_trailing : xworld (Z * list call) :=
  let cl := logged (demo_client (Ok tt)) in
  let w1 := (handle cl "bot" "acct" 3 1000000 accept_all demo_envelope (demo_world (1, []))).2 in
  let w2 := (monitor_tick cl 1 demo_monitor (kv_latest (101 @ 0)) w1).2 in
  (process cl "bot" "acct" 2000000 accept_all (demo_fill "x1" (1 @ 0) 20) w2).2.

Lemma demo_is_trailing : trailing 1 demo_monitor (5 @ (-3)) (101000000000000 @ (-12)) (100100000000000 @ (-12)) demo_trailing.
Proof.
  eexists _, _. split; [vm_compute; reflexivity|]. repeat (split; [vm_compute; reflexivity|]).
  split; [|split; [vm_compute; reflexivity|reflexivity]]. split; [reflexivity|split; [discriminate|reflexivity]].
Qed.
Lemma demo_config : trail_config (5 @ (-3)) (1 @ (-2)).
Proof. split; first [discriminate|reflexivity]. Qed.
Lemma demo_tick stop sym e info e' : ex_get_instrument_info (demo_client stop) sym e = (Ok info, e') → tick_size info = 1 @ (-2).
Proof. by intros [= <- <-]. Qed.
Lemma demo_good n : 0 < n < 1000 → good_price (n @ 0).
Proof. intros Hn. split_and!; [cbn; lia|done|]. unfold dval. cbn. rewrite Qmult_1_r, <- Zlt_Qlt. lia. Qed.

Lemma trailing_stop_ratchets_witness :
  let w := monitor_ticks (demo_client (Ok tt)) 1 demo_monitor [kv_latest (103 @ 0); kv_no_price; kv_latest (102 @ 0); kv_latest (104 @ 0)] demo_trailing in
  ∃ b s, trailing 1 demo_monitor (5 @ (-3)) b s w ∧ tighter buy (100100000000000 @ (-12)) s ∧
    c_stop "BTCUSDT" Full (Some (10348 @ (-2))) None None true ∈ calls w.
Proof.
  cbv zeta. pose proof pg_half_away_exact. pose proof pg_half_away_scale.
  destruct (trailing_stop_ratchets (demo_client (Ok tt)) 1 demo_monitor (5 @ (-3)) (1 @ (-2)) demo_config (demo_tick (Ok tt))
    [kv_latest (103 @ 0); kv_no_price; kv_latest (102 @ 0); kv_latest (104 @ 0)] _ _ demo_trailing demo_is_trailing) as (b & s & Ht & _ & _ & Hs & _).
  - eexists. split; [vm_compute; reflexivity|vm_compute; discriminate].
  - repeat constructor; apply demo_good; lia.
  - exists b, s. split; [exact Ht|]. split; [exact Hs|]. apply list_elem_of_In. vm_compute. tauto.
Defined.

(** Outside that condition the first move of a trailing stop can loosen it: with
    a trail of 3 %, the stop at break-even (100.10) is replaced by 98.94. *)
Definition wide_trail : request_envelope := mkRequestEnvelope "corr" 9 (Some "bot") (Some "7") (Some
  (mkOrderRequest "bot" 7 "BTCUSDT" buy (2 @ 0) 5 (1 @ (-2)) (2 @ (-2)) (5 @ (-1)) (1 @ (-2)) (1 @ (-3)) (3 @ (-2)) em_live [] None None None)).
Lemma first_trail_move_can_loosen :
  let cl := logged (demo_client (Ok tt)) in
  let w1 := (handle cl "bot" "acct" 3 1000000 accept_all wide_trail (demo_world (1, []))).2 in
  let w2 := (monitor_tick cl 1 demo_monitor (kv_latest (101 @ 0)) w1).2 in
  let w3 := (process cl "bot" "acct" 2000000 accept_all (demo_fill "x1" (1 @ 0) 20) w2).2 in
  let w4 := (monitor_tick cl 1 demo_monitor (kv_latest (102 @ 0)) w3).2 in
  drop 4 (calls w4) = [c_stop "BTCUSDT" Full (Some (10010 @ (-2))) None None true; c_stop "BTCUSDT" Full (Some (9894 @ (-2))) None None true].
Proof. vm_compute. reflexivity. Qed.
End demo.
