(* ===== verification/Bus.v ===== *)
(** * The bus: envelope, protocol, NATS client and replay bus

    Models packages/bus/{envelope,protocol,client,replay_bus,errors}.py.
    [bus_ops] is [BusProtocol] as a record of operations over the state of the
    bus; [nats_bus] and [replay_ops] are its two implementations.  The nats-py
    library is the parameter [nats_lib].  [ReplayBus.run_until_empty] is a
    machine that takes one step per iteration of its two loops, because a
    handler may publish, subscribe or close the bus while it is iterated. *)

From S2P Require Import Prelude.
From stdpp Require Export sorting.
From Stdlib Require Import Ascii.
Open Scope Z_scope.

(** ** packages/bus/envelope.py *)
Record MessageEnvelope (P : Type) := mkMessage {
  message_id : Z; correlation_id : string; published_at : Z; publisher : string; payload : P;
}.
Arguments mkMessage {P}. Arguments message_id {P}. Arguments correlation_id {P}.
Arguments published_at {P}. Arguments publisher {P}. Arguments payload {P}.

(** A [datetime]: local microseconds and the offset of its zone, if any. *)
Record datetime := mkDatetime { dt_local : Z; dt_utcoffset : option Z }.
Definition published_at_must_be_utc (value : datetime) : res Z :=
  match dt_utcoffset value with
  | None => Err (ValueError "published_at must be timezone-aware (tzinfo=datetime.UTC)")
  | Some off =>
      if negb (off =? 0) then Err (ValueError "published_at must be in UTC (utcoffset must be zero)")
      else Ok (dt_local value)
  end.

(** ** packages/bus/protocol.py *)
Record bus_ops (B P H : Type) := mkBus {
  bus_publish : string → MessageEnvelope P → ST B unit;
  bus_subscribe : string → H → ST B unit;
  bus_close : ST B unit;
  bus_kv_get : string → string → ST B (option (string * Z));
  bus_kv_put : string → string → string → ST B Z;
  bus_kv_update : string → string → string → Z → ST B Z;
}.
Arguments mkBus {B P H}. Arguments bus_publish {B P H}. Arguments bus_subscribe {B P H}. Arguments bus_close {B P H}.
Arguments bus_kv_get {B P H}. Arguments bus_kv_put {B P H}. Arguments bus_kv_update {B P H}.

(** ** packages/bus/client.py *)
Inductive ConnectionState := DISCONNECTED | CONNECTING | CONNECTED | CLOSING | CLOSED.
#[global] Instance ConnectionState_eq_dec : EqDecision ConnectionState.
Proof. solve_decision. Defined.

(** What the client calls of nats-py; a subscription is an identifier, an
    acknowledgement says whether the server saw a duplicate. *)
Record nats_lib (N P H : Type) := mkNats {
  lib_connect : ST N unit;
  lib_close : ST N unit;
  lib_publish : string → MessageEnvelope P → ST N bool;
  lib_subscribe : string → H → ST N Z;
  lib_drain : Z → ST N unit;
  lib_kv_get : string → string → ST N (option string * option Z);
  lib_kv_put : string → string → string → ST N Z;
  lib_kv_update : string → string → string → Z → ST N Z;
}.
Arguments mkNats {N P H}. Arguments lib_connect {N P H}. Arguments lib_close {N P H}. Arguments lib_publish {N P H}.
Arguments lib_subscribe {N P H}. Arguments lib_drain {N P H}. Arguments lib_kv_get {N P H}. Arguments lib_kv_put {N P H}.
Arguments lib_kv_update {N P H}.

(** [nats.errors.Error] and its subclass [KeyNotFoundError]. *)
Definition is_nats_error (e : exn) : bool :=
  match e with NatsError _ | KeyNotFoundError => true | _ => false end.

Module NatsClient.
Record nats_client (N : Type) := mkNatsClient {
  nc_state : ConnectionState; nc_js : bool; nc_subscriptions : list Z; nc_remote : N;
}.
Arguments mkNatsClient {N}. Arguments nc_state {N}. Arguments nc_js {N}. Arguments nc_subscriptions {N}. Arguments nc_remote {N}.

Section client.
Context {N P H : Type} (lib : nats_lib N P H).
Abbreviation NC := (ST (nats_client N)).

Definition set_state (st : ConnectionState) (c : nats_client N) : nats_client N :=
  mkNatsClient st (nc_js c) (nc_subscriptions c) (nc_remote c).
Definition remote {A} (m : ST N A) : NC A := fun c =>
  let '(r, n) := m (nc_remote c) in (r, mkNatsClient (nc_state c) (nc_js c) (nc_subscriptions c) n).

Definition nats_connect : NC unit :=
  st ← gets nc_state;
  if negb (bool_decide (st = DISCONNECTED)) then throw NotConnected else
  modify (set_state CONNECTING) ;;
  r ← attempt is_exception (remote (lib_connect lib));
  match r with
  | Err e => modify (set_state DISCONNECTED) ;; throw e
  | Ok _ => modify (fun c => mkNatsClient CONNECTED true (nc_subscriptions c) (nc_remote c))
  end.

Fixpoint drain_all (subs : list Z) : NC unit :=
  match subs with
  | [] => mret tt
  | sub :: rest => attempt is_exception (remote (lib_drain lib sub)) ;; drain_all rest
  end.

Definition nats_close : NC unit :=
  st ← gets nc_state;
  if bool_decide (st = DISCONNECTED ∨ st = CLOSED) then mret tt else
  if negb (bool_decide (st = CONNECTED)) then throw NotConnected else
  modify (set_state CLOSING) ;;
  subs ← gets nc_subscriptions;
  drain_all subs ;;
  modify (fun c => mkNatsClient (nc_state c) (nc_js c) [] (nc_remote c)) ;;
  remote (lib_close lib) ;;
  modify (set_state CLOSED).

(** [if self._state is not CONNECTED or self._js is None: raise]. *)
Definition require_connected : NC unit :=
  c ← get_st;
  if negb (bool_decide (nc_state c = CONNECTED)) || negb (nc_js c) then throw NotConnected else mret tt.
(** [except nats.errors.Error as exc: raise wrapped from exc]. *)
Definition wrapping {A} (wrapped : exn) (m : NC A) : NC A :=
  r ← attempt is_nats_error m;
  match r with Ok a => mret a | Err _ => throw wrapped end.

Definition nats_publish (subject : string) (envelope : MessageEnvelope P) : NC unit :=
  require_connected ;;
  wrapping (PublishError subject) (remote (lib_publish lib subject envelope)) ;;
  mret tt.

Definition nats_subscribe (subject : string) (handler : H) : NC unit :=
  require_connected ;;
  sub ← wrapping (SubscribeError subject) (remote (lib_subscribe lib subject handler));
  modify (fun c => mkNatsClient (nc_state c) (nc_js c) (nc_subscriptions c ++ [sub]) (nc_remote c)).

Definition nats_kv_get (bucket key : string) : NC (option (string * Z)) :=
  require_connected ;;
  r ← attempt is_nats_error (remote (lib_kv_get lib bucket key));
  match r with
  | Err KeyNotFoundError => mret None
  | Err _ => throw (PublishError (bucket +:+ "/" +:+ key))
  | Ok (Some value, Some revision) => mret (Some (value, revision))
  | Ok _ => mret None
  end.

Definition nats_kv_update (bucket key value : string) (last_revision : Z) : NC Z :=
  require_connected ;;
  wrapping (PublishError (bucket +:+ "/" +:+ key)) (remote (lib_kv_update lib bucket key value last_revision)).

Definition nats_kv_put (bucket key value : string) : NC Z :=
  require_connected ;;
  wrapping (PublishError (bucket +:+ "/" +:+ key)) (remote (lib_kv_put lib bucket key value)).

Definition nats_bus : bus_ops (nats_client N) P H := {|
  bus_publish := nats_publish; bus_subscribe := nats_subscribe; bus_close := nats_close;
  bus_kv_get := nats_kv_get; bus_kv_put := nats_kv_put; bus_kv_update := nats_kv_update;
|}.
End client.
End NatsClient.

(** ** packages/bus/replay_bus.py *)
Module Replay.

(** [str.split(".")]: [cur] is the token read so far. *)
Fixpoint split_dots (cur s : string) : list string :=
  match s with
  | EmptyString => [cur]
  | String c s' => if Ascii.eqb c "."%char then cur :: split_dots "" s' else split_dots (cur +:+ String c "") s'
  end.
Definition split (s : string) : list string := split_dots "" s.

(** The loop over the pattern's tokens; [sub_tokens] is what is left of the
    subject, so [i >= len(sub_tokens)] is the empty list. *)
Fixpoint match_tokens (pat_tokens sub_tokens : list string) : bool :=
  match pat_tokens with
  | [] => match sub_tokens with [] => true | _ => false end
  | pt :: ps =>
      if (pt =? ">")%string then true
      else match sub_tokens with
           | [] => false
           | t :: ts => if (pt =? "*")%string then match_tokens ps ts
                        else if negb (pt =? t)%string then false else match_tokens ps ts
           end
  end.
Definition subject_matches (pattern subject : string) : bool := match_tokens (split pattern) (split subject).

Section replay.
Context {S P H : Type}.

Record ReplaySubscription := mkSub { subject_pattern : string; handler : H; active : bool }.
(** A heap tuple [(published_at, insertion_seq, subject, envelope)]. *)
Record item := mkItem { it_ts : Z; it_seq : Z; it_subject : string; it_envelope : MessageEnvelope P }.
Record replay_bus := mkReplay {
  heap : list item; subscriptions : list ReplaySubscription; insertion_seq : Z; closed : bool;
}.
Definition empty_bus : replay_bus := mkReplay [] [] 0 false.

Definition publish (subject : string) (envelope : MessageEnvelope P) : ST replay_bus unit :=
  b ← get_st;
  if closed b then throw (RuntimeError "ReplayBus: publish on closed bus") else
  modify (fun b => mkReplay (heap b ++ [mkItem (published_at envelope) (insertion_seq b) subject envelope])
                     (subscriptions b) (insertion_seq b + 1) (closed b)).

Definition subscribe (pattern : string) (h : H) : ST replay_bus unit :=
  b ← get_st;
  if closed b then throw (RuntimeError "ReplayBus: subscribe on closed bus") else
  modify (fun b => mkReplay (heap b) (subscriptions b ++ [mkSub pattern h true]) (insertion_seq b) (closed b)).

Definition close : ST replay_bus unit :=
  b ← get_st;
  if closed b then mret tt else modify (fun b => mkReplay [] [] (insertion_seq b) true).

Definition kv_get (bucket key : string) : ST replay_bus (option (string * Z)) := mret None.
Definition kv_put (bucket key value : string) : ST replay_bus Z :=
  throw (NotImplementedError "ReplayBus.kv_put: KV writes are not supported in replay mode").
Definition kv_update (bucket key value : string) (last_revision : Z) : ST replay_bus Z :=
  throw (NotImplementedError "ReplayBus.kv_update: KV CAS writes are not supported in replay mode").

Definition replay_ops : bus_ops replay_bus P H := {|
  bus_publish := publish; bus_subscribe := subscribe; bus_close := close;
  bus_kv_get := kv_get; bus_kv_put := kv_put; bus_kv_update := kv_update;
|}.

(** The order of heap tuples: timestamp, then insertion number. *)
Definition earlier (x y : item) : Prop := it_ts x < it_ts y ∨ it_ts x = it_ts y ∧ it_seq x <= it_seq y.
#[global] Instance earlier_dec : RelDecision earlier.
Proof. intros x y. unfold earlier. apply _. Defined.

(** [heapq.heappop]: the least tuple and the others. *)
Fixpoint heappop (x : item) (l : list item) : item * list item :=
  match l with
  | [] => (x, [])
  | y :: l' => if decide (earlier x y) then let '(m, r) := heappop x l' in (m, y :: r)
               else let '(m, r) := heappop y l' in (m, x :: r)
  end.

(** Where [run_until_empty] stands: at the head of the loop, in front of the
    [i]-th subscription for a message, or finished. *)
Inductive control :=
| at_loop
| dispatching (it : item) (i : nat)
| finished
| raised (e : exn).

(** The state: control, bus, the handlers' state and the messages popped. *)
Record config := mkConfig { ctl : control; bus : replay_bus; user : S; popped : list item }.

Context (run_handler : H → MessageEnvelope P → ST (replay_bus * S) unit).

Definition run_step (c : config) : config :=
  match ctl c with
  | at_loop =>
      match heap (bus c) with
      | [] => mkConfig finished (bus c) (user c) (popped c)
      | x :: l => let '(m, rest) := heappop x l in
          mkConfig (dispatching m 0) (mkReplay rest (subscriptions (bus c)) (insertion_seq (bus c)) (closed (bus c)))
            (user c) (popped c ++ [m])
      end
  | dispatching it i =>
      match subscriptions (bus c) !! i with
      | None => mkConfig at_loop (bus c) (user c) (popped c)
      | Some sub =>
          if negb (active sub) || negb (subject_matches (subject_pattern sub) (it_subject it))
          then mkConfig (dispatching it (1 + i)) (bus c) (user c) (popped c)
          else let '(r, (b', s')) := run_handler (handler sub) (it_envelope it) (bus c, user c) in
               match r with
               | Err e => if is_exception e then mkConfig (dispatching it (1 + i)) b' s' (popped c)
                          else mkConfig (raised e) b' s' (popped c)
               | Ok _ => mkConfig (dispatching it (1 + i)) b' s' (popped c)
               end
      end
  | finished | raised _ => c
  end.

Fixpoint run_until_empty (fuel : nat) (c : config) : config :=
  match fuel with
  | O => c
  | Datatypes.S k => run_until_empty k (run_step c)
  end.
End replay.
Arguments ReplaySubscription : clear implicits. Arguments item : clear implicits.
Arguments replay_bus : clear implicits. Arguments config : clear implicits.
End Replay.
