(* ===== verification/BusFacts.v ===== *)
(** * The bus: what subjects match, delivery order of the replay bus, the
    life cycle of the NATS client *)

From S2P Require Import Prelude Bus.
From Stdlib Require Import Ascii.
Open Scope Z_scope.

(** ** Subject matching against the documented rules

    NATS matches token by token: [*] stands for one token, a final [>] for one
    or more. *)
Inductive nats_matches : list string → list string → Prop :=
| nm_nil : nats_matches [] []
| nm_token t ps ts : t ≠ "*" → t ≠ ">" → nats_matches ps ts → nats_matches (t :: ps) (t :: ts)
| nm_star t ps ts : nats_matches ps ts → nats_matches ("*" :: ps) (t :: ts)
| nm_tail t ts : nats_matches [">"] (t :: ts).

(** The tail wildcard, if any, is the last token. *)
Definition tail_wildcard_last (pat : list string) : Prop := ∀ pre post, pat = pre ++ ">" :: post → post = [].

Lemma tail_wildcard_last_cons p ps : tail_wildcard_last (p :: ps) → tail_wildcard_last ps.
Proof. intros H pre post ->. by apply (H (p :: pre) post). Qed.

Lemma match_tokens_spec ps : ∀ ts,
  tail_wildcard_last ps →
  Replay.match_tokens ps ts = true ↔ nats_matches ps ts ∨ ∃ pre, ps = pre ++ [">"] ∧ nats_matches pre ts.
Proof.
  induction ps as [|p ps IH]; intros ts Hl; cbn.
  - split; [destruct ts; [left; constructor|done]|]. intros [H|([|? ?] & [=] & _)]. by inversion H.
  - destruct (String.eqb_spec p ">") as [->|Hgt].
    { split; [intros _|done]. pose proof (Hl [] ps eq_refl) as ->.
      destruct ts; [right; exists []; split; [done|constructor]|left; constructor]. }
    destruct ts as [|t ts].
    { split; [done|]. intros [H|(pre & Hpre & H)]; [by inversion H|]. inversion H; subst pre. injection Hpre. done. }
    specialize (IH ts (tail_wildcard_last_cons _ _ Hl)).
    assert ((nats_matches ps ts ∨ ∃ pre, ps = pre ++ [">"] ∧ nats_matches pre ts) → (p = "*" ∨ p = t) →
      nats_matches (p :: ps) (t :: ts) ∨ ∃ pre, p :: ps = pre ++ [">"] ∧ nats_matches pre (t :: ts)) as Hstep.
    { intros HH Hp. assert (∀ q, nats_matches q ts → nats_matches (p :: q) (t :: ts)) as Hc.
      { intros q Hq. destruct (decide (p = "*")) as [->|]; [by constructor|]. destruct Hp as [|<-]; [done|]. by constructor. }
      destruct HH as [H|(pre & -> & H)]; [left; auto|right; exists (p :: pre); auto]. }
    assert ((nats_matches (p :: ps) (t :: ts) ∨ ∃ pre, p :: ps = pre ++ [">"] ∧ nats_matches pre (t :: ts)) →
      (p = "*" ∨ p = t) ∧ (nats_matches ps ts ∨ ∃ pre, ps = pre ++ [">"] ∧ nats_matches pre ts)) as Hinv.
    { intros [H|([|q pre] & Hpre & H)]; [inversion H; subst; eauto; done|by inversion H|].
      injection Hpre as <- ->. inversion H; subst; eauto 6. done. }
    destruct (String.eqb_spec p "*") as [->|Hs]; [rewrite IH; naive_solver|].
    destruct (String.eqb_spec p t) as [->|Ht]; cbn; [rewrite IH; naive_solver|].
    split; [done|]. intros H. destruct (Hinv H) as [[?|?] _]; done.
Qed.

(** Subject matching is the NATS rule, token by token with [*] for one and a
    final [>] for one or more tokens, except that a final [>] also matches no
    token at all. *)
Lemma subject_matches_nats pattern subject :
  tail_wildcard_last (Replay.split pattern) →
  Replay.subject_matches pattern subject = true ↔
  nats_matches (Replay.split pattern) (Replay.split subject) ∨
  ∃ pre, Replay.split pattern = pre ++ [">"] ∧ nats_matches pre (Replay.split subject).
Proof. apply match_tokens_spec. Qed.

(** ** Delivery order *)
Section order.
Context {S P H : Type}.
Abbreviation item := (Replay.item P).

Definition before (x y : item) : Prop :=
  Replay.it_ts x < Replay.it_ts y ∨ Replay.it_ts x = Replay.it_ts y ∧ Replay.it_seq x < Replay.it_seq y.

#[global] Instance before_trans : Transitive before.
Proof. unfold before. intros x y z ? ?. lia. Qed.
#[global] Instance earlier_trans : Transitive (Replay.earlier (P := P)).
Proof. unfold Replay.earlier. intros x y z ? ?. lia. Qed.
#[global] Instance earlier_total : Total (Replay.earlier (P := P)).
Proof. intros x y. unfold Replay.earlier. lia. Qed.

Lemma heappop_spec (x : item) l m rest :
  Replay.heappop x l = (m, rest) → m :: rest ≡ₚ x :: l ∧ ∀ y, y ∈ x :: l → Replay.earlier m y.
Proof.
  revert x m rest. induction l as [|y l IH]; intros x m rest; cbn.
  - intros [= <- <-]. split; [done|]. intros z [->|[]%not_elem_of_nil]%elem_of_cons. right. lia.
  - assert (∀ z w : item, Replay.earlier z z) as Hrefl by (intros; right; lia).
    destruct (decide _) as [Hxy|Hxy].
    + destruct (Replay.heappop x l) as [m0 r0] eqn:E. intros [= <- <-]. apply IH in E as [Hp Hm].
      split; [rewrite Permutation_swap, Hp; apply Permutation_swap|].
      intros z [->|[->|Hz]%elem_of_cons]%elem_of_cons; [apply Hm; by left| |apply Hm; by right].
      etrans; [apply Hm; by left|done].
    + destruct (Replay.heappop y l) as [m0 r0] eqn:E. intros [= <- <-]. apply IH in E as [Hp Hm].
      split; [rewrite Permutation_swap, Hp; done|].
      assert (Replay.earlier y x) by (destruct (total Replay.earlier x y); done).
      intros z [->|Hz]%elem_of_cons; [|by apply Hm]. etrans; [apply Hm; by left|done].
Qed.

(** A bus as [publish] builds it: insertion numbers are those handed out, the
    key is the envelope's time. *)
Definition numbered (l : list item) (n : Z) : Prop :=
  map Replay.it_seq l ≡ₚ seqZ 0 n ∧ 0 <= n ∧ ∀ x, x ∈ l → Replay.it_ts x = published_at (Replay.it_envelope x).

Lemma numbered_seq l n x : numbered l n → x ∈ l → 0 <= Replay.it_seq x < n.
Proof.
  intros (Hp & Hn & _) Hx. assert (Replay.it_seq x ∈ seqZ 0 n) as Hin.
  { rewrite <-Hp. by apply list_elem_of_fmap_2. }
  apply elem_of_seqZ in Hin. lia.
Qed.
Lemma numbered_perm l l' n : l ≡ₚ l' → numbered l n → numbered l' n.
Proof. intros Hp (H1 & Hn & H2). split_and!; [by rewrite <-Hp|done|]. intros x. rewrite <-Hp. apply H2. Qed.
Lemma numbered_distinct l n x y : numbered (x :: l) n → y ∈ l → Replay.it_seq x ≠ Replay.it_seq y.
Proof.
  intros (Hp & _) Hy Heq. assert (NoDup (map Replay.it_seq (x :: l))) as Hnd by (rewrite Hp; apply NoDup_seqZ).
  apply NoDup_cons in Hnd as [Hn _]. apply Hn. rewrite Heq. by apply list_elem_of_fmap_2.
Qed.

(** The handlers publish nothing that lies before the message they handle, and
    touch the heap only through [publish]. *)
Definition causal (run_handler : H → MessageEnvelope P → ST (Replay.replay_bus P H * S) unit) : Prop :=
  ∀ h e b s, ∃ new,
    Replay.heap (run_handler h e (b, s)).2.1 = Replay.heap b ++ new ∧
    Replay.insertion_seq (run_handler h e (b, s)).2.1 = Replay.insertion_seq b + Z.of_nat (length new) ∧
    ∀ k x, new !! k = Some x →
      Replay.it_seq x = Replay.insertion_seq b + Z.of_nat k ∧ published_at e <= Replay.it_ts x ∧
      Replay.it_ts x = published_at (Replay.it_envelope x).

Lemma new_seqs (new : list item) n :
  (∀ k x, new !! k = Some x → Replay.it_seq x = n + Z.of_nat k) → map Replay.it_seq new = seqZ n (Z.of_nat (length new)).
Proof.
  intros Hn. apply list_eq. intros k. rewrite list_lookup_fmap. destruct (new !! k) as [x|] eqn:Ex.
  - cbn. rewrite (Hn _ _ Ex). apply lookup_lt_Some in Ex. symmetry. apply lookup_seqZ. lia.
  - symmetry. apply lookup_seqZ_ge. apply lookup_ge_None in Ex. lia.
Qed.

Lemma numbered_app (l new : list item) n :
  numbered l n →
  (∀ k x, new !! k = Some x → Replay.it_seq x = n + Z.of_nat k ∧ Replay.it_ts x = published_at (Replay.it_envelope x)) →
  numbered (l ++ new) (n + Z.of_nat (length new)).
Proof.
  intros (Hp & Hn & Ht) Hnew. split_and!; [|lia|].
  - rewrite map_app, Hp, (new_seqs new n) by (intros k x Hk; by apply (Hnew k)).
    rewrite seqZ_app by lia. by replace (0 + n) with n by lia.
  - intros x [Hx|[k Hk]%list_elem_of_lookup]%elem_of_app; [auto|by apply (Hnew k)].
Qed.

(** What every configuration of the drain satisfies. *)
Record drain_inv (c : Replay.config S P H) : Prop := {
  di_numbered : numbered (Replay.popped c ++ Replay.heap (Replay.bus c)) (Replay.insertion_seq (Replay.bus c));
  di_sorted : StronglySorted before (Replay.popped c);
  di_ahead : ∀ x y, x ∈ Replay.popped c → y ∈ Replay.heap (Replay.bus c) → before x y;
  di_current : match Replay.ctl c with
               | Replay.dispatching it _ => it ∈ Replay.popped c ∧ ∀ x, x ∈ Replay.popped c → x = it ∨ before x it
               | Replay.finished => Replay.heap (Replay.bus c) = []
               | _ => True
               end;
}.

Lemma StronglySorted_snoc (l : list item) m :
  StronglySorted before l → (∀ x, x ∈ l → before x m) → StronglySorted before (l ++ [m]).
Proof.
  induction l as [|x l IH]; intros Hl Hm; cbn; [repeat constructor|].
  apply StronglySorted_inv in Hl as [Hl Hx]. constructor.
  - apply IH; [done|]. intros y Hy. apply Hm. by right.
  - apply Forall_app. split; [done|]. constructor; [apply Hm; by left|constructor].
Qed.

Context (run_handler : H → MessageEnvelope P → ST (Replay.replay_bus P H * S) unit).

Lemma pop_inv c : drain_inv c → Replay.ctl c = Replay.at_loop → drain_inv (Replay.run_step run_handler c).
Proof.
  intros [Hnum Hs Ha _] Hc. unfold Replay.run_step. rewrite Hc. destruct c as [ct [hp subs n cl] u pp]. cbn in *.
  destruct hp as [|x l]; [by constructor|]. destruct (Replay.heappop x l) as [m rest] eqn:E.
  apply heappop_spec in E as [Hp Hm].
  assert (∀ y, y ∈ pp → before y m) as Hym by (intros y Hy; apply Ha; [done|rewrite <-Hp; by left]).
  assert (∀ y, y ∈ rest → before m y) as Hmy.
  { intros y Hy. assert (Replay.it_seq m ≠ Replay.it_seq y) as Hne.
    { apply (numbered_distinct (pp ++ rest) n); [|apply elem_of_app; by right].
      eapply numbered_perm; [|exact Hnum]. rewrite <-Hp. by rewrite Permutation_middle. }
    assert (y ∈ x :: l) as Hy' by (rewrite <-Hp; by right). specialize (Hm y Hy'). unfold Replay.earlier in Hm.
    unfold before. lia. }
  constructor; cbn.
  - eapply numbered_perm; [|exact Hnum]. by rewrite <-Hp, <-app_assoc.
  - by apply StronglySorted_snoc.
  - intros a b [Ha'|Ha']%elem_of_app Hb.
    + apply Ha; [done|rewrite <-Hp; by right].
    + apply list_elem_of_singleton in Ha' as ->. auto.
  - split; [apply elem_of_app; right; by left|]. intros y [Hy|Hy%list_elem_of_singleton]%elem_of_app; auto.
Qed.

Lemma handler_inv c it i sub b' s' r k :
  causal run_handler → drain_inv c → Replay.ctl c = Replay.dispatching it i →
  run_handler (Replay.handler sub) (Replay.it_envelope it) (Replay.bus c, Replay.user c) = (r, (b', s')) →
  match k with Replay.dispatching it' _ => it' = it | Replay.raised _ => True | _ => False end →
  drain_inv (Replay.mkConfig k b' s' (Replay.popped c)).
Proof.
  intros Hca [Hnum Hs Ha Hcur] Hc Hrun Hk. rewrite Hc in Hcur. destruct Hcur as [Hin Hle].
  destruct (Hca (Replay.handler sub) (Replay.it_envelope it) (Replay.bus c) (Replay.user c)) as (new & Hh & Hq & Hnew).
  rewrite Hrun in Hh, Hq. cbn in Hh, Hq.
  constructor; cbn.
  - rewrite Hh, Hq, app_assoc. apply numbered_app; [done|]. intros j x Hj. destruct (Hnew j x Hj) as (? & _ & ?). done.
  - done.
  - rewrite Hh. intros x y Hx [Hy|[j Hj]%list_elem_of_lookup]%elem_of_app; [by apply Ha|].
    destruct (Hnew j y Hj) as (Hseq & Hts & _).
    assert (before it y) as Hity.
    { assert (it ∈ Replay.popped c ++ Replay.heap (Replay.bus c)) as Hin' by (apply elem_of_app; by left).
      pose proof (numbered_seq _ _ it Hnum Hin'). rewrite <-(proj2 (proj2 Hnum) it Hin') in Hts. unfold before. lia. }
    destruct (Hle x Hx) as [->|?]; [done|]. by etrans.
  - destruct k; try done. by subst.
Qed.

Lemma step_inv c : causal run_handler → drain_inv c → drain_inv (Replay.run_step run_handler c).
Proof.
  intros Hca Hi. destruct (Replay.ctl c) as [|it i| |e] eqn:Hc.
  - by apply pop_inv.
  - unfold Replay.run_step. rewrite Hc. pose proof Hi as [Hnum Hs Ha Hcur]. rewrite Hc in Hcur.
    destruct (_ !! i) as [sub|]; [|by constructor].
    destruct (_ || _); [by constructor|].
    destruct (run_handler _ _ _) as [r [b' s']] eqn:Hr.
    destruct r as [?|e]; [|destruct (is_exception e)]; by eapply handler_inv.
  - unfold Replay.run_step. by rewrite Hc.
  - unfold Replay.run_step. by rewrite Hc.
Qed.

Lemma run_inv fuel : ∀ c, causal run_handler → drain_inv c → drain_inv (Replay.run_until_empty run_handler fuel c).
Proof. induction fuel as [|k IH]; intros c Hca Hi; cbn; [done|]. apply IH; [done|]. by apply step_inv. Qed.

(** With handlers that publish nothing earlier than the message they handle,
    the replay bus delivers in strictly increasing order of time and, at equal
    times, of publication; no message is lost or duplicated at any point of
    the drain, and nothing is left when it finishes. *)
Lemma replay_chronological b s fuel c :
  causal run_handler → numbered (Replay.heap b) (Replay.insertion_seq b) →
  Replay.run_until_empty run_handler fuel (Replay.mkConfig Replay.at_loop b s []) = c →
  StronglySorted before (Replay.popped c) ∧
  map Replay.it_seq (Replay.popped c ++ Replay.heap (Replay.bus c)) ≡ₚ seqZ 0 (Replay.insertion_seq (Replay.bus c)) ∧
  (∀ x y, x ∈ Replay.popped c → y ∈ Replay.heap (Replay.bus c) → before x y) ∧
  (Replay.ctl c = Replay.finished → Replay.heap (Replay.bus c) = []).
Proof.
  intros Hca Hn <-.
  assert (drain_inv (Replay.run_until_empty run_handler fuel (Replay.mkConfig Replay.at_loop b s []))) as [Hnum Hs Ha Hc].
  { apply run_inv; [done|]. constructor; cbn; [done|constructor|by intros ?? ?%not_elem_of_nil|done]. }
  split_and!; [done|apply Hnum|done|]. intros Hf. by rewrite Hf in Hc.
Qed.
End order.

(** ** The drain as a fold over the sorted messages *)
Section fold.
Context {S P H : Type}.

(** Handlers that leave the bus alone. *)
Definition lifted (plain : H → MessageEnvelope P → ST S unit) (h : H) (e : MessageEnvelope P) :
  ST (Replay.replay_bus P H * S) unit := fun '(b, s) => let '(r, s') := plain h e s in (r, (b, s')).
Definition uncancelled (plain : H → MessageEnvelope P → ST S unit) : Prop :=
  ∀ h e s, (plain h e s).1 ≠ Err CancelledError.

(** The reference: every active subscription with a matching pattern handles
    the message, in the order of subscription. *)
Definition deliver_to (plain : H → MessageEnvelope P → ST S unit) (it : Replay.item P) (s : S)
  (sub : Replay.ReplaySubscription H) : S :=
  if Replay.active sub && Replay.subject_matches (Replay.subject_pattern sub) (Replay.it_subject it)
  then (plain (Replay.handler sub) (Replay.it_envelope it) s).2 else s.
Definition deliver_all plain (subs : list (Replay.ReplaySubscription H)) (s : S) (it : Replay.item P) : S :=
  foldl (deliver_to plain it) s subs.

Context (plain : H → MessageEnvelope P → ST S unit).
Abbreviation run := (Replay.run_until_empty (lifted plain)).

Lemma run_add n m c : run (n + m) c = run m (run n c).
Proof. revert c. induction n as [|n IH]; intros c; cbn; [done|]. apply IH. Qed.
Lemma run_finished n b s pp : run n (Replay.mkConfig Replay.finished b s pp) = Replay.mkConfig Replay.finished b s pp.
Proof. induction n as [|n IH]; cbn; [done|]. exact IH. Qed.

Lemma dispatch_run it post : ∀ pre b s pp,
  uncancelled plain → Replay.subscriptions b = pre ++ post →
  run (1 + length post) (Replay.mkConfig (Replay.dispatching it (length pre)) b s pp)
  = Replay.mkConfig Replay.at_loop b (foldl (deliver_to plain it) s post) pp.
Proof.
  induction post as [|sub post IH]; intros pre b s pp Hun Hsub.
  - cbn. rewrite Hsub, app_nil_r, (proj2 (lookup_ge_None pre _)) by lia. done.
  - change (length (sub :: post)) with (1 + length post)%nat. rewrite run_add.
    assert (run 1 (Replay.mkConfig (Replay.dispatching it (length pre)) b s pp)
      = Replay.mkConfig (Replay.dispatching it (length (pre ++ [sub]))) b (deliver_to plain it s sub) pp) as ->.
    { rewrite length_app, Nat.add_comm. cbn. rewrite Hsub, list_lookup_middle by done. unfold deliver_to.
      destruct (Replay.active sub); [|done]. destruct (Replay.subject_matches _ _); [|done]. cbn.
      pose proof (Hun (Replay.handler sub) (Replay.it_envelope it) s) as Hnc.
      destruct (plain _ _ s) as [[?|e] s']; [done|]. cbn in *. by destruct e. }
    apply (IH (pre ++ [sub])); [done|]. by rewrite Hsub, <-app_assoc.
Qed.

Lemma seq_inj (l : list (Replay.item P)) x y :
  NoDup (map Replay.it_seq l) → x ∈ l → y ∈ l → Replay.it_seq x = Replay.it_seq y → x = y.
Proof.
  intros Hnd [i Hi]%list_elem_of_lookup [j Hj]%list_elem_of_lookup Heq.
  assert (i = j) as ->; [|congruence]. eapply (NoDup_lookup (map Replay.it_seq l)); [done| |].
  - by rewrite list_lookup_fmap, Hi.
  - rewrite list_lookup_fmap, Hj. cbn. by rewrite Heq.
Qed.

Lemma pop_is_head (x m : Replay.item P) l rest :
  NoDup (map Replay.it_seq (x :: l)) → Replay.heappop x l = (m, rest) →
  merge_sort Replay.earlier (x :: l) = m :: merge_sort Replay.earlier rest.
Proof.
  intros Hnd [Hp Hm]%heappop_spec. apply (StronglySorted_unique_strong Replay.earlier).
  - intros a b Ha Hb Hab Hba. apply (seq_inj (x :: l)); [done|by rewrite merge_sort_Permutation in Ha|..].
    + rewrite <-Hp. rewrite !elem_of_cons, merge_sort_Permutation in Hb. by rewrite elem_of_cons.
    + unfold Replay.earlier in *. lia.
  - apply StronglySorted_merge_sort; apply _.
  - constructor; [apply StronglySorted_merge_sort; apply _|]. apply Forall_forall. intros y Hy.
    rewrite merge_sort_Permutation in Hy. apply Hm. rewrite <-Hp. by right.
  - rewrite !merge_sort_Permutation. by rewrite Hp.
Qed.

Lemma drain_run n : ∀ b s pp,
  uncancelled plain → NoDup (map Replay.it_seq (Replay.heap b)) → length (Replay.heap b) = n →
  run (n * (2 + length (Replay.subscriptions b))) (Replay.mkConfig Replay.at_loop b s pp)
  = Replay.mkConfig Replay.at_loop (Replay.mkReplay [] (Replay.subscriptions b) (Replay.insertion_seq b) (Replay.closed b))
      (foldl (deliver_all plain (Replay.subscriptions b)) s (merge_sort Replay.earlier (Replay.heap b)))
      (pp ++ merge_sort Replay.earlier (Replay.heap b)).
Proof.
  induction n as [|n IH]; intros b s pp Hun Hnd Hlen; destruct b as [[|x l] subs q cl]; try discriminate Hlen.
  - cbn. by rewrite app_nil_r.
  - cbn [Replay.heap Replay.subscriptions Replay.insertion_seq Replay.closed] in *. destruct (Replay.heappop x l) as [m rest] eqn:E.
    rewrite (pop_is_head x m l rest Hnd E). pose proof (heappop_spec _ _ _ _ E) as [Hp _].
    replace (Datatypes.S n * (2 + length subs))%nat with (1 + ((1 + length subs) + n * (2 + length subs)))%nat by lia.
    rewrite run_add. cbn [Replay.run_until_empty Replay.run_step Replay.ctl Replay.bus Replay.heap]. rewrite E. cbn [Replay.subscriptions Replay.insertion_seq Replay.closed Replay.user Replay.popped].
    rewrite run_add. rewrite (dispatch_run m subs [] (Replay.mkReplay rest subs q cl)) by done. rewrite (IH (Replay.mkReplay rest subs q cl)); cbn.
    + by rewrite <-app_assoc.
    + done.
    + rewrite <-Hp in Hnd. by apply NoDup_cons in Hnd as [_ ?].
    + apply Permutation_length in Hp. cbn in *. lia.
Qed.

(** With handlers that leave the bus alone, [run_until_empty] terminates and
    is the fold of the matching handlers, in order of subscription, over the
    messages sorted by time and publication; a handler that raises stops
    neither the other handlers nor the drain. *)
Lemma drain_is_sorted_fold b s fuel :
  uncancelled plain → numbered (Replay.heap b) (Replay.insertion_seq b) →
  (1 + length (Replay.heap b) * (2 + length (Replay.subscriptions b)) <= fuel)%nat →
  Replay.run_until_empty (lifted plain) fuel (Replay.mkConfig Replay.at_loop b s [])
  = Replay.mkConfig Replay.finished (Replay.mkReplay [] (Replay.subscriptions b) (Replay.insertion_seq b) (Replay.closed b))
      (foldl (deliver_all plain (Replay.subscriptions b)) s (merge_sort Replay.earlier (Replay.heap b)))
      (merge_sort Replay.earlier (Replay.heap b)).
Proof.
  intros Hun Hn Hf. assert (NoDup (map Replay.it_seq (Replay.heap b))) as Hnd.
  { destruct Hn as [Hp _]. rewrite Hp. apply NoDup_seqZ. }
  destruct (Nat.le_exists_sub _ _ Hf) as (k & -> & _).
  rewrite (Nat.add_comm k), (Nat.add_comm 1), <-Nat.add_assoc, run_add, (drain_run (length (Replay.heap b))) by done.
  apply run_finished.
Qed.
End fold.

(** ** A concrete replay *)
Definition demo_message (n t : Z) : MessageEnvelope unit := mkMessage n "c" t "replay" tt.
(** Handler 0 notes the message and publishes a follow-up 5 later, handler 1
    raises. *)
Definition demo_handler (h : Z) (e : MessageEnvelope unit) : ST (Replay.replay_bus unit Z * list Z) unit := fun '(b, l) =>
  if h =? 0 then
    if message_id e <? 10 then
      let '(r, b') := Replay.publish "signals.echo" (demo_message (message_id e + 10) (published_at e + 5)) b in
      (r, (b', l ++ [message_id e]))
    else (Ok tt, (b, l ++ [message_id e]))
  else (Err (ValueError "handler"), (b, l)).
Definition demo_plain (h : Z) (e : MessageEnvelope unit) : ST (list Z) unit := fun l =>
  if h =? 0 then (Ok tt, l ++ [message_id e]) else (Err (ValueError "handler"), l).
Definition demo_bus : Replay.replay_bus unit Z :=
  let m := Replay.subscribe "signals.>" 1 ;; Replay.subscribe "signals.*" 0 ;;
           Replay.publish "signals.a" (demo_message 1 30) ;; Replay.publish "signals.b" (demo_message 2 10) ;;
           Replay.publish "signals.c" (demo_message 3 30) in
  (m Replay.empty_bus).2.

Lemma demo_causal : causal demo_handler.
Proof.
  assert (∀ (b : Replay.replay_bus unit Z) (e : MessageEnvelope unit), ∃ new,
    Replay.heap b = Replay.heap b ++ new ∧ Replay.insertion_seq b = Replay.insertion_seq b + Z.of_nat (length new) ∧
    ∀ k x, new !! k = Some x → Replay.it_seq x = Replay.insertion_seq b + Z.of_nat k ∧ published_at e <= Replay.it_ts x ∧
      Replay.it_ts x = published_at (Replay.it_envelope x)) as Hnone.
  { intros b e. exists []. rewrite app_nil_r. cbn. split_and!; [done|lia|]. intros k x Hk. by rewrite lookup_nil in Hk. }
  intros h e b s. unfold demo_handler. destruct (h =? 0); [|apply Hnone].
  destruct (message_id e <? 10); [|apply Hnone].
  unfold Replay.publish, mbind, st_bind, get_st, modify, throw. destruct (Replay.closed b); [apply Hnone|].
  eexists [_]. cbn. split_and!; [done|done|]. intros [|k] x Hx; [|by rewrite lookup_cons, lookup_nil in Hx].
  injection Hx as <-. cbn. lia.
Qed.

Lemma demo_numbered : numbered (Replay.heap demo_bus) (Replay.insertion_seq demo_bus).
Proof.
  split_and!; [reflexivity|done|]. intros x Hx. vm_compute in Hx.
  repeat (apply elem_of_cons in Hx as [->|Hx]; [reflexivity|]). by apply not_elem_of_nil in Hx.
Qed.

(** ** The NATS client's life cycle *)
Section nats.
Context {N P H : Type} (lib : nats_lib N P H).
Abbreviation client := (NatsClient.nats_client N).

(** The calls a service makes, with the outcomes they had. *)
Inductive nats_step : client → client → Prop :=
| ns_connect c r c' : NatsClient.nats_connect lib c = (r, c') → nats_step c c'
| ns_close c r c' : NatsClient.nats_close lib c = (r, c') → nats_step c c'
| ns_publish c s e r c' : NatsClient.nats_publish lib s e c = (r, c') → nats_step c c'
| ns_subscribe c s h r c' : NatsClient.nats_subscribe lib s h c = (r, c') → nats_step c c'
| ns_kv_get c b k r c' : NatsClient.nats_kv_get lib b k c = (r, c') → nats_step c c'
| ns_kv_put c b k v r c' : NatsClient.nats_kv_put lib b k v c = (r, c') → nats_step c c'
| ns_kv_update c b k v n r c' : NatsClient.nats_kv_update lib b k v n c = (r, c') → nats_step c c'.

(** [DISCONNECTED → CONNECTING → CONNECTED → CLOSING → CLOSED], with the reset
    of a failed connect. *)
Definition stage (st : ConnectionState) : Z :=
  match st with DISCONNECTED => 0 | CONNECTING => 1 | CONNECTED => 2 | CLOSING => 3 | CLOSED => 4 end.

Record client_ok (c : client) : Prop := {
  ok_js : NatsClient.nc_state c = CONNECTED → NatsClient.nc_js c = true;
  ok_subs : NatsClient.nc_subscriptions c ≠ [] → NatsClient.nc_state c = CONNECTED ∨ NatsClient.nc_state c = CLOSING;
}.

Lemma remote_state {A} (m : ST N A) c r c' :
  NatsClient.remote m c = (r, c') →
  NatsClient.nc_state c' = NatsClient.nc_state c ∧ NatsClient.nc_js c' = NatsClient.nc_js c ∧
  NatsClient.nc_subscriptions c' = NatsClient.nc_subscriptions c.
Proof. unfold NatsClient.remote. destruct (m _). by intros [= <- <-]. Qed.

Lemma attempt_remote_state {A} h (m : ST N A) c r c' :
  attempt h (NatsClient.remote m) c = (r, c') →
  NatsClient.nc_state c' = NatsClient.nc_state c ∧ NatsClient.nc_js c' = NatsClient.nc_js c ∧
  NatsClient.nc_subscriptions c' = NatsClient.nc_subscriptions c.
Proof. intros (x & Hx & _)%attempt_inv. by apply remote_state in Hx. Qed.

Lemma require_connected_inv (c : client) r c' :
  NatsClient.require_connected c = (r, c') →
  c' = c ∧ (r = Err NotConnected ∧ (NatsClient.nc_state c ≠ CONNECTED ∨ NatsClient.nc_js c = false) ∨ r = Ok tt ∧ NatsClient.nc_state c = CONNECTED ∧ NatsClient.nc_js c = true).
Proof.
  unfold NatsClient.require_connected. intros H0. st_inv. case_bool_decide; destruct (NatsClient.nc_js _) eqn:?; cbn in H0;
    injection H0 as <- <-; auto.
Qed.

Lemma wrapping_state {A} w (m : ST N A) c r c' :
  NatsClient.wrapping w (NatsClient.remote m) c = (r, c') →
  (NatsClient.nc_state c' = NatsClient.nc_state c ∧ NatsClient.nc_js c' = NatsClient.nc_js c ∧
   NatsClient.nc_subscriptions c' = NatsClient.nc_subscriptions c) ∧
  match (m (NatsClient.nc_remote c)).1 with
  | Ok a => r = Ok a
  | Err e => r = Err (if is_nats_error e then w else e)
  end.
Proof.
  unfold NatsClient.wrapping, attempt, NatsClient.remote, mbind, st_bind. destruct (m _) as [[a|e] n]; cbn.
  - by intros [= <- <-].
  - destruct (is_nats_error e); by intros [= <- <-].
Qed.

Lemma drain_all_state subs : ∀ c r c',
  NatsClient.drain_all lib subs c = (r, c') →
  NatsClient.nc_state c' = NatsClient.nc_state c ∧ NatsClient.nc_js c' = NatsClient.nc_js c ∧
  NatsClient.nc_subscriptions c' = NatsClient.nc_subscriptions c.
Proof.
  induction subs as [|s subs IH]; intros c r c' H0; cbn in H0; st_inv; [done| |by apply attempt_remote_state in E].
  apply attempt_remote_state in E as (? & ? & ?). apply IH in H0 as (? & ? & ?). split_and!; congruence.
Qed.

(** Publishing reaches the server only when connected; every library error
    comes back as [PublishError], any other exception as it is. *)
Lemma publish_outcome c s e r c' :
  client_ok c → NatsClient.nats_publish lib s e c = (r, c') →
  (NatsClient.nc_state c ≠ CONNECTED ∧ r = Err NotConnected ∧ c' = c) ∨
  NatsClient.nc_state c = CONNECTED ∧
  match (lib_publish lib s e (NatsClient.nc_remote c)).1 with
  | Ok _ => r = Ok tt
  | Err x => r = Err (if is_nats_error x then PublishError s else x)
  end.
Proof.
  intros [Hjs _] Hp. unfold NatsClient.nats_publish in Hp. st_inv.
  - apply require_connected_inv in E as [-> [[? _]|(_ & Hc & _)]]; [done|]. apply wrapping_state in E0 as [_ Hw]. right.
    split; [done|]. destruct (lib_publish _ _ _ _) as [[]]; cbn in *; [done|discriminate].
  - subst r. apply require_connected_inv in E as [-> [[? _]|(_ & Hc & _)]]; [done|]. apply wrapping_state in E0 as [_ Hw]. right.
    split; [done|]. destruct (lib_publish _ _ _ _) as [[]]; cbn in *; congruence.
  - subst r. apply require_connected_inv in E as [-> [[He Hno]|(? & _)]]; [|done]. left. split_and!; [|congruence|done].
    intros Hc. destruct Hno as [?|?]; [done|]. rewrite Hjs in *; done.
Qed.

(** An operation that needs a connection: what it does to the life cycle. *)
Lemma guarded_state {A} (m : ST client A) (c : client) r c' :
  (∀ c1 r1 c2, m c1 = (r1, c2) → NatsClient.nc_state c1 = CONNECTED →
     NatsClient.nc_state c2 = CONNECTED ∧ NatsClient.nc_js c2 = NatsClient.nc_js c1) →
  (NatsClient.require_connected ;; m) c = (r, c') →
  c' = c ∨ NatsClient.nc_state c = CONNECTED ∧ NatsClient.nc_state c' = CONNECTED ∧ NatsClient.nc_js c' = true.
Proof.
  intros Hm H0. st_inv; apply require_connected_inv in E as [-> [[? _]|(? & Hs & Hj)]]; try done; [|by left].
  right. apply Hm in H0 as [? Hj']; [|done]. by rewrite Hj', Hj.
Qed.

Lemma kv_get_state c b k r c' :
  NatsClient.nats_kv_get lib b k c = (r, c') →
  c' = c ∨ NatsClient.nc_state c = CONNECTED ∧ NatsClient.nc_state c' = CONNECTED ∧ NatsClient.nc_js c' = true.
Proof.
  apply guarded_state. intros c1 r1 c2 Hm Hc. apply st_bind_cases in Hm as [(x & s1 & Ha & Hm)|(e & Ha & _)];
    apply attempt_remote_state in Ha as (H1 & H2 & _); [|by rewrite H1].
  destruct x as [[[v|] [n|]]|[]]; cbn in Hm; injection Hm as _ <-; by rewrite H1.
Qed.

Lemma subscribe_state c s h r c' :
  NatsClient.nats_subscribe lib s h c = (r, c') →
  c' = c ∨ NatsClient.nc_state c = CONNECTED ∧ NatsClient.nc_state c' = CONNECTED ∧ NatsClient.nc_js c' = true.
Proof.
  apply guarded_state. intros c1 r1 c2 Hm Hc.
  st_inv; apply wrapping_state in E as [(H1 & H2 & _) _]; cbn; by rewrite H1.
Qed.

Lemma wrapped_state {A} w (m : ST N A) c r c' :
  (NatsClient.require_connected ;; NatsClient.wrapping w (NatsClient.remote m)) c = (r, c') →
  c' = c ∨ NatsClient.nc_state c = CONNECTED ∧ NatsClient.nc_state c' = CONNECTED ∧ NatsClient.nc_js c' = true.
Proof. apply guarded_state. intros c1 r1 c2 [(-> & -> & _) _]%wrapping_state Hc. done. Qed.

Lemma publish_state c s e r c' :
  NatsClient.nats_publish lib s e c = (r, c') →
  c' = c ∨ NatsClient.nc_state c = CONNECTED ∧ NatsClient.nc_state c' = CONNECTED ∧ NatsClient.nc_js c' = true.
Proof.
  apply guarded_state. intros c1 r1 c2 Hm Hc.
  st_inv; apply wrapping_state in E as [(H1 & H2 & _) _]; cbn; by rewrite H1.
Qed.

Lemma connect_state c r c' :
  NatsClient.nats_connect lib c = (r, c') →
  (c' = c ∧ NatsClient.nc_state c ≠ DISCONNECTED) ∨
  NatsClient.nc_state c = DISCONNECTED ∧ NatsClient.nc_subscriptions c' = NatsClient.nc_subscriptions c ∧
  (NatsClient.nc_state c' = CONNECTED ∧ NatsClient.nc_js c' = true ∨ NatsClient.nc_state c' = DISCONNECTED ∨
   NatsClient.nc_state c' = CONNECTING).
Proof.
  unfold NatsClient.nats_connect. intros H0. st_inv. case_bool_decide as Hd; cbn [negb] in H0; [|left; by st_inv].
  right. split; [done|]. st_inv.
  - apply attempt_remote_state in E0 as (H1 & H2 & H3). cbn in H1, H2, H3. destruct a0; st_inv; cbn; rewrite ?H3; auto.
  - apply attempt_remote_state in E0 as (H1 & H2 & H3). cbn in H1, H2, H3. rewrite H3. auto.
Qed.

Lemma close_state c r c' :
  NatsClient.nats_close lib c = (r, c') →
  c' = c ∨
  NatsClient.nc_state c = CONNECTED ∧
  (NatsClient.nc_subscriptions c' = [] ∧ (NatsClient.nc_state c' = CLOSED ∨ NatsClient.nc_state c' = CLOSING) ∨
   NatsClient.nc_state c' = CLOSING).
Proof.
  unfold NatsClient.nats_close. intros H0. st_inv. case_bool_decide as Hd; [left; by st_inv|].
  case_bool_decide as Hc; cbn [negb] in H0; [|left; by st_inv]. right. split; [done|]. st_inv.
  all: repeat match goal with
    | E : NatsClient.drain_all _ _ _ = _ |- _ => apply drain_all_state in E as (? & _ & ?)
    | E : NatsClient.remote _ _ = _ |- _ => apply remote_state in E as (? & _ & ?)
    end; cbn in *; first [right; congruence | left; split; [congruence|]; first [left; congruence | right; congruence]].
Qed.

(** The connection only moves forward, from disconnected over connected to
    closed, whatever the library answers; a connected client has its
    JetStream context, subscriptions exist only while connected or closing,
    and a closed client never changes again. *)
Lemma nats_lifecycle c c' :
  client_ok c → nats_step c c' →
  client_ok c' ∧ stage (NatsClient.nc_state c) <= stage (NatsClient.nc_state c') ∧
  (NatsClient.nc_state c = CLOSED → c' = c).
Proof.
  intros Hok Hs.
  assert (c' = c ∨ NatsClient.nc_state c = CONNECTED ∧ NatsClient.nc_state c' = CONNECTED ∧ NatsClient.nc_js c' = true →
    client_ok c' ∧ stage (NatsClient.nc_state c) <= stage (NatsClient.nc_state c') ∧
    (NatsClient.nc_state c = CLOSED → c' = c)) as Hg.
  { intros [->|(H1 & H2 & H3)]; [done|]. rewrite H1, H2. split_and!; [split; auto|done|done]. }
  destruct Hs as [c r c' Hr|c r c' Hr|c s e r c' Hr|c s h r c' Hr|c b k r c' Hr|c b k v r c' Hr|c b k v n r c' Hr].
  - apply connect_state in Hr as [[-> _]|(H1 & H2 & H3)]; [done|]. rewrite H1.
    assert (NatsClient.nc_subscriptions c' = []) as Hnil.
    { rewrite H2. destruct (decide (NatsClient.nc_subscriptions c = [])); [done|]. destruct Hok as [_ Hk]. destruct (Hk n); congruence. }
    split_and!; [|destruct H3 as [[-> _]|[->| ->]]; cbn; lia|done].
    split; [|by rewrite Hnil]. destruct H3 as [[_ ?]|[?|?]]; intros ?; [done|congruence|congruence].
  - apply close_state in Hr as [->|(H1 & H2)]; [done|]. rewrite H1.
    assert (NatsClient.nc_state c' ≠ CONNECTED) by (destruct H2 as [[_ [->| ->]]| ->]; done).
    split_and!; [|destruct H2 as [[_ [->| ->]]| ->]; cbn; lia|done].
    split; [done|]. destruct H2 as [[-> _]|?]; [done|auto].
  - by apply Hg, (publish_state c s e r).
  - by apply Hg, (subscribe_state c s h r).
  - by apply Hg, (kv_get_state c b k r).
  - by eapply Hg, wrapped_state.
  - by eapply Hg, wrapped_state.
Qed.
End nats.
