(* ===== verification/Outbox.v ===== *)
(** * The transactional outbox

    Models packages/outbox/{queries,relay,types}.py and the table of migration
    0016.  The table is a finite map with its serial; [select_pending] is the
    query as written, with the physical order of the scan as the parameter
    [scan], because rows with equal [created_at] come in an order PostgreSQL
    does not promise.  The relay talks to any bus through [bus_ops]; its clock,
    its fresh identifiers and [str(exc)] are parameters too.  Intervals are in
    microseconds.  A batch that is cancelled, or whose connection fails, leaves
    the table as it was but not the bus. *)

From S2P Require Import Prelude Bus.
Open Scope Z_scope.

Section outbox.
Context {P : Type}.

(** ** The table *)
Record outbox_row := mkOutboxRow {
  ob_service : string; ob_subject : string; ob_correlation_id : option string; ob_payload : P;
  ob_created_at : Z; ob_published_at : option Z; ob_attempt_count : Z;
  ob_last_attempt_at : option Z; ob_last_error : option string; ob_failed_at : option Z;
}.
Record outbox := mkOutbox { ob_rows : gmap Z outbox_row; ob_next_id : Z }.
Definition empty_outbox : outbox := mkOutbox ∅ 1.
(** [OutboxEvent]: a row with its id. *)
Definition event : Type := Z * outbox_row.

Definition insert_outbox_event (service subject : string) (corr : option string) (p : P) (created_at : Z) (t : outbox) :
  Z * outbox :=
  (ob_next_id t,
   mkOutbox (<[ob_next_id t := mkOutboxRow service subject corr p created_at None 0 None None None]> (ob_rows t))
     (ob_next_id t + 1)).

(** [least($3 * power(2.0, attempt_count), $4)]. *)
Definition backoff (base cap attempts : Z) : Z := Z.min (base * 2 ^ attempts) cap.

(** The WHERE clause. *)
Definition pending_of (service : string) (r : outbox_row) : bool :=
  (ob_service r =? service)%string &&
  match ob_published_at r with None => true | Some _ => false end &&
  match ob_failed_at r with None => true | Some _ => false end.
Definition due (now base cap : Z) (r : outbox_row) : bool :=
  match ob_last_attempt_at r with
  | None => true
  | Some t => t <=? now - backoff base cap (ob_attempt_count r)
  end.

Definition created_before (x y : event) : Prop := ob_created_at x.2 <= ob_created_at y.2.
#[global] Instance created_before_dec : RelDecision created_before.
Proof. intros x y. unfold created_before. apply _. Defined.

Definition select_pending (scan : outbox → list event) (service : string) (batch_size : nat) (now base cap : Z)
  (t : outbox) : list event :=
  take batch_size (merge_sort created_before
    (filter (fun e : event => pending_of service e.2 && due now base cap e.2) (scan t))).

Definition mark_published (id at_ : Z) (t : outbox) : outbox :=
  mkOutbox (alter (fun r => mkOutboxRow (ob_service r) (ob_subject r) (ob_correlation_id r) (ob_payload r) (ob_created_at r)
    (Some at_) (ob_attempt_count r) (ob_last_attempt_at r) (ob_last_error r) (ob_failed_at r)) id (ob_rows t)) (ob_next_id t).

Definition mark_failed (id last_attempt_at : Z) (err : string) (max_attempts failed_at : Z) (t : outbox) : outbox :=
  mkOutbox (alter (fun r => mkOutboxRow (ob_service r) (ob_subject r) (ob_correlation_id r) (ob_payload r) (ob_created_at r)
    (ob_published_at r) (ob_attempt_count r + 1) (Some last_attempt_at) (Some err)
    (if max_attempts <=? ob_attempt_count r + 1 then Some failed_at else None)) id (ob_rows t)) (ob_next_id t).

(** ** OutboxRelaySettings *)
Record relay_settings := mkRelaySettings {
  poll_interval : Z; batch_size : nat; max_attempts : Z; backoff_base : Z; backoff_cap : Z;
}.
(** The field constraints and [_cap_must_be_at_least_base]. *)
Definition valid_settings (s : relay_settings) : bool :=
  (0 <? poll_interval s) && (0 <? batch_size s)%nat && (1 <=? max_attempts s) && (0 <? backoff_base s) &&
  (0 <? backoff_cap s) && (backoff_base s <=? backoff_cap s).

(** ** The relay *)
Record relay_env (B : Type) := mkRelayEnv {
  env_clock : B → Z * B;
  env_uuid : B → Z * B;
  env_sleep : Z → B → B;
  env_str : exn → string;
}.
Arguments mkRelayEnv {B}. Arguments env_clock {B}. Arguments env_uuid {B}. Arguments env_sleep {B}. Arguments env_str {B}.

Section relay.
Context {B H : Type} (bus : bus_ops B P H) (env : relay_env B) (scan : outbox → list event).
Context (service : string) (cfg : relay_settings).
Abbreviation R := (ST (outbox * B)).

Definition on_table (f : outbox → outbox) : R unit := modify (fun '(t, b) => (f t, b)).
Definition clock : R Z := fun '(t, b) => let '(z, b') := env_clock env b in (Ok z, (t, b')).
Definition uuid4 : R Z := fun '(t, b) => let '(z, b') := env_uuid env b in (Ok z, (t, b')).
Definition on_bus {A} (m : ST B A) : R A := fun '(t, b) => let '(r, b') := m b in (r, (t, b')).

(** The body of the loop over the batch. *)
Definition relay_event (e : event) : R unit :=
  id ← uuid4;
  now ← clock;
  r ← attempt is_exception (on_bus (bus_publish bus (ob_subject e.2)
        (mkMessage id (default "" (ob_correlation_id e.2)) now service (ob_payload e.2))));
  match r with
  | Err exc =>
      failed_now ← clock;
      on_table (mark_failed e.1 failed_now (env_str env exc) (max_attempts cfg) failed_now)
  | Ok _ =>
      at_ ← clock;
      on_table (mark_published e.1 at_)
  end.

Fixpoint relay_events (es : list event) : R unit :=
  match es with
  | [] => mret tt
  | e :: es' => relay_event e ;; relay_events es'
  end.

(** [async with conn.transaction()]: an exception rolls the table back; the bus
    keeps what was published. *)
Definition in_tx {A} (m : R A) : R A := fun '(t, b) =>
  match m (t, b) with
  | (Ok a, w) => (Ok a, w)
  | (Err e, (_, b')) => (Err e, (t, b'))
  end.

Definition run_one_batch : R Z := in_tx (
  now ← clock;
  events ← gets (fun '(t, _) => select_pending scan service (batch_size cfg) now (backoff_base cfg) (backoff_cap cfg) t);
  match events with
  | [] => mret 0
  | _ => relay_events events ;; mret (Z.of_nat (length events))
  end).

(** [n] iterations of the loop of [run], which ends with the first exception. *)
Fixpoint run (n : nat) : R unit :=
  match n with
  | O => mret tt
  | S k =>
      processed ← run_one_batch;
      (if processed =? 0 then modify (fun '(t, b) => (t, env_sleep env (poll_interval cfg) b)) else mret tt) ;;
      run k
  end.
End relay.
End outbox.
Arguments outbox_row : clear implicits. Arguments outbox : clear implicits. Arguments event : clear implicits.
Arguments relay_env : clear implicits.
Arguments mkRelayEnv {B}. Arguments env_clock {B}. Arguments env_uuid {B}. Arguments env_sleep {B}. Arguments env_str {B}.
