(* ===== verification/OutboxFacts.v ===== *)
(** * The outbox: every event is published at least once, and exactly once as
    long as no batch is aborted; a relay with an accepting bus publishes
    every pending event *)

From S2P Require Import Prelude Bus Outbox.
Open Scope Z_scope.

Section facts.
Context {P B H : Type} (bus : bus_ops B P H) (env : relay_env B) (scan : outbox P → list (event P)).
Context (cfg : string → relay_settings).

(** The physical scan returns the rows of the table, in any order. *)
Definition scans : Prop := ∀ t, scan t ≡ₚ map_to_list (ob_rows t).

(** The bus with the record of what it accepted. *)
Abbreviation log := (list (string * MessageEnvelope P)).
Definition logging_bus : bus_ops (B * log) P H := {|
  bus_publish s m := fun '(b, l) =>
    match bus_publish bus s m b with
    | (Ok u, b') => (Ok u, (b', l ++ [(s, m)]))
    | (Err e, b') => (Err e, (b', l))
    end;
  bus_subscribe s h := fun '(b, l) => let '(r, b') := bus_subscribe bus s h b in (r, (b', l));
  bus_close := fun '(b, l) => let '(r, b') := bus_close bus b in (r, (b', l));
  bus_kv_get s k := fun '(b, l) => let '(r, b') := bus_kv_get bus s k b in (r, (b', l));
  bus_kv_put s k v := fun '(b, l) => let '(r, b') := bus_kv_put bus s k v b in (r, (b', l));
  bus_kv_update s k v n := fun '(b, l) => let '(r, b') := bus_kv_update bus s k v n b in (r, (b', l));
|}.
Definition logging_env : relay_env (B * log) := {|
  env_clock := fun '(b, l) => let '(z, b') := env_clock env b in (z, (b', l));
  env_uuid := fun '(b, l) => let '(z, b') := env_uuid env b in (z, (b', l));
  env_sleep us := fun '(b, l) => (env_sleep env us b, l);
  env_str := env_str env;
|}.
Abbreviation world := (outbox P * (B * log))%type.
Abbreviation batch service := (run_one_batch logging_bus logging_env scan service (cfg service)).

(** What a publication says, apart from its identifier and time. *)
Definition content (x : string * MessageEnvelope P) : string * string * string * P :=
  (x.1, publisher x.2, correlation_id x.2, payload x.2).
Definition content_of (r : outbox_row P) : string * string * string * P :=
  (ob_subject r, ob_service r, default "" (ob_correlation_id r), ob_payload r).

Definition is_published (e : event P) : bool := match ob_published_at e.2 with Some _ => true | None => false end.
Definition published_rows (t : outbox P) : list (event P) := filter is_published (map_to_list (ob_rows t)).
Definition published_contents (t : outbox P) : list (string * string * string * P) :=
  map (fun e => content_of e.2) (published_rows t).

(** The type of a row: its attempts are counted up to the maximum of its
    service, where it is marked failed; a published row is not failed. *)
Record row_ok (r : outbox_row P) : Prop := {
  rk_attempts : 0 <= ob_attempt_count r <= max_attempts (cfg (ob_service r));
  rk_failed : ob_failed_at r ≠ None ↔ ob_attempt_count r = max_attempts (cfg (ob_service r));
  rk_last : ob_last_attempt_at r = None ↔ ob_attempt_count r = 0;
  rk_error : ob_last_error r = None ↔ ob_attempt_count r = 0;
  rk_published : ob_published_at r ≠ None → ob_failed_at r = None;
}.
Definition settled (r : outbox_row P) : Prop := ob_published_at r ≠ None ∨ ob_failed_at r ≠ None.

(** One step: a service inserts an event, a relay of a service runs a batch to
    its end or (when [aborts]) into an exception, and anything may happen to
    the bus that accepts nothing of the relays. *)
Inductive outbox_step (aborts : bool) : world → world → Prop :=
| os_insert t b service subject corr p at_ :
    outbox_step aborts (t, b) ((insert_outbox_event service subject corr p at_ t).2, b)
| os_batch w service n w' :
    batch service w = (Ok n, w') → outbox_step aborts w w'
| os_abort w service e w' :
    aborts = true → batch service w = (Err e, w') → outbox_step aborts w w'
| os_bus t b l b' : outbox_step aborts (t, (b, l)) (t, (b', l)).

Record outbox_inv (exact : bool) (w : world) : Prop := {
  oi_rows : ∀ id r, ob_rows w.1 !! id = Some r → row_ok r ∧ id < ob_next_id w.1;
  oi_log : published_contents w.1 ⊆+ map content w.2.2;
  oi_exact : exact = true → published_contents w.1 ≡ₚ map content w.2.2;
}.

(** ** Changing one row *)
Lemma published_insert (m : gmap Z (outbox_row P)) n id r r' :
  m !! id = Some r → ob_published_at r = None →
  published_contents (mkOutbox (<[id := r']> m) n)
  ≡ₚ (if is_published (id, r') then [content_of r'] else []) ++ published_contents (mkOutbox m n).
Proof.
  intros Hr Hn. unfold published_contents, published_rows. cbn [ob_rows].
  rewrite <-(insert_delete_id m id r Hr) at 2. rewrite <-insert_delete_eq.
  rewrite !map_to_list_insert by apply lookup_delete_eq.
  rewrite (filter_cons_False _ (id, r)) by (unfold is_published; cbn; rewrite Hn; intros []).
  destruct (is_published (id, r')) eqn:E.
  - by rewrite filter_cons_True by (by rewrite E).
  - by rewrite filter_cons_False by (rewrite E; intros []).
Qed.

Lemma alter_insert (f : outbox_row P → outbox_row P) (m : gmap Z (outbox_row P)) id r :
  m !! id = Some r → alter f id m = <[id := f r]> m.
Proof. intros Hr. apply map_eq. intros j. destruct (decide (j = id)) as [->|];
  [by rewrite lookup_alter_eq, lookup_insert_eq, Hr|by rewrite lookup_alter_ne, lookup_insert_ne]. Qed.

(** ** One event of a batch *)
Definition pending_row (service : string) (r : outbox_row P) : Prop :=
  ob_service r = service ∧ ob_published_at r = None ∧ ob_failed_at r = None.

Lemma pending_of_spec service r : pending_of service r = true ↔ pending_row service r.
Proof.
  clear cfg.
  unfold pending_of, pending_row. rewrite !andb_true_iff, String.eqb_eq.
  destruct (ob_published_at r), (ob_failed_at r); naive_solver.
Qed.

(** What relaying one event does: the row is published with its content in the
    log, or its attempt is counted, or the exception passes and the bus has
    accepted nothing. *)
Lemma relay_event_cases service e t b l res t' b' l' :
  relay_event logging_bus logging_env service (cfg service) e (t, (b, l)) = (res, (t', (b', l'))) →
  (∃ at_ m, res = Ok tt ∧ t' = mark_published e.1 at_ t ∧ l' = l ++ [(ob_subject e.2, m)] ∧
     content (ob_subject e.2, m) = (ob_subject e.2, service, default "" (ob_correlation_id e.2), ob_payload e.2)) ∨
  (∃ at_ err, res = Ok tt ∧ t' = mark_failed e.1 at_ err (max_attempts (cfg service)) at_ t ∧ l' = l) ∨
  (∃ x, res = Err x ∧ t' = t ∧ l' = l).
Proof.
  unfold relay_event, mbind, st_bind, uuid4, clock, on_bus, attempt, on_table, modify; cbn.
  destruct (env_uuid env b) as [i b1]. destruct (env_clock env b1) as [z b2].
  destruct (bus_publish bus _ _ b2) as [[u|x] b3].
  - destruct (env_clock env b3) as [z' b4]. intros [= <- <- <- <-]. left. eexists _, _. split_and!; done.
  - destruct (is_exception x); [destruct (env_clock env b3) as [z' b4]|]; intros [= <- <- <- <-]; right;
      [left; by eexists _, _|right; by eexists].
Qed.

Lemma mark_other f id j (m : gmap Z (outbox_row P)) : j ≠ id → alter f id m !! j = m !! j.
Proof. intros. by rewrite lookup_alter_ne. Qed.

(** An event of the batch relayed without an exception keeps the invariant and
    touches no other row. *)
Lemma relay_event_inv exact service e t b l t' b' l' :
  outbox_inv exact (t, (b, l)) → ob_rows t !! e.1 = Some e.2 → pending_row service e.2 → 
  relay_event logging_bus logging_env service (cfg service) e (t, (b, l)) = (Ok tt, (t', (b', l'))) →
  outbox_inv exact (t', (b', l')) ∧ ∀ j, j ≠ e.1 → ob_rows t' !! j = ob_rows t !! j.
Proof.
  intros [Hrows Hlog Hex] He (Hs & Hp & Hf) Hev. destruct e as [id r]. cbn in He, Hs, Hp, Hf.
  destruct (Hrows id r He) as [[Ha Hfa Hla Her Hpf] Hid]. cbn in Hid.
  assert (ob_attempt_count r < max_attempts (cfg service)) as Hlt.
  { subst service. destruct (decide (ob_attempt_count r = max_attempts (cfg (ob_service r)))) as [E|]; [|lia].
    by apply Hfa in E. }
  apply relay_event_cases in Hev as [(at_ & m & _ & -> & -> & Hm)|[(at_ & err & _ & -> & ->)|(x & [=] & _)]];
    (split; [|intros; by apply mark_other]).
  - assert (published_contents (mark_published id at_ t) ≡ₚ content (ob_subject r, m) :: published_contents t) as Hpub.
    { unfold mark_published. rewrite (alter_insert _ _ id r He), (published_insert _ _ id r) by done. cbn [is_published].
      cbn in Hm. rewrite Hm. unfold content_of. cbn. subst service. destruct t; done. }
    constructor; cbn.
    + intros j q. destruct (decide (j = id)) as [->|Hne]; [|rewrite mark_other by done; apply Hrows].
      rewrite lookup_alter_eq, He. intros [= <-]. split; [|done]. constructor; cbn; auto.
    + rewrite Hpub, map_app, Permutation_app_comm. cbn. by apply submseteq_skip.
    + intros Hx. rewrite Hpub, map_app, Permutation_app_comm. cbn. by rewrite Hex.
  - assert (published_contents (mark_failed id at_ err (max_attempts (cfg service)) at_ t) ≡ₚ published_contents t) as Hpub.
    { unfold mark_failed. rewrite (alter_insert _ _ id r He), (published_insert _ _ id r) by done.
      unfold is_published. cbn. rewrite Hp. by destruct t. }
    constructor; cbn.
    + intros j q. destruct (decide (j = id)) as [->|Hne]; [|rewrite mark_other by done; apply Hrows].
      rewrite lookup_alter_eq, He. intros [= <-]. split; [|done]. subst service. destruct (Z.leb_spec (max_attempts (cfg (ob_service r))) (ob_attempt_count r + 1));
        constructor; cbn; try done; try lia; split; try done; lia.
    + by rewrite Hpub.
    + intros Hx. rewrite Hpub. auto.
Qed.

(** ** A batch *)
Lemma relay_events_inv exact service es : ∀ t b l t' b' l',
  outbox_inv exact (t, (b, l)) → NoDup es.*1 →
  (∀ e, e ∈ es → ob_rows t !! e.1 = Some e.2 ∧ pending_row service e.2) →
  relay_events logging_bus logging_env service (cfg service) es (t, (b, l)) = (Ok tt, (t', (b', l'))) →
  outbox_inv exact (t', (b', l')) ∧ ∀ j, j ∉ es.*1 → ob_rows t' !! j = ob_rows t !! j.
Proof.
  induction es as [|e es IH]; intros t b l t' b' l' Hi Hnd Hes Hrun; cbn in Hrun.
  - injection Hrun as <- <- <-. done.
  - apply st_bind_ok_inv in Hrun as ([] & [t1 [b1 l1]] & He & Hrun). cbn in Hnd.
    apply NoDup_cons in Hnd as [Hne Hnd]. destruct (Hes e) as [Hrow Hpend]; [by left|].
    destruct (relay_event_inv _ _ _ _ _ _ _ _ _ Hi Hrow Hpend He) as [Hi1 Hother].
    destruct (IH t1 b1 l1 t' b' l' Hi1 Hnd) as [Hi2 Hother2]; [|done|].
    + intros x Hx. rewrite Hother; [apply Hes; by right|]. intros Heq. apply Hne. rewrite <-Heq. by apply list_elem_of_fmap_2.
    + split; [done|]. cbn. intros j Hj. apply not_elem_of_cons in Hj as [? ?]. by rewrite Hother2, Hother.
Qed.

(** The bus only gains by a batch, also by one that raises. *)
Lemma relay_events_log service es : ∀ t b l r t' b' l',
  relay_events logging_bus logging_env service (cfg service) es (t, (b, l)) = (r, (t', (b', l'))) → ∃ k, l' = l ++ k.
Proof.
  induction es as [|e es IH]; intros t b l r t' b' l' Hrun; cbn in Hrun.
  - injection Hrun as <- <- <- <-. exists []. by rewrite app_nil_r.
  - apply st_bind_cases in Hrun as [([] & [t1 [b1 l1]] & He & Hrun)|(x & He & ->)].
    + apply IH in Hrun as [k ->].
      apply relay_event_cases in He as [(? & m & _ & _ & -> & _)|[(? & ? & _ & _ & ->)|(? & _ & _ & ->)]]; [|by eexists..].
      eexists. by rewrite <-app_assoc.
    + apply relay_event_cases in He as [(? & m & _ & _ & -> & _)|[(? & ? & _ & _ & ->)|(? & _ & _ & ->)]];
        [by eexists|exists []; by rewrite app_nil_r..].
Qed.

(** The selected events are rows of the table, pending, each once. *)
Lemma select_pending_rows service n now base cap t :
  scans →
  NoDup (select_pending scan service n now base cap t).*1 ∧
  ∀ e, e ∈ select_pending scan service n now base cap t →
    ob_rows t !! e.1 = Some e.2 ∧ pending_row service e.2 ∧ due now base cap e.2 = true.
Proof.
  intros Hscan. unfold scans in Hscan. unfold select_pending. set (sel := filter _ _).
  assert (∀ e, e ∈ sel → ob_rows t !! e.1 = Some e.2 ∧ pending_row service e.2 ∧ due now base cap e.2 = true) as Hsel.
  { intros [id r] [Hb Hin]%list_elem_of_filter. apply Is_true_true, andb_true_iff in Hb as [Hb1 Hb2].
    rewrite Hscan in Hin. apply elem_of_map_to_list in Hin. split_and!; [done|by apply pending_of_spec|done]. }
  assert (NoDup sel.*1) as Hnd.
  { apply NoDup_fmap_fst.
    - intros x r1 r2 H1%Hsel H2%Hsel. cbn in *. destruct H1 as [H1 _], H2 as [H2 _]. congruence.
    - apply NoDup_filter. rewrite Hscan. apply NoDup_map_to_list. }
  split.
  - rewrite <-(merge_sort_Permutation created_before) in Hnd. rewrite <-(take_drop n (merge_sort _ sel)), fmap_app in Hnd.
    by apply NoDup_app in Hnd as [? _].
  - intros e He. apply Hsel. rewrite <-(merge_sort_Permutation created_before). by eapply elem_of_take in He as (i & Hi & _); eapply list_elem_of_lookup_2.
Qed.

Lemma batch_cases service t b l r t' b' l' :
  batch service (t, (b, l)) = (r, (t', (b', l'))) →
  ∃ now b1 es, env_clock env b = (now, b1) ∧
    es = select_pending scan service (batch_size (cfg service)) now (backoff_base (cfg service)) (backoff_cap (cfg service)) t ∧
    match r with
    | Ok n => n = Z.of_nat (length es) ∧
        relay_events logging_bus logging_env service (cfg service) es (t, (b1, l)) = (Ok tt, (t', (b', l')))
    | Err x => t' = t ∧ ∃ t2, relay_events logging_bus logging_env service (cfg service) es (t, (b1, l)) = (Err x, (t2, (b', l')))
    end.
Proof.
  unfold run_one_batch, in_tx, clock, gets, mbind, st_bind; cbn. destruct (env_clock env b) as [now b1].
  intros Hrun. eexists now, b1, _. split_and!; [done|reflexivity|].
  destruct (select_pending _ _ _ _ _ _ _) as [|e es].
  - injection Hrun as <- <- <- <-. done.
  - revert Hrun. cbn [relay_events length].
    match goal with |- context [?m (t, (b1, l))] => destruct (m (t, (b1, l))) as [[[]|x] [t2 [b3 l3]]] end;
      intros [= <- <- <- <-]; [done|by eauto].
Qed.

(** ** Steps *)
Lemma outbox_step_inv aborts exact w w' :
  scans → (∀ s, valid_settings (cfg s) = true) → (aborts = true → exact = false) →
  outbox_inv exact w → outbox_step aborts w w' →
  outbox_inv exact w' ∧ ∀ id r, ob_rows w.1 !! id = Some r → settled r → ob_rows w'.1 !! id = Some r.
Proof.
  intros Hscan Hcfg Hab Hi Hs.
  destruct Hs as [t b sv subj corr p at_|[t [b l]] sv n [t' [b' l']] Hb|[t [b l]] sv x [t' [b' l']] Ha Hb|t b l b'].
  - destruct Hi as [Hrows Hlog Hex]. cbn in *. assert (ob_rows t !! ob_next_id t = None) as Hnone.
    { destruct (ob_rows t !! ob_next_id t) as [r|] eqn:E; [|done]. apply Hrows in E. lia. }
    assert (published_contents (insert_outbox_event sv subj corr p at_ t).2 ≡ₚ published_contents t) as Hpub.
    { unfold published_contents, published_rows. cbn. rewrite map_to_list_insert by done.
      rewrite filter_cons_False by (intros []). done. }
    split; [constructor; cbn|].
    + intros j q. destruct (decide (j = ob_next_id t)) as [->|Hne].
      * rewrite lookup_insert_eq. intros [= <-]. split; [|lia]. pose proof (Hcfg sv) as Hv. unfold valid_settings in Hv.
        bool_simpl. constructor; cbn; try lia; try done. split; [done|lia].
      * rewrite lookup_insert_ne by done. intros Hq. apply Hrows in Hq as [? ?]. split; [done|lia].
    + by rewrite Hpub.
    + intros Hx. rewrite Hpub. auto.
    + cbn. intros j q Hq _. rewrite lookup_insert_ne; [done|]. intros <-. congruence.
  - apply batch_cases in Hb as (now & b1 & es & _ & -> & _ & Hrun).
    destruct (select_pending_rows sv (batch_size (cfg sv)) now (backoff_base (cfg sv)) (backoff_cap (cfg sv)) t Hscan) as [Hnd Hes].
    set (es := select_pending _ _ _ _ _ _ _) in *.
    assert (outbox_inv exact (t, (b1, l))) as Hi1 by (by destruct Hi).
    destruct (relay_events_inv exact sv es t b1 l t' b' l' Hi1 Hnd) as [Hi2 Hother]; [|done|].
    { intros e He. destruct (Hes e He) as (? & ? & _). done. }
    split; [done|]. cbn. intros id r Hr Hset. rewrite Hother; [done|].
    intros (e & -> & He)%list_elem_of_fmap. destruct (Hes e He) as (Hrow & (_ & Hp & Hf) & _).
    assert (e.2 = r) as <- by congruence. destruct Hset; done.
  - apply batch_cases in Hb as (now & b1 & es & _ & _ & -> & t2 & Hrun). apply relay_events_log in Hrun as [k ->].
    destruct Hi as [Hrows Hlog Hex]. cbn in *. split; [|done]. constructor; cbn; [done| |].
    + rewrite map_app. etrans; [exact Hlog|]. by apply submseteq_inserts_r.
    + rewrite (Hab Ha). done.
  - split; [|done]. by destruct Hi.
Qed.

Lemma reachable_inv aborts exact w w' :
  scans → (∀ s, valid_settings (cfg s) = true) → (aborts = true → exact = false) →
  outbox_inv exact w → rtc (outbox_step aborts) w w' →
  outbox_inv exact w' ∧ ∀ id r, ob_rows w.1 !! id = Some r → settled r → ob_rows w'.1 !! id = Some r.
Proof.
  intros Hscan Hcfg Hab Hi Hr. induction Hr as [w|w w1 w' Hs Hr IH]; [done|].
  destruct (outbox_step_inv aborts exact w w1 Hscan Hcfg Hab Hi Hs) as [Hi1 Hset1]. destruct (IH Hi1) as [Hi2 Hset2]. eauto.
Qed.

Lemma empty_inv exact b : outbox_inv exact (empty_outbox, (b, [])).
Proof. constructor; cbn; [|reflexivity|reflexivity]. intros id r Hr. by rewrite lookup_empty in Hr. Qed.

(** C6: in every reachable state of the outbox the published rows are among what
    the bus accepted, content by content and with multiplicity; as long as no
    batch is aborted, the bus accepted exactly the published rows. *)
Theorem outbox_delivery aborts b t b' l :
  scans → (∀ s, valid_settings (cfg s) = true) →
  rtc (outbox_step aborts) (empty_outbox, (b, [])) (t, (b', l)) →
  published_contents t ⊆+ map content l ∧ (aborts = false → published_contents t ≡ₚ map content l).
Proof.
  intros Hscan Hcfg Hr. split.
  - destruct (reachable_inv aborts false _ _ Hscan Hcfg ltac:(done) (empty_inv false b) Hr) as [[_ Hl _] _]. exact Hl.
  - intros ->. destruct (reachable_inv false true _ _ Hscan Hcfg ltac:(done) (empty_inv true b) Hr) as [[_ _ Hx] _]. by apply Hx.
Qed.

(** Every row of a reachable outbox is well-formed: attempts between zero
    and the maximum, failed exactly at the maximum, attempt time and error
    present exactly after an attempt, never both published and failed; and a
    published or failed row is never changed again. *)
Lemma outbox_rows_typed aborts b w w' id r :
  scans → (∀ s, valid_settings (cfg s) = true) →
  rtc (outbox_step aborts) (empty_outbox, (b, [])) w → rtc (outbox_step aborts) w w' →
  ob_rows w.1 !! id = Some r →
  row_ok r ∧ (settled r → ob_rows w'.1 !! id = Some r).
Proof.
  intros Hscan Hcfg Hw Hw' Hr.
  destruct (reachable_inv aborts false _ _ Hscan Hcfg ltac:(done) (empty_inv false b) Hw) as [Hi _].
  split; [by apply (oi_rows _ _ Hi id)|].
  destruct (reachable_inv aborts false _ _ Hscan Hcfg ltac:(done) Hi Hw') as [_ Hset]. by apply Hset.
Qed.
End facts.

(** ** Progress with an accepting bus *)
Section live.
Context {P B H : Type} (bus : bus_ops B P H) (env : relay_env B) (scan : outbox P → list (event P)).
Context (service : string) (cfg : relay_settings).

(** The bus accepts every publication, time does not run backwards and sleeping
    takes its time. *)
Record accepting (time : B → Z) : Prop := {
  acc_clock : ∀ b, time b <= (env_clock env b).1 ∧ (env_clock env b).1 <= time (env_clock env b).2;
  acc_uuid : ∀ b, time b <= time (env_uuid env b).2;
  acc_publish : ∀ s m b, (bus_publish bus s m b).1 = Ok tt ∧ time b <= time (bus_publish bus s m b).2;
  acc_sleep : ∀ us b, time b + us <= time (env_sleep env us b);
}.

Definition published_as (at_ : Z) (r : outbox_row P) : outbox_row P :=
  mkOutboxRow (ob_service r) (ob_subject r) (ob_correlation_id r) (ob_payload r) (ob_created_at r)
    (Some at_) (ob_attempt_count r) (ob_last_attempt_at r) (ob_last_error r) (ob_failed_at r).

(** From [t] to [t'] nothing changed but that pending rows were published. *)
Definition advances (t t' : outbox P) : Prop := ∀ id,
  ob_rows t' !! id = ob_rows t !! id ∨
  ∃ r at_, ob_rows t !! id = Some r ∧ pending_row service r ∧ ob_rows t' !! id = Some (published_as at_ r).

Lemma advances_trans t1 t2 t3 : advances t1 t2 → advances t2 t3 → advances t1 t3.
Proof.
  intros H12 H23 id. destruct (H12 id) as [E|(r & a & Hr & Hp & Hr')], (H23 id) as [E'|(r' & a' & Hq & Hp' & Hq')].
  - left. congruence.
  - right. exists r', a'. split_and!; congruence.
  - right. exists r, a. split_and!; congruence.
  - exfalso. assert (r' = published_as a r) as -> by congruence. by destruct Hp' as (_ & [=] & _).
Qed.

Context (time : B → Z) (Hacc : accepting time).

Lemma relay_event_accepted e t b :
  ∃ at_ b', relay_event bus env service cfg e (t, b) = (Ok tt, (mark_published e.1 at_ t, b')) ∧ time b <= time b'.
Proof.
  destruct Hacc as [Hc Hu Hp _].
  unfold relay_event, mbind, st_bind, uuid4, clock, on_bus, attempt, on_table, modify; cbn.
  specialize (Hu b). destruct (env_uuid env b) as [i b1]. pose proof (Hc b1) as H1. destruct (env_clock env b1) as [z b2]. cbn in *.
  destruct (Hp (ob_subject e.2) (mkMessage i (default "" (ob_correlation_id e.2)) z service (ob_payload e.2)) b2) as [Hok Ht].
  destruct (bus_publish _ _ _ b2) as [? b3]. cbn in *. subst. pose proof (Hc b3) as H3.
  destruct (env_clock env b3) as [z' b4]. cbn in *. eexists _, _. split; [done|]. lia.
Qed.

Lemma relay_events_accepted es : ∀ t b,
  NoDup es.*1 → (∀ e, e ∈ es → ob_rows t !! e.1 = Some e.2 ∧ pending_row service e.2) →
  ∃ t' b', relay_events bus env service cfg es (t, b) = (Ok tt, (t', b')) ∧ time b <= time b' ∧ advances t t' ∧
    ∀ e, e ∈ es → ∃ at_, ob_rows t' !! e.1 = Some (published_as at_ e.2).
Proof.
  induction es as [|e es IH]; intros t b Hnd Hes; cbn.
  { eexists _, _. split_and!; [done|lia|by left|]. by intros ? ?%not_elem_of_nil. }
  apply NoDup_cons in Hnd as [Hne Hnd]. destruct (relay_event_accepted e t b) as (a & b1 & He & Ht).
  destruct (Hes e) as [Hrow Hpend]; [by left|].
  assert (advances t (mark_published e.1 a t)) as Hadv.
  { intros id. cbn. destruct (decide (id = e.1)) as [->|]; [|left; by rewrite lookup_alter_ne].
    right. exists e.2, a. split_and!; [done|apply Hpend..|]. by rewrite lookup_alter_eq, Hrow. }
  destruct (IH (mark_published e.1 a t) b1 Hnd) as (t' & b' & Hrun & Ht' & Hadv' & Hall).
  { intros x Hx. cbn. rewrite lookup_alter_ne; [apply Hes; by right|]. intros Heq. apply Hne. rewrite Heq.
    by apply list_elem_of_fmap_2. }
  exists t', b'. split_and!; [|lia|by eapply advances_trans|].
  - erewrite st_bind_run by exact He. exact Hrun.
  - intros x [->|Hx]%elem_of_cons; [|by apply Hall]. exists a.
    destruct (Hadv' e.1) as [E|(r & a' & Hr & (_ & Hp & _) & _)]; cbn in *; rewrite lookup_alter_eq, Hrow in *; [done|].
    injection Hr as <-. done.
Qed.

(** The ids of the pending events of the service. *)
Definition pend (t : outbox P) : gset Z := dom (filter (fun kv => pending_of service kv.2 = true) (ob_rows t)).

Lemma elem_of_pend t id : id ∈ pend t ↔ ∃ r, ob_rows t !! id = Some r ∧ pending_row service r.
Proof.
  unfold pend. rewrite elem_of_dom. unfold is_Some. setoid_rewrite map_lookup_filter_Some.
  by setoid_rewrite pending_of_spec.
Qed.

Lemma advances_pend t t' : advances t t' → pend t' ⊆ pend t.
Proof.
  intros Hadv id. rewrite !elem_of_pend. intros (r & Hr & Hp). destruct (Hadv id) as [E|(q & a & Hq & Hpq & Hq')].
  - exists r. by rewrite <-E.
  - eauto.
Qed.

Lemma batch_accepted t b :
  scans scan → (0 < batch_size cfg)%nat →
  ∃ n t' b', run_one_batch bus env scan service cfg (t, b) = (Ok n, (t', b')) ∧ time b <= time b' ∧ advances t t' ∧
    (n = 0 → t' = t ∧ ∃ now, time b <= now ∧ ∀ id r, ob_rows t !! id = Some r → pending_row service r →
       due now (backoff_base cfg) (backoff_cap cfg) r = false) ∧
    (n ≠ 0 → pend t' ⊂ pend t).
Proof.
  intros Hscan Hbs. pose proof (acc_clock _ Hacc b) as Hc.
  unfold run_one_batch, in_tx, clock, gets, mbind, st_bind; cbn. destruct (env_clock env b) as [now b1]. cbn in Hc.
  destruct (select_pending_rows scan service (batch_size cfg) now (backoff_base cfg) (backoff_cap cfg) t Hscan) as [Hnd Hes].
  destruct (select_pending _ _ _ _ _ _ _) as [|e es] eqn:Esel.
  - exists 0, t, b1. cbn. split_and!; [done|lia|by left| |done]. intros _. split; [done|]. exists now. split; [lia|].
    intros id r Hr Hp. unfold select_pending in Esel. destruct (due _ _ _ r) eqn:Ed; [exfalso|done].
    destruct (batch_size cfg) as [|k]; [lia|]. destruct (merge_sort _ _) as [|x l] eqn:Em; [|discriminate].
    pose proof (merge_sort_Permutation created_before (filter (fun e : event P => pending_of service e.2 && due now (backoff_base cfg) (backoff_cap cfg) e.2) (scan t))) as Hperm.
    rewrite Em in Hperm. apply Permutation_nil_l in Hperm.
    assert ((id, r) ∈ filter (fun e : event P => pending_of service e.2 && due now (backoff_base cfg) (backoff_cap cfg) e.2) (scan t)) as Hin.
    { apply list_elem_of_filter. split; [|rewrite (Hscan t); by apply elem_of_map_to_list].
      cbn. rewrite Ed, (proj2 (pending_of_spec service r) Hp). done. }
    rewrite <-Hperm in Hin. by apply not_elem_of_nil in Hin.
  - destruct (relay_events_accepted (e :: es) t b1 Hnd) as (t' & b' & Hrun & Ht & Hadv & Hall).
    { intros x Hx. destruct (Hes x Hx) as (? & ? & _). done. }
    exists (Z.of_nat (length (e :: es))), t', b'. rewrite Hrun. split_and!; [done|lia|done|done|]. intros _.
    assert (e.1 ∈ pend t) as Hin. { apply elem_of_pend. exists e.2. destruct (Hes e) as (? & ? & _); [by left|done]. }
    split; [by apply advances_pend|]. intros Hsub. apply Hsub, elem_of_pend in Hin as (r & Hr & _ & Hp & _).
    destruct (Hall e) as [a Ha]; [by left|]. rewrite Ha in Hr. injection Hr as <-. done.
Qed.

(** Once [horizon] has passed, every pending event is due. *)
Definition bounded_by (horizon : Z) (t : outbox P) : Prop := ∀ id r u,
  ob_rows t !! id = Some r → ob_last_attempt_at r = Some u → u + backoff_cap cfg <= horizon.

Lemma horizon_exists t : ∃ h, bounded_by h t.
Proof.
  destruct t as [m n]. unfold bounded_by. cbn. induction m as [|i x m Hi IH] using map_ind.
  { exists 0. intros id r u Hr. by rewrite lookup_empty in Hr. }
  destruct IH as [h Hh]. exists (Z.max h (default 0 (ob_last_attempt_at x) + backoff_cap cfg)).
  intros id r u. destruct (decide (id = i)) as [->|].
  - rewrite lookup_insert_eq. intros [= ->] ->. cbn. lia.
  - rewrite lookup_insert_ne by done. intros H1 H2. specialize (Hh _ _ _ H1 H2). lia.
Qed.

Lemma advances_bounded h t t' : advances t t' → bounded_by h t → bounded_by h t'.
Proof.
  intros Hadv Hb id r u Hr Hu. destruct (Hadv id) as [E|(q & a & Hq & _ & Hq')].
  - apply (Hb id r u); [congruence|done].
  - assert (r = published_as a q) as -> by congruence. by apply (Hb id q u).
Qed.

Lemma run_publishes m : ∀ h t b,
  scans scan → valid_settings cfg = true → bounded_by h t →
  (size (pend t) + Z.to_nat (h - time b) <= m)%nat →
  ∃ t' b', run bus env scan service cfg m (t, b) = (Ok tt, (t', b')) ∧ advances t t' ∧ pend t' = ∅.
Proof.
  induction m as [|m IH]; intros h t b Hscan Hv Hb Hm.
  { exists t, b. split_and!; [done|by left|]. apply leibniz_equiv, size_empty_inv. lia. }
  pose proof Hv as Hv'. unfold valid_settings in Hv'. bool_simpl.
  match goal with H : (0 <? batch_size cfg)%nat = true |- _ => apply Nat.ltb_lt in H end.
  destruct (batch_accepted t b Hscan) as (n & t1 & b1 & Hrun & Ht & Hadv & Hzero & Hpos); [done|].
  cbn [run]. erewrite st_bind_run by exact Hrun. destruct (Z.eqb_spec n 0) as [->|Hn].
  - destruct (Hzero eq_refl) as [-> (now & Hnow & Hnodue)].
    destruct (IH h t (env_sleep env (poll_interval cfg) b1)) as (t' & b' & Hr & Ha & He); [done|done|done| |].
    + pose proof (acc_sleep _ Hacc (poll_interval cfg) b1) as Hsl. destruct (decide (pend t = ∅)) as [->|Hne].
      * rewrite size_empty in *. lia.
      * assert (time b < h) as Hlt; [|lia]. apply set_choose_L in Hne as [id (r & Hr & Hp)%elem_of_pend].
        pose proof (Hnodue id r Hr Hp) as Hd. unfold due, backoff in Hd.
        destruct (ob_last_attempt_at r) as [u|] eqn:Eu; [|done]. specialize (Hb id r u Hr Eu). bool_simpl. lia.
    + exists t', b'. done.
  - destruct (IH h t1 b1) as (t' & b' & Hr & Ha & He); [done|done|by eapply advances_bounded| |].
    + specialize (Hpos Hn). apply subset_size in Hpos. lia.
    + exists t', b'. split_and!; [done|by eapply advances_trans|done].
Qed.
End live.

(** Enough batches publish what is pending, whatever is added up to. *)
Lemma enough_batches {P B H} (bus : bus_ops B P H) env scan service cfg time t b :
  scans scan → valid_settings cfg = true → accepting bus env time →
  ∃ n, ∀ m, (n <= m)%nat → ∃ t' b',
    run bus env scan service cfg m (t, b) = (Ok tt, (t', b')) ∧ advances service t t' ∧ pend service t' = ∅.
Proof.
  intros Hscan Hv Hacc. destruct (horizon_exists cfg t) as [h Hh].
  exists (size (pend service t) + Z.to_nat (h - time b))%nat. intros m Hm.
  by apply (run_publishes bus env scan service cfg time Hacc m h t b Hscan Hv Hh Hm).
Qed.

Lemma advanced_row {P} service (t t' : outbox P) id r :
  advances service t t' → pend service t' = ∅ → ob_rows t !! id = Some r →
  if pending_of service r then ∃ at_, ob_rows t' !! id = Some (published_as at_ r) else ob_rows t' !! id = Some r.
Proof.
  intros Hadv He Hr. destruct (Hadv id) as [E|(q & a & Hq & Hp & Hq')].
  - destruct (pending_of service r) eqn:Ep; [|congruence]. apply pending_of_spec in Ep.
    assert (id ∈ pend service t') as Hin by (apply elem_of_pend; exists r; by rewrite E). rewrite He in Hin. by apply not_elem_of_empty in Hin.
  - assert (q = r) as -> by congruence. rewrite (proj2 (pending_of_spec service r) Hp). by exists a.
Qed.

(** With a bus that accepts and time that passes, the relay publishes every
    pending event of its service, those in backoff included, after finitely
    many batches, none of which raises; no other row changes. *)
Lemma relay_publishes_pending {P B H} (bus : bus_ops B P H) env scan service cfg time t b :
  scans scan → valid_settings cfg = true → accepting bus env time →
  ∃ n, ∀ m, (n <= m)%nat → ∃ t' b',
    run bus env scan service cfg m (t, b) = (Ok tt, (t', b')) ∧
    ∀ id r, ob_rows t !! id = Some r →
      if pending_of service r then ∃ at_, ob_rows t' !! id = Some (published_as at_ r) else ob_rows t' !! id = Some r.
Proof.
  intros Hscan Hv Hacc. destruct (enough_batches bus env scan service cfg time t b Hscan Hv Hacc) as [n Hn].
  exists n. intros m Hm. destruct (Hn m Hm) as (t' & b' & Hrun & Hadv & He). exists t', b'. split; [done|].
  intros id r Hr. by apply (advanced_row service t t').
Qed.

(** ** What a run puts on the bus *)
Section delivered.
Context {P B H : Type} (bus : bus_ops B P H) (env : relay_env B) (scan : outbox P → list (event P)).
Context (service : string) (cfg : relay_settings).

Lemma accepting_logged time : accepting bus env time → accepting (logging_bus bus) (logging_env env) (fun x => time x.1).
Proof.
  intros [Hc Hu Hp Hs]. constructor.
  - intros [b l]. cbn. specialize (Hc b). by destruct (env_clock env b).
  - intros [b l]. cbn. specialize (Hu b). by destruct (env_uuid env b).
  - intros s m [b l]. cbn. specialize (Hp s m b). destruct (bus_publish bus s m b) as [r b']. cbn in *. destruct Hp as [-> Hp]. done.
  - intros us [b l]. apply Hs.
Qed.

(** The rows stay, with their content, and what is newly marked published was
    accepted by the bus in the meantime. *)
Definition relayed (t : outbox P) (l : list (string * MessageEnvelope P)) (t' : outbox P) (l' : list (string * MessageEnvelope P)) : Prop :=
  ∃ k, l' = l ++ k ∧ ∀ id, match ob_rows t !! id, ob_rows t' !! id with
    | None, None => True
    | Some r, Some r' => content_of r' = content_of r ∧ (ob_published_at r' = ob_published_at r ∨ content_of r ∈ map content k)
    | _, _ => False
    end.

Lemma relayed_refl t l : relayed t l t l.
Proof. exists []. rewrite app_nil_r. split; [done|]. intros id. destruct (ob_rows t !! id); auto. Qed.
Lemma relayed_trans t1 l1 t2 l2 t3 l3 : relayed t1 l1 t2 l2 → relayed t2 l2 t3 l3 → relayed t1 l1 t3 l3.
Proof.
  intros (k & -> & H12) (k' & -> & H23). exists (k ++ k'). split; [by rewrite app_assoc|]. intros id.
  specialize (H12 id). specialize (H23 id).
  destruct (ob_rows t1 !! id) as [r1|], (ob_rows t2 !! id) as [r2|], (ob_rows t3 !! id) as [r3|]; try done.
  destruct H12 as [E1 H12], H23 as [E2 H23]. split; [congruence|]. rewrite map_app, elem_of_app. rewrite E1 in H23.
  destruct H12 as [H12|H12], H23 as [H23|H23]; auto. left. congruence.
Qed.

(** The event stands for a row of the table. *)
Definition current (t : outbox P) (e : event P) : Prop :=
  ob_service e.2 = service ∧ ∃ r, ob_rows t !! e.1 = Some r ∧ content_of r = content_of e.2.

Lemma current_relayed t l t' l' e : relayed t l t' l' → current t e → current t' e.
Proof.
  intros (k & _ & Hk) [Hs (r & Hr & Hc)]. split; [done|]. specialize (Hk e.1). rewrite Hr in Hk.
  destruct (ob_rows t' !! e.1) as [r'|]; [|done]. exists r'. split; [done|]. destruct Hk. congruence.
Qed.

Lemma relay_event_relayed e t b l u t' b' l' :
  current t e → relay_event (logging_bus bus) (logging_env env) service cfg e (t, (b, l)) = (Ok u, (t', (b', l'))) → relayed t l t' l'.
Proof.
  intros [Hs (r & Hr & Hc)] E.
  apply (relay_event_cases bus env (fun _ => cfg)) in E as [(at_ & m & _ & -> & -> & Hm)|[(at_ & err & _ & -> & ->)|(x & [=] & _)]].
  - eexists. split; [reflexivity|]. intros id. cbn. destruct (decide (id = e.1)) as [->|Hne].
    + rewrite lookup_alter_eq, Hr. cbn. split; [done|]. right. rewrite Hm, Hc. unfold content_of. rewrite Hs. by apply list_elem_of_singleton.
    + rewrite lookup_alter_ne by done. destruct (ob_rows t !! id); auto.
  - exists []. rewrite app_nil_r. split; [done|]. intros id. cbn. destruct (decide (id = e.1)) as [->|Hne].
    + rewrite lookup_alter_eq, Hr. cbn. auto.
    + rewrite lookup_alter_ne by done. destruct (ob_rows t !! id); auto.
Qed.

Lemma relay_events_relayed es : ∀ t b l u t' b' l',
  Forall (current t) es → relay_events (logging_bus bus) (logging_env env) service cfg es (t, (b, l)) = (Ok u, (t', (b', l'))) → relayed t l t' l'.
Proof.
  induction es as [|e es IH]; intros t b l u t' b' l' Hes E; cbn in E.
  { injection E as _ <- _ <-. apply relayed_refl. }
  apply Forall_cons in Hes as [He Hes]. apply st_bind_ok_inv in E as (v & [t1 [b1 l1]] & E1 & E).
  apply relay_event_relayed in E1; [|done]. eapply relayed_trans; [exact E1|]. eapply IH; [|exact E].
  eapply Forall_impl; [exact Hes|]. intros x Hx. by eapply current_relayed.
Qed.

Lemma run_relayed m : scans scan → ∀ t b l u t' b' l',
  run (logging_bus bus) (logging_env env) scan service cfg m (t, (b, l)) = (Ok u, (t', (b', l'))) → relayed t l t' l'.
Proof.
  intros Hscan. induction m as [|m IH]; intros t b l u t' b' l' E; cbn [run] in E.
  { injection E as _ <- _ <-. apply relayed_refl. }
  apply st_bind_ok_inv in E as (n & [t1 [b1 l1]] & E1 & E).
  apply (batch_cases bus env scan (fun _ => cfg)) in E1 as (now & b2 & es & _ & -> & _ & Hrun).
  destruct (select_pending_rows scan service (batch_size cfg) now (backoff_base cfg) (backoff_cap cfg) t Hscan) as [_ Hes].
  eapply relayed_trans; [eapply relay_events_relayed; [|exact Hrun]|].
  - apply Forall_forall. intros e He. destruct (Hes e He) as (Hr & (Hs & _) & _). split; [done|eauto].
  - apply st_bind_ok_inv in E as (v & [t3 [b3 l3]] & E2 & E).
    assert (t3 = t1 ∧ l3 = l1) as [-> ->] by (destruct (n =? 0); by injection E2 as _ <- _ <-). by eapply IH.
Qed.
End delivered.

(** The order of the outbox is not kept across failures: when the first of
    two events of a batch is refused, the second is published all the same,
    ahead of the first, which stays pending until its backoff has passed. *)
Lemma refused_event_is_overtaken {P B H} (bus : bus_ops B P H) env scan service cfg t b l e1 e2 :
  let now := (env_clock env b).1 in
  e1.1 ≠ e2.1 → ob_rows t !! e1.1 = Some e1.2 → ob_attempt_count e1.2 + 1 < max_attempts cfg →
  select_pending scan service (batch_size cfg) now (backoff_base cfg) (backoff_cap cfg) t = [e1; e2] →
  ob_rows t !! e2.1 = Some e2.2 → pending_row service e1.2 →
  (∀ s m b0, payload m = ob_payload e1.2 → ∃ x, (bus_publish bus s m b0).1 = Err x ∧ is_exception x = true) →
  (∀ s m b0, payload m = ob_payload e2.2 → (bus_publish bus s m b0).1 = Ok tt) →
  ∃ t' b' m r1 r2, run_one_batch (logging_bus bus) (logging_env env) scan service cfg (t, (b, l)) = (Ok 2, (t', (b', l ++ [(ob_subject e2.2, m)]))) ∧
    payload m = ob_payload e2.2 ∧
    ob_rows t' !! e1.1 = Some r1 ∧ pending_row service r1 ∧ ob_attempt_count r1 = ob_attempt_count e1.2 + 1 ∧
    ob_rows t' !! e2.1 = Some r2 ∧ ob_published_at r2 ≠ None.
Proof.
  cbn zeta. intros Hne Hr1 Hatt Hsel Hr2 (Hs & Hp & Hf) Href Hok.
  unfold run_one_batch, in_tx, relay_events, relay_event, mbind, st_bind, gets, uuid4, clock, on_bus, attempt, on_table, modify.
  cbn -[select_pending]. destruct (env_clock env b) as [now b1]. cbn in Hsel. rewrite Hsel.
  destruct (env_uuid env b1) as [i1 b2]. destruct (env_clock env b2) as [z2 b3].
  destruct (Href (ob_subject e1.2) (mkMessage i1 (default "" (ob_correlation_id e1.2)) z2 service (ob_payload e1.2)) b3 eq_refl) as (x & Hx & Hex).
  destruct (bus_publish bus (ob_subject e1.2) _ b3) as [rx b4]. cbn in Hx. subst rx. rewrite Hex.
  destruct (env_clock env b4) as [z4 b5]. destruct (env_uuid env b5) as [i5 b6]. destruct (env_clock env b6) as [z6 b7].
  pose proof (Hok (ob_subject e2.2) (mkMessage i5 (default "" (ob_correlation_id e2.2)) z6 service (ob_payload e2.2)) b7 eq_refl) as Hy.
  destruct (bus_publish bus (ob_subject e2.2) _ b7) as [ry b8]. cbn in Hy. subst ry.
  destruct (env_clock env b8) as [z8 b9]. cbn. eexists _, _, _, _, _.
  split; [done|]. split; [done|]. cbn. rewrite lookup_alter_ne, lookup_alter_eq, Hr1 by done.
  rewrite lookup_alter_eq, lookup_alter_ne, Hr2 by done. cbn.
  destruct (Z.leb_spec (max_attempts cfg) (ob_attempt_count e1.2 + 1)); [lia|]. by split_and!.
Qed.

(** ** A concrete relay *)
Definition demo_bus_ops (refuses : string → bool) : bus_ops Z string unit := {|
  bus_publish s m := fun b => if refuses (payload m) then (Err (PublishError s), b + 1) else (Ok tt, b + 1);
  bus_subscribe s h := mret tt; bus_close := mret tt; bus_kv_get s k := mret None; bus_kv_put s k v := mret 1;
  bus_kv_update s k v n := mret 1;
|}.
Definition demo_relay_env : relay_env Z := mkRelayEnv (fun b => (b, b)) (fun b => (b, b)) (fun us b => b + us) (fun _ => "error").
Definition demo_scan (t : outbox string) : list (event string) := map_to_list (ob_rows t).
Definition demo_settings : relay_settings := mkRelaySettings 1000000 100 100 2000000 60000000.
Definition demo_outbox : outbox string :=
  (insert_outbox_event "gateway" "signals.validated" (Some "k2") "second" 20
    (insert_outbox_event "gateway" "signals.validated" (Some "k1") "first" 10 empty_outbox).2).2.

Lemma demo_relay_run :
  outbox_step (demo_bus_ops (fun p => (p =? "first")%string)) demo_relay_env demo_scan (fun _ => demo_settings) false
    (demo_outbox, (1000, []))
    (run_one_batch (logging_bus (demo_bus_ops (fun p => (p =? "first")%string))) (logging_env demo_relay_env) demo_scan
      "gateway" demo_settings (demo_outbox, (1000, []))).2.
Proof. apply (os_batch _ _ _ _ _ _ "gateway" 2). vm_compute. reflexivity. Qed.

Lemma demo_reachable :
  rtc (outbox_step (demo_bus_ops (fun p => (p =? "first")%string)) demo_relay_env demo_scan (fun _ => demo_settings) false)
    (empty_outbox, (1000, [])) (demo_outbox, (1000, [])).
Proof.
  eapply rtc_l; [apply (os_insert _ _ _ _ _ _ _ "gateway" "signals.validated" (Some "k1") "first" 10)|].
  eapply rtc_l; [apply (os_insert _ _ _ _ _ _ _ "gateway" "signals.validated" (Some "k2") "second" 20)|]. apply rtc_refl.
Qed.

Lemma outbox_delivery_witness :
  let w := (run_one_batch (logging_bus (demo_bus_ops (fun p => (p =? "first")%string))) (logging_env demo_relay_env) demo_scan
      "gateway" demo_settings (demo_outbox, (1000, []))).2 in
  map content w.2.2 = [("signals.validated", "gateway", "k2", "second")] ∧ published_contents w.1 ≡ₚ map content w.2.2.
Proof.
  cbn zeta. split; [vm_compute; reflexivity|].
  refine (proj2 (outbox_delivery (demo_bus_ops (fun p => (p =? "first")%string)) demo_relay_env demo_scan (fun _ => demo_settings)
    false 1000 _ _ _ ltac:(intros t; done) ltac:(done) _) eq_refl).
  eapply rtc_r; [exact demo_reachable|]. exact demo_relay_run.
Defined.

