(* ===== verification/Gateway.v ===== *)
(** * The signal gateway

    Models services/signal_gateway/app/{webhook,models,dedup,rate_limit,
    security,symbol_map,middleware}.py and the statements of
    packages/db/queries/signal_gateway.py it uses (tables of migrations 0001
    and 0002).  [gworld] holds the tables, the in-process caches, both clocks
    and the bus.  HMAC-SHA256, [json.loads], [repr] and the text of a UUID are
    parameters, as is the bus.  Every statement draws the next of [g_faults]:
    a drawn [true] is a connection or server error.  Clocks stand still during
    a request.  Metrics and logs are left out; Unicode white space outside
    ASCII is not stripped. *)

From S2P Require Import Prelude Json Dec Scoring Bus Outbox.
From Stdlib Require Import Ascii.
Open Scope Z_scope.

(** ** services/signal_gateway/app/models.py *)
Definition envelope_fields : list string := ["symbol"; "action"; "source"; "idempotency_key"; "payload"].
Record SignalEnvelope := mkSignalEnvelope {
  se_symbol : string; se_action : action; se_source : string; se_idempotency_key : string; se_payload : dict;
}.

Definition is_extra (kv : string * json) : Prop := kv.1 ∉ envelope_fields.
#[global] Instance is_extra_dec kv : Decision (is_extra kv).
Proof. unfold is_extra. apply _. Defined.

Definition migrate_unknown_keys (data : json) : json :=
  match data with
  | JObj d =>
      let extras := filter is_extra d in
      match extras with
      | [] => data
      | _ =>
          let kept := filter (fun kv => ¬ is_extra kv) d in
          match dict_get "payload" d with
          | Some (JObj existing) => JObj (dict_merge kept [("payload", JObj (dict_merge extras existing))])
          | None | Some JNull => JObj (dict_merge kept [("payload", JObj (dict_merge extras []))])
          | Some _ => data
          end
      end
  | _ => data
  end.

(** Field validation: [str] with [min_length=1], the action literal, a dict
    payload defaulting to the empty one, no other key. *)
Definition nonempty_str (v : option json) : option string :=
  match v with Some (JStr s) => if (s =? "")%string then None else Some s | _ => None end.
Definition action_of (v : option json) : option action :=
  match v with
  | Some (JStr "LONG") => Some LONG
  | Some (JStr "SHORT") => Some SHORT
  | Some (JStr "CLOSE") => Some CLOSE
  | _ => None
  end.
Definition payload_of (v : option json) : option dict :=
  match v with None => Some [] | Some (JObj d) => Some d | _ => None end.
Definition validate_fields (data : json) : option SignalEnvelope :=
  match data with
  | JObj d =>
      match filter is_extra d with
      | [] =>
          sym ← nonempty_str (dict_get "symbol" d);
          act ← action_of (dict_get "action" d);
          src ← nonempty_str (dict_get "source" d);
          key ← nonempty_str (dict_get "idempotency_key" d);
          pl ← payload_of (dict_get "payload" d);
          Some (mkSignalEnvelope sym act src key pl)
      | _ => None
      end
  | _ => None
  end.
Definition model_validate (data : json) : option SignalEnvelope := validate_fields (migrate_unknown_keys data).

(** ** Strings of the request *)
Definition is_space (c : ascii) : bool :=
  let n := nat_of_ascii c in (9 <=? n)%nat && (n <=? 13)%nat || (28 <=? n)%nat && (n <=? 32)%nat.
Fixpoint lstrip (s : string) : string :=
  match s with
  | String c s' => if is_space c then lstrip s' else s
  | EmptyString => ""
  end.
Fixpoint rstrip (s : string) : string :=
  match s with
  | String c s' => let r := rstrip s' in if is_space c && (r =? "")%string then "" else String c r
  | EmptyString => ""
  end.
Definition strip (s : string) : string := rstrip (lstrip s).
(** [s.split(",", 1)[0]]. *)
Fixpoint before_comma (s : string) : string :=
  match s with
  | String c s' => if Ascii.eqb c ","%char then "" else String c (before_comma s')
  | EmptyString => ""
  end.
Fixpoint is_ascii (s : string) : bool :=
  match s with String c s' => (nat_of_ascii c <? 128)%nat && is_ascii s' | EmptyString => true end.

Record http_request := mkHttp {
  rq_method : string; rq_path : string; rq_real_ip : string; rq_forwarded_for : string; rq_client_host : option string;
  rq_signature : string; rq_user_agent : string; rq_body : string;
}.

(** [_extract_client_ip] and [_client_ip]; absent headers are empty. *)
Definition extract_client_ip (r : http_request) : string :=
  let real_ip := strip (rq_real_ip r) in
  if negb (real_ip =? "")%string then real_ip else
  let first := strip (before_comma (rq_forwarded_for r)) in
  if negb (rq_forwarded_for r =? "")%string && negb (first =? "")%string then first else
  match rq_client_host r with
  | Some h => if (h =? "")%string then "unknown" else h
  | None => "unknown"
  end.

(** ** Tables, caches, world *)
Inductive ingestion_status := st_validated | st_invalid | st_duplicate.
Record signal_row := mkSignalRow {
  sr_id : Z; sr_received_at : Z; sr_source : string; sr_idempotency_key : string; sr_symbol : string;
  sr_original_symbol : option string; sr_action : string; sr_payload : dict; sr_status : ingestion_status;
  sr_correlation_id : string;
}.
(** The [SignalValidated] payload of the outbox row. *)
Record validated_payload := mkValidated { vp_signal : SignalValidated; vp_original_symbol : string; vp_payload : dict }.
Record raw_payload := mkRaw { raw_body_text : string; raw_source_ip : string; raw_received_at : Z; raw_user_agent : string }.

Record gworld (B : Type) := mkGworld {
  g_signals : list signal_row; g_next_signal_id : Z; g_outbox : outbox validated_payload;
  g_symbol_map : gmap string string;
  g_seen : gmap string Z; g_buckets : gmap string (list Z); g_cache : gmap string (option string * Z);
  g_monotonic : Z; g_now : Z; g_faults : list bool; g_uuid : Z; g_bus : B;
}.
Arguments mkGworld {B}. Arguments g_signals {B}. Arguments g_next_signal_id {B}. Arguments g_outbox {B}.
Arguments g_symbol_map {B}. Arguments g_seen {B}. Arguments g_buckets {B}. Arguments g_cache {B}. Arguments g_monotonic {B}.
Arguments g_now {B}. Arguments g_faults {B}. Arguments g_uuid {B}. Arguments g_bus {B}.

Inductive reason := invalid_json | validation_failed | hmac_invalid | symbol_unknown | rate_limit | internal.
Inductive response :=
| validated_response (signal_id : Z)
| duplicate_response
| error_response (status : Z) (r : reason)
| passed_through.

Definition action_text (a : action) : string := match a with LONG => "LONG" | SHORT => "SHORT" | CLOSE => "CLOSE" end.
Definition SIGNAL_TTL : Z := 120 * 1000000.

(** ** services/signal_gateway/app/dedup.py and rate_limit.py *)
Definition dedup_check (ttl now : Z) (key : string) (seen : gmap string Z) : bool * gmap string Z :=
  let live := filter (fun kt : string * Z => ¬ kt.2 < now - ttl) seen in
  match live !! key with
  | Some _ => (false, live)
  | None => (true, <[key := now]> live)
  end.

Fixpoint pop_stale (window_start : Z) (bucket : list Z) : list Z :=
  match bucket with
  | t :: b' => if t <? window_start then pop_stale window_start b' else bucket
  | [] => []
  end.
Definition limiter_check (window : Z) (limit : nat) (now : Z) (key : string) (buckets : gmap string (list Z)) :
  bool * gmap string (list Z) :=
  let bucket := pop_stale (now - window) (default [] (buckets !! key)) in
  if (limit <=? length bucket)%nat then (false, <[key := bucket]> buckets)
  else (true, <[key := bucket ++ [now]]> buckets).

Section gateway.
Context {B H : Type} (bus : bus_ops B raw_payload H).
Context (hmac_hex : string → string → string) (json_loads : string → res json) (repr : json → string).
Context (uuid_str : Z → string) (secret : string) (dedup_ttl cache_ttl window : Z) (limit : nat).
Abbreviation G := (ST (gworld B)).

Definition with_tables (sg : list signal_row) (n : Z) (o : outbox validated_payload) (w : gworld B) : gworld B :=
  mkGworld sg n o (g_symbol_map w) (g_seen w) (g_buckets w) (g_cache w) (g_monotonic w) (g_now w) (g_faults w) (g_uuid w) (g_bus w).
Definition with_seen (s : gmap string Z) (w : gworld B) : gworld B :=
  mkGworld (g_signals w) (g_next_signal_id w) (g_outbox w) (g_symbol_map w) s (g_buckets w) (g_cache w) (g_monotonic w)
    (g_now w) (g_faults w) (g_uuid w) (g_bus w).
Definition with_buckets (b : gmap string (list Z)) (w : gworld B) : gworld B :=
  mkGworld (g_signals w) (g_next_signal_id w) (g_outbox w) (g_symbol_map w) (g_seen w) b (g_cache w) (g_monotonic w)
    (g_now w) (g_faults w) (g_uuid w) (g_bus w).
Definition with_cache (c : gmap string (option string * Z)) (w : gworld B) : gworld B :=
  mkGworld (g_signals w) (g_next_signal_id w) (g_outbox w) (g_symbol_map w) (g_seen w) (g_buckets w) c (g_monotonic w)
    (g_now w) (g_faults w) (g_uuid w) (g_bus w).
Definition with_faults (f : list bool) (w : gworld B) : gworld B :=
  mkGworld (g_signals w) (g_next_signal_id w) (g_outbox w) (g_symbol_map w) (g_seen w) (g_buckets w) (g_cache w)
    (g_monotonic w) (g_now w) f (g_uuid w) (g_bus w).
Definition with_bus (n : Z) (b : B) (w : gworld B) : gworld B :=
  mkGworld (g_signals w) (g_next_signal_id w) (g_outbox w) (g_symbol_map w) (g_seen w) (g_buckets w) (g_cache w)
    (g_monotonic w) (g_now w) (g_faults w) n b.

(** A round trip to PostgreSQL: it may fail before anything happens. *)
Definition roundtrip : G unit := fun w =>
  match g_faults w with
  | true :: f => (Err (RuntimeError "connection"), with_faults f w)
  | _ :: f => (Ok tt, with_faults f w)
  | [] => (Ok tt, w)
  end.

(** The [signals_idempotency] index is on (idempotency_key, received_at); the
    identity column advances even when the insert is refused. *)
Definition insert_signal (received_at : Z) (source key symbol : string) (original : option string) (act : string)
  (pl : dict) (st : ingestion_status) (corr : string) : G Z :=
  roundtrip ;;
  w ← get_st;
  if existsb (fun r => (sr_idempotency_key r =? key)%string && (sr_received_at r =? received_at)) (g_signals w)
  then modify (fun w => with_tables (g_signals w) (g_next_signal_id w + 1) (g_outbox w) w) ;; throw (UniqueViolation "signals")
  else
    modify (fun w => with_tables
      (g_signals w ++ [mkSignalRow (g_next_signal_id w) received_at source key symbol original act pl st corr])
      (g_next_signal_id w + 1) (g_outbox w) w) ;;
    mret (g_next_signal_id w).

Definition insert_event (key : string) (p : validated_payload) (created_at : Z) : G unit :=
  roundtrip ;;
  modify (fun w => with_tables (g_signals w) (g_next_signal_id w)
    (insert_outbox_event "signal-gateway" "signals.validated" (Some key) p created_at (g_outbox w)).2 w).

(** A transaction: rows are rolled back, sequences are not; the commit is a
    round trip too.  The one case left out is a COMMIT the server carries out
    while its acknowledgement is lost: the caller then sees the exception of
    [Err] over the rows of [Ok]. *)
Definition in_tx {A} (m : G A) : G A := fun w =>
  match (a ← m; roundtrip ;; mret a) w with
  | (Ok a, w') => (Ok a, w')
  | (Err e, w') => (Err e, with_tables (g_signals w) (g_next_signal_id w')
                       (mkOutbox (ob_rows (g_outbox w)) (ob_next_id (g_outbox w'))) w')
  end.

(** ** services/signal_gateway/app/security.py: [hmac.compare_digest] refuses
    non-ASCII strings. *)
Definition verify_hmac (body signature : string) : res bool :=
  if is_ascii signature then Ok (signature =? hmac_hex secret body)%string else Err (TypeError "compare_digest").

(** ** services/signal_gateway/app/symbol_map.py *)
Definition fetch_symbol_mapping (sym : string) : G (option string) :=
  roundtrip ;; gets (fun w => g_symbol_map w !! sym).
Definition resolve (sym : string) : G (option string) :=
  w ← get_st;
  match g_cache w !! sym with
  | Some (v, at_) => if g_monotonic w - at_ <? cache_ttl then mret v else
      resolved ← fetch_symbol_mapping sym;
      modify (fun w => with_cache (<[sym := (resolved, g_monotonic w)]> (g_cache w)) w) ;; mret resolved
  | None =>
      resolved ← fetch_symbol_mapping sym;
      modify (fun w => with_cache (<[sym := (resolved, g_monotonic w)]> (g_cache w)) w) ;; mret resolved
  end.

(** ** services/signal_gateway/app/webhook.py *)
(** Step 3: the raw publication, best effort. *)
Definition publish_raw (r : http_request) : G unit :=
  w ← get_st;
  let env := mkMessage (g_uuid w) (uuid_str (g_uuid w + 1)) (g_now w) "signal-gateway"
    (mkRaw (rq_body r) (extract_client_ip r) (g_now w) (rq_user_agent r)) in
  attempt is_exception (fun w =>
    let '(x, b) := bus_publish bus "signals.raw" env (g_bus w) in (x, with_bus (g_uuid w + 2) b w)) ;;
  mret tt.

(** An audit row in [try ... except Exception]: the response on success, 500
    when the insert raised. *)
Definition audited (m : G Z) (resp : response) : G response :=
  x ← attempt is_exception m;
  match x with
  | Err _ => mret (error_response 500 internal)
  | Ok _ => mret resp
  end.

Definition peek_key (parsed : json) : string :=
  match parsed with
  | JObj d => match dict_get "idempotency_key" d with Some (JStr s) => strip s | _ => "" end
  | _ => ""
  end.
(** [str(parsed.get(k, ""))]. *)
Definition py_str (v : json) : string := match v with JStr s => s | _ => repr v end.
Definition str_field (k : string) (parsed : json) : string :=
  match parsed with JObj d => match dict_get k d with Some v => py_str v | None => "" end | _ => "" end.

Definition reject_invalid (parsed : json) : G response :=
  let key := peek_key parsed in
  if (key =? "")%string then mret (error_response 400 validation_failed) else
  now ← gets g_now;
  audited (insert_signal now (str_field "source" parsed) key (str_field "symbol" parsed) None (str_field "action" parsed)
             (match parsed with JObj d => d | _ => [] end) st_invalid key)
    (error_response 400 validation_failed).

Definition audit_row (received_at : Z) (e : SignalEnvelope) (st : ingestion_status) : G Z :=
  insert_signal received_at (se_source e) (se_idempotency_key e) (se_symbol e) None (action_text (se_action e))
    (se_payload e) st (se_idempotency_key e).

(** Steps 9 to 12. *)
Definition accept_signal (e : SignalEnvelope) : G response :=
  received_at ← gets g_now;
  mono ← gets g_monotonic;
  seen ← gets g_seen;
  let '(fresh, seen') := dedup_check dedup_ttl mono (se_idempotency_key e) seen in
  modify (with_seen seen') ;;
  if negb fresh then audited (audit_row received_at e st_duplicate) duplicate_response else
  canonical ← resolve (se_symbol e);
  match canonical with
  | None => audited (audit_row received_at e st_invalid) (error_response 422 symbol_unknown)
  | Some sym =>
      let p := mkValidated (mkSignal (se_source e) (se_idempotency_key e) received_at sym (se_action e) (received_at + SIGNAL_TTL))
                 (se_symbol e) (se_payload e) in
      x ← attempt is_exception (in_tx (
            signal_id ← insert_signal received_at (se_source e) (se_idempotency_key e) sym (Some (se_symbol e))
                          (action_text (se_action e)) (se_payload e) st_validated (se_idempotency_key e);
            insert_event (se_idempotency_key e) p received_at ;;
            mret signal_id));
      match x with
      | Err _ => mret (error_response 500 internal)
      | Ok signal_id => mret (validated_response signal_id)
      end
  end.

Definition webhook (r : http_request) : G response :=
  ok ← lift_res (verify_hmac (rq_body r) (rq_signature r));
  if negb ok then mret (error_response 401 hmac_invalid) else
  publish_raw r ;;
  match json_loads (rq_body r) with
  | Err JSONDecodeError => mret (error_response 400 invalid_json)
  | Err e => throw e
  | Ok parsed =>
      match model_validate parsed with
      | None => reject_invalid parsed
      | Some e => accept_signal e
      end
  end.

(** ** services/signal_gateway/app/middleware.py *)
Definition dispatch (r : http_request) : G response :=
  if negb (rq_method r =? "POST")%string || negb (rq_path r =? "/webhook")%string then mret passed_through else
  mono ← gets g_monotonic;
  buckets ← gets g_buckets;
  let '(allowed, buckets') := limiter_check window limit mono (extract_client_ip r) buckets in
  modify (with_buckets buckets') ;;
  if allowed then webhook r else mret (error_response 429 rate_limit).
End gateway.
