(* ===== verification/GatewayFacts.v ===== *)
(** * The signal gateway: what a webhook writes, how often a key and a client
    get through, and which signals are lost *)

From S2P Require Import Prelude Json Dec Scoring Bus Outbox OutboxFacts Gateway.
Open Scope Z_scope.

(** ** The sliding window *)
Section limiter.
Context (window : Z) (limit : nat).

(** The decisions on a sequence of calls [(now, key)]. *)
Fixpoint decisions (calls : list (Z * string)) (b : gmap string (list Z)) : list (Z * string * bool) :=
  match calls with
  | [] => []
  | (now, key) :: rest => let '(ok, b') := limiter_check window limit now key b in (now, key, ok) :: decisions rest b'
  end.
(** The times at which [key] got through. *)
Definition accepted (key : string) (ds : list (Z * string * bool)) : list Z :=
  omap (fun '(t, k, ok) => if (k =? key)%string && ok then Some t else None) ds.

(** What a bucket remembers of the accepted times [ts] at time [now]: a suffix
    that holds everything inside the window. *)
Record bucket_ok (now : Z) (ts bucket : list Z) : Prop := {
  bo_suffix : ∃ j, bucket = drop j ts ∧ ∀ i x, (i < j)%nat → ts !! i = Some x → x < now - window;
  bo_past : ∀ x, x ∈ ts → x <= now;
  bo_spaced : ∀ i x y, ts !! i = Some x → ts !! (i + limit)%nat = Some y → window < y - x;
}.

Lemma pop_stale_drop start bucket : ∃ j, pop_stale start bucket = drop j bucket ∧ (j <= length bucket)%nat ∧
  ∀ i x, (i < j)%nat → bucket !! i = Some x → x < start.
Proof.
  induction bucket as [|t b IH]; cbn; [by exists 0%nat; split_and!; [done|lia|lia]|].
  destruct (Z.ltb_spec t start); [|by exists 0%nat; split_and!; [done|lia|lia]].
  destruct IH as (j & -> & Hj & Hs). exists (S j). split_and!; [done|lia|]. intros [|i] x Hi; cbn; [by intros [= <-]|].
  apply Hs. lia.
Qed.

Lemma bucket_later now now' ts bucket : now <= now' → bucket_ok now ts bucket → bucket_ok now' ts bucket.
Proof.
  intros Hn [(j & -> & Hd) Hp Hs]. split; [|intros x Hx; specialize (Hp x Hx); lia|done].
  exists j. split; [done|]. intros i x Hi Hx. specialize (Hd i x Hi Hx). lia.
Qed.

Lemma pop_bucket now ts bucket :
  bucket_ok now ts bucket → bucket_ok now ts (pop_stale (now - window) bucket).
Proof.
  intros [(j & -> & Hd) Hp Hs]. destruct (pop_stale_drop (now - window) (drop j ts)) as (k & -> & Hk & Hst).
  split; [|done|done]. exists (j + k)%nat. split; [by rewrite drop_drop|]. intros i x Hi Hx.
  destruct (Nat.lt_ge_cases i j) as [?|?]; [by apply (Hd i)|]. apply (Hst (i - j)%nat); [lia|].
  rewrite lookup_drop. by replace (j + (i - j))%nat with i by lia.
Qed.

Lemma append_bucket now ts bucket :
  bucket_ok now ts bucket → (length bucket < limit)%nat → bucket_ok now (ts ++ [now]) (bucket ++ [now]).
Proof.
  intros [(j & -> & Hd) Hp Hs] Hl. rewrite length_drop in Hl. split.
  - destruct (Nat.le_gt_cases j (length ts)) as [Hj|Hj].
    + exists j. split; [by rewrite drop_app_le|]. intros i x Hi Hx. apply (Hd i); [done|]. rewrite lookup_app_l in Hx; [done|lia].
    + exists (length ts). rewrite drop_ge, drop_app_length by lia. split; [done|]. intros i x Hi Hx.
      rewrite lookup_app_l in Hx by done. apply (Hd i); [lia|done].
  - intros x [Hx|Hx%list_elem_of_singleton]%elem_of_app; [by apply Hp|lia].
  - intros i x y Hx Hy. destruct (Nat.lt_ge_cases (i + limit) (length ts)) as [?|Hge].
    + rewrite lookup_app_l in Hx, Hy by lia. by apply (Hs i).
    + rewrite lookup_app_r in Hy by done. apply list_lookup_singleton_Some in Hy as [Hy <-].
      rewrite lookup_app_l in Hx by lia. assert (x < now - window); [|lia]. apply (Hd i); [lia|done].
Qed.

Lemma decisions_spaced calls : ∀ now b (hist : string → list Z),
  Sorted Z.le (now :: calls.*1) → (∀ k, bucket_ok now (hist k) (default [] (b !! k))) →
  ∀ k, ∃ last bucket, bucket_ok last (hist k ++ accepted k (decisions calls b)) bucket.
Proof.
  induction calls as [|[t key] calls IH]; intros now b hist Hsort Hb k.
  { exists now. cbn. rewrite app_nil_r. eauto. }
  apply Sorted_inv in Hsort as [Hsort Hle]. inversion Hle as [|? ? Htn]; subst. cbn in Htn.
  cbn [decisions]. unfold limiter_check. pose proof (pop_bucket t _ _ (bucket_later now t _ _ Htn (Hb key))) as Hpop.
  destruct (Nat.leb_spec limit (length (pop_stale (t - window) (default [] (b !! key))))) as [Hfull|Hroom].
  - cbn. rewrite andb_false_r. apply (IH t); [done|]. intros q. destruct (decide (q = key)) as [->|].
    + by rewrite lookup_insert_eq.
    + rewrite lookup_insert_ne by done. by eapply bucket_later.
  - cbn. rewrite andb_true_r.
    destruct (IH t (<[key := pop_stale (t - window) (default [] (b !! key)) ++ [t]]> b)
      (fun q => if decide (q = key) then hist q ++ [t] else hist q) Hsort) with (k := k) as (last & bk & Hbk).
    + intros q. destruct (decide (q = key)) as [->|].
      * rewrite lookup_insert_eq. by apply append_bucket.
      * rewrite lookup_insert_ne by done. by eapply bucket_later.
    + exists last, bk. destruct (String.eqb_spec key k) as [->|].
      * rewrite decide_True in Hbk by done. by rewrite <-app_assoc in Hbk.
      * rewrite decide_False in Hbk by done. done.
Qed.

(** Whatever the sequence of calls, at most [limit] calls of one client get
    through in any window: two accepted calls that are [limit] acceptances
    apart are more than the window apart. *)
Lemma rate_limit_holds calls key i x y :
  Sorted Z.le calls.*1 →
  accepted key (decisions calls ∅) !! i = Some x → accepted key (decisions calls ∅) !! (i + limit)%nat = Some y →
  window < y - x.
Proof.
  intros Hs Hx Hy. destruct calls as [|[t0 k0] calls]; [done|].
  destruct (decisions_spaced ((t0, k0) :: calls) t0 ∅ (fun _ => [])) with (k := key) as (last & bk & [_ _ Hsp]).
  - constructor; [exact Hs|]. constructor. cbn. lia.
  - intros k. rewrite lookup_empty. split; [|by intros ? ?%not_elem_of_nil|done]. exists 0%nat. split; [done|lia].
  - by apply (Hsp i x y).
Qed.
End limiter.

(** ** Effects of the handler's parts *)
Section effects.
Context {B H : Type} (bus : bus_ops B raw_payload H).
Context (hmac_hex : string → string → string) (json_loads : string → res json) (repr : json → string).
Context (uuid_str : Z → string) (secret : string) (dedup_ttl cache_ttl window : Z) (limit : nat).
Abbreviation webhook := (webhook bus hmac_hex json_loads repr uuid_str secret dedup_ttl cache_ttl).

(** What the theorems look at: both tables, the ring and the clocks. *)
Definition view (w : gworld B) := (g_signals w, ob_rows (g_outbox w), g_seen w, (g_monotonic w, g_now w)).

Lemma roundtrip_view (w : gworld B) x w' :
  roundtrip w = (x, w') → view w' = view w ∧ g_outbox w' = g_outbox w ∧ g_symbol_map w' = g_symbol_map w ∧ g_cache w' = g_cache w
    ∧ g_buckets w' = g_buckets w ∧ (g_faults w = [] → x = Ok tt ∧ w' = w)
    ∧ match x with Ok _ => True | Err e => is_exception e = true end.
Proof. unfold roundtrip. destruct (g_faults w) as [|[] f]; intros [= <- <-]; split_and!; done. Qed.

Lemma publish_raw_view r (w : gworld B) x w' :
  publish_raw bus uuid_str r w = (x, w') →
  view w' = view w ∧ g_outbox w' = g_outbox w ∧ g_symbol_map w' = g_symbol_map w ∧ g_cache w' = g_cache w ∧ g_faults w' = g_faults w.
Proof.
  unfold publish_raw, attempt, mbind, st_bind, get_st. destruct (bus_publish bus _ _ _) as [[[]|e] b];
    [|destruct (is_exception e)]; intros [= <- <-]; split_and!; done.
Qed.

Lemma insert_signal_view at_ src key sym orig act pl st corr (w : gworld B) x w' :
  insert_signal at_ src key sym orig act pl st corr w = (x, w') →
  g_outbox w' = g_outbox w ∧
  match x with
  | Ok id => view w' = (g_signals w ++ [mkSignalRow id at_ src key sym orig act pl st corr], ob_rows (g_outbox w), g_seen w, (g_monotonic w, g_now w))
  | Err e => view w' = view w ∧ is_exception e = true
  end.
Proof.
  unfold insert_signal. intros Hr. st_inv.
  - apply roundtrip_view in E as (Hv & Ho & _). unfold view in *. destruct (existsb _ _).
    + unfold mbind, st_bind, modify, throw in Hr. injection Hr as <- <-. cbn. by rewrite Ho in *.
    + unfold mbind, st_bind, modify in Hr. injection Hr as <- <-. cbn. split; [done|]. congruence.
  - apply roundtrip_view in E as (Hv & Ho & _ & _ & _ & _ & He). subst x. unfold view in *. by split_and!.
Qed.

(** The row and the event of a validated signal. *)
Definition validated_row (id now : Z) (e : SignalEnvelope) (sym : string) : signal_row :=
  mkSignalRow id now (se_source e) (se_idempotency_key e) sym (Some (se_symbol e)) (action_text (se_action e)) (se_payload e)
    st_validated (se_idempotency_key e).
Definition validated_event (now : Z) (e : SignalEnvelope) (sym : string) : outbox_row validated_payload :=
  mkOutboxRow "signal-gateway" "signals.validated" (Some (se_idempotency_key e))
    (mkValidated (mkSignal (se_source e) (se_idempotency_key e) now sym (se_action e) (now + SIGNAL_TTL)) (se_symbol e) (se_payload e))
    now None 0 None None None.

Lemma insert_event_view key p at_ (w : gworld B) x w' :
  insert_event key p at_ w = (x, w') →
  g_signals w' = g_signals w ∧ g_seen w' = g_seen w ∧ g_monotonic w' = g_monotonic w ∧ g_now w' = g_now w ∧
  match x with
  | Ok _ => g_outbox w' = (insert_outbox_event "signal-gateway" "signals.validated" (Some key) p at_ (g_outbox w)).2
  | Err e => is_exception e = true
  end.
Proof.
  unfold insert_event. intros Hr. st_inv; apply roundtrip_view in E as (Hv & Ho & _ & _ & _ & _ & He); unfold view in Hv; cbn.
  - rewrite Ho. split_and!; congruence.
  - subst x. split_and!; congruence.
Qed.

Lemma in_tx_view {A} (m : ST (gworld B) A) (w : gworld B) x w' :
  in_tx m w = (x, w') →
  match x with
  | Ok a => ∃ w1, m w = (Ok a, w1) ∧ view w' = view w1
  | Err ex => ∃ r w1, m w = (r, w1) ∧ (r = Err ex ∨ is_exception ex = true) ∧
      view w' = (g_signals w, ob_rows (g_outbox w), g_seen w1, (g_monotonic w1, g_now w1))
  end.
Proof.
  unfold in_tx, mbind, st_bind. destruct (m w) as [[a|e] w1].
  - destruct (roundtrip w1) as [[[]|e] w2] eqn:E; apply roundtrip_view in E as (Hv & _ & _ & _ & _ & _ & He);
      intros [= <- <-]; [by eauto|]. unfold view in *. eexists _, _. split_and!; [done|by right|]. cbn. congruence.
  - intros [= <- <-]. eexists _, _. split_and!; [done|by left|done].
Qed.

(** The transaction commits both rows or none. *)
Lemma validated_tx_view e sym now (w : gworld B) x w' :
  in_tx (signal_id ← insert_signal now (se_source e) (se_idempotency_key e) sym (Some (se_symbol e))
           (action_text (se_action e)) (se_payload e) st_validated (se_idempotency_key e);
         insert_event (se_idempotency_key e) (ob_payload (validated_event now e sym)) now ;; mret signal_id) w = (x, w') →
  match x with
  | Ok id => view w' = (g_signals w ++ [validated_row id now e sym],
      <[ob_next_id (g_outbox w) := validated_event now e sym]> (ob_rows (g_outbox w)), g_seen w, (g_monotonic w, g_now w))
  | Err ex => view w' = view w ∧ is_exception ex = true
  end.
Proof.
  intros Hx%in_tx_view. destruct x as [id|ex].
  - destruct Hx as (w1 & Hm & Hv). rewrite Hv. st_inv.
    match goal with H1 : insert_signal _ _ _ _ _ _ _ _ _ _ = _, H2 : insert_event _ _ _ _ = _ |- _ =>
      apply insert_signal_view in H1 as [Ho1 Hv1]; apply insert_event_view in H2 as (H1' & H2' & H3' & H4' & H5') end.
    unfold view in *. injection Hv1 as Hs1 _ Hs2 Hs3 Hs4.
    rewrite H1', H2', H3', H4', H5', Hs1, Hs2, Hs3, Hs4. cbn. by rewrite Ho1.
  - destruct Hx as (r & w1 & Hm & Hr & ->). st_inv;
      repeat match goal with
      | H1 : insert_signal _ _ _ _ _ _ _ _ _ _ = _ |- _ => apply insert_signal_view in H1 as [Ho1 Hv1]
      | H2 : insert_event _ _ _ _ = _ |- _ => apply insert_event_view in H2 as (H1' & H2' & H3' & H4' & H5')
      end; unfold view in *; (split; [first [congruence | destruct Hv1; congruence]|]);
      destruct Hr as [Hr|Hr]; try done; simplify_eq; try done; by destruct Hv1.
Qed.

Lemma resolve_view sym (w : gworld B) x w' :
  resolve cache_ttl sym w = (x, w') →
  view w' = view w ∧ g_outbox w' = g_outbox w ∧
  match x with
  | Ok v => (∃ at_, g_cache w !! sym = Some (v, at_) ∧ g_monotonic w - at_ < cache_ttl) ∨ v = g_symbol_map w !! sym
  | Err e => is_exception e = true
  end.
Proof.
  assert (∀ w0 x0 w0', fetch_symbol_mapping (B := B) sym w0 = (x0, w0') → view w0' = view w0 ∧ g_outbox w0' = g_outbox w0 ∧
    match x0 with Ok v => v = g_symbol_map w0 !! sym | Err e => is_exception e = true end) as Hf.
  { unfold fetch_symbol_mapping. intros w0 x0 w0' Hr. st_inv; apply roundtrip_view in E as (? & ? & Hm & _ & _ & _ & He);
      [by rewrite Hm|by subst]. }
  unfold resolve. intros Hr. st_inv. destruct (g_cache _ !! sym) as [[v at_]|] eqn:Ec.
  - destruct (Z.ltb_spec (g_monotonic w - at_) cache_ttl).
    + injection Hr as <- <-. split_and!; [done|done|]. left. eauto.
    + st_inv; apply Hf in E as (Hv & Ho & Hx); unfold view in *; [cbn; split_and!; auto|subst; auto].
  - st_inv; apply Hf in E as (Hv & Ho & Hx); unfold view in *; [cbn; split_and!; auto|subst; auto].
Qed.

Lemma audited_view (m : ST (gworld B) Z) resp (w : gworld B) x w' :
  audited m resp w = (x, w') → ∃ r, m w = (r, w') ∧
    (x = Ok resp ∧ is_ok r = true ∨ x = Ok (error_response 500 internal) ∧ is_ok r = false ∨
     ∃ e, r = Err e ∧ x = Err e ∧ is_exception e = false).
Proof.
  unfold audited, attempt, mbind, st_bind. destruct (m w) as [[a|e] w1]; [|destruct (is_exception e) eqn:He];
    intros [= <- <-]; eexists; (split; [done|]); eauto. right; right. eauto.
Qed.

(** An audit row: written or not, never a validated one. *)
Lemma audit_view (at_ : Z) src key sym orig act pl st corr resp (w : gworld B) x w' :
  st ≠ st_validated → audited (insert_signal at_ src key sym orig act pl st corr) resp w = (x, w') →
  (x = Ok resp ∨ x = Ok (error_response 500 internal)) ∧
  ob_rows (g_outbox w') = ob_rows (g_outbox w) ∧ (g_seen w' = g_seen w ∧ g_monotonic w' = g_monotonic w) ∧
  (g_signals w' = g_signals w ∨ ∃ row, g_signals w' = g_signals w ++ [row] ∧ sr_status row ≠ st_validated).
Proof.
  intros Hst (r & Hm & Hx)%audited_view. apply insert_signal_view in Hm as [Ho Hv]. unfold view in Hv. rewrite Ho.
  destruct r as [id|e]; [injection Hv as Hs _ Hn Hc _|destruct Hv as [Hv He]; injection Hv as Hs _ Hn Hc _].
  - split_and!; [|done|done|done|]; [destruct Hx as [[-> _]|[[_ ?]|(? & [=] & _)]]; [by left|done]|]. right. eexists. split; [exact Hs|done].
  - split_and!; [|done|done|done|by left]. destruct Hx as [[_ ?]|[[-> _]|(? & [=] & _ & ?)]]; [done|by right|congruence].
Qed.

(** Steps 9 to 12. *)
Lemma accept_signal_view e (w : gworld B) x w' :
  accept_signal dedup_ttl cache_ttl e w = (x, w') →
  g_monotonic w' = g_monotonic w ∧
  g_seen w' = (dedup_check dedup_ttl (g_monotonic w) (se_idempotency_key e) (g_seen w)).2 ∧
  ((∃ id sym, x = Ok (validated_response id) ∧
      (dedup_check dedup_ttl (g_monotonic w) (se_idempotency_key e) (g_seen w)).1 = true ∧
      ((∃ at_, g_cache w !! se_symbol e = Some (Some sym, at_) ∧ g_monotonic w - at_ < cache_ttl) ∨ g_symbol_map w !! se_symbol e = Some sym) ∧
      g_signals w' = g_signals w ++ [validated_row id (g_now w) e sym] ∧
      ob_rows (g_outbox w') = <[ob_next_id (g_outbox w) := validated_event (g_now w) e sym]> (ob_rows (g_outbox w))) ∨
   (∀ id, x ≠ Ok (validated_response id)) ∧ ob_rows (g_outbox w') = ob_rows (g_outbox w) ∧
   (g_signals w' = g_signals w ∨ ∃ row, g_signals w' = g_signals w ++ [row] ∧ sr_status row ≠ st_validated) ∧
   ((dedup_check dedup_ttl (g_monotonic w) (se_idempotency_key e) (g_seen w)).1 = false →
      x = Ok duplicate_response ∨ x = Ok (error_response 500 internal))).
Proof.
  unfold accept_signal. intros Hr. st_inv.
  destruct (dedup_check _ _ _ _) as [fresh seen'] eqn:Ed. st_inv. cbn [fst snd]. destruct fresh; cbn [negb] in Hr.
  - apply st_bind_cases in Hr as [(canonical & w1 & Hres & Hr)|(e0 & Hres & ->)];
      apply resolve_view in Hres as (Hv & Ho & Hx); unfold view in Hv; cbn in Hv, Ho, Hx; injection Hv as Hs1 Ho1 Hn1 Hm1 Ht1.
    + destruct canonical as [sym|].
      * apply st_bind_cases in Hr as [(res & w2 & Htx & Hr)|(e0 & Htx & ->)]; apply attempt_inv in Htx as (x0 & Htx & Hcase).
        -- pose proof (validated_tx_view e sym (g_now w) w1 x0 w2 Htx) as Hv2. unfold view in Hv2. destruct x0 as [id|ex].
           ++ injection Hcase as ->. injection Hr as <- <-. injection Hv2 as H1 H2 H3 H4 H5. split; [congruence|]. split; [congruence|]. left.
              exists id, sym. rewrite H1, H2, Hs1, Ho. split_and!; try done. destruct Hx as [?|Hx]; [by left|right; congruence].
           ++ destruct Hv2 as [Hv2 He]. injection Hv2 as H1 H2 H3 H4 H5. rewrite He in Hcase. injection Hcase as ->.
              injection Hr as <- <-. split; [congruence|]. split; [congruence|]. right. split_and!; [done|congruence|left; congruence|done].
        -- pose proof (validated_tx_view e sym (g_now w) w1 x0 w' Htx) as Hv2. destruct x0 as [id|ex]; [done|].
           destruct Hv2 as [_ He]. by rewrite He in Hcase.
      * apply audit_view in Hr as (Hx' & Ho2 & [Hn2 Hc2] & Hs2); [|done]. rewrite Hs1, Ho1 in *. split; [congruence|]. split; [congruence|]. right.
        split_and!; [intros id; destruct Hx' as [->| ->]; done|congruence|done|done].
    + split; [congruence|]. split; [congruence|]. right. split_and!; [done|congruence|left; congruence|done].
  - apply audit_view in Hr as (Hx' & Ho2 & [Hn2 Hc2] & Hs2); [|done]. cbn in *. split; [done|]. split; [done|]. right.
    split_and!; [intros id; destruct Hx' as [->| ->]; done|done|done|done].
Qed.

(** The envelope of a request, when its body parses and validates. *)
Definition envelope_of (r : http_request) : option SignalEnvelope :=
  match json_loads (rq_body r) with Ok parsed => model_validate parsed | Err _ => None end.

(** The whole handler: either it stops before the ring, or it runs steps 9 to
    12 on a world with the same tables, ring, caches and clocks. *)
Lemma webhook_cases r (w : gworld B) x w' :
  webhook r w = (x, w') →
  (∃ e w1, envelope_of r = Some e ∧ is_ascii (rq_signature r) = true ∧ rq_signature r = hmac_hex secret (rq_body r) ∧
     view w1 = view w ∧ g_outbox w1 = g_outbox w ∧ g_symbol_map w1 = g_symbol_map w ∧ g_cache w1 = g_cache w ∧
     g_faults w1 = g_faults w ∧ accept_signal dedup_ttl cache_ttl e w1 = (x, w')) ∨
  (∀ id, x ≠ Ok (validated_response id)) ∧ ob_rows (g_outbox w') = ob_rows (g_outbox w) ∧
  (g_seen w' = g_seen w ∧ g_monotonic w' = g_monotonic w) ∧
  (g_signals w' = g_signals w ∨ ∃ row, g_signals w' = g_signals w ++ [row] ∧ sr_status row ≠ st_validated) ∧
  (envelope_of r = None ∨ rq_signature r ≠ hmac_hex secret (rq_body r) ∧ x = Ok (error_response 401 hmac_invalid) ∨ ∃ ex, x = Err ex).
Proof.
  unfold Gateway.webhook, envelope_of, verify_hmac. intros Hr.
  destruct (is_ascii (rq_signature r)) eqn:Ha; [|injection Hr as <- <-; right; eauto 10].
  erewrite st_bind_run in Hr by reflexivity.
  destruct (String.eqb_spec (rq_signature r) (hmac_hex secret (rq_body r))) as [Hsig|]; cbn [negb] in Hr;
    [|injection Hr as <- <-; right; auto 10].
  st_inv; [|apply publish_raw_view in E as (Hv & Ho & _); subst x; unfold view in Hv; injection Hv as Hs Ho' Hn Hmo _; right; eauto 10].
  apply publish_raw_view in E as (Hv & Ho & Hm & Hc & Hfa).
  assert (∀ z, (z, s) = (x, w') → (∀ id, z ≠ Ok (validated_response id)) →
    (∀ id, x ≠ Ok (validated_response id)) ∧ ob_rows (g_outbox w') = ob_rows (g_outbox w) ∧
    (g_seen w' = g_seen w ∧ g_monotonic w' = g_monotonic w) ∧
    (g_signals w' = g_signals w ∨ ∃ row, g_signals w' = g_signals w ++ [row] ∧ sr_status row ≠ st_validated)) as Hstop.
  { unfold view in Hv. injection Hv as Hs Ho' Hn Hmo _. intros z [= <- <-] Hz. auto. }
  destruct (json_loads (rq_body r)) as [parsed|ex]; [|right; destruct ex; destruct (Hstop _ Hr ltac:(done)) as (? & ? & ? & ?); auto 10].
  destruct (model_validate parsed) as [e|]; [left; exists e, s; by split_and!|right].
  unfold reject_invalid in Hr. destruct (_ =? "")%string; [destruct (Hstop _ Hr ltac:(done)) as (? & ? & ? & ?); auto 10|]. st_inv.
  apply audit_view in Hr as (Hx & Ho2 & Hn2 & Hs2); [|done]. unfold view in Hv. injection Hv as Hs Ho' Hn Hmo _.
  rewrite Hs, Ho', Hn, Hmo in *. destruct Hn2. split_and!; [intros id; destruct Hx as [->| ->]; done|done..|by left].
Qed.

(** C5: a webhook is answered 200 exactly when, for an authentic request whose
    key is fresh and whose symbol is mapped, the validated row and its outbox
    event were committed together; any other answer, the failures included,
    leaves the outbox as it was and adds at most one row that is not
    validated. *)
Theorem webhook_commits_both_or_none r (w : gworld B) x w' :
  Gateway.webhook bus hmac_hex json_loads repr uuid_str secret dedup_ttl cache_ttl r w = (x, w') →
  (∃ id e sym, x = Ok (validated_response id) ∧ rq_signature r = hmac_hex secret (rq_body r) ∧ envelope_of r = Some e ∧
     (dedup_check dedup_ttl (g_monotonic w) (se_idempotency_key e) (g_seen w)).1 = true ∧
     ((∃ at_, g_cache w !! se_symbol e = Some (Some sym, at_) ∧ g_monotonic w - at_ < cache_ttl) ∨ g_symbol_map w !! se_symbol e = Some sym) ∧
     g_signals w' = g_signals w ++ [validated_row id (g_now w) e sym] ∧
     ob_rows (g_outbox w') = <[ob_next_id (g_outbox w) := validated_event (g_now w) e sym]> (ob_rows (g_outbox w))) ∨
  (∀ id, x ≠ Ok (validated_response id)) ∧ ob_rows (g_outbox w') = ob_rows (g_outbox w) ∧
  (g_signals w' = g_signals w ∨ ∃ row, g_signals w' = g_signals w ++ [row] ∧ sr_status row ≠ st_validated).
Proof.
  intros [(e & w1 & He & Ha & Hsig & Hv & Ho & Hm & Hc & _ & Hacc)|(Hx & Ho & _ & Hs & _)]%webhook_cases; [|by right].
  unfold view in Hv. injection Hv as Hs1 Ho1 Hn1 Hmo Hno.
  apply accept_signal_view in Hacc as [_ [_ [(id & sym & -> & Hf & Hsym & Hsg & Hob)|(Hx & Hob & Hsg & _)]]].
  - left. exists id, e, sym. rewrite Hmo, Hn1, Hno, Ho, Hs1, Hc, Hm in *. by split_and!.
  - right. rewrite Hs1, Ho1 in *. by split_and!.
Qed.

(** The message a subscriber of signals.validated gets for the envelope [e]
    received at [now] and mapped to [sym]. *)
Record announces (now : Z) (e : SignalEnvelope) (sym : string) (m : MessageEnvelope validated_payload) : Prop := {
  an_publisher : publisher m = "signal-gateway";
  an_correlation : correlation_id m = se_idempotency_key e;
  an_signal : payload m =
    mkValidated (mkSignal (se_source e) (se_idempotency_key e) now sym (se_action e) (now + SIGNAL_TTL)) (se_symbol e) (se_payload e);
}.

(** C7: a signal answered 200 is published: however the relay of the gateway
    finds the outbox, after finitely many batches a bus that accepts has been
    given, on signals.validated, the message with the signal as received (its
    key as correlation id, the symbol as the cache or the symbol map has it),
    and the row of the event is marked published and changed in nothing
    else. *)
Theorem validated_signal_is_published {B' H'} (bus' : bus_ops B' validated_payload H') env scan cfg time r id (w w' : gworld B) (b : B') l :
  Gateway.webhook bus hmac_hex json_loads repr uuid_str secret dedup_ttl cache_ttl r w = (Ok (validated_response id), w') →
  scans scan → valid_settings cfg = true → accepting bus' env time →
  ∃ n e sym, envelope_of r = Some e ∧
    ((∃ at_, g_cache w !! se_symbol e = Some (Some sym, at_) ∧ g_monotonic w - at_ < cache_ttl) ∨ g_symbol_map w !! se_symbol e = Some sym) ∧
    ∀ m, (n <= m)%nat → ∃ t b1 k at_ msg,
      run (logging_bus bus') (logging_env env) scan "signal-gateway" cfg m (g_outbox w', (b, l)) = (Ok tt, (t, (b1, l ++ k))) ∧
      ("signals.validated", msg) ∈ k ∧ announces (g_now w) e sym msg ∧
      ob_rows t !! ob_next_id (g_outbox w) = Some (published_as at_ (validated_event (g_now w) e sym)).
Proof.
  intros Hw Hscan Hv Hacc.
  apply webhook_cases in Hw as [(e & w1 & He & _ & _ & Hview & Ho & Hmap & Hcache & _ & Ha)|(Hx & _)]; [|by destruct (Hx id)].
  unfold view in Hview. injection Hview as _ Ho1 _ Hmono Hno.
  apply accept_signal_view in Ha as (_ & _ & [(id0 & sym & _ & _ & Hsym & _ & Hob)|(Hx & _)]); [|by destruct (Hx id)].
  destruct (enough_batches (logging_bus bus') (logging_env env) scan "signal-gateway" cfg _ (g_outbox w') (b, l) Hscan Hv
    (accepting_logged bus' env time Hacc)) as [n Hn].
  exists n, e, sym. split; [done|]. rewrite Hcache, Hmap, Hmono in Hsym. split; [done|].
  intros m Hm. destruct (Hn m Hm) as (t & [b1 l1] & Hrun & Hadv & He').
  assert (ob_rows (g_outbox w') !! ob_next_id (g_outbox w) = Some (validated_event (g_now w) e sym)) as Hrow
    by (rewrite Hob, Ho, Hno; by rewrite lookup_insert_eq).
  destruct (advanced_row "signal-gateway" (g_outbox w') t _ _ Hadv He' Hrow) as [a Ha'].
  destruct (run_relayed bus' env scan "signal-gateway" cfg m Hscan _ _ _ _ _ _ _ Hrun) as (k & -> & Hk).
  specialize (Hk (ob_next_id (g_outbox w))). rewrite Hrow, Ha' in Hk. destruct Hk as [_ [Hk|Hk]]; [discriminate|].
  apply list_elem_of_fmap in Hk as ([subj msg] & Hc & Hin). unfold content, content_of in Hc. cbn in Hc. injection Hc as <- Hp Hco Hpay.
  exists t, b1, k, a, msg. split_and!; [done..|by constructor|done].
Qed.

(** ** The ring over a sequence of requests *)
Lemma dedup_live ttl now key seen k t :
  (dedup_check ttl now key seen).2 !! k = Some t ↔
  (k = key ∧ t = now ∧ (dedup_check ttl now key seen).1 = true) ∨
  (seen !! k = Some t ∧ now - ttl <= t).
Proof.
  unfold dedup_check. set (live := filter _ _).
  assert (∀ q u, live !! q = Some u ↔ seen !! q = Some u ∧ now - ttl <= u) as Hl.
  { intros q u. unfold live. rewrite map_lookup_filter_Some. cbn. split; intros [? ?]; split; auto; lia. }
  destruct (live !! key) as [u|] eqn:E; cbn.
  - rewrite Hl. naive_solver.
  - destruct (decide (k = key)) as [->|].
    + rewrite lookup_insert_eq. split; [intros [= <-]; by left|]. intros [(_ & -> & _)|Hs]; [done|].
      apply Hl in Hs. congruence.
    + rewrite lookup_insert_ne by done. rewrite Hl. naive_solver.
Qed.

Lemma dedup_fresh ttl now key seen :
  (dedup_check ttl now key seen).1 = true ↔ ∀ t, seen !! key = Some t → t < now - ttl.
Proof.
  unfold dedup_check. set (live := filter _ _). destruct (live !! key) as [u|] eqn:E; cbn.
  - unfold live in E. rewrite map_lookup_filter_Some in E. cbn in E. destruct E as [E Hu]. split; [done|].
    intros Hall. specialize (Hall u E). lia.
  - split; [|done]. intros _ t Ht. unfold live in E. rewrite map_lookup_filter_None in E.
    destruct E as [E|E]; [congruence|]. specialize (E t Ht). cbn in E. lia.
Qed.

(** Requests as they arrive: the time since the previous one, the wall clock,
    which may be set back, and the faults of the connection. *)
Record visit := mkVisit { v_elapsed : Z; v_wall : Z; v_faults : list bool; v_request : http_request }.
Definition arrive (v : visit) (w : gworld B) : gworld B :=
  mkGworld (g_signals w) (g_next_signal_id w) (g_outbox w) (g_symbol_map w) (g_seen w) (g_buckets w) (g_cache w)
    (g_monotonic w + v_elapsed v) (v_wall v) (v_faults v) (g_uuid w) (g_bus w).
Abbreviation dispatch := (dispatch bus hmac_hex json_loads repr uuid_str secret dedup_ttl cache_ttl window limit).
(** The answers, with their time on the monotonic clock. *)
Fixpoint serve (vs : list visit) (w : gworld B) : list (Z * http_request * res response) :=
  match vs with
  | [] => []
  | v :: vs' => let '(x, w') := dispatch (v_request v) (arrive v w) in
      (g_monotonic w + v_elapsed v, v_request v, x) :: serve vs' w'
  end.

(** What a request does to the ring: nothing, or the check of its key. *)
Lemma dispatch_ring r (w : gworld B) x w' :
  dispatch r w = (x, w') →
  g_monotonic w' = g_monotonic w ∧
  ((∃ e, envelope_of r = Some e ∧ g_seen w' = (dedup_check dedup_ttl (g_monotonic w) (se_idempotency_key e) (g_seen w)).2 ∧
      (∀ id, x = Ok (validated_response id) → (dedup_check dedup_ttl (g_monotonic w) (se_idempotency_key e) (g_seen w)).1 = true)) ∨
   g_seen w' = g_seen w ∧ ∀ id, x ≠ Ok (validated_response id)).
Proof.
  unfold Gateway.dispatch. destruct (_ || _); [intros [= <- <-]; auto|]. intros Hr. st_inv.
  destruct (limiter_check _ _ _ _ _) as [allowed b']. st_inv. destruct allowed; [|injection Hr as <- <-; auto].
  apply webhook_cases in Hr as [(e & w1 & He & _ & _ & Hv & _ & _ & _ & _ & Hacc)|(Hx & _ & [? ?] & _)]; [|by auto].
  unfold view in Hv. injection Hv as _ _ Hn1 Hmo _. cbn in Hn1, Hmo.
  apply accept_signal_view in Hacc as (Hc & Hn & Hcase). rewrite Hmo, Hn1 in *. split; [done|]. left. exists e.
  split_and!; [done|done|]. intros id ->. destruct Hcase as [(? & ? & _ & Hf & _)|(Hx & _)]; [done|]. by specialize (Hx id).
Qed.

(** The ring remembers every validated key for its time to live. *)
Definition remembered (h : list (Z * string)) (w : gworld B) : Prop := ∀ t k,
  (t, k) ∈ h → t <= g_monotonic w ∧ (g_monotonic w - dedup_ttl <= t → g_seen w !! k = Some t).

Lemma remembered_later h v w : 0 <= v_elapsed v → remembered h w → remembered h (arrive v w).
Proof. intros Hv Hr t k Hin. destruct (Hr t k Hin) as [H1 H2]. cbn. split; [lia|]. intros. apply H2. lia. Qed.

Lemma remembered_dispatch h r (w : gworld B) x w' :
  remembered h w → dispatch r w = (x, w') →
  remembered h w' ∧
  ∀ id e, x = Ok (validated_response id) → envelope_of r = Some e →
    remembered ((g_monotonic w, se_idempotency_key e) :: h) w' ∧
    ∀ t, (t, se_idempotency_key e) ∈ h → dedup_ttl < g_monotonic w - t.
Proof.
  intros Hr Hd. apply dispatch_ring in Hd as [Hm [(e & He & Hs & Hf)|[Hs Hx]]].
  - assert (remembered h w') as Hr'.
    { intros t k Hin. destruct (Hr t k Hin) as [H1 H2]. rewrite Hm, Hs. split; [done|]. intros Ht. apply dedup_live. right. auto. }
    split; [done|]. intros id e0 Hx He0. assert (e0 = e) as -> by congruence. split.
    + intros t k [[= -> ->]|Hin]%elem_of_cons; [|by apply Hr']. rewrite Hm. split; [lia|]. intros _. rewrite Hs.
      apply dedup_live. left. eauto.
    + intros t Hin. pose proof (proj1 (dedup_fresh _ _ _ _) (Hf id Hx)) as Hall. destruct (Hr _ _ Hin) as [_ H2].
      destruct (Z.lt_ge_cases t (g_monotonic w - dedup_ttl)); [lia|]. specialize (Hall t (H2 ltac:(lia))). lia.
  - split; [|intros id e ->; by specialize (Hx id)]. intros t k Hin. rewrite Hm, Hs. by apply Hr.
Qed.

Lemma serve_after vs : ∀ h (w : gworld B) t r id e t0,
  Forall (fun v => 0 <= v_elapsed v) vs → remembered h w →
  (t, r, Ok (validated_response id)) ∈ serve vs w → envelope_of r = Some e → (t0, se_idempotency_key e) ∈ h → dedup_ttl < t - t0.
Proof.
  induction vs as [|v vs IH]; intros h w t r id e t0 Hv Hr Hin He Ht0; [by apply not_elem_of_nil in Hin|].
  apply Forall_cons in Hv as [Hv0 Hv]. cbn [serve] in Hin. destruct (dispatch _ _) as [x w'] eqn:Ed.
  pose proof (remembered_dispatch h _ _ _ _ (remembered_later h v w Hv0 Hr) Ed) as [Hr' Hval].
  apply elem_of_cons in Hin as [[= -> -> <-]|Hin]; [|by eapply IH].
  destruct (Hval id e eq_refl He) as [_ Hgap]. by apply Hgap.
Qed.

(** C25: over any sequence of requests, with any faults and however the wall
    clock moves, two requests with the same key that are both answered 200 are
    more than the ring's time to live apart. *)
Theorem validated_once_per_ttl vs (w : gworld B) i j t1 t2 r1 r2 id1 id2 e1 e2 :
  Forall (fun v => 0 <= v_elapsed v) vs →
  serve vs w !! i = Some (t1, r1, Ok (validated_response id1)) → serve vs w !! j = Some (t2, r2, Ok (validated_response id2)) →
  (i < j)%nat → envelope_of r1 = Some e1 → envelope_of r2 = Some e2 → se_idempotency_key e1 = se_idempotency_key e2 →
  dedup_ttl < t2 - t1.
Proof.
  intros Hv. revert w i j. induction vs as [|v vs IH]; intros w i j Hi Hj Hij He1 He2 Hk; [done|].
  apply Forall_cons in Hv as [Hv0 Hv]. cbn [serve] in Hi, Hj. destruct (dispatch _ _) as [x w'] eqn:Ed.
  destruct j as [|j]; [lia|]. destruct i as [|i]; [|apply (IH Hv w' i j); auto; lia]. cbn in Hi, Hj. injection Hi as <- <- ->.
  assert (remembered [] (arrive v w)) as Hnil by (by intros ? ? ?%not_elem_of_nil).
  destruct (remembered_dispatch [] _ _ _ _ Hnil Ed) as [_ Hval]. destruct (Hval id1 e1 eq_refl He1) as [Hr' _].
  apply (serve_after vs _ w' t2 r2 id2 e2 _ Hv Hr'); [by eapply list_elem_of_lookup_2|done|]. rewrite <-Hk. by left.
Qed.

(** A signal whose database write failed is lost: the key was recorded
    before the write, so a retry within the time to live, whatever happens in
    between and however healthy the database is by then, is answered as a
    duplicate (or fails again) and never reaches the outbox. *)
Lemma failed_write_loses_signal r e v (w w1 w2 : gworld B) x :
  Gateway.webhook bus hmac_hex json_loads repr uuid_str secret dedup_ttl cache_ttl r w = (Ok (error_response 500 internal), w1) →
  envelope_of r = Some e →
  (dedup_check dedup_ttl (g_monotonic w) (se_idempotency_key e) (g_seen w)).1 = true →
  0 <= v_elapsed v <= dedup_ttl →
  Gateway.webhook bus hmac_hex json_loads repr uuid_str secret dedup_ttl cache_ttl r (arrive v w1) = (x, w2) →
  ob_rows (g_outbox w1) = ob_rows (g_outbox w) ∧ ob_rows (g_outbox w2) = ob_rows (g_outbox w) ∧
  (x = Ok duplicate_response ∨ x = Ok (error_response 500 internal) ∨ ∃ ex, x = Err ex).
Proof.
  intros H1 He Hf Hd H2.
  apply webhook_cases in H1 as [(e1 & wa & He1 & _ & Hsig & Hv & _ & _ & _ & _ & Hacc)|(_ & _ & _ & _ & Hno)];
    [|destruct Hno as [?|[[_ [=]]|[? [=]]]]; congruence].
  assert (e1 = e) as -> by congruence. unfold view in Hv. injection Hv as _ Ho1 Hn1 Hmo _.
  apply accept_signal_view in Hacc as (Hmo1 & Hs1 & [(? & ? & [=] & _)|(_ & Hob1 & _ & _)]). rewrite Hmo, Hn1 in *.
  assert (g_seen w1 !! se_idempotency_key e = Some (g_monotonic w)) as Hseen by (rewrite Hs1; apply dedup_live; by left).
  split; [congruence|].
  apply webhook_cases in H2 as [(e2 & wb & He2 & _ & _ & Hv & _ & _ & _ & _ & Hacc)|(_ & Ho & _ & _ & Hno)].
  - assert (e2 = e) as -> by congruence. unfold view in Hv. cbn in Hv. injection Hv as _ Ho2 Hn2 Hmo2 _.
    assert ((dedup_check dedup_ttl (g_monotonic wb) (se_idempotency_key e) (g_seen wb)).1 = false) as Hdup.
    { apply not_true_is_false. rewrite dedup_fresh. intros Hall. rewrite Hn2, Hmo2 in Hall. specialize (Hall _ Hseen). lia. }
    apply accept_signal_view in Hacc as (_ & _ & [(? & ? & _ & ? & _)|(_ & Hob & _ & Hx)]); [congruence|].
    split; [congruence|]. destruct (Hx Hdup); auto.
  - cbn in Ho. split; [congruence|]. destruct Hno as [?|[[? _]|?]]; [congruence|done|by auto].
Qed.
End effects.

(** ** Migration of top-level keys *)
(** Validation keeps the five named fields and collects every other
    top-level key in the payload, where a key of an explicit payload wins over
    a top-level one; nothing else gets into the payload. *)
Lemma validation_collects_payload d e :
  model_validate (JObj d) = Some e →
  dict_get "symbol" d = Some (JStr (se_symbol e)) ∧ dict_get "source" d = Some (JStr (se_source e)) ∧
  dict_get "idempotency_key" d = Some (JStr (se_idempotency_key e)) ∧
  dict_get "action" d = Some (JStr (action_text (se_action e))) ∧
  se_symbol e ≠ "" ∧ se_source e ≠ "" ∧ se_idempotency_key e ≠ "" ∧
  ∀ k, dict_get k (se_payload e) =
    let top := if decide (k ∉ envelope_fields) then dict_get k d else None in
    match dict_get "payload" d with
    | Some (JObj p) => match dict_get k p with Some v => Some v | None => top end
    | _ => top
    end.
Proof.
  assert (∀ v s, nonempty_str v = Some s → v = Some (JStr s) ∧ s ≠ "") as Hstr.
  { intros [[]|] s0; try done. cbn. destruct (String.eqb_spec s ""); intros [= <-]; done. }
  assert (∀ v a, action_of v = Some a → v = Some (JStr (action_text a))) as Hact.
  { intros [[| | | |s| |]|] a; try done. unfold action_of. intros Ha. repeat case_match; simplify_eq; done. }
  assert (∀ d' (E : SignalEnvelope), validate_fields (JObj d') = Some E →
    dict_get "symbol" d' = Some (JStr (se_symbol E)) ∧ dict_get "source" d' = Some (JStr (se_source E)) ∧
    dict_get "idempotency_key" d' = Some (JStr (se_idempotency_key E)) ∧ dict_get "action" d' = Some (JStr (action_text (se_action E))) ∧
    se_symbol E ≠ "" ∧ se_source E ≠ "" ∧ se_idempotency_key E ≠ "" ∧
    payload_of (dict_get "payload" d') = Some (se_payload E)) as Hval.
  { intros d' E0. cbn [validate_fields]. destruct (filter is_extra d'); [|done].
    intros (sy & Hsy & (ac & Hac & (so & Hso & (ke & Hke & (pl & Hpl & [= <-])%bind_Some)%bind_Some)%bind_Some)%bind_Some)%bind_Some.
    apply Hstr in Hsy as [? ?], Hso as [? ?], Hke as [? ?]. apply Hact in Hac. cbn. by split_and!. }
  unfold model_validate. pose proof (fun k => dict_get_filter is_extra (fun q => q ∉ envelope_fields) k d ltac:(done)) as Hex.
  cbn [migrate_unknown_keys]. destruct (filter is_extra d) as [|x l] eqn:El.
  - intros (H1 & H2 & H3 & H4 & H5 & H6 & H7 & Hp)%Hval. split_and!; try done. intros k. cbn zeta. rewrite <-Hex.
    destruct (dict_get "payload" d) as [[]|]; cbn in Hp; try discriminate Hp; injection Hp as <-; [|done].
    by destruct (dict_get k _).
  - assert (∀ q p, q ≠ "payload" → q ∈ envelope_fields →
      dict_get q (dict_merge (filter (fun kv => ¬ is_extra kv) d) [("payload", JObj p)]) = dict_get q d) as Hkept.
    { intros q p Hq Hin. rewrite dict_get_merge. cbn. destruct (String.eqb_spec q "payload"); [done|].
      rewrite (dict_get_filter _ (fun q => ¬ (q ∉ envelope_fields))) by done. rewrite decide_True; [done|]. tauto. }
    assert (∀ p E0, validate_fields (JObj (dict_merge (filter (fun kv => ¬ is_extra kv) d) [("payload", JObj p)])) = Some E0 →
      dict_get "symbol" d = Some (JStr (se_symbol E0)) ∧ dict_get "source" d = Some (JStr (se_source E0)) ∧
      dict_get "idempotency_key" d = Some (JStr (se_idempotency_key E0)) ∧ dict_get "action" d = Some (JStr (action_text (se_action E0))) ∧
      se_symbol E0 ≠ "" ∧ se_source E0 ≠ "" ∧ se_idempotency_key E0 ≠ "" ∧ se_payload E0 = p) as Hmig.
    { intros p E0 (H1 & H2 & H3 & H4 & H5 & H6 & H7 & Hp)%Hval.
      rewrite Hkept in H1, H2, H3, H4 by (done || (unfold envelope_fields; set_solver)).
      rewrite dict_get_merge in Hp. cbn in Hp. injection Hp as <-. by split_and!. }
    destruct (dict_get "payload" d) as [[]|]; cbn zeta;
      try (intros (H1 & H2 & H3 & H4 & H5 & H6 & H7 & ->)%Hmig; split_and!; try done; intros k; rewrite dict_get_merge, Hex; done).
    all: cbn [validate_fields]; rewrite El; done.
Qed.

(** ** A concrete gateway *)
Definition demo_gateway_bus : bus_ops unit raw_payload unit := {|
  bus_publish s m := mret tt; bus_subscribe s h := mret tt; bus_close := mret tt; bus_kv_get s k := mret None;
  bus_kv_put s k v := mret 1; bus_kv_update s k v n := mret 1;
|}.
Definition demo_body : dict :=
  [("symbol", JStr "BTCUSDT.P"); ("rsi", JInt 14); ("action", JStr "LONG"); ("source", JStr "tv"); ("idempotency_key", JStr "k1");
   ("payload", JObj [("rsi", JInt 15)])].
Definition demo_loads (body : string) : res json := if (body =? "alert")%string then Ok (JObj demo_body) else Err JSONDecodeError.
Definition demo_http : http_request := mkHttp "POST" "/webhook" "1.2.3.4" "" None "sig:alert" "tv" "alert".
Definition demo_gworld (faults : list bool) : gworld unit :=
  mkGworld [] 1 empty_outbox {["BTCUSDT.P" := "BTCUSDT"]} ∅ ∅ ∅ 1000 5000 faults 0 tt.
Definition demo_envelope : SignalEnvelope := mkSignalEnvelope "BTCUSDT.P" LONG "tv" "k1" [("rsi", JInt 15)].
Abbreviation demo_webhook := (Gateway.webhook demo_gateway_bus (fun _ b => "sig:" +:+ b) demo_loads (fun _ => "") (fun _ => "u") "secret" 10000000 60000000).

Lemma webhook_commits_both_or_none_witness :
  ∃ w', demo_webhook demo_http (demo_gworld []) = (Ok (validated_response 1), w') ∧
    ob_rows (g_outbox w') !! 1 = Some (validated_event 5000 demo_envelope "BTCUSDT") ∧
    g_signals w' = [validated_row 1 5000 demo_envelope "BTCUSDT"].
Proof.
  destruct (demo_webhook demo_http (demo_gworld [])) as [x w'] eqn:E.
  pose proof (webhook_commits_both_or_none _ _ _ _ _ _ _ _ _ _ _ _ E) as Hw.
  assert (x = Ok (validated_response 1)) as -> by (apply (f_equal fst) in E; vm_compute in E; congruence).
  exists w'. split; [reflexivity|].
  destruct Hw as [(id & e & sym & [= <-] & _ & He & _ & Hsym & Hs & Ho)|[Hx _]]; [|by destruct (Hx 1)].
  vm_compute in He. injection He as <-. destruct Hsym as [(? & Hc & _)|Hsym]; [vm_compute in Hc; discriminate|].
  vm_compute in Hsym. injection Hsym as <-. rewrite Hs, Ho. split; vm_compute; reflexivity.
Defined.

Lemma validated_once_per_ttl_witness :
  let vs := [mkVisit 0 5000 [] demo_http; mkVisit 5000000 5005000 [] demo_http; mkVisit 5000001 10005001 [] demo_http] in
  let answers := serve demo_gateway_bus (fun _ b => "sig:" +:+ b) demo_loads (fun _ => "") (fun _ => "u") "secret" 10000000 60000000
    60000000 20 vs (demo_gworld []) in
  answers.*2 = [Ok (validated_response 1); Ok duplicate_response; Ok (validated_response 3)] ∧ 10000000 < 10001001 - 1000.
Proof.
  split; [vm_compute; reflexivity|].
  refine (validated_once_per_ttl demo_gateway_bus (fun _ b => "sig:" +:+ b) demo_loads (fun _ => "") (fun _ => "u") "secret" 10000000
    60000000 60000000 20 [mkVisit 0 5000 [] demo_http; mkVisit 5000000 5005000 [] demo_http; mkVisit 5000001 10005001 [] demo_http]
    (demo_gworld []) 0 2 1000 10001001 demo_http demo_http 1 3 demo_envelope demo_envelope _ _ _ _ _ _ _);
    [repeat constructor; cbn; lia|vm_compute; reflexivity|vm_compute; reflexivity|lia|vm_compute; reflexivity|vm_compute; reflexivity|reflexivity].
Defined.

Lemma validated_signal_is_published_witness :
  let bus' : bus_ops Z validated_payload unit := {|
    bus_publish s m := fun b => (Ok tt, b + 1); bus_subscribe s h := mret tt; bus_close := mret tt; bus_kv_get s k := mret None;
    bus_kv_put s k v := mret 1; bus_kv_update s k v n := mret 1 |} in
  ∃ w' n t b log msg, demo_webhook demo_http (demo_gworld []) = (Ok (validated_response 1), w') ∧
    run (logging_bus bus') (logging_env demo_relay_env) (fun t => map_to_list (ob_rows t)) "signal-gateway" demo_settings n (g_outbox w', (5000, []))
      = (Ok tt, (t, (b, log))) ∧
    ("signals.validated", msg) ∈ log ∧ announces 5000 demo_envelope "BTCUSDT" msg ∧ ∃ r, ob_rows t !! 1 = Some r ∧ ob_published_at r ≠ None.
Proof.
  cbn zeta. destruct (demo_webhook demo_http (demo_gworld [])) as [x w'] eqn:E.
  assert (x = Ok (validated_response 1)) as -> by (apply (f_equal fst) in E; vm_compute in E; congruence).
  match goal with |- context [run (logging_bus ?bus') _ _ _ _ _ _] =>
    destruct (validated_signal_is_published _ _ _ _ _ _ _ _ bus' demo_relay_env (fun t => map_to_list (ob_rows t)) demo_settings id
      demo_http 1 (demo_gworld []) w' 5000 [] E) as (n & e & sym & He & Hsym & Hn) end;
    [intros t; done|reflexivity|split; cbn; intros; try split; cbn; lia || done|].
  vm_compute in He. injection He as <-. destruct Hsym as [(? & Hc & _)|Hsym]; [vm_compute in Hc; discriminate|].
  vm_compute in Hsym. injection Hsym as <-.
  destruct (Hn n ltac:(lia)) as (t & b & k & at_ & msg & Hrun & Hin & Han & Hr).
  exists w', n, t, b, k, msg. split_and!; [done|exact Hrun|exact Hin|exact Han|]. eexists. split; [exact Hr|done].
Defined.
