(* ===== verification/Features.v ===== *)
(** * Built-in features, candle buffers and the feature pipeline

    Models packages/features/builtins/{ema,rsi,atr,bollinger,macd,vwap}.py,
    packages/features/buffers/registry.py, packages/features/intervals.py and
    services/feature_engine/app/{pipeline,warmup}.py with [insert_feature] and
    [fetch_warmup_window] of packages/db/queries/feature_engine.py.  [builtin]
    has a constructor per feature class with its constructor's arguments;
    [warmup_candles] and [compute] are their attribute and method.  Prices are
    28-digit decimals.  The conversion to float at the end of the pipeline is
    the parameter [to_float]. *)

From S2P Require Import Prelude Dec Bus.
Open Scope Z_scope.

(** ** packages/features/types.py *)
Record OhlcCandle := mkOhlc {
  oc_symbol : string; oc_interval : string; oc_bucket_start : Z;
  oc_open : dec; oc_high : dec; oc_low : dec; oc_close : dec; oc_volume : dec; oc_source : string;
}.
Inductive FeatureValue :=
| value_num (d : dec)
| value_bool (b : bool)
| value_json (fields : list (string * dec)).

(** ** The features *)
Definition DAY : Z := 86400 * 1000000.

(** [FeatureUnderflowError] unless there are [n] candles. *)
Definition require_candles (n : nat) (candles : list OhlcCandle) : res unit :=
  if (length candles <? n)%nat then Err FeatureUnderflowError else Ok tt.
Definition nat_dec (n : nat) : dec := mkDec (Z.of_nat n) 0.
Definition closes_of (candles : list OhlcCandle) : list dec := map oc_close candles.

(** The smoothing loop of [EmaFeature.compute]. *)
Fixpoint ema_loop (alpha ema : dec) (closes : list dec) : dec :=
  match closes with
  | [] => ema
  | close :: rest => ema_loop alpha (dadd (dmul close alpha) (dmul ema (dsub (mkDec 1 0) alpha))) rest
  end.
Definition ema_compute (period : nat) (candles : list OhlcCandle) : res FeatureValue :=
  require_candles period candles ≫= fun _ =>
  let closes := closes_of candles in
  sma_seed ← ddiv (dsum (take period closes)) (nat_dec period);
  alpha ← ddiv (mkDec 2 0) (nat_dec (period + 1));
  Ok (value_num (ema_loop alpha sma_seed (drop period closes))).

(** Gains and losses between neighbouring closes. *)
Definition gain_loss (delta : dec) : dec * dec := if dleb dzero delta then (delta, dzero) else (dzero, dneg delta).
Fixpoint gains_losses_from (prev : dec) (closes : list dec) : list (dec * dec) :=
  match closes with
  | [] => []
  | close :: rest => gain_loss (dsub close prev) :: gains_losses_from close rest
  end.
Definition gains_losses (closes : list dec) : list (dec * dec) :=
  match closes with [] => [] | first :: rest => gains_losses_from first rest end.
(** Wilder smoothing: [(avg * (period - 1) + x) / period]. *)
Definition wilder (period : nat) (avg x : dec) : res dec :=
  ddiv (dadd (dmul avg (dsub (nat_dec period) (mkDec 1 0))) x) (nat_dec period).
Fixpoint wilder_loop (period : nat) (avg : dec) (xs : list dec) : res dec :=
  match xs with
  | [] => Ok avg
  | x :: rest => avg' ← wilder period avg x; wilder_loop period avg' rest
  end.
Definition rsi_of (avg_gain avg_loss : dec) : res dec :=
  if deqb avg_loss dzero then Ok (if dltb dzero avg_gain then mkDec 100 0 else mkDec 50 0)
  else
    rs ← ddiv avg_gain avg_loss;
    q ← ddiv (mkDec 100 0) (dadd (mkDec 1 0) rs);
    Ok (dsub (mkDec 100 0) q).
Definition rsi_compute (period : nat) (candles : list OhlcCandle) : res FeatureValue :=
  require_candles (period + 1) candles ≫= fun _ =>
  let gl := gains_losses (closes_of candles) in
  gain_seed ← ddiv (dsum (take period (map fst gl))) (nat_dec period);
  loss_seed ← ddiv (dsum (take period (map snd gl))) (nat_dec period);
  avg_gain ← wilder_loop period gain_seed (drop period (map fst gl));
  avg_loss ← wilder_loop period loss_seed (drop period (map snd gl));
  rsi ← rsi_of avg_gain avg_loss;
  Ok (value_num rsi).

Definition true_range (prev_close : dec) (c : OhlcCandle) : dec :=
  dmax (dmax (dsub (oc_high c) (oc_low c)) (dabs (dsub (oc_high c) prev_close))) (dabs (dsub (oc_low c) prev_close)).
Fixpoint true_ranges_from (prev_close : dec) (candles : list OhlcCandle) : list dec :=
  match candles with
  | [] => []
  | c :: rest => true_range prev_close c :: true_ranges_from (oc_close c) rest
  end.
Definition true_ranges (candles : list OhlcCandle) : list dec :=
  match candles with [] => [] | first :: rest => true_ranges_from (oc_close first) rest end.
Definition atr_compute (period : nat) (candles : list OhlcCandle) : res FeatureValue :=
  require_candles (period + 1) candles ≫= fun _ =>
  let trs := true_ranges candles in
  seed ← ddiv (dsum (take period trs)) (nat_dec period);
  atr ← wilder_loop period seed (drop period trs);
  Ok (value_num atr).

Definition bollinger_compute (period : nat) (mult : dec) (candles : list OhlcCandle) : res FeatureValue :=
  require_candles period candles ≫= fun _ =>
  let closes := closes_of (drop (length candles - period) candles) in
  middle ← ddiv (dsum closes) (nat_dec period);
  variance ← ddiv (dsum (map (fun c => dsquare (dsub c middle)) closes)) (nat_dec period);
  sigma ← dsqrt variance;
  let offset := dmul mult sigma in
  Ok (value_json [("upper", dadd middle offset); ("middle", middle); ("lower", dsub middle offset)]).

(** [_sma_seeded_ema_series]. *)
Fixpoint ema_series_loop (alpha one_minus_alpha last : dec) (values : list dec) : list dec :=
  match values with
  | [] => []
  | v :: rest => let e := dadd (dmul v alpha) (dmul last one_minus_alpha) in e :: ema_series_loop alpha one_minus_alpha e rest
  end.
Definition sma_seeded_ema_series (values : list dec) (period : nat) : res (list dec) :=
  if (length values <? period)%nat then Err (ValueError "_sma_seeded_ema_series") else
  sma_seed ← ddiv (dsum (take period values)) (nat_dec period);
  alpha ← ddiv (mkDec 2 0) (dadd (nat_dec period) (mkDec 1 0));
  Ok (sma_seed :: ema_series_loop alpha (dsub (mkDec 1 0) alpha) sma_seed (drop period values)).

(** [zip(a, b, strict=True)]. *)
Fixpoint zip_strict (a b : list dec) : res (list (dec * dec)) :=
  match a, b with
  | [], [] => Ok []
  | x :: a', y :: b' => l ← zip_strict a' b'; Ok ((x, y) :: l)
  | _, _ => Err (ValueError "zip() arguments have different lengths")
  end.
Definition last_of (l : list dec) : res dec := match last l with Some x => Ok x | None => Err (KeyError "-1") end.
Definition macd_compute (fast slow signal : nat) (candles : list OhlcCandle) : res FeatureValue :=
  require_candles (slow + signal - 1) candles ≫= fun _ =>
  let closes := closes_of candles in
  slow_ema ← sma_seeded_ema_series closes slow;
  fast_ema_full ← sma_seeded_ema_series closes fast;
  pairs ← zip_strict (drop (slow - fast) fast_ema_full) slow_ema;
  let macd_line := map (fun '(f, s) => dsub f s) pairs in
  signal_line ← sma_seeded_ema_series macd_line signal;
  macd ← last_of macd_line;
  sig ← last_of signal_line;
  Ok (value_json [("macd", macd); ("signal", sig); ("histogram", dsub macd sig)]).

Definition typical_price (c : OhlcCandle) : res dec := ddiv (dadd (dadd (oc_high c) (oc_low c)) (oc_close c)) (mkDec 3 0).
Fixpoint vwap_loop (weighted total : dec) (cs : list OhlcCandle) : res (dec * dec) :=
  match cs with
  | [] => Ok (weighted, total)
  | c :: rest =>
      typical ← typical_price c;
      vwap_loop (dadd weighted (dmul typical (oc_volume c))) (dadd total (oc_volume c)) rest
  end.
Definition vwap_compute (candles : list OhlcCandle) : res FeatureValue :=
  match last candles with
  | None => Err FeatureUnderflowError
  | Some latest =>
      let session := filter (fun c => oc_bucket_start c / DAY = oc_bucket_start latest / DAY) candles in
      r ← vwap_loop dzero dzero session;
      let '(weighted, total) := r in
      if deqb total dzero then Err FeatureUnderflowError else
      v ← ddiv weighted total;
      Ok (value_num v)
  end.

Inductive builtin :=
| EmaFeature (period : nat)
| RsiFeature (period : nat)
| AtrFeature (period : nat)
| BollingerFeature (period : nat) (std_dev_multiplier : dec)
| MacdFeature (fast slow signal : nat)
| VwapFeature.
(** The constructors' checks. *)
Definition constructible (f : builtin) : bool :=
  match f with
  | EmaFeature p | RsiFeature p | AtrFeature p => (1 <=? p)%nat
  | BollingerFeature p m => (2 <=? p)%nat && dltb dzero m
  | MacdFeature fa sl si => (1 <=? fa)%nat && (1 <=? sl)%nat && (1 <=? si)%nat && (fa <? sl)%nat
  | VwapFeature => true
  end.
Definition warmup_candles (f : builtin) : nat :=
  match f with
  | EmaFeature p => p
  | RsiFeature p | AtrFeature p => p + 1
  | BollingerFeature p _ => p
  | MacdFeature _ sl si => sl + si - 1
  | VwapFeature => 1
  end.
Definition compute (f : builtin) (candles : list OhlcCandle) : res FeatureValue :=
  match f with
  | EmaFeature p => ema_compute p candles
  | RsiFeature p => rsi_compute p candles
  | AtrFeature p => atr_compute p candles
  | BollingerFeature p m => bollinger_compute p m candles
  | MacdFeature fa sl si => macd_compute fa sl si candles
  | VwapFeature => vwap_compute candles
  end.

Definition source_version (f : builtin) : string :=
  match f with
  | EmaFeature _ => "builtin.ema.v1" | RsiFeature _ => "builtin.rsi.v1" | AtrFeature _ => "builtin.atr.v1"
  | BollingerFeature _ _ => "builtin.bollinger.v1" | MacdFeature _ _ _ => "builtin.macd.v1" | VwapFeature => "builtin.vwap.v1"
  end.

(** ** packages/features/buffers/registry.py *)
Abbreviation buffer_key := (string * string)%type.
Record BufferRegistry := mkRegistry {
  capacity_map : gmap buffer_key nat; buffers : gmap buffer_key (list OhlcCandle); counts : gmap buffer_key Z;
}.
Record BufferHandle := mkHandle { bh_key : buffer_key; bh_released : bool }.

(** [deque(maxlen=cap).append]. *)
Definition dq_append {A} (cap : nat) (l : list A) (x : A) : list A :=
  let l' := l ++ [x] in drop (length l' - cap) l'.

Definition acquire (key : buffer_key) : ST BufferRegistry BufferHandle := fun r =>
  match capacity_map r !! key with
  | None => (Err (KeyError key.1), r)
  | Some _ =>
      let count := default 0 (counts r !! key) in
      (Ok (mkHandle key false),
       mkRegistry (capacity_map r) (if count =? 0 then <[key := []]> (buffers r) else buffers r)
         (<[key := count + 1]> (counts r)))
  end.
Definition push (key : buffer_key) (c : OhlcCandle) (r : BufferRegistry) : BufferRegistry :=
  match buffers r !! key with
  | None => r
  | Some b => mkRegistry (capacity_map r) (<[key := dq_append (default 0%nat (capacity_map r !! key)) b c]> (buffers r)) (counts r)
  end.
Definition release (key : buffer_key) (r : BufferRegistry) : BufferRegistry :=
  let count := default 0 (counts r !! key) in
  if count =? 0 then r
  else if 1 <? count then mkRegistry (capacity_map r) (buffers r) (<[key := count - 1]> (counts r))
  else mkRegistry (capacity_map r) (delete key (buffers r)) (delete key (counts r)).
Definition registry_tail (key : buffer_key) (n : nat) (r : BufferRegistry) : list OhlcCandle :=
  match buffers r !! key with
  | None => []
  | Some b => drop (length b - n) b
  end.
Definition handle_tail (h : BufferHandle) (n : nat) (r : BufferRegistry) : res (list OhlcCandle) :=
  if bh_released h then Err (RuntimeError "handle released") else Ok (registry_tail (bh_key h) n r).
Definition handle_exit (h : BufferHandle) (r : BufferRegistry) : BufferHandle * BufferRegistry :=
  if bh_released h then (h, r) else (mkHandle (bh_key h) true, release (bh_key h) r).

(** ** packages/features/intervals.py *)
Definition INTERVAL_DELTA (interval : string) : option Z :=
  (if interval =? "1m" then Some (60 * 1000000)
   else if interval =? "5m" then Some (300 * 1000000)
   else if interval =? "15m" then Some (900 * 1000000)
   else if interval =? "1h" then Some (3600 * 1000000)
   else if interval =? "4h" then Some (14400 * 1000000)
   else if interval =? "1d" then Some DAY
   else None)%string.

(** ** services/feature_engine/app/pipeline.py *)
Section pipeline.
Context {B H F : Type} (to_float : dec → F).

Inductive wire_value :=
| wire_num (f : F)
| wire_bool (b : bool)
| wire_json (fields : list (string * F)).
Record FeatureUpdate := mkUpdate {
  fu_feature_name : string; fu_symbol : string; fu_computed_at : Z; fu_value : wire_value; fu_source_version : string;
}.
(** The primary key of [features]. *)
Abbreviation feature_pk := (string * string * Z * string)%type.

Record fworld := mkFworld {
  fw_registry : BufferRegistry; fw_handles : gmap buffer_key BufferHandle;
  fw_features : gmap feature_pk wire_value; fw_faults : list bool; fw_bus : B;
}.
Abbreviation FW := (ST fworld).

Context (bus : bus_ops B FeatureUpdate H) (dump : FeatureUpdate → string) (isoformat : Z → string) (now : Z).
(** [features_by_key], a dict. *)
Context (features_by_key : list (buffer_key * list (string * builtin))).

Definition features_for (key : buffer_key) : list (string * builtin) :=
  match list_find (fun kv => kv.1 = key) features_by_key with Some (_, (_, fs)) => fs | None => [] end.

Definition set_registry (r : BufferRegistry) (w : fworld) : fworld :=
  mkFworld r (fw_handles w) (fw_features w) (fw_faults w) (fw_bus w).
Definition on_fbus {A} (m : ST B A) : FW A := fun w =>
  let '(r, b) := m (fw_bus w) in (r, mkFworld (fw_registry w) (fw_handles w) (fw_features w) (fw_faults w) b).

(** [insert_feature]: an upsert on the primary key, or the fault drawn. *)
Definition insert_feature (pk : feature_pk) (v : wire_value) : FW unit := fun w =>
  match fw_faults w with
  | true :: f => (Err (RuntimeError "connection"), mkFworld (fw_registry w) (fw_handles w) (fw_features w) f (fw_bus w))
  | f => (Ok tt, mkFworld (fw_registry w) (fw_handles w) (<[pk := v]> (fw_features w)) (tail f) (fw_bus w))
  end.

(** [acquire_handles] and [stop]. *)
Fixpoint acquire_keys (keys : list buffer_key) : FW unit :=
  match keys with
  | [] => mret tt
  | key :: rest =>
      w ← get_st;
      match acquire key (fw_registry w) with
      | (Err e, _) => throw e
      | (Ok h, r) =>
          modify (fun w => mkFworld r (<[key := h]> (fw_handles w)) (fw_features w) (fw_faults w) (fw_bus w)) ;;
          acquire_keys rest
      end
  end.
Definition acquire_handles : FW unit := acquire_keys (map fst features_by_key).
Definition stop : FW unit := modify (fun w =>
  mkFworld (fold_right (fun kh r => (handle_exit kh.2 r).2) (fw_registry w) (map_to_list (fw_handles w))) ∅
    (fw_features w) (fw_faults w) (fw_bus w)).

Definition to_wire (v : FeatureValue) : wire_value :=
  match v with
  | value_num d => wire_num (to_float d)
  | value_bool b => wire_bool b
  | value_json l => wire_json (map (fun '(k, d) => (k, to_float d)) l)
  end.
Definition build_update (name : string) (f : builtin) (v : FeatureValue) (c : OhlcCandle) : res FeatureUpdate :=
  match INTERVAL_DELTA (oc_interval c) with
  | None => Err (KeyError (oc_interval c))
  | Some d => Ok (mkUpdate name (oc_symbol c) (oc_bucket_start c + d) (to_wire v) (source_version f))
  end.
Definition pk_of (u : FeatureUpdate) : feature_pk := (fu_feature_name u, fu_symbol u, fu_computed_at u, fu_source_version u).
Definition subject_for (name symbol : string) : string := "features.updated." +:+ name +:+ "." +:+ symbol.
Definition update_envelope (u : FeatureUpdate) : MessageEnvelope FeatureUpdate :=
  mkMessage 0 ("feature:" +:+ fu_feature_name u +:+ ":" +:+ fu_symbol u +:+ ":" +:+ isoformat (fu_computed_at u)) now "feature-engine" u.

(** DB, then KV, then publish. *)
Definition persist_kv_publish (name : string) (f : builtin) (c : OhlcCandle) (v : FeatureValue) : FW unit :=
  u ← lift_res (build_update name f v c);
  stored ← attempt is_exception (insert_feature (pk_of u) (fu_value u));
  match stored with
  | Err _ => mret tt
  | Ok _ =>
      attempt is_exception (on_fbus (bus_kv_put bus "feature_latest" (name +:+ ":" +:+ oc_symbol c) (dump u))) ;;
      attempt is_exception (on_fbus (bus_publish bus (subject_for name (oc_symbol c)) (update_envelope u))) ;;
      mret tt
  end.

(** One registered feature of the candle's key. *)
Definition run_feature (h : BufferHandle) (c : OhlcCandle) (nf : string * builtin) : FW unit :=
  w ← get_st;
  match (tl ← handle_tail h (warmup_candles nf.2) (fw_registry w); compute nf.2 tl) with
  | Err e => if is_exception e then mret tt else throw e
  | Ok v => persist_kv_publish nf.1 nf.2 c v
  end.
Fixpoint run_features (h : BufferHandle) (c : OhlcCandle) (fs : list (string * builtin)) : FW unit :=
  match fs with
  | [] => mret tt
  | nf :: rest => run_feature h c nf ;; run_features h c rest
  end.
Definition dispatch_candle (c : OhlcCandle) : FW unit :=
  let key := (oc_symbol c, "1m") in
  w ← get_st;
  match features_for key, fw_handles w !! key with
  | [], _ | _, None => mret tt
  | fs, Some h =>
      modify (fun w => set_registry (push key c (fw_registry w)) w) ;;
      run_features h c fs
  end.
(** [_on_envelope] on a payload that parsed ([None] when it did not). *)
Definition on_envelope (payload : option (OhlcCandle * bool)) : FW unit :=
  match payload with
  | None => mret tt
  | Some (c, is_closed) => if negb is_closed then mret tt else dispatch_candle c
  end.

(** ** services/feature_engine/app/warmup.py, [fetch] being
    [fetch_warmup_window] *)
Definition max_warmup (fs : list (string * builtin)) : nat := fold_right (fun nf m => Nat.max (warmup_candles nf.2) m) 0%nat fs.
Fixpoint warmup_load (fetch : buffer_key → nat → res (list OhlcCandle)) (entries : list (buffer_key * list (string * builtin)))
  (r : BufferRegistry) : BufferRegistry :=
  match entries with
  | [] => r
  | (key, fs) :: rest =>
      match fetch key (max_warmup fs) with
      | Err _ => warmup_load fetch rest r
      | Ok rows => warmup_load fetch rest (fold_left (fun r c => push key c r) rows r)
      end
  end.

(** ** services/feature_engine/app/auto_backfill.py: the loop over the rows of
    the window; the mark is set only after all of them. *)
Fixpoint backfill_rows (name symbol interval : string) (f : builtin) (buf rows : list OhlcCandle) : FW unit :=
  match rows with
  | [] => mret tt
  | c :: rest =>
      let buf' := dq_append (warmup_candles f) buf c in
      if (length buf' <? warmup_candles f)%nat then backfill_rows name symbol interval f buf' rest else
      v ← lift_res (compute f buf');
      match INTERVAL_DELTA interval with
      | None => throw (KeyError interval)
      | Some d =>
          insert_feature (name, symbol, oc_bucket_start c + d, source_version f) (to_wire v) ;;
          backfill_rows name symbol interval f buf' rest
      end
  end.
Definition backfill_and_mark (name symbol interval : string) (f : builtin) (rows : list OhlcCandle) (mark : string) : FW unit :=
  attempt is_exception (
    backfill_rows name symbol interval f [] rows ;;
    on_fbus (bus_kv_put bus "feature_registry_seen" name mark)) ;;
  mret tt.
End pipeline.
