(* ===== verification/FeatureFacts.v ===== *)
(** * Features: ranges and totality of the built-ins, what the pipeline feeds
    them, the buffers against their abstract history, backfill against the
    live path *)

From S2P Require Import Prelude Dec Bus Features.
From Stdlib Require Import QArith Lqa.
Open Scope Z_scope.

Abbreviation nonneg := (fun d : dec => 0 <= coef d).

Lemma nat_dec_pos n : (1 <= n)%nat → 0 < coef (nat_dec n).
Proof. cbn. lia. Qed.

Lemma require_ok n cs : (n <= length cs)%nat → require_candles n cs = Ok tt.
Proof. intros. unfold require_candles. by rewrite (proj2 (Nat.ltb_ge _ _)) by done. Qed.
Lemma require_short n cs : (length cs < n)%nat → require_candles n cs = Err FeatureUnderflowError.
Proof. intros. unfold require_candles. by rewrite (proj2 (Nat.ltb_lt _ _)) by done. Qed.

(** ** Averages of non-negative amounts *)
Lemma average_ok l n : (1 <= n)%nat → Forall nonneg l → ∃ q, ddiv (dsum l) (nat_dec n) = Ok q ∧ 0 <= coef q.
Proof.
  intros Hn Hl. destruct (ddiv_ok (dsum l) (nat_dec n)) as [q Hq]; [pose proof (nat_dec_pos n Hn); lia|].
  exists q. split; [done|]. apply (ddiv_nonneg _ _ _ Hq); [by apply dsum_nonneg|by apply nat_dec_pos].
Qed.

Lemma wilder_ok p avg x : (1 <= p)%nat → 0 <= coef avg → 0 <= coef x → ∃ q, wilder p avg x = Ok q ∧ 0 <= coef q.
Proof.
  intros Hp Ha Hx. unfold wilder. set (num := dadd _ x).
  destruct (ddiv_ok num (nat_dec p)) as [q Hq]; [pose proof (nat_dec_pos p Hp); lia|]. exists q. split; [done|].
  apply (ddiv_nonneg _ _ _ Hq); [|by apply nat_dec_pos]. apply dadd_nonneg; [|done]. apply dmul_nonneg; [done|].
  apply dsub_nonneg. unfold dval. cbn [coef dexp nat_dec]. apply Qmul_p10_le. lia.
Qed.

Lemma wilder_loop_ok p xs : ∀ avg, (1 <= p)%nat → 0 <= coef avg → Forall nonneg xs → ∃ q, wilder_loop p avg xs = Ok q ∧ 0 <= coef q.
Proof.
  induction xs as [|x xs IH]; intros avg Hp Ha Hxs; [by exists avg|]. apply Forall_cons in Hxs as [Hx Hxs].
  destruct (wilder_ok p avg x Hp Ha Hx) as (q & Hq & Hq0). cbn. rewrite Hq. cbn. by apply IH.
Qed.

(** ** RSI *)
Lemma gain_loss_nonneg d : nonneg (gain_loss d).1 ∧ nonneg (gain_loss d).2.
Proof.
  unfold gain_loss. destruct (dleb dzero d) eqn:E; cbn.
  - apply dleb_spec in E. rewrite dval_zero in E. apply dval_sign in E. done.
  - split; [done|]. apply dneg_nonneg. apply dleb_false in E. rewrite dval_zero in E.
    destruct (Z.le_gt_cases 0 (coef d)) as [H|H]; [apply dval_sign in H; lra|lia].
Qed.
Lemma gains_losses_nonneg closes :
  Forall nonneg (map fst (gains_losses closes)) ∧ Forall nonneg (map snd (gains_losses closes)).
Proof.
  destruct closes as [|c closes]; [by split; constructor|]. cbn. revert c. induction closes as [|c' closes IH]; intros c; cbn; [done|].
  destruct (IH c') as [H1 H2]. destruct (gain_loss_nonneg (dsub c' c)) as [H3 H4]. split; constructor; done.
Qed.

Lemma rsi_of_range g l : 0 <= coef g → 0 <= coef l → ∃ r, rsi_of g l = Ok r ∧ (0 <= dval r <= 100)%Q.
Proof.
  intros Hg Hl. unfold rsi_of. destruct (deqb l dzero) eqn:El.
  { eexists. split; [reflexivity|]. destruct (dltb dzero g); vm_compute; split; discriminate. }
  assert (0 < coef l) as Hl'.
  { destruct (Z.eq_dec (coef l) 0) as [H0|]; [exfalso|lia]. assert (deqb l dzero = true); [|congruence].
    apply deqb_spec. rewrite dval_zero. unfold dval. rewrite H0. ring. }
  destruct (ddiv_ok g l) as [rs Hrs]; [lia|]. rewrite Hrs. cbn [mbind res_bind].
  assert (0 <= coef rs) as Hrs0 by (by apply (ddiv_nonneg g l)).
  assert (1 <= dval (dadd (mkDec 1 0) rs))%Q as H1.
  { pose proof (dadd_ge_l (mkDec 1 0) rs ltac:(done) Hrs0) as H. assert (dval (mkDec 1 0) == 1)%Q as <- by reflexivity. done. }
  assert (0 < coef (dadd (mkDec 1 0) rs)) as Hpos by (apply dval_sign; lra).
  destruct (ddiv_ok (mkDec 100 0) (dadd (mkDec 1 0) rs)) as [q Hq]; [lia|]. rewrite Hq. cbn [mbind res_bind].
  assert (0 <= coef q) as Hq0 by (by apply (ddiv_nonneg _ _ _ Hq)).
  assert (dval q <= 100)%Q as Hq1.
  { assert (inject_Z 100 * p10 0 == 100)%Q as <- by reflexivity. apply (ddiv_upper_bound _ _ _ 100 0 Hq); [done..|].
    assert (dval (mkDec 100 0) == 100)%Q as -> by reflexivity. assert (inject_Z 100 * p10 0 == 100)%Q as -> by reflexivity. lra. }
  eexists. split; [reflexivity|]. split.
  - apply dval_sign, dsub_nonneg. assert (dval (mkDec 100 0) == 100)%Q as -> by reflexivity. done.
  - pose proof (dsub_le_l (mkDec 100 0) q ltac:(done) Hq0) as H. by assert (dval (mkDec 100 0) == 100)%Q as <- by reflexivity.
Qed.

(** The relative strength index of any sufficient window exists and lies
    between 0 and 100, with every operation rounded to 28 digits; a shorter
    window is an underflow error. *)
Lemma rsi_in_range period candles :
  (1 <= period)%nat →
  (length candles < period + 1)%nat ∧ compute (RsiFeature period) candles = Err FeatureUnderflowError ∨
  (period + 1 <= length candles)%nat ∧ ∃ r, compute (RsiFeature period) candles = Ok (value_num r) ∧ (0 <= dval r <= 100)%Q.
Proof.
  intros Hp. cbn [compute]. unfold rsi_compute. destruct (Nat.lt_ge_cases (length candles) (period + 1)) as [Hs|Hs].
  { left. split; [done|]. by rewrite require_short. }
  right. split; [done|]. rewrite require_ok by done. cbn [mbind res_bind].
  destruct (gains_losses_nonneg (closes_of candles)) as [Hg Hl].
  destruct (average_ok (take period (map fst (gains_losses (closes_of candles)))) period Hp) as (ga & -> & Hga); [by apply Forall_take|].
  destruct (average_ok (take period (map snd (gains_losses (closes_of candles)))) period Hp) as (la & -> & Hla); [by apply Forall_take|].
  cbn [mbind res_bind].
  destruct (wilder_loop_ok period (drop period (map fst (gains_losses (closes_of candles)))) ga Hp Hga) as (g & -> & Hg'); [by apply Forall_drop|].
  destruct (wilder_loop_ok period (drop period (map snd (gains_losses (closes_of candles)))) la Hp Hla) as (l & -> & Hl'); [by apply Forall_drop|].
  cbn [mbind res_bind]. destruct (rsi_of_range g l Hg' Hl') as (r & -> & Hr). by exists r.
Qed.

(** ** ATR *)
Lemma true_ranges_nonneg cs : Forall nonneg (true_ranges cs).
Proof.
  destruct cs as [|c cs]; [constructor|]. cbn. generalize (oc_close c). clear c. induction cs as [|c cs IH]; intros p; cbn; constructor; [|done].
  apply dmax_nonneg_r, dabs_nonneg.
Qed.

(** The average true range of any sufficient window exists and is not
    negative, whatever the candles are. *)
Lemma atr_nonnegative period candles :
  (1 <= period)%nat → (period + 1 <= length candles)%nat →
  ∃ a, compute (AtrFeature period) candles = Ok (value_num a) ∧ (0 <= dval a)%Q.
Proof.
  intros Hp Hs. cbn [compute]. unfold atr_compute. rewrite require_ok by done. cbn [mbind res_bind].
  pose proof (true_ranges_nonneg candles) as Ht.
  destruct (average_ok (take period (true_ranges candles)) period Hp) as (s & -> & Hs0); [by apply Forall_take|]. cbn [mbind res_bind].
  destruct (wilder_loop_ok period (drop period (true_ranges candles)) s Hp Hs0) as (a & -> & Ha); [by apply Forall_drop|].
  exists a. split; [done|]. by apply dval_sign.
Qed.

(** ** Bollinger bands *)
(** The Bollinger bands of any sufficient window exist and are ordered,
    lower, middle, upper, in spite of the rounding of each operation. *)
Lemma bollinger_ordered period mult candles :
  constructible (BollingerFeature period mult) = true → (period <= length candles)%nat →
  ∃ u m l, compute (BollingerFeature period mult) candles = Ok (value_json [("upper", u); ("middle", m); ("lower", l)]) ∧
    (dval l <= dval m <= dval u)%Q.
Proof.
  cbn [constructible compute]. intros [Hp%Nat.leb_le Hm]%andb_true_iff Hs. unfold bollinger_compute.
  rewrite require_ok by done. cbn [mbind res_bind]. set (cl := closes_of _).
  destruct (ddiv_ok (dsum cl) (nat_dec period)) as [m Hmid]; [cbn; lia|]. rewrite Hmid. cbn [mbind res_bind].
  destruct (average_ok (map (fun c => dsquare (dsub c m)) cl) period) as (v & Hv & Hv0); [lia| |].
  { apply Forall_fmap, Forall_forall. intros x _. apply dsquare_nonneg. }
  rewrite Hv. cbn [mbind res_bind]. destruct (dsqrt_ok v Hv0) as (s & Hs' & Hs0). rewrite Hs'. cbn [mbind res_bind].
  assert (0 <= coef (dmul mult s)) as Hoff.
  { apply dmul_nonneg; [|done]. apply dltb_spec in Hm. rewrite dval_zero in Hm. apply dval_sign in Hm. lia. }
  pose proof (ddiv_bounded _ _ _ Hmid) as Hb. eexists _, _, _. split; [reflexivity|]. split.
  - by apply dsub_le_l.
  - by apply dadd_ge_l.
Qed.

Lemma compute_short f tl : constructible f = true → (length tl < warmup_candles f)%nat → compute f tl = Err FeatureUnderflowError.
Proof.
  destruct f; cbn [constructible compute warmup_candles]; intros Hc Hl;
    unfold ema_compute, rsi_compute, atr_compute, bollinger_compute, macd_compute; rewrite ?require_short by done; try done.
  destruct tl; [done|cbn in Hl; lia].
Qed.

(** On every sufficient window of arbitrary candles the indicators exist and
    stay in their range, with every operation rounded to 28 digits: RSI between
    0 and 100, ATR not negative, the Bollinger bands ordered; on a shorter
    window every feature is an underflow error and nothing else. *)
Lemma indicators_in_range f candles :
  constructible f = true →
  ((length candles < warmup_candles f)%nat → compute f candles = Err FeatureUnderflowError) ∧
  ((warmup_candles f <= length candles)%nat →
   match f with
   | RsiFeature _ => ∃ r, compute f candles = Ok (value_num r) ∧ (0 <= dval r <= 100)%Q
   | AtrFeature _ => ∃ a, compute f candles = Ok (value_num a) ∧ (0 <= dval a)%Q
   | BollingerFeature _ _ => ∃ u m l, compute f candles = Ok (value_json [("upper", u); ("middle", m); ("lower", l)]) ∧
       (dval l <= dval m <= dval u)%Q
   | _ => True
   end).
Proof.
  intros Hc. split; [by apply compute_short|]. intros Hl. destruct f as [p|p|p|p m|fa sl si|]; try done.
  - apply Nat.leb_le in Hc. cbn in Hl. destruct (rsi_in_range p candles Hc) as [[? _]|[_ ?]]; [lia|done].
  - apply Nat.leb_le in Hc. by apply atr_nonnegative.
  - by apply bollinger_ordered.
Qed.

(** ** EMA and MACD *)
Lemma ema_series_last alpha s vs : last (s :: ema_series_loop alpha (dsub (mkDec 1 0) alpha) s vs) = Some (ema_loop alpha s vs).
Proof. revert s. induction vs as [|v vs IH]; intros s; [done|]. cbn [ema_series_loop ema_loop]. rewrite last_cons_cons. apply IH. Qed.
Lemma ema_series_length a o s vs : length (ema_series_loop a o s vs) = length vs.
Proof. revert s. induction vs as [|v vs IH]; intros s; cbn; [done|]. by rewrite IH. Qed.

(** Periods a decimal represents exactly. *)
Lemma period_succ p : Z.of_nat (p + 1) < 10 ^ prec → dadd (nat_dec p) (mkDec 1 0) = nat_dec (p + 1).
Proof.
  intros Hp. unfold dadd, nat_dec, common_exp, at_exp. cbn [coef dexp Z.min Z.compare Z.sub Z.opp Z.add Z.pos_sub].
  rewrite Z.pow_0_r, !Z.mul_1_r. rewrite fix_small; cbn [coef]; [f_equal; lia|]. lia.
Qed.

Lemma series_spec p vs :
  (1 <= p)%nat → Z.of_nat (p + 1) < 10 ^ prec → (p <= length vs)%nat →
  ∃ s, sma_seeded_ema_series vs p = Ok s ∧ length s = (length vs - p + 1)%nat ∧
    ∃ seed alpha, ddiv (dsum (take p vs)) (nat_dec p) = Ok seed ∧ ddiv (mkDec 2 0) (nat_dec (p + 1)) = Ok alpha ∧
      last s = Some (ema_loop alpha seed (drop p vs)).
Proof.
  intros Hp Hb Hl. unfold sma_seeded_ema_series. rewrite (proj2 (Nat.ltb_ge _ _)) by done.
  destruct (ddiv_ok (dsum (take p vs)) (nat_dec p)) as [seed Hseed]; [cbn; lia|]. rewrite Hseed. cbn [mbind res_bind].
  rewrite period_succ by done. destruct (ddiv_ok (mkDec 2 0) (nat_dec (p + 1))) as [alpha Halpha]; [cbn; lia|]. rewrite Halpha.
  eexists. split; [reflexivity|]. split; [cbn; rewrite ema_series_length, length_drop; lia|].
  exists seed, alpha. split_and!; [done|done|]. apply ema_series_last.
Qed.

(** The value of [EmaFeature] is the last element of the series. *)
Lemma ema_is_last p cs s :
  (1 <= p)%nat → Z.of_nat (p + 1) < 10 ^ prec → (p <= length cs)%nat → sma_seeded_ema_series (closes_of cs) p = Ok s →
  ∃ e, compute (EmaFeature p) cs = Ok (value_num e) ∧ last s = Some e.
Proof.
  intros Hp Hb Hl Hs. destruct (series_spec p (closes_of cs) Hp Hb) as (s' & Hs' & _ & seed & alpha & Hseed & Halpha & Hlast).
  { unfold closes_of. by rewrite length_map. }
  assert (s' = s) as -> by congruence. exists (ema_loop alpha seed (drop p (closes_of cs))). split; [|done].
  cbn [compute]. unfold ema_compute. rewrite require_ok by done. cbn [mbind res_bind]. rewrite Hseed. cbn [mbind res_bind].
  rewrite Halpha. done.
Qed.

Lemma zip_strict_ok a : ∀ b, length a = length b → zip_strict a b = Ok (zip a b).
Proof. induction a as [|x a IH]; intros [|y b] Hl; try done. cbn. rewrite IH by (cbn in Hl; lia). done. Qed.
Lemma zip_last (a : list dec) : ∀ (b : list dec) x y,
  length a = length b → last a = Some x → last b = Some y → last (zip a b) = Some (x, y).
Proof.
  induction a as [|u a IH]; intros [|v b] x y Hl; try done. destruct a as [|u' a], b as [|v' b]; try done.
  - cbn. by intros [= ->] [= ->].
  - intros Hx Hy. rewrite last_cons_cons in Hx, Hy. cbn [zip zip_with]. rewrite last_cons_cons. apply (IH (v' :: b)); [cbn in *; lia|done|done].
Qed.
Lemma last_drop (l : list dec) n x : (n < length l)%nat → last l = Some x → last (drop n l) = Some x.
Proof.
  intros Hn Hx. rewrite !last_lookup in *. rewrite length_drop, lookup_drop. by replace (n + pred (length l - n))%nat with (pred (length l)) by lia.
Qed.
Lemma last_map {A C} (f : A → C) (l : list A) x : last l = Some x → last (map f l) = Some (f x).
Proof. rewrite !last_lookup, length_map, list_lookup_fmap. by intros ->. Qed.

(** MACD never fails on a sufficient window: the fast and slow series are
    aligned, its macd is the difference of the two EMA features on the same
    candles, its signal is the EMA recurrence of the aligned difference
    series, and the histogram is their difference. *)
Lemma macd_is_ema_difference fast slow signal candles :
  constructible (MacdFeature fast slow signal) = true → Z.of_nat (slow + signal) < 10 ^ prec →
  (warmup_candles (MacdFeature fast slow signal) <= length candles)%nat →
  ∃ ef es sg line sigs,
    compute (EmaFeature fast) candles = Ok (value_num ef) ∧ compute (EmaFeature slow) candles = Ok (value_num es) ∧
    compute (MacdFeature fast slow signal) candles
      = Ok (value_json [("macd", dsub ef es); ("signal", sg); ("histogram", dsub (dsub ef es) sg)]) ∧
    last line = Some (dsub ef es) ∧ length line = (length candles - slow + 1)%nat ∧
    sma_seeded_ema_series line signal = Ok sigs ∧ last sigs = Some sg.
Proof.
  cbn [constructible warmup_candles]. intros [[[H1%Nat.leb_le H2%Nat.leb_le]%andb_true_iff H3%Nat.leb_le]%andb_true_iff H4%Nat.ltb_lt]%andb_true_iff Hb Hl.
  assert (length (closes_of candles) = length candles) as Hc by (unfold closes_of; by rewrite length_map).
  destruct (series_spec slow (closes_of candles)) as (ss & Hss & Hsl & _); [lia..|].
  destruct (series_spec fast (closes_of candles)) as (fs & Hfs & Hfl & _); [lia..|].
  destruct (ema_is_last slow candles ss) as (es & Hes & Hess); [lia..|done|].
  destruct (ema_is_last fast candles fs) as (ef & Hef & Hefs); [lia..|done|].
  set (line := map (fun '(f, s) => dsub f s) (zip (drop (slow - fast) fs) ss)).
  assert (length (drop (slow - fast) fs) = length ss) as Hal by (rewrite length_drop; lia).
  assert (last line = Some (dsub ef es)) as Hline.
  { unfold line. change (dsub ef es) with ((fun '(f, s) => dsub f s) (ef, es)). apply last_map, zip_last; [done| |done].
    apply last_drop; [lia|done]. }
  assert (length line = (length candles - slow + 1)%nat) as Hll.
  { unfold line. rewrite length_map, length_zip_with, Hal. lia. }
  destruct (series_spec signal line) as (sigs & Hsigs & Hsgl & seed & alpha & _ & _ & Hslast); [lia..|].
  eexists ef, es, _, line, sigs. split_and!; [done|done| |done|done|done|exact Hslast].
  cbn [compute]. unfold macd_compute. rewrite require_ok by done. cbn [mbind res_bind]. rewrite Hss. cbn [mbind res_bind].
  rewrite Hfs. cbn [mbind res_bind]. rewrite zip_strict_ok by done. cbn [mbind res_bind]. fold line. rewrite Hsigs. cbn [mbind res_bind].
  unfold last_of. rewrite Hline, Hslast. done.
Qed.

(** ** What the pipeline feeds the features *)
Lemma tail_length key n r : (length (registry_tail key n r) <= n)%nat.
Proof. unfold registry_tail. destruct (buffers r !! key); cbn; [|lia]. rewrite length_drop. lia. Qed.

Lemma singleton_or_nil {A} (l : list A) : (length l <= 1)%nat → l = [] ∨ ∃ x, l = [x].
Proof. destruct l as [|x [|y l]]; cbn; [by left|right; eauto|lia]. Qed.

(** The pipeline hands a feature exactly its warm-up window, so the
    recurrences never run: a live EMA is the plain average of the last
    [period] closes, a live RSI and ATR are their unsmoothed seeds, and the
    session VWAP is computed from the last candle alone. *)
Lemma pipeline_never_smooths key f r tl v :
  handle_tail (mkHandle key false) (warmup_candles f) r = Ok tl → constructible f = true → compute f tl = Ok v →
  match f with
  | EmaFeature p => ∃ q, ddiv (dsum (closes_of tl)) (nat_dec p) = Ok q ∧ v = value_num q
  | RsiFeature p => ∃ g l q, ddiv (dsum (map fst (gains_losses (closes_of tl)))) (nat_dec p) = Ok g ∧
      ddiv (dsum (map snd (gains_losses (closes_of tl)))) (nat_dec p) = Ok l ∧ rsi_of g l = Ok q ∧ v = value_num q
  | AtrFeature p => ∃ q, ddiv (dsum (true_ranges tl)) (nat_dec p) = Ok q ∧ v = value_num q
  | VwapFeature => ∃ c, tl = [c] ∧ last (default [] (buffers r !! key)) = Some c
  | _ => True
  end.
Proof.
  unfold handle_tail. cbn [bh_released bh_key]. intros [= <-] Hc Hv. pose proof (tail_length key (warmup_candles f) r) as Hlen.
  destruct f as [p|p|p|p m|fa sl si|]; cbn [warmup_candles compute constructible] in *; try done.
  - unfold ema_compute in Hv. inv_ok. unfold require_candles in *. destruct (_ <? p)%nat; [done|].
    set (cs := registry_tail key p r) in *. assert (length (closes_of cs) <= p)%nat as Hl by (unfold closes_of; by rewrite length_map).
    rewrite drop_ge, take_ge in * by done. eauto.
  - unfold rsi_compute in Hv. inv_ok. set (gl := gains_losses _) in *.
    assert (length gl <= p)%nat as Hl.
    { unfold gl. assert (∀ c cl, length (gains_losses_from c cl) = length cl) as Hg.
      { intros c cl. revert c. induction cl as [|x cl IH]; intros c; cbn; [done|]. by rewrite IH. }
      unfold closes_of. destruct (registry_tail key (p + 1) r) as [|x cl]; cbn in *; [lia|]. rewrite Hg, length_map. lia. }
    rewrite !drop_ge, !take_ge in * by (rewrite length_map; done). cbn [wilder_loop] in *. inv_ok. subst. eauto 10.
  - unfold atr_compute in Hv. inv_ok. set (trs := true_ranges _) in *.
    assert (length trs <= p)%nat as Hl.
    { unfold trs. assert (∀ c cl, length (true_ranges_from c cl) = length cl) as Hg.
      { intros c cl. revert c. induction cl as [|x cl IH]; intros c; cbn; [done|]. by rewrite IH. }
      destruct (registry_tail key (p + 1) r) as [|x cl]; cbn in *; [lia|]. rewrite Hg. lia. }
    rewrite drop_ge, take_ge in * by done. cbn [wilder_loop] in *. inv_ok. subst. eauto.
  - destruct (singleton_or_nil _ Hlen) as [E|[c E]]; [by rewrite E in Hv|]. exists c. split; [done|].
    unfold registry_tail in E. destruct (buffers r !! key) as [b|]; [|done]. cbn.
    assert (last (drop (length b - 1) b) = Some c) as Hlast by (by rewrite E).
    rewrite last_lookup, lookup_drop, length_drop in Hlast. rewrite last_lookup.
    assert (length b ≠ 0%nat) by (destruct b; done).
    by replace (length b - 1 + pred (length b - (length b - 1)))%nat with (pred (length b)) in Hlast by lia.
Qed.

(** ** Buffers against their abstract history *)
Definition lastn {A} (n : nat) (l : list A) : list A := drop (length l - n) l.

Lemma lastn_length {A} n (l : list A) : length (lastn n l) = Nat.min n (length l).
Proof. unfold lastn. rewrite length_drop. lia. Qed.
Lemma lastn_lastn {A} n m (l : list A) : lastn n (lastn m l) = lastn (Nat.min n m) l.
Proof. unfold lastn. rewrite drop_drop, length_drop. f_equal. lia. Qed.
Lemma dq_append_lastn {A} n (l : list A) x : dq_append n (lastn n l) x = lastn n (l ++ [x]).
Proof.
  unfold dq_append, lastn. rewrite !length_app, length_drop. cbn [length].
  destruct (Nat.le_gt_cases (length l) n).
  - replace (length l - n)%nat with 0%nat by lia. by rewrite drop_0, Nat.sub_0_r.
  - replace (length l + 1 - n)%nat with (length l - n + 1)%nat by lia.
    rewrite <-drop_drop. rewrite (drop_app_le l) by lia. f_equal. lia.
Qed.

Inductive buffer_op := op_acquire (key : buffer_key) | op_push (key : buffer_key) (c : OhlcCandle) | op_release (key : buffer_key).
Definition run_op (o : buffer_op) (r : BufferRegistry) : BufferRegistry :=
  match o with op_acquire k => (acquire k r).2 | op_push k c => push k c r | op_release k => release k r end.

(** What the registry promises: per key, the number of holders and everything
    pushed since the first of them came. *)
Abbreviation history := (gmap (string * string) (Z * list OhlcCandle)).
Definition spec_op (caps : gmap buffer_key nat) (o : buffer_op) (a : history) : history :=
  match o with
  | op_acquire k =>
      match caps !! k with
      | None => a
      | Some _ => <[k := match a !! k with Some (n, h) => (n + 1, h) | None => (1, []) end]> a
      end
  | op_push k c => match a !! k with Some (n, h) => <[k := (n, h ++ [c])]> a | None => a end
  | op_release k => match a !! k with
                    | Some (n, h) => if n =? 1 then delete k a else <[k := (n - 1, h)]> a
                    | None => a
                    end
  end.

Definition represents (caps : gmap buffer_key nat) (a : history) (r : BufferRegistry) : Prop :=
  capacity_map r = caps ∧
  ∀ k, match a !! k with
       | None => buffers r !! k = None ∧ counts r !! k = None
       | Some (n, h) => 1 <= n ∧ counts r !! k = Some n ∧ ∃ cap, caps !! k = Some cap ∧ buffers r !! k = Some (lastn cap h)
       end.

Lemma represents_insert caps a r k n h cap bufs cnts :
  represents caps a r → 1 <= n → caps !! k = Some cap →
  bufs !! k = Some (lastn cap h) → cnts !! k = Some n →
  (∀ j, j ≠ k → bufs !! j = buffers r !! j ∧ cnts !! j = counts r !! j) →
  represents caps (<[k := (n, h)]> a) (mkRegistry caps bufs cnts).
Proof.
  intros [_ Ha] Hn Hc Hb Hco Hother. split; [done|]. intros j. cbn [buffers counts]. destruct (decide (j = k)) as [->|Hj].
  - rewrite lookup_insert_eq. eauto 10.
  - rewrite lookup_insert_ne by done. destruct (Hother j Hj) as [-> ->]. apply Ha.
Qed.

Ltac refresh cap :=
  match goal with r : BufferRegistry |- _ => eapply (represents_insert _ _ r _ _ _ cap) end;
  rewrite ?lookup_insert_eq, ?dq_append_lastn; try done; try lia; try congruence; intros j Hj; by rewrite ?lookup_insert_ne by done.

Lemma run_op_refines caps o a r : represents caps a r → represents caps (spec_op caps o a) (run_op o r).
Proof.
  intros Hr. pose proof Hr as [Hcap Ha]. destruct o as [k|k c|k]; cbn; specialize (Ha k).
  - unfold acquire. rewrite Hcap. destruct (caps !! k) as [cap|] eqn:Ec; [|done]. cbn.
    destruct (a !! k) as [[n h]|]; [destruct Ha as (Hn & -> & cap' & Hc & Hb)|destruct Ha as [Hb ->]]; cbn.
    + destruct (Z.eqb_spec n 0); [lia|]. refresh cap'.
    + refresh cap.
  - unfold push. destruct (a !! k) as [[n h]|] eqn:Ek; [destruct Ha as (Hn & Hco & cap & Hc & Hb)|destruct Ha as [-> _]; done].
    rewrite Hb, Hcap, Hc. cbn. refresh cap.
  - unfold release. destruct (a !! k) as [[n h]|] eqn:Ek; [destruct Ha as (Hn & Hco & cap & Hc & Hb)|destruct Ha as [_ ->]; done].
    rewrite Hco. cbn. destruct (Z.eqb_spec n 0); [lia|]. destruct (Z.ltb_spec 1 n), (Z.eqb_spec n 1); try lia.
    + rewrite Hcap. refresh cap.
    + split; [done|]. intros j. cbn [buffers counts]. destruct Hr as [_ Hr]. specialize (Hr j). destruct (decide (j = k)) as [->|Hj].
      * by rewrite !lookup_delete_eq.
      * by rewrite !lookup_delete_ne.
Qed.

(** C15: the buffer registry refines its abstract history: after any sequence of
    acquisitions, pushes and releases, reading [n] candles of a key that
    still has a holder gives the last [n] candles pushed since its first
    holder came, up to the key's capacity, whatever other holders released;
    without a holder it gives nothing. *)
Theorem registry_refines_history caps ops key n :
  let r := foldl (fun r o => run_op o r) (mkRegistry caps ∅ ∅) ops in
  let a := foldl (fun a o => spec_op caps o a) ∅ ops in
  registry_tail key n r =
    match a !! key with
    | Some (_, h) => lastn (Nat.min n (default 0%nat (caps !! key))) h
    | None => []
    end.
Proof.
  cbn zeta. assert (represents caps ∅ (mkRegistry caps ∅ ∅)) as H0.
  { split; [done|]. intros k. rewrite lookup_empty. cbn. by rewrite !lookup_empty. }
  revert H0. generalize (∅ : history), (mkRegistry caps ∅ ∅). induction ops as [|o ops IH]; intros a r Hr; cbn.
  - destruct Hr as [_ Hr]. specialize (Hr key). unfold registry_tail. destruct (a !! key) as [[m h]|].
    + destruct Hr as (_ & _ & cap & -> & ->). cbn. change (lastn n (lastn cap h) = lastn (Nat.min n cap) h). apply lastn_lastn.
    + by destruct Hr as [-> _].
  - apply IH. by apply run_op_refines.
Qed.

(** ** Backfill against the live path *)

Section backfill.
Context {B H F : Type} (to_float : dec → F) (bus : bus_ops B (@FeatureUpdate F) H) (dump : @FeatureUpdate F → string)
  (isoformat : Z → string) (now : Z) (name sym : string) (f : builtin).
Abbreviation world := (@fworld B F).
Abbreviation one_feature := [((sym, "1m"), [(name, f)])].
Abbreviation on_candle c := (on_envelope to_float bus dump isoformat now one_feature (Some (c, true))).

(** The live path over a sequence of closed candles. *)
Fixpoint live_candles (cs : list OhlcCandle) : ST world unit :=
  match cs with
  | [] => mret tt
  | c :: rest => on_candle c ;; live_candles rest
  end.

(** The bus may fail but the task is not cancelled. *)
Definition not_cancelled : Prop :=
  (∀ b k v s, (bus_kv_put bus b k v s).1 ≠ Err CancelledError) ∧ (∀ s m b, (bus_publish bus s m b).1 ≠ Err CancelledError).

Lemma attempt_fbus {A} (m : ST B A) (w : world) :
  (m (fw_bus w)).1 ≠ Err CancelledError →
  ∃ x b', attempt is_exception (on_fbus m) w = (Ok x, mkFworld (fw_registry w) (fw_handles w) (fw_features w) (fw_faults w) b').
Proof.
  unfold attempt, on_fbus. destruct (m (fw_bus w)) as [[a|e] b]; cbn; intros Hc; [by eexists _, _|].
  assert (is_exception e = true) as -> by (by destruct e). by eexists _, _.
Qed.

(** Storing a value: the row is written, whatever happens on the bus. *)
Lemma persist_run c v (w : world) d :
  not_cancelled → INTERVAL_DELTA (oc_interval c) = Some d → fw_faults w = [] →
  ∃ b', persist_kv_publish to_float bus dump isoformat now name f c v w
    = (Ok tt, mkFworld (fw_registry w) (fw_handles w)
         (<[(name, oc_symbol c, oc_bucket_start c + d, source_version f) := to_wire to_float v]> (fw_features w)) [] b').
Proof.
  intros [Hkv Hpub] Hd Hf. unfold persist_kv_publish, build_update. rewrite Hd.
  erewrite st_bind_run by reflexivity. erewrite st_bind_run by (unfold attempt, insert_feature; rewrite Hf; reflexivity).
  cbn [pk_of fu_feature_name fu_symbol fu_computed_at fu_source_version fu_value tail].
  match goal with |- context [attempt is_exception (on_fbus ?m) ≫= _] =>
    match goal with |- context [_ ?w1 = _] => destruct (attempt_fbus m (mkFworld (fw_registry w) (fw_handles w)
      (<[(name, oc_symbol c, oc_bucket_start c + d, source_version f) := to_wire to_float v]> (fw_features w)) [] (fw_bus w))) as (x1 & b1 & E1); [apply Hkv|] end end.
  erewrite st_bind_run by exact E1. cbn [fw_registry fw_handles fw_features fw_faults].
  match goal with |- context [attempt is_exception (on_fbus ?m) ≫= _] =>
    destruct (attempt_fbus m (mkFworld (fw_registry w) (fw_handles w)
      (<[(name, oc_symbol c, oc_bucket_start c + d, source_version f) := to_wire to_float v]> (fw_features w)) [] b1)) as (x2 & b2 & E2); [apply Hpub|] end.
  erewrite st_bind_run by exact E2. by exists b2.
Qed.

(** One live candle, with the history [h] of earlier ones in the buffer. *)
Lemma live_candle h c cap (w : world) :
  not_cancelled → constructible f = true → (warmup_candles f <= cap)%nat →
  oc_symbol c = sym → oc_interval c = "1m" → fw_faults w = [] →
  fw_handles w !! (sym, "1m") = Some (mkHandle (sym, "1m") false) →
  capacity_map (fw_registry w) !! (sym, "1m") = Some cap → buffers (fw_registry w) !! (sym, "1m") = Some (lastn cap h) →
  (warmup_candles f <= length (h ++ [c]) → is_ok (compute f (lastn (warmup_candles f) (h ++ [c]))) = true)%nat →
  ∃ b', on_candle c w = (Ok tt, mkFworld (push (sym, "1m") c (fw_registry w)) (fw_handles w)
    (if (length (lastn (warmup_candles f) (h ++ [c])) <? warmup_candles f)%nat then fw_features w
     else match compute f (lastn (warmup_candles f) (h ++ [c])) with
          | Ok v => <[(name, sym, oc_bucket_start c + 60 * 1000000, source_version f) := to_wire to_float v]> (fw_features w)
          | Err _ => fw_features w
          end) [] b').
Proof.
  intros Hnc Hcon Hcap Hs Hi Hf Hh Hc Hb Hok. unfold on_envelope, dispatch_candle. cbn [negb]. rewrite Hs.
  erewrite st_bind_run by reflexivity. unfold features_for. cbn [list_find fst]. rewrite decide_True by done. rewrite Hh.
  erewrite st_bind_run by reflexivity. cbn [run_features].
  set (w1 := set_registry _ w).
  assert (handle_tail (mkHandle (sym, "1m") false) (warmup_candles f) (fw_registry w1) = Ok (lastn (warmup_candles f) (h ++ [c]))) as Ht.
  { unfold handle_tail, registry_tail, w1. cbn [bh_released bh_key set_registry fw_registry]. unfold push. rewrite Hb, Hc. cbn [buffers].
    rewrite lookup_insert_eq. cbn. rewrite dq_append_lastn. change (Ok (lastn (warmup_candles f) (lastn cap (h ++ [c]))) = Ok (lastn (warmup_candles f) (h ++ [c]))).
    rewrite lastn_lastn. by replace (Nat.min (warmup_candles f) cap) with (warmup_candles f) by lia. }
  unfold run_feature. cbn [fst snd].
  destruct (Nat.ltb_spec (length (lastn (warmup_candles f) (h ++ [c]))) (warmup_candles f)) as [Hshort|Hfull].
  - exists (fw_bus w). unfold mbind at 1, st_bind at 1. unfold mbind at 1, st_bind at 1. cbn [get_st]. rewrite Ht. cbn [mbind res_bind].
    rewrite compute_short by done. cbn. unfold w1, set_registry. by rewrite Hf.
  - rewrite lastn_length in Hfull. specialize (Hok ltac:(lia)). destruct (compute f (lastn _ _)) as [v|] eqn:Ev; [|done].
    destruct (persist_run c v w1 (60 * 1000000)) as [b' Hp]; [done|by rewrite Hi|done|]. exists b'.
    unfold mbind at 1, st_bind at 1. unfold mbind at 1, st_bind at 1. cbn [get_st]. rewrite Ht. cbn [mbind res_bind]. rewrite Ev.
    rewrite Hp, Hs. done.
Qed.

Lemma live_backfill_agree cs : ∀ h cap (w w' : world),
  not_cancelled → constructible f = true → (warmup_candles f <= cap)%nat →
  Forall (fun c => oc_symbol c = sym ∧ oc_interval c = "1m") cs → fw_faults w = [] → fw_faults w' = [] →
  fw_handles w !! (sym, "1m") = Some (mkHandle (sym, "1m") false) →
  capacity_map (fw_registry w) !! (sym, "1m") = Some cap → buffers (fw_registry w) !! (sym, "1m") = Some (lastn cap h) →
  (∀ pre post, cs = pre ++ post → pre ≠ [] → (warmup_candles f <= length (h ++ pre))%nat → is_ok (compute f (lastn (warmup_candles f) (h ++ pre))) = true) →
  fw_features w = fw_features w' →
  ∃ w1 w2, live_candles cs w = (Ok tt, w1) ∧
    backfill_rows to_float name sym "1m" f (lastn (warmup_candles f) h) cs w' = (Ok tt, w2) ∧ fw_features w1 = fw_features w2.
Proof.
  induction cs as [|c cs IH]; intros h cap w w' Hnc Hcon Hcap Hcs Hf Hf' Hh Hc Hb Hok Heq; [by exists w, w'|].
  apply Forall_cons in Hcs as [[Hs Hi] Hcs].
  destruct (live_candle h c cap w Hnc Hcon Hcap Hs Hi Hf Hh Hc Hb) as [b' Hlive].
  { intros Hl. by apply (Hok [c] cs). }
  assert (∀ w2 : world, fw_faults w2 = [] → 
    fw_features w2 = (if (length (lastn (warmup_candles f) (h ++ [c])) <? warmup_candles f)%nat then fw_features w
     else match compute f (lastn (warmup_candles f) (h ++ [c])) with
          | Ok v => <[(name, sym, oc_bucket_start c + 60 * 1000000, source_version f) := to_wire to_float v]> (fw_features w)
          | Err _ => fw_features w
          end) →
    ∃ w1 w3, live_candles (c :: cs) w = (Ok tt, w1) ∧
      backfill_rows to_float name sym "1m" f (lastn (warmup_candles f) (h ++ [c])) cs w2 = (Ok tt, w3) ∧ fw_features w1 = fw_features w3) as Hrest.
  { intros w2 Hw2 Hfe. cbn [live_candles]. erewrite st_bind_run by exact Hlive.
    apply (IH (h ++ [c]) cap); cbn [fw_faults fw_handles fw_registry fw_features]; try done.
    - unfold push. rewrite Hb, Hc. done.
    - unfold push. rewrite Hb, Hc. cbn [buffers]. rewrite lookup_insert_eq. cbn. by rewrite dq_append_lastn.
    - intros pre post -> Hne Hl. specialize (Hok (c :: pre) post eq_refl ltac:(done)). rewrite <-app_assoc in *. by apply Hok. }
  cbn [backfill_rows]. rewrite dq_append_lastn.
  destruct (Nat.ltb_spec (length (lastn (warmup_candles f) (h ++ [c]))) (warmup_candles f)) as [Hshort|Hfull].
  - apply Hrest; [done|]. done.
  - rewrite lastn_length in Hfull. assert (is_ok (compute f (lastn (warmup_candles f) (h ++ [c]))) = true) as Hv.
    { apply (Hok [c] cs); [done|done|lia]. }
    destruct (compute f (lastn _ _)) as [v|] eqn:Ev; [|done]. erewrite st_bind_run by reflexivity.
    cbn [INTERVAL_DELTA]. change (INTERVAL_DELTA "1m") with (Some (60 * 1000000)). cbn iota.
    erewrite st_bind_run by (unfold insert_feature; rewrite Hf'; reflexivity).
    apply Hrest; [done|]. cbn [fw_features]. by rewrite Heq.
Qed.

(** C13: as long as the feature is defined on every full window, backfilling a
    range writes exactly the rows that the live path writes for the same
    candles, whatever the bus does. *)
Theorem backfill_equals_live cs cap (w : world) :
  not_cancelled → constructible f = true → (warmup_candles f <= cap)%nat →
  Forall (fun c => oc_symbol c = sym ∧ oc_interval c = "1m") cs → fw_faults w = [] →
  fw_handles w !! (sym, "1m") = Some (mkHandle (sym, "1m") false) →
  capacity_map (fw_registry w) !! (sym, "1m") = Some cap → buffers (fw_registry w) !! (sym, "1m") = Some [] →
  (∀ pre post, cs = pre ++ post → pre ≠ [] → (warmup_candles f <= length pre)%nat → is_ok (compute f (lastn (warmup_candles f) pre)) = true) →
  ∃ w1 w2, live_candles cs w = (Ok tt, w1) ∧ backfill_rows to_float name sym "1m" f [] cs w = (Ok tt, w2) ∧
    fw_features w1 = fw_features w2.
Proof.
  intros Hnc Hcon Hcap Hcs Hf Hh Hc Hb Hok. 
  by apply (live_backfill_agree cs [] cap w w Hnc Hcon Hcap Hcs Hf Hf Hh Hc Hb Hok).
Qed.

Lemma backfill_app pre : ∀ buf post (w w1 : world),
  backfill_rows to_float name sym "1m" f buf pre w = (Ok tt, w1) →
  backfill_rows to_float name sym "1m" f buf (pre ++ post) w
  = backfill_rows to_float name sym "1m" f (foldl (dq_append (warmup_candles f)) buf pre) post w1.
Proof.
  induction pre as [|c pre IH]; intros buf post w w1; cbn [backfill_rows app foldl]; [by intros [= <-]|].
  destruct (_ <? _)%nat; [by apply IH|]. destruct (compute f _) as [v|]; [|done].
  change (INTERVAL_DELTA "1m") with (Some (60 * 1000000)). cbn iota. unfold mbind, st_bind, lift_res.
  destruct (insert_feature _ _ w) as [[[]|e] w2]; [|done]. by apply IH.
Qed.
End backfill.

(** A VWAP backfill ends at the first candle without volume: nothing after
    it is written and the feature is not marked as done, so the next start
    tries, and fails, again. *)
Lemma zero_volume_aborts_backfill {B H F} (to_float : dec → F) (bus : bus_ops B (@FeatureUpdate F) H) name sym pre c post mark (w w1 : @fworld B F) :
  coef (oc_volume c) = 0 → backfill_rows to_float name sym "1m" VwapFeature [] pre w = (Ok tt, w1) →
  backfill_and_mark to_float bus name sym "1m" VwapFeature (pre ++ c :: post) mark w = (Ok tt, w1).
Proof.
  intros Hz Hpre. unfold backfill_and_mark.
  assert (∀ buf, dq_append (warmup_candles VwapFeature) buf c = [c]) as Hbuf.
  { intros buf. unfold dq_append. rewrite length_app. cbn [warmup_candles length]. rewrite drop_app_ge by lia.
    replace (length buf + 1 - 1 - length buf)%nat with 0%nat by lia. done. }
  assert (compute VwapFeature [c] = Err FeatureUnderflowError) as Hc.
  { cbn [compute]. unfold vwap_compute. cbn [last]. rewrite filter_cons_True by done. rewrite filter_nil. cbn [vwap_loop].
    unfold typical_price. destruct (ddiv_ok (dadd (dadd (oc_high c) (oc_low c)) (oc_close c)) (mkDec 3 0)) as [q ->]; [done|].
    cbn [mbind res_bind]. assert (deqb (dadd dzero (oc_volume c)) dzero = true) as ->; [|done].
    apply deqb_spec. rewrite dval_zero. unfold dval. assert (coef (dadd dzero (oc_volume c)) = 0) as ->; [|ring].
    unfold dadd, at_exp. cbn [coef dzero dexp]. rewrite Hz, !Z.mul_0_l. rewrite fix_small; done. }
  assert (backfill_rows to_float name sym "1m" VwapFeature [] (pre ++ c :: post) w = (Err FeatureUnderflowError, w1)) as Hrun.
  { rewrite (backfill_app to_float name sym VwapFeature pre [] (c :: post) w w1 Hpre).
    cbn [backfill_rows]. rewrite Hbuf. cbn [length warmup_candles Nat.ltb Nat.leb]. by rewrite Hc. }
  unfold attempt, mbind, st_bind. by rewrite Hrun.
Qed.

(** ** Concrete candles *)
Definition demo_ohlc (t close volume : Z) : OhlcCandle :=
  mkOhlc "BTCUSDT" "1m" (t * 60000000) (mkDec close 0) (mkDec (close + 2) 0) (mkDec (close - 1) 0) (mkDec close 0) (mkDec volume 0) "binance".
Definition demo_closes : list OhlcCandle := [demo_ohlc 0 100 1; demo_ohlc 1 104 3; demo_ohlc 2 101 2; demo_ohlc 3 107 5; demo_ohlc 4 103 1].
Definition demo_feature_bus : bus_ops unit (@FeatureUpdate dec) unit := {|
  bus_publish s m := throw (PublishError s); bus_subscribe s h := mret tt; bus_close := mret tt; bus_kv_get s k := mret None;
  bus_kv_put b k v := throw (PublishError k); bus_kv_update b k v n := mret 1;
|}.
Definition demo_fworld : @fworld unit dec :=
  mkFworld (mkRegistry {[("BTCUSDT", "1m") := 5%nat]} {[("BTCUSDT", "1m") := []]} {[("BTCUSDT", "1m") := 1]})
    {[("BTCUSDT", "1m") := mkHandle ("BTCUSDT", "1m") false]} ∅ [] tt.

Lemma backfill_equals_live_witness :
  ∃ w1 w2, live_candles id demo_feature_bus (fun _ => "") (fun _ => "") 0 "ema" "BTCUSDT" (EmaFeature 2) demo_closes demo_fworld = (Ok tt, w1) ∧
    backfill_rows id "ema" "BTCUSDT" "1m" (EmaFeature 2) [] demo_closes demo_fworld = (Ok tt, w2) ∧
    fw_features w1 = fw_features w2 ∧ size (fw_features w2) = 4%nat.
Proof.
  assert (size (fw_features (backfill_rows id "ema" "BTCUSDT" "1m" (EmaFeature 2) [] demo_closes demo_fworld).2) = 4%nat) as Hsz
    by (vm_compute; reflexivity).
  destruct (backfill_equals_live id demo_feature_bus (fun _ => "") (fun _ => "") 0 "ema" "BTCUSDT" (EmaFeature 2) demo_closes 5 demo_fworld)
    as (w1 & w2 & H1 & H2 & H3); [by split|reflexivity|cbn; lia|repeat constructor|reflexivity|reflexivity|reflexivity|reflexivity| |].
  - intros pre post _ _ Hl. cbn [compute warmup_candles] in *. unfold ema_compute.
    rewrite require_ok by (rewrite lastn_length; lia). cbn [mbind res_bind].
    destruct (ddiv_ok (dsum (take 2 (closes_of (lastn 2 pre)))) (nat_dec 2)) as [q ->]; [done|]. done.
  - exists w1, w2. rewrite H2 in Hsz. by split_and!.
Defined.

