(* ===== verification/Market.v ===== *)
(** * Market data: candles from Binance into ohlc_1m and onto the bus

    Models packages/market/{subscription,ws,ohlc,backfill,backoff}.py and
    packages/db/queries/market_data.py (table of migration 0003).  A feed is an
    object with an identity, shared by the manager and its consumer, so feeds
    live in a store.  The web socket, the REST endpoint, the bus and the fresh
    message identifiers are parameters; every statement and every frame sent
    draws the next of a list of faults.  Times are microseconds.  A lock held
    across awaits makes each manager operation one step.  Timestamps beyond the
    year 2242, where a float of seconds no longer has microseconds, are not
    represented exactly. *)

From S2P Require Import Prelude Json Dec DecText Float64 PyNum Scoring PaperDb PaperExchange Bus.
From Stdlib Require Import Ascii.
Open Scope Z_scope.

(** ** packages/db/queries/market_data.py *)
Record OhlcRow := mkOhlcRow {
  or_open : dec; or_high : dec; or_low : dec; or_close : dec; or_volume : dec;
}.
(** The primary key: symbol, bucket_start, source. *)
Abbreviation ohlc_pk := (string * Z * string)%type.
Abbreviation ohlc_table := (gmap ohlc_pk OhlcRow).

Section queries.
Context `{PgNumeric}.

Definition ohlc_columns (o h l c v : dec) : res OhlcRow :=
  o' ← col 30 12 o; h' ← col 30 12 h; l' ← col 30 12 l; c' ← col 30 12 c; v' ← col 30 12 v;
  Ok (mkOhlcRow o' h' l' c' v').

(** [INSERT ... ON CONFLICT (symbol, bucket_start, source) DO UPDATE]. *)
Definition insert_ohlc_1m (symbol : string) (bucket_start : Z) (o h l c v : dec) (source : string) : ST ohlc_table unit :=
  fun t => match ohlc_columns o h l c v with
           | Ok r => (Ok tt, <[(symbol, bucket_start, source) := r]> t)
           | Err e => (Err e, t)
           end.
End queries.

(** Rows of one symbol and source, as (bucket_start, row). *)
Definition ohlc_rows (symbol source : string) (t : ohlc_table) : list (Z * OhlcRow) :=
  omap (fun kv : ohlc_pk * OhlcRow => let '((s, b, src), r) := kv in
          if bool_decide (s = symbol) && bool_decide (src = source) then Some (b, r) else None) (map_to_list t).

Definition later (best : option (Z * OhlcRow)) (x : Z * OhlcRow) : option (Z * OhlcRow) :=
  match best with Some y => if x.1 <=? y.1 then best else Some x | None => Some x end.
Definition latest_row (symbol source : string) (t : ohlc_table) : option (Z * OhlcRow) :=
  fold_left later (ohlc_rows symbol source t) None.
Definition fetch_latest_ohlc_bucket (symbol source : string) (t : ohlc_table) : option Z := fst <$> latest_row symbol source t.
Definition select_latest_close (symbol source : string) (t : ohlc_table) : option dec :=
  (fun x => or_close x.2) <$> latest_row symbol source t.

(** [ORDER BY bucket_start]; rows of several sources at one bucket come in an
    order PostgreSQL does not promise, here that of the map. *)
Definition bucket_le (a b : Z * OhlcRow) : Prop := a.1 <= b.1.
#[global] Instance bucket_le_dec a b : Decision (bucket_le a b).
Proof. unfold bucket_le. apply _. Defined.
Definition select_ohlc_for_replay_window (symbol : string) (from_at to_at : Z) (t : ohlc_table) : list (Z * OhlcRow) :=
  merge_sort bucket_le
    (omap (fun kv : ohlc_pk * OhlcRow => let '((s, b, _), r) := kv in
             if bool_decide (s = symbol) && (from_at <=? b) && (b <=? to_at) then Some (b, r) else None) (map_to_list t)).

(** ** packages/market/ws.py *)
Inductive WsState := ws_disconnected | ws_connecting | ws_connected | ws_reconnecting | ws_closed.
#[global] Instance WsState_eq_dec : EqDecision WsState.
Proof. solve_decision. Defined.
Inductive ws_method := SUBSCRIBE | UNSUBSCRIBE.

(** [ws_open]: [self._ws is not None].  [ws_faults] says which sends raise. *)
Record BinanceWsClient := mkWs {
  ws_state : WsState; ws_open : bool; ws_streams : gset string; ws_next_id : Z;
  ws_sent : list (ws_method * list string * Z); ws_faults : list bool;
}.
Abbreviation WS := (ST BinanceWsClient).

Definition send_subscription (method : ws_method) (params : list string) : WS unit := fun w =>
  if ws_open w then
    let w1 := mkWs (ws_state w) true (ws_streams w) (ws_next_id w + 1) (ws_sent w) (tail (ws_faults w)) in
    match ws_faults w with
    | true :: _ => (Err (RuntimeError "ConnectionClosed"), w1)
    | _ => (Ok tt, mkWs (ws_state w) true (ws_streams w) (ws_next_id w + 1)
                     (ws_sent w ++ [(method, params, ws_next_id w)]) (tail (ws_faults w)))
    end
  else (Err NotConnected, w).
Definition set_streams (f : gset string → gset string) (w : BinanceWsClient) : BinanceWsClient :=
  mkWs (ws_state w) (ws_open w) (f (ws_streams w)) (ws_next_id w) (ws_sent w) (ws_faults w).
Definition tell_if_connected (method : ws_method) (stream : string) : WS unit :=
  w ← get_st;
  if bool_decide (ws_state w = ws_connected) && ws_open w then send_subscription method [stream] else mret tt.

Definition add_stream (stream : string) : WS unit :=
  w ← get_st;
  if bool_decide (stream ∈ ws_streams w) then mret tt
  else modify (set_streams (fun s => {[stream]} ∪ s)) ;; tell_if_connected SUBSCRIBE stream.
Definition remove_stream (stream : string) : WS unit :=
  w ← get_st;
  if bool_decide (stream ∈ ws_streams w)
  then modify (set_streams (fun s => s ∖ {[stream]})) ;; tell_if_connected UNSUBSCRIBE stream
  else mret tt.

(** [_reconnect_loop]: the head of a turn ([first] while no disconnect has been
    seen since the last connection), opening the socket, which subscribes to the
    whole current set in sorted order ([sorted] is the parameter), and losing it,
    which leaves the set and the state as they are.  A client closed while it
    connects is opened all the same (the loop is in Sockets.v). *)
Definition set_conn (st : WsState) (open : bool) (w : BinanceWsClient) : BinanceWsClient :=
  mkWs st open (ws_streams w) (ws_next_id w) (ws_sent w) (ws_faults w).
Definition ws_turn (first : bool) (w : BinanceWsClient) : BinanceWsClient :=
  if bool_decide (ws_state w = ws_closed) then w else set_conn (if first then ws_connecting else ws_reconnecting) (ws_open w) w.
Definition ws_connect (sorted : gset string → list string) : WS unit :=
  modify (set_conn ws_connected true) ;;
  w ← get_st;
  if bool_decide (ws_streams w = ∅) then mret tt else send_subscription SUBSCRIBE (sorted (ws_streams w)).
Definition ws_disconnect (w : BinanceWsClient) : BinanceWsClient :=
  if bool_decide (ws_state w = ws_closed) then w else set_conn (ws_state w) false w.
Definition ws_close (w : BinanceWsClient) : BinanceWsClient :=
  if bool_decide (ws_state w = ws_closed) then w else set_conn ws_closed false w.

(** ** packages/market/backoff.py

    The ceiling of the [attempt]-th delay, in seconds; the generator is made
    once for the life of the client. *)
Definition backoff_ceiling (base cap : Z) (attempt : nat) : Z := Z.min (base * 2 ^ Z.of_nat attempt) cap.

(** ** packages/market/subscription.py *)
Definition is_upper_alnum (a : ascii) : bool :=
  let n := nat_of_ascii a in ((48 <=? n) && (n <=? 57) || (65 <=? n) && (n <=? 90))%nat.
Fixpoint all_chars (p : ascii → bool) (s : string) : bool :=
  match s with EmptyString => true | String a s' => p a && all_chars p s' end.
(** [isascii], [isalnum] and [upper() == symbol] together. *)
Definition valid_symbol (s : string) : bool := negb (s =? "")%string && all_chars is_upper_alnum s.
Definition stream_name (symbol kind : string) : string := lower symbol +:+ "@" +:+ kind.

(** [s.partition("@")[0]], when there is an "@". *)
Fixpoint before_at (s : string) : option string :=
  match s with
  | EmptyString => None
  | String a s' => if Ascii.eqb a "@"%char then Some "" else String a <$> before_at s'
  end.

Inductive feed_item := item_frame (f : dict) | item_eof.
Record SymbolFeed := mkFeed { sf_symbol : string; sf_queue : list feed_item }.

(** [put_nowait]; on a full queue the oldest item goes first.  Both [_put] and
    [_signal_eof]; a [maxsize] of 0 or less is no bound. *)
Definition put_item (maxsize : Z) (x : feed_item) (q : list feed_item) : list feed_item * bool :=
  if (0 <? maxsize) && (maxsize <=? Z.of_nat (length q)) then (tail q ++ [x], true) else (q ++ [x], false).
Definition feed_put (maxsize : Z) (x : feed_item) (f : SymbolFeed) : SymbolFeed :=
  mkFeed (sf_symbol f) (put_item maxsize x (sf_queue f)).1.
(** [__anext__] on a queue that holds something: the frame, or the end. *)
Definition feed_next (f : SymbolFeed) : option (option dict * SymbolFeed) :=
  match sf_queue f with
  | [] => None
  | item_frame fr :: q => Some (Some fr, mkFeed (sf_symbol f) q)
  | item_eof :: q => Some (None, mkFeed (sf_symbol f) q)
  end.

Record SubscriptionManager := mkManager {
  sm_counts : gmap string Z; sm_feeds : gmap string (list Z); sm_store : gmap Z SymbolFeed; sm_next : Z;
  sm_ws : BinanceWsClient; sm_overflows : list string;
}.
Abbreviation SM := (ST SubscriptionManager).
(** [_Subscription]. *)
Record Subscription := mkSubscription { sub_symbol : string; sub_feed : option Z }.

Section manager.
Context (stream_kinds : list string) (feed_maxsize : Z).

Definition on_ws {A} (m : WS A) : SM A := fun s =>
  let '(r, w) := m (sm_ws s) in (r, mkManager (sm_counts s) (sm_feeds s) (sm_store s) (sm_next s) w (sm_overflows s)).
Fixpoint for_kinds (op : string → WS unit) (symbol : string) (kinds : list string) : WS unit :=
  match kinds with
  | [] => mret tt
  | k :: ks => op (stream_name symbol k) ;; for_kinds op symbol ks
  end.

Definition subscribe (symbol : string) : res Subscription :=
  if valid_symbol symbol then Ok (mkSubscription symbol None)
  else Err (ValueError "symbol must be uppercase ASCII alphanumeric").

Definition acquire_feed (symbol : string) : SM Z :=
  s ← get_st;
  let count := default 0 (sm_counts s !! symbol) in
  let id := sm_next s in
  modify (fun s => mkManager (<[symbol := count + 1]> (sm_counts s))
                     (<[symbol := default [] (sm_feeds s !! symbol) ++ [id]]> (sm_feeds s))
                     (<[id := mkFeed symbol []]> (sm_store s)) (id + 1) (sm_ws s) (sm_overflows s)) ;;
  (if count =? 0 then on_ws (for_kinds add_stream symbol stream_kinds) else mret tt) ;;
  mret id.

Definition release_feed (symbol : string) (feed : Z) : SM unit :=
  s ← get_st;
  let count := default 0 (sm_counts s !! symbol) in
  if count =? 0 then mret tt
  else
    modify (fun s => mkManager (sm_counts s) (alter (filter (.≠ feed)) symbol (sm_feeds s))
                       (alter (feed_put feed_maxsize item_eof) feed (sm_store s)) (sm_next s) (sm_ws s) (sm_overflows s)) ;;
    if 1 <? count
    then modify (fun s => mkManager (<[symbol := count - 1]> (sm_counts s)) (sm_feeds s) (sm_store s) (sm_next s)
                            (sm_ws s) (sm_overflows s))
    else
      modify (fun s => mkManager (delete symbol (sm_counts s)) (delete symbol (sm_feeds s)) (sm_store s) (sm_next s)
                         (sm_ws s) (sm_overflows s)) ;;
      on_ws (for_kinds remove_stream symbol stream_kinds).

Definition subscription_enter (sub : Subscription) : SM (Z * Subscription) :=
  id ← acquire_feed (sub_symbol sub); mret (id, mkSubscription (sub_symbol sub) (Some id)).
Definition subscription_exit (sub : Subscription) : SM Subscription :=
  match sub_feed sub with
  | None => mret sub
  | Some id => release_feed (sub_symbol sub) id ;; mret (mkSubscription (sub_symbol sub) None)
  end.

Definition dispatch_to (symbol : string) (frame : dict) (s : SubscriptionManager) (id : Z) : SubscriptionManager :=
  let full := match sm_store s !! id with Some f => (put_item feed_maxsize (item_frame frame) (sf_queue f)).2 | None => false end in
  mkManager (sm_counts s) (sm_feeds s) (alter (feed_put feed_maxsize (item_frame frame)) id (sm_store s)) (sm_next s)
    (sm_ws s) (if full then sm_overflows s ++ [symbol] else sm_overflows s).
Definition dispatch (frame : dict) : SM unit :=
  match dict_get "stream" frame with
  | Some (JStr stream) =>
      match before_at stream with
      | Some low => modify (fun s => let symbol := upper low in
          fold_left (dispatch_to symbol frame) (default [] (sm_feeds s !! symbol)) s)
      | None => mret tt
      end
  | _ => mret tt
  end.
End manager.

(** ** packages/market/ohlc.py *)
Definition parse_kline (symbol : string) (kline : dict) (is_closed : bool) : res candle :=
  t ← (v ← subscript "t" (dict_get "t" kline); py_int v);
  bucket_start ← from_millis t;
  o ← (v ← subscript "o" (dict_get "o" kline); decimal_str v);
  h ← (v ← subscript "h" (dict_get "h" kline); decimal_str v);
  l ← (v ← subscript "l" (dict_get "l" kline); decimal_str v);
  c ← (v ← subscript "c" (dict_get "c" kline); decimal_str v);
  vol ← (v ← subscript "v" (dict_get "v" kline); decimal_str v);
  Ok (mkCandle symbol bucket_start o h l c vol is_closed).

Definition SOURCE : string := "binance".
Definition PUBLISHER : string := "market-data-svc".
Definition ohlc_subject (symbol : string) : string := "market.ohlc.1m." +:+ symbol.

Section pipeline.
Context `{PgNumeric} {B K : Type} (bus : bus_ops B candle K).
(** [message_id_for_closed_candle], a UUID5; [uuid4], drawn per message;
    [isoformat]; the clock of the envelope. *)
Context (message_id_for_closed_candle : string → Z → Z) (uuid4 : B → Z) (isoformat : Z → string) (now : B → Z).

Record mworld := mkMworld { mw_ohlc : ohlc_table; mw_faults : list bool; mw_bus : B }.
Abbreviation MW := (ST mworld).
Definition on_mbus {A} (m : ST B A) : MW A := fun w =>
  let '(r, b) := m (mw_bus w) in (r, mkMworld (mw_ohlc w) (mw_faults w) b).
(** A statement on the pool, or the connection error drawn. *)
Definition on_ohlc {A} (m : ST ohlc_table A) : MW A := fun w =>
  match mw_faults w with
  | true :: f => (Err (RuntimeError "connection"), mkMworld (mw_ohlc w) f (mw_bus w))
  | f => let '(r, t) := m (mw_ohlc w) in (r, mkMworld t (tail f) (mw_bus w))
  end.
Definition store_candle (c : candle) : MW unit :=
  on_ohlc (insert_ohlc_1m (c_symbol c) (c_bucket_start c) (c_open c) (c_high c) (c_low c) (c_close c) (c_volume c) SOURCE).

Definition build_envelope (c : candle) (message_id : option Z) (b : B) : MessageEnvelope candle :=
  mkMessage (default (uuid4 b) message_id) ("ohlc:" +:+ c_symbol c +:+ ":" +:+ isoformat (c_bucket_start c)) (now b) PUBLISHER c.
Definition publish_candle (c : candle) (message_id : option Z) : MW unit :=
  w ← get_st;
  sent ← attempt is_exception (on_mbus (bus_publish bus (ohlc_subject (c_symbol c)) (build_envelope c message_id (mw_bus w))));
  match sent with
  | Err _ => mret tt
  | Ok _ => attempt is_exception (on_mbus (bus_kv_put bus "latest_price" (c_symbol c) (dec_str (c_close c)))) ;; mret tt
  end.
Definition persist_then_publish (c : candle) : MW unit :=
  stored ← attempt is_exception (store_candle c);
  match stored with
  | Err _ => mret tt
  | Ok _ => publish_candle c (Some (message_id_for_closed_candle (c_symbol c) (c_bucket_start c)))
  end.
Definition publish_in_progress (c : candle) : MW unit := publish_candle c None.

Definition handle_frame (symbol : string) (frame : dict) : MW unit :=
  match dict_get "data" frame with
  | Some (JObj data) =>
      match dict_get "e" data with
      | Some (JStr e) =>
          if (e =? "kline")%string then
            match dict_get "k" data with
            | Some (JObj kline) =>
                match dict_get "x" kline with
                | Some (JBool is_closed) =>
                    c ← lift_res (parse_kline symbol kline is_closed);
                    if is_closed then persist_then_publish c else publish_in_progress c
                | _ => mret tt
                end
            | _ => mret tt
            end
          else mret tt
      | _ => mret tt
      end
  | _ => mret tt
  end.
(** [async for frame in feed]: a handler that raises an [Exception] is logged
    and the next frame taken. *)
Fixpoint consume_frames (symbol : string) (frames : list dict) : MW unit :=
  match frames with
  | [] => mret tt
  | f :: fs => attempt is_exception (handle_frame symbol f) ;; consume_frames symbol fs
  end.

(** ** packages/market/backfill.py *)
(** [get_klines(symbol, "1m", start_time=, end_time=, limit=)]. *)
Context (get_klines : string → Z → Z → nat → res (list candle)).
Context (initial_hours : Z).
Definition MINUTE : Z := 60 * 1000000.
Definition REST_PAGE_LIMIT : nat := 1000.

Definition end_time (clock : Z) : Z := clock / MINUTE * MINUTE - MINUTE.
Definition resolve_start_time (symbol : string) (end_ : Z) : MW Z :=
  last ← on_ohlc (fun t => (Ok (fetch_latest_ohlc_bucket symbol SOURCE t), t));
  mret (match last with None => end_ - initial_hours * 60 * MINUTE | Some b => b + MINUTE end).
Fixpoint persist_page (candles : list candle) : MW unit :=
  match candles with
  | [] => mret tt
  | c :: cs => store_candle c ;; persist_page cs
  end.
(** The [while cursor < end_time] loop on fuel; [None] when the fuel ran out. *)
Fixpoint backfill_pages (fuel : nat) (symbol : string) (cursor end_ : Z) (persisted : Z) : MW (option Z) :=
  if end_ <=? cursor then mret (Some persisted)
  else match fuel with
       | O => mret None
       | S n =>
           page ← lift_res (get_klines symbol cursor end_ REST_PAGE_LIMIT);
           match last page with
           | None => mret (Some persisted)
           | Some c =>
               persist_page page ;;
               backfill_pages n symbol (c_bucket_start c + MINUTE) end_ (persisted + Z.of_nat (length page))
           end
       end.
Definition backfill_symbol (fuel : nat) (clock : Z) (symbol : string) : MW (option Z) :=
  let end_ := end_time clock in
  start_time ← resolve_start_time symbol end_;
  if end_ <=? start_time then mret (Some 0) else backfill_pages fuel symbol start_time end_ 0.
Fixpoint run_for_symbols (fuel : nat) (clock : Z) (symbols : list string) : MW unit :=
  match symbols with
  | [] => mret tt
  | s :: ss => attempt is_exception (backfill_symbol fuel clock s) ;; run_for_symbols fuel clock ss
  end.
End pipeline.
