(* ===== verification/MarketFacts.v ===== *)
(** * Market data: what the candle table and the bus hold, the backfill, the
    reference counts of the subscriptions *)

From S2P Require Import Prelude Json Dec DecText Float64 PyNum Scoring PaperDb PaperExchange Bus Outbox OutboxFacts Market.
From Stdlib Require Import Ascii.
Open Scope Z_scope.

(** ** The pipeline *)
Section pipeline_facts.
Context `{PgNumeric} {B K : Type} (bus0 : bus_ops B candle K).
Context (mid : string → Z → Z) (uuid4 : B * list (string * MessageEnvelope candle) → Z) (iso : Z → string).
Context (now : B * list (string * MessageEnvelope candle) → Z).
Abbreviation bus := (logging_bus bus0).
Abbreviation W := (@mworld (B * list (string * MessageEnvelope candle))).
Definition log_of (w : W) : list (string * MessageEnvelope candle) := (mw_bus w).2.
Definition key_of (c : candle) : ohlc_pk := (c_symbol c, c_bucket_start c, SOURCE).
Definition row_of (c : candle) : res OhlcRow := ohlc_columns (c_open c) (c_high c) (c_low c) (c_close c) (c_volume c).

(** The candle a frame carries, when the pipeline does not drop it. *)
Definition candle_of (symbol : string) (frame : dict) : option candle :=
  match dict_get "data" frame with
  | Some (JObj data) =>
      match dict_get "e" data, dict_get "k" data with
      | Some (JStr e), Some (JObj kline) =>
          match dict_get "x" kline with
          | Some (JBool x) => if (e =? "kline")%string then match parse_kline symbol kline x with Ok c => Some c | Err _ => None end else None
          | _ => None
          end
      | _, _ => None
      end
  | _ => None
  end.

(** What one frame does: nothing, or a row, or a row and a message, or a message
    for a candle in progress. *)
Inductive frame_effect (symbol : string) (o : option candle) (w w' : W) : Prop :=
| eff_none : mw_ohlc w' = mw_ohlc w → log_of w' = log_of w → frame_effect symbol o w w'
| eff_row c row : o = Some c → c_is_closed c = true → row_of c = Ok row →
    mw_ohlc w' = <[key_of c := row]> (mw_ohlc w) → log_of w' = log_of w → frame_effect symbol o w w'
| eff_both c row m : o = Some c → c_is_closed c = true → row_of c = Ok row →
    mw_ohlc w' = <[key_of c := row]> (mw_ohlc w) → payload m = c → message_id m = mid (c_symbol c) (c_bucket_start c) →
    log_of w' = log_of w ++ [(ohlc_subject symbol, m)] → frame_effect symbol o w w'
| eff_live c m : o = Some c → c_is_closed c = false → mw_ohlc w' = mw_ohlc w → payload m = c →
    log_of w' = log_of w ++ [(ohlc_subject symbol, m)] → frame_effect symbol o w w'.

Lemma parse_symbol symbol k x c : parse_kline symbol k x = Ok c → c_symbol c = symbol ∧ c_is_closed c = x.
Proof. unfold parse_kline. intros Hp. inv_ok. by subst. Qed.

Lemma publish_candle_effect c m w r w' :
  publish_candle bus uuid4 iso now c m w = (r, w') →
  mw_ohlc w' = mw_ohlc w ∧ (log_of w' = log_of w ∨
    ∃ e, payload e = c ∧ message_id e = default (uuid4 (mw_bus w)) m ∧ log_of w' = log_of w ++ [(ohlc_subject (c_symbol c), e)]).
Proof.
  intros E. unfold publish_candle in E. rewrite (st_bind_run get_st _ w w w eq_refl) in E.
  set (e := build_envelope uuid4 iso now c m (mw_bus w)) in E. destruct w as [t f [b l]].
  apply st_bind_cases in E as [(x & w1 & Ea & E)|(ex & Ea & ->)];
    apply attempt_inv in Ea as (y & Hp & Hy); unfold on_mbus in Hp; cbn in Hp;
    destruct (bus_publish bus0 _ _ b) as [[[]|e1] b1]; injection Hp as <- <-; cbn in Hy.
  - injection Hy as ->. cbn in E. apply st_bind_cases in E as [(z & w2 & Ek & E)|(ex & Ek & ->)];
      apply attempt_inv in Ek as (v & Hk & _); unfold on_mbus in Hk; cbn in Hk;
      destruct (bus_kv_put bus0 _ _ _ b1) as [r2 b2]; injection Hk as _ <-; try (injection E as _ <-);
      (split; [done|]); right; by exists e.
  - destruct (is_exception e1); [|done]. injection Hy as ->. injection E as _ <-. auto.
  - done.
  - destruct (is_exception e1); [done|]. auto.
Qed.

Lemma store_candle_effect c (w : W) r w' :
  store_candle c w = (r, w') →
  mw_bus w' = mw_bus w ∧ match r with
                         | Ok _ => ∃ row, row_of c = Ok row ∧ mw_ohlc w' = <[key_of c := row]> (mw_ohlc w)
                         | Err e => mw_ohlc w' = mw_ohlc w ∧ is_exception e = true
                         end.
Proof.
  unfold store_candle, on_ohlc, insert_ohlc_1m. fold (row_of c).
  assert (∀ e, row_of c = Err e → is_exception e = true) as Hexc.
  { intros e. unfold row_of, ohlc_columns, col, mbind, res_bind. by repeat case_match; intros; simplify_eq. }
  destruct (mw_faults w) as [|[] f]; [| |]; try (by intros [= <- <-]); destruct (row_of c) as [row|e] eqn:Hr; intros [= <- <-]; eauto.
Qed.

Lemma handle_frame_effect symbol f w r w' :
  handle_frame bus mid uuid4 iso now symbol f w = (r, w') → frame_effect symbol (candle_of symbol f) w w'.
Proof.
  intros E. unfold handle_frame in E. unfold candle_of.
  destruct (dict_get "data" f) as [[]|]; try (st_prim E; by apply eff_none).
  destruct (dict_get "e" o) as [[| | | |e| |]|]; try (st_prim E; by apply eff_none).
  destruct (e =? "kline")%string; [|destruct (dict_get "k" o) as [[]|]; try destruct (dict_get "x" _) as [[]|]; st_prim E; by apply eff_none].
  destruct (dict_get "k" o) as [[]|]; try (st_prim E; by apply eff_none).
  destruct (dict_get "x" o0) as [[|x| | | | |]|]; try (st_prim E; by apply eff_none).
  destruct (parse_kline symbol o0 x) as [c|ex] eqn:Hp; [|st_prim E; by apply eff_none].
  destruct (parse_symbol _ _ _ _ Hp) as [Hsym Hx].
  rewrite (st_bind_run (lift_res (Ok c)) _ w c w eq_refl) in E. destruct x.
  - unfold persist_then_publish in E. apply st_bind_cases in E as [(y & w1 & Ea & E)|(e1 & Ea & ->)];
      apply attempt_inv in Ea as (z & Hs & Hz); apply store_candle_effect in Hs as [Hb Hs]; destruct z as [[]|e2].
    + injection Hz as ->. destruct Hs as (row & Hrow & Ht).
      apply publish_candle_effect in E as (Hm & [Hl|(m & Hpay & Hid & Hl)]); try rewrite Hsym in Hl.
      * apply (eff_row _ _ _ _ c row); try done; [congruence|]. rewrite Hl. unfold log_of. by rewrite Hb.
      * apply (eff_both _ _ _ _ c row m); try done; [congruence..|]. rewrite Hl. unfold log_of. by rewrite Hb.
    + destruct Hs as [Ht He]. rewrite He in Hz. injection Hz as ->. injection E as _ <-.
      apply eff_none; [done|]. unfold log_of. by rewrite Hb.
    + done.
    + destruct Hs as [Ht He]. by rewrite He in Hz.
  - unfold publish_in_progress in E. apply publish_candle_effect in E as (Hm & [Hl|(m & Hpay & Hid & Hl)]); try rewrite Hsym in Hl.
    + by apply eff_none.
    + by apply (eff_live _ _ _ _ c m).
Qed.

(** Every candle of a run is stored or published as the frames carry it. *)
Definition run_view (symbol : string) (frames : list dict) (w w' : W) : Prop :=
  (∃ new, log_of w' = log_of w ++ new ∧
    Forall (fun x => x.1 = ohlc_subject symbol ∧ (∃ f, f ∈ frames ∧ candle_of symbol f = Some (payload x.2)) ∧
      (c_is_closed (payload x.2) = true → is_Some (mw_ohlc w' !! key_of (payload x.2)) ∧
         message_id x.2 = mid symbol (c_bucket_start (payload x.2)))) new) ∧
  (∀ k row, mw_ohlc w' !! k = Some row → mw_ohlc w !! k = Some row ∨
    ∃ f c, f ∈ frames ∧ candle_of symbol f = Some c ∧ c_is_closed c = true ∧ k = key_of c ∧ row_of c = Ok row) ∧
  (∀ k, is_Some (mw_ohlc w !! k) → is_Some (mw_ohlc w' !! k)).

Lemma candle_of_symbol symbol f c : candle_of symbol f = Some c → c_symbol c = symbol.
Proof.
  unfold candle_of. repeat case_match; intros Hc; simplify_eq/=. by eapply parse_symbol.
Qed.

Lemma frame_view symbol f w w' : frame_effect symbol (candle_of symbol f) w w' → run_view symbol [f] w w'.
Proof.
  intros [Ht Hl|c row Ho Hc Hr Ht Hl|c row m Ho Hc Hr Ht Hp Hm Hl|c m Ho Hc Ht Hp Hl]; unfold run_view; rewrite Ht, Hl.
  - split_and!; [exists []; by rewrite app_nil_r|auto..].
  - split_and!; [exists []; by rewrite app_nil_r| |].
    + intros k row'. rewrite lookup_insert_Some. intros [[<- <-]|[_ ?]]; [right; exists f, c; set_solver|auto].
    + intros k ?. apply lookup_insert_is_Some. destruct (decide (key_of c = k)); auto.
  - split_and!; [eexists; split; [done|]| |].
    + constructor; [|constructor]. cbn. rewrite Hp. split_and!; [done|exists f; set_solver|].
      intros _. rewrite lookup_insert_eq. split; [done|]. by rewrite Hm, (candle_of_symbol _ _ _ Ho).
    + intros k row'. rewrite lookup_insert_Some. intros [[<- <-]|[_ ?]]; [right; exists f, c; set_solver|auto].
    + intros k ?. apply lookup_insert_is_Some. destruct (decide (key_of c = k)); auto.
  - split_and!; [eexists; split; [done|]|auto..]. constructor; [|constructor]. cbn. rewrite Hp.
    split_and!; [done|exists f; set_solver|congruence].
Qed.

Lemma view_trans symbol f fs w w1 w' :
  run_view symbol [f] w w1 → run_view symbol fs w1 w' → run_view symbol (f :: fs) w w'.
Proof.
  intros ((n1 & Hl1 & Hf1) & Ht1 & Hk1) ((n2 & Hl2 & Hf2) & Ht2 & Hk2). split_and!.
  - exists (n1 ++ n2). split; [by rewrite Hl2, Hl1, app_assoc|]. apply Forall_app. split.
    + eapply Forall_impl; [exact Hf1|]. cbn. intros x (? & (g & ? & ?) & Hc). split_and!; [done|exists g; set_solver|].
      intros Hx. destruct (Hc Hx). auto.
    + eapply Forall_impl; [exact Hf2|]. cbn. intros x (? & (g & ? & ?) & Hc). split_and!; [done|exists g; set_solver|done].
  - intros k row Hk. destruct (Ht2 k row Hk) as [Hk'|(g & c & ? & ?)]; [|right; exists g, c; set_solver].
    destruct (Ht1 k row Hk') as [?|(g & c & ? & ?)]; [auto|right; exists g, c; set_solver].
  - auto.
Qed.

(** C16: whatever the database and the bus do, every candle the pipeline of a
    symbol gets onto the bus is the candle of one of its frames, on the
    symbol's subject; a closed one has its row in ohlc_1m and the identifier
    derived from its bucket, so that repeats are recognised; rows are only ever
    written from closed candles, with the columns' rounding, and none is lost. *)
Theorem closed_candles_are_stored_first symbol frames w r w' :
  consume_frames bus mid uuid4 iso now symbol frames w = (r, w') → run_view symbol frames w w'.
Proof.
  revert w. induction frames as [|f fs IH]; intros w E; cbn in E.
  - injection E as _ <-. split_and!; [exists []; by rewrite app_nil_r|auto..].
  - apply st_bind_cases in E as [(x & w1 & Ea & E)|(e & Ea & ->)]; apply attempt_inv in Ea as (y & Hh & _);
      apply handle_frame_effect, frame_view in Hh; [by eapply view_trans; [|apply IH]|].
    eapply view_trans; [exact Hh|]. split_and!; [exists []; by rewrite app_nil_r|auto..].
Qed.
End pipeline_facts.

(** ** The backfill *)
Section backfill_facts.
Context `{PgNumeric} {B : Type} (get_klines : string → Z → Z → nat → res (list candle)) (initial_hours : Z).
Context (symbol : string) (hist : list candle).
Abbreviation V := (@mworld B).

Definition between (a b : Z) (c : candle) : Prop := a <= c_bucket_start c <= b.
#[local] Instance between_dec a b c : Decision (between a b c).
Proof. unfold between. apply _. Defined.
(** Candles of different minutes, in order of time. *)
Definition spaced : list candle → Prop := StronglySorted (fun x y => c_bucket_start x + MINUTE <= c_bucket_start y).
(** The documented endpoint: both ends included, oldest first, at most [limit]. *)
Definition serves : Prop := ∀ a b n, get_klines symbol a b n = Ok (take n (filter (between a b) hist)).

Definition store_row (t : ohlc_table) (c : candle) : ohlc_table :=
  match row_of c with Ok r => <[key_of c := r]> t | Err _ => t end.

Lemma persist_page_run (cs : list candle) (t : ohlc_table) (b : B) : Forall (fun c => is_ok (row_of c) = true) cs →
  persist_page cs (mkMworld t [] b) = (Ok tt, mkMworld (foldl store_row t cs) [] b).
Proof.
  intros Hok. revert t. induction Hok as [|c cs Hc _ IH]; intros t; [done|]. cbn [persist_page foldl].
  assert (store_candle c (mkMworld t [] b) = (Ok tt, mkMworld (store_row t c) [] b)) as Hs.
  { unfold store_candle, on_ohlc, insert_ohlc_1m, store_row. cbn. fold (row_of c). by destruct (row_of c). }
  by rewrite (st_bind_run _ _ _ _ _ Hs).
Qed.

Lemma spaced_filter (R : candle → Prop) `{∀ c, Decision (R c)} cs : spaced cs → spaced (filter R cs).
Proof.
  induction 1 as [|c cs Hs IH Hc]; [constructor|]. rewrite filter_cons. destruct (decide (R c)); [|done].
  constructor; [done|]. apply Forall_forall. intros x [_ Hx]%list_elem_of_filter. by eapply Forall_forall in Hc.
Qed.

Lemma spaced_app a b : spaced (a ++ b) → ∀ x y, x ∈ a → y ∈ b → c_bucket_start x + MINUTE <= c_bucket_start y.
Proof.
  induction a as [|z a IH]; cbn; [set_solver|]. intros Hs x y Hx Hy. inversion Hs as [|? ? Hs' Hz]; subst.
  apply elem_of_cons in Hx as [->|Hx]; [|by apply IH]. eapply Forall_forall in Hz; [exact Hz|]. set_solver.
Qed.

Lemma spaced_le_last cs c : spaced cs → last cs = Some c → ∀ x, x ∈ cs → c_bucket_start x <= c_bucket_start c.
Proof.
  intros Hs (l & ->)%last_Some x [Hx|Hx]%elem_of_app; [|set_solver by lia].
  pose proof (spaced_app _ _ Hs x c Hx ltac:(set_solver)). unfold MINUTE in *. lia.
Qed.

(** After a page the rest of the window starts one minute past its last
    candle. *)
Lemma next_window a b n c : spaced hist → last (take n (filter (between a b) hist)) = Some c →
  filter (between (c_bucket_start c + MINUTE) b) hist = drop n (filter (between a b) hist) ∧ a <= c_bucket_start c.
Proof.
  intros Hs Hl. set (todo := filter (between a b) hist) in *. assert (spaced todo) as Ht by by apply spaced_filter.
  assert (c ∈ todo) as Hc. { apply (last_Some_elem_of _ _) in Hl. by apply elem_of_take in Hl as (i & Hi & _); eapply list_elem_of_lookup_2. }
  apply list_elem_of_filter in Hc as [Hc _]. split; [|unfold between in Hc; lia].
  assert (filter (between (c_bucket_start c + MINUTE) b) hist = filter (between (c_bucket_start c + MINUTE) b) todo) as ->.
  { unfold todo. rewrite list_filter_filter. apply list_filter_iff. intros x. unfold between, MINUTE in *. lia. }
  rewrite <- (take_drop n todo) at 1. rewrite filter_app.
  assert (spaced (take n todo)) as Hsp. { pose proof Ht as Ht'. rewrite <- (take_drop n todo) in Ht'. by apply StronglySorted_app_1_l in Ht'. }
  rewrite filter_none.
  - cbn [app]. assert (Forall (between (c_bucket_start c + MINUTE) b) (drop n todo)) as Hall; [|by apply filter_every].
    apply Forall_forall. intros x Hx. assert (x ∈ todo) as Hxt by (rewrite <- (take_drop n todo); set_solver).
    apply list_elem_of_filter in Hxt as [Hxb _]. rewrite <- (take_drop n todo) in Ht.
    pose proof (spaced_app _ _ Ht c x (last_Some_elem_of _ _ Hl) Hx). unfold between in *. lia.
  - intros x Hx. pose proof (spaced_le_last _ _ Hsp Hl x Hx). unfold between, MINUTE. lia.
Qed.

Lemma backfill_pages_run fuel cursor end_ n0 t (b : B) :
  serves → spaced hist → Forall (fun c => is_ok (row_of c) = true) hist →
  end_ - cursor <= Z.of_nat fuel * MINUTE →
  ∃ done rest, filter (between cursor end_) hist = done ++ rest ∧ Forall (fun c => c_bucket_start c = end_) rest ∧
    backfill_pages get_klines fuel symbol cursor end_ n0 (mkMworld t [] b) =
      (Ok (Some (n0 + Z.of_nat (length done))), mkMworld (foldl store_row t done) [] b).
Proof.
  intros Hg Hs Hok. revert cursor n0 t. induction fuel as [|n IH]; intros cursor n0 t Hf.
  all: cbn [backfill_pages]; destruct (Z.leb_spec end_ cursor) as [Hle|Hlt]; [|try (unfold MINUTE in Hf; lia)].
  1,2: exists [], (filter (between cursor end_) hist); (split_and!; [done| |cbn; by rewrite Z.add_0_r]);
    apply Forall_forall; intros c [Hc _]%list_elem_of_filter; unfold between in Hc; lia.
  unfold lift_res at 1. unfold mbind at 1, st_bind at 1. rewrite (Hg cursor end_ REST_PAGE_LIMIT).
  set (todo := filter (between cursor end_) hist). destruct (last (take REST_PAGE_LIMIT todo)) as [c|] eqn:Hl.
  - destruct (next_window cursor end_ REST_PAGE_LIMIT c Hs Hl) as [Hnext Hc]. fold todo in Hnext.
    assert (Forall (fun x => is_ok (row_of x) = true) (take REST_PAGE_LIMIT todo)) as Hpg.
    { apply Forall_take, Forall_forall. intros x [_ Hx]%list_elem_of_filter. by eapply Forall_forall in Hok. }
    rewrite (st_bind_run _ _ _ _ _ (persist_page_run _ t b Hpg)).
    destruct (IH (c_bucket_start c + MINUTE) (n0 + Z.of_nat (length (take REST_PAGE_LIMIT todo))) (foldl store_row t (take REST_PAGE_LIMIT todo)))
      as (done & rest & Hsplit & Hrest & Hrun); [unfold MINUTE in *; lia|].
    exists (take REST_PAGE_LIMIT todo ++ done), rest. split_and!; [|done|].
    + rewrite <- app_assoc, <- Hsplit, Hnext. by rewrite take_drop.
    + rewrite Hrun, foldl_app, length_app, Nat2Z.inj_add. do 3 f_equal. lia.
  - assert (todo = []) as Ht. { apply last_None in Hl. by destruct todo. }
    exists [], []. rewrite Ht. split_and!; [done|constructor|cbn; by rewrite Z.add_0_r].
Qed.

Lemma foldl_store_other cs t k : (∀ c, c ∈ cs → key_of c ≠ k) → foldl store_row t cs !! k = t !! k.
Proof.
  revert t. induction cs as [|c cs IH]; intros t Hn; [done|]. cbn. rewrite IH by set_solver. unfold store_row.
  destruct (row_of c); [|done]. apply lookup_insert_ne. apply Hn. set_solver.
Qed.
Lemma foldl_store_in cs t c row : spaced cs → c ∈ cs → row_of c = Ok row → foldl store_row t cs !! key_of c = Some row.
Proof.
  intros Hs. revert t. induction Hs as [|x cs Hs IH Hx]; intros t Hc Hr; [set_solver|]. cbn.
  apply elem_of_cons in Hc as [->|Hc]; [|by apply IH]. rewrite foldl_store_other.
  - unfold store_row. rewrite Hr. apply lookup_insert_eq.
  - intros y Hy [= _ Hb]. eapply Forall_forall in Hx; [|exact Hy]. unfold MINUTE in Hx. lia.
Qed.

(** Where the backfill of a symbol starts: a minute after the newest stored
    candle, or [initial_hours] back. *)
Definition gap_start (clock : Z) (t : ohlc_table) : Z :=
  match fetch_latest_ohlc_bucket symbol SOURCE t with
  | None => end_time clock - initial_hours * 60 * MINUTE
  | Some b => b + MINUTE
  end.

(** C18: against an endpoint that serves the history as documented, and a
    database that accepts it, the backfill of a symbol terminates within one
    request per missing minute, stores every candle from the minute after the
    newest stored one up to (and possibly including) the last closed minute but
    one, reports how many it stored, and changes no other row. *)
Theorem backfill_fills_the_gap clock fuel t (b : B) :
  serves → spaced hist → Forall (fun c => is_ok (row_of c) = true) hist →
  end_time clock - gap_start clock t <= Z.of_nat fuel * MINUTE →
  ∃ done t', backfill_symbol get_klines initial_hours fuel clock symbol (mkMworld t [] b) =
      (Ok (Some (Z.of_nat (length done))), mkMworld t' [] b) ∧
    (∀ c, c ∈ done → c ∈ hist ∧ gap_start clock t <= c_bucket_start c <= end_time clock ∧
       (Some <$> row_of c) = Ok (t' !! key_of c)) ∧
    (∀ c, c ∈ hist → gap_start clock t <= c_bucket_start c < end_time clock → c ∈ done) ∧
    (∀ k, (∀ c, c ∈ done → key_of c ≠ k) → t' !! k = t !! k).
Proof.
  intros Hg Hs Hok Hf. unfold backfill_symbol.
  assert (resolve_start_time initial_hours symbol (end_time clock) (mkMworld t [] b) = (Ok (gap_start clock t), mkMworld t [] b)) as Hst.
  { unfold resolve_start_time, gap_start. by rewrite (st_bind_run (on_ohlc _) _ _ (fetch_latest_ohlc_bucket symbol SOURCE t) (mkMworld t [] b)). }
  rewrite (st_bind_run _ _ _ _ _ Hst). destruct (Z.leb_spec (end_time clock) (gap_start clock t)) as [Hle|Hlt].
  - exists [], t. split_and!; [done|set_solver|lia|done].
  - destruct (backfill_pages_run fuel (gap_start clock t) (end_time clock) 0 t b Hg Hs Hok Hf) as (done & rest & Hsplit & Hrest & Hrun).
    assert (spaced done) as Hsd. { apply (StronglySorted_app_1_l _ done rest). rewrite <- Hsplit. by apply spaced_filter. }
    exists done, (foldl store_row t done). split_and!; [exact Hrun| | |].
    + intros c Hc. assert (c ∈ filter (between (gap_start clock t) (end_time clock)) hist) as [Hb Hh]%list_elem_of_filter by (rewrite Hsplit; set_solver).
      split_and!; [done|apply Hb..|]. eapply Forall_forall in Hok; [|exact Hh]. destruct (row_of c) as [row|] eqn:Hr; [|discriminate Hok].
      by rewrite (foldl_store_in done t c row Hsd Hc Hr).
    + intros c Hc Hb. assert (c ∈ done ++ rest) as Hin. { rewrite <- Hsplit. apply list_elem_of_filter. split; [unfold between; lia|done]. }
      apply elem_of_app in Hin as [?|Hin]; [done|]. eapply Forall_forall in Hrest; [|exact Hin]. lia.
    + intros k Hk. by apply foldl_store_other.
Qed.
End backfill_facts.

(** ** Subscriptions *)
Lemma upper_lower_char a : is_upper_alnum a = true →
  upper (String (lower_ascii a) "") = String a "" ∧ Ascii.eqb (lower_ascii a) "@"%char = false.
Proof. by destruct a as [[] [] [] [] [] [] [] []]. Qed.

Lemma upper_lower s : all_chars is_upper_alnum s = true → upper (lower s) = s.
Proof.
  induction s as [|a s IH]; cbn [all_chars lower upper]; [done|]. intros [Ha Hs]%andb_true_iff.
  apply upper_lower_char in Ha as [Ha _]. cbn in Ha. injection Ha as Ha. rewrite IH by done. by f_equal.
Qed.
Lemma before_at_lower s k : all_chars is_upper_alnum s = true → before_at (lower s +:+ String "@" k) = Some (lower s).
Proof.
  induction s as [|a s IH]; cbn [all_chars lower]; [done|]. intros [Ha Hs]%andb_true_iff.
  apply upper_lower_char in Ha as [_ Ha]. change (String (lower_ascii a) (lower s) +:+ String "@" k) with (String (lower_ascii a) (lower s +:+ String "@" k)).
  cbn [before_at]. by rewrite Ha, IH.
Qed.
Lemma routed symbol kind : valid_symbol symbol = true → upper <$> before_at (stream_name symbol kind) = Some symbol.
Proof.
  intros [_ Hs]%andb_true_iff. unfold stream_name. change ("@" +:+ kind) with (String "@" kind).
  rewrite before_at_lower by done. cbn. by rewrite upper_lower.
Qed.
Lemma stream_name_inj s k s' k' : valid_symbol s = true → valid_symbol s' = true →
  stream_name s k = stream_name s' k' → s = s'.
Proof. intros Hs Hs' He. apply (routed s k) in Hs. apply (routed s' k') in Hs'. rewrite He in Hs. congruence. Qed.

(** *** The streams of the socket *)
Definition names (symbol : string) (kinds : list string) : gset string := list_to_set (stream_name symbol <$> kinds).

Lemma tell_streams m st w r w' : tell_if_connected m st w = (r, w') → ws_streams w' = ws_streams w.
Proof.
  unfold tell_if_connected, send_subscription, mbind, st_bind, get_st. cbn. destruct (_ && _); [|by intros [= _ <-]].
  destruct (ws_open w); [|by intros [= _ <-]]. destruct (ws_faults w) as [|[] ?]; by intros [= _ <-].
Qed.
Lemma add_stream_streams st w r w' : add_stream st w = (r, w') → ws_streams w' = {[st]} ∪ ws_streams w.
Proof.
  unfold add_stream. rewrite (st_bind_run get_st _ w w w eq_refl). case_bool_decide as Hin.
  - intros [= _ <-]. set_solver.
  - intros E. st_inv. by apply tell_streams in E.
Qed.
Lemma remove_stream_streams st w r w' : remove_stream st w = (r, w') → ws_streams w' = ws_streams w ∖ {[st]}.
Proof.
  unfold remove_stream. rewrite (st_bind_run get_st _ w w w eq_refl). case_bool_decide as Hin.
  - intros E. st_inv. by apply tell_streams in E.
  - intros [= _ <-]. set_solver.
Qed.
Lemma add_kinds symbol ks w w' : for_kinds add_stream symbol ks w = (Ok tt, w') → ws_streams w' = names symbol ks ∪ ws_streams w.
Proof.
  revert w. induction ks as [|k ks IH]; intros w E; cbn in E; [injection E as <-; set_solver|].
  apply st_bind_ok_inv in E as ([] & w1 & E1 & E). apply add_stream_streams in E1. apply IH in E. rewrite E, E1. set_solver.
Qed.
Lemma remove_kinds symbol ks w w' : for_kinds remove_stream symbol ks w = (Ok tt, w') → ws_streams w' = ws_streams w ∖ names symbol ks.
Proof.
  revert w. induction ks as [|k ks IH]; intros w E; cbn in E; [injection E as <-; set_solver|].
  apply st_bind_ok_inv in E as ([] & w1 & E1 & E). apply remove_stream_streams in E1. apply IH in E. rewrite E, E1. set_solver.
Qed.

(** *** Who holds what

    [sw_owner] is the abstract state: the open subscriptions, by feed.
    [sw_leaked] are the feeds whose [__aenter__] raised, so that no block will
    ever release them; [sw_clean] says that no operation has raised.  On the
    side of the exchange, [sw_since] is the number of frames that had been sent
    when the current connection was opened and [sw_asked] says that no frame
    of this connection failed. *)
Record sworld := mkSworld {
  sw_mgr : SubscriptionManager; sw_owner : gmap Z string; sw_leaked : gset Z; sw_clean : bool; sw_since : nat; sw_asked : bool;
}.

(** What the exchange streams after a sequence of frames on a connection. *)
Definition apply_frame (s : gset string) (f : ws_method * list string * Z) : gset string :=
  match f.1.1 with SUBSCRIBE => s ∪ list_to_set f.1.2 | UNSUBSCRIBE => s ∖ list_to_set f.1.2 end.
Definition asked_for (frames : list (ws_method * list string * Z)) : gset string := foldl apply_frame ∅ frames.
Definition at_exchange (w : sworld) : gset string := asked_for (drop (sw_since w) (ws_sent (sm_ws (sw_mgr w)))).

(** While the client is connected, the frames of the connection ask for the
    streams of the client. *)
Definition in_step (since : nat) (asked : bool) (ws : BinanceWsClient) : Prop :=
  (since <= length (ws_sent ws))%nat ∧
  (asked = true → ws_state ws = ws_connected → ws_open ws = true → asked_for (drop since (ws_sent ws)) = ws_streams ws).

Lemma tell_inv m st w r w' : tell_if_connected m st w = (r, w') →
  ws_state w' = ws_state w ∧ ws_open w' = ws_open w ∧ ws_streams w' = ws_streams w ∧
  ((ws_state w = ws_connected → ws_open w = true → r = Ok tt → ∃ id, ws_sent w' = ws_sent w ++ [(m, [st], id)]) ∧
   ∃ l, ws_sent w' = ws_sent w ++ l).
Proof.
  unfold tell_if_connected, send_subscription, mbind, st_bind, get_st. cbn. case_bool_decide as Hc; cbn [andb].
  2: { intros [= <- <-]. split_and!; [done..|exists []; by rewrite app_nil_r]. }
  destruct (ws_open w) eqn:Ho; [|intros [= <- <-]; split_and!; [done..|exists []; by rewrite app_nil_r]].
  rewrite ?Ho. destruct (ws_faults w) as [|[] ?]; intros [= <- <-]; cbn; split_and!; eauto; first [done | exists []; by rewrite app_nil_r].
Qed.
Lemma asked_snoc l m st id : asked_for (l ++ [(m, [st], id)]) = match m with SUBSCRIBE => asked_for l ∪ {[st]} | UNSUBSCRIBE => asked_for l ∖ {[st]} end.
Proof. unfold asked_for. rewrite foldl_app. generalize (foldl apply_frame ∅ l). intros s. destruct m; cbn; unfold apply_frame; cbn; set_solver. Qed.

(** A frame that tells of a change keeps the two in step. *)
Lemma tell_in_step m st f since asked w r w' :
  in_step since asked w → (∀ s : gset string, f s = match m with SUBSCRIBE => s ∪ {[st]} | UNSUBSCRIBE => s ∖ {[st]} end) →
  tell_if_connected m st (set_streams f w) = (r, w') → in_step since (asked && is_ok r) w'.
Proof.
  intros [Hl Hi] Hf (Hs & Ho & Hst & Hok & l & Hlen)%tell_inv. cbn in *. split; [rewrite Hlen, length_app; lia|].
  intros [Ha Hr]%andb_true_iff Hc Hop. rewrite Hs in Hc. rewrite Ho in Hop.
  destruct (Hok Hc Hop) as [id ->]; [by destruct r as [[]|]|]. rewrite drop_app_le by done. rewrite asked_snoc, Hst, Hi, Hf by done. done.
Qed.
Lemma in_step_weaken since asked b w : in_step since asked w → in_step since (asked && b) w.
Proof. intros [Hl Hi]. split; [done|]. intros [? _]%andb_true_iff. auto. Qed.
Lemma add_in_step since asked st w r w' : in_step since asked w → add_stream st w = (r, w') → in_step since (asked && is_ok r) w'.
Proof.
  intros Hi. unfold add_stream. rewrite (st_bind_run get_st _ w w w eq_refl). case_bool_decide; [intros [= <- <-]; by apply in_step_weaken|].
  intros E. st_inv. eapply (tell_in_step SUBSCRIBE); [exact Hi| |exact E]. intros s. set_solver.
Qed.
Lemma remove_in_step since asked st w r w' : in_step since asked w → remove_stream st w = (r, w') → in_step since (asked && is_ok r) w'.
Proof.
  intros Hi. unfold remove_stream. rewrite (st_bind_run get_st _ w w w eq_refl). case_bool_decide; [|intros [= <- <-]; by apply in_step_weaken].
  intros E. st_inv. by eapply (tell_in_step UNSUBSCRIBE); [exact Hi| |exact E].
Qed.
Lemma kinds_in_step (op : string → ST BinanceWsClient unit) since symbol ks :
  (∀ asked st w r w', in_step since asked w → op st w = (r, w') → in_step since (asked && is_ok r) w') →
  ∀ asked w r w', in_step since asked w → for_kinds op symbol ks w = (r, w') → in_step since (asked && is_ok r) w'.
Proof.
  intros Hop. induction ks as [|k ks IH]; intros asked w r w' Hi E; cbn in E; [injection E as <- <-; by apply in_step_weaken|].
  apply st_bind_cases in E as [([] & w1 & E1 & E)|(e & E1 & ->)]; [|by eapply Hop in E1].
  eapply Hop in E1; [|done]. cbn in E1. rewrite andb_true_r in E1. by eapply IH.
Qed.
Section subscription_facts.
Context (kinds : list string) (maxsize : Z) (sorted : gset string → list string).
Hypothesis Hsorted : ∀ s x, x ∈ sorted s ↔ x ∈ s.

(** What the loop of the client does to the socket apart from connecting, and
    which of the next sends fail. *)
Inductive socket_step (w : BinanceWsClient) : BinanceWsClient → Prop :=
| sk_turn first : socket_step w (ws_turn first w)
| sk_lost : socket_step w (ws_disconnect w)
| sk_close : socket_step w (ws_close w)
| sk_faults fs : socket_step w (mkWs (ws_state w) (ws_open w) (ws_streams w) (ws_next_id w) (ws_sent w) fs).
Definition set_ws (ws : BinanceWsClient) (s : SubscriptionManager) : SubscriptionManager :=
  mkManager (sm_counts s) (sm_feeds s) (sm_store s) (sm_next s) ws (sm_overflows s).

Inductive sub_step : sworld → sworld → Prop :=
| st_enter w symbol sub r s' : subscribe symbol = Ok sub → subscription_enter kinds sub (sw_mgr w) = (r, s') →
    sub_step w (mkSworld s' (<[sm_next (sw_mgr w) := symbol]> (sw_owner w))
                  (if is_ok r then sw_leaked w else {[sm_next (sw_mgr w)]} ∪ sw_leaked w) (sw_clean w && is_ok r)
                  (sw_since w) (sw_asked w && is_ok r))
| st_exit w id symbol r s' : sw_owner w !! id = Some symbol → id ∉ sw_leaked w →
    subscription_exit kinds maxsize (mkSubscription symbol (Some id)) (sw_mgr w) = (r, s') →
    sub_step w (mkSworld s' (delete id (sw_owner w)) (sw_leaked w) (sw_clean w && is_ok r) (sw_since w) (sw_asked w && is_ok r))
| st_dispatch w frame r s' : dispatch maxsize frame (sw_mgr w) = (r, s') →
    sub_step w (mkSworld s' (sw_owner w) (sw_leaked w) (sw_clean w) (sw_since w) (sw_asked w))
| st_read w id f x f' : sm_store (sw_mgr w) !! id = Some f → feed_next f = Some (x, f') →
    sub_step w (mkSworld (let s := sw_mgr w in mkManager (sm_counts s) (sm_feeds s) (<[id := f']> (sm_store s)) (sm_next s)
                            (sm_ws s) (sm_overflows s)) (sw_owner w) (sw_leaked w) (sw_clean w) (sw_since w) (sw_asked w))
| st_socket w ws : socket_step (sm_ws (sw_mgr w)) ws →
    sub_step w (mkSworld (set_ws ws (sw_mgr w)) (sw_owner w) (sw_leaked w) (sw_clean w) (sw_since w) (sw_asked w))
| st_connect w r ws : ws_connect sorted (sm_ws (sw_mgr w)) = (r, ws) →
    sub_step w (mkSworld (set_ws ws (sw_mgr w)) (sw_owner w) (sw_leaked w) (sw_clean w) (length (ws_sent (sm_ws (sw_mgr w)))) (is_ok r)).

Definition owned (w : sworld) : Prop :=
  let s := sw_mgr w in
  (∀ sym, sm_counts s !! sym = (Z.of_nat ∘ length) <$> sm_feeds s !! sym) ∧
  (∀ sym l, sm_feeds s !! sym = Some l → l ≠ [] ∧ NoDup l ∧ ∀ id, id ∈ l ↔ sw_owner w !! id = Some sym) ∧
  (∀ id sym, sw_owner w !! id = Some sym →
     is_Some (sm_feeds s !! sym) ∧ id < sm_next s ∧ valid_symbol sym = true ∧ sf_symbol <$> sm_store s !! id = Some sym) ∧
  (sw_clean w = true → ∀ st, st ∈ ws_streams (sm_ws s) ↔
     ∃ sym, is_Some (sm_feeds s !! sym) ∧ st ∈ names sym kinds).

Lemma on_ws_inv {A} (m : ST BinanceWsClient A) s r s' : on_ws m s = (r, s') →
  ∃ w, m (sm_ws s) = (r, w) ∧ s' = mkManager (sm_counts s) (sm_feeds s) (sm_store s) (sm_next s) w (sm_overflows s).
Proof. unfold on_ws. destruct (m (sm_ws s)) as [r1 w]. intros [= -> <-]. eauto. Qed.

(** Acquiring: the book of the manager, whatever the socket does; the streams
    when it does not raise. *)
Lemma acquire_spec symbol s r s' : acquire_feed kinds symbol s = (r, s') →
  let count := default 0 (sm_counts s !! symbol) in
  sm_counts s' = <[symbol := count + 1]> (sm_counts s) ∧
  sm_feeds s' = <[symbol := default [] (sm_feeds s !! symbol) ++ [sm_next s]]> (sm_feeds s) ∧
  sm_store s' = <[sm_next s := mkFeed symbol []]> (sm_store s) ∧ sm_next s' = sm_next s + 1 ∧
  (is_ok r = true → r = Ok (sm_next s) ∧
     ws_streams (sm_ws s') = if count =? 0 then names symbol kinds ∪ ws_streams (sm_ws s) else ws_streams (sm_ws s)).
Proof.
  intros E. unfold acquire_feed in E. rewrite (st_bind_run get_st _ s s s eq_refl) in E. cbn zeta.
  set (count := default 0 (sm_counts s !! symbol)) in *. unfold modify in E. rewrite (st_bind_run (fun _ => _) _ _ _ _ eq_refl) in E.
  destruct (count =? 0).
  - apply st_bind_cases in E as [([] & s1 & Ew & E)|(e & Ew & ->)]; apply on_ws_inv in Ew as (w & Hw & ->).
    + injection E as <- <-. split_and!; [done..|]. intros _. split; [done|]. by apply add_kinds in Hw.
    + by split_and!.
  - rewrite (st_bind_run (mret tt) _ _ tt _ eq_refl) in E. injection E as <- <-. by split_and!.
Qed.

Lemma release_spec symbol id s r s' count : release_feed kinds maxsize symbol id s = (r, s') →
  sm_counts s !! symbol = Some count → 0 < count →
  sm_store s' = alter (feed_put maxsize item_eof) id (sm_store s) ∧ sm_next s' = sm_next s ∧
  (1 < count → sm_counts s' = <[symbol := count - 1]> (sm_counts s) ∧ sm_feeds s' = alter (filter (.≠ id)) symbol (sm_feeds s) ∧
     ws_streams (sm_ws s') = ws_streams (sm_ws s)) ∧
  (count = 1 → sm_counts s' = delete symbol (sm_counts s) ∧ sm_feeds s' = delete symbol (sm_feeds s) ∧
     (is_ok r = true → ws_streams (sm_ws s') = ws_streams (sm_ws s) ∖ names symbol kinds)).
Proof.
  intros E Hc Hpos. unfold release_feed in E. rewrite (st_bind_run get_st _ s s s eq_refl) in E.
  replace (default 0 (sm_counts s !! symbol)) with count in E by (by rewrite Hc). cbn zeta in E.
  destruct (Z.eqb_spec count 0) as [?|_]; [lia|].
  unfold modify in E. rewrite (st_bind_run (fun _ => _) _ _ _ _ eq_refl) in E. destruct (Z.ltb_spec 1 count).
  - injection E as _ <-. cbn. split_and!; [done..|lia].
  - rewrite (st_bind_run (fun _ => _) _ _ _ _ eq_refl) in E. apply on_ws_inv in E as (w & Hw & ->). cbn. split_and!; [done|done|lia|].
    intros _. split_and!; [done|by rewrite delete_alter, decide_True|]. destruct r as [[]|]; [|done]. intros _. by apply remove_kinds in Hw.
Qed.

(** Delivering to a list of distinct feeds. *)
Lemma dispatch_fold symbol frame l s : NoDup l →
  let s' := fold_left (dispatch_to maxsize symbol frame) l s in
  sm_counts s' = sm_counts s ∧ sm_feeds s' = sm_feeds s ∧ sm_next s' = sm_next s ∧ sm_ws s' = sm_ws s ∧
  ∀ i, sm_store s' !! i = if decide (i ∈ l) then feed_put maxsize (item_frame frame) <$> sm_store s !! i else sm_store s !! i.
Proof.
  revert s. induction l as [|x l IH]; intros s Hn; cbn zeta; [by split_and!|].
  apply NoDup_cons in Hn as [Hx Hn]. cbn [fold_left]. destruct (IH (dispatch_to maxsize symbol frame s x) Hn) as (-> & -> & -> & -> & Hst).
  split_and!; [done..|]. intros i. rewrite Hst. cbn. destruct (decide (i = x)) as [->|Hne].
  - rewrite decide_False by done. rewrite decide_True by set_solver. by rewrite lookup_alter_eq.
  - rewrite lookup_alter_ne by done. by destruct (decide (i ∈ l)), (decide (i ∈ x :: l)); try set_solver.
Qed.

Lemma dispatch_frame frame s r s' : (∀ sym l, sm_feeds s !! sym = Some l → NoDup l) → dispatch maxsize frame s = (r, s') →
  sm_counts s' = sm_counts s ∧ sm_feeds s' = sm_feeds s ∧ sm_next s' = sm_next s ∧ sm_ws s' = sm_ws s ∧
  ∀ i, sf_symbol <$> sm_store s' !! i = sf_symbol <$> sm_store s !! i.
Proof.
  intros Hn E. unfold dispatch in E. destruct (dict_get "stream" frame) as [[| | | |st| |]|]; try (injection E as _ <-; by split_and!).
  destruct (before_at st) as [low|]; [|injection E as _ <-; by split_and!]. unfold modify in E. injection E as _ <-.
  assert (NoDup (default [] (sm_feeds s !! upper low))) as Hl. { destruct (sm_feeds s !! upper low) eqn:Hf; [by eapply Hn|constructor]. }
  destruct (dispatch_fold (upper low) frame _ s Hl) as (H1 & H2 & H3 & H4 & H5). split_and!; [done..|].
  intros i. rewrite H5. destruct (decide _); [|done]. by destruct (sm_store s !! i).
Qed.

Lemma owned_enter w symbol s' r since asked : owned w → valid_symbol symbol = true → acquire_feed kinds symbol (sw_mgr w) = (r, s') →
  owned (mkSworld s' (<[sm_next (sw_mgr w) := symbol]> (sw_owner w))
           (if is_ok r then sw_leaked w else {[sm_next (sw_mgr w)]} ∪ sw_leaked w) (sw_clean w && is_ok r) since asked).
Proof.
  intros (Hc & Hf & Ho & Hst) Hv E. apply acquire_spec in E as (Ec & Ef & Es & En & Ew). set (s := sw_mgr w) in *.
  assert (∀ id sym, sw_owner w !! id = Some sym → id ≠ sm_next s) as Hfresh by (intros id sym Hid; destruct (Ho _ _ Hid) as (_ & ? & _); lia).
  unfold owned. cbn. rewrite Ec, Ef, Es, En. split_and!.
  - intros sym. destruct (decide (sym = symbol)) as [->|]; [|by rewrite !lookup_insert_ne]. rewrite !lookup_insert_eq, Hc. cbn.
    f_equal. destruct (sm_feeds s !! symbol); cbn; rewrite ?length_app; cbn; lia.
  - intros sym l. rewrite lookup_insert_Some. intros [[<- <-]|[Hne Hl]].
    + assert (∀ id, id ∈ default [] (sm_feeds s !! symbol) ↔ sw_owner w !! id = Some symbol) as Hm.
      { intros id. destruct (sm_feeds s !! symbol) as [l|] eqn:Hl; [by destruct (Hf _ _ Hl) as (_ & _ & ->)|]. cbn.
        split; [set_solver|]. intros Hid. destruct (Ho _ _ Hid) as ([? ?] & _). congruence. }
      split_and!; [by destruct (default [] (sm_feeds s !! symbol))| |].
      * apply NoDup_app. split_and!; [|intros id Hi; apply Hm, Hfresh in Hi; set_solver|apply NoDup_singleton].
        destruct (sm_feeds s !! symbol) as [l|] eqn:Hl; [by destruct (Hf _ _ Hl) as (_ & ? & _)|constructor].
      * intros id. rewrite elem_of_app, Hm, lookup_insert_Some, list_elem_of_singleton.
        split; [intros [Hi| ->]; [right; split; [by eapply not_eq_sym, Hfresh|done]|by left]|intros [[<- _]|[_ ?]]; auto].
    + destruct (Hf _ _ Hl) as (? & ? & Hm). split_and!; [done..|]. intros id. rewrite Hm, lookup_insert_Some.
      split; [intros Hi; right; split; [by eapply not_eq_sym, Hfresh|done]|intros [[_ ?]|[_ ?]]; done].
  - intros id sym. rewrite lookup_insert_Some. intros [[<- <-]|[Hne Hid]].
    + rewrite !lookup_insert_eq. split_and!; [done|lia|done..].
    + destruct (Ho _ _ Hid) as (? & ? & ? & ?). rewrite lookup_insert_is_Some, lookup_insert_ne by done.
      split_and!; [destruct (decide (symbol = sym)); auto|lia|done..].
  - intros [Hcl Hr]%andb_true_iff st. destruct (Ew Hr) as [_ Hws]. rewrite Hws. specialize (Hst Hcl st).
    assert (is_Some (sm_feeds s !! symbol) ↔ default 0 (sm_counts s !! symbol) ≠ 0) as Hpos.
    { rewrite Hc. destruct (sm_feeds s !! symbol) as [l|] eqn:Hl; cbn; [|split; [by intros []|done]].
      destruct (Hf _ _ Hl) as (Hne & _). destruct l; [done|]. split; [cbn; lia|by eauto]. }
    setoid_rewrite lookup_insert_is_Some. destruct (Z.eqb_spec (default 0 (sm_counts s !! symbol)) 0) as [Hz|Hz].
    + rewrite elem_of_union, Hst. split.
      * intros [Hn|(sym & Hs & Hn)]; [by exists symbol; auto|exists sym; split; [|done]]. destruct (decide (symbol = sym)); auto.
      * intros (sym & [<-|[_ Hs]] & Hn); [auto|right; eauto].
    + rewrite Hst. split; intros (sym & Hs & Hn); exists sym; (split; [|done]).
      * destruct (decide (symbol = sym)); auto.
      * destruct Hs as [<-|[_ ?]]; [by apply Hpos|done].
Qed.

Lemma owned_exit w id symbol s' r since asked : owned w → sw_owner w !! id = Some symbol →
  release_feed kinds maxsize symbol id (sw_mgr w) = (r, s') →
  owned (mkSworld s' (delete id (sw_owner w)) (sw_leaked w) (sw_clean w && is_ok r) since asked).
Proof.
  intros (Hc & Hf & Ho & Hst) Hid E. set (s := sw_mgr w) in *. destruct (Ho _ _ Hid) as ([l Hl] & _ & Hv & _).
  destruct (Hf _ _ Hl) as (Hne & Hnd & Hm). assert (sm_counts s !! symbol = Some (Z.of_nat (length l))) as Hcount by (rewrite Hc, Hl; done).
  assert (0 < Z.of_nat (length l)) as Hpos by (destruct l; [done|cbn; lia]).
  destruct (release_spec symbol id s r s' _ E Hcount Hpos) as (Es & En & Hmany & Hone).
  assert (∀ i sym, delete id (sw_owner w) !! i = Some sym → sw_owner w !! i = Some sym ∧ i ≠ id) as Hdel.
  { intros i sym. rewrite lookup_delete_Some. naive_solver. }
  assert (id ∈ l) as Hin by by apply Hm.
  assert (∀ i sym, sf_symbol <$> sm_store s' !! i = Some sym ↔ sf_symbol <$> sm_store s !! i = Some sym) as Hsym.
  { intros i sym. rewrite Es. destruct (decide (i = id)) as [->|]; [rewrite lookup_alter_eq|by rewrite lookup_alter_ne].
    by destruct (sm_store s !! id). }
  destruct (decide (Z.of_nat (length l) = 1)) as [H1|H1].
  - destruct (Hone H1) as (Ec & Ef & Ew). assert (l = [id]) as ->.
    { destruct l as [|x [|y l]]; cbn in H1; try lia. set_solver. }
    unfold owned. cbn. rewrite Ec, Ef, En. split_and!.
    + intros sym. destruct (decide (sym = symbol)) as [->|]; [by rewrite !lookup_delete_eq|by rewrite !lookup_delete_ne].
    + intros sym l'. rewrite lookup_delete_Some. intros [Hns Hl']. destruct (Hf _ _ Hl') as (? & ? & Hm'). split_and!; [done..|].
      intros i. rewrite Hm', lookup_delete_Some. split; [|by intros [_ ?]]. intros Hi. split; [|done]. intros <-. congruence.
    + intros i sym Hi. apply Hdel in Hi as [Hi Hni]. destruct (Ho _ _ Hi) as (Hs & ? & ? & ?). rewrite Hsym. split_and!; [|done..].
      apply lookup_delete_is_Some. split; [|done]. intros <-. rewrite <- Hm in Hi. set_solver.
    + intros [Hcl Hr]%andb_true_iff st. rewrite (Ew Hr), elem_of_difference, (Hst Hcl). split.
      * intros [(sym & Hs & Hn) Hnot]. exists sym. split; [|done]. apply lookup_delete_is_Some. split; [|done]. by intros <-.
      * intros (sym & [Hns Hs]%lookup_delete_is_Some & Hn). split; [eauto|]. intros Hn'.
        unfold names in Hn, Hn'. apply elem_of_list_to_set, list_elem_of_fmap in Hn as (k & -> & _), Hn' as (k' & He & _).
        destruct Hs as [l' Hl']. destruct (Hf _ _ Hl') as (Hne' & _ & Hm'). destruct l' as [|i l']; [done|].
        assert (sw_owner w !! i = Some sym) as Hi by (apply Hm'; set_solver). destruct (Ho _ _ Hi) as (_ & _ & Hv' & _).
        by apply Hns, (stream_name_inj symbol k' sym k).
  - destruct (Hmany ltac:(lia)) as (Ec & Ef & Ew). unfold owned. cbn. rewrite Ec, Ef, En, Ew.
    assert (alter (filter (.≠ id)) symbol (sm_feeds s) !! symbol = Some (filter (.≠ id) l)) as Hal by (by rewrite lookup_alter_eq, Hl).
    assert (Z.of_nat (length (filter (.≠ id) l)) = Z.of_nat (length l) - 1) as Hlen.
    { apply list_elem_of_split in Hin as (a & b & ->). apply NoDup_app in Hnd as (_ & Hab & Hb). apply NoDup_cons in Hb as [Hb _].
      rewrite filter_app, filter_cons, decide_False by (intros ?; done).
      rewrite !filter_every; [rewrite !length_app; cbn; lia|..]; apply Forall_forall; intros x Hx ->; [done|by apply (Hab id); set_solver]. }
    split_and!.
    + intros sym. destruct (decide (sym = symbol)) as [->|]; [|by rewrite lookup_insert_ne, lookup_alter_ne].
      rewrite lookup_insert_eq, Hal. cbn. by rewrite Hlen.
    + intros sym l'. destruct (decide (sym = symbol)) as [->|Hns].
      * rewrite Hal. intros [= <-]. split_and!; [|by apply NoDup_filter|].
        { intros Hnil. rewrite Hnil in Hlen. cbn in Hlen. lia. }
        intros i. rewrite list_elem_of_filter, Hm, lookup_delete_Some. naive_solver.
      * rewrite lookup_alter_ne by done. intros Hl'. destruct (Hf _ _ Hl') as (? & ? & Hm'). split_and!; [done..|].
        intros i. rewrite Hm', lookup_delete_Some. split; [|by intros [_ ?]]. intros Hi. split; [|done]. intros <-. congruence.
    + intros i sym Hi. apply Hdel in Hi as [Hi Hni]. destruct (Ho _ _ Hi) as (Hs & ? & ? & ?). rewrite Hsym, lookup_alter_is_Some. by split_and!.
    + intros [Hcl _]%andb_true_iff st. setoid_rewrite lookup_alter_is_Some. by apply Hst.
Qed.

(** Connecting asks for the whole set of the client. *)
Lemma connect_inv w r w' : ws_connect sorted w = (r, w') →
  ws_streams w' = ws_streams w ∧ ∃ l, ws_sent w' = ws_sent w ++ l ∧ (is_ok r = true → asked_for l = ws_streams w).
Proof.
  unfold ws_connect, modify, mbind, st_bind, get_st. cbn. case_bool_decide as He.
  - intros [= <- <-]. split; [done|]. exists []. cbn. by rewrite app_nil_r, He.
  - unfold send_subscription. cbn. destruct (ws_faults w) as [|[] ?]; intros [= <- <-]; cbn; (split; [done|]);
      [eexists; split; [done|] .. | exists []; by rewrite app_nil_r | eexists; split; [done|]];
      intros _; unfold asked_for; cbn; unfold apply_frame; cbn; apply set_eq; intros x; rewrite elem_of_union, elem_of_list_to_set, Hsorted; set_solver.
Qed.

Lemma owned_step w w' : owned w → sub_step w w' → owned w'.
Proof.
  intros Hi Hs. destruct Hs as [w symbol sub r s' Hsub E|w id symbol r s' Hid Hl E|w frame r s' E|w id f x f' Hf Hn|w ws Hws|w r ws Hws].
  - unfold subscribe in Hsub. destruct (valid_symbol symbol) eqn:Hv; [|done]. injection Hsub as <-.
    unfold subscription_enter in E. cbn in E. apply st_bind_cases in E as [(id & s1 & Ea & E)|(e & Ea & ->)].
    + injection E as <- <-. by apply (owned_enter w symbol s1 (Ok id) _ _ Hi Hv).
    + by apply (owned_enter w symbol s' (Err e) _ _ Hi Hv).
  - unfold subscription_exit in E. cbn in E. apply st_bind_cases in E as [([] & s1 & Ea & E)|(e & Ea & ->)].
    + injection E as <- <-. by apply (owned_exit w id symbol s1 (Ok tt)).
    + by apply (owned_exit w id symbol s' (Err e)).
  - destruct Hi as (Hc & Hf & Ho & Hst). apply dispatch_frame in E as (E1 & E2 & E3 & E4 & E5); [|intros sym l Hl; by apply Hf in Hl as (_ & ? & _)].
    unfold owned. cbn. rewrite E1, E2, E3, E4. split_and!; [done..| |done]. intros i sym Hi. rewrite E5. by apply Ho.
  - destruct Hi as (Hc & Hfd & Ho & Hst). unfold owned. cbn. split_and!; [done..| |done]. intros i sym Hi.
    destruct (Ho _ _ Hi) as (? & ? & ? & Hsy). split_and!; [done..|]. destruct (decide (i = id)) as [->|]; [|by rewrite lookup_insert_ne].
    rewrite lookup_insert_eq. rewrite Hf in Hsy. unfold feed_next in Hn. destruct (sf_queue f) as [|[] q]; simplify_eq/=; done.
  - destruct Hi as (Hc & Hfd & Ho & Hst). unfold owned. cbn.
    assert (ws_streams ws = ws_streams (sm_ws (sw_mgr w))) as -> by (destruct Hws; unfold ws_turn, ws_disconnect, ws_close; by repeat case_bool_decide). done.
  - destruct Hi as (Hc & Hfd & Ho & Hst). unfold owned. cbn. by rewrite (proj1 (connect_inv _ _ _ Hws)).
Qed.

(** The exchange's side through the steps. *)
Definition step_ok (w : sworld) : Prop := in_step (sw_since w) (sw_asked w) (sm_ws (sw_mgr w)).
Lemma acquire_in_step symbol since asked s r s' :
  in_step since asked (sm_ws s) → acquire_feed kinds symbol s = (r, s') → in_step since (asked && is_ok r) (sm_ws s').
Proof.
  intros Hi E. unfold acquire_feed in E. rewrite (st_bind_run get_st _ s s s eq_refl) in E.
  unfold modify in E. rewrite (st_bind_run (fun _ => _) _ _ _ _ eq_refl) in E. destruct (_ =? 0).
  - apply st_bind_cases in E as [([] & s1 & Ew & E)|(e & Ew & ->)]; apply on_ws_inv in Ew as (w & Hw & ->);
      apply (kinds_in_step add_stream since symbol kinds (add_in_step since) asked) in Hw; [by injection E as <- <-|done..].
  - rewrite (st_bind_run (mret tt) _ _ tt _ eq_refl) in E. injection E as <- <-. by apply in_step_weaken.
Qed.
Lemma release_in_step symbol id since asked s r s' :
  in_step since asked (sm_ws s) → release_feed kinds maxsize symbol id s = (r, s') → in_step since (asked && is_ok r) (sm_ws s').
Proof.
  intros Hi E. unfold release_feed in E. rewrite (st_bind_run get_st _ s s s eq_refl) in E. cbn zeta in E.
  destruct (_ =? 0); [injection E as <- <-; by apply in_step_weaken|].
  unfold modify in E. rewrite (st_bind_run (fun _ => _) _ _ _ _ eq_refl) in E. destruct (1 <? _).
  - injection E as <- <-. by apply in_step_weaken.
  - rewrite (st_bind_run (fun _ => _) _ _ _ _ eq_refl) in E. apply on_ws_inv in E as (w & Hw & ->).
    by apply (kinds_in_step remove_stream since symbol kinds (remove_in_step since) asked) in Hw.
Qed.
Lemma step_in_step w w' : owned w → step_ok w → sub_step w w' → step_ok w'.
Proof.
  intros Hown Hi Hs. unfold step_ok in *.
  destruct Hs as [w symbol sub r s' Hsub E|w id symbol r s' Hid Hl E|w frame r s' E|w id f x f' Hf Hn|w ws Hws|w r ws Hws]; cbn.
  - unfold subscribe in Hsub. destruct (valid_symbol symbol); [|done]. injection Hsub as <-. unfold subscription_enter in E. cbn in E.
    apply st_bind_cases in E as [(id & s1 & Ea & E)|(e & Ea & ->)]; apply (acquire_in_step _ _ _ _ _ _ Hi) in Ea; [by injection E as <- <-|done].
  - unfold subscription_exit in E. cbn in E. apply st_bind_cases in E as [([] & s1 & Ea & E)|(e & Ea & ->)];
      apply (release_in_step _ _ _ _ _ _ _ Hi) in Ea; [by injection E as <- <-|done].
  - apply dispatch_frame in E as (_ & _ & _ & -> & _); [done|]. destruct Hown as (_ & Hfd & _). intros sym l Hl. by apply Hfd in Hl as (_ & ? & _).
  - done.
  - destruct Hi as [Hl Hi]. destruct Hws; unfold ws_turn, ws_disconnect, ws_close; try case_bool_decide; (split; [done|]); cbn; try done; by destruct first.
  - apply connect_inv in Hws as (Hst & l & Hl & Hok). unfold in_step. rewrite Hl, length_app. split; [lia|]. intros Hr _ _.
    rewrite drop_app_length, Hst. by apply Hok.
Qed.

Definition fresh_manager (ws : BinanceWsClient) : sworld := mkSworld (mkManager ∅ ∅ ∅ 0 ws []) ∅ ∅ true (length (ws_sent ws)) true.
Lemma reachable_owned ws w : ws_streams ws = ∅ → rtc sub_step (fresh_manager ws) w → owned w ∧ step_ok w.
Proof.
  intros Hws Hr. assert (owned (fresh_manager ws)) as H0.
  { unfold owned, fresh_manager. cbn. split_and!; [done|intros ? ?; by rewrite lookup_empty..|]. intros _ st. rewrite Hws.
    split; [set_solver|]. intros (sym & Hs & _). rewrite lookup_empty in Hs. by destruct Hs. }
  assert (step_ok (fresh_manager ws)) as H1.
  { split; [done|]. cbn. intros _ _ _. by rewrite drop_ge, Hws by lia. }
  revert H0 H1. induction Hr as [|w1 w2 w3 H1 _ IH]; [done|]. intros Ho Hi. apply IH; [by eapply owned_step|by eapply step_in_step].
Qed.

(** C17: the manager refines the set of open subscriptions: in every state it
    reaches, the feeds of a symbol are its open subscriptions, counted exactly.
    While the client is connected and no frame of the connection failed, the
    frames sent on it have asked the exchange for exactly the client's streams,
    whatever was subscribed before, since or in earlier connections; as long as
    no operation of the manager has raised, those are exactly the streams of
    the symbols somebody holds.  A frame is delivered to every open
    subscription of its symbol and to no other feed, and leaving one
    subscription touches no other feed. *)
Theorem feeds_follow_subscriptions ws w :
  ws_streams ws = ∅ → rtc sub_step (fresh_manager ws) w →
  (∀ sym, let l := default [] (sm_feeds (sw_mgr w) !! sym) in
     NoDup l ∧ (∀ i, i ∈ l ↔ sw_owner w !! i = Some sym) ∧
     sm_counts (sw_mgr w) !! sym = if decide (l = []) then None else Some (Z.of_nat (length l))) ∧
  (sw_asked w = true → ws_state (sm_ws (sw_mgr w)) = ws_connected → ws_open (sm_ws (sw_mgr w)) = true →
     at_exchange w = ws_streams (sm_ws (sw_mgr w))) ∧
  (sw_clean w = true → ∀ st, st ∈ ws_streams (sm_ws (sw_mgr w)) ↔
     ∃ i sym k, sw_owner w !! i = Some sym ∧ k ∈ kinds ∧ st = stream_name sym k) ∧
  (∀ sym k frame i, valid_symbol sym = true → dict_get "stream" frame = Some (JStr (stream_name sym k)) →
     sm_store (dispatch maxsize frame (sw_mgr w)).2 !! i =
       if decide (sw_owner w !! i = Some sym) then feed_put maxsize (item_frame frame) <$> sm_store (sw_mgr w) !! i
       else sm_store (sw_mgr w) !! i) ∧
  (∀ i j sym, sw_owner w !! i = Some sym → j ≠ i →
     sm_store (release_feed kinds maxsize sym i (sw_mgr w)).2 !! j = sm_store (sw_mgr w) !! j).
Proof.
  intros Hws Hr. destruct (reachable_owned ws w Hws Hr) as [(Hc & Hf & Ho & Hst) [_ Hx]].
  assert (∀ sym, let l := default [] (sm_feeds (sw_mgr w) !! sym) in NoDup l ∧ (∀ i, i ∈ l ↔ sw_owner w !! i = Some sym)) as Hl.
  { intros sym. cbn. destruct (sm_feeds (sw_mgr w) !! sym) as [l|] eqn:Hl; [by destruct (Hf _ _ Hl) as (_ & ? & ?)|]. cbn.
    split; [constructor|]. intros i. split; [set_solver|]. intros Hi. destruct (Ho _ _ Hi) as ([? ?] & _). congruence. }
  split_and!.
  - intros sym. cbn. split_and!; [by apply Hl..|]. rewrite Hc. destruct (sm_feeds (sw_mgr w) !! sym) as [l|] eqn:E; [|done].
    destruct (Hf _ _ E) as (Hne & _). by rewrite decide_False.
  - exact Hx.
  - intros Hcl st. rewrite (Hst Hcl). split.
    + intros (sym & [l E] & Hn). apply elem_of_list_to_set, list_elem_of_fmap in Hn as (k & -> & Hk).
      destruct (Hf _ _ E) as (Hne & _ & Hm). destruct l as [|i l]; [done|]. exists i, sym, k. split_and!; [|done..]. apply Hm. set_solver.
    + intros (i & sym & k & Hi & Hk & ->). exists sym. split; [by apply (Ho _ _ Hi)|]. apply elem_of_list_to_set, list_elem_of_fmap. eauto.
  - intros sym k frame i Hv Hs. unfold dispatch. rewrite Hs. pose proof (routed sym k Hv) as Hrt.
    destruct (before_at (stream_name sym k)) as [low|]; [|done]. cbn in Hrt. injection Hrt as ->. destruct (Hl sym) as [Hn Hm].
    destruct (dispatch_fold sym frame _ (sw_mgr w) Hn) as (_ & _ & _ & _ & Hd). cbn [modify snd]. unfold modify. cbn [snd]. rewrite Hd.
    by destruct (decide (i ∈ _)) as [Hi|Hi], (decide (sw_owner w !! i = Some sym)) as [Hj|Hj]; try done; [apply Hm in Hi|apply Hm in Hj].
  - intros i j sym Hi Hne. destruct (Ho _ _ Hi) as ([l E] & _). destruct (Hf _ _ E) as (Hnil & _).
    destruct (release_feed kinds maxsize sym i (sw_mgr w)) as [r s'] eqn:Er.
    apply (release_spec sym i _ _ _ (Z.of_nat (length l))) in Er as (Es & _); [cbn [snd]; by rewrite Es, lookup_alter_ne|by rewrite Hc, E|destruct l; [done|cbn; lia]].
Qed.

(** A subscription whose start raised keeps its reference for ever: nobody
    holds the feed that would release it. *)
Lemma leaked_feed_stays w w' i sym : rtc sub_step w w' →
  i ∈ sw_leaked w → sw_owner w !! i = Some sym → owned w → i ∈ sw_leaked w' ∧ sw_owner w' !! i = Some sym.
Proof.
  induction 1 as [|w1 w2 w3 Hs _ IH]; [done|]. intros Hl Ho Hi. assert (owned w2) as Hi2 by (by eapply owned_step).
  enough (i ∈ sw_leaked w2 ∧ sw_owner w2 !! i = Some sym) as [? ?] by auto.
  destruct Hs as [w symbol sub r s' Hsub E|w id symbol r s' Hid Hnl E|w frame r s' E|w id f x f' Hf Hn|w ws Hws|w r ws Hws]; cbn; try done.
  - split; [destruct (is_ok r); set_solver|]. rewrite lookup_insert_ne; [done|]. destruct Hi as (_ & _ & Hown & _).
    destruct (Hown _ _ Ho) as (_ & ? & _). lia.
  - split; [done|]. rewrite lookup_delete_ne; [done|]. by intros <-.
Qed.
End subscription_facts.

(** ** Concrete runs *)
Section witnesses.
#[local] Existing Instance pg_half_away.

Definition accepting_bus : bus_ops unit candle unit :=
  mkBus (fun _ _ b => (Ok tt, b)) (fun _ _ b => (Ok tt, b)) (fun b => (Ok tt, b)) (fun _ _ b => (Ok None, b))
    (fun _ _ _ b => (Ok 1, b)) (fun _ _ _ _ b => (Ok 1, b)).
Definition demo_frame (closed : bool) (ms : Z) (close : string) : dict :=
  [("stream", JStr "btcusdt@kline_1m");
   ("data", JObj [("e", JStr "kline");
      ("k", JObj [("t", JInt ms); ("x", JBool closed); ("o", JStr "100.5"); ("h", JStr "101"); ("l", JStr "99.25");
                  ("c", JStr close); ("v", JStr "3")])])].
Definition demo_frames : list dict :=
  [demo_frame false 60000 "100"; [("result", JNull)]; demo_frame true 60000 "100.75"; demo_frame true 120000 "oops"].
Definition demo_consume :=
  consume_frames (logging_bus accepting_bus) (fun _ b => b) (fun _ => 0) (fun _ => "") (fun _ => 0) "BTCUSDT" demo_frames
    (mkMworld ∅ [] (tt, [])).

Lemma closed_candles_are_stored_first_witness :
  run_view (fun _ b => b) "BTCUSDT" demo_frames (mkMworld ∅ [] (tt, [])) demo_consume.2 ∧
  length (log_of demo_consume.2) = 2%nat ∧ size (mw_ohlc demo_consume.2) = 1%nat.
Proof.
  split; [|vm_compute; done].
  apply (closed_candles_are_stored_first accepting_bus (fun _ b => b) (fun _ => 0) (fun _ => "") (fun _ => 0) "BTCUSDT" demo_frames _ (Ok tt)).
  reflexivity.
Defined.

Definition demo_minute (k : Z) : candle := mkCandle "BTCUSDT" (k * MINUTE) (100 @ 0) (101 @ 0) (99 @ 0) (100 @ 0) (1 @ 0) true.
Definition demo_hist : list candle := map demo_minute [1; 2; 3; 5; 6].
Definition demo_klines (sym : string) (a b : Z) (n : nat) : res (list candle) := Ok (take n (filter (between a b) demo_hist)).

Lemma backfill_fills_the_gap_witness : ∃ done t',
  backfill_symbol demo_klines 1 60 (8 * MINUTE + 5) "BTCUSDT" (mkMworld ∅ [] tt) =
    (Ok (Some (Z.of_nat (length done))), mkMworld t' [] tt) ∧ demo_minute 5 ∈ done ∧ demo_minute 6 ∈ done.
Proof.
  destruct (backfill_fills_the_gap demo_klines 1 "BTCUSDT" demo_hist (8 * MINUTE + 5) 60 ∅ tt) as (done & t' & Hrun & _ & Hall & _).
  - done.
  - unfold spaced, demo_hist. repeat constructor; vm_compute; congruence.
  - repeat constructor.
  - vm_compute. congruence.
  - exists done, t'. split; [exact Hrun|]. split; apply Hall.
    1: exact (list_elem_of_lookup_2 demo_hist 3 (demo_minute 5) eq_refl).
    2: exact (list_elem_of_lookup_2 demo_hist 4 (demo_minute 6) eq_refl).
    all: vm_compute; split; congruence.
Defined.

(** Two subscriptions before the client connects, one of another symbol after,
    and the first two left again. *)
Definition demo_ws : BinanceWsClient := mkWs ws_connecting false ∅ 1 [] [].
Definition demo_kinds : list string := ["kline_1m"; "bookTicker"].
Definition demo_enter (w : sworld) (symbol : string) : sworld :=
  let '(r, s) := subscription_enter demo_kinds (mkSubscription symbol None) (sw_mgr w) in
  mkSworld s (<[sm_next (sw_mgr w) := symbol]> (sw_owner w))
    (if is_ok r then sw_leaked w else {[sm_next (sw_mgr w)]} ∪ sw_leaked w) (sw_clean w && is_ok r) (sw_since w) (sw_asked w && is_ok r).
Definition demo_exit (w : sworld) (symbol : string) (id : Z) : sworld :=
  let '(r, s) := subscription_exit demo_kinds 2 (mkSubscription symbol (Some id)) (sw_mgr w) in
  mkSworld s (delete id (sw_owner w)) (sw_leaked w) (sw_clean w && is_ok r) (sw_since w) (sw_asked w && is_ok r).
Definition demo_open (w : sworld) : sworld :=
  let '(r, ws) := ws_connect elements (sm_ws (sw_mgr w)) in
  mkSworld (set_ws ws (sw_mgr w)) (sw_owner w) (sw_leaked w) (sw_clean w) (length (ws_sent (sm_ws (sw_mgr w)))) (is_ok r).
Definition demo_two : sworld := demo_enter (demo_enter (fresh_manager demo_ws) "BTCUSDT") "BTCUSDT".
Definition demo_live : sworld := demo_enter (demo_open demo_two) "ETHUSDT".
Definition demo_left : sworld := demo_exit (demo_exit demo_live "BTCUSDT" 0) "BTCUSDT" 1.

Lemma demo_enter_step w symbol : valid_symbol symbol = true → sub_step demo_kinds 2 elements w (demo_enter w symbol).
Proof.
  intros Hv. unfold demo_enter. destruct (subscription_enter _ _ _) as [r s] eqn:E.
  apply (st_enter _ _ _ w symbol (mkSubscription symbol None)); [|done]. unfold subscribe. by rewrite Hv.
Qed.
Lemma demo_exit_step w symbol id : sw_owner w !! id = Some symbol → id ∉ sw_leaked w → sub_step demo_kinds 2 elements w (demo_exit w symbol id).
Proof. intros Ho Hl. unfold demo_exit. destruct (subscription_exit _ _ _ _) as [r s] eqn:E. by apply (st_exit _ _ _ w id symbol). Qed.
Lemma demo_open_step w : sub_step demo_kinds 2 elements w (demo_open w).
Proof. unfold demo_open. destruct (ws_connect _ _) as [r ws] eqn:E. by apply st_connect. Qed.

Lemma feeds_follow_subscriptions_witness :
  sm_counts (sw_mgr demo_left) !! "ETHUSDT" = Some 1 ∧ sm_counts (sw_mgr demo_left) !! "BTCUSDT" = None ∧
  at_exchange demo_left = {["ethusdt@kline_1m"; "ethusdt@bookTicker"]} ∧ length (ws_sent (sm_ws (sw_mgr demo_left))) = 5%nat.
Proof.
  assert (rtc (sub_step demo_kinds 2 elements) (fresh_manager demo_ws) demo_left) as Hr.
  { eapply rtc_l; [by apply (demo_enter_step _ "BTCUSDT")|]. eapply rtc_l; [by apply (demo_enter_step _ "BTCUSDT")|].
    eapply rtc_l; [apply demo_open_step|]. eapply rtc_l; [by apply (demo_enter_step _ "ETHUSDT")|].
    eapply rtc_l; [apply (demo_exit_step demo_live "BTCUSDT" 0); [vm_compute; reflexivity|]|].
    { assert (sw_leaked demo_live = ∅) as -> by (vm_compute; reflexivity). apply not_elem_of_empty. }
    eapply rtc_l; [apply (demo_exit_step _ "BTCUSDT" 1); [vm_compute; reflexivity|]|apply rtc_refl].
    assert (sw_leaked (demo_exit demo_live "BTCUSDT" 0) = ∅) as -> by (vm_compute; reflexivity). apply not_elem_of_empty. }
  destruct (feeds_follow_subscriptions demo_kinds 2 elements ltac:(intros; apply elem_of_elements) demo_ws demo_left eq_refl Hr)
    as (Hc & Hx & _).
  split; [destruct (Hc "ETHUSDT") as (_ & _ & ->); by vm_compute|]. split; [destruct (Hc "BTCUSDT") as (_ & _ & ->); by vm_compute|].
  split; [rewrite Hx by (vm_compute; reflexivity); vm_compute; reflexivity|vm_compute; reflexivity].
Defined.
End witnesses.
