(* ===== verification/Shadow.v ===== *)
(** * Shadow runs: the tables, and the observation of rejected signals

    Models packages/db/queries/shadow.py (tables of migrations 0014 and 0015)
    and services/execution/app/{shadow_rejected_worker,shadow_rejected_replay}.py;
    the variants of open trades are in Variants.  An asyncio task is a value that
    says where it waits; the steps are the points at which the event loop runs
    it.  Every statement draws the next of [rw_faults].  Whether a replay
    exceeds its compute time is an argument of the replay.  [codec] says whether
    the pool's connections decode JSONB columns; the execution service registers
    no codec.  Floats of the columns are the parameter [F].  The replay-window
    test, a float division in the code, compares exact durations here.  Times
    are microseconds. *)

From S2P Require Import Prelude Json Dec DecText Float64 PyNum Sizing Scoring PaperDb PaperExchange RiskGates Consumer ExecDb Exchange Lifecycle Market.
From stdpp Require Import sorting.
Open Scope Z_scope.

(** ** packages/core/types.py, packages/db/queries/shadow.py *)
Inductive ShadowVariantTerminal := SL_HIT | BE_HIT | TP_TRAIL | TP_FULL | TIMEOUT | VARIANT_SHUTDOWN_MID_REPLAY.
Inductive ShadowRejectedTerminal := WOULD_TP | WOULD_SL | WOULD_BE | NO_TRIGGER | SHUTDOWN_MID_REPLAY.
#[global] Instance ShadowVariantTerminal_eq_dec : EqDecision ShadowVariantTerminal.
Proof. solve_decision. Defined.
#[global] Instance ShadowRejectedTerminal_eq_dec : EqDecision ShadowRejectedTerminal.
Proof. solve_decision. Defined.

Section shadow.
Context `{PgNumeric} {F : Type} (to_float : dec → F) (f0 : F) (codec : bool).

Record ShadowVariantRow := mkVariantRow {
  vr_parent_trade_id : Z; vr_bot_id : string; vr_variant_name : string; vr_side : side; vr_entry_price : dec; vr_qty : dec;
  vr_created_at : Z; vr_terminated_at : option Z; vr_terminal_outcome : option ShadowVariantTerminal;
  vr_realized_pnl : option dec; vr_mfe_pct : option F; vr_mae_pct : option F; vr_meta : dict; vr_parent_kind : parent_kind;
}.
Record ShadowRejectedRow := mkRejectedRow {
  rr_signal_id : Z; rr_bot_id : string; rr_symbol : string; rr_would_side : side; rr_created_at : Z;
  rr_terminated_at : option Z; rr_terminal_outcome : option ShadowRejectedTerminal;
  rr_mfe_pct : option F; rr_mae_pct : option F; rr_meta : dict;
}.
Record shadow_db := mkShadowDb {
  sh_variant_rows : gmap Z ShadowVariantRow; sh_rejected_rows : gmap Z ShadowRejectedRow; sh_variant_seq : Z; sh_rejected_seq : Z;
}.

(** What a JSONB column reads as: [isinstance(meta_value, dict)] holds only on a
    connection with a codec, otherwise asyncpg returns text. *)
Definition read_meta (meta : dict) : dict := if codec then meta else [].
Definition row_to_shadow_variant (r : ShadowVariantRow) : ShadowVariantRow :=
  mkVariantRow (vr_parent_trade_id r) (vr_bot_id r) (vr_variant_name r) (vr_side r) (vr_entry_price r) (vr_qty r)
    (vr_created_at r) (vr_terminated_at r) (vr_terminal_outcome r) (vr_realized_pnl r) (vr_mfe_pct r) (vr_mae_pct r)
    (read_meta (vr_meta r)) (vr_parent_kind r).
Definition row_to_shadow_rejected (r : ShadowRejectedRow) : ShadowRejectedRow :=
  mkRejectedRow (rr_signal_id r) (rr_bot_id r) (rr_symbol r) (rr_would_side r) (rr_created_at r) (rr_terminated_at r)
    (rr_terminal_outcome r) (rr_mfe_pct r) (rr_mae_pct r) (read_meta (rr_meta r)).

Definition insert_shadow_variant (parent_trade_id : Z) (bot_id name : string) (sd : side) (entry_price qty : dec)
    (created_at : Z) (kind : parent_kind) (meta : dict) : ST shadow_db (Z * ShadowVariantRow) := fun d =>
  match (e ← col 30 12 entry_price; q ← col 30 12 qty; Ok (e, q)) with
  | Err ex => (Err ex, d)
  | Ok (e, q) =>
      let r := mkVariantRow parent_trade_id bot_id name sd e q created_at None None None None None meta kind in
      (Ok (sh_variant_seq d, row_to_shadow_variant r),
       mkShadowDb (<[sh_variant_seq d := r]> (sh_variant_rows d)) (sh_rejected_rows d) (sh_variant_seq d + 1) (sh_rejected_seq d))
  end.
Definition insert_shadow_rejected (signal_id : Z) (bot_id symbol : string) (would_side : side) (created_at : Z) (meta : dict)
  : ST shadow_db (Z * ShadowRejectedRow) := fun d =>
  let r := mkRejectedRow signal_id bot_id symbol would_side created_at None None None None meta in
  (Ok (sh_rejected_seq d, row_to_shadow_rejected r),
   mkShadowDb (sh_variant_rows d) (<[sh_rejected_seq d := r]> (sh_rejected_rows d)) (sh_variant_seq d) (sh_rejected_seq d + 1)).

(** [UPDATE ... WHERE id = $1 RETURNING]: [None] when there is no such row. *)
Definition update_shadow_variant_terminal (id terminated_at : Z) (outcome : ShadowVariantTerminal) (pnl : option dec)
    (mfe mae : option F) : ST shadow_db (option ShadowVariantRow) := fun d =>
  match sh_variant_rows d !! id with
  | None => (Ok None, d)
  | Some r =>
      match col_opt 20 4 pnl with
      | Err e => (Err e, d)
      | Ok p =>
          let r' := mkVariantRow (vr_parent_trade_id r) (vr_bot_id r) (vr_variant_name r) (vr_side r) (vr_entry_price r) (vr_qty r)
            (vr_created_at r) (Some terminated_at) (Some outcome) p mfe mae (vr_meta r) (vr_parent_kind r) in
          (Ok (Some (row_to_shadow_variant r')),
           mkShadowDb (<[id := r']> (sh_variant_rows d)) (sh_rejected_rows d) (sh_variant_seq d) (sh_rejected_seq d))
      end
  end.
Definition terminated (r : ShadowRejectedRow) (at_ : Z) (outcome : ShadowRejectedTerminal) (mfe mae : option F) : ShadowRejectedRow :=
  mkRejectedRow (rr_signal_id r) (rr_bot_id r) (rr_symbol r) (rr_would_side r) (rr_created_at r) (Some at_) (Some outcome)
    mfe mae (rr_meta r).
Definition update_shadow_rejected_terminal (id terminated_at : Z) (outcome : ShadowRejectedTerminal) (mfe mae : option F)
  : ST shadow_db (option ShadowRejectedRow) := fun d =>
  match sh_rejected_rows d !! id with
  | None => (Ok None, d)
  | Some r =>
      let r' := terminated r terminated_at outcome mfe mae in
      (Ok (Some (row_to_shadow_rejected r')),
       mkShadowDb (sh_variant_rows d) (<[id := r']> (sh_rejected_rows d)) (sh_variant_seq d) (sh_rejected_seq d))
  end.

(** The SELECTs.  [ORDER BY created_at]; equal times come in the order of the
    map. *)
Definition created_le (a b : Z * ShadowRejectedRow) : Prop := rr_created_at a.2 <= rr_created_at b.2.
#[global] Instance created_le_dec a b : Decision (created_le a b).
Proof. unfold created_le. apply _. Defined.
Definition variant_created_le (a b : Z * ShadowVariantRow) : Prop := vr_created_at a.2 <= vr_created_at b.2.
#[global] Instance variant_created_le_dec a b : Decision (variant_created_le a b).
Proof. unfold variant_created_le. apply _. Defined.

Definition rejected_active (kv : Z * ShadowRejectedRow) : Prop := rr_terminated_at kv.2 = None.
Definition variant_active (kv : Z * ShadowVariantRow) : Prop := vr_terminated_at kv.2 = None.
Definition select_all_active_shadow_rejected (d : shadow_db) : list (Z * ShadowRejectedRow) :=
  (fun kv => (kv.1, row_to_shadow_rejected kv.2)) <$> merge_sort created_le (filter rejected_active (map_to_list (sh_rejected_rows d))).
Definition select_all_active_shadow_variants (d : shadow_db) : list (Z * ShadowVariantRow) :=
  (fun kv => (kv.1, row_to_shadow_variant kv.2)) <$>
    merge_sort variant_created_le (filter variant_active (map_to_list (sh_variant_rows d))).
Definition select_active_shadow_rejected (bot_id : string) (d : shadow_db) : list (Z * ShadowRejectedRow) :=
  filter (fun kv => rr_bot_id kv.2 = bot_id) (select_all_active_shadow_rejected d).
Definition select_active_shadow_variants (bot_id : string) (d : shadow_db) : list (Z * ShadowVariantRow) :=
  filter (fun kv => vr_bot_id kv.2 = bot_id) (select_all_active_shadow_variants d).
Definition select_shadow_variant_by_id (id : Z) (d : shadow_db) : option ShadowVariantRow := row_to_shadow_variant <$> sh_variant_rows d !! id.
Definition select_shadow_rejected_by_id (id : Z) (d : shadow_db) : option ShadowRejectedRow := row_to_shadow_rejected <$> sh_rejected_rows d !! id.

(** [_build_shadow_rejected_where_clause]: the conjunction of the filters given. *)
Record rejected_filter := mkRejectedFilter {
  rf_bot_id : option string; rf_symbol : option string; rf_active : option bool;
  rf_terminal_outcome : option ShadowRejectedTerminal; rf_from_at : option Z; rf_to_at : option Z;
}.
Definition given {A} (o : option A) (p : A → bool) : bool := match o with Some a => p a | None => true end.
Definition rejected_where (q : rejected_filter) (r : ShadowRejectedRow) : bool :=
  given (rf_bot_id q) (fun b => bool_decide (rr_bot_id r = b)) &&
  given (rf_symbol q) (fun s => bool_decide (rr_symbol r = s)) &&
  given (rf_active q) (fun a => Bool.eqb a (bool_decide (rr_terminated_at r = None))) &&
  given (rf_terminal_outcome q) (fun t => bool_decide (rr_terminal_outcome r = Some t)) &&
  given (rf_from_at q) (fun t => t <=? rr_created_at r) &&
  given (rf_to_at q) (fun t => rr_created_at r <? t).
(** [ORDER BY created_at DESC, id DESC]. *)
Definition newer (a b : Z * ShadowRejectedRow) : Prop :=
  rr_created_at b.2 < rr_created_at a.2 ∨ rr_created_at a.2 = rr_created_at b.2 ∧ b.1 <= a.1.
#[global] Instance newer_dec a b : Decision (newer a b).
Proof. unfold newer. apply _. Defined.
Definition rejected_matching (q : rejected_filter) (d : shadow_db) : list (Z * ShadowRejectedRow) :=
  filter (fun kv => rejected_where q kv.2 = true) (map_to_list (sh_rejected_rows d)).
Definition select_shadow_rejected_paginated (q : rejected_filter) (limit offset : nat) (d : shadow_db) : list (Z * ShadowRejectedRow) :=
  (fun kv => (kv.1, row_to_shadow_rejected kv.2)) <$> take limit (drop offset (merge_sort newer (rejected_matching q d))).
Definition count_shadow_rejected (q : rejected_filter) (d : shadow_db) : Z := Z.of_nat (length (rejected_matching q d)).

(** ** services/execution/app/shadow_rejected_worker.py *)
Definition compute_thresholds (sd : side) (entry sl_pct tp_pct be_trigger : dec) : dec * dec * dec :=
  match sd with
  | buy => (dmul entry (dadd (1 @ 0) tp_pct), dmul entry (dsub (1 @ 0) sl_pct), dmul entry (dadd (1 @ 0) be_trigger))
  | sell => (dmul entry (dsub (1 @ 0) tp_pct), dmul entry (dadd (1 @ 0) sl_pct), dmul entry (dsub (1 @ 0) be_trigger))
  end.
Definition compute_mfe_mae (sd : side) (entry best worst : dec) : res (F * F) :=
  match sd with
  | buy => mfe ← ddiv (dsub best entry) entry; mae ← ddiv (dsub entry worst) entry; Ok (to_float mfe, to_float mae)
  | sell => mfe ← ddiv (dsub entry best) entry; mae ← ddiv (dsub worst entry) entry; Ok (to_float mfe, to_float mae)
  end.
Definition compute_mfe_mae_pcts (sd : side) (entry best worst : dec) : res (F * F) :=
  if deqb entry dzero then Ok (f0, f0) else compute_mfe_mae sd entry best worst.

(** [obs_state] and [terminal_future]: [ob_done] is [terminal_future.done()]. *)
Record obs_state := mkObs {
  ob_best : dec; ob_worst : dec; ob_be_triggered : bool; ob_outcome : option ShadowRejectedTerminal; ob_done : bool;
}.
Record observation := mkObservation {
  on_symbol : string; on_side : side; on_entry : dec; on_tp : dec; on_sl : dec; on_be : dec; on_deadline : Z; on_state : obs_state;
}.
Definition fresh_obs (entry : dec) : obs_state := mkObs entry entry false None false.
Definition track (sd : side) (c : candle) (best worst : dec) : dec * dec :=
  match sd with
  | buy => (if dltb best (c_high c) then c_high c else best, if dltb (c_low c) worst then c_low c else worst)
  | sell => (if dltb (c_low c) best then c_low c else best, if dltb worst (c_high c) then c_high c else worst)
  end.
Definition crosses_sl (sd : side) (sl : dec) (c : candle) : bool :=
  match sd with buy => dleb (c_low c) sl | sell => dleb sl (c_high c) end.
(** The favourable extreme reaches a level ([tp_threshold], [be_threshold]). *)
Definition reaches (sd : side) (level : dec) (c : candle) : bool :=
  match sd with buy => dleb level (c_high c) | sell => dleb (c_low c) level end.
Definition observe_candle (sd : side) (tp sl bt : dec) (c : candle) (o : obs_state) : obs_state :=
  if negb (c_is_closed c) || ob_done o then o
  else
    let '(best, worst) := track sd c (ob_best o) (ob_worst o) in
    if crosses_sl sd sl c then mkObs best worst (ob_be_triggered o) (Some WOULD_SL) true
    else if reaches sd tp c then mkObs best worst (ob_be_triggered o) (Some WOULD_TP) true
    else mkObs best worst (ob_be_triggered o || reaches sd bt c) (ob_outcome o) false.
Definition observe (n : observation) (c : candle) : observation :=
  mkObservation (on_symbol n) (on_side n) (on_entry n) (on_tp n) (on_sl n) (on_be n) (on_deadline n)
    (observe_candle (on_side n) (on_tp n) (on_sl n) (on_be n) c (on_state n)).
Definition start_observation (symbol : string) (sd : side) (entry sl_pct tp_pct be_trigger : dec) (deadline : Z) : observation :=
  let '(tp, sl, bt) := compute_thresholds sd entry sl_pct tp_pct be_trigger in
  mkObservation symbol sd entry tp sl bt deadline (fresh_obs entry).

(** A task of [_active_tasks]: not yet run, or waiting for a candle or its
    timeout. *)
Inductive obs_task := spawned (p : ShadowRejectedStart) | observing (n : observation).
Record rworld := mkRworld {
  rw_db : shadow_db; rw_tasks : gmap Z obs_task; rw_clock : Z; rw_ohlc : ohlc_table; rw_faults : list bool;
}.
Abbreviation RW := (ST rworld).
Definition on_shadow {A} (m : ST shadow_db A) : RW A := fun w =>
  match rw_faults w with
  | true :: f => (Err (RuntimeError "connection"), mkRworld (rw_db w) (rw_tasks w) (rw_clock w) (rw_ohlc w) f)
  | f => let '(r, d) := m (rw_db w) in (r, mkRworld d (rw_tasks w) (rw_clock w) (rw_ohlc w) (tail f))
  end.
Definition set_tasks (f : gmap Z obs_task → gmap Z obs_task) (w : rworld) : rworld :=
  mkRworld (rw_db w) (f (rw_tasks w)) (rw_clock w) (rw_ohlc w) (rw_faults w).

Definition MINUTES : Z := 60 * 1000000.
Section worker.
Context (observation_minutes : Z).

Definition side_of_action (a : action) : side := match a with LONG => buy | _ => sell end.
Definition rejected_meta (p : ShadowRejectedStart) : dict :=
  [("virtual_entry_price", JStr (dec_str (ss_virtual_entry_price p))); ("sl_pct", JStr (dec_str (ss_sl_pct p)));
   ("tp_pct", JStr (dec_str (ss_tp_pct p))); ("be_trigger", JStr (dec_str (ss_be_trigger p)));
   ("be_sl_level", JStr (dec_str (ss_be_sl_level p)))].
Definition on_rejected_start (p : ShadowRejectedStart) : RW unit :=
  w ← get_st;
  row ← on_shadow (insert_shadow_rejected (ss_signal_id p) (ss_bot_id p) (ss_symbol p) (side_of_action (ss_action p))
                     (rw_clock w) (rejected_meta p));
  modify (set_tasks <[row.1 := spawned p]>).

Definition finish_observation (id : Z) (outcome : ShadowRejectedTerminal) (n : observation) : RW unit :=
  pcts ← lift_res (compute_mfe_mae_pcts (on_side n) (on_entry n) (ob_best (on_state n)) (ob_worst (on_state n)));
  w ← get_st;
  on_shadow (update_shadow_rejected_terminal id (rw_clock w) outcome (Some pcts.1) (Some pcts.2)) ;; mret tt.
(** [finally]: the task leaves the registry whatever happened. *)
Definition end_task {A} (id : Z) (m : RW A) : RW A := fun w =>
  let '(r, w') := m w in (r, set_tasks (delete id) w').

(** [_run_observation] up to its wait. *)
Definition run_to_wait (id : Z) : RW unit :=
  w ← get_st;
  match rw_tasks w !! id with
  | Some (spawned p) =>
      if deqb (ss_virtual_entry_price p) dzero
      then end_task id (on_shadow (update_shadow_rejected_terminal id (rw_clock w) NO_TRIGGER (Some f0) (Some f0)) ;; mret tt)
      else modify (set_tasks <[id := observing (start_observation (ss_symbol p) (side_of_action (ss_action p))
              (ss_virtual_entry_price p) (ss_sl_pct p) (ss_tp_pct p) (ss_be_trigger p) (rw_clock w + observation_minutes * MINUTES))]>)
  | _ => mret tt
  end.
(** The subscription of one task delivers a candle. *)
Definition deliver (id : Z) (c : candle) : RW unit := modify (fun w =>
  match rw_tasks w !! id with
  | Some (observing n) => if bool_decide (c_symbol c = on_symbol n) then set_tasks <[id := observing (observe n c)]> w else w
  | _ => w
  end).
(** [wait_for] returns: the future is done. *)
Definition wake (id : Z) : RW unit :=
  w ← get_st;
  match rw_tasks w !! id with
  | Some (observing n) =>
      match ob_outcome (on_state n) with
      | Some out => if ob_done (on_state n) then end_task id (finish_observation id out n) else mret tt
      | None => mret tt
      end
  | _ => mret tt
  end.
(** [wait_for] raises [TimeoutError]. *)
Definition timeout (id : Z) : RW unit :=
  w ← get_st;
  match rw_tasks w !! id with
  | Some (observing n) =>
      if negb (ob_done (on_state n)) && (on_deadline n <=? rw_clock w)
      then end_task id (finish_observation id (if ob_be_triggered (on_state n) then WOULD_BE else NO_TRIGGER) n)
      else mret tt
  | _ => mret tt
  end.
(** [stop]: every task is cancelled; the process then ends. *)
Definition stop_worker : RW unit := modify (set_tasks (fun _ => ∅)).

(** ** services/execution/app/shadow_rejected_replay.py *)
Context (window_max : Z).
Record rejected_params := mkRejectedParams { rp_entry : dec; rp_sl_pct : dec; rp_tp_pct : dec; rp_be_trigger : dec; rp_be_sl_level : dec }.
Definition meta_decimal (meta : dict) (k default : string) : res dec :=
  match dict_get k meta with Some v => decimal_str v | None => dec_of_str default end.
Definition decode_meta (meta : dict) : res rejected_params :=
  entry ← meta_decimal meta "virtual_entry_price" "0";
  sl ← meta_decimal meta "sl_pct" "0.005";
  tp ← meta_decimal meta "tp_pct" "0.01";
  bt ← meta_decimal meta "be_trigger" "0";
  lvl ← meta_decimal meta "be_sl_level" "0";
  Ok (mkRejectedParams entry sl tp bt lvl).

Definition candle_of_row (symbol : string) (x : Z * OhlcRow) : candle :=
  mkCandle symbol x.1 (or_open x.2) (or_high x.2) (or_low x.2) (or_close x.2) (or_volume x.2) true.
(** [_replay_observation_candle_loop]: stops after the candle that ends the
    observation. *)
Fixpoint replay_observation (cs : list candle) (n : observation) : bool * observation :=
  match cs with
  | [] => (false, n)
  | c :: cs' => let n' := observe n c in if ob_done (on_state n') then (true, n') else replay_observation cs' n'
  end.
Definition finalize_rejected (id : Z) (outcome : ShadowRejectedTerminal) (mfe mae : option F) : RW unit :=
  w ← get_st; on_shadow (update_shadow_rejected_terminal id (rw_clock w) outcome mfe mae) ;; mret tt.

Definition replay_rejected_observation_to_now (times_out : bool) (id : Z) (row : ShadowRejectedRow) : RW unit :=
  w ← get_st;
  let now := rw_clock w in
  m ← lift_res (decode_meta (rr_meta row));
  let expires_at := rr_created_at row + observation_minutes * MINUTES in
  if window_max <? now - rr_created_at row then finalize_rejected id SHUTDOWN_MID_REPLAY None None
  else if expires_at <=? now then finalize_rejected id NO_TRIGGER (Some f0) (Some f0)
  else if deqb (rp_entry m) dzero then finalize_rejected id NO_TRIGGER (Some f0) (Some f0)
  else
    let n0 := start_observation (rr_symbol row) (rr_would_side row) (rp_entry m) (rp_sl_pct m) (rp_tp_pct m) (rp_be_trigger m) expires_at in
    if times_out then finalize_rejected id SHUTDOWN_MID_REPLAY None None
    else
      let cs := candle_of_row (rr_symbol row) <$> select_ohlc_for_replay_window (rr_symbol row) (rr_created_at row) now (rw_ohlc w) in
      let '(done, n) := replay_observation cs n0 in
      if done then finish_observation id (default NO_TRIGGER (ob_outcome (on_state n))) n
      else modify (set_tasks <[id := observing n]>).

Fixpoint resume_rows (times_out : Z → bool) (rows : list (Z * ShadowRejectedRow)) : RW unit :=
  match rows with
  | [] => mret tt
  | (id, row) :: rest =>
      attempt is_exception (replay_rejected_observation_to_now (times_out id) id row) ;; resume_rows times_out rest
  end.
Definition resume_active_observations_on_startup (times_out : Z → bool) : RW unit :=
  rows ← on_shadow (fun d => (Ok (select_all_active_shadow_rejected d), d)); resume_rows times_out rows.
End worker.
End shadow.
