(* ===== verification/Variants.v ===== *)
(** * Shadow variants of open trades

    Models services/execution/app/{shadow_worker,shadow_replay}.py: a variant
    follows an open trade on a paper exchange of its own, seeded with the
    trade, and its outcome is written to shadow_variants.  The variant's paper
    exchange is the one of PaperExchange, over the same paper tables as the
    bot's ([vw_paper]).  The conversion of hours to a duration through float is
    a parameter.  Asyncio tasks, faults, [codec] and the floats of the columns
    are as in Shadow. *)

From S2P Require Import Prelude Json Dec DecText Float64 PyNum Sizing Scoring PaperDb PaperExchange RiskGates Consumer ExecDb Exchange Lifecycle Market Shadow.
Open Scope Z_scope.

Record ShadowStartPayload := mkStartPayload {
  sp_parent_trade_id : Z; sp_parent_kind : parent_kind; sp_bot_id : string; sp_symbol : string; sp_side : side;
  sp_entry_price : dec; sp_qty : dec;
}.
Record variant_params := mkParams {
  ov_be_trigger : dec; ov_be_sl_level : dec; ov_trail_pct : dec; ov_sl_pct : dec; ov_tp_pct : dec; ov_tp_qty_pct : dec;
  ov_max_duration_hours : dec;
}.

(** ** Overrides: as the worker reads them, and through the meta column *)
Definition collect_params (get : string → string → res dec) : res variant_params :=
  bt ← get "be_trigger" "0"; bl ← get "be_sl_level" "0"; tr ← get "trail_pct" "0"; sl ← get "sl_pct" "0.005";
  tp ← get "tp_pct" "0.01"; tq ← get "tp_qty_pct" "1"; md ← get "max_duration_hours" "4";
  Ok (mkParams bt bl tr sl tp tq md).
(** [Decimal(str(ovr.get(k, default)))]. *)
Definition variant_overrides (ovr : gmap string dec) : res variant_params :=
  collect_params (fun k default => dec_of_str (match ovr !! k with Some v => dec_str v | None => default end)).
Definition overrides_meta (symbol : string) (ovr : gmap string dec) : dict :=
  [("symbol", JStr symbol); ("overrides", JObj ((fun kv => (kv.1, JStr (dec_str kv.2))) <$> map_to_list ovr))].
Definition decode_overrides (meta : dict) : res variant_params :=
  let raw := match dict_get "overrides" meta with Some (JObj d) => d | _ => [] end in
  collect_params (meta_decimal raw).
Definition variant_symbol_from_row (meta : dict) : res string :=
  match dict_get "symbol" meta with Some (JStr s) => Ok s | _ => Err (RuntimeError "missing meta.symbol") end.

(** ** The seeded exchange *)
Definition variant_seed (symbol : string) (trade_id : Z) (sd : side) (qty entry : dec) (o : variant_params) : seed_state :=
  mkSeed symbol trade_id sd qty entry None None
    (Some (match sd with buy => dmul entry (dsub (1 @ 0) (ov_sl_pct o)) | sell => dmul entry (dadd (1 @ 0) (ov_sl_pct o)) end))
    (Some (match sd with buy => dmul entry (dadd (1 @ 0) (ov_tp_pct o)) | sell => dmul entry (dsub (1 @ 0) (ov_tp_pct o)) end))
    (Some (dmul qty (ov_tp_qty_pct o))) (Some (if dltb (ov_tp_qty_pct o) (1 @ 0) then Partial else Full)) None None None.

(** [variant_state]. *)
Record variant_state := mkVariantState { vs_best : dec; vs_worst : dec }.
Abbreviation VS := (ST (pe_state * variant_state)).

Section variants.
Context `{PgNumeric} {F : Type} (to_float : dec → F) (f0 : F) (codec : bool).

Definition on_pe {A} (m : ST pe_state A) : VS A := fun '(s, v) => let '(r, s') := m s in (r, (s', v)).

(** ** The candle handler of [_make_candle_handler] *)
Definition variant_candle (cfg : pe_config) (sd : side) (entry : dec) (o : variant_params) (c : candle) : VS unit :=
  if negb (c_is_closed c) then mret tt
  else
    modify (fun '(s, v) => let '(b, w) := track sd c (vs_best v) (vs_worst v) in (s, mkVariantState b w)) ;;
    x ← get_st;
    let '(s, v) := x in
    match active_positions s !! c_symbol c with
    | None => mret tt
    | Some pos =>
        let sl_type := default protective (p_sl_type pos) in
        let set_stop (sl : dec) (t : option slt) : VS unit :=
          tm ← lift_res (subscript "tpsl_mode" (p_tpsl_mode pos));
          on_pe (set_trading_stop cfg (c_symbol c) tm (Some sl) (p_tp_price pos) (p_tp_size pos) t) in
        hit ← (if bool_decide (sl_type = protective) && dltb dzero (ov_be_trigger o)
               then lift_res (check_be_trigger sd (match sd with buy => c_high c | sell => c_low c end) entry (ov_be_trigger o))
               else mret false);
        if (hit : bool) then set_stop (compute_be_sl_price sd entry (ov_be_sl_level o)) (Some be)
        else if bool_decide (sl_type = trail) && dltb dzero (ov_trail_pct o) then
          let new := compute_trail_sl_price sd (vs_best v) (ov_trail_pct o) in
          match p_sl_price pos with
          | None => mret tt
          | Some cur => if (match sd with buy => dltb cur new | sell => dltb new cur end) then set_stop new None else mret tt
          end
        else mret tt
    end.

Definition terminal_from_pe_state (k : fill_kind) (t : slt) : ShadowVariantTerminal :=
  match k with
  | k_sl => match t with protective => SL_HIT | be => BE_HIT | trail => TP_TRAIL end
  | k_tp => TP_FULL
  end.

(** ** The worker *)
Record variant_task := mkVariantTask {
  vt_parent : Z; vt_cfg : pe_config; vt_symbol : string; vt_side : side; vt_entry : dec; vt_params : variant_params;
  vt_deadline : Z; vt_pe : pe_state; vt_state : variant_state;
}.
Record vworld := mkVworld {
  vw_db : shadow_db (F := F); vw_paper : db; vw_live : live_db; vw_tasks : gmap Z variant_task; vw_clock : Z;
  vw_ohlc : ohlc_table; vw_uuids : Z; vw_faults : list bool;
}.
Abbreviation VW := (ST vworld).
Definition on_shadow_tables {A} (m : ST (shadow_db (F := F)) A) : VW A := fun w =>
  match vw_faults w with
  | true :: f => (Err (RuntimeError "connection"), mkVworld (vw_db w) (vw_paper w) (vw_live w) (vw_tasks w) (vw_clock w) (vw_ohlc w) (vw_uuids w) f)
  | f => let '(r, d) := m (vw_db w) in (r, mkVworld d (vw_paper w) (vw_live w) (vw_tasks w) (vw_clock w) (vw_ohlc w) (vw_uuids w) (tail f))
  end.
Definition set_variant_tasks (f : gmap Z variant_task → gmap Z variant_task) (w : vworld) : vworld :=
  mkVworld (vw_db w) (vw_paper w) (vw_live w) (f (vw_tasks w)) (vw_clock w) (vw_ohlc w) (vw_uuids w) (vw_faults w).
(** Whether the next call to the outside fails. *)
Definition outside_call : VW (res unit) := fun w =>
  let w' := mkVworld (vw_db w) (vw_paper w) (vw_live w) (vw_tasks w) (vw_clock w) (vw_ohlc w) (vw_uuids w) (tail (vw_faults w)) in
  match vw_faults w with
  | true :: _ => (Ok (Err (RuntimeError "connection")), w')
  | _ => (Ok (Ok tt), w')
  end.
(** A variant's exchange over the shared paper tables, at the present time,
    drawing from the process's uuids. *)
Definition now_on (w : vworld) (s : pe_state) : pe_state := set_uuids (vw_uuids w) (set_clock (vw_clock w) (set_tables (vw_paper w) s)).
Definition run_exchange {A} (m : VS A) (x : pe_state * variant_state) : VW (A * (pe_state * variant_state)) := fun w =>
  let '(r, (s, v)) := m (now_on w x.1, x.2) in
  (a ← r; Ok (a, (s, v)), mkVworld (vw_db w) (tables s) (vw_live w) (vw_tasks w) (vw_clock w) (vw_ohlc w) (uuids s) (vw_faults w)).

Context (seed_balance : dec) (slippage_of : slippage_model) (slippage_values : gmap string dec) (fee_rate : dec).
Context (hours_us seconds_us : dec → Z).
Definition worker_config (bot : string) (seed : seed_state) : pe_config :=
  mkConfig bot seed_balance slippage_of fee_rate slippage_values live false false (Some seed) true false true.
Definition replay_config (bot : string) (seed : seed_state) : pe_config :=
  mkConfig bot seed_balance m_fixed_pct fee_rate {["fixed_slippage_pct" := dzero]} live false false (Some seed) true false true.

(** [_run_shadow_variant] up to its wait. *)
Definition start_variant (p : ShadowStartPayload) (v : ShadowVariant) : VW Z :=
  o ← lift_res (variant_overrides (sv_overrides v));
  w ← get_st;
  row ← on_shadow_tables (insert_shadow_variant codec (sp_parent_trade_id p) (sp_bot_id p) (sv_name v) (sp_side p)
          (sp_entry_price p) (sp_qty p) (vw_clock w) (sp_parent_kind p) (overrides_meta (sp_symbol p) (sv_overrides v)));
  let entry := sp_entry_price p in
  let seed := variant_seed (sp_symbol p) (sp_parent_trade_id p) (sp_side p) (sp_qty p) entry o in
  let cfg := worker_config (sp_bot_id p) seed in
  s0 ← lift_res (paper_exchange_init cfg (vw_clock w) (vw_paper w));
  query ← outside_call;
  subscribed ← outside_call;
  x ← run_exchange (on_pe (start_consuming cfg query subscribed)) (s0, mkVariantState entry entry);
  modify (set_variant_tasks <[row.1 := mkVariantTask (sp_parent_trade_id p) cfg (sp_symbol p) (sp_side p) entry o
            (vw_clock w + seconds_us (dmul (ov_max_duration_hours o) (3600 @ 0))) x.2.1 x.2.2]>) ;;
  mret row.1.

(** [_on_shadow_start] spawns a task per variant; a task that raises ends
    alone. *)
Fixpoint on_shadow_start (p : ShadowStartPayload) (variants : list ShadowVariant) : VW unit :=
  match variants with
  | [] => mret tt
  | v :: vs => attempt is_exception (start_variant p v) ;; on_shadow_start p vs
  end.

(** A candle on [market.ohlc.1m.>] for the exchange of a variant, and on
    [market.ohlc.1m.<symbol>] for its handler. *)
Definition with_task (id : Z) (f : variant_task → VS unit) : VW unit := fun w =>
  match vw_tasks w !! id with
  | None => (Ok tt, w)
  | Some t =>
      let '(r, (s, v)) := f t (now_on w (vt_pe t), vt_state t) in
      (r, mkVworld (vw_db w) (tables s) (vw_live w)
            (<[id := mkVariantTask (vt_parent t) (vt_cfg t) (vt_symbol t) (vt_side t) (vt_entry t) (vt_params t) (vt_deadline t) s v]> (vw_tasks w))
            (vw_clock w) (vw_ohlc w) (uuids s) (vw_faults w))
  end.
Definition exchange_candle (id : Z) (c : candle) : VW unit := with_task id (fun t => on_pe (on_candle (vt_cfg t) c)).
Definition handler_candle (id : Z) (c : candle) : VW unit := with_task id (fun t =>
  if bool_decide (c_symbol c = vt_symbol t) then variant_candle (vt_cfg t) (vt_side t) (vt_entry t) (vt_params t) c else mret tt).

(** The registry is [vt_parent]; a task that ends leaves it. *)
Definition end_variant {A} (id : Z) (m : VW A) : VW A := fun w =>
  let '(r, w') := m w in (r, set_variant_tasks (delete id) w').
Definition finalize_variant (id : Z) (outcome : ShadowVariantTerminal) (pnl : option dec) (mfe mae : option F) : VW unit :=
  w ← get_st; on_shadow_tables (update_shadow_variant_terminal codec id (vw_clock w) outcome pnl mfe mae) ;; mret tt.
Definition finish_variant (id : Z) (t : variant_task) (outcome : ShadowVariantTerminal) (pnl : option dec) : VW unit :=
  pcts ← lift_res (compute_mfe_mae to_float (vt_side t) (vt_entry t) (vs_best (vt_state t)) (vs_worst (vt_state t)));
  finalize_variant id outcome pnl (Some pcts.1) (Some pcts.2).
(** [_drive_variant_to_terminal] wakes: the first terminal event, or the
    timeout. *)
Definition drive_variant (id : Z) : VW unit :=
  w ← get_st;
  match vw_tasks w !! id with
  | None => mret tt
  | Some t =>
      match terminals (vt_pe t) with
      | e :: _ => end_variant id (finish_variant id t (terminal_from_pe_state (te_exec_type e) (te_sl_type_at_close e)) (Some (te_realized_pnl e)))
      | [] => if vt_deadline t <=? vw_clock w then end_variant id (finish_variant id t TIMEOUT None) else mret tt
      end
  end.
(** [_on_parent_close] and [stop]: cancelled tasks end without writing. *)
Definition on_parent_close (parent : Z) : VW unit :=
  modify (set_variant_tasks (filter (fun kv : Z * variant_task => vt_parent kv.2 ≠ parent))).
Definition stop_variants : VW unit := modify (set_variant_tasks (fun _ => ∅)).

(** ** services/execution/app/shadow_replay.py *)
Context (window_max : Z).
Definition check_parent_open (kind : parent_kind) (parent : Z) (w : vworld) : bool :=
  match kind with
  | kind_live => match trades (vw_live w) !! parent with Some t => negb (bool_decide (trd_status t = st_closed)) | None => false end
  | kind_paper => match paper_trades (vw_paper w) !! parent with Some t => bool_decide (pt_closed_at t = None) | None => false end
  end.
(** [_replay_candle_loop]. *)
Fixpoint replay_candle_loop (cfg : pe_config) (sd : side) (entry : dec) (o : variant_params) (cs : list candle) : VS bool :=
  match cs with
  | [] => mret false
  | c :: cs' =>
      on_pe (on_candle cfg c) ;;
      variant_candle cfg sd entry o c ;;
      x ← get_st;
      match terminals x.1 with _ :: _ => mret true | [] => replay_candle_loop cfg sd entry o cs' end
  end.
(** The task of [_live_continuation] runs up to its wait at once; an error there
    ends that task, and is the error returned here. *)
Definition replay_shadow_variant_to_now (times_out : bool) (id : Z) (row : ShadowVariantRow (F := F)) : VW unit :=
  w ← get_st;
  let now := vw_clock w in
  o ← lift_res (decode_overrides (vr_meta row));
  let expires_at := vr_created_at row + hours_us (ov_max_duration_hours o) in
  if window_max <? now - vr_created_at row then finalize_variant id VARIANT_SHUTDOWN_MID_REPLAY None None None
  else if negb (check_parent_open (vr_parent_kind row) (vr_parent_trade_id row) w)
  then finalize_variant id VARIANT_SHUTDOWN_MID_REPLAY None None None
  else if expires_at <=? now then finalize_variant id TIMEOUT None (Some f0) (Some f0)
  else
    symbol ← lift_res (variant_symbol_from_row (vr_meta row));
    let sd := vr_side row in
    let entry := vr_entry_price row in
    let seed := variant_seed symbol (vr_parent_trade_id row) sd (vr_qty row) entry o in
    let cfg := replay_config (vr_bot_id row) seed in
    s0 ← lift_res (paper_exchange_init cfg now (vw_paper w));
    if times_out then finalize_variant id VARIANT_SHUTDOWN_MID_REPLAY None None None
    else
      let cs := candle_of_row symbol <$> select_ohlc_for_replay_window symbol (vr_created_at row) now (vw_ohlc w) in
      x ← run_exchange (replay_candle_loop cfg sd entry o cs) (s0, mkVariantState entry entry);
      let '(terminated_during_replay, (s, v)) := x in
      let t := mkVariantTask (vr_parent_trade_id row) cfg symbol sd entry o expires_at s v in
      if (terminated_during_replay : bool) then
        match terminals s with
        | e :: _ => finish_variant id t (terminal_from_pe_state (te_exec_type e) (te_sl_type_at_close e)) (Some (te_realized_pnl e))
        | [] => mret tt
        end
      else
        query ← outside_call;
        subscribed ← outside_call;
        y ← run_exchange (on_pe (start_consuming cfg query subscribed)) (s, v);
        modify (set_variant_tasks <[id := mkVariantTask (vr_parent_trade_id row) cfg symbol sd entry o expires_at y.2.1 y.2.2]>).
Fixpoint resume_variant_rows (times_out : Z → bool) (rows : list (Z * ShadowVariantRow (F := F))) : VW unit :=
  match rows with
  | [] => mret tt
  | (id, row) :: rest =>
      attempt is_exception (replay_shadow_variant_to_now (times_out id) id row) ;; resume_variant_rows times_out rest
  end.
Definition resume_active_variants_on_startup (times_out : Z → bool) : VW unit :=
  rows ← on_shadow_tables (fun d => (Ok (select_all_active_shadow_variants codec d), d)); resume_variant_rows times_out rows.
End variants.
