(* ===== verification/ShadowFacts.v ===== *)
(** * Shadow runs: what an observation concludes, that it survives a restart
    and is written once, and what a restart and a shadow exchange do to
    variants and their parents *)

From S2P Require Import Prelude Json Dec DecText Float64 PyNum Sizing Scoring PaperDb PaperExchange PaperInv PaperFacts RiskGates Consumer ExecDb Exchange Lifecycle Market Shadow Variants.
From stdpp Require Import sorting.
From Stdlib Require Import QArith Lqa.
Open Scope Z_scope.

(** ** The outcome of an observation *)
Section outcome.
(** The candle ends the observation. *)
Definition ends (n : observation) (c : candle) : Prop :=
  c_is_closed c = true ∧ crosses_sl (on_side n) (on_sl n) c || reaches (on_side n) (on_tp n) c = true.
#[global] Instance ends_dec n c : Decision (ends n c).
Proof. unfold ends. apply _. Defined.
Definition closed (c : candle) : Prop := c_is_closed c = true.
#[global] Instance closed_dec c : Decision (closed c).
Proof. unfold closed. apply _. Defined.
Definition breaks_even (n : observation) (c : candle) : bool := c_is_closed c && reaches (on_side n) (on_be n) c.

(** No less favourable to a position of the side. *)
Definition at_least (sd : side) (x y : dec) : Prop := match sd with buy => dleb y x = true | sell => dleb x y = true end.
Definition favourable (sd : side) (c : candle) : dec := match sd with buy => c_high c | sell => c_low c end.
Definition adverse (sd : side) (c : candle) : dec := match sd with buy => c_low c | sell => c_high c end.
(** [best] and [worst] are the extreme prices among the entry and the candles. *)
Definition extremes (sd : side) (entry : dec) (cs : list candle) (o : obs_state) : Prop :=
  (ob_best o = entry ∨ ∃ c, c ∈ cs ∧ ob_best o = favourable sd c) ∧
  (ob_worst o = entry ∨ ∃ c, c ∈ cs ∧ ob_worst o = adverse sd c) ∧
  at_least sd (ob_best o) entry ∧ at_least sd entry (ob_worst o) ∧
  ∀ c, c ∈ cs → at_least sd (ob_best o) (favourable sd c) ∧ at_least sd (adverse sd c) (ob_worst o).

Lemma dleb_refl x : dleb x x = true.
Proof. apply dleb_spec. apply Qle_refl. Qed.
Lemma dleb_total x y : dleb x y = false → dleb y x = true.
Proof. rewrite dleb_false, dleb_spec. apply Qlt_le_weak. Qed.
Lemma at_least_refl sd x : at_least sd x x.
Proof. destruct sd; apply dleb_refl. Qed.
Lemma at_least_trans sd x y z : at_least sd x y → at_least sd y z → at_least sd x z.
Proof. destruct sd; unfold at_least; rewrite !dleb_spec; intros ? ?; by eapply Qle_trans. Qed.

Lemma observe_frame n c : on_side (observe n c) = on_side n ∧ on_sl (observe n c) = on_sl n ∧ on_tp (observe n c) = on_tp n ∧
  on_be (observe n c) = on_be n ∧ on_entry (observe n c) = on_entry n ∧ on_symbol (observe n c) = on_symbol n ∧
  on_deadline (observe n c) = on_deadline n.
Proof. by split_and!. Qed.
Lemma observe_open n c : c_is_closed c = false ∨ ob_done (on_state n) = true → observe n c = n.
Proof.
  intros Hc. destruct n as [sy sd en tp sl bt dl o]. unfold observe, observe_candle. cbn in *.
  by destruct Hc as [-> | ->]; rewrite ?orb_true_r.
Qed.
Lemma observe_done cs n : ob_done (on_state n) = true → foldl observe n cs = n.
Proof. intros Hd. induction cs as [|c cs IH]; [done|]. cbn. rewrite observe_open by auto. exact IH. Qed.

Lemma track_extremes sd c b w : let '(b', w') := track sd c b w in
  at_least sd b' b ∧ at_least sd b' (favourable sd c) ∧ (b' = b ∨ b' = favourable sd c) ∧
  at_least sd w w' ∧ at_least sd (adverse sd c) w' ∧ (w' = w ∨ w' = adverse sd c).
Proof.
  destruct sd; cbn; unfold dltb.
  - destruct (dleb (c_high c) b) eqn:E1, (dleb w (c_low c)) eqn:E2; cbn; rewrite ?E1, ?E2, ?dleb_refl; split_and!; auto using dleb_total.
  - destruct (dleb b (c_low c)) eqn:E1, (dleb (c_high c) w) eqn:E2; cbn; rewrite ?E1, ?E2, ?dleb_refl; split_and!; auto using dleb_total.
Qed.

(** One closed candle of a running observation. *)
Lemma observe_closed n c seen : c_is_closed c = true → ob_done (on_state n) = false → ob_outcome (on_state n) = None →
  extremes (on_side n) (on_entry n) seen (on_state n) →
  let o := on_state (observe n c) in
  extremes (on_side n) (on_entry n) (seen ++ [c]) o ∧
  if decide (ends n c)
  then ob_done o = true ∧ ob_outcome o = Some (if crosses_sl (on_side n) (on_sl n) c then WOULD_SL else WOULD_TP) ∧
       ob_be_triggered o = ob_be_triggered (on_state n)
  else ob_done o = false ∧ ob_outcome o = None ∧ ob_be_triggered o = ob_be_triggered (on_state n) || breaks_even n c.
Proof.
  intros Hc Hd Ho (Hb & Hw & Hbe & Hwe & Hall). cbn zeta. unfold observe. cbn [on_state]. unfold observe_candle. rewrite Hc, Hd. cbn [negb orb].
  pose proof (track_extremes (on_side n) c (ob_best (on_state n)) (ob_worst (on_state n))) as Ht.
  destruct (track (on_side n) c (ob_best (on_state n)) (ob_worst (on_state n))) as [b w].
  destruct Ht as (T1 & T2 & T3 & T4 & T5 & T6).
  assert (∀ t r d, extremes (on_side n) (on_entry n) (seen ++ [c]) (mkObs b w t r d)) as Hext.
  { intros t r d. unfold extremes. cbn. split_and!.
    - destruct T3 as [-> | ->]; [|right; exists c; set_solver]. destruct Hb as [?|(x & ? & ?)]; [auto|right; exists x; set_solver].
    - destruct T6 as [-> | ->]; [|right; exists c; set_solver]. destruct Hw as [?|(x & ? & ?)]; [auto|right; exists x; set_solver].
    - by apply (at_least_trans _ _ _ _ T1).
    - by apply (at_least_trans _ _ _ _ Hwe).
    - intros x [Hx|Hx]%elem_of_app; [|apply list_elem_of_singleton in Hx as ->; done].
      destruct (Hall x Hx) as [Hx1 Hx2]. split; [by apply (at_least_trans _ _ _ _ T1)|by apply (at_least_trans _ _ _ _ Hx2)]. }
  unfold breaks_even. rewrite Hc. destruct (decide (ends n c)) as [[_ Hend]|Hend].
  - destruct (crosses_sl (on_side n) (on_sl n) c); cbn [orb] in Hend; [|rewrite Hend]; by split; [apply Hext|].
  - destruct (crosses_sl (on_side n) (on_sl n) c) eqn:Hs; [by destruct Hend; split; [|rewrite Hs]|].
    destruct (reaches (on_side n) (on_tp n) c) eqn:Hr; [by destruct Hend; split; [|rewrite Hs, Hr]|].
    split; [apply Hext|]. by rewrite Ho.
Qed.

Lemma observation_run cs n seen : ob_done (on_state n) = false → ob_outcome (on_state n) = None →
  extremes (on_side n) (on_entry n) seen (on_state n) →
  let o := on_state (foldl observe n cs) in
  match list_find (ends n) cs with
  | Some (i, c) => ob_done o = true ∧ ob_outcome o = Some (if crosses_sl (on_side n) (on_sl n) c then WOULD_SL else WOULD_TP) ∧
      ob_be_triggered o = ob_be_triggered (on_state n) || existsb (breaks_even n) (take i cs) ∧
      extremes (on_side n) (on_entry n) (seen ++ filter closed (take (S i) cs)) o
  | None => ob_done o = false ∧ ob_outcome o = None ∧
      ob_be_triggered o = ob_be_triggered (on_state n) || existsb (breaks_even n) cs ∧
      extremes (on_side n) (on_entry n) (seen ++ filter closed cs) o
  end.
Proof.
  revert n seen. induction cs as [|c cs IH]; intros n seen Hd Ho He; cbn zeta.
  { cbn. by rewrite orb_false_r, app_nil_r. }
  cbn [foldl list_find]. destruct (c_is_closed c) eqn:Hc.
  2:{ rewrite observe_open by auto. assert (¬ ends n c) as Hne by (unfold ends; intros [? _]; congruence).
      assert (breaks_even n c = false) as Hbe by (unfold breaks_even; by rewrite Hc).
      rewrite decide_False by done. specialize (IH n seen Hd Ho He). cbn zeta in IH.
      destruct (list_find (ends n) cs) as [[i x]|]; cbn [fmap option_fmap option_map prod_map fst snd];
        cbn [take existsb]; rewrite filter_cons, decide_False by (unfold closed; congruence); by rewrite Hbe. }
  destruct (observe_closed n c seen Hc Hd Ho He) as [Hext Hcase]. cbn zeta in Hcase.
  assert (filter closed (c :: cs) = c :: filter closed cs) as Hfil by (by rewrite filter_cons, decide_True).
  destruct (decide (ends n c)) as [Hend|Hend].
  - destruct Hcase as (Hd' & Ho' & Hb'). rewrite observe_done by done. cbn [take existsb]. rewrite filter_cons, decide_True, Hb', orb_false_r by done.
    split_and!; [done..|]. exact Hext.
  - destruct Hcase as (Hd' & Ho' & Hb'). specialize (IH (observe n c) (seen ++ [c]) Hd' Ho' Hext). cbn zeta in IH.
    change (ends (observe n c)) with (ends n) in IH. change (breaks_even (observe n c)) with (breaks_even n) in IH.
    change (on_side (observe n c)) with (on_side n) in IH. change (on_entry (observe n c)) with (on_entry n) in IH. change (on_sl (observe n c)) with (on_sl n) in IH.
    rewrite Hb' in IH. destruct (list_find (ends n) cs) as [[i x]|]; cbn [fmap option_fmap option_map prod_map fst snd];
      cbn [take existsb]; rewrite filter_cons, decide_True by done; destruct IH as (I1 & I2 & I3 & I4); split_and!; try done.
    all: first [by rewrite I3, orb_assoc | by rewrite <- app_assoc in I4].
Qed.

(** C19: an observation is decided by the first closed candle that reaches its
    stop or its target, the stop winning when both are reached; before that
    candle it stays open, remembering whether the break-even level was reached;
    best and worst price are exactly the extremes of the entry and the closed
    candles up to the deciding one. *)
Theorem observation_classifies n cs : on_state n = fresh_obs (on_entry n) →
  let o := on_state (foldl observe n cs) in
  match list_find (ends n) cs with
  | Some (i, c) => ob_done o = true ∧ ob_outcome o = Some (if crosses_sl (on_side n) (on_sl n) c then WOULD_SL else WOULD_TP) ∧
      ob_be_triggered o = existsb (breaks_even n) (take i cs) ∧
      extremes (on_side n) (on_entry n) (filter closed (take (S i) cs)) o
  | None => ob_done o = false ∧ ob_outcome o = None ∧ ob_be_triggered o = existsb (breaks_even n) cs ∧
      extremes (on_side n) (on_entry n) (filter closed cs) o
  end.
Proof.
  intros Hn. assert (extremes (on_side n) (on_entry n) [] (on_state n)) as He.
  { rewrite Hn. unfold extremes. cbn. split_and!; auto using at_least_refl. set_solver. }
  pose proof (observation_run cs n [] ltac:(by rewrite Hn) ltac:(by rewrite Hn) He) as Hr. cbn zeta in Hr. by rewrite Hn in Hr.
Qed.
End outcome.

(** ** Restart of an observation *)
Section restart.
Context {F : Type} (to_float : dec → F) (f0 : F) (minutes window_max : Z).
Abbreviation R := (rworld (F := F)).

Lemma meta_roundtrip d : decimal_str (JStr (dec_str d)) = Ok d.
Proof. apply dec_str_roundtrip. Qed.
Lemma decode_rejected_meta p : decode_meta (rejected_meta p) =
  Ok (mkRejectedParams (ss_virtual_entry_price p) (ss_sl_pct p) (ss_tp_pct p) (ss_be_trigger p) (ss_be_sl_level p)).
Proof.
  assert (∀ k dflt d, dict_get k (rejected_meta p) = Some (JStr (dec_str d)) → meta_decimal (rejected_meta p) k dflt = Ok d) as Hm.
  { intros k dflt d Hk. unfold meta_decimal. rewrite Hk. apply meta_roundtrip. }
  unfold decode_meta.
  rewrite (Hm "virtual_entry_price" _ (ss_virtual_entry_price p) eq_refl). cbn [mbind res_bind]. rewrite (Hm "sl_pct" _ (ss_sl_pct p) eq_refl). cbn [mbind res_bind].
  rewrite (Hm "tp_pct" _ (ss_tp_pct p) eq_refl). cbn [mbind res_bind]. rewrite (Hm "be_trigger" _ (ss_be_trigger p) eq_refl). cbn [mbind res_bind].
  by rewrite (Hm "be_sl_level" _ (ss_be_sl_level p) eq_refl).
Qed.

Lemma replay_observation_run cs n : ob_done (on_state n) = false →
  replay_observation cs n = (ob_done (on_state (foldl observe n cs)), foldl observe n cs).
Proof.
  revert n. induction cs as [|c cs IH]; intros n Hd; [cbn; by rewrite Hd|]. cbn [replay_observation foldl].
  destruct (ob_done (on_state (observe n c))) eqn:E; [|by apply IH]. rewrite (observe_done cs _ E). by rewrite E.
Qed.

Lemma on_shadow_run {A} (m : ST (shadow_db (F := F)) A) (w : R) : rw_faults w = [] →
  on_shadow m w = ((m (rw_db w)).1, mkRworld (m (rw_db w)).2 (rw_tasks w) (rw_clock w) (rw_ohlc w) []).
Proof. intros Hf. unfold on_shadow. rewrite Hf. cbn. by destruct (m (rw_db w)). Qed.

(** What ending an observation does to a row, without faults. *)
Definition settled (o : obs_state) (n : observation) (out : ShadowRejectedTerminal) (clock : Z) (row : ShadowRejectedRow (F := F)) :=
  match compute_mfe_mae_pcts to_float f0 (on_side n) (on_entry n) (ob_best o) (ob_worst o) with
  | Ok (mfe, mae) => terminated row clock out (Some mfe) (Some mae)
  | Err _ => row
  end.
Lemma update_rejected_run codec id at_ out mfe mae (w : R) row : rw_faults w = [] → sh_rejected_rows (rw_db w) !! id = Some row →
  ∃ x w', on_shadow (update_shadow_rejected_terminal codec id at_ out mfe mae) w = (Ok x, w') ∧
    rw_tasks w' = rw_tasks w ∧ rw_faults w' = [] ∧ rw_clock w' = rw_clock w ∧ rw_ohlc w' = rw_ohlc w ∧
    sh_rejected_rows (rw_db w') = <[id := terminated row at_ out mfe mae]> (sh_rejected_rows (rw_db w)).
Proof. intros Hf Hrow. rewrite on_shadow_run by done. unfold update_shadow_rejected_terminal. rewrite Hrow. cbn. eauto 10. Qed.

Lemma finish_observation_run codec id out n (w : R) row r w' :
  rw_faults w = [] → sh_rejected_rows (rw_db w) !! id = Some row → finish_observation to_float f0 codec id out n w = (r, w') →
  rw_tasks w' = rw_tasks w ∧ rw_faults w' = [] ∧
  sh_rejected_rows (rw_db w') !! id = Some (settled (on_state n) n out (rw_clock w) row).
Proof.
  intros Hf Hrow E. unfold finish_observation, settled in *.
  destruct (compute_mfe_mae_pcts _ _ _ _ _ _) as [[mfe mae]|e]; [|by injection E as _ <-].
  rewrite (st_bind_run (lift_res _) _ w (mfe, mae) w eq_refl), (st_bind_run get_st _ w w w eq_refl) in E. cbn [fst snd] in E.
  destruct (update_rejected_run codec id (rw_clock w) out (Some mfe) (Some mae) w row Hf Hrow) as (x & w1 & E1 & Ht & Hf1 & _ & _ & Hr).
  rewrite (st_bind_run _ _ _ _ _ E1) in E. injection E as _ <-. split_and!; [done..|]. by rewrite Hr, lookup_insert_eq.
Qed.
Lemma finalize_rejected_run codec id out mfe mae (w : R) row : rw_faults w = [] → sh_rejected_rows (rw_db w) !! id = Some row →
  ∃ w', finalize_rejected codec id out mfe mae w = (Ok tt, w') ∧ rw_tasks w' = rw_tasks w ∧ rw_faults w' = [] ∧
    rw_clock w' = rw_clock w ∧ rw_ohlc w' = rw_ohlc w ∧
    sh_rejected_rows (rw_db w') = <[id := terminated row (rw_clock w) out mfe mae]> (sh_rejected_rows (rw_db w)).
Proof.
  intros Hf Hrow. unfold finalize_rejected. rewrite (st_bind_run get_st _ w w w eq_refl).
  destruct (update_rejected_run codec id (rw_clock w) out mfe mae w row Hf Hrow) as (x & w1 & E1 & ?).
  rewrite (st_bind_run _ _ _ _ _ E1). by exists w1.
Qed.

(** The observation of [p] as the worker runs it from its start, fed the
    candles [cs]: the row and the task it leaves. *)
Definition uninterrupted (codec : bool) (p : ShadowRejectedStart) (cs : list candle) (u : R) : R :=
  let id := sh_rejected_seq (rw_db u) in
  foldl (fun w c => (deliver id c w).2) (run_to_wait f0 codec minutes id (on_rejected_start codec p u).2).2 cs.
Definition live_observation (p : ShadowRejectedStart) (t : Z) : observation :=
  start_observation (ss_symbol p) (side_of_action (ss_action p)) (ss_virtual_entry_price p) (ss_sl_pct p) (ss_tp_pct p)
    (ss_be_trigger p) (t + minutes * MINUTES).
Definition row_of_start (p : ShadowRejectedStart) (t : Z) : ShadowRejectedRow (F := F) :=
  mkRejectedRow (ss_signal_id p) (ss_bot_id p) (ss_symbol p) (side_of_action (ss_action p)) t None None None None (rejected_meta p).

Lemma deliver_all id cs n (w : R) : rw_tasks w !! id = Some (observing n) → Forall (fun c => c_symbol c = on_symbol n) cs →
  let w' := foldl (fun w c => (deliver id c w).2) w cs in
  rw_tasks w' !! id = Some (observing (foldl observe n cs)) ∧ rw_db w' = rw_db w ∧ rw_faults w' = rw_faults w ∧ rw_clock w' = rw_clock w.
Proof.
  revert n w. induction cs as [|c cs IH]; intros n w Ht Hs; cbn zeta; [done|]. apply Forall_cons in Hs as [Hc Hs]. cbn [foldl].
  assert ((deliver id c w).2 = set_tasks <[id := observing (observe n c)]> w) as Hd.
  { unfold deliver, modify. cbn. rewrite Ht. by rewrite bool_decide_eq_true_2. }
  destruct (IH (observe n c) (deliver id c w).2) as (I1 & I2 & I3 & I4).
  - rewrite Hd. cbn. by rewrite lookup_insert_eq.
  - exact Hs.
  - cbn zeta in *. split_and!; [exact I1|by rewrite I2, Hd|by rewrite I3, Hd|by rewrite I4, Hd].
Qed.

Lemma uninterrupted_spec codec p cs (u : R) : rw_faults u = [] → deqb (ss_virtual_entry_price p) dzero = false →
  Forall (fun c => c_symbol c = ss_symbol p) cs →
  let w := uninterrupted codec p cs u in let id := sh_rejected_seq (rw_db u) in
  rw_tasks w !! id = Some (observing (foldl observe (live_observation p (rw_clock u)) cs)) ∧
  sh_rejected_rows (rw_db w) !! id = Some (row_of_start p (rw_clock u)) ∧ rw_faults w = [].
Proof.
  intros Hf He Hs. cbn zeta. set (id := sh_rejected_seq (rw_db u)).
  set (u1 := (on_rejected_start codec p u).2).
  assert (rw_tasks u1 !! id = Some (spawned p) ∧ sh_rejected_rows (rw_db u1) !! id = Some (row_of_start p (rw_clock u)) ∧
          rw_faults u1 = [] ∧ rw_clock u1 = rw_clock u) as (H1 & H2 & H3 & H4).
  { unfold u1, on_rejected_start. rewrite (st_bind_run get_st _ u u u eq_refl).
    unfold mbind, st_bind. rewrite (on_shadow_run _ u Hf). cbn. by rewrite !lookup_insert_eq. }
  set (u2 := (run_to_wait f0 codec minutes id u1).2).
  assert (u2 = set_tasks <[id := observing (live_observation p (rw_clock u))]> u1) as Hu2.
  { unfold u2, run_to_wait. rewrite (st_bind_run get_st _ u1 u1 u1 eq_refl), H1, He. cbn. by rewrite H4. }
  destruct (deliver_all id cs (live_observation p (rw_clock u)) u2) as (D1 & D2 & D3 & D4).
  - rewrite Hu2. cbn. by rewrite lookup_insert_eq.
  - unfold live_observation, start_observation. by destruct (compute_thresholds _ _ _ _ _) as [[? ?] ?].
  - unfold uninterrupted. fold id u1 u2. cbn zeta in *. split_and!; [exact D1|rewrite D2, Hu2; exact H2|rewrite D3, Hu2; exact H3].
Qed.

(** Restarting in the middle of an observation makes no difference, on a
    pool that decodes JSONB: replaying the stored candles leaves the task the
    uninterrupted observation would be after the same candles, or, when one of
    them decides it, the row the uninterrupted observation would write now.
    (The observation must not have expired or be older than the replay window,
    the entry price must be known and the replay must not time out.) *)
Lemma restart_resumes_observation p (u w : R) r w' :
  let id := sh_rejected_seq (rw_db u) in
  let cs := candle_of_row (ss_symbol p) <$> select_ohlc_for_replay_window (ss_symbol p) (rw_clock u) (rw_clock w) (rw_ohlc w) in
  let v := uninterrupted true p cs u in
  rw_faults u = [] → rw_faults w = [] → deqb (ss_virtual_entry_price p) dzero = false →
  rw_clock w - rw_clock u <= window_max → rw_clock w < rw_clock u + minutes * MINUTES →
  sh_rejected_rows (rw_db w) !! id = Some (row_of_start p (rw_clock u)) →
  replay_rejected_observation_to_now to_float f0 true minutes window_max false id
    (row_to_shadow_rejected true (row_of_start p (rw_clock u))) w = (r, w') →
  match rw_tasks v !! id with
  | Some (observing n) =>
      if ob_done (on_state n)
      then sh_rejected_rows (rw_db w') !! id =
           sh_rejected_rows (rw_db (wake to_float f0 true id (mkRworld (rw_db v) (rw_tasks v) (rw_clock w) (rw_ohlc v) [])).2) !! id
      else rw_tasks w' !! id = rw_tasks v !! id ∧ rw_db w' = rw_db w
  | _ => False
  end.
Proof.
  intros id cs v Hfu Hf He Hwin Hexp Hrow E.
  assert (Forall (fun c => c_symbol c = ss_symbol p) cs) as Hsym by (apply Forall_fmap, Forall_true; done).
  destruct (uninterrupted_spec true p cs u Hfu He Hsym) as (Ht & Hr & Hfv). fold v id in Ht, Hr, Hfv. rewrite Ht.
  set (n0 := live_observation p (rw_clock u)) in *. set (n := foldl observe n0 cs) in *.
  unfold replay_rejected_observation_to_now in E. rewrite (st_bind_run get_st _ w w w eq_refl) in E. cbn [row_to_shadow_rejected rr_meta read_meta row_of_start rr_created_at rr_symbol rr_would_side] in E.
  rewrite decode_rejected_meta in E. rewrite (st_bind_run (lift_res (Ok _)) _ w _ w eq_refl) in E. cbn [rp_entry rp_sl_pct rp_tp_pct rp_be_trigger] in E.
  destruct (Z.ltb_spec window_max (rw_clock w - rw_clock u)); [lia|]. destruct (Z.leb_spec (rw_clock u + minutes * MINUTES) (rw_clock w)); [lia|].
  rewrite He in E. fold n0 cs in E. change (start_observation _ _ _ _ _ _ _) with n0 in E.
  rewrite replay_observation_run in E by (unfold n0, live_observation, start_observation; by destruct (compute_thresholds _ _ _ _ _) as [[? ?] ?]).
  fold n in E. destruct (ob_done (on_state n)) eqn:Hd.
  - apply (finish_observation_run true id _ n w _ r w' Hf Hrow) in E as (_ & _ & ->).
    assert (∃ out, ob_outcome (on_state n) = Some out) as [out Hout].
    { pose proof (observation_run cs n0 []) as Ho. cbn zeta in Ho. fold n in Ho.
      assert (on_state n0 = fresh_obs (on_entry n0)) as Hn0 by (unfold n0, live_observation, start_observation; by destruct (compute_thresholds _ _ _ _ _) as [[? ?] ?]).
      rewrite Hn0 in Ho. specialize (Ho eq_refl eq_refl). destruct (list_find (ends n0) cs) as [[i c]|]; [|exfalso].
      - destruct Ho as (_ & -> & _); [|eauto]. unfold extremes. cbn. split_and!; auto using at_least_refl. set_solver.
      - destruct Ho as (Ho & _); [|congruence]. unfold extremes. cbn. split_and!; auto using at_least_refl. set_solver. }
    rewrite Hout. set (v1 := mkRworld _ _ _ _ _). unfold wake. rewrite (st_bind_run get_st _ v1 v1 v1 eq_refl). cbn [v1 rw_tasks]. rewrite Ht, Hout, Hd.
    unfold end_task. fold v1. destruct (finish_observation to_float f0 true id out n v1) as [r2 w2] eqn:E2.
    apply (finish_observation_run true id _ n v1 _ r2 w2 eq_refl Hr) in E2 as (_ & _ & Hw2). cbn. by rewrite Hw2.
  - injection E as _ <-. cbn. by rewrite lookup_insert_eq.
Qed.

(** *** Without a JSONB codec *)
(** How a row ends when the meta column reads as text. *)
Definition forgotten (clock : Z) (row : ShadowRejectedRow (F := F)) : ShadowRejectedRow :=
  if decide (rr_terminated_at row = None) then
    if window_max <? clock - rr_created_at row then terminated row clock SHUTDOWN_MID_REPLAY None None
    else terminated row clock NO_TRIGGER (Some f0) (Some f0)
  else row.

Lemma replay_forgets times_out id row (w : R) : rw_faults w = [] → sh_rejected_rows (rw_db w) !! id = Some row →
  rr_terminated_at row = None →
  ∃ w', replay_rejected_observation_to_now to_float f0 false minutes window_max times_out id (row_to_shadow_rejected false row) w = (Ok tt, w') ∧
    rw_tasks w' = rw_tasks w ∧ rw_faults w' = [] ∧ rw_clock w' = rw_clock w ∧ rw_ohlc w' = rw_ohlc w ∧
    sh_rejected_rows (rw_db w') = <[id := forgotten (rw_clock w) row]> (sh_rejected_rows (rw_db w)).
Proof.
  intros Hf Hrow Hact. unfold replay_rejected_observation_to_now, forgotten. rewrite (st_bind_run get_st _ w w w eq_refl), decide_True by done.
  cbn [row_to_shadow_rejected rr_meta read_meta rr_created_at]. change (decode_meta []) with (Ok (mkRejectedParams (0 @ 0) (5 @ (-3)) (1 @ (-2)) (0 @ 0) (0 @ 0))).
  rewrite (st_bind_run (lift_res (Ok _)) _ w _ w eq_refl). cbn [rp_entry]. change (deqb (0 @ 0) dzero) with true.
  destruct (window_max <? rw_clock w - rr_created_at row); [by apply finalize_rejected_run|].
  destruct (_ <=? rw_clock w); by apply finalize_rejected_run.
Qed.

Lemma resume_forgets times_out l (w : R) : rw_faults w = [] → NoDup l.*1 →
  Forall (fun kv => sh_rejected_rows (rw_db w) !! kv.1 = Some kv.2 ∧ rr_terminated_at kv.2 = None) l →
  ∃ w', resume_rows to_float f0 false minutes window_max times_out ((fun kv => (kv.1, row_to_shadow_rejected false kv.2)) <$> l) w = (Ok tt, w') ∧
    rw_tasks w' = rw_tasks w ∧
    (∀ id row, (id, row) ∈ l → sh_rejected_rows (rw_db w') !! id = Some (forgotten (rw_clock w) row)) ∧
    (∀ id, id ∉ l.*1 → sh_rejected_rows (rw_db w') !! id = sh_rejected_rows (rw_db w) !! id).
Proof.
  revert w. induction l as [|[id row] l IH]; intros w Hf Hn Hl; [by eexists; split_and!; [done..|set_solver|done]|].
  apply NoDup_cons in Hn as [Hnin Hn]. apply Forall_cons in Hl as [[Hrow Hact] Hl]. cbn [fmap list_fmap resume_rows].
  destruct (replay_forgets (times_out id) id row w Hf Hrow Hact) as (w1 & E1 & Ht1 & Hf1 & Hc1 & Ho1 & Hr1).
  assert (attempt is_exception (replay_rejected_observation_to_now to_float f0 false minutes window_max (times_out id) id (row_to_shadow_rejected false row)) w = (Ok (Ok tt), w1)) as Ea
    by (unfold attempt; by rewrite E1).
  rewrite (st_bind_run _ _ _ _ _ Ea). destruct (IH w1 Hf1 Hn) as (w' & E & Ht & Hin & Hout).
  { apply Forall_forall. intros kv Hk. rewrite Forall_forall in Hl. destruct (Hl kv Hk) as [H1 H2].
    split; [|done]. rewrite Hr1, lookup_insert_ne; [done|]. cbn. intros ->. apply Hnin. cbn. apply (list_elem_of_fmap fst). eauto. }
  exists w'. split_and!; [exact E|congruence| |].
  - intros i r [[= -> ->]|Hi]%elem_of_cons; [|rewrite <- Hc1; by apply Hin]. rewrite Hout, Hr1 by done. by rewrite lookup_insert_eq.
  - intros i Hi. rewrite Hout, Hr1 by set_solver. rewrite lookup_insert_ne; [done|]. set_solver.
Qed.

(** On the pool of the execution service, which decodes no JSONB, a restart
    abandons every running observation: the entry price reads as 0, so every
    active row is written off as NO_TRIGGER with zero excursions (or as
    SHUTDOWN_MID_REPLAY when it is older than the replay window), whatever its
    candles, and no task is resumed. *)
Lemma restart_forgets_observations times_out (w : R) :
  rw_faults w = [] →
  ∃ w', resume_active_observations_on_startup to_float f0 false minutes window_max times_out w = (Ok tt, w') ∧
    rw_tasks w' = rw_tasks w ∧
    ∀ id, sh_rejected_rows (rw_db w') !! id = forgotten (rw_clock w) <$> sh_rejected_rows (rw_db w) !! id.
Proof.
  intros Hf. unfold resume_active_observations_on_startup. unfold mbind, st_bind. rewrite on_shadow_run by done. cbn [fst snd].
  set (act := filter rejected_active (map_to_list (sh_rejected_rows (rw_db w)))). set (l := merge_sort created_le act).
  assert (l ≡ₚ act) as Hperm by apply merge_sort_Permutation.
  assert (∀ id row, (id, row) ∈ l ↔ rr_terminated_at row = None ∧ sh_rejected_rows (rw_db w) !! id = Some row) as Hl.
  { intros id row. rewrite Hperm. unfold act. by rewrite list_elem_of_filter, elem_of_map_to_list. }
  set (w0 := mkRworld (rw_db w) (rw_tasks w) (rw_clock w) (rw_ohlc w) []).
  destruct (resume_forgets times_out l w0 eq_refl) as (w' & E & Ht & Hin & Hout).
  - rewrite Hperm. unfold act. apply NoDup_fmap_fst; [|apply NoDup_filter, NoDup_map_to_list].
    intros i x y [_ Hx]%list_elem_of_filter [_ Hy]%list_elem_of_filter. apply elem_of_map_to_list in Hx, Hy. congruence.
  - apply Forall_forall. intros [id row] [? ?]%Hl. done.
  - exists w'. split_and!; [exact E|done|]. intros id. destruct (sh_rejected_rows (rw_db w) !! id) as [row|] eqn:Hrow.
    + cbn. destruct (decide (rr_terminated_at row = None)) as [Ha|Ha]; [by apply Hin, Hl|].
      rewrite Hout; [cbn; rewrite Hrow; unfold forgotten; by rewrite decide_False|].
      intros ([i r] & -> & [? ?]%Hl)%list_elem_of_fmap. cbn in *. congruence.
    + cbn. rewrite Hout; [done|]. intros ([i r] & -> & [? ?]%Hl)%list_elem_of_fmap. cbn in *. congruence.
Qed.
End restart.

(** ** Every observation is written at most once *)
Section once.
Context {F : Type} (to_float : dec → F) (f0 : F) (codec : bool) (minutes window_max : Z).
Abbreviation R := (rworld (F := F)).
Abbreviation rows w := (sh_rejected_rows (rw_db w)).

(** The worker's steps; between them time passes, candles are stored and the
    next faults are arranged; a restart drops every task and resumes. *)
Inductive obs_step : R → R → Prop :=
| os_start p w : obs_step w (on_rejected_start codec p w).2
| os_run id w : obs_step w (run_to_wait f0 codec minutes id w).2
| os_candle id c w : obs_step w (deliver id c w).2
| os_wake id w : obs_step w (wake to_float f0 codec id w).2
| os_timeout id w : obs_step w (timeout to_float f0 codec id w).2
| os_time w t candles faults : rw_clock w <= t → obs_step w (mkRworld (rw_db w) (rw_tasks w) t candles faults)
| os_restart times_out w :
    obs_step w (resume_active_observations_on_startup to_float f0 codec minutes window_max times_out (stop_worker w).2).2.

Definition active_row (w : R) (id : Z) : Prop := ∃ row, rows w !! id = Some row ∧ rr_terminated_at row = None.
Definition obs_inv (w : R) : Prop :=
  (∀ id, is_Some (rw_tasks w !! id) → active_row w id) ∧
  (∀ id row, rows w !! id = Some row → id < sh_rejected_seq (rw_db w) ∧ (rr_terminated_at row = None ↔ rr_terminal_outcome row = None)).
Definition keeps_terminated (w w' : R) : Prop :=
  ∀ id row, rows w !! id = Some row → rr_terminated_at row ≠ None → rows w' !! id = Some row.

(** Code that at most terminates the row [id]. *)
Definition writes_at (id : Z) (w w' : R) : Prop :=
  rw_tasks w' = rw_tasks w ∧ sh_rejected_seq (rw_db w') = sh_rejected_seq (rw_db w) ∧
  (rows w' = rows w ∨ ∃ row at_ out mfe mae, rows w !! id = Some row ∧ rows w' = <[id := terminated row at_ out mfe mae]> (rows w)).

Lemma writes_none id w : writes_at id w w.
Proof. by split_and!; auto. Qed.
Lemma update_writes id at_ out mfe mae (w : R) r w' :
  on_shadow (update_shadow_rejected_terminal codec id at_ out mfe mae) w = (r, w') → writes_at id w w'.
Proof.
  unfold on_shadow, update_shadow_rejected_terminal.
  destruct (rw_faults w) as [|[] f]; [|intros [= _ <-]; apply (writes_none id w)|];
    (destruct (rows w !! id) as [row|] eqn:Hr; intros [= _ <-]; [|apply (writes_none id w)]; split_and!; [done..|right; by exists row, at_, out, mfe, mae]).
Qed.
Lemma finish_writes id out n (w : R) r w' : finish_observation to_float f0 codec id out n w = (r, w') → writes_at id w w'.
Proof.
  unfold finish_observation. intros E. st_inv; try apply writes_none; by eapply update_writes.
Qed.
Lemma finalize_writes id out mfe mae (w : R) r w' : finalize_rejected codec id out mfe mae w = (r, w') → writes_at id w w'.
Proof. unfold finalize_rejected. intros E. st_inv; by eapply update_writes. Qed.

Lemma writes_keep id w w' : writes_at id w w' → active_row w id → keeps_terminated w w'.
Proof.
  intros (_ & _ & [Hw|(row & at_ & out & mfe & mae & Hrow & Hw)]) (row' & Hr' & Ha) i r Hi Ht; rewrite Hw; [done|].
  rewrite lookup_insert_ne; [done|]. intros <-. congruence.
Qed.
Lemma writes_rows id w w' : writes_at id w w' → (∀ i row, rows w !! i = Some row → i < sh_rejected_seq (rw_db w) ∧ (rr_terminated_at row = None ↔ rr_terminal_outcome row = None)) →
  ∀ i row, rows w' !! i = Some row → i < sh_rejected_seq (rw_db w') ∧ (rr_terminated_at row = None ↔ rr_terminal_outcome row = None).
Proof.
  intros (_ & -> & [->|(row & at_ & out & mfe & mae & Hrow & ->)]) Hi i r; [apply Hi|].
  rewrite lookup_insert_Some. intros [[<- <-]|[_ ?]]; [|by apply Hi]. split; [by apply (Hi _ _ Hrow)|done].
Qed.
Lemma writes_active id i w w' : writes_at id w w' → i ≠ id → active_row w i → active_row w' i.
Proof.
  intros (_ & _ & [Hr|(row & at_ & out & mfe & mae & Hrow & Hr)]) Hne (x & Hx & Ha); exists x; rewrite Hr; [done|].
  by rewrite lookup_insert_ne.
Qed.

Lemma end_task_inv {A} id (m : ST R A) w : obs_inv w → is_Some (rw_tasks w !! id) → writes_at id w (m w).2 →
  obs_inv (end_task id m w).2 ∧ keeps_terminated w (end_task id m w).2.
Proof.
  intros [Ht Hr] Hid Hw. unfold end_task. destruct (m w) as [r w1]. cbn [snd] in *. pose proof (writes_keep id w w1 Hw (Ht _ Hid)) as Hk.
  split; [|exact Hk]. split; [|exact (writes_rows id w w1 Hw Hr)]. cbn. intros i. rewrite lookup_delete_is_Some.
  intros [Hne Hi]. rewrite (proj1 Hw) in Hi. exact (writes_active id i w w1 Hw (not_eq_sym Hne) (Ht _ Hi)).
Qed.

(** Replaying one row: a write, or a task for it. *)
Lemma replay_writes times_out id row (w : R) r w' :
  replay_rejected_observation_to_now to_float f0 codec minutes window_max times_out id row w = (r, w') →
  writes_at id w w' ∨ rw_db w' = rw_db w ∧ ∃ n, rw_tasks w' = <[id := observing n]> (rw_tasks w).
Proof.
  intros E. unfold replay_rejected_observation_to_now in E. rewrite (st_bind_run get_st _ w w w eq_refl) in E.
  destruct (decode_meta (rr_meta row)) as [m|e]; [|injection E as _ <-; left; apply writes_none].
  rewrite (st_bind_run (lift_res (Ok m)) _ w m w eq_refl) in E.
  destruct (window_max <? _); [left; by eapply finalize_writes|]. destruct (_ <=? rw_clock w); [left; by eapply finalize_writes|].
  destruct (deqb _ _); [left; by eapply finalize_writes|]. destruct times_out; [left; by eapply finalize_writes|].
  destruct (replay_observation _ _) as [d n]. destruct d; [left; by eapply finish_writes|]. injection E as _ <-. right. split; [done|]. by exists n.
Qed.

Lemma resume_rows_inv times_out l w : obs_inv w → NoDup l.*1 →
  (∀ id, id ∈ l.*1 → active_row w id ∧ rw_tasks w !! id = None) →
  let w' := (resume_rows to_float f0 codec minutes window_max times_out l w).2 in obs_inv w' ∧ keeps_terminated w w'.
Proof.
  revert w. induction l as [|[id row] l IH]; intros w Hi Hn Hl; cbn zeta; [by split; [|intros ? ?]|].
  cbn [fmap list_fmap] in Hn. apply NoDup_cons in Hn as [Hnin Hn]. cbn [resume_rows].
  destruct (attempt is_exception (replay_rejected_observation_to_now to_float f0 codec minutes window_max (times_out id) id row) w) as [x w1] eqn:Ea.
  destruct (Hl id) as [Hact Hnone]; [set_solver|].
  assert (obs_inv w1 ∧ keeps_terminated w w1 ∧ ∀ i, i ∈ l.*1 → active_row w1 i ∧ rw_tasks w1 !! i = None) as (H1 & H2 & H3).
  { apply attempt_inv in Ea as (y & E & _). destruct Hi as [Ht Hr]. apply replay_writes in E as [Hw|(Hdb & n & Hts)].
    - split_and!; [split| |].
      + intros i Hi. apply (writes_active id i w w1 Hw); [|apply Ht]; destruct Hw as (Hts & _); rewrite Hts in Hi; [|done].
        intros ->. rewrite Hnone in Hi. by destruct Hi.
      + exact (writes_rows id w w1 Hw Hr).
      + by apply (writes_keep id).
      + intros i Hi'. destruct (Hl i) as [Ha Hno]; [set_solver|]. assert (i ≠ id) by (intros ->; done).
        split; [by apply (writes_active id i w)|]. destruct Hw as (-> & _). done.
    - unfold obs_inv, keeps_terminated, active_row in *. rewrite Hdb, Hts. split_and!; [|done|done|].
      + intros i. rewrite lookup_insert_is_Some. intros [<-|[_ ?]]; [done|by apply Ht].
      + intros i Hi'. destruct (Hl i) as [Ha Hno]; [set_solver|]. split; [done|]. rewrite lookup_insert_ne; [done|]. by intros ->. }
  unfold mbind, st_bind. rewrite Ea. destruct x as [x|e]; [|done]. destruct (IH w1 H1 Hn H3) as [H4 H5]. split; [exact H4|].
  intros i r Hi' Htm. apply H5; [by apply H2|done].
Qed.

Lemma obs_step_inv w w' : obs_inv w → obs_step w w' → obs_inv w' ∧ keeps_terminated w w'.
Proof.
  intros Hi Hs. assert (obs_inv w ∧ keeps_terminated w w) as Hid by (by split; [|intros ? ?]).
  destruct Hs as [p w|id w|id c w|id w|id w|w t cs fs Ht|tos w].
  - unfold on_rejected_start. rewrite (st_bind_run get_st _ w w w eq_refl). unfold mbind, st_bind, on_shadow.
    destruct (rw_faults w) as [|[] f]; cbn; [|done|].
    all: destruct Hi as [Ht Hr]; assert (rows w !! sh_rejected_seq (rw_db w) = None) as Hnew
      by (destruct (rows w !! sh_rejected_seq (rw_db w)) eqn:E; [apply Hr in E; lia|done]).
    all: unfold obs_inv, keeps_terminated, active_row; cbn; split_and!.
    1,4: intros id; rewrite lookup_insert_is_Some; intros [<-|[Hne Hi]];
      [eexists; by rewrite lookup_insert_eq|destruct (Ht _ Hi) as (x & Hx & ?); exists x; by rewrite lookup_insert_ne].
    1,3: intros id row; rewrite lookup_insert_Some; intros [[<- <-]|[_ Hx]]; [split; [lia|done]|destruct (Hr _ _ Hx); split; [lia|done]].
    all: intros id row Hx _; rewrite lookup_insert_ne; [done|]; intros <-; congruence.
  - unfold run_to_wait. rewrite (st_bind_run get_st _ w w w eq_refl). destruct (rw_tasks w !! id) as [[p|n]|] eqn:Et; [|done..].
    destruct (deqb _ _); [|].
    + apply end_task_inv; [done|by eauto|]. match goal with |- writes_at _ _ (?m w).2 => destruct (m w) as [r w1] eqn:E end. cbn. st_inv; by eapply update_writes.
    + cbn. split; [|by intros ? ?]. destruct Hi as [Ht Hr]. split; [|done]. cbn. intros i. rewrite lookup_insert_is_Some.
      intros [<-|[_ ?]]; apply Ht; [by eauto|done].
  - unfold deliver, modify. cbn. destruct (rw_tasks w !! id) as [[p|n]|] eqn:Et; [done| |done]. case_bool_decide; [|done].
    split; [|by intros ? ?]. destruct Hi as [Ht Hr]. split; [|done]. cbn. intros i. rewrite lookup_insert_is_Some.
    intros [<-|[_ ?]]; apply Ht; [by eauto|done].
  - unfold wake. rewrite (st_bind_run get_st _ w w w eq_refl). destruct (rw_tasks w !! id) as [[p|n]|] eqn:Et; [done| |done].
    destruct (ob_outcome _); [|done]. destruct (ob_done _); [|done]. apply end_task_inv; [done|by eauto|].
    destruct (finish_observation _ _ _ _ _ _ _) eqn:E. by eapply finish_writes.
  - unfold timeout. rewrite (st_bind_run get_st _ w w w eq_refl). destruct (rw_tasks w !! id) as [[p|n]|] eqn:Et; [done| |done].
    destruct (_ && _); [|done]. apply end_task_inv; [done|by eauto|]. destruct (finish_observation _ _ _ _ _ _ _) eqn:E. by eapply finish_writes.
  - split; [exact Hi|by intros ? ?].
  - set (w0 := (stop_worker w).2). assert (obs_inv w0) as Hi0. { destruct Hi as [_ Hr]. split; [|done]. intros id [x Hx]. cbn in Hx. by rewrite lookup_empty in Hx. }
    unfold resume_active_observations_on_startup, mbind, st_bind. unfold on_shadow. destruct (rw_faults w0) as [|[] f] eqn:Ef; [|split; [exact Hi0|intros id row Hx _; exact Hx]|].
    all: set (w1 := mkRworld _ _ _ _ _); set (l := select_all_active_shadow_rejected codec (rw_db w0)).
    all: assert (∀ id, id ∈ l.*1 → active_row w1 id ∧ rw_tasks w1 !! id = None) as Hl by
      (unfold l, select_all_active_shadow_rejected; rewrite <- list_fmap_compose; intros id ([i row] & -> & Hin)%list_elem_of_fmap;
       rewrite merge_sort_Permutation in Hin; apply list_elem_of_filter in Hin as [Ha Hin]; apply elem_of_map_to_list in Hin;
       split; [by exists row|apply lookup_empty]).
    all: assert (NoDup l.*1) as Hn by
      (unfold l, select_all_active_shadow_rejected; rewrite <- list_fmap_compose, merge_sort_Permutation;
       apply (NoDup_fmap_fst (filter rejected_active (map_to_list (sh_rejected_rows (rw_db w0)))));
       [intros i x y [_ Hx]%list_elem_of_filter [_ Hy]%list_elem_of_filter; apply elem_of_map_to_list in Hx, Hy; congruence
       |apply NoDup_filter, NoDup_map_to_list]).
    all: exact (resume_rows_inv tos l w1 Hi0 Hn Hl).
Qed.

Definition no_observations (clock : Z) : R := mkRworld (mkShadowDb ∅ ∅ 0 0) ∅ clock ∅ [].
Lemma no_observations_inv clock : obs_inv (no_observations clock).
Proof. split; cbn; [intros id [? Hx]|intros id row Hx]; by rewrite lookup_empty in Hx. Qed.
Lemma obs_steps_inv w w' : obs_inv w → rtc obs_step w w' → obs_inv w' ∧ keeps_terminated w w'.
Proof.
  intros Hi Hr. induction Hr as [|w1 w2 w3 Hs _ IH]; [by split; [|intros ? ?]|]. destruct (obs_step_inv _ _ Hi Hs) as [H1 H2].
  destruct (IH H1) as [H3 H4]. split; [done|]. intros id row Hx Ht. apply H4; [by apply H2|done].
Qed.

(** In every run of the worker, restarts, timeouts and failed statements
    included, a row carries an outcome exactly when it is terminated, only
    active rows have a task, and once an observation is terminated no later
    step rewrites its row. *)
Lemma observation_written_once clock w w' :
  rtc obs_step (no_observations clock) w → rtc obs_step w w' →
  (∀ id row, rows w !! id = Some row → (rr_terminated_at row = None ↔ rr_terminal_outcome row = None) ∧
     (is_Some (rw_tasks w !! id) → rr_terminated_at row = None)) ∧
  ∀ id row, rows w !! id = Some row → rr_terminated_at row ≠ None → rows w' !! id = Some row.
Proof.
  intros Hr Hr'. destruct (obs_steps_inv _ _ (no_observations_inv clock) Hr) as [[Ht Hrow] _]. split.
  - intros id row Hx. split; [by apply (Hrow _ _ Hx)|]. intros Hs. destruct (Ht _ Hs) as (y & Hy & ?). congruence.
  - by apply obs_steps_inv.
Qed.
End once.

(** ** Variants *)
Section variant_facts.
Context `{PgNumeric} {F : Type} (to_float : dec → F) (f0 : F) (codec : bool).
Context (seed_balance : dec) (slippage_of : slippage_model) (slippage_values : gmap string dec) (fee_rate : dec).
Context (hours_us seconds_us : dec → Z) (window_max : Z).
Abbreviation VWd := (vworld (F := F)).

(** The meta column gives the overrides back. *)
Lemma dict_get_overrides k (l : list (string * dec)) : NoDup l.*1 →
  dict_get k ((fun kv => (kv.1, JStr (dec_str kv.2))) <$> l) = (fun d => JStr (dec_str d)) <$> (list_to_map l : gmap string dec) !! k.
Proof.
  induction l as [|[k' v] l IH]; intros Hn; [done|]. cbn [fmap list_fmap] in Hn. apply NoDup_cons in Hn as [_ Hn].
  rewrite list_to_map_cons, fmap_cons. cbn [dict_get fst snd]. case_bool_decide as Hk; [subst k'|].
  - by rewrite lookup_insert_eq.
  - rewrite lookup_insert_ne by done. by apply IH.
Qed.
Lemma overrides_roundtrip symbol ovr :
  decode_overrides (overrides_meta symbol ovr) = variant_overrides ovr ∧ variant_symbol_from_row (overrides_meta symbol ovr) = Ok symbol.
Proof.
  split; [|done]. unfold decode_overrides, variant_overrides. cbn [overrides_meta dict_get String.eqb Ascii.eqb Bool.eqb].
  assert (∀ k dflt, meta_decimal ((fun kv => (kv.1, JStr (dec_str kv.2))) <$> map_to_list ovr) k dflt =
    dec_of_str (match ovr !! k with Some v => dec_str v | None => dflt end)) as Hg.
  { intros k dflt. unfold meta_decimal. rewrite dict_get_overrides by apply NoDup_fst_map_to_list. rewrite list_to_map_to_list.
    by destruct (ovr !! k). }
  unfold collect_params. cbn -[meta_decimal dec_of_str map_to_list fmap]. by rewrite !Hg.
Qed.

(** An exchange without positions sees nothing in a candle. *)
Definition flat (s : pe_state) : Prop := active_positions s = ∅ ∧ pending_sl_tp_fills s = [] ∧ terminals s = [].
Lemma on_candle_flat cfg c s : flat s → ∃ s', on_candle cfg c s = (Ok tt, s') ∧ flat s' ∧ tables s' = tables s ∧ uuids s' = uuids s.
Proof.
  intros (Ha & Hp & Ht). unfold on_candle. destruct (c_is_closed c); [|by exists s].
  set (s1 := set_market (c_symbol c) (c_close c) c s). exists s1.
  rewrite (st_bind_run (modify (set_market (c_symbol c) (c_close c) c)) _ s tt s1 eq_refl).
  assert (check_sl_tp_crosses c s1 = (Ok tt, s1)) as Hc.
  { unfold check_sl_tp_crosses, check_crosses. rewrite (st_bind_run get_st _ s1 s1 s1 eq_refl). cbn [s1 set_market active_positions]. by rewrite Ha. }
  rewrite (st_bind_run _ _ _ _ _ Hc). unfold drain_pending. rewrite (st_bind_run get_st _ s1 s1 s1 eq_refl).
  cbn [s1 set_market pending_sl_tp_fills]. by rewrite Hp.
Qed.
Definition tracked (sd : side) (v : variant_state) (c : candle) : variant_state :=
  let '(b, w) := track sd c (vs_best v) (vs_worst v) in mkVariantState b w.
Lemma variant_candle_flat cfg sd entry o c s v : flat s → c_is_closed c = true →
  variant_candle cfg sd entry o c (s, v) = (Ok tt, (s, tracked sd v c)).
Proof.
  intros (Ha & _) Hc. unfold variant_candle. rewrite Hc. cbn [negb]. unfold modify, tracked.
  rewrite (st_bind_run (fun _ => _) _ (s, v) tt (s, tracked sd v c)); [|unfold tracked; by destruct (track _ _ _ _)].
  rewrite (st_bind_run get_st _ _ _ _ eq_refl). by rewrite Ha, lookup_empty.
Qed.
Lemma replay_loop_flat cfg sd entry o cs s v : flat s → Forall (fun c => c_is_closed c = true) cs →
  ∃ s', replay_candle_loop cfg sd entry o cs (s, v) = (Ok false, (s', foldl (tracked sd) v cs)) ∧ flat s' ∧ tables s' = tables s ∧ uuids s' = uuids s.
Proof.
  intros Hs Hcs. revert s v Hs. induction Hcs as [|c cs Hc _ IH]; intros s v Hs; [by exists s|]. cbn [replay_candle_loop foldl].
  destruct (on_candle_flat cfg c s Hs) as (s1 & E1 & H1 & Ht1 & Hu1).
  assert (on_pe (on_candle cfg c) (s, v) = (Ok tt, (s1, v))) as Hpe by (unfold on_pe; by rewrite E1).
  rewrite (st_bind_run _ _ _ _ _ Hpe), (st_bind_run _ _ _ _ _ (variant_candle_flat cfg sd entry o c s1 v H1 Hc)).
  rewrite (st_bind_run get_st _ _ _ _ eq_refl). cbn [fst]. rewrite (proj2 (proj2 H1)).
  destruct (IH s1 (tracked sd v c) H1) as (s' & E & H2 & Ht2 & Hu2). exists s'. by rewrite Ht2, Hu2.
Qed.

(** Starting a seeded exchange puts the seed's position in the book and writes
    nothing. *)
Lemma hydrate_frame rows0 s r s' : hydrate_rows rows0 s = (r, s') →
  tables s' = tables s ∧ pending_sl_tp_fills s' = pending_sl_tp_fills s ∧ terminals s' = terminals s.
Proof.
  revert s. induction rows0 as [|x rows0 IH]; intros s E; cbn in E; [by injection E as _ <-|]. st_inv; [by apply IH in E|done..].
Qed.
Lemma start_seeded cfg sd q sub s r s' : seed_open_state cfg = Some sd → start_consuming cfg q sub s = (r, s') →
  tables s' = tables s ∧ pending_sl_tp_fills s' = pending_sl_tp_fills s ∧ terminals s' = terminals s ∧
  (is_ok r = true → ∃ pos, active_positions s' !! sd_symbol sd = Some pos ∧ p_trade_id pos = Some (sd_trade_id sd) ∧
     p_side pos = Some (sd_side sd) ∧ p_qty pos = Some (sd_qty sd) ∧ p_sl_price pos = sd_sl_price sd ∧ is_Some (p_tpsl_mode pos)).
Proof.
  intros Hsd E. unfold start_consuming in E. destruct (bool_decide _); [|by injection E as <- <-].
  apply st_bind_cases in E as [(u & s1 & Eq & E)|(e & Eq & ->)]; injection Eq as Hq <-; [|by split_and!].
  apply st_bind_cases in E as [([] & s1 & Eh & E)|(e & Eh & ->)]; unfold hydrate_active_positions in Eh; st_inv;
    apply hydrate_frame in Eh as (? & ? & ?); [|by split_and!].
  unfold apply_seed_open_state. rewrite Hsd. cbn. split_and!; [done..|]. intros _. eexists. rewrite lookup_insert_eq. split_and!; [done..|]. by eexists.
Qed.

Definition called_outside (w : VWd) : VWd :=
  mkVworld (vw_db w) (vw_paper w) (vw_live w) (vw_tasks w) (vw_clock w) (vw_ohlc w) (vw_uuids w) (tail (vw_faults w)).
Lemma outside_call_run (w : VWd) : ∃ q, outside_call w = (Ok q, called_outside w).
Proof. unfold outside_call, called_outside. destruct (vw_faults w) as [|[] f]; by eexists. Qed.

(** A restart never notices what happened to a variant while the service
    was down: the replay runs the stored candles through an exchange whose book
    is still empty, so that no candle, not even one through the stop or the
    target, decides the variant; its row and the paper tables stay as they were
    and it goes on with the position, stop and target it was opened with. *)
Lemma replay_misses_every_cross id row o symbol (w : VWd) r w' :
  decode_overrides (vr_meta row) = Ok o → variant_symbol_from_row (vr_meta row) = Ok symbol →
  vw_clock w - vr_created_at row <= window_max → check_parent_open (vr_parent_kind row) (vr_parent_trade_id row) w = true →
  vw_clock w < vr_created_at row + hours_us (ov_max_duration_hours o) →
  replay_shadow_variant_to_now to_float f0 codec seed_balance fee_rate hours_us window_max false id row w = (r, w') →
  let cs := candle_of_row symbol <$> select_ohlc_for_replay_window symbol (vr_created_at row) (vw_clock w) (vw_ohlc w) in
  let seed := variant_seed symbol (vr_parent_trade_id row) (vr_side row) (vr_qty row) (vr_entry_price row) o in
  vw_db w' = vw_db w ∧ vw_paper w' = vw_paper w ∧
  (r = Ok tt → ∃ t pos, vw_tasks w' !! id = Some t ∧ terminals (vt_pe t) = [] ∧
     vt_state t = foldl (tracked (vr_side row)) (mkVariantState (vr_entry_price row) (vr_entry_price row)) cs ∧
     active_positions (vt_pe t) !! symbol = Some pos ∧ p_trade_id pos = Some (vr_parent_trade_id row) ∧
     p_qty pos = Some (vr_qty row) ∧ p_sl_price pos = sd_sl_price seed).
Proof.
  intros Ho Hsym Hwin Hpar Hexp E cs seed. unfold replay_shadow_variant_to_now in E.
  rewrite (st_bind_run get_st _ w w w eq_refl), Ho, (st_bind_run (lift_res (Ok o)) _ w o w eq_refl) in E.
  destruct (Z.ltb_spec window_max (vw_clock w - vr_created_at row)); [lia|]. rewrite Hpar in E. cbn [negb] in E.
  destruct (Z.leb_spec (vr_created_at row + hours_us (ov_max_duration_hours o)) (vw_clock w)); [lia|].
  rewrite Hsym, (st_bind_run (lift_res (Ok symbol)) _ w symbol w eq_refl) in E. fold seed cs in E.
  set (cfg := replay_config seed_balance fee_rate (vr_bot_id row) seed) in *.
  change (paper_exchange_init cfg (vw_clock w) (vw_paper w)) with (Ok (initial_state (vw_clock w) (vw_paper w))) in E.
  set (s0 := initial_state (vw_clock w) (vw_paper w)) in *. rewrite (st_bind_run (lift_res (Ok s0)) _ w s0 w eq_refl) in E.
  set (v0 := mkVariantState (vr_entry_price row) (vr_entry_price row)) in *.
  assert (Forall (fun c => c_is_closed c = true) cs) as Hcs by (apply Forall_fmap, Forall_true; done).
  destruct (replay_loop_flat cfg (vr_side row) (vr_entry_price row) o cs (now_on w s0) v0) as (s1 & E1 & Hflat & Ht1 & Hu1); [done|done|].
  assert (run_exchange (replay_candle_loop cfg (vr_side row) (vr_entry_price row) o cs) (s0, v0) w =
    (Ok (false, (s1, foldl (tracked (vr_side row)) v0 cs)), w)) as Hrun.
  { unfold run_exchange. cbn [fst snd]. rewrite E1. cbn. rewrite Ht1, Hu1. by destruct w. }
  rewrite (st_bind_run _ _ _ _ _ Hrun) in E.
  set (v1 := foldl (tracked (vr_side row)) v0 cs) in *.
  destruct (outside_call_run w) as [q1 Hq1]. rewrite (st_bind_run _ _ _ _ _ Hq1) in E.
  destruct (outside_call_run (called_outside w)) as [q2 Hq2]. rewrite (st_bind_run _ _ _ _ _ Hq2) in E.
  apply st_bind_cases in E as [(y & w1 & Es & E)|(e & Es & ->)]; unfold run_exchange, on_pe in Es; cbn [fst snd] in Es;
    destruct (start_consuming cfg _ _ _) as [r2 s2] eqn:Ec; apply (start_seeded cfg seed) in Ec as (Htab & _ & Hterm & Hpos); try done;
    destruct r2 as [[]|e2]; cbn in Es; simplify_eq/=.
  - destruct Hpos as (pos & ? & ? & ? & ? & ? & ?); [done|]. unfold modify in E. injection E as <- <-. split_and!; [done..|]. intros _. do 2 eexists. cbn. rewrite lookup_insert_eq. split_and!; try done.
    cbn. rewrite Hterm. apply Hflat.
  - done.
Qed.

(** A variant of a paper trade that reaches its own stop closes the parent:
    the exchange of the variant writes the paper tables of the bot, so that the
    parent's row in paper_trades is closed with reason 'sl' and the bot's
    position is deleted, although the bot's own stop was not reached. *)
Lemma variant_stop_closes_parent p v o id c sl trade (w w1 w2 : VWd) :
  start_variant codec seed_balance slippage_of slippage_values fee_rate seconds_us p v w = (Ok id, w1) →
  variant_overrides (sv_overrides v) = Ok o → paper_trades (vw_paper w) !! sp_parent_trade_id p = Some trade →
  sd_sl_price (variant_seed (sp_symbol p) (sp_parent_trade_id p) (sp_side p) (sp_qty p) (sp_entry_price p) o) = Some sl →
  c_is_closed c = true → c_symbol c = sp_symbol p → in_range (c_low c) sl (c_high c) = true →
  exchange_candle id c w1 = (Ok tt, w2) →
  ∃ trade', paper_trades (vw_paper w2) !! sp_parent_trade_id p = Some trade' ∧ pt_status trade' = st_closed ∧
    pt_close_reason trade' = Some "sl" ∧ pt_bot_id trade' = pt_bot_id trade ∧
    paper_positions (vw_paper w2) !! (sp_bot_id p, sp_symbol p) = None.
Proof.
  intros E Ho Htr Hsl Hc Hs Hin E2. unfold start_variant in E. rewrite Ho, (st_bind_run (lift_res (Ok o)) _ w o w eq_refl) in E.
  rewrite (st_bind_run get_st _ w w w eq_refl) in E. apply st_bind_ok_inv in E as ([i row] & wa & Ea & E).
  assert (vw_paper wa = vw_paper w) as Hpa.
  { unfold on_shadow_tables in Ea. destruct (vw_faults w) as [|[] f]; [|done|]; destruct (insert_shadow_variant _ _ _ _ _ _ _ _ _ _ _); by injection Ea as _ <-. }
  set (seed := variant_seed _ _ _ _ _ o) in *. set (cfg := worker_config seed_balance slippage_of slippage_values fee_rate (sp_bot_id p) seed) in *.
  cbn zeta in E. apply st_bind_ok_inv in E as (s0 & wb & Eb & E). unfold lift_res in Eb. injection Eb as Eb <-.
  assert (s0 = initial_state (vw_clock w) (vw_paper w)) as ->.
  { unfold paper_exchange_init in Eb. destruct (negb _); [done|]. cbn in Eb. by injection Eb. }
  destruct (outside_call_run wa) as [q1 Hq1]. rewrite (st_bind_run _ _ _ _ _ Hq1) in E.
  destruct (outside_call_run (called_outside wa)) as [q2 Hq2]. rewrite (st_bind_run _ _ _ _ _ Hq2) in E.
  apply st_bind_ok_inv in E as (x & wc & Ec & E). unfold run_exchange, on_pe in Ec. cbn [fst snd] in Ec.
  destruct (start_consuming cfg _ _ _) as [[[]|e] s1] eqn:Es; [|done]. cbn in Ec. injection Ec as <- <-.
  apply (start_seeded cfg seed) in Es as (Htab & Hpend & _ & Hpos); [|done]. destruct (Hpos eq_refl) as (pos & Hp & Htid & Hsd & Hq & Hpsl & tm & Htm).
  unfold modify in E. rewrite (st_bind_run (fun _ => _) _ _ tt _ eq_refl) in E. injection E as <- <-.
  unfold exchange_candle, with_task in E2. cbn [vw_tasks set_variant_tasks fst snd] in E2. rewrite lookup_insert_eq in E2. cbn [vt_cfg vt_pe vt_state fst snd] in E2.
  set (s2 := now_on _ _) in E2. unfold on_pe in E2. destruct (on_candle cfg c s2) as [r s3] eqn:Eon. injection E2 as -> <-. cbn [vw_paper].
  apply (on_candle_stop cfg c s2 pos (sp_side p) (sp_qty p) tm sl) in Eon; try done; [|cbn; by rewrite Hs|congruence].
  apply drain_full_close_ok in Eon as (ex & ef & total & [Hex (sd' & tid & ep & pf & pnl & _ & Htid' & _ & _ & _ & _ & _ & order & exec & at_ & Ho' & Hx' & Hb) _]).
  cbn in Hex, Hp. rewrite Hs, Hp in Hex. injection Hex as <-. rewrite Htid in Htid'. injection Htid' as <-.
  apply close_body_ok in Hb as (x' & pnl' & fees' & oid & ee & _ & _ & Ht & Hps & _); [|done..]. cbn in Ht, Hps.
  rewrite Ht, Hps, Htab. cbn [sd_trade_id seed variant_seed]. rewrite lookup_alter_eq. cbn. rewrite Hpa, Htr. cbn. eexists. split_and!; [done..|].
  rewrite Hs. apply lookup_delete_eq.
Qed.
End variant_facts.

(** ** Concrete runs *)
Section witnesses.
#[local] Existing Instance pg_half_away.
Definition demo_start : ShadowRejectedStart :=
  mkShadowStart 1 "bot" "BTCUSDT" LONG (100 @ 0) (1 @ (-2)) (3 @ (-2)) (1 @ (-2)) (0 @ 0) 0.
Definition demo_ohlc : ohlc_table :=
  {[("BTCUSDT", 1 * MINUTES, "binance") := mkOhlcRow (100 @ 0) (1015 @ (-1)) (995 @ (-1)) (101 @ 0) (1 @ 0);
    ("BTCUSDT", 2 * MINUTES, "binance") := mkOhlcRow (101 @ 0) (102 @ 0) (100 @ 0) (101 @ 0) (1 @ 0)]}.
Definition demo_obs_start : rworld (F := dec) := no_observations 0.
Definition demo_obs_down : rworld (F := dec) :=
  mkRworld (mkShadowDb ∅ {[0 := row_of_start demo_start 0]} 0 1) ∅ (3 * MINUTES) demo_ohlc [].
Definition demo_obs_candles : list candle :=
  candle_of_row "BTCUSDT" <$> select_ohlc_for_replay_window "BTCUSDT" 0 (3 * MINUTES) demo_ohlc.

Lemma observation_classifies_witness :
  let o := on_state (foldl observe (live_observation 60 demo_start 0) (demo_obs_candles ++ [demo_candle 3 100 104 98 99])) in
  ob_outcome o = Some WOULD_SL ∧ ob_be_triggered o = true.
Proof.
  pose proof (observation_classifies (live_observation 60 demo_start 0) (demo_obs_candles ++ [demo_candle 3 100 104 98 99]) eq_refl) as Hc.
  cbn zeta in *. vm_compute in Hc. destruct Hc as (_ & Hout & Hbe & _). split; vm_compute; done.
Defined.

Definition demo_obs_run : rworld (F := dec) :=
  let w1 := (on_rejected_start true demo_start demo_obs_start).2 in
  let w2 := (run_to_wait dzero true 60 0 w1).2 in
  let w3 := (deliver 0 (demo_candle 3 100 104 98 99) w2).2 in
  (wake (fun d => d) dzero true 0 w3).2.

Definition demo_payload : ShadowStartPayload := mkStartPayload 1 kind_paper "bot" "BTCUSDT" buy (100 @ 0) (2 @ 0).
Definition demo_variant : ShadowVariant := mkVariant "tight" {["sl_pct" := 2 @ (-2); "tp_pct" := 5 @ (-1)]}.
Definition demo_vworld : vworld (F := dec) := mkVworld (mkShadowDb ∅ ∅ 0 0) (tables (demo_open live)) empty_live ∅ 0 ∅ (uuids (demo_open live)) [].
Definition demo_variant_run : res Z * vworld (F := dec) :=
  start_variant true (1000 @ 0) m_fixed_pct {["fixed_slippage_pct" := 0 @ 0]} (6 @ (-4)) (fun d => 0) demo_payload demo_variant demo_vworld.

Definition demo_variant_closed : res unit * vworld (F := dec) := exchange_candle 0 (demo_candle 1 100 101 97 99) demo_variant_run.2.

Definition demo_variant_row : ShadowVariantRow (F := dec) :=
  mkVariantRow 1 "bot" "tight" buy (100 @ 0) (2 @ 0) 0 None None None None None (overrides_meta "BTCUSDT" (sv_overrides demo_variant)) kind_paper.
Definition demo_crossed : vworld (F := dec) :=
  mkVworld (mkShadowDb {[0 := demo_variant_row]} ∅ 1 0) (tables (demo_open live)) empty_live ∅ (3 * MINUTES)
    {[("BTCUSDT", 1 * MINUTES, "binance") := mkOhlcRow (100 @ 0) (101 @ 0) (91 @ 0) (99 @ 0) (1 @ 0)]} (uuids (demo_open live)) [].
Definition demo_replay : res unit * vworld (F := dec) :=
  replay_shadow_variant_to_now (fun d => d) dzero true (1000 @ 0) (6 @ (-4)) (fun _ => 240 * MINUTES) (480 * MINUTES) false 0 demo_variant_row demo_crossed.
End witnesses.
