(* ===== verification/Polls.v ===== *)
(** * The scheduled polls of the execution service

    Models services/execution/app/{audit,equity_snapshot,funding_fee_poll}.py,
    the statements of packages/db/queries/{equity,funding}.py and the PnL audit
    of execution.py, and the grouping of bots by sub-account in main.py.  The
    adapters share the state [E].  Acquiring a connection and every statement
    draw the next of [pl_faults]; the tables only these ticks write are
    [monitor_db], the gauge [virtual_balance] included. *)

From S2P Require Import Prelude Dec Float64 PyNum Sizing PaperDb PaperExchange ExecDb Exchange Lifecycle.
Open Scope Z_scope.

(** ** Rows *)
Record equity_row := mkEquityRow {
  eq_bot_id : string; eq_snapshot_at : Z; eq_wallet_balance : dec; eq_available_balance : dec; eq_total_equity : dec;
  eq_margin_balance : dec; eq_unrealized_pnl : dec;
}.
Record funding_row := mkFundingRow { fr_bot_id : string; fr_symbol : string; fr_settled_at : Z; fr_funding : dec }.
Record delta_row := mkDeltaRow {
  dl_sub_account : string; dl_audit_run_at : Z; dl_window_start : Z; dl_window_end : Z;
  dl_cumulative_bybit : dec; dl_cumulative_db : dec; dl_delta : dec;
}.
Record monitor_db := mkMonitorDb {
  bot_equity_snapshots : list equity_row; funding_fees : list funding_row; trade_pnl_deltas : list delta_row;
  virtual_balance : gmap string b64;
}.

Record pworld (E : Type) := mkPworld {
  pl_exchange : E; pl_live : live_db; pl_monitor : monitor_db; pl_clock : Z; pl_faults : list bool;
}.
Arguments mkPworld {E}. Arguments pl_exchange {E}. Arguments pl_live {E}. Arguments pl_monitor {E}.
Arguments pl_clock {E}. Arguments pl_faults {E}.

(** ** main.py: one adapter and the bots of each sub-account *)
Definition setdefault {A} (k : string) (v : A) (l : list (string * A)) : list (string * A) :=
  match dict_get k l with Some _ => l | None => l ++ [(k, v)] end.
Definition accounts_of {A} (adapters : list (string * (string * A))) : list (string * A) :=
  fold_left (fun acc b => setdefault b.2.1 b.2.2 acc) adapters [].
Definition bots_of {A} (adapters : list (string * (string * A))) : list (string * list string) :=
  fold_left (fun acc b => dict_set b.2.1 (default [] (dict_get b.2.1 acc) ++ [b.1]) acc) adapters [].

Section polls.
Context `{PgNumeric} {E : Type}.
Abbreviation PW := (ST (pworld E)).

Definition on_adapter {A} (m : ST E A) : PW A := fun w =>
  let '(r, e) := m (pl_exchange w) in (r, mkPworld e (pl_live w) (pl_monitor w) (pl_clock w) (pl_faults w)).
(** A connection or a statement that may fail before it has any effect. *)
Definition fallible {A} (m : PW A) : PW A := fun w =>
  let w1 := mkPworld (pl_exchange w) (pl_live w) (pl_monitor w) (pl_clock w) (tail (pl_faults w)) in
  match pl_faults w with true :: _ => (Err (RuntimeError "connection"), w1) | _ => m w1 end.
Definition acquire_conn : PW unit := fallible (mret tt).
Definition on_monitor (f : monitor_db → res monitor_db) : PW unit := fun w =>
  match f (pl_monitor w) with
  | Ok m => (Ok tt, mkPworld (pl_exchange w) (pl_live w) m (pl_clock w) (pl_faults w))
  | Err e => (Err e, w)
  end.
Definition on_live_db {A} (m : ST live_db A) : PW A := fun w =>
  let '(r, d) := m (pl_live w) in (r, mkPworld (pl_exchange w) d (pl_monitor w) (pl_clock w) (pl_faults w)).

(** ** Statements *)
Definition insert_equity_snapshot (bot_id : string) (snapshot_at : Z) (bal : AccountBalance) : PW unit := on_monitor (fun m =>
  w ← col 20 4 (wallet_balance bal); a ← col 20 4 (available_balance bal); t ← col 20 4 (total_equity bal);
  mg ← col 20 4 (margin_balance bal); u ← col 20 4 (unrealized_pnl bal);
  Ok (mkMonitorDb (bot_equity_snapshots m ++ [mkEquityRow bot_id snapshot_at w a t mg u]) (funding_fees m) (trade_pnl_deltas m) (virtual_balance m))).
Definition insert_funding_fee (bot_id symbol : string) (settled_at : Z) (funding : dec) : PW unit := on_monitor (fun m =>
  f ← col 20 4 funding;
  Ok (mkMonitorDb (bot_equity_snapshots m) (funding_fees m ++ [mkFundingRow bot_id symbol settled_at f]) (trade_pnl_deltas m) (virtual_balance m))).
(** UNIQUE (sub_account, audit_run_at). *)
Definition insert_trade_pnl_delta (sub_account : string) (audit_run_at window_start window_end : Z) (cumulative_bybit cumulative_db delta : dec)
  : PW unit := on_monitor (fun m =>
  b ← col 20 4 cumulative_bybit; d ← col 20 4 cumulative_db; x ← col 20 4 delta;
  if existsb (fun r => bool_decide (dl_sub_account r = sub_account) && (dl_audit_run_at r =? audit_run_at)) (trade_pnl_deltas m)
  then Err (UniqueViolation "trade_pnl_deltas")
  else Ok (mkMonitorDb (bot_equity_snapshots m) (funding_fees m)
             (trade_pnl_deltas m ++ [mkDeltaRow sub_account audit_run_at window_start window_end b d x]) (virtual_balance m))).
Definition set_gauge (bot_id : string) (v : b64) : PW unit := on_monitor (fun m =>
  Ok (mkMonitorDb (bot_equity_snapshots m) (funding_fees m) (trade_pnl_deltas m) (<[bot_id := v]> (virtual_balance m)))).

(** [try: m except Exception: log]. *)
Definition shielded (m : PW unit) : PW unit := attempt is_exception m ;; mret tt.
Fixpoint for_each {A} (f : A → PW unit) (l : list A) : PW unit :=
  match l with [] => mret tt | x :: l' => f x ;; for_each f l' end.

(** ** Ticks *)
Section ticks.
Context (sub_account_to_adapter : list (string * exchange_client E)) (sub_account_to_bot_ids : list (string * list string)).
Definition bots_sharing (sub_account : string) : list string := default [] (dict_get sub_account sub_account_to_bot_ids).
Definition fetched {A} (m : ST E A) (f : A → PW unit) : PW unit :=
  x ← attempt is_exception (on_adapter m); match x with Ok a => f a | Err _ => mret tt end.

Definition record_equity (snapshot_at : Z) (bal : AccountBalance) (bot_id : string) : PW unit :=
  shielded (acquire_conn ;; fallible (insert_equity_snapshot bot_id snapshot_at bal) ;; set_gauge bot_id (float_of_dec (total_equity bal))).
Definition equity_account (snapshot_at : Z) (a : string * exchange_client E) : PW unit :=
  fetched (ex_get_account_balance a.2 a.1) (fun bal => for_each (record_equity snapshot_at bal) (bots_sharing a.1)).
Definition run_equity_snapshot_tick : PW unit :=
  snapshot_at ← gets pl_clock; for_each (equity_account snapshot_at) sub_account_to_adapter.

Definition is_unique_violation (e : exn) : bool := match e with UniqueViolation _ => true | _ => false end.
Definition realized_in_db (bot_ids : list string) (since : Z) : PW dec :=
  match bot_ids with
  | [] => mret dzero
  | _ => fallible (gets (fun w => select_realized_pnl_sum_for_bots_since bot_ids since (pl_live w)))
  end.
Definition audit_account (threshold : dec) (window_start audit_run_at : Z) (a : string * exchange_client E) : PW unit :=
  fetched (ex_get_closed_pnl_window a.2 a.1 window_start) (fun cumulative_bybit => shielded (
    acquire_conn ;;
    cumulative_db ← realized_in_db (bots_sharing a.1) window_start;
    let delta := dsub cumulative_bybit cumulative_db in
    if dleb (dabs delta) threshold then mret tt
    else attempt is_unique_violation (fallible
           (insert_trade_pnl_delta a.1 audit_run_at window_start audit_run_at cumulative_bybit cumulative_db delta)) ;; mret tt)).
Definition run_pnl_audit_tick (window : Z) (divergence_threshold_usd : dec) : PW unit :=
  audit_run_at ← gets pl_clock;
  for_each (audit_account divergence_threshold_usd (audit_run_at - window) audit_run_at) sub_account_to_adapter.

Definition store_funding (bot_ids : list string) (f : FundingFee) : PW unit :=
  for_each (fun bot_id => fallible (insert_funding_fee bot_id (ff_symbol f) (ff_settled_at f) (ff_funding f))) bot_ids.
Definition funding_account (window_start tick_at : Z) (a : string * exchange_client E) : PW unit :=
  fetched (ex_get_funding_fees_window a.2 a.1 window_start) (fun fees =>
    match fees with
    | [] => mret tt
    | _ => shielded (
        acquire_conn ;;
        for_each (store_funding (bots_sharing a.1)) fees ;;
        fallible (on_live_db (insert_trading_event tick_at None None "funding_settlement_window"
          (pl_funding_window a.1 window_start tick_at (dsum (ff_funding <$> fees)) (Z.of_nat (length fees))))))
    end).
Definition run_funding_fee_poll_tick (window : Z) : PW unit :=
  tick_at ← gets pl_clock; for_each (funding_account (tick_at - window) tick_at) sub_account_to_adapter.
End ticks.
End polls.
