(* ===== verification/PollFacts.v ===== *)
(** * What the scheduled polls write

    The PnL audit refines the list of divergences of its accounts: failures of
    statements and adapters only drop their own account.  Funding is counted
    once whatever the number of bots on an account, and a paper bot is reported
    as diverging from tables it never writes. *)

From S2P Require Import Prelude Dec Float64 PyNum Sizing PaperDb PaperExchange ExecDb Exchange PaperClient Lifecycle Polls.
From stdpp Require Import list.
Open Scope Z_scope.

Lemma entry_get_app {A} k (l1 l2 : list (string * A)) : dict_get k (l1 ++ l2) = match dict_get k l1 with Some v => Some v | None => dict_get k l2 end.
Proof. induction l1 as [|[k1 v1] l1 IH]; [done|]. cbn. by case_bool_decide. Qed.
Lemma dict_get_none_keys {A} k (l : list (string * A)) : dict_get k l = None → k ∉ l.*1.
Proof.
  induction l as [|[k1 v1] l IH]; cbn; [intros _; apply not_elem_of_nil|]. case_bool_decide; [done|]. intros Hk%IH. by apply not_elem_of_cons.
Qed.
(** Each sub-account is polled through one adapter. *)
Lemma accounts_distinct {A} (adapters : list (string * (string * A))) : NoDup (accounts_of adapters).*1.
Proof.
  unfold accounts_of. assert (∀ acc : list (string * A), NoDup acc.*1 → NoDup (fold_left (fun acc b => setdefault b.2.1 b.2.2 acc) adapters acc).*1) as H.
  { induction adapters as [|b adapters IH]; cbn; intros acc Hacc; [done|]. apply IH. unfold setdefault.
    destruct (dict_get b.2.1 acc) eqn:Hd; [done|]. rewrite fmap_app. apply NoDup_app. split_and!; [done| |apply NoDup_singleton].
    intros k Hk ->%list_elem_of_singleton. by apply dict_get_none_keys in Hd. }
  apply H. constructor.
Qed.

Section audit.
Context `{PgNumeric} {E : Type}.
Context (bots : list (string * list string)) (threshold : dec) (window_start run_at : Z).

(** ** What an audit should report *)
Definition realized_total (ids : list string) (since : Z) (live : live_db) : dec :=
  match ids with [] => dzero | _ => select_realized_pnl_sum_for_bots_since ids since live end.
Definition divergence (live : live_db) (sub_account : string) (cumulative_bybit : dec) : option delta_row :=
  let cumulative_db := realized_total (bots_sharing bots sub_account) window_start live in
  let delta := dsub cumulative_bybit cumulative_db in
  if dleb (dabs delta) threshold then None
  else match (b ← col 20 4 cumulative_bybit; d ← col 20 4 cumulative_db; x ← col 20 4 delta;
              Ok (mkDeltaRow sub_account run_at window_start run_at b d x)) with Ok r => Some r | Err _ => None end.
Fixpoint divergences (live : live_db) (accounts : list (string * exchange_client E)) (e : E) : list delta_row :=
  match accounts with
  | [] => []
  | (sub_account, cl) :: rest =>
      let '(x, e') := ex_get_closed_pnl_window cl sub_account window_start e in
      match x with Ok p => option_list (divergence live sub_account p) | Err _ => [] end ++ divergences live rest e'
  end.
(** An adapter is not cancelled in the middle of a tick. *)
Definition steady (accounts : list (string * exchange_client E)) : Prop :=
  ∀ sub_account cl since e, (sub_account, cl) ∈ accounts → (ex_get_closed_pnl_window cl sub_account since e).1 ≠ Err CancelledError.

Definition healthy (w : pworld E) : Prop := Forall (eq false) (pl_faults w).
Definition deltas (w : pworld E) : list delta_row := trade_pnl_deltas (pl_monitor w).
(** Everything but the faults, the adapters and the audit's own table. *)
Definition audit_frame (w w' : pworld E) : Prop :=
  pl_live w' = pl_live w ∧ pl_clock w' = pl_clock w ∧ bot_equity_snapshots (pl_monitor w') = bot_equity_snapshots (pl_monitor w) ∧
  funding_fees (pl_monitor w') = funding_fees (pl_monitor w) ∧ virtual_balance (pl_monitor w') = virtual_balance (pl_monitor w).
Lemma audit_frame_refl w : audit_frame w w.
Proof. by split_and!. Qed.
Lemma audit_frame_trans w1 w2 w3 : audit_frame w1 w2 → audit_frame w2 w3 → audit_frame w1 w3.
Proof. unfold audit_frame. intuition congruence. Qed.

(** A statement runs or the fault list is one shorter and nothing else
    happened. *)
Lemma fallible_cases {A} (m : ST (pworld E) A) w :
  ∃ w1, audit_frame w w1 ∧ pl_exchange w1 = pl_exchange w ∧ deltas w1 = deltas w ∧ (healthy w → healthy w1) ∧
    (fallible m w = m w1 ∨ fallible m w = (Err (RuntimeError "connection"), w1) ∧ ¬ healthy w).
Proof.
  unfold fallible. set (w1 := mkPworld _ _ _ _ _). exists w1. split_and!; [done..| |].
  - unfold healthy. subst w1. cbn. destruct (pl_faults w); [done|]. by inversion 1.
  - destruct (pl_faults w) as [|[] f] eqn:Hf; [by left| |by left]. right. split; [done|]. unfold healthy. rewrite Hf. by inversion 1.
Qed.
Lemma realized_cases ids since (w : pworld E) :
  ∃ w1, audit_frame w w1 ∧ pl_exchange w1 = pl_exchange w ∧ deltas w1 = deltas w ∧ (healthy w → healthy w1) ∧
    (realized_in_db ids since w = (Ok (realized_total ids since (pl_live w)), w1)
     ∨ realized_in_db ids since w = (Err (RuntimeError "connection"), w1) ∧ ¬ healthy w).
Proof.
  destruct ids as [|i ids]; [exists w; split_and!; [done..|by left]|].
  destruct (fallible_cases (gets (fun w => select_realized_pnl_sum_for_bots_since (i :: ids) since (pl_live w))) w) as (w1 & Hf & He & Hd & Hh & Hc).
  exists w1. split_and!; [done..|]. destruct Hc as [Hc|Hc]; [left|by right]. cbn [realized_in_db]. rewrite Hc. unfold gets.
  destruct Hf as [Hl _]. by rewrite Hl.
Qed.

(** The insert adds the row, unless it overflows or repeats one. *)
Lemma insert_delta_run sub_account b d x (w : pworld E) :
  Forall (fun r => ¬ (dl_sub_account r = sub_account ∧ dl_audit_run_at r = run_at)) (deltas w) →
  match (b' ← col 20 4 b; d' ← col 20 4 d; x' ← col 20 4 x; Ok (mkDeltaRow sub_account run_at window_start run_at b' d' x')) with
  | Ok row => ∃ w', insert_trade_pnl_delta sub_account run_at window_start run_at b d x w = (Ok tt, w') ∧
      deltas w' = deltas w ++ [row] ∧ audit_frame w w' ∧ pl_exchange w' = pl_exchange w ∧ pl_faults w' = pl_faults w
  | Err e => insert_trade_pnl_delta sub_account run_at window_start run_at b d x w = (Err e, w) ∧ e = NumericOverflow
  end.
Proof.
  intros Hnew. unfold insert_trade_pnl_delta, on_monitor, col. unfold deltas in *.
  destruct (pg_numeric 20 4 b); [|done]. destruct (pg_numeric 20 4 d); [|done]. destruct (pg_numeric 20 4 x); [|done]. cbn [mbind res_bind].
  assert (existsb (fun r => bool_decide (dl_sub_account r = sub_account) && (dl_audit_run_at r =? run_at)) (trade_pnl_deltas (pl_monitor w)) = false) as ->.
  { apply not_true_is_false. intros (r & Hr & Hb)%existsb_exists. apply list_elem_of_In in Hr. rewrite Forall_forall in Hnew.
    apply andb_true_iff in Hb as [Hb1%bool_decide_eq_true Hb2%Z.eqb_eq]. by apply (Hnew r Hr). }
  eexists. by split_and!.
Qed.

Lemma shielded_ok (m : ST (pworld E) unit) w : (∀ w', m w ≠ (Err CancelledError, w')) → ∃ r w', m w = (r, w') ∧ shielded m w = (Ok tt, w').
Proof.
  intros Hm. destruct (m w) as [r w'] eqn:Em. exists r, w'. split; [done|]. unfold shielded, attempt, mbind, st_bind. rewrite Em.
  destruct r as [[]|e]; [done|]. destruct e; try done. by destruct (Hm w').
Qed.

(** One account adds its divergence or, when a statement failed, nothing. *)
Lemma audit_account_run sub_account cl (w : pworld E) x e :
  ex_get_closed_pnl_window cl sub_account window_start (pl_exchange w) = (x, e) → x ≠ Err CancelledError →
  Forall (fun r => ¬ (dl_sub_account r = sub_account ∧ dl_audit_run_at r = run_at)) (deltas w) →
  let due := match x with Ok p => option_list (divergence (pl_live w) sub_account p) | Err _ => [] end in
  ∃ rows w', audit_account bots threshold window_start run_at (sub_account, cl) w = (Ok tt, w') ∧ pl_exchange w' = e ∧ audit_frame w w' ∧
    deltas w' = deltas w ++ rows ∧ (rows = due ∨ rows = [] ∧ ¬ healthy w) ∧ (healthy w → healthy w').
Proof.
  intros Hx Hc Hnew due. unfold audit_account, fetched, attempt, on_adapter. cbn [fst snd]. unfold mbind at 1, st_bind at 1. rewrite Hx.
  destruct x as [p|ex].
  2:{ assert (is_exception ex = true) as -> by (by destruct ex). exists [], (mkPworld e (pl_live w) (pl_monitor w) (pl_clock w) (pl_faults w)).
      rewrite app_nil_r. split_and!; try done. by left. }
  set (w0 := mkPworld e _ _ _ _). set (m := _ ;; _).
  assert (∃ rows r w', m w0 = (r, w') ∧ r ≠ Err CancelledError ∧ pl_exchange w' = e ∧ audit_frame w w' ∧ deltas w' = deltas w ++ rows ∧
      (rows = due ∨ rows = [] ∧ ¬ healthy w) ∧ (healthy w → healthy w')) as (rows & r & w' & Hm & Hr & ? & ? & ? & ? & ?).
  2:{ destruct (shielded_ok m w0) as (r' & w'' & Hm' & ->); [intros w''; rewrite Hm; intros [= -> ->]; done|].
      rewrite Hm in Hm'. injection Hm' as <- <-. exists rows, w'. by split_and!. }
  subst m due. cbn beta match. unfold divergence.
  destruct (fallible_cases (mret tt) w0) as (w1 & Hf1 & He1 & Hd1 & Hh1 & [Hr1|[Hr1 Hn]]);
    change (pl_exchange w0) with e in He1; change (deltas w0) with (deltas w) in Hd1; change (healthy w0) with (healthy w) in *;
    unfold mbind at 1, st_bind at 1; change acquire_conn with (fallible (E := E) (mret tt)); rewrite Hr1;
    [|exists [], (Err (RuntimeError "connection")), w1; rewrite app_nil_r; split_and!; try done; by right].
  cbn beta match. unfold mret at 1, st_ret at 1.
  destruct (realized_cases (bots_sharing bots sub_account) window_start w1) as (w2 & Hf2 & He2 & Hd2 & Hh2 & [Hr2|[Hr2 Hn]]);
    unfold mbind at 1, st_bind at 1; rewrite Hr2;
    [|exists [], (Err (RuntimeError "connection")), w2; rewrite app_nil_r; split_and!; try done; [congruence|by eapply audit_frame_trans|congruence|tauto|tauto]].
  assert (pl_live w1 = pl_live w) as -> by apply Hf1.
  set (db := realized_total _ _ _). cbn zeta.
  assert (audit_frame w w2) as Hw2 by (by eapply (audit_frame_trans w0); [|eapply audit_frame_trans]).
  destruct (dleb (dabs (dsub p db)) threshold).
  { exists [], (Ok tt), w2. rewrite app_nil_r. split_and!; try done; [congruence|congruence|by left|tauto]. }
  destruct (fallible_cases (insert_trade_pnl_delta sub_account run_at window_start run_at p db (dsub p db)) w2) as (w3 & Hf3 & He3 & Hd3 & Hh3 & Hc3).
  unfold mbind at 1, st_bind at 1, attempt.
  assert (audit_frame w w3) as Hw3 by (by eapply audit_frame_trans). assert (deltas w3 = deltas w) as Hdw by congruence.
  destruct Hc3 as [->|[-> Hn]]; [|exists [], (Err (RuntimeError "connection")), w3; rewrite app_nil_r; split_and!; try done; [congruence|tauto|tauto]].
  pose proof (insert_delta_run sub_account p db (dsub p db) w3 ltac:(by rewrite Hdw)) as Hi.
  destruct (b' ← _; _) as [row|ex].
  - destruct Hi as (w4 & -> & Hd4 & Hf4 & He4 & Hq4). exists [row], (Ok tt), w4. split_and!; try done; [congruence|by eapply audit_frame_trans|congruence|by left|].
    unfold healthy in *. rewrite Hq4. tauto.
  - destruct Hi as [-> ->]. exists [], (Err NumericOverflow), w3. rewrite app_nil_r. split_and!; try done; [congruence|by left|tauto].
Qed.

Lemma divergence_row live sub_account p row : divergence live sub_account p = Some row → dl_sub_account row = sub_account ∧ dl_audit_run_at row = run_at.
Proof.
  unfold divergence. destruct (dleb _ _); [done|]. destruct (b' ← _; _) as [r|] eqn:Hr; [|done]. intros [= <-]. inv_ok. by subst.
Qed.
Lemma audit_accounts_run accounts : NoDup accounts.*1 → steady accounts → ∀ w : pworld E,
  (∀ row, row ∈ deltas w → dl_audit_run_at row = run_at → dl_sub_account row ∉ accounts.*1) →
  ∃ rows w', for_each (audit_account bots threshold window_start run_at) accounts w = (Ok tt, w') ∧ audit_frame w w' ∧
    deltas w' = deltas w ++ rows ∧ rows `sublist_of` divergences (pl_live w) accounts (pl_exchange w) ∧
    (healthy w → rows = divergences (pl_live w) accounts (pl_exchange w)).
Proof.
  induction accounts as [|[sub_account cl] accounts IH]; intros Hnd Hst w Hnew.
  { exists [], w. rewrite app_nil_r. by split_and!. }
  apply NoDup_cons in Hnd as [Hni Hnd]. cbn [divergences].
  destruct (ex_get_closed_pnl_window cl sub_account window_start (pl_exchange w)) as [x e] eqn:Hx.
  assert (x ≠ Err CancelledError) as Hc by (intros ->; apply (Hst sub_account cl window_start (pl_exchange w)); [left|by rewrite Hx]).
  destruct (audit_account_run sub_account cl w x e Hx Hc) as (rows1 & w1 & Hrun & He & Hf & Hd & Hrows & Hh).
  { apply Forall_forall. intros row Hin [Hs Ha]. apply (Hnew row Hin Ha). rewrite Hs. left. }
  set (due := match x with Ok p => _ | Err _ => _ end) in *.
  assert (∀ row, row ∈ rows1 → dl_sub_account row = sub_account) as Hown.
  { intros row Hin. assert (row ∈ due) as Hdue by (destruct Hrows as [-> |[-> _]]; [done|by apply elem_of_nil in Hin]).
    subst due. destruct x as [p|]; [|by apply elem_of_nil in Hdue]. destruct (divergence (pl_live w) sub_account p) as [r|] eqn:Hr;
      [|by apply elem_of_nil in Hdue]. apply list_elem_of_singleton in Hdue as ->. by apply divergence_row in Hr as [-> _]. }
  destruct (IH Hnd) with (w := w1) as (rows2 & w2 & Hrun2 & Hf2 & Hd2 & Hsub & Hall).
  { intros s c t e0 Hin. apply Hst. by right. }
  { intros row. rewrite Hd. intros [Hin|Hin]%elem_of_app Ha Hk; [apply (Hnew row Hin Ha); by right|]. by rewrite (Hown row Hin) in Hk. }
  assert (pl_live w1 = pl_live w) as Hlive by apply Hf. rewrite Hlive, He in Hsub, Hall.
  exists (rows1 ++ rows2), w2. split_and!.
  - cbn [for_each]. by rewrite (st_bind_run _ _ _ _ _ Hrun).
  - by eapply audit_frame_trans.
  - by rewrite Hd2, Hd, app_assoc.
  - apply sublist_app; [|done]. destruct Hrows as [-> |[-> _]]; [done|apply sublist_nil_l].
  - intros Hw. destruct Hrows as [-> |[_ Hn]]; [|done]. by rewrite (Hall (Hh Hw)).
Qed.
End audit.

(** C29: an audit tick reports exactly the divergences: whatever statements fail
    and adapters raise, it returns, leaves the trades as they were, and appends
    to its table some of the rows that its accounts are due, one for each
    account whose exchange ledger and closed trades of the window differ by more
    than the threshold; with a healthy database it appends all of them. *)
Theorem audit_reports_divergences `{PgNumeric} {E} (adapters : list (string * (string * exchange_client E))) window threshold (w : pworld E) :
  let accounts := accounts_of adapters in
  let due := divergences (bots_of adapters) threshold (pl_clock w - window) (pl_clock w) (pl_live w) accounts (pl_exchange w) in
  steady accounts → Forall (fun row => dl_audit_run_at row < pl_clock w) (trade_pnl_deltas (pl_monitor w)) →
  ∃ rows w', run_pnl_audit_tick accounts (bots_of adapters) window threshold w = (Ok tt, w') ∧
    trade_pnl_deltas (pl_monitor w') = trade_pnl_deltas (pl_monitor w) ++ rows ∧ rows `sublist_of` due ∧
    (Forall (eq false) (pl_faults w) → rows = due) ∧ audit_frame w w'.
Proof.
  intros accounts due Hst Hpast. unfold run_pnl_audit_tick.
  destruct (audit_accounts_run (bots_of adapters) threshold (pl_clock w - window) (pl_clock w) accounts (accounts_distinct adapters) Hst w)
    as (rows & w' & Hrun & Hf & Hd & Hsub & Hall).
  { intros row Hin Ha. rewrite Forall_forall in Hpast. specialize (Hpast row Hin). lia. }
  exists rows, w'. rewrite (st_bind_run (gets pl_clock) _ w (pl_clock w) w eq_refl). by split_and!.
Qed.

(** ** A paper bot *)

(** A paper bot is reported as diverging on every tick: its PnL of the window
    is compared with the live trades, which a paper bot never writes, so that
    the whole of it is the divergence. *)
Lemma paper_bot_always_diverges `{PgNumeric} pg_div cfg window threshold (w : pworld pe_state) b z x :
  let bot := bot_id cfg in
  let adapters := [(bot, (bot, paper_client pg_div cfg))] in
  let since := pl_clock w - window in
  let pnl := sum_paper_trades_realized_pnl_since bot since (tables (pl_exchange w)) in
  (∀ i t, trades (pl_live w) !! i = Some t → trd_bot_id t ≠ bot) → dltb threshold (dabs (dsub pnl dzero)) = true →
  pg_numeric 20 4 pnl = Some b → pg_numeric 20 4 dzero = Some z → pg_numeric 20 4 (dsub pnl dzero) = Some x →
  Forall (eq false) (pl_faults w) → Forall (fun row => dl_audit_run_at row < pl_clock w) (trade_pnl_deltas (pl_monitor w)) →
  ∃ w', run_pnl_audit_tick (accounts_of adapters) (bots_of adapters) window threshold w = (Ok tt, w') ∧
    trade_pnl_deltas (pl_monitor w') = trade_pnl_deltas (pl_monitor w) ++ [mkDeltaRow bot (pl_clock w) since (pl_clock w) b z x].
Proof.
  intros bot adapters since pnl Hnone Hover Hb H0 Hx Hok Hpast.
  assert (accounts_of adapters = [(bot, paper_client pg_div cfg)]) as -> by done.
  assert (bots_of adapters = [(bot, [bot])]) as -> by done.
  destruct (audit_accounts_run [(bot, [bot])] threshold since (pl_clock w) [(bot, paper_client pg_div cfg)]) with (w := w)
    as (rows & w' & Hrun & _ & Hd & _ & Hall).
  { apply NoDup_singleton. }
  { intros s c t e [= -> ->]%list_elem_of_singleton. cbn. unfold get_closed_pnl_window, check_sub_account. by rewrite bool_decide_eq_true_2. }
  { intros row Hin Ha. rewrite Forall_forall in Hpast. specialize (Hpast row Hin). lia. }
  exists w'. unfold run_pnl_audit_tick. rewrite (st_bind_run (gets pl_clock) _ w (pl_clock w) w eq_refl). split; [done|].
  change (deltas w') with (trade_pnl_deltas (pl_monitor w')) in Hd. rewrite Hd. f_equal. rewrite (Hall Hok). cbn [divergences ex_get_closed_pnl_window paper_client].
  unfold get_closed_pnl_window, check_sub_account. rewrite bool_decide_eq_true_2 by done. unfold mbind, st_bind, gets, mret, st_ret. cbv beta iota. rewrite app_nil_r.
  unfold divergence, bots_sharing, realized_total. cbn [dict_get]. rewrite bool_decide_eq_true_2 by done. cbn [default from_option id].
  assert (select_realized_pnl_sum_for_bots_since [bot] since (pl_live w) = dzero) as ->.
  { unfold select_realized_pnl_sum_for_bots_since. replace (omap _ _) with (@nil dec); [done|]. symmetry. apply elem_of_nil_inv. intros d (t & Hin & Ht)%list_elem_of_omap.
    apply list_elem_of_fmap in Hin as ([i t'] & -> & Hin). apply elem_of_map_to_list in Hin. unfold realized_since in Ht. cbn in Ht.
    rewrite bool_decide_eq_false_2 in Ht; [done|]. intros Hbot%list_elem_of_singleton. by apply (Hnone i t'). }
  change (sum_paper_trades_realized_pnl_since (bot_id cfg) since (tables (pl_exchange w))) with pnl. unfold dltb in Hover. apply negb_true_iff in Hover as ->.
  unfold col. by rewrite Hb, H0, Hx.
Qed.

(** ** Funding *)
Section funding.
Context `{PgNumeric} {E : Type} (stored : dec → dec).
Hypothesis stored_ok : ∀ d, pg_numeric 20 4 d = Some (stored d).

Definition add_funding_rows (rows : list funding_row) (w : pworld E) : pworld E :=
  mkPworld (pl_exchange w) (pl_live w)
    (mkMonitorDb (bot_equity_snapshots (pl_monitor w)) (funding_fees (pl_monitor w) ++ rows) (trade_pnl_deltas (pl_monitor w)) (virtual_balance (pl_monitor w)))
    (pl_clock w) (pl_faults w).
Lemma add_no_rows w : add_funding_rows [] w = w.
Proof. destruct w as [e l m c f], m. unfold add_funding_rows. cbn. by rewrite app_nil_r. Qed.
Lemma add_rows_twice a b w : add_funding_rows b (add_funding_rows a w) = add_funding_rows (a ++ b) w.
Proof. unfold add_funding_rows. cbn. by rewrite app_assoc. Qed.
(** Rows that a loop adds one element at a time. *)
Lemma for_each_rows {A} (f : A → ST (pworld E) unit) (rows : A → list funding_row) :
  (∀ x w, pl_faults w = [] → f x w = (Ok tt, add_funding_rows (rows x) w)) →
  ∀ l w, pl_faults w = [] → for_each f l w = (Ok tt, add_funding_rows (l ≫= rows) w).
Proof.
  intros Hf l. induction l as [|x l IH]; intros w Hw; [cbn; by rewrite add_no_rows|]. cbn [for_each].
  rewrite (st_bind_run _ _ _ _ _ (Hf x w Hw)), IH by done. by rewrite add_rows_twice.
Qed.

(** Funding of an account shared by several bots is stored once per bot and
    reported once: the event carries the sum over the settlements, not over the
    rows. *)
Lemma funding_counted_once bots sub_account cl window_start tick_at fees e (w : pworld E) :
  ex_get_funding_fees_window cl sub_account window_start (pl_exchange w) = (Ok fees, e) → fees ≠ [] → pl_faults w = [] →
  ∃ w', funding_account bots window_start tick_at (sub_account, cl) w = (Ok tt, w') ∧
    funding_fees (pl_monitor w') = funding_fees (pl_monitor w) ++
      (f ← fees; b ← bots_sharing bots sub_account; [mkFundingRow b (ff_symbol f) (ff_settled_at f) (stored (ff_funding f))]) ∧
    trading_events (pl_live w') = trading_events (pl_live w) ++
      [mkTradingEvent tick_at None None "funding_settlement_window"
         (pl_funding_window sub_account window_start tick_at (dsum (ff_funding <$> fees)) (Z.of_nat (length fees)))].
Proof.
  intros Hx Hne Hw. unfold funding_account, fetched, attempt, on_adapter. cbn [fst snd]. unfold mbind at 1, st_bind at 1. rewrite Hx.
  destruct fees as [|f0 fees0] eqn:Hfees; [done|]. rewrite <- Hfees in *. set (w0 := mkPworld e _ _ _ _).
  set (ids := bots_sharing bots sub_account).
  set (rows := fun f : FundingFee => (fun b => mkFundingRow b (ff_symbol f) (ff_settled_at f) (stored (ff_funding f))) <$> ids).
  assert (∀ f (w : pworld E), pl_faults w = [] → store_funding ids f w = (Ok tt, add_funding_rows (rows f) w)) as Hstore.
  { intros f w1 Hw1. unfold store_funding, rows. rewrite (for_each_rows _ (fun b => [mkFundingRow b (ff_symbol f) (ff_settled_at f) (stored (ff_funding f))])); [|..|done].
    - done.
    - intros b w2 Hw2. unfold fallible. rewrite Hw2. unfold insert_funding_fee, on_monitor, col. cbn. rewrite stored_ok. cbn. unfold add_funding_rows. by rewrite Hw2. }
  unfold shielded. set (event := fallible _).
  assert ((acquire_conn ;; for_each (store_funding ids) fees ;; event) w0 = event (add_funding_rows (fees ≫= rows) w0)) as Hm.
  { assert (acquire_conn w0 = (Ok tt, w0)) as Ha.
    { unfold acquire_conn, fallible. subst w0. cbn. by rewrite Hw. }
    rewrite (st_bind_run _ _ _ _ _ Ha). by rewrite (st_bind_run _ _ _ _ _ (for_each_rows _ _ Hstore fees w0 Hw)). }
  unfold attempt, mbind at 1, st_bind at 1. rewrite Hm. unfold event, fallible. cbn [pl_faults add_funding_rows w0]. rewrite Hw.
  eexists. by split_and!.
Qed.
End funding.

(** ** Concrete runs *)
Definition audit_client (x : res dec) : exchange_client unit := {|
  ex_set_leverage _ _ := throw (NotImplementedError "set_leverage");
  ex_place_market_order _ _ _ _ := throw (NotImplementedError "place_market_order");
  ex_set_trading_stop _ _ _ _ _ := throw (NotImplementedError "set_trading_stop");
  ex_get_positions _ := mret [];
  ex_get_fill_price _ _ := mret None;
  ex_get_instrument_info _ := throw (NotImplementedError "get_instrument_info");
  ex_get_account_balance _ := throw NetworkTimeout;
  ex_get_mark_price _ := throw NetworkTimeout;
  ex_get_closed_pnl_cumulative _ := lift_res x;
  ex_get_closed_pnl_window _ _ := lift_res x;
  ex_get_funding_fees_window _ _ := mret [];
|}.
Definition demo_adapters : list (string * (string * exchange_client unit)) :=
  [("b1", ("down", audit_client (Err NetworkTimeout))); ("b2", ("shared", audit_client (Ok (25 @ 0)))); ("b3", ("shared", audit_client (Ok (25 @ 0))))].
Definition empty_monitor : monitor_db := mkMonitorDb [] [] [] ∅.
Definition demo_polls {E} (e : E) : pworld E := mkPworld e empty_live empty_monitor 1000 [].

Lemma audit_reports_divergences_witness :
  ∃ w', @run_pnl_audit_tick pg_half_away unit (accounts_of demo_adapters) (bots_of demo_adapters) 600 (1 @ 0) (demo_polls tt) = (Ok tt, w') ∧
    trade_pnl_deltas (pl_monitor w') = [mkDeltaRow "shared" 1000 400 1000 (250000 @ (-4)) (0 @ (-4)) (250000 @ (-4))].
Proof.
  destruct (@audit_reports_divergences pg_half_away unit demo_adapters 600 (1 @ 0) (demo_polls tt)) as (rows & w' & Hrun & Hd & _ & Hall & _).
  - intros s cl since e Hin. change (accounts_of demo_adapters) with [("down", audit_client (Err NetworkTimeout)); ("shared", audit_client (Ok (25 @ 0)))] in Hin.
    apply elem_of_cons in Hin as [[= -> ->]|[= -> ->]%list_elem_of_singleton]; by vm_compute.
  - constructor.
  - exists w'. split; [exact Hrun|]. rewrite Hd, Hall by constructor. vm_compute. reflexivity.
Defined.

Definition paper_cfg : pe_config := mkConfig "paper" (1000 @ 0) m_fixed_pct dzero ∅ live false false None false false true.
Definition paper_tables : db :=
  mkDb ∅ {[1 := mkTrade "paper" 1 (Some 2) "BTCUSDT" buy (100 @ 0) (Some (110 @ 0)) (1 @ 0) (100 @ 0) (Some (10 @ 0)) None None 500 (Some 900) st_closed]} [] ∅ 3 2.

