(* ===== verification/RateLimiter.v ===== *)
(** * The shared rate limiter of the exchange adapters

    Models packages/exchange/rate_limiter.py.  The buckets live in a KV store
    that every process shares, so a call of [acquire] is a small machine: one
    step per await, between which any other caller may run.  A value of the
    store is kept as what its decoding yields.  [kv_update] succeeds when the
    revision is still the one read.  An operation of the store may be refused,
    or carried out with the reply lost.  Times are microseconds; token counts
    are floats. *)

From S2P Require Import Prelude Dec Float64.
From Stdlib Require Import QArith Qabs Lqa.
Open Scope Z_scope.

Inductive EndpointGroup := g_orders | g_positions | g_market.
#[global] Instance EndpointGroup_eq_dec : EqDecision EndpointGroup.
Proof. solve_decision. Defined.
(** The constructor's arguments: a rate per second and a capacity per group. *)
Record limiter := mkLimiter {
  lm_orders : b64 * b64; lm_positions : b64 * b64; lm_market : b64 * b64; lm_ip_global : b64 * b64; lm_pause_ms : Z;
}.
(** A bucket: that of a sub-account and group, or the one of the address. *)
Inductive bucket := sub_bucket (sub_account : string) (g : EndpointGroup) | ip_bucket.
Definition group_name (g : EndpointGroup) : string :=
  match g with g_orders => "orders" | g_positions => "positions" | g_market => "market" end.
Definition PAUSE_KEY : string := "bybit.ip.pause".
Definition bucket_key (b : bucket) : string :=
  match b with sub_bucket a g => "bybit." +:+ a +:+ "." +:+ group_name g | ip_bucket => "bybit.ip.global" end.
Definition bucket_params (lm : limiter) (b : bucket) : b64 * b64 :=
  match b with
  | sub_bucket _ g_orders => lm_orders lm
  | sub_bucket _ g_positions => lm_positions lm
  | sub_bucket _ g_market => lm_market lm
  | ip_bucket => lm_ip_global lm
  end.
Definition MAX_CAS_RETRIES : nat := 3.

(** What decoding a value yields: the state of a bucket, a time, JSON of another
    shape (reading a field of it raises [TypeError]), or nothing. *)
Inductive kv_value := v_bucket (tokens : b64) (last_refill_at : Z) | v_time (expires_at : Z) | v_wrong_shape | v_malformed.
Inductive kv_outcome := kv_ok | kv_refused | kv_lost.

(** Where a call of [acquire] waits. *)
Inductive pc :=
| pc_pause
| pc_pausing (wake : Z)
| pc_read (b : bucket) (attempt : nat)
| pc_sleeping (b : bucket) (attempt : nat) (wait : b64) (since : Z)
| pc_write (b : bucket) (attempt : nat) (tokens : b64) (now : Z) (revision : option Z)
| pc_returned
| pc_raised (e : exn).
Record caller := mkCaller { ca_sub_account : string; ca_group : EndpointGroup; ca_pc : pc }.
Inductive grant := debited (key : string) | failed_open (key : string).
#[global] Instance grant_eq_dec : EqDecision grant.
Proof. solve_decision. Defined.
Record lworld := mkLworld {
  lw_kv : gmap string (kv_value * Z); lw_revision : Z; lw_clock : Z; lw_callers : gmap Z caller; lw_grants : list grant;
}.

Section limiter_ops.
Context (lm : limiter).

(** [kv_put], and the write of a [kv_update] that is accepted. *)
Definition kv_write (k : string) (v : kv_value) (w : lworld) : lworld :=
  mkLworld (<[k := (v, lw_revision w)]> (lw_kv w)) (lw_revision w + 1) (lw_clock w) (lw_callers w) (lw_grants w).
Definition set_pc (id : Z) (c : caller) (p : pc) (w : lworld) : lworld :=
  mkLworld (lw_kv w) (lw_revision w) (lw_clock w) (<[id := mkCaller (ca_sub_account c) (ca_group c) p]> (lw_callers w)) (lw_grants w).
Definition note_grant (g : grant) (w : lworld) : lworld :=
  mkLworld (lw_kv w) (lw_revision w) (lw_clock w) (lw_callers w) (lw_grants w ++ [g]).

(** The order of [acquire]: the sub-account's bucket, then the address's. *)
Definition after_bucket (b : bucket) : pc := match b with sub_bucket _ _ => pc_read ip_bucket 0 | ip_bucket => pc_returned end.
(** [continue] of the loop over the attempts; after the last one the call is
    let through. *)
Definition next_attempt (id : Z) (c : caller) (b : bucket) (attempt : nat) (w : lworld) : lworld :=
  if (S attempt <? MAX_CAS_RETRIES)%nat then set_pc id c (pc_read b (S attempt)) w
  else set_pc id c (after_bucket b) (note_grant (failed_open (bucket_key b)) w).

Definition refill (rate capacity tokens : b64) (last_refill_at now : Z) : b64 :=
  bmin capacity (badd tokens (bmul (total_seconds (now - last_refill_at)) rate)).
(** Tokens, last refill and revision read from the store. *)
Definition read_bucket (capacity : b64) (now : Z) (v : option (kv_value * Z)) : res (b64 * Z * option Z) :=
  match v with
  | None => Ok (capacity, now, None)
  | Some (v_bucket t l, rev) => Ok (t, l, Some rev)
  | Some (v_wrong_shape, _) => Err (TypeError "bucket state")
  | Some (_, _) => Ok (capacity, now, None)
  end.
Definition decide_debit (rate capacity : b64) (b : bucket) (attempt : nat) (now : Z) (s : b64 * Z * option Z) : res pc :=
  let '(tokens, last_refill_at, revision) := s in
  let tokens := refill rate capacity tokens last_refill_at now in
  if bltb tokens bone then wait ← bdiv (bsub bone tokens) rate; Ok (pc_sleeping b attempt wait now)
  else Ok (pc_write b attempt (bsub tokens bone) now revision).

(** One await of a call. *)
Definition caller_step (o : kv_outcome) (id : Z) (w : lworld) : lworld :=
  match lw_callers w !! id with
  | None => w
  | Some c =>
      let now := lw_clock w in
      match ca_pc c with
      | pc_pause =>
          let start := pc_read (sub_bucket (ca_sub_account c) (ca_group c)) 0 in
          match o with
          | kv_ok =>
              match lw_kv w !! PAUSE_KEY with
              | Some (v_time expires_at, _) => set_pc id c (if now <? expires_at then pc_pausing expires_at else start) w
              | _ => set_pc id c start w
              end
          | _ => set_pc id c (pc_raised (PublishError PAUSE_KEY)) w
          end
      | pc_pausing wake => if wake <=? now then set_pc id c (pc_read (sub_bucket (ca_sub_account c) (ca_group c)) 0) w else w
      | pc_read b attempt =>
          let '(rate, capacity) := bucket_params lm b in
          match o with
          | kv_ok =>
              match (s ← read_bucket capacity now (lw_kv w !! bucket_key b); decide_debit rate capacity b attempt now s) with
              | Ok p => set_pc id c p w
              | Err e => set_pc id c (pc_raised e) w
              end
          | _ => set_pc id c (pc_raised (PublishError (bucket_key b))) w
          end
      | pc_sleeping b attempt wait since =>
          if bleb wait (total_seconds (now - since)) then next_attempt id c b attempt w else w
      | pc_write b attempt tokens at_ revision =>
          let v := v_bucket tokens at_ in
          let k := bucket_key b in
          let current := match revision with Some r => bool_decide (snd <$> lw_kv w !! k = Some r) | None => true end in
          match o with
          | kv_ok => if current then set_pc id c (after_bucket b) (note_grant (debited k) (kv_write k v w)) else next_attempt id c b attempt w
          | kv_refused => next_attempt id c b attempt w
          | kv_lost => next_attempt id c b attempt (if current then kv_write k v w else w)
          end
      | pc_returned | pc_raised _ => w
      end
  end.

(** [acquire] is called; [signal_upstream_rate_limit]. *)
Definition acquire (id : Z) (sub_account : string) (g : EndpointGroup) (w : lworld) : lworld :=
  mkLworld (lw_kv w) (lw_revision w) (lw_clock w) (<[id := mkCaller sub_account g pc_pause]> (lw_callers w)) (lw_grants w).
Definition signal_upstream_rate_limit (o : kv_outcome) (w : lworld) : lworld :=
  match o with
  | kv_refused => w
  | _ => kv_write PAUSE_KEY (v_time (lw_clock w + lm_pause_ms lm * 1000)) w
  end.

(** Any number of processes share the store. *)
Inductive lim_step (w : lworld) : lworld → Prop :=
| ls_tick dt : 0 <= dt → lim_step w (mkLworld (lw_kv w) (lw_revision w) (lw_clock w + dt) (lw_callers w) (lw_grants w))
| ls_call id sub_account g : lw_callers w !! id = None → lim_step w (acquire id sub_account g w)
| ls_run o id : lim_step w (caller_step o id w)
| ls_signal o : lim_step w (signal_upstream_rate_limit o w).
End limiter_ops.

Definition debits (key : string) (w : lworld) : Z := Z.of_nat (length (filter (.= debited key) (lw_grants w))).

(** ** Keys *)
Lemma list_ascii_app s t : String.list_ascii_of_string (s +:+ t) = String.list_ascii_of_string s ++ String.list_ascii_of_string t.
Proof. induction s as [|a s IH]; [done|]. change (String a s +:+ t) with (String a (s +:+ t)). cbn. by rewrite IH. Qed.
Lemma length_str_app s t : String.length (s +:+ t) = (String.length s + String.length t)%nat.
Proof. induction s as [|a s IH]; [done|]. change (String a s +:+ t) with (String a (s +:+ t)). cbn. by rewrite IH. Qed.
Definition ending (s : string) : list Ascii.ascii := take 2 (reverse (String.list_ascii_of_string s)).
Lemma ending_app s t : (2 <= String.length t)%nat → ending (s +:+ t) = ending t.
Proof.
  intros Ht. unfold ending. rewrite list_ascii_app, reverse_app, take_app_le; [done|]. rewrite length_reverse.
  assert (length (String.list_ascii_of_string t) = String.length t) as ->; [|done]. clear Ht. induction t; cbn; auto.
Qed.
Lemma bucket_ending b : ending (bucket_key b) = match b with sub_bucket _ g => ending (group_name g) | ip_bucket => ending "global" end.
Proof.
  destruct b as [a g|]; [|done]. unfold bucket_key. do 3 (rewrite ending_app; [|rewrite ?length_str_app; destruct g; cbn; lia]). done.
Qed.
(** The key of a bucket determines its parameters, and is not that of the pause. *)
Lemma bucket_key_params lm b b' : bucket_key b = bucket_key b' → bucket_params lm b = bucket_params lm b'.
Proof.
  intros E. apply (f_equal ending) in E. rewrite !bucket_ending in E.
  destruct b as [a []|], b' as [a' []|]; try done; vm_compute in E; discriminate E.
Qed.
Lemma bucket_not_pause b : bucket_key b ≠ PAUSE_KEY.
Proof. intros E. apply (f_equal ending) in E. rewrite bucket_ending in E. destruct b as [a []|]; vm_compute in E; discriminate E. Qed.

(** ** A debit in exact terms *)
Section accuracy.
Local Open Scope Q_scope.
Context (rate cap tokens : b64) (last now : Z).
Hypothesis (Hrate : 0 <= bval rate) (Hcap : bval cap <= p2 52) (Ht : 0 <= bval tokens <= bval cap) (Hl : (last <= now)%Z).
Definition window_tokens (us : Z) : Q := bval rate * (1 + roundoff) * (1 + roundoff) * (1 + roundoff) * (inject_Z us / 1000000).
Definition per_debit : Q := 1 - 2 * roundoff * bval cap.

Lemma refill_accurate : 0 <= bval (refill rate cap tokens last now) <= bval cap ∧
  bval (refill rate cap tokens last now) <= bval tokens + roundoff * bval cap + window_tokens (now - last).
Proof.
  assert (0 < roundoff) as Hu by apply p2_pos. set (D := inject_Z (now - last) / 1000000).
  assert (0 <= D) as HD by (apply Qmult_le_0_compat; [apply inject_Z_nonneg; lia|discriminate]).
  unfold refill. set (e := total_seconds (now - last)). set (p := bmul e rate). set (s := badd tokens p).
  assert (0 <= bman e)%Z as He0 by (apply fl_nonneg; lia). assert (0 <= bval e) as He by by apply bval_nonneg.
  assert (0 <= bval p) as Hp by (apply bval_nonneg, bmul_nonneg; [done|by apply bval_nonneg]).
  assert (0 <= bval s) as Hs by (apply bval_nonneg, badd_nonneg; apply bval_nonneg; [apply Ht|done]).
  pose proof (rel_upper _ _ HD (total_seconds_rel (now - last))) as He'. fold e in He'.
  pose proof (rel_upper _ _ (Qmult_le_0_compat _ _ He Hrate) (bmul_rel e rate)) as Hp'. fold p in Hp'.
  assert (0 <= bval tokens + bval p) as Hsum by lra.
  pose proof (rel_upper _ _ Hsum (badd_rel tokens p)) as Hs'. fold s in Hs'.
  destruct (bmin_spec cap s) as (Hm1 & Hm2 & Hm). split; [split; [destruct Hm as [-> | ->]; lra|done]|].
  apply (Qle_trans _ _ _ Hm2), (Qle_trans _ _ _ Hs').
  assert (bval p <= bval rate * (1 + roundoff) * (1 + roundoff) * D) as Hpd.
  { apply (Qle_trans _ _ _ Hp'). assert (bval e * bval rate <= D * (1 + roundoff) * bval rate) as H1 by by apply Qmult_le_compat_r.
    apply (Qmult_le_compat_r _ _ (1 + roundoff)) in H1; [|lra]. lra. }
  unfold window_tokens. fold D. apply (Qmult_le_compat_r _ _ (1 + roundoff)) in Hpd; [|lra].
  assert (roundoff * bval tokens <= roundoff * bval cap) as Htc by (apply Qmult_le_l; [done|apply Ht]). lra.
Qed.
Lemma debit_accurate : let tokens' := bsub (refill rate cap tokens last now) bone in bltb (refill rate cap tokens last now) bone = false →
  0 <= bval tokens' <= bval cap ∧ bval tokens' <= bval tokens + window_tokens (now - last) - per_debit.
Proof.
  intros tokens' Hb. destruct refill_accurate as [[Hm0 Hm1] Hm2]. set (m := refill rate cap tokens last now) in *.
  assert (0 < roundoff) as Hu by apply p2_pos.
  assert (bval bone <= bval m) as Hone. { apply Qnot_lt_le. intros H. apply bltb_spec in H. congruence. }
  assert (bval bone == 1) as E1 by reflexivity.
  assert (0 <= bval m - bval bone) as Hd by lra. pose proof (rel_upper _ _ Hd (bsub_rel m bone)) as Hr. fold tokens' in Hr.
  assert (0 <= bval tokens') as H0 by by apply bval_nonneg, bsub_nonneg.
  assert (roundoff * bval m <= roundoff * bval cap) as Hmc by (by apply Qmult_le_l).
  assert (roundoff * bval cap <= 1) as Hc1. { apply (Qle_trans _ (roundoff * p2 52)); [by apply Qmult_le_l|vm_compute; discriminate]. }
  rewrite E1 in Hr. unfold per_debit. split; [split; [done|]|]; lra.
Qed.
End accuracy.

(** ** Interleavings *)
Section bound.
Context (lm : limiter) (b : bucket) (rate cap t0 : b64) (l0 : Z).
Hypothesis (Hpar : bucket_params lm b = (rate, cap)).
Hypothesis (Hrate : (0 <= bval rate)%Q) (Hcap : (bval cap <= p2 52)%Q).
Abbreviation key := (bucket_key b).

(** A write that may still succeed is the debit of the state in the store. *)
Definition write_ok (w : lworld) (t : b64) (l rev : Z) (p : pc) : Prop :=
  match p with
  | pc_write b' _ tokens at_ revision => bucket_key b' = key →
      ∃ r, revision = Some r ∧ r < lw_revision w ∧
        (r = rev → tokens = bsub (refill rate cap t l at_) bone ∧ bltb (refill rate cap t l at_) bone = false ∧ l <= at_ <= lw_clock w)
  | _ => True
  end.
Definition within_budget (n : Z) (t : b64) (l : Z) : Prop :=
  (inject_Z n * per_debit cap <= bval t0 - bval t + window_tokens rate (l - l0))%Q.
Definition store_ok (w : lworld) (t : b64) (l rev : Z) : Prop :=
  lw_kv w !! key = Some (v_bucket t l, rev) ∧ rev < lw_revision w ∧ (0 <= bval t <= bval cap)%Q ∧ l0 <= l <= lw_clock w ∧
  within_budget (debits key w) t l.
Definition lim_inv (w : lworld) : Prop := ∃ t l rev, store_ok w t l rev ∧ ∀ id c, lw_callers w !! id = Some c → write_ok w t l rev (ca_pc c).

Lemma set_pc_inv id c p w t l rev : store_ok w t l rev → (∀ id c, lw_callers w !! id = Some c → write_ok w t l rev (ca_pc c)) →
  write_ok w t l rev p → lim_inv (set_pc id c p w).
Proof.
  intros Hs Hc Hp. exists t, l, rev. split; [done|]. intros i d. cbn. destruct (decide (i = id)) as [->|].
  - rewrite lookup_insert_eq. intros [= <-]. done.
  - rewrite lookup_insert_ne by done. apply Hc.
Qed.
Lemma debits_note g w : debits key (note_grant g w) = debits key w + (if decide (g = debited key) then 1 else 0).
Proof. unfold debits, note_grant. cbn. rewrite list.filter_app, length_app, filter_cons, filter_nil. destruct (decide _); cbn; lia. Qed.
Lemma next_attempt_inv id c b' a w : lim_inv w → lim_inv (next_attempt id c b' a w).
Proof.
  intros (t & l & rev & Hs & Hc). unfold next_attempt. destruct (S a <? MAX_CAS_RETRIES)%nat; [by apply (set_pc_inv _ _ _ _ t l rev)|].
  apply (set_pc_inv _ _ _ _ t l rev); [|done|by destruct b'].
  destruct Hs as (H1 & H2 & H3 & H4 & Hb). refine (conj H1 (conj H2 (conj H3 (conj H4 _)))). rewrite debits_note, decide_False by done. by rewrite Z.add_0_r.
Qed.
Lemma kv_write_other k v w : k ≠ key → lim_inv w → lim_inv (kv_write k v w).
Proof.
  intros Hk (t & l & rev & (Hkv & Hr & Hs) & Hc). exists t, l, rev. split.
  - split_and!; [by cbn; rewrite lookup_insert_ne|cbn; lia|apply Hs..].
  - intros id c Hid. specialize (Hc id c Hid). unfold write_ok in *. destruct (ca_pc c) as [| | | |b' ? ? ? ?| |]; try done.
    intros E. destruct (Hc E) as (r & -> & ? & ?). exists r. split_and!; [done|cbn; lia|done].
Qed.
Lemma per_debit_nonneg : (0 <= per_debit cap)%Q.
Proof.
  unfold per_debit. assert (roundoff * bval cap <= roundoff * p2 52)%Q as H by (apply Qmult_le_l; [apply p2_pos|done]).
  assert (roundoff * p2 52 == 1 # 2)%Q as E by reflexivity. lra.
Qed.
(** The write of a debit, counted or not. *)
Lemma kv_debit_inv w tokens at_ n : lim_inv w → 0 <= n <= 1 →
  (∀ t l rev, lw_kv w !! key = Some (v_bucket t l, rev) →
    tokens = bsub (refill rate cap t l at_) bone ∧ bltb (refill rate cap t l at_) bone = false ∧ l <= at_ <= lw_clock w) →
  ∀ g, g = (if n =? 1 then Some (debited key) else None) →
  lim_inv (match g with Some g => note_grant g (kv_write key (v_bucket tokens at_) w) | None => kv_write key (v_bucket tokens at_) w end).
Proof.
  intros (t & l & rev & (Hkv & Hr & Ht & Hl & Hb) & Hc) Hn Htok g ->. destruct (Htok t l rev Hkv) as (-> & Hge & Hat).
  destruct (debit_accurate rate cap t l at_ Hrate Hcap Ht ltac:(lia) Hge) as [Ht' Hdec].
  set (t' := bsub (refill rate cap t l at_) bone) in *.
  assert (∀ d, d <= debits key w + n → within_budget d t' at_) as Hbud.
  { intros d Hd. unfold within_budget in *. pose proof per_debit_nonneg as Hp.
    assert (inject_Z d * per_debit cap <= inject_Z (debits key w) * per_debit cap + per_debit cap)%Q as H1.
    { assert (inject_Z d <= inject_Z (debits key w) + 1)%Q as H2 by (change 1%Q with (inject_Z 1); rewrite <- inject_Z_plus, <- Zle_Qle; lia).
      apply (Qmult_le_compat_r _ _ (per_debit cap)) in H2; [|done]. lra. }
    assert (window_tokens rate (at_ - l0) == window_tokens rate (l - l0) + window_tokens rate (at_ - l))%Q as ->.
    { unfold window_tokens. replace (at_ - l0) with ((l - l0) + (at_ - l)) by lia. rewrite inject_Z_plus. unfold Qdiv. ring. }
    lra. }
  exists t', at_, (lw_revision w). split.
  - assert (lw_kv (kv_write key (v_bucket t' at_) w) !! key = Some (v_bucket t' at_, lw_revision w)) as Hk by (cbn; by rewrite lookup_insert_eq).
    destruct (Z.eqb_spec n 1); (split; [exact Hk|]); (split; [cbn; lia|]); (split; [exact Ht'|]); (split; [cbn; lia|]); apply Hbud.
    + rewrite debits_note, decide_True by done. change (debits key (kv_write key (v_bucket t' at_) w)) with (debits key w). lia.
    + change (debits key (kv_write key (v_bucket t' at_) w)) with (debits key w). lia.
  - intros i c Hi. assert (lw_callers w !! i = Some c) as Hi' by (by destruct (n =? 1)). specialize (Hc i c Hi'). clear Hi.
    unfold write_ok in *. destruct (ca_pc c) as [| | | |b' ? ? ? ?| |]; try done. intros E. destruct (Hc E) as (r & -> & Hlt & _).
    exists r. destruct (n =? 1); cbn; split_and!; try done; lia.
Qed.

Lemma read_inv id c b' a w p : lim_inv w → lw_callers w !! id = Some c →
  (s ← read_bucket (bucket_params lm b').2 (lw_clock w) (lw_kv w !! bucket_key b');
   decide_debit (bucket_params lm b').1 (bucket_params lm b').2 b' a (lw_clock w) s) = Ok p →
  lim_inv (set_pc id c p w).
Proof.
  intros (t & l & rev & Hs & Hc) _ E. apply (set_pc_inv _ _ _ _ t l rev); [done..|]. apply bind_ok_inv in E as (((tk & lr) & rv) & Er & E).
  unfold decide_debit in E. destruct (bltb _ bone) eqn:Hb.
  { apply bind_ok_inv in E as (wait & _ & [= <-]). done. }
  injection E as <-. intros Hk. rewrite (bucket_key_params lm b' b Hk), Hpar in *. cbn [fst snd] in *.
  destruct Hs as (Hkv & Hr & _ & Hl & _). rewrite Hk, Hkv in Er. injection Er as <- <- <-. exists rev. split_and!; [done..|]. intros _. split_and!; [done..|lia|lia].
Qed.

Lemma caller_step_inv o id w : lim_inv w → lim_inv (caller_step lm o id w).
Proof.
  intros Hi. unfold caller_step. destruct (lw_callers w !! id) as [c|] eqn:Hid; [|done].
  assert (∀ p, (∀ t l rev, write_ok w t l rev p) → lim_inv (set_pc id c p w)) as Hset.
  { intros p Hp. destruct Hi as (t & l & rev & Hs & Hc). by apply (set_pc_inv _ _ _ _ t l rev). }
  destruct (ca_pc c) as [|wake|b' a|b' a wait since|b' a tokens at_ rv| |e] eqn:Hpc; try done.
  - destruct o; try by apply Hset. destruct (lw_kv w !! PAUSE_KEY) as [[[] ?]|]; try by apply Hset. apply Hset. intros ? ? ?. by destruct (_ <? _).
  - destruct (wake <=? lw_clock w); [by apply Hset|done].
  - pose proof (read_inv id c b' a w) as Hread. destruct (bucket_params lm b') as [rt cp]. destruct o; try by apply Hset.
    cbn [fst snd] in Hread. destruct (mbind _ _) as [p|e] eqn:E; [by apply Hread|by apply Hset].
  - destruct (bleb _ _); [by apply next_attempt_inv|done].
  - set (cur := match rv with Some r => _ | None => _ end).
    assert (cur = true → ∀ n g, 0 <= n <= 1 → g = (if n =? 1 then Some (debited (bucket_key b')) else None) →
      lim_inv (match g with Some g => note_grant g (kv_write (bucket_key b') (v_bucket tokens at_) w) | None => kv_write (bucket_key b') (v_bucket tokens at_) w end)) as Hw.
    { intros Hcur n g Hn Hg. destruct (decide (bucket_key b' = key)) as [Ek|Hne].
      - rewrite Ek in *. apply (kv_debit_inv w tokens at_ n Hi Hn); [|done]. intros t l rev Hkv.
        destruct Hi as (t' & l' & rev' & (Hkv' & _) & Hc). rewrite Hkv in Hkv'. injection Hkv' as <- <- <-.
        specialize (Hc id c Hid). rewrite Hpc in Hc. destruct (Hc Ek) as (r & -> & _ & Hr). apply Hr.
        unfold cur in Hcur. apply bool_decide_eq_true in Hcur. rewrite ?Ek, Hkv in Hcur. by injection Hcur.
      - apply (kv_write_other (bucket_key b') (v_bucket tokens at_)) in Hi as Hi'; [|done]. subst g. destruct (n =? 1); [|done].
        destruct Hi' as (t & l & rev & (H1 & H2 & H3 & H4 & Hb) & Hc). exists t, l, rev. split; [|done].
        refine (conj H1 (conj H2 (conj H3 (conj H4 _)))). rewrite debits_note, decide_False by congruence. by rewrite Z.add_0_r. }
    destruct o; [|by apply next_attempt_inv|]; destruct cur eqn:Hcur; try by apply next_attempt_inv.
    + destruct (Hw eq_refl 1 (Some (debited (bucket_key b'))) (conj Z.le_0_1 (Z.le_refl 1)) eq_refl) as (t & l & rev & Hs & Hc). cbn in Hs, Hc. apply (set_pc_inv _ _ _ _ t l rev); [done..|]. by destruct b'.
    + apply next_attempt_inv. exact (Hw eq_refl 0 None (conj (Z.le_refl 0) Z.le_0_1) eq_refl).
Qed.
Lemma lim_step_inv w w' : lim_inv w → lim_step lm w w' → lim_inv w'.
Proof.
  intros Hi [dt Hdt|id a g Hid|o id|o].
  - destruct Hi as (t & l & rev & (H1 & H2 & H3 & H4 & Hb) & Hc). exists t, l, rev. split.
    + refine (conj H1 (conj H2 (conj H3 (conj _ Hb)))). cbn. lia.
    + intros i c Hi. specialize (Hc i c Hi). unfold write_ok in *. destruct (ca_pc c); try done. intros E.
      destruct (Hc E) as (r & -> & ? & Hr). exists r. split_and!; [done..|]. intros Er. destruct (Hr Er) as (? & ? & ?). split_and!; [done..|lia|cbn; lia].
  - destruct Hi as (t & l & rev & Hs & Hc). exists t, l, rev. split; [done|]. intros i c. cbn. destruct (decide (i = id)) as [->|].
    + rewrite lookup_insert_eq. by intros [= <-].
    + rewrite lookup_insert_ne by done. apply Hc.
  - by apply caller_step_inv.
  - unfold signal_upstream_rate_limit. destruct o; try done; apply kv_write_other; try done; apply not_eq_sym, bucket_not_pause.
Qed.
End bound.

(** C21: the bucket bounds the rate whoever shares it: however many callers in
    however many processes interleave, with operations of the store refused or
    their replies lost, the calls that took a token from a bucket since its
    state was (t0, l0) are at most t0 plus rate times the time elapsed, up to
    the rounding of the floats (one part in 2^53 of the capacity per call and
    three of the refilled tokens). *)
Theorem debits_within_rate lm b rate cap t0 l0 rev w w' :
  bucket_params lm b = (rate, cap) → (0 <= bval rate)%Q → (bval cap <= p2 52)%Q → (0 <= bval t0 <= bval cap)%Q →
  lw_kv w !! bucket_key b = Some (v_bucket t0 l0, rev) → rev < lw_revision w → l0 <= lw_clock w → lw_callers w = ∅ → lw_grants w = [] →
  rtc (lim_step lm) w w' →
  (inject_Z (debits (bucket_key b) w') * (1 - 2 * roundoff * bval cap) <=
     bval t0 + bval rate * (1 + roundoff) * (1 + roundoff) * (1 + roundoff) * (inject_Z (lw_clock w' - l0) / 1000000))%Q.
Proof.
  intros Hpar Hrate Hcap Ht0 Hkv Hrev Hl Hca Hgr Hsteps.
  assert (lim_inv b rate cap t0 l0 w) as Hi.
  { exists t0, l0, rev. split; [|intros i c; by rewrite Hca]. refine (conj Hkv (conj Hrev (conj Ht0 (conj _ _)))); [lia|].
    unfold within_budget, debits. rewrite Hgr, Z.sub_diag. unfold window_tokens, Qdiv. change (inject_Z 0) with 0%Q.
    change (inject_Z (Z.of_nat (length (filter (.= debited (bucket_key b)) [])))) with 0%Q. rewrite !Qmult_0_l, Qmult_0_r. lra. }
  assert (lim_inv b rate cap t0 l0 w') as Hi'.
  { clear -Hi Hsteps Hpar Hrate Hcap. induction Hsteps as [|x y z Hxy _ IH]; [done|]. by apply IH, (lim_step_inv lm b rate cap t0 l0 Hpar Hrate Hcap x). }
  destruct Hi' as (t & l & r & (_ & _ & [Ht _] & Hl' & Hb) & _). unfold within_budget, per_debit, window_tokens in Hb.
  eapply Qle_trans; [exact Hb|]. set (q := (bval rate * (1 + roundoff) * (1 + roundoff) * (1 + roundoff))%Q).
  assert (0 <= q)%Q as Hq. { assert (0 <= 1 + roundoff)%Q as Hu by (vm_compute; discriminate). unfold q. by repeat (apply Qmult_le_0_compat; [|done]). }
  assert (q * (inject_Z (l - l0) / 1000000) <= q * (inject_Z (lw_clock w' - l0) / 1000000))%Q.
  { rewrite !(Qmult_comm q). apply Qmult_le_compat_r; [|done]. apply Qmult_le_compat_r; [|discriminate]. rewrite <- Zle_Qle. lia. }
  lra.
Qed.

(** ** Concrete runs *)
Definition demo_limiter : limiter := mkLimiter (mkB 1 0, mkB 1 0) (mkB 1 0, mkB 1 0) (mkB 1 0, mkB 1 0) (mkB 10 0, mkB 20 0) 500.
Definition demo_bucket : bucket := sub_bucket "acc" g_orders.
Definition demo_store : lworld := mkLworld {[bucket_key demo_bucket := (v_bucket bone 0, 1)]} 2 0 ∅ [].
Inductive event := e_call (id : Z) | e_run (id : Z) | e_wait (us : Z).
Definition demo_event (w : lworld) (e : event) : lworld :=
  match e with
  | e_call id => acquire id "acc" g_orders w
  | e_run id => caller_step demo_limiter kv_ok id w
  | e_wait us => mkLworld (lw_kv w) (lw_revision w) (lw_clock w + us) (lw_callers w) (lw_grants w)
  end.

Lemma debits_within_rate_witness :
  let w' := foldl demo_event demo_store [e_call 1; e_run 1; e_run 1; e_run 1] in
  debits (bucket_key demo_bucket) w' = 1 ∧
  (inject_Z (debits (bucket_key demo_bucket) w') * (1 - 2 * roundoff * bval (mkB 1 0)) <=
     bval bone + bval (mkB 1 0) * (1 + roundoff) * (1 + roundoff) * (1 + roundoff) * (inject_Z (lw_clock w' - 0) / 1000000))%Q.
Proof.
  split; [vm_compute; reflexivity|].
  refine (debits_within_rate demo_limiter demo_bucket (mkB 1 0) (mkB 1 0) bone 0 1 demo_store _ eq_refl _ _ _ eq_refl _ _ eq_refl eq_refl _);
    [vm_compute; discriminate|vm_compute; discriminate|split; vm_compute; discriminate|reflexivity|vm_compute; discriminate|].
  cbn [foldl]. eapply rtc_l; [by apply (ls_call _ _ 1 "acc" g_orders)|]. do 3 (eapply rtc_l; [apply (ls_run _ _ kv_ok 1)|]). apply rtc_refl.
Defined.

(** Waiting for a token uses up the attempts meant for conflicts: four callers
    wait at an empty bucket, each second one of them takes the new token, and
    after their third wait the other two are let through, without a token and
    without a single conflict. *)
Lemma waiting_fails_open :
  let twice (ids : list Z) := mjoin ((fun id => [e_run id; e_run id]) <$> ids) in
  let taken (id : Z) := [e_run id; e_run id; e_run id] in
  let w := foldl demo_event demo_store (
    [e_call 1; e_call 2; e_call 3; e_call 4; e_call 5] ++ taken 1 ++ twice [2; 3; 4; 5] ++ [e_wait 1000000] ++
    taken 2 ++ twice [3; 4; 5] ++ [e_wait 1000000] ++ taken 3 ++ twice [4; 5] ++ [e_wait 1000000] ++ [e_run 4; e_run 5]) in
  lw_grants w = let k := bucket_key demo_bucket in [debited k; debited k; debited k; failed_open k; failed_open k].
Proof. vm_compute. reflexivity. Qed.

(** ** A call ends *)
(** The turns a call still takes at most. *)
Definition turns_left (p : pc) : nat :=
  let rounds b a := match b with sub_bucket _ _ => 6 + 2 * (MAX_CAS_RETRIES - a) | ip_bucket => 2 * (MAX_CAS_RETRIES - a) end%nat in
  match p with
  | pc_pause => 14
  | pc_pausing _ => 13
  | pc_read b a => rounds b a
  | pc_sleeping b a _ _ | pc_write b a _ _ _ => rounds b a - 1
  | pc_returned | pc_raised _ => 0
  end%nat.
Definition attempts_left (p : pc) : Prop :=
  match p with pc_read _ a | pc_sleeping _ a _ _ | pc_write _ a _ _ _ => (a < MAX_CAS_RETRIES)%nat | _ => True end.
(** The event loop resumes a call that neither ended nor sleeps. *)
Definition resumable (now : Z) (p : pc) : Prop :=
  match p with
  | pc_pausing wake => wake <= now
  | pc_sleeping _ _ wait since => bleb wait (total_seconds (now - since)) = true
  | pc_returned | pc_raised _ => False
  | _ => True
  end.
(** [n] turns of the call [id] among steps of the others. *)
Inductive own_turns (lm : limiter) (id : Z) : nat → lworld → lworld → Prop :=
| ot_refl w : own_turns lm id 0 w w
| ot_other n w w' w'' : lim_step lm w w' → lw_callers w' !! id = lw_callers w !! id → own_turns lm id n w' w'' → own_turns lm id n w w''
| ot_turn n o c w w' : lw_callers w !! id = Some c → resumable (lw_clock w) (ca_pc c) →
    own_turns lm id n (caller_step lm o id w) w' → own_turns lm id (S n) w w'.

Definition closer (p : pc) (w : lworld) (id : Z) : Prop :=
  ∃ c, lw_callers w !! id = Some c ∧ attempts_left (ca_pc c) ∧ (turns_left (ca_pc c) < turns_left p)%nat.
Lemma set_pc_closer id c p q w : attempts_left q → (turns_left q < turns_left p)%nat → closer p (set_pc id c q w) id.
Proof. intros. eexists. cbn. rewrite lookup_insert_eq. done. Qed.
Lemma next_attempt_closer id c p b a w : (a < MAX_CAS_RETRIES)%nat → turns_left p = turns_left (pc_sleeping b a bzero 0) →
  closer p (next_attempt id c b a w) id.
Proof.
  intros Ha Hp. unfold next_attempt. unfold MAX_CAS_RETRIES in *. destruct (Nat.ltb_spec (S a) 3); apply set_pc_closer; rewrite ?Hp; unfold attempts_left, turns_left, MAX_CAS_RETRIES; destruct b; cbn [after_bucket]; lia.
Qed.
Lemma turn_closer lm o id c w : lw_callers w !! id = Some c → attempts_left (ca_pc c) → resumable (lw_clock w) (ca_pc c) →
  closer (ca_pc c) (caller_step lm o id w) id.
Proof.
  intros Hc Ha Hr. unfold caller_step. rewrite Hc. destruct (ca_pc c) as [|wake|b a|b a wait since|b a tokens at_ rv| |e] eqn:Hpc; try done; cbn in Ha, Hr.
  - destruct o; [|by apply set_pc_closer; cbn; try lia..]. destruct (lw_kv w !! PAUSE_KEY) as [[[] ?]|]; apply set_pc_closer; try destruct (_ <? _); cbn; unfold MAX_CAS_RETRIES; lia.
  - destruct (Z.leb_spec wake (lw_clock w)); [|lia]. apply set_pc_closer; cbn; unfold MAX_CAS_RETRIES; lia.
  - destruct (bucket_params lm b) as [rate cap]. assert (0 < turns_left (pc_read b a))%nat as Hpos by (unfold turns_left; destruct b; lia).
    destruct o; [|by apply set_pc_closer..]. destruct (mbind _ _) as [p|e] eqn:E; [|by apply set_pc_closer].
    apply bind_ok_inv in E as (((? & ?) & ?) & _ & E). unfold decide_debit in E. destruct (bltb _ _); [apply bind_ok_inv in E as (? & _ & E)|];
      injection E as <-; apply set_pc_closer; try done; unfold turns_left in *; lia.
  - rewrite Hr. by apply next_attempt_closer.
  - destruct o; [destruct (match rv with Some _ => _ | None => _ end)|..]; try by apply next_attempt_closer.
    apply set_pc_closer; unfold attempts_left, turns_left, MAX_CAS_RETRIES in *; destruct b; cbn [after_bucket]; lia.
Qed.

(** C22: a call of [acquire] ends: whatever the other callers and the store do,
    it takes at most 14 turns of its own (the pause and its sleep, and three
    attempts of two awaits for each of the two buckets), after which it has
    returned or raised. *)
Theorem acquire_ends lm id sub_account g n w w' :
  lw_callers w !! id = Some (mkCaller sub_account g pc_pause) → own_turns lm id n w w' →
  ∃ c, lw_callers w' !! id = Some c ∧ (n <= 14)%nat ∧
    (n = 14%nat → ca_pc c = pc_returned ∨ ∃ e, ca_pc c = pc_raised e).
Proof.
  assert (∀ n w w', own_turns lm id n w w' → ∀ c, lw_callers w !! id = Some c → attempts_left (ca_pc c) →
    ∃ c', lw_callers w' !! id = Some c' ∧ attempts_left (ca_pc c') ∧ (n + turns_left (ca_pc c') <= turns_left (ca_pc c))%nat) as Hgen.
  { clear. induction 1 as [w|n w w1 w' _ Hsame _ IH|n o c0 w w' Hc0 Hr _ IH]; intros c Hc Ha.
    - exists c. auto.
    - apply IH; [congruence|done].
    - simplify_eq. destruct (turn_closer lm o id c0 w Hc0 Ha Hr) as (c1 & Hc1 & Ha1 & Hlt).
      destruct (IH c1 Hc1 Ha1) as (c' & ? & ? & ?). exists c'. split_and!; [done..|lia]. }
  intros Hc Ht. destruct (Hgen _ _ _ Ht _ Hc I) as (c & Hc' & Ha & Hn). exists c. cbn in Hn. split_and!; [done|lia|].
  intros ->. assert (turns_left (ca_pc c) = 0)%nat as H0 by lia.
  destruct (ca_pc c) as [| |b a|b a ? ?|b a ? ? ?| |e]; eauto; unfold turns_left, attempts_left, MAX_CAS_RETRIES in *; try lia; destruct b; lia.
Qed.
Lemma acquire_ends_witness :
  ∃ c, lw_callers (caller_step demo_limiter kv_ok 1 (acquire 1 "acc" g_orders demo_store)) !! 1 = Some c ∧ (1 <= 14)%nat ∧
    (1%nat = 14%nat → ca_pc c = pc_returned ∨ ∃ e, ca_pc c = pc_raised e).
Proof.
  refine (acquire_ends demo_limiter 1 "acc" g_orders 1 (acquire 1 "acc" g_orders demo_store) _ _ _); [reflexivity|].
  eapply (ot_turn _ _ 0 kv_ok); [reflexivity|exact I|apply ot_refl].
Defined.
