(* ===== verification/Bybit.v ===== *)
(** * The Bybit v5 adapter

    Models packages/exchange/bybit_v5/{client,adapter,ws}.py.  The remote side
    is the parameter [post]: it takes a signed request and answers, times out
    or fails otherwise, and has its own state [R], which also holds the clock.
    HMAC-SHA256, compact [json.dumps], [urlencode], and the text of a container
    are parameters.  The limiter is any [limiter_ops].  [bybit_client] makes the
    adapter an [exchange_client], so what holds of the execution service holds
    over it.  Time spent in back-off sleeps is the remote's.  A result whose
    list field is not a JSON list raises. *)

From S2P Require Import Prelude Json Dec DecText Float64 PyNum Sizing PaperDb PaperExchange ExecDb Exchange RateLimiter.
From stdpp Require Import pretty sorting.
Open Scope Z_scope.

(** ** packages/exchange/bybit_v5/client.py *)
Inductive HttpMethod := GET | POST | DELETE.
Record request := mkRequest { rq_method : HttpMethod; rq_path : string; rq_params : option dict; rq_body : option dict }.
(** What goes out: the query and the content, with the headers that sign them. *)
Record wire := mkWire {
  wi_method : HttpMethod; wi_path : string; wi_query : option dict; wi_content : option string; wi_headers : list (string * string);
}.
(** [http_timeout]: ConnectError, ReadTimeout or PoolTimeout; [http_failure]:
    any other exception of httpx; a body is [None] when it is not JSON. *)
Inductive http_outcome := http_timeout | http_failure | http_response (status : Z) (body : option json).

Definition RECV_WINDOW_MS : Z := 5000.
Definition RETCODE_RATE_LIMIT : list Z := [10006; 10016].
Definition RETCODE_AUTH : list Z := [10003; 10004].
Definition RETCODE_REJECT : list Z := [10001; 10005].
Definition RETCODE_BENIGN : list Z := [110043].
Definition in_codes (c : Z) (l : list Z) : bool := bool_decide (c ∈ l).

Definition translate_retcode (retcode : Z) (retmsg : string) : exn :=
  if in_codes retcode RETCODE_RATE_LIMIT then RateLimitError
  else if in_codes retcode RETCODE_AUTH then AuthError
  else if in_codes retcode RETCODE_REJECT then OrderRejected retmsg
  else ExchangeError ("retCode=" +:+ pretty retcode +:+ " retMsg=" +:+ retmsg).

Definition key_le (a b : string * json) : Prop := String.leb a.1 b.1 = true.
#[global] Instance key_le_dec a b : Decision (key_le a b).
Proof. unfold key_le. apply _. Defined.
Definition sorted_items (d : dict) : dict := merge_sort key_le d.

Section client.
Context {R : Type} (post : wire → ST R http_outcome) (now : R → Z).
Context (hmac_hex : string → string → string) (dumps : dict → string) (urlencode : dict → string) (repr : json → string).
Context (api_key api_secret : string).
Abbreviation RS := (ST R).

Definition sign_request (params body : option dict) (timestamp_ms : Z) : list (string * string) :=
  let payload_tail := match body, params with
    | Some b, _ => dumps b
    | None, Some (x :: p) => urlencode (sorted_items (x :: p))
    | None, _ => ""
    end in
  let payload := pretty timestamp_ms +:+ api_key +:+ pretty RECV_WINDOW_MS +:+ payload_tail in
  [("X-BAPI-API-KEY", api_key); ("X-BAPI-TIMESTAMP", pretty timestamp_ms);
   ("X-BAPI-RECV-WINDOW", pretty RECV_WINDOW_MS); ("X-BAPI-SIGN", hmac_hex api_secret payload)].
Definition signed (r : request) (timestamp_ms : Z) : wire :=
  let headers := sign_request (rq_params r) (rq_body r) timestamp_ms in
  mkWire (rq_method r) (rq_path r) (sorted_items <$> rq_params r) (dumps <$> rq_body r)
    (match rq_body r with Some _ => headers ++ [("Content-Type", "application/json")] | None => headers end).
Definition send (r : request) : RS http_outcome :=
  t ← gets now; post (signed r (t / 1000)).

Definition result_field (envelope : dict) : dict := match dict_get "result" envelope with Some (JObj r) => r | _ => [] end.
(** The envelope of a 2xx answer. *)
Definition open_envelope (body : option json) : res dict :=
  match body with
  | None => Err (ExchangeError "malformed response body")
  | Some (JObj envelope) =>
      retcode ← match dict_get "retCode" envelope with Some v => py_int v | None => Ok (-1) end;
      let retmsg := match dict_get "retMsg" envelope with Some v => py_text repr v | None => "" end in
      if (retcode =? 0) || in_codes retcode RETCODE_BENIGN then Ok (result_field envelope)
      else Err (translate_retcode retcode retmsg)
  | Some _ => Err (AttributeError "get")
  end.
(** [_request_with_retry] with [left] attempts to go. *)
Fixpoint request_with_retry (left : nat) (r : request) : RS dict :=
  match left with
  | O => throw NetworkTimeout
  | S left' =>
      o ← send r;
      let again := match left' with O => throw NetworkTimeout | S _ => request_with_retry left' r end in
      match o with
      | http_timeout => again
      | http_failure => throw (RuntimeError "httpx")
      | http_response status body =>
          if (status =? 401) || (status =? 403) then throw AuthError
          else if status =? 429 then throw RateLimitError
          else if (500 <=? status) && (status <? 600) then again
          else if 400 <=? status then throw (ExchangeError ("HTTP " +:+ pretty status))
          else lift_res (open_envelope body)
      end
  end.
Definition client_request (r : request) (retries : nat) : RS dict := request_with_retry (S retries) r.
End client.

(** ** packages/exchange/bybit_v5/adapter.py *)
(** What the adapter uses of the limiter. *)
Record limiter_ops (L : Type) := mkLimiterOps {
  lo_acquire : string → EndpointGroup → ST L unit;
  lo_signal_upstream_rate_limit : ST L unit;
}.
Arguments mkLimiterOps {L}. Arguments lo_acquire {L}. Arguments lo_signal_upstream_rate_limit {L}.

(** The attributes that change, with the state of the limiter and the remote. *)
Record bybit (L R : Type) := mkBybit {
  by_leverage_cache : gmap (string * Z) Z; by_instruments_cache : gmap string (InstrumentInfo * Z);
  by_hits : list EndpointGroup; by_limiter : L; by_remote : R;
}.
Arguments mkBybit {L R}. Arguments by_leverage_cache {L R}. Arguments by_instruments_cache {L R}. Arguments by_hits {L R}.
Arguments by_limiter {L R}. Arguments by_remote {L R}.

Definition CATEGORY : json := JStr "linear".
Definition to_bybit_side (s : side) : json := JStr (match s with buy => "Buy" | sell => "Sell" end).
Definition MAX_CLOSED_PNL_PAGES : nat := 10.
Definition MAX_FUNDING_PAGES : nat := 10.

(** [x not in ("", None)]. *)
Definition filled (v : option json) : option json :=
  match v with Some JNull | Some (JStr "") | None => None | Some v => Some v end.
Definition opt_decimal (v : option json) : res (option dec) :=
  match filled v with Some v => d ← decimal_str v; Ok (Some d) | None => Ok None end.
(** [x or None]. *)
Definition truthy (v : option json) : option json :=
  match v with
  | Some v => match v with
              | JNull | JBool false | JInt 0 | JStr "" | JList [] | JObj [] => None
              | JFloat text => match dec_of_str text with Ok d => if deqb d dzero then None else Some v | Err _ => Some v end
              | _ => Some v
              end
  | None => None
  end.
(** The dict of an item; another value has no [get]. *)
Definition as_dict (v : json) : res dict := match v with JObj d => Ok d | _ => Err (AttributeError "get") end.
Definition get_list (r : dict) : res (list json) :=
  match dict_get "list" r with None => Ok [] | Some (JList l) => Ok l | Some _ => Err (TypeError "list") end.
Fixpoint res_map {A B} (f : A → res B) (l : list A) : res (list B) :=
  match l with [] => Ok [] | x :: l' => y ← f x; ys ← res_map f l'; Ok (y :: ys) end.

Section mapping.
Context (repr : json → string).
Abbreviation text := (py_text repr).
Definition bybit_side (v : json) : option side :=
  match v with JStr "Buy" => Some buy | JStr "Sell" => Some sell | _ => None end.
Definition opt_leverage (v : option json) : res (option Z) :=
  match filled v with Some v => n ← py_int (JStr (text v)); Ok (Some n) | None => Ok None end.

Definition map_position_row (row : json) : res Position :=
  item ← as_dict row;
  sd ← subscript "side" (dict_get "side" item);
  entry_price ← opt_decimal (dict_get "avgPrice" item);
  leverage ← opt_leverage (dict_get "leverage" item);
  unrealized_pnl ← opt_decimal (dict_get "unrealisedPnl" item);
  sl ← opt_decimal (dict_get "stopLoss" item);
  symbol ← subscript "symbol" (dict_get "symbol" item);
  size ← (v ← subscript "size" (dict_get "size" item); decimal_of v);
  Ok (mkExPosition (text symbol) (bybit_side sd) size entry_price leverage unrealized_pnl
        (match sl with Some d => if dltb dzero d then Some d else None | None => None end)).

Definition sum_fills (items : list json) : res (dec * dec) :=
  foldl (fun acc row =>
    a ← acc; item ← as_dict row;
    price ← (v ← subscript "execPrice" (dict_get "execPrice" item); decimal_of v);
    qty ← (v ← subscript "execQty" (dict_get "execQty" item); decimal_of v);
    Ok (dadd a.1 (dmul price qty), dadd a.2 qty)) (Ok (dzero, dzero)) items.

Definition parse_instrument (symbol : string) (row : json) : res InstrumentInfo :=
  raw ← as_dict row;
  lot ← (v ← subscript "lotSizeFilter" (dict_get "lotSizeFilter" raw); as_dict v);
  price_filter ← match truthy (dict_get "priceFilter" raw) with Some v => as_dict v | None => Ok [] end;
  match dict_get "tickSize" price_filter with
  | None | Some JNull => Err (OrderRejected ("instrument priceFilter.tickSize missing for " +:+ symbol))
  | Some tick =>
      step ← (v ← subscript "qtyStep" (dict_get "qtyStep" lot); decimal_of v);
      mn ← (v ← subscript "minOrderQty" (dict_get "minOrderQty" lot); decimal_of v);
      notional ← decimal_of (default (JStr "0") (dict_get "minNotionalValue" lot));
      t ← decimal_of tick;
      Ok (mkInstrument symbol step mn notional t)
  end.
End mapping.

Section adapter.
Context {L R : Type} (post : wire → ST R http_outcome) (now : R → Z).
Context (hmac_hex : string → string → string) (dumps : dict → string) (urlencode : dict → string) (repr : json → string).
Context (api_key api_secret : string) (limiter : limiter_ops L) (sub_account : string).
(** The cache lifetimes, in microseconds. *)
Context (leverage_cache_ttl instruments_cache_ttl : Z).
Abbreviation BY := (ST (bybit L R)).

Definition on_remote {A} (m : ST R A) : BY A := fun s =>
  let '(r, h) := m (by_remote s) in
  (r, mkBybit (by_leverage_cache s) (by_instruments_cache s) (by_hits s) (by_limiter s) h).
Definition on_limiter {A} (m : ST L A) : BY A := fun s =>
  let '(r, l) := m (by_limiter s) in
  (r, mkBybit (by_leverage_cache s) (by_instruments_cache s) (by_hits s) l (by_remote s)).
Definition clock : BY Z := gets (fun s => now (by_remote s)).

Definition on_rate_limit_hit (g : EndpointGroup) : BY unit :=
  modify (fun s => mkBybit (by_leverage_cache s) (by_instruments_cache s) (by_hits s ++ [g]) (by_limiter s) (by_remote s)) ;;
  on_limiter (lo_signal_upstream_rate_limit limiter).
Definition is_rate_limit (e : exn) : bool := match e with RateLimitError => true | _ => false end.
(** The shape of every call: a token, the request, and on a rate limit the
    shared pause before the exception goes on. *)
Definition call (g : EndpointGroup) (r : request) (retries : nat) : BY dict :=
  on_limiter (lo_acquire limiter sub_account g) ;;
  x ← attempt is_rate_limit (on_remote (client_request post now hmac_hex dumps urlencode repr api_key api_secret r retries));
  match x with Ok d => mret d | Err e => on_rate_limit_hit g ;; throw e end.

Definition fresh (ttl cached_at now : Z) : bool := now - cached_at <? ttl.
Definition leverage_request (symbol : string) (leverage : Z) : request :=
  mkRequest POST "/v5/position/set-leverage" None
    (Some [("category", CATEGORY); ("symbol", JStr symbol); ("buyLeverage", JStr (pretty leverage)); ("sellLeverage", JStr (pretty leverage))]).
Definition set_leverage (symbol : string) (leverage : Z) : BY unit :=
  s ← get_st;
  if match by_leverage_cache s !! (symbol, leverage) with Some t => fresh leverage_cache_ttl t (now (by_remote s)) | None => false end
  then mret tt
  else
    call g_positions (leverage_request symbol leverage) 3 ;;
    t ← clock;
    modify (fun s => mkBybit (<[(symbol, leverage) := t]> (by_leverage_cache s)) (by_instruments_cache s) (by_hits s) (by_limiter s) (by_remote s)).

Definition order_request (symbol : string) (sd : side) (qty : dec) (reduce_only : bool) : request :=
  mkRequest POST "/v5/order/create" None
    (Some [("category", CATEGORY); ("symbol", JStr symbol); ("side", to_bybit_side sd); ("orderType", JStr "Market");
           ("qty", JStr (dec_str qty)); ("reduceOnly", JBool reduce_only)]).
Definition is_network_timeout (e : exn) : bool := match e with NetworkTimeout => true | _ => false end.
(** The limiter is asked outside the [try], so its errors are not translated. *)
Definition place_market_order (symbol : string) (sd : side) (qty : dec) (reduce_only : bool) : BY OrderPlaceResult :=
  on_limiter (lo_acquire limiter sub_account g_orders) ;;
  x ← attempt (fun e => is_rate_limit e || is_network_timeout e)
        (on_remote (client_request post now hmac_hex dumps urlencode repr api_key api_secret (order_request symbol sd qty reduce_only) 0));
  match x with
  | Ok result =>
      id ← lift_res (subscript "orderId" (dict_get "orderId" result));
      t ← clock;
      mret (mkPlaced (py_text repr id) t None)
  | Err RateLimitError => on_rate_limit_hit g_orders ;; throw RateLimitError
  | Err _ => throw (UnknownState "place_market_order")
  end.

Definition opt_field (k : string) (d : option dec) : dict := match d with Some d => [(k, JStr (dec_str d))] | None => [] end.
Definition stop_request (symbol : string) (mode : tpsl) (sl tp size : option dec) : request :=
  mkRequest POST "/v5/position/trading-stop" None
    (Some ([("category", CATEGORY); ("symbol", JStr symbol); ("tpslMode", JStr (match mode with Full => "Full" | Partial => "Partial" end))]
           ++ opt_field "stopLoss" sl ++ opt_field "takeProfit" tp ++ opt_field "tpSize" size)).
Definition set_trading_stop (symbol : string) (mode : tpsl) (sl tp size : option dec) : BY unit :=
  call g_positions (stop_request symbol mode sl tp size) 3 ;; mret tt.
Definition cancel_order (symbol order_id : string) : BY unit :=
  call g_orders (mkRequest POST "/v5/order/cancel" None (Some [("category", CATEGORY); ("symbol", JStr symbol); ("orderId", JStr order_id)])) 3 ;;
  mret tt.

Definition get_positions (symbol : option string) : BY (list Position) :=
  let scope := match symbol with Some s => ("symbol", JStr s) | None => ("settleCoin", JStr "USDT") end in
  result ← call g_positions (mkRequest GET "/v5/position/list" (Some [("category", CATEGORY); scope]) None) 3;
  lift_res (items ← get_list result; res_map (map_position_row repr) items).

Definition get_fill_price (symbol order_id : string) : BY (option dec) :=
  result ← call g_orders (mkRequest GET "/v5/execution/list"
    (Some [("category", CATEGORY); ("symbol", JStr symbol); ("orderId", JStr order_id); ("limit", JInt 100)]) None) 3;
  items ← lift_res (get_list result);
  match items with
  | [] => mret None
  | _ =>
      x ← lift_res (sum_fills items);
      if deqb x.2 dzero then mret None else q ← lift_res (ddiv x.1 x.2); mret (Some q)
  end.

Definition fetch_instrument (symbol : string) : BY InstrumentInfo :=
  result ← call g_market (mkRequest GET "/v5/market/instruments-info" (Some [("category", CATEGORY); ("symbol", JStr symbol)]) None) 3;
  items ← lift_res (get_list result);
  match items with
  | [] => throw (OrderRejected ("instrument not found on exchange: " +:+ symbol))
  | row :: _ =>
      info ← lift_res (parse_instrument symbol row);
      t ← clock;
      modify (fun s => mkBybit (by_leverage_cache s) (<[symbol := (info, t)]> (by_instruments_cache s)) (by_hits s) (by_limiter s) (by_remote s)) ;;
      mret info
  end.
Definition get_instrument_info (symbol : string) : BY InstrumentInfo :=
  s ← get_st;
  match by_instruments_cache s !! symbol with
  | Some (info, t) => if fresh instruments_cache_ttl t (now (by_remote s)) then mret info else fetch_instrument symbol
  | None => fetch_instrument symbol
  end.

(** The pages of a list: [row] folds one item into the total; the loop stops at
    a page without a cursor or after [pages]. *)
Fixpoint paginate {A} (pages : nat) (path : string) (base : dict) (row : A → json → res A) (cursor : option json) (total : A) : BY A :=
  match pages with
  | O => mret total
  | S n =>
      let params := base ++ match cursor with Some c => [("cursor", c)] | None => [] end in
      result ← call g_positions (mkRequest GET path (Some params) None) 3;
      total' ← lift_res (items ← get_list result; foldl (fun acc x => a ← acc; row a x) (Ok total) items);
      match truthy (dict_get "nextPageCursor" result) with
      | None => mret total'
      | Some c => paginate n path base row (Some c) total'
      end
  end.
Definition own_account {A} (acc : string) (m : BY A) : BY A :=
  if bool_decide (acc = sub_account) then m else throw (ValueError "sub_account mismatch").
Definition add_closed_pnl (total : dec) (row : json) : res dec :=
  item ← as_dict row; p ← (v ← subscript "closedPnl" (dict_get "closedPnl" item); decimal_of v); Ok (dadd total p).
Definition get_closed_pnl_cumulative (acc : string) : BY dec :=
  own_account acc (paginate MAX_CLOSED_PNL_PAGES "/v5/position/closed-pnl" [("category", CATEGORY); ("limit", JInt 200)] add_closed_pnl None dzero).
Definition get_closed_pnl_window (acc : string) (since : Z) : BY dec :=
  own_account acc (paginate MAX_CLOSED_PNL_PAGES "/v5/position/closed-pnl"
    [("category", CATEGORY); ("limit", JInt 200); ("startTime", JInt (to_millis (total_seconds since)))] add_closed_pnl None dzero).
Definition add_funding (fees : list FundingFee) (row : json) : res (list FundingFee) :=
  item ← as_dict row;
  symbol ← subscript "symbol" (dict_get "symbol" item);
  settled_at ← (v ← subscript "transactionTime" (dict_get "transactionTime" item); ms ← py_int v; from_millis ms);
  funding ← (v ← subscript "funding" (dict_get "funding" item); decimal_str v);
  Ok (fees ++ [mkFunding (py_text repr symbol) settled_at funding]).
Definition get_funding_fees_window (acc : string) (since : Z) : BY (list FundingFee) :=
  own_account acc (paginate MAX_FUNDING_PAGES "/v5/asset/transaction-log"
    [("category", CATEGORY); ("type", JStr "SETTLEMENT"); ("limit", JInt 200); ("startTime", JInt (to_millis (total_seconds since)))] add_funding None []).

Definition balance_field (k : string) (acct : dict) : res dec := v ← subscript k (dict_get k acct); decimal_str v.
Definition get_account_balance (acc : string) : BY AccountBalance :=
  own_account acc (
    result ← call g_positions (mkRequest GET "/v5/account/wallet-balance" (Some [("accountType", JStr "UNIFIED")]) None) 3;
    items ← lift_res (get_list result);
    match items with
    | [] => throw (ExchangeError "wallet-balance: empty account list (auth/account anomaly)")
    | row :: _ => lift_res (
        acct ← as_dict row;
        w ← balance_field "totalWalletBalance" acct; a ← balance_field "totalAvailableBalance" acct;
        e ← balance_field "totalEquity" acct; m ← balance_field "totalMarginBalance" acct; u ← balance_field "totalPerpUPL" acct;
        Ok (mkBalance w a e m u))
    end).
Definition get_mark_price (symbol : string) : BY dec :=
  result ← call g_market (mkRequest GET "/v5/market/tickers" (Some [("category", CATEGORY); ("symbol", JStr symbol)]) None) 3;
  items ← lift_res (get_list result);
  match items with
  | [] => throw (OrderRejected ("instrument not found on exchange: " +:+ symbol))
  | row :: _ => lift_res (item ← as_dict row; v ← subscript "markPrice" (dict_get "markPrice" item); decimal_str v)
  end.

Definition bybit_client : exchange_client (bybit L R) := {|
  ex_set_leverage := set_leverage; ex_place_market_order := place_market_order; ex_set_trading_stop := set_trading_stop;
  ex_get_positions := get_positions; ex_get_fill_price := get_fill_price; ex_get_instrument_info := get_instrument_info;
  ex_get_account_balance := get_account_balance; ex_get_mark_price := get_mark_price;
  ex_get_closed_pnl_cumulative := get_closed_pnl_cumulative; ex_get_closed_pnl_window := get_closed_pnl_window;
  ex_get_funding_fees_window := get_funding_fees_window;
|}.
End adapter.

(** ** packages/exchange/bybit_v5/ws.py *)
Section private_ws.
Context (repr : json → string).
Abbreviation text := (py_text repr).
Record BybitV5PrivateWs := mkPrivateWs {
  pw_executions : list ExecutionEvent; pw_positions : list PositionEvent; pw_auth_failure_count : Z;
}.
Definition decimal_field (k : string) (item : dict) : res dec := v ← subscript k (dict_get k item); decimal_str v.
Definition time_field (k : string) (item : dict) : res Z := v ← subscript k (dict_get k item); ms ← py_int v; from_millis ms.

Definition map_execution_event (row : json) : res ExecutionEvent :=
  item ← as_dict row;
  sd ← subscript "side" (dict_get "side" item);
  exec_id ← subscript "execId" (dict_get "execId" item);
  order_id ← subscript "orderId" (dict_get "orderId" item);
  symbol ← subscript "symbol" (dict_get "symbol" item);
  price ← decimal_field "execPrice" item; qty ← decimal_field "execQty" item; fee ← decimal_field "execFee" item;
  t ← time_field "execTime" item;
  Ok (mkExecEvent (text exec_id) (text order_id) (text symbol) (match sd with JStr "Buy" => buy | _ => sell end) price qty fee t).
Definition map_position_event (row : json) : res PositionEvent :=
  item ← as_dict row;
  sd ← subscript "side" (dict_get "side" item);
  entry_price ← opt_decimal (dict_get "avgPrice" item);
  leverage ← opt_leverage repr (dict_get "leverage" item);
  unrealized_pnl ← opt_decimal (dict_get "unrealisedPnl" item);
  symbol ← subscript "symbol" (dict_get "symbol" item);
  size ← decimal_field "size" item;
  t ← time_field "updatedTime" item;
  Ok (mkPosEvent (text symbol) (bybit_side sd) size entry_price leverage unrealized_pnl t).

Definition put_execution (x : ExecutionEvent) (w : BybitV5PrivateWs) : BybitV5PrivateWs :=
  mkPrivateWs (pw_executions w ++ [x]) (pw_positions w) (pw_auth_failure_count w).
Definition put_position (x : PositionEvent) (w : BybitV5PrivateWs) : BybitV5PrivateWs :=
  mkPrivateWs (pw_executions w) (pw_positions w ++ [x]) (pw_auth_failure_count w).
(** Items of other categories are skipped; the first item that cannot be mapped
    raises. *)
Fixpoint put_items {A} (f : json → res A) (put : A → BybitV5PrivateWs → BybitV5PrivateWs) (items : list json) : ST BybitV5PrivateWs unit :=
  match items with
  | [] => mret tt
  | row :: rest =>
      item ← lift_res (as_dict row);
      match dict_get "category" item with
      | Some (JStr c) => if (c =? "linear")%string then x ← lift_res (f row); modify (put x) else mret tt
      | _ => mret tt
      end ;;
      put_items f put rest
  end.
Definition on_frame (msg : json) : ST BybitV5PrivateWs unit :=
  d ← lift_res (as_dict msg);
  let items := match dict_get "data" d with None => Ok [] | Some (JList l) => Ok l | Some _ => Err (TypeError "data") end in
  match dict_get "topic" d with
  | Some (JStr topic) =>
      if (topic =? "execution")%string then l ← lift_res items; put_items map_execution_event put_execution l
      else if (topic =? "position")%string then l ← lift_res items; put_items map_position_event put_position l
      else mret tt
  | _ => mret tt
  end.
(** Frames as they arrive; one that is not JSON is logged and dropped. *)
Fixpoint receive_until_closed (frames : list (option json)) : ST BybitV5PrivateWs unit :=
  match frames with
  | [] => mret tt
  | None :: rest => receive_until_closed rest
  | Some msg :: rest => on_frame msg ;; receive_until_closed rest
  end.
Definition authenticate (response : option json) : ST BybitV5PrivateWs bool :=
  data ← lift_res (match response with Some v => as_dict v | None => Ok [] end);
  match dict_get "success" data with
  | Some (JBool true) => mret true
  | _ => modify (fun w => mkPrivateWs (pw_executions w) (pw_positions w) (pw_auth_failure_count w + 1)) ;; mret false
  end.
Definition gen_auth_frame (hmac_hex : string → string → string) (api_key api_secret : string) (now : b64) : dict :=
  let expires := to_millis (badd now (mkB 5 0)) in
  [("op", JStr "auth"); ("args", JList [JStr api_key; JInt expires; JStr (hmac_hex api_secret ("GET/realtime" +:+ pretty expires))])].
End private_ws.
