(* ===== verification/BybitFacts.v ===== *)
(** * The Bybit adapter: what is sent, what an answer means, and the price of a
    fill *)

From S2P Require Import Prelude Json Dec DecText Float64 PyNum Sizing Scoring PaperDb PaperExchange RiskGates Consumer ExecDb Exchange Dispatcher Placement Ledger PlacementFacts RateLimiter Bybit.
From stdpp Require Import pretty sorting.
From Stdlib Require Import QArith Qabs Lqa.
Open Scope Z_scope.

(** ** Requests *)
Section requests.
Context {R : Type} (post : wire → ST R http_outcome) (now : R → Z).
Context (hmac_hex : string → string → string) (dumps : dict → string) (urlencode : dict → string) (repr : json → string).
Context (api_key api_secret : string).

(** The remote side with the record of what it got and answered. *)
Definition recorded_post (w : wire) : ST (R * list (wire * http_outcome)) http_outcome := fun '(h, l) =>
  let '(r, h') := post w h in (r, (h', match r with Ok o => l ++ [(w, o)] | Err _ => l end)).
Definition recorded_now (s : R * list (wire * http_outcome)) : Z := now s.1.
(** It always answers: an exception of httpx is an outcome. *)
Definition answers : Prop := ∀ w h, ∃ o h', post w h = (Ok o, h').

(** What one outcome means, and whether it settles a request. *)
Definition verdict (o : http_outcome) : res dict :=
  match o with
  | http_timeout => Err NetworkTimeout
  | http_failure => Err (RuntimeError "httpx")
  | http_response status body =>
      if (status =? 401) || (status =? 403) then Err AuthError
      else if status =? 429 then Err RateLimitError
      else if (500 <=? status) && (status <? 600) then Err NetworkTimeout
      else if 400 <=? status then Err (ExchangeError ("HTTP " +:+ pretty status))
      else open_envelope repr body
  end.
Definition conclusive (o : http_outcome) : bool :=
  match o with
  | http_timeout => false
  | http_failure => true
  | http_response status _ => negb ((500 <=? status) && (status <? 600))
  end.
Abbreviation sign := (signed hmac_hex dumps urlencode api_key api_secret).
Abbreviation retry := (request_with_retry recorded_post recorded_now hmac_hex dumps urlencode repr api_key api_secret).

(** A run of sends of one request, settled by the last. *)
Definition settled_by (r : request) (left : nat) (os : list (wire * http_outcome)) (x : res dict) : Prop :=
  ∃ pre w o, os = pre ++ [(w, o)] ∧ (length os <= left)%nat ∧ Forall (fun wo => (∃ t, wo.1 = sign r t)) os ∧
    Forall (fun wo => conclusive wo.2 = false) pre ∧ x = verdict o ∧ (conclusive o = false → length os = left).

Lemma retry_settled : answers → ∀ left r h l x s', (0 < left)%nat → retry left r (h, l) = (x, s') →
  ∃ os h', s' = (h', l ++ os) ∧ settled_by r left os x.
Proof.
  intros Hpost left r. induction left as [|left IH]; intros h l x s' Hpos E; [lia|]. cbn [request_with_retry] in E.
  set (wi := sign r (now h / 1000)) in *. destruct (Hpost wi h) as (o & h1 & Ho).
  assert (send recorded_post recorded_now hmac_hex dumps urlencode api_key api_secret r (h, l) = (Ok o, (h1, l ++ [(wi, o)]))) as Hsend.
  { unfold send. rewrite (st_bind_run (gets recorded_now) _ (h, l) (now h) (h, l) eq_refl). unfold recorded_post. fold wi. by rewrite Ho. }
  rewrite (st_bind_run _ _ _ _ _ Hsend) in E. set (again := match left with O => _ | S _ => _ end) in E.
  assert (again (h1, l ++ [(wi, o)]) = (x, s') → conclusive o = false → verdict o = Err NetworkTimeout →
    ∃ os h', s' = (h', l ++ os) ∧ settled_by r (S left) os x) as Hagain.
  { intros Ea Hc Hv. unfold again in Ea. destruct left as [|left'].
    - injection Ea as <- <-. exists [(wi, o)], h1. split; [done|]. exists [], wi, o. split_and!; [done|cbn; lia| |done|done|done].
      apply Forall_singleton. by exists (now h / 1000).
    - destruct (IH h1 _ x s' ltac:(lia) Ea) as (os & h' & -> & pre & w & o' & -> & Hlen & Hall & Hpre & Hx & Hlast).
      exists ((wi, o) :: pre ++ [(w, o')]), h'. split; [by rewrite <- app_assoc|]. exists ((wi, o) :: pre), w, o'. split_and!; [done|cbn in *; lia| | |done|].
      + constructor; [by exists (now h / 1000)|done].
      + by constructor.
      + intros Hc'. cbn. by rewrite Hlast. }
  assert (lift_res (verdict o) (h1, l ++ [(wi, o)]) = (x, s') → conclusive o = true →
    ∃ os h', s' = (h', l ++ os) ∧ settled_by r (S left) os x) as Hdone.
  { intros Ed Hc. injection Ed as <- <-. exists [(wi, o)], h1. split; [done|]. exists [], wi, o. split_and!; [done|cbn; lia| |done|done|congruence].
    apply Forall_singleton. by exists (now h / 1000). }
  destruct o as [| |status body]; [by apply Hagain|by apply Hdone|]. cbn [verdict conclusive] in *.
  destruct ((status =? 401) || (status =? 403)) eqn:H1; [apply Hdone; [done|]; by apply orb_true_iff in H1 as [->%Z.eqb_eq| ->%Z.eqb_eq]|].
  destruct (Z.eqb_spec status 429) as [->|]; [by apply Hdone|].
  destruct ((500 <=? status) && (status <? 600)) eqn:H5; [by apply Hagain|].
  destruct (400 <=? status); by apply Hdone.
Qed.

(** A request is sent until its first conclusive answer: every send carries
    the same method, path, query and content under a fresh signature of them;
    only timeouts and 5xx answers are sent again, at most [retries] times; and
    the result is what the last answer means. *)
Lemma request_follows_first_answer r retries h l x s' :
  answers → client_request recorded_post recorded_now hmac_hex dumps urlencode repr api_key api_secret r retries (h, l) = (x, s') →
  ∃ os h', s' = (h', l ++ os) ∧ settled_by r (S retries) os x.
Proof. intros Hpost E. by apply (retry_settled Hpost (S retries) r h l x s' ltac:(lia)). Qed.
End requests.

(** ** Orders and stops *)
Section adapter_facts.
Context {L R : Type} (post : wire → ST R http_outcome) (now : R → Z).
Context (hmac_hex : string → string → string) (dumps : dict → string) (urlencode : dict → string) (repr : json → string).
Context (api_key api_secret : string) (limiter : limiter_ops L) (sub_account : string) (lev_ttl ins_ttl : Z).
Abbreviation REC := (R * list (wire * http_outcome))%type.
Abbreviation sign := (signed hmac_hex dumps urlencode api_key api_secret).
Abbreviation place := (place_market_order (recorded_post post) (recorded_now now) hmac_hex dumps urlencode repr api_key api_secret limiter sub_account).
Abbreviation adapter := (bybit_client (recorded_post post) (recorded_now now) hmac_hex dumps urlencode repr api_key api_secret limiter sub_account lev_ttl ins_ttl).
Hypothesis (Hpost : answers post).

(** The only send of a request that is not retried. *)
Lemma single_send r h l x s' :
  client_request (recorded_post post) (recorded_now now) hmac_hex dumps urlencode repr api_key api_secret r 0 (h, l) = (x, s') →
  ∃ t o h', s' = (h', l ++ [(sign r t, o)]) ∧ x = verdict repr o.
Proof.
  intros E. apply (retry_settled _ _ _ _ _ _ _ _ Hpost 1 r h l x s') in E as (os & h' & -> & pre & w & o & -> & Hlen & Hall & _ & Hx & _); [|lia].
  destruct pre; [|cbn in Hlen; rewrite length_app in Hlen; cbn in Hlen; lia]. cbn in *. apply Forall_singleton in Hall as [t Ht]. cbn in Ht. subst w. eauto 10.
Qed.

Lemma rate_limit_raises {A} g e (s s' : bybit L REC) (x : res A) :
  (on_rate_limit_hit limiter g ;; throw e) s = (x, s') → (∃ e', x = Err e') ∧ by_remote s' = by_remote s.
Proof.
  unfold on_rate_limit_hit, on_limiter, mbind, st_bind, modify. cbn. destruct (lo_signal_upstream_rate_limit limiter _) as [[[]|e3] l3]; intros [= <- <-]; eauto.
Qed.

(** What the caller of [place_market_order] gets for an answer. *)
Definition order_result (o : http_outcome) (x : res OrderPlaceResult) : Prop :=
  match verdict repr o with
  | Ok d => match dict_get "orderId" d with
            | Some id => ∃ t, x = Ok (mkPlaced (py_text repr id) t None)
            | None => x = Err (KeyError "orderId")
            end
  | Err NetworkTimeout => x = Err (UnknownState "place_market_order")
  | Err RateLimitError => ∃ e, x = Err e
  | Err e => x = Err e
  end.

(** C20: an order goes out at most once: unless the limiter refuses, exactly one
    request to create it is sent, for the requested side and a text of the
    quantity that reads back as exactly the quantity; it counts as placed only
    on an answer that says so; and no answer in time, or a server error, is
    reported as an unknown state instead of being sent again. *)
Theorem order_sent_at_most_once symbol sd qty reduce_only (s s' : bybit L REC) x :
  place symbol sd qty reduce_only s = (x, s') →
  (by_remote s' = by_remote s ∧ ∃ e, x = Err e) ∨
  ∃ t o h', by_remote s' = (h', (by_remote s).2 ++ [(sign (order_request symbol sd qty reduce_only) t, o)]) ∧ order_result o x ∧
    ∃ text, rq_body (order_request symbol sd qty reduce_only) =
        Some [("category", CATEGORY); ("symbol", JStr symbol); ("side", to_bybit_side sd); ("orderType", JStr "Market");
              ("qty", JStr text); ("reduceOnly", JBool reduce_only)] ∧ dec_of_str text = Ok qty.
Proof.
  intros E. unfold place_market_order in E.
  apply st_bind_cases in E as [([] & s1 & E1 & E)|(e & E1 & ->)]; unfold on_limiter in E1; destruct (lo_acquire limiter sub_account g_orders (by_limiter s)) as [r1 l1];
    injection E1 as -> <-; [right|left; by eauto].
  set (s1 := mkBybit _ _ _ l1 _) in E. unfold attempt, on_remote at 1 in E. unfold mbind at 1, st_bind at 1 in E. cbn [by_remote s1] in E.
  destruct (by_remote s) as [h l] eqn:Hrem.
  destruct (client_request _ _ _ _ _ _ _ _ _ _ _) as [r2 rem2] eqn:Ec. apply single_send in Ec as (t & o & h' & -> & Hv).
  exists t, o, h'. assert (∃ text, rq_body (order_request symbol sd qty reduce_only) =
        Some [("category", CATEGORY); ("symbol", JStr symbol); ("side", to_bybit_side sd); ("orderType", JStr "Market");
              ("qty", JStr text); ("reduceOnly", JBool reduce_only)] ∧ dec_of_str text = Ok qty) as Htext
    by (exists (dec_str qty); split; [done|apply dec_str_roundtrip]).
  unfold order_result. rewrite <- Hv. destruct r2 as [d|e2].
  - cbn in E. destruct (dict_get "orderId" d) as [id|]; cbn in E; injection E as <- <-; split_and!; eauto.
  - destruct (is_rate_limit e2 || is_network_timeout e2) eqn:He.
    + destruct e2; try discriminate He; cbn in E; [injection E as <- <-; by split_and!|].
      apply rate_limit_raises in E as [? ->]. by split_and!.
    + injection E as <- <-. split_and!; [done| |done]. by destruct e2.
Qed.

(** A code that [_translate_retcode] has no exception for. *)
Definition unmapped (c : Z) : Prop := c ≠ 0 ∧ c ∉ RETCODE_BENIGN ∧ c ∉ RETCODE_RATE_LIMIT ∧ c ∉ RETCODE_AUTH ∧ c ∉ RETCODE_REJECT.
Lemma unmapped_envelope env c : dict_get "retCode" env = Some (JInt c) → unmapped c →
  ∃ m, open_envelope repr (Some (JObj env)) = Err (ExchangeError m).
Proof.
  intros Hc (H0 & H1 & H2 & H3 & H4). cbn [open_envelope]. rewrite Hc. cbn [py_int mbind res_bind].
  unfold translate_retcode, in_codes. rewrite !bool_decide_eq_false_2 by done. destruct (Z.eqb_spec c 0); [done|]. cbn [orb]. by eexists.
Qed.

(** A stop refused with an unmapped code leaves an accepted entry behind:
    the adapter raises a plain ExchangeError, which the handler does not expect,
    so that no flattening order is sent, no row written, nothing published and
    no monitor started. *)
Lemma unmapped_refusal_leaves_entry `{PgNumeric} bot_id accepts r env pr fill_price sl_price tp_price tp_size notional qty
    (w : xworld (bybit L REC)) h l l1 h1 envelope c :
  by_remote (x_exchange w) = (h, l) →
  lo_acquire limiter sub_account g_positions (by_limiter (x_exchange w)) = (Ok tt, l1) →
  let stop := sign (stop_request (or_symbol r) Full (Some sl_price) None None) (now h / 1000) in
  post stop h = (Ok (http_response 200 (Some (JObj envelope))), h1) → dict_get "retCode" envelope = Some (JInt c) → unmapped c →
  ∃ m w', protect_and_persist adapter bot_id accepts r env pr fill_price sl_price tp_price tp_size notional qty w = (Err (ExchangeError m), w') ∧
    x_live w' = x_live w ∧ x_published w' = x_published w ∧ x_monitors w' = x_monitors w ∧
    by_remote (x_exchange w') = (h1, l ++ [(stop, http_response 200 (Some (JObj envelope)))]).
Proof.
  intros Hrem Hacq stop Hans Hc Hu. destruct (unmapped_envelope envelope c Hc Hu) as [m Hm]. exists m.
  assert (ex_set_trading_stop adapter (or_symbol r) Full (Some sl_price) None None (x_exchange w) =
    (Err (ExchangeError m), mkBybit (by_leverage_cache (x_exchange w)) (by_instruments_cache (x_exchange w)) (by_hits (x_exchange w)) l1
       (h1, l ++ [(stop, http_response 200 (Some (JObj envelope)))]))) as Hst.
  { cbn [ex_set_trading_stop bybit_client]. unfold set_trading_stop, Bybit.call, on_limiter, on_remote, attempt, mbind, st_bind. rewrite Hacq.
    cbn [by_remote]. rewrite Hrem. unfold client_request. cbn [request_with_retry]. unfold send, mbind, st_bind, gets, recorded_now, recorded_post. cbn [fst].
    change (signed hmac_hex dumps urlencode api_key api_secret (stop_request (or_symbol r) Full (Some sl_price) None None) (now h / 1000)) with stop.
    rewrite Hans. cbn [Z.eqb orb andb Z.leb Z.ltb Z.compare]. cbv beta iota zeta. cbn -[open_envelope]. rewrite Hm. done. }
  unfold protect_and_persist, attempt, on_exchange. unfold mbind at 1, st_bind at 1. rewrite Hst. cbn [any_exchange_failure rejected_or_transient transient].
  eexists. done.
Qed.

(** ** The leverage cache *)
Lemma call_caches g r retries (s s' : bybit L REC) d :
  Bybit.call (recorded_post post) (recorded_now now) hmac_hex dumps urlencode repr api_key api_secret limiter sub_account g r retries s = (Ok d, s') →
  by_leverage_cache s' = by_leverage_cache s.
Proof.
  intros E. unfold Bybit.call in E. apply st_bind_ok_inv in E as ([] & s1 & E1 & E). apply st_bind_ok_inv in E as (y & s2 & E2 & E).
  assert (by_leverage_cache s1 = by_leverage_cache s) as <-.
  { unfold on_limiter in E1. by destruct (lo_acquire _ _ _ _) as [q l]; injection E1 as _ <-. }
  assert (by_leverage_cache s2 = by_leverage_cache s1) as <-.
  { unfold attempt, on_remote in E2. destruct (client_request _ _ _ _ _ _ _ _ _ _ _) as [[q|e] h]; [by injection E2 as _ <-|]. destruct (is_rate_limit e); [by injection E2 as _ <-|done]. }
  destruct y as [d'|e]; [by injection E as _ <-|]. by apply st_bind_ok_inv in E as ([] & s3 & _ & E).
Qed.
(** The cache knows that a leverage was set, not that another was set since: an
    earlier value asked for again within its lifetime is not sent, and the
    exchange stays at the later one. *)
Lemma leverage_cache_is_stale symbol a b t (s s1 : bybit L REC) : a ≠ b → by_leverage_cache s !! (symbol, a) = Some t →
  ex_set_leverage adapter symbol b s = (Ok tt, s1) → recorded_now now (by_remote s1) - t < lev_ttl →
  ex_set_leverage adapter symbol a s1 = (Ok tt, s1).
Proof.
  intros Hab Ht E Hfresh. cbn [ex_set_leverage bybit_client] in *.
  assert (by_leverage_cache s1 !! (symbol, a) = Some t) as Ht1.
  { unfold set_leverage in E. rewrite (st_bind_run get_st _ s s s eq_refl) in E. destruct (match _ with Some _ => _ | None => _ end); [by injection E as <-|].
    apply st_bind_ok_inv in E as (d & s2 & Ec & E). apply call_caches in Ec. unfold Bybit.clock, gets, modify in E. injection E as <-. cbn.
    rewrite lookup_insert_ne by congruence. by rewrite Ec. }
  unfold set_leverage. rewrite (st_bind_run get_st _ s1 s1 s1 eq_refl), Ht1. case_match eqn:Hf; [done|]. apply Z.ltb_ge in Hf. change (lev_ttl <= recorded_now now (by_remote s1) - t) in Hf. lia.
Qed.
End adapter_facts.

(** ** The price of a fill *)
Section average.
Local Open Scope Q_scope.
Definition unit_error : Q := p10 (-27).
Definition up : Q := 1 + unit_error.
Definition down : Q := 1 - unit_error.
Fixpoint qpow (x : Q) (n : nat) : Q := match n with O => 1 | S n => qpow x n * x end.

Lemma up_down : 1 <= up ∧ 0 < down ∧ down <= 1.
Proof. split_and!; vm_compute; congruence. Qed.
Lemma qpow_up n : 1 <= qpow up n.
Proof. induction n as [|n IH]; cbn [qpow]; [lra|]. destruct up_down as [H _]. nra. Qed.
Lemma qpow_down n : 0 < qpow down n ∧ qpow down n <= 1.
Proof. destruct up_down as (_ & H1 & H2). induction n as [|n [IH1 IH2]]; cbn [qpow]; [split; lra|]. split; [by apply Qmult_lt_0_compat|nra]. Qed.

Lemma rel_between (x y e : Q) : 0 <= x → e <= unit_error → 0 <= e → Qabs (y - x) <= e * Qabs x → x * down <= y ∧ y <= x * up.
Proof.
  intros Hx He He0 H. rewrite (Qabs_pos x) in H by done. apply Qabs_Qle_condition in H. unfold up, down.
  assert (e * x <= unit_error * x) by (by apply Qmult_le_compat_r). lra.
Qed.
Lemma ulp_small : ulp_rel <= unit_error ∧ 0 <= ulp_rel.
Proof. split; vm_compute; congruence. Qed.
Lemma dadd_between a b : 0 <= dval a → 0 <= dval b → (dval a + dval b) * down <= dval (dadd a b) ∧ dval (dadd a b) <= (dval a + dval b) * up.
Proof. intros Ha Hb. destruct ulp_small. apply (rel_between _ _ ulp_rel); try done; [lra|apply dadd_rel]. Qed.
Lemma dmul_between a b : 0 <= dval a → 0 <= dval b → dval a * dval b * down <= dval (dmul a b) ∧ dval (dmul a b) <= dval a * dval b * up.
Proof. intros Ha Hb. destruct ulp_small. apply (rel_between _ _ ulp_rel); try done; [by apply Qmult_le_0_compat|apply dmul_rel]. Qed.

Definition fill_of (row : json) : res (dec * dec) :=
  item ← as_dict row;
  price ← (v ← subscript "execPrice" (dict_get "execPrice" item); decimal_of v);
  qty ← (v ← subscript "execQty" (dict_get "execQty" item); decimal_of v);
  Ok (price, qty).
Definition add_fill (a : dec * dec) (f : dec * dec) : dec * dec := (dadd a.1 (dmul f.1 f.2), dadd a.2 f.2).
Lemma sum_fills_pairs items fs : res_map fill_of items = Ok fs → sum_fills items = Ok (foldl add_fill (dzero, dzero) fs).
Proof.
  unfold sum_fills. generalize (dzero, dzero). revert fs. induction items as [|row items IH]; intros fs acc E; cbn in E; [by injection E as <-|].
  apply bind_ok_inv in E as (f & Ef & E). apply bind_ok_inv in E as (fs' & Efs & E). injection E as <-. cbn [foldl].
  rewrite <- (IH fs' (add_fill acc f) Efs). f_equal. unfold fill_of in Ef. apply bind_ok_inv in Ef as (item & -> & Ef).
  apply bind_ok_inv in Ef as (p & Hp & Ef). apply bind_ok_inv in Ef as (q & Hq & Ef). injection Ef as <-. cbn [mbind res_bind]. rewrite Hp, Hq. done.
Qed.

(** The computed sums against exact ones of notional and quantity. *)
Definition sums_ok (lo hi : Q) (n : nat) (x : dec * dec) : Prop := ∃ N D, 0 <= N ∧ lo * D <= N ∧ N <= hi * D ∧ (n = O ∧ D == 0 ∨ 0 < D) ∧
  N * qpow down (S n) <= dval x.1 ∧ dval x.1 <= N * qpow up (S n) ∧ D * qpow down n <= dval x.2 ∧ dval x.2 <= D * qpow up n.
Definition fill_ok (lo hi : Q) (f : dec * dec) : Prop := lo <= dval f.1 ∧ dval f.1 <= hi ∧ 0 < dval f.2.

(** One more summand, each rounded operation between [b] and [a] times exact. *)
Lemma sums_step (N D pq q m x1 x2 y1 y2 A B a b : Q) :
  0 <= N → 0 <= D → 0 <= pq → 0 <= q → 1 <= a → 0 <= b → b <= 1 → 1 <= A → 0 <= B → B <= 1 →
  pq * b <= m → m <= pq * a → N * (B * b) <= x1 → x1 <= N * (A * a) → D * B <= x2 → x2 <= D * A →
  (x1 + m) * b <= y1 → y1 <= (x1 + m) * a → (x2 + q) * b <= y2 → y2 <= (x2 + q) * a →
  (N + pq) * (B * b * b) <= y1 ∧ y1 <= (N + pq) * (A * a * a) ∧ (D + q) * (B * b) <= y2 ∧ y2 <= (D + q) * (A * a).
Proof.
  intros HN HD Hpq Hq Ha Hb0 Hb1 HA HB0 HB1 M1 M2 X1 X2 X3 X4 Y1 Y2 Y3 Y4.
  assert (∀ x y z, x <= y → 0 <= z → x * z <= y * z) as mono by (intros; by apply Qmult_le_compat_r).
  assert (pq * (B * b) <= pq * b) as P1 by (pose proof (mono B 1 (pq * b) HB1 (Qmult_le_0_compat _ _ Hpq Hb0)); lra).
  assert (0 <= a) as Ha0 by lra.
  assert (pq * a <= pq * (A * a)) as P2 by (pose proof (mono 1 A (pq * a) HA (Qmult_le_0_compat _ _ Hpq Ha0)); lra).
  pose proof (mono B 1 q HB1 Hq) as P3. pose proof (mono 1 A q HA Hq) as P4.
  assert ((N + pq) * (B * b) <= x1 + m) as Q1 by lra. assert (x1 + m <= (N + pq) * (A * a)) as Q2 by lra.
  assert ((D + q) * B <= x2 + q) as Q3 by lra. assert (x2 + q <= (D + q) * A) as Q4 by lra.
  apply (mono _ _ b) in Q1, Q3; [|done..]. apply (mono _ _ a) in Q2, Q4; [|done..]. split_and!; lra.
Qed.
Lemma add_fill_ok lo hi n x f : 0 <= lo → sums_ok lo hi n x → fill_ok lo hi f → sums_ok lo hi (S n) (add_fill x f).
Proof.
  intros Hlo (N & D & HN & H1 & H2 & HD & H3 & H4 & H5 & H6) (Hp1 & Hp2 & Hq). destruct f as [p q]. cbn [fst snd] in *.
  assert (0 <= D) as HD0 by (destruct HD as [[_ ->]|]; lra).
  assert (0 <= dval p) as Hp by lra. assert (0 <= dval q) as Hq0 by lra.
  destruct up_down as (Hu & Hd0 & Hd1). apply Qlt_le_weak in Hd0.
  pose proof (qpow_up n) as Hun. destruct (qpow_down n) as [Hdn0 Hdn1]. apply Qlt_le_weak in Hdn0.
  destruct (dmul_between p q Hp Hq0) as [Hm1 Hm2]. assert (0 <= dval p * dval q) as Hpq by (apply Qmult_le_0_compat; assumption).
  assert (0 <= dval (dmul p q)) as Hm by (eapply Qle_trans; [|exact Hm1]; apply Qmult_le_0_compat; assumption).
  assert (0 <= dval x.1) as Hx1 by (eapply Qle_trans; [|exact H3]; cbn [qpow]; apply Qmult_le_0_compat; [assumption|apply Qmult_le_0_compat; assumption]).
  assert (0 <= dval x.2) as Hx2 by (eapply Qle_trans; [|exact H5]; apply Qmult_le_0_compat; assumption).
  destruct (dadd_between x.1 (dmul p q) Hx1 Hm) as [Ha1 Ha2]. destruct (dadd_between x.2 q Hx2 Hq0) as [Hb1 Hb2].
  exists (N + dval p * dval q), (D + dval q). cbn [add_fill fst snd qpow] in *.
  destruct (sums_step N D (dval p * dval q) (dval q) (dval (dmul p q)) (dval x.1) (dval x.2) _ _ _ _ up down
    HN HD0 Hpq Hq0 Hu Hd0 Hd1 Hun Hdn0 Hdn1 Hm1 Hm2 H3 H4 H5 H6 Ha1 Ha2 Hb1 Hb2) as (R1 & R2 & R3 & R4).
  assert (lo * dval q <= dval p * dval q) by (apply Qmult_le_compat_r; assumption). assert (dval p * dval q <= hi * dval q) by (apply Qmult_le_compat_r; assumption).
  clear Hu Hd0 Hd1 Hm1 Hm2 Ha1 Ha2 Hb1 Hb2. refine (conj _ (conj _ (conj _ (conj (or_intror _) (conj R1 (conj R2 (conj R3 R4))))))); clear R1 R2 R3 R4; lra.
Qed.
Lemma add_fills_ok lo hi fs n x : 0 <= lo → sums_ok lo hi n x → Forall (fill_ok lo hi) fs → sums_ok lo hi (n + length fs) (foldl add_fill x fs).
Proof.
  intros Hlo Hx Hfs. revert n x Hx. induction Hfs as [|f fs Hf _ IH]; intros n x Hx; cbn [foldl length]; [by rewrite Nat.add_0_r|].
  rewrite Nat.add_succ_r. apply (IH (S n)). by apply add_fill_ok.
Qed.
End average.

Lemma fills_average_ok lo hi fs : (0 <= lo)%Q → fs ≠ [] → Forall (fill_ok lo hi) fs →
  let x := foldl add_fill (dzero, dzero) fs in let n := length fs in
  deqb x.2 dzero = false ∧ ∃ q, ddiv x.1 x.2 = Ok q ∧
    (lo * qpow down (S (S n)) <= dval q * qpow up n)%Q ∧ (dval q * qpow down n <= hi * qpow up (S (S n)))%Q.
Proof.
  intros Hlo Hne Hfs x n. assert (sums_ok lo hi n x) as (N & D & HN & H1 & H2 & HD & H3 & H4 & H5 & H6).
  { apply (add_fills_ok lo hi fs 0 (dzero, dzero) Hlo); [|done]. exists 0%Q, 0%Q. cbn [fst snd].
    split_and!; rewrite ?Qmult_0_l, ?Qmult_0_r, ?dval_zero; try apply Qle_refl. left. split; reflexivity. }
  destruct HD as [[Hn _]|HD]; [by destruct fs|]. destruct up_down as (Hu & Hd0 & Hd1).
  pose proof (qpow_up n) as Hun. destruct (qpow_down n) as [Hdn0 Hdn1].
  assert (0 < dval x.2)%Q as Hx2 by (eapply Qlt_le_trans; [|exact H5]; apply Qmult_lt_0_compat; assumption).
  split. { destruct (deqb x.2 dzero) eqn:E; [|done]. apply deqb_spec in E. rewrite dval_zero in E. rewrite E in Hx2. by apply Qlt_irrefl in Hx2. }
  assert (0 < coef x.2) as Hc by by apply (dval_sign x.2).
  assert (0 <= dval x.1)%Q as Hx1 by (eapply Qle_trans; [|exact H3]; apply Qmult_le_0_compat; [assumption|apply Qlt_le_weak, (qpow_down (S n))]).
  destruct (ddiv_ok x.1 x.2 ltac:(lia)) as [q Hq]. exists q. split; [done|].
  pose proof (ddiv_rel x.1 x.2 q Hq) as Hrel. apply (rel_between _ _ unit_error) in Hrel as [R1 R2]; [|assumption|apply Qle_refl|vm_compute; congruence].
  assert (0 <= dval q)%Q as Hq0 by (apply (dval_sign q), (ddiv_nonneg x.1 x.2 q Hq); [by apply (dval_sign x.1)|done]).
  cbn [qpow] in *. set (A := qpow up n) in *. set (B := qpow down n) in *. clearbody A B.
  generalize dependent up. generalize dependent down. intros dn H3 Hd0 Hd1 R1 u H4 Hu R2.
  assert (∀ a b c, a <= b → 0 <= c → a * c <= b * c)%Q as mono by (intros; by apply Qmult_le_compat_r). apply Qlt_le_weak in Hd0.
  assert (0 <= u)%Q as Hu0 by lra. assert (0 <= B)%Q as HB0 by (by apply Qlt_le_weak).
  pose proof (mono _ _ _ H3 Hd0) as L1. pose proof (mono _ _ _ H4 Hu0) as U1.
  pose proof (mono _ _ _ H6 Hq0) as L2. pose proof (mono _ _ _ H5 Hq0) as U2.
  pose proof (mono _ _ (B * dn * dn)%Q H1 ltac:(repeat apply Qmult_le_0_compat; assumption)) as L3.
  pose proof (mono _ _ (A * u * u)%Q H2 ltac:(repeat apply Qmult_le_0_compat; [lra|assumption..])) as U3.
  split; apply (Qmult_le_r _ _ D HD); lra.
Qed.

(** The price of an order is the average of its fills: for fills of positive
    quantity at prices between [lo] and [hi], get_fill_price returns a price in
    that range, up to one part in 10^27 per rounded operation (two per fill and
    four more). *)
Lemma fill_price_is_average {L R} (post : wire → ST R http_outcome) now hmac_hex dumps urlencode repr api_key api_secret (limiter : limiter_ops L)
    sub_account symbol order_id lo hi (s s1 : bybit L R) d items fs :
  Bybit.call post now hmac_hex dumps urlencode repr api_key api_secret limiter sub_account g_orders
    (mkRequest GET "/v5/execution/list"
       (Some [("category", CATEGORY); ("symbol", JStr symbol); ("orderId", JStr order_id); ("limit", JInt 100)]) None) 3 s = (Ok d, s1) →
  get_list d = Ok items → res_map fill_of items = Ok fs → fs ≠ [] → (0 <= lo)%Q → Forall (fill_ok lo hi) fs →
  ∃ q, get_fill_price post now hmac_hex dumps urlencode repr api_key api_secret limiter sub_account symbol order_id s = (Ok (Some q), s1) ∧
    (lo * qpow down (S (S (length fs))) <= dval q * qpow up (length fs))%Q ∧
    (dval q * qpow down (length fs) <= hi * qpow up (S (S (length fs))))%Q.
Proof.
  intros Ec Hl Hf Hne Hlo Hok. destruct (fills_average_ok lo hi fs Hlo Hne Hok) as (Hz & q & Hq & Hb1 & Hb2). exists q. split; [|done].
  unfold get_fill_price. rewrite (st_bind_run _ _ _ _ _ Ec). rewrite Hl, (st_bind_run (lift_res (Ok items)) _ s1 items s1 eq_refl).
  destruct items as [|row items]; [cbn in Hf; congruence|]. rewrite (sum_fills_pairs _ _ Hf), (st_bind_run (lift_res (Ok _)) _ s1 _ s1 eq_refl), Hz.
  by rewrite Hq, (st_bind_run (lift_res (Ok q)) _ s1 q s1 eq_refl).
Qed.

(** ** Concrete runs *)
Section witnesses.
#[local] Existing Instance pg_half_away.
(** A remote that answers from a list and then times out. *)
Definition scripted (w : wire) : ST (list http_outcome) http_outcome := fun os =>
  match os with [] => (Ok http_timeout, []) | o :: os' => (Ok o, os') end.
Lemma scripted_answers : answers scripted.
Proof. intros w [|o os]; cbn; eauto. Qed.
Definition demo_now (os : list http_outcome) : Z := 1000000.
Definition demo_hmac (k m : string) : string := k +:+ m.
Definition demo_dumps (d : dict) : string := foldr (fun kv s => kv.1 +:+ s) "" d.
Definition demo_repr (v : json) : string := "".
Definition demo_answer (code : Z) (result : dict) : http_outcome :=
  http_response 200 (Some (JObj [("retCode", JInt code); ("retMsg", JStr ""); ("result", JObj result)])).
Definition free_limiter : limiter_ops unit := mkLimiterOps (fun _ _ => mret tt) (mret tt).
Definition demo_adapter {R} (h : R) : bybit unit R := mkBybit ∅ ∅ [] tt h.

Lemma order_sent_at_most_once_witness :
  let run := place_market_order (recorded_post scripted) (recorded_now demo_now) demo_hmac demo_dumps demo_dumps demo_repr "key" "secret" free_limiter
    "acct" "BTCUSDT" buy (15 @ (-3)) false (demo_adapter ([http_timeout; demo_answer 0 [("orderId", JStr "1")]], [])) in
  run.1 = Err (UnknownState "place_market_order") ∧ length (by_remote run.2).2 = 1%nat ∧
  ((by_remote run.2 = ([http_timeout; demo_answer 0 [("orderId", JStr "1")]], []) ∧ ∃ e, run.1 = Err e) ∨
   ∃ t o h', by_remote run.2 = (h', [] ++ [(signed demo_hmac demo_dumps demo_dumps "key" "secret" (order_request "BTCUSDT" buy (15 @ (-3)) false) t, o)]) ∧
     order_result demo_repr o run.1 ∧
     ∃ text, rq_body (order_request "BTCUSDT" buy (15 @ (-3)) false) =
       Some [("category", CATEGORY); ("symbol", JStr "BTCUSDT"); ("side", to_bybit_side buy); ("orderType", JStr "Market");
             ("qty", JStr text); ("reduceOnly", JBool false)] ∧ dec_of_str text = Ok (15 @ (-3))).
Proof.
  cbn zeta. split_and!; [vm_compute; reflexivity|vm_compute; reflexivity|].
  apply (order_sent_at_most_once scripted demo_now demo_hmac demo_dumps demo_dumps demo_repr "key" "secret" free_limiter "acct" scripted_answers
    "BTCUSDT" buy (15 @ (-3)) false (demo_adapter ([http_timeout; demo_answer 0 [("orderId", JStr "1")]], []))). apply surjective_pairing.
Defined.

Definition demo_refused : xworld (bybit unit (list http_outcome * list (wire * http_outcome))) :=
  demo_world (demo_adapter ([demo_answer 110007 []], [])).

Definition demo_fill_row (price qty : string) : json := JObj [("execPrice", JStr price); ("execQty", JStr qty)].
Definition demo_fills : dict := [("list", JList [demo_fill_row "100.5" "2"; demo_fill_row "101" "1"])].

(** A position row that cannot be mapped, here a fractional leverage, ends the
    loop that also delivers the fills: those that follow are never queued. *)
Definition demo_execution : json := JObj [("topic", JStr "execution"); ("data", JList [JObj [("category", JStr "linear"); ("side", JStr "Buy");
  ("execId", JStr "x"); ("orderId", JStr "1"); ("symbol", JStr "BTCUSDT"); ("execPrice", JStr "100"); ("execQty", JStr "1"); ("execFee", JStr "0"); ("execTime", JStr "1000")]])].
Definition demo_fraction : json := JObj [("topic", JStr "position"); ("data", JList [JObj [("category", JStr "linear"); ("side", JStr "Buy");
  ("leverage", JStr "12.5"); ("symbol", JStr "BTCUSDT"); ("size", JStr "1"); ("updatedTime", JStr "1000")]])].
Lemma unparsable_position_ends_fills :
  let start := mkPrivateWs [] [] 0 in
  (length (pw_executions (receive_until_closed demo_repr [Some demo_execution] start).2) = 1%nat) ∧
  receive_until_closed demo_repr [Some demo_fraction; Some demo_execution] start = (Err (ValueError "invalid literal for int()"), start).
Proof. split; vm_compute; reflexivity. Qed.
End witnesses.
