(* ===== verification/Alerts.v ===== *)
(** * The alerting service

    Models services/alerting/app/{config,consumer,dedup,telegram}.py: the rules
    of alerts.yaml (as the JSON value its text parses to), the suppression of
    repeated alerts, and the delivery to Telegram.  The remote side [T] holds the
    clock; [post] delivers or fails, [sleep] lets time pass, [render] is the
    template engine and [digest] the SHA-256 of the canonical payload.  Numbers
    are finite: the texts nan and infinity are no numbers here. *)

From S2P Require Import Prelude Json Dec DecText Float64 PyNum.
From stdpp Require Import pretty.
Open Scope Z_scope.

(** ** config.py *)
Inductive severity := sev_info | sev_warning | sev_critical.
#[global] Instance severity_eq_dec : EqDecision severity.
Proof. solve_decision. Defined.
Record AlertThreshold := mkThreshold { th_field : string; th_min : b64 }.
Record RuleConfig := mkRule {
  ru_event : string; ru_channel : string; ru_severity : severity; ru_template : string; ru_threshold : option AlertThreshold;
}.
Record AlertsConfig := mkAlerts {
  al_channels : list (string * string); al_window : Z; al_rules : list RuleConfig; al_chat_ids : list (string * string);
}.

(** First exact match, else the first wildcard. *)
Fixpoint find_rule_loop (event_name : string) (wildcard : option RuleConfig) (rules : list RuleConfig) : option RuleConfig :=
  match rules with
  | [] => wildcard
  | r :: rest =>
      if (ru_event r =? event_name)%string then Some r
      else find_rule_loop event_name
             (match wildcard with None => if (ru_event r =? "*")%string then Some r else None | Some _ => wildcard end) rest
  end.
Definition find_rule (c : AlertsConfig) (event_name : string) : option RuleConfig := find_rule_loop event_name None (al_rules c).

(** Fields of a pydantic model: a string that is not empty, a number. *)
Definition text_field (k : string) (d : dict) : res string :=
  match dict_get k d with Some (JStr s) => if (s =? "")%string then Err (ValueError k) else Ok s | _ => Err (ValueError k) end.
Definition float_value (v : json) : res b64 :=
  match v with
  | JInt z => Ok (fl z 1)
  | JBool b => Ok (if b then bone else bzero)
  | JFloat text | JStr text => d ← dec_of_str text; Ok (float_of_dec d)
  | _ => Err (TypeError "float() argument")
  end.
Definition as_model (v : json) : res dict := match v with JObj d => Ok d | _ => Err (TypeError "argument after ** must be a mapping") end.
Definition parse_threshold (v : json) : res AlertThreshold :=
  d ← as_model v; f ← text_field "field" d; m ← (v ← subscript "min" (dict_get "min" d); float_value v); Ok (mkThreshold f m).
Definition parse_severity (d : dict) : res severity :=
  match dict_get "severity" d with
  | Some (JStr "info") => Ok sev_info | Some (JStr "warning") => Ok sev_warning | Some (JStr "critical") => Ok sev_critical
  | _ => Err (ValueError "severity")
  end.
Definition parse_rule (v : json) : res RuleConfig :=
  d ← as_model v;
  event ← text_field "event" d; channel ← text_field "channel" d; sev ← parse_severity d; template ← text_field "template" d;
  threshold ← match dict_get "threshold" d with None | Some JNull => Ok None | Some v => t ← parse_threshold v; Ok (Some t) end;
  Ok (mkRule event channel sev template threshold).
Fixpoint each {A B} (f : A → res B) (l : list A) : res (list B) :=
  match l with [] => Ok [] | x :: l' => y ← f x; ys ← each f l'; Ok (y :: ys) end.
Definition parse_channel (kv : string * json) : res (string * string) :=
  d ← as_model kv.2; e ← text_field "telegram_chat_id_env" d; Ok (kv.1, e).
Definition parse_window (v : json) : res Z :=
  d ← as_model v; n ← (v ← subscript "dedup_window_seconds" (dict_get "dedup_window_seconds" d); py_int v);
  if (1 <=? n) && (n <=? 86400) then Ok n else Err (ValueError "dedup_window_seconds").
Definition resolve_chat (env : gmap string string) (ch : string * string) : res (string * string) :=
  let v := default "" (env !! ch.2) in if (v =? "")%string then Err (ValueError ("channel requires env var " +:+ ch.2)) else Ok (ch.1, v).
Definition load_alerts_config (env : gmap string string) (raw : json) : res AlertsConfig :=
  match raw with
  | JObj d =>
      match default (JObj []) (dict_get "channels" d), default (JList []) (dict_get "rules" d) with
      | JObj (c :: cs), JList rules_raw =>
          channels ← each parse_channel (c :: cs);
          window ← parse_window (default (JObj []) (dict_get "rate_limit" d));
          rules ← each parse_rule rules_raw;
          each (fun r => if bool_decide (ru_channel r ∈ channels.*1) then Ok tt else Err (ValueError "rule references undefined channel")) rules ≫= fun _ =>
          chat_ids ← each (resolve_chat env) channels;
          Ok (mkAlerts channels window rules chat_ids)
      | JObj (_ :: _), _ => Err (ValueError "rules must be a list")
      | _, _ => Err (ValueError "must define non-empty channels mapping")
      end
  | _ => Err (ValueError "top-level must be a mapping")
  end.

(** ** dedup.py: the time of the last mark of each key, in microseconds *)
Definition cleanup (window now : Z) (marks : gmap string Z) : gmap string Z := filter (fun kv => now - window <= kv.2) marks.

(** ** consumer.py and telegram.py *)
Definition passes_threshold (payload : dict) (t : AlertThreshold) : bool :=
  match dict_get (th_field t) payload with
  | None | Some JNull => false
  | Some v => match float_value v with Ok x => bleb (th_min t) x | Err _ => false end
  end.
Record alert_envelope := mkAlertEnvelope { ae_payload : dict; ae_correlation_id : string; ae_published_at : Z }.

Section service.
Context {T : Type} (now : T → Z) (post : string → string → ST T bool) (sleep : b64 → ST T unit).
Context (render : RuleConfig → string → alert_envelope → res string) (digest : string → dict → string).
Context (config : AlertsConfig) (max_retries : nat) (initial_backoff : b64).

(** The marks, what was posted (chat, text, whether it arrived) and the remote
    side. *)
Record alert_state := mkAlertState { as_marks : gmap string Z; as_posts : list (string * string * bool); as_remote : T }.
Abbreviation AS := (ST alert_state).
Definition on_remote {A} (m : ST T A) : AS A := fun s =>
  let '(r, t) := m (as_remote s) in (r, mkAlertState (as_marks s) (as_posts s) t).
Definition alert_now : AS Z := gets (fun s => now (as_remote s)).
Definition window : Z := al_window config * 1000000.

Definition is_duplicate (key : string) (at_ : Z) : AS bool := fun s =>
  let marks := cleanup window at_ (as_marks s) in (Ok (bool_decide (is_Some (marks !! key))), mkAlertState marks (as_posts s) (as_remote s)).
Definition mark (key : string) (at_ : Z) : AS unit := modify (fun s => mkAlertState (<[key := at_]> (as_marks s)) (as_posts s) (as_remote s)).

(** [send] with [left] attempts after this one. *)
Fixpoint attempts (left : nat) (backoff : b64) (chat_id text : string) : AS unit :=
  ok ← on_remote (post chat_id text);
  modify (fun s => mkAlertState (as_marks s) (as_posts s ++ [(chat_id, text, ok)]) (as_remote s)) ;;
  if (ok : bool) then mret tt
  else match left with
       | O => mret tt
       | S left' => on_remote (sleep backoff) ;; attempts left' (bmul backoff (mkB 2 0)) chat_id text
       end.
Definition telegram_send (channel text : string) (is_critical : bool) : AS unit :=
  match list_find (fun kv => kv.1 = channel) (al_chat_ids config) with
  | None => mret tt
  | Some (_, (_, chat_id)) => attempts (if is_critical then max_retries else 0) initial_backoff chat_id text
  end.

Definition handle_alert (env : alert_envelope) : AS unit :=
  match dict_get "event" (ae_payload env) with
  | Some (JStr event_name) =>
      if (event_name =? "")%string then mret tt
      else match find_rule config event_name with
      | None => mret tt
      | Some rule =>
          if match ru_threshold rule with Some t => negb (passes_threshold (ae_payload env) t) | None => false end then mret tt
          else
            let key := digest (ru_event rule) (ae_payload env) in
            t ← alert_now;
            dup ← is_duplicate key t;
            if (dup : bool) then mret tt
            else
              t' ← alert_now;
              mark key t' ;;
              rendered ← lift_res (render rule event_name env);
              telegram_send (ru_channel rule) rendered (bool_decide (ru_severity rule = sev_critical))
      end
  | _ => mret tt
  end.

(** ** Repeated alerts *)
Context (post_forward : ∀ c x t r t', post c x t = (r, t') → now t <= now t') (sleep_forward : ∀ b t r t', sleep b t = (r, t') → now t <= now t').

(** The key of an alert that has a rule and passes its threshold, and whether it
    gets past the suppression. *)
Definition alert_key (env : alert_envelope) : option string :=
  match dict_get "event" (ae_payload env) with
  | Some (JStr event_name) =>
      if (event_name =? "")%string then None
      else rule ← find_rule config event_name;
           if match ru_threshold rule with Some t => negb (passes_threshold (ae_payload env) t) | None => false end then None
           else Some (digest (ru_event rule) (ae_payload env))
  | _ => None
  end.
Definition accepted (env : alert_envelope) (s : alert_state) : option string :=
  k ← alert_key env; if bool_decide (is_Some (cleanup window (now (as_remote s)) (as_marks s) !! k)) then None else Some k.

Lemma attempts_forward left backoff c x s r s' : attempts left backoff c x s = (r, s') → as_marks s' = as_marks s ∧ now (as_remote s) <= now (as_remote s').
Proof.
  revert backoff s. induction left as [|left IH]; intros backoff s E; cbn [attempts] in E;
    (apply st_bind_cases in E as [(ok & s1 & E1 & E)|(e & E1 & ->)]; unfold on_remote in E1; destruct (post c x (as_remote s)) as [q t] eqn:Hp;
      apply post_forward in Hp; injection E1 as -> <-; [|done]).
  - rewrite (st_bind_run (modify _) _ _ tt _ eq_refl) in E. by destruct ok; injection E as <- <-.
  - rewrite (st_bind_run (modify _) _ _ tt _ eq_refl) in E. destruct ok; [by injection E as <- <-|].
    apply st_bind_cases in E as [([] & s2 & E2 & E)|(e & E2 & ->)]; unfold on_remote in E2; cbn in E2; destruct (sleep backoff t) as [q t2] eqn:Hs;
      apply sleep_forward in Hs; injection E2 as -> <-; [|cbn; lia + (split; [done|lia])].
    apply IH in E. cbn in E. destruct E as [-> ?]. split; [done|lia].
Qed.
Lemma alert_cases env s r s' : handle_alert env s = (r, s') →
  match accepted env s with
  | None => as_posts s' = as_posts s ∧ as_remote s' = as_remote s ∧ (as_marks s' = as_marks s ∨ as_marks s' = cleanup window (now (as_remote s)) (as_marks s))
  | Some k => as_marks s' = <[k := now (as_remote s)]> (cleanup window (now (as_remote s)) (as_marks s)) ∧ now (as_remote s) <= now (as_remote s')
  end.
Proof.
  unfold handle_alert, accepted, alert_key. destruct (dict_get "event" (ae_payload env)) as [[]|]; try (intros [= <- <-]; cbn; auto; fail).
  destruct (_ =? "")%string; [intros [= <- <-]; cbn; auto|]. destruct (find_rule config _) as [rule|]; [|intros [= <- <-]; cbn; auto]. cbn [mbind option_bind].
  destruct (match ru_threshold rule with Some t => _ | None => _ end); [intros [= <- <-]; cbn; auto|]. cbn [mbind option_bind].
  intros E. rewrite (st_bind_run alert_now _ s (now (as_remote s)) s eq_refl) in E. set (key := digest _ _) in *.
  unfold is_duplicate in E. unfold mbind at 1, st_bind at 1 in E. destruct (bool_decide _); [injection E as <- <-; cbn; auto|].
  unfold alert_now, mark, gets, modify in E. unfold mbind at 1 2, st_bind at 1 2 in E. cbn [as_marks as_posts as_remote] in E.
  destruct (render rule _ env) as [text|e]; [|injection E as <- <-; cbn; split; [done|lia]].
  rewrite (st_bind_run (lift_res (Ok text)) _ _ text _ eq_refl) in E. unfold telegram_send in E. destruct (list_find _ _) as [[? [? chat]]|]; [|injection E as <- <-; cbn; split; [done|lia]].
  by apply attempts_forward in E.
Qed.

(** Alerts handled one after the other, with time passing in between; the trace
    holds the accepted keys with their times. *)
Inductive served : alert_state → list (Z * string) → alert_state → Prop :=
| served_none s : served s [] s
| served_alert s tr s1 env r s2 : served s tr s1 → handle_alert env s1 = (r, s2) →
    served s (tr ++ match accepted env s1 with Some k => [(now (as_remote s1), k)] | None => [] end) s2
| served_pass s tr s1 t : served s tr s1 → now (as_remote s1) <= now t → served s tr (mkAlertState (as_marks s1) (as_posts s1) t).

Definition remembered (tr : list (Z * string)) (s : alert_state) : Prop :=
  ∀ t k, (t, k) ∈ tr → t <= now (as_remote s) ∧ (now (as_remote s) - t <= window → ∃ t', as_marks s !! k = Some t' ∧ t <= t').
Lemma marks_later tr s s' : remembered tr s → now (as_remote s) <= now (as_remote s') →
  as_marks s' = as_marks s ∨ as_marks s' = cleanup window (now (as_remote s)) (as_marks s) → remembered tr s'.
Proof.
  intros Hr Hn Hm t k Hin. destruct (Hr t k Hin) as [Ht Hw]. split; [lia|]. intros Hle. destruct Hw as (t' & Hk & Htt); [lia|]. exists t'. split; [|done].
  destruct Hm as [-> | ->]; [done|]. apply map_lookup_filter_Some. split; [done|]. cbn. lia.
Qed.
Definition spaced (tr : list (Z * string)) : Prop := ∀ i j t1 t2 k, (i < j)%nat → tr !! i = Some (t1, k) → tr !! j = Some (t2, k) → window < t2 - t1.

(** C30: an alert is not repeated within the window: however alerts arrive, are
    rendered and delivered or not, and time passes, two acceptances of the same
    alert are more than the window apart, and an alert that is not accepted
    posts nothing. *)
Theorem alerts_not_repeated s tr s' : as_marks s = ∅ → served s tr s' → spaced tr ∧
  ∀ env r s2, handle_alert env s' = (r, s2) → accepted env s' = None → as_posts s2 = as_posts s'.
Proof.
  intros H0 Hs. split; [|intros env r s2 E Ha; apply alert_cases in E; rewrite Ha in E; by destruct E].
  assert (remembered tr s' ∧ spaced tr) as [_ Hsp]; [|done].
  induction Hs as [s|s tr s1 env r s2 Hs IH E|s tr s1 t Hs IH Ht]; [split; [intros t k Hin; by apply elem_of_nil in Hin|by intros i j]|..].
  - destruct (IH H0) as [Hrem Hsp]. apply alert_cases in E. destruct (accepted env s1) as [k|] eqn:Hacc.
    + destruct E as [Hm Hn]. assert (∀ t, (t, k) ∈ tr → window < now (as_remote s1) - t) as Hold.
      { intros t Hin. destruct (Z_lt_dec window (now (as_remote s1) - t)) as [|Hle]; [done|]. destruct (Hrem t k Hin) as [_ Hw]. destruct Hw as (t' & Hk & Htt); [lia|].
        exfalso. unfold accepted in Hacc. destruct (alert_key env) as [k'|]; [|done]. cbn in Hacc. case_bool_decide as Hd; [done|]. injection Hacc as ->. apply Hd. exists t'.
        apply map_lookup_filter_Some. split; [done|]. cbn. lia. }
      split.
      * intros t k' [Hin|Hin]%elem_of_app.
        -- destruct (Hrem t k' Hin) as [Ht Hw]. split; [lia|]. intros Hle. rewrite Hm. destruct (decide (k = k')) as [->|Hne].
           ++ exists (now (as_remote s1)). by rewrite lookup_insert_eq.
           ++ rewrite lookup_insert_ne by done. destruct Hw as (t' & Hk & Htt); [lia|]. exists t'. split; [|done]. apply map_lookup_filter_Some. split; [done|]. cbn. lia.
        -- apply list_elem_of_singleton in Hin as [= -> ->]. split; [done|]. intros _. exists (now (as_remote s1)). rewrite Hm, lookup_insert_eq. split; [done|lia].
      * intros i j t1 t2 k' Hij Hi Hj. assert (j < length (tr ++ [(now (as_remote s1), k)]))%nat as Hlj by (by eapply lookup_lt_Some). rewrite length_app in Hlj. cbn in Hlj.
        rewrite lookup_app_l in Hi by lia. destruct (decide (j < length tr)%nat); [rewrite lookup_app_l in Hj by lia; exact (Hsp i j t1 t2 k' Hij Hi Hj)|].
        rewrite lookup_app_r in Hj by lia. replace (j - length tr)%nat with 0%nat in Hj by lia. injection Hj as <- <-. apply Hold. by eapply list_elem_of_lookup_2.
    + rewrite app_nil_r. split; [|done]. destruct E as (_ & Hn & Hm). eapply marks_later; [done|rewrite Hn; lia|done].
  - destruct (IH H0) as [Hrem Hsp]. split; [|done]. eapply marks_later; [done|done|by left].
Qed.

(** An alert counts as handled before it is delivered: when rendering or every
    post fails, the same alert within the window is not tried again. *)
Lemma undelivered_alert_is_silenced env s r s1 t k : handle_alert env s = (r, s1) → accepted env s = Some k →
  now (as_remote s) <= now t → now t - now (as_remote s) <= window → accepted env (mkAlertState (as_marks s1) (as_posts s1) t) = None.
Proof.
  intros E Ha Ht Hw. apply alert_cases in E. rewrite Ha in E. destruct E as [Hm _]. unfold accepted in *. destruct (alert_key env) as [k'|]; [|done].
  cbn in Ha |- *. destruct (bool_decide _) in Ha; [done|]. injection Ha as ->. rewrite bool_decide_eq_true_2; [done|].
  exists (now (as_remote s)). apply map_lookup_filter_Some. cbn. rewrite Hm, lookup_insert_eq. split; [done|lia].
Qed.
(** A message is posted until it arrives, at most [left] times more. *)
Lemma attempts_posts left backoff c x s r s' : (∀ t, ∃ b t', post c x t = (Ok b, t')) → (∀ b t, ∃ t', sleep b t = (Ok tt, t')) →
  attempts left backoff c x s = (r, s') →
  ∃ n b, (n <= left)%nat ∧ as_posts s' = as_posts s ++ replicate n (c, x, false) ++ [(c, x, b)] ∧ (b = false → n = left) ∧ r = Ok tt.
Proof.
  intros Hp Hs.
  assert (∀ {A} (m : ST T A) a s t, m (as_remote s) = (Ok a, t) → on_remote m s = (Ok a, mkAlertState (as_marks s) (as_posts s) t)) as Hrun
    by (intros A m a s0 t Hm; unfold on_remote; by rewrite Hm).
  revert backoff s. induction left as [|left IH]; intros backoff s E; cbn [attempts] in E; destruct (Hp (as_remote s)) as (b & t & Hb);
    rewrite (st_bind_run _ _ _ _ _ (Hrun _ _ _ _ _ Hb)), (st_bind_run (modify _) _ _ tt _ eq_refl) in E; cbn [as_marks as_posts as_remote] in E.
  - exists 0%nat, b. destruct b; injection E as <- <-; by split_and!.
  - destruct b; [injection E as <- <-; exists 0%nat, true; split_and!; [lia|done..]|]. destruct (Hs backoff t) as (t2 & Hs2).
    rewrite (st_bind_run (on_remote (sleep backoff)) _ _ _ _ (Hrun _ (sleep backoff) tt (mkAlertState _ _ t) t2 Hs2)) in E.
    apply IH in E as (n & b & Hn & Hposts & Hb' & ->). exists (S n), b. cbn in Hposts. rewrite <- app_assoc in Hposts. split_and!; [lia|done| |done].
    intros Hf. by rewrite (Hb' Hf).
Qed.
End service.

(** ** The shipped configuration *)
Definition shipped_yaml : json := JObj [
  ("channels", JObj [("system", JObj [("telegram_chat_id_env", JStr "TELEGRAM_CHAT_SYSTEM")]); ("trading", JObj [("telegram_chat_id_env", JStr "TELEGRAM_CHAT_TRADING")]);
                     ("pnl", JObj [("telegram_chat_id_env", JStr "TELEGRAM_CHAT_PNL")]); ("security", JObj [("telegram_chat_id_env", JStr "TELEGRAM_CHAT_SECURITY")])]);
  ("rate_limit", JObj [("dedup_window_seconds", JInt 300)]);
  ("rules", JList [JObj [("event", JStr "*"); ("channel", JStr "system"); ("severity", JStr "info"); ("template", JStr "alerts/templates/default.j2")]])].
Definition demo_chats : gmap string string :=
  {["TELEGRAM_CHAT_SYSTEM" := "1"; "TELEGRAM_CHAT_TRADING" := "2"; "TELEGRAM_CHAT_PNL" := "3"; "TELEGRAM_CHAT_SECURITY" := "4"]}.
Definition shipped_config : AlertsConfig := match load_alerts_config demo_chats shipped_yaml with Ok c => c | Err _ => mkAlerts [] 0 [] [] end.
(** The remote side is the clock; nothing arrives. *)
Definition down (chat text : string) : ST Z bool := fun t => (Ok false, t + 1).
Definition doze (b : b64) : ST Z unit := fun t => (Ok tt, t + 1).
Definition plain (rule : RuleConfig) (event : string) (env : alert_envelope) : res string := Ok event.
Definition event_digest (event : string) (payload : dict) : string := event +:+ pretty (Z.of_nat (length payload)).
Definition live_mode_envelope : alert_envelope :=
  mkAlertEnvelope [("event", JStr "live_mode_engaged"); ("bot_id", JStr "alpha"); ("exchange_mode", JStr "live")] "live-mode-alpha" 0.
Abbreviation shipped_handler := (handle_alert (fun t : Z => t) down doze plain event_digest shipped_config 3 bone).

(** With the shipped rules the alert of a live bot is informational: one failed
    post and it is dropped. *)
Lemma live_alert_is_best_effort :
  shipped_handler live_mode_envelope (mkAlertState ∅ [] 0) = (Ok tt, mkAlertState {["*3" := 0]} [("1", "live_mode_engaged", false)] 1).
Proof. vm_compute. reflexivity. Qed.

Lemma alerts_not_repeated_witness :
  ∃ s', shipped_handler live_mode_envelope (mkAlertState {["*3" := 0]} [("1", "live_mode_engaged", false)] 1) = (Ok tt, s') ∧
    as_posts s' = [("1", "live_mode_engaged", false)].
Proof.
  set (s := mkAlertState {["*3" := 0]} [("1", "live_mode_engaged", false)] 1).
  destruct (shipped_handler live_mode_envelope s) as [r s'] eqn:E. exists s'. split; [vm_compute in E; by injection E as <- <-|].
  destruct (alerts_not_repeated (fun t : Z => t) down doze plain event_digest shipped_config 3 bone) with
    (s := mkAlertState (T := Z) ∅ [] 0) (tr := [(0, "*3")]) (s' := s) as [_ Hno].
  - intros c x t q t' [= <- <-]. lia.
  - intros b t q t' [= <- <-]. lia.
  - done.
  - change [(0, "*3")] with ([] ++ match accepted (fun t : Z => t) event_digest shipped_config live_mode_envelope (mkAlertState ∅ [] 0) with
      | Some k => [(0, k)] | None => [] end).
    eapply (served_alert (fun t : Z => t)); [constructor|vm_compute; reflexivity].
  - rewrite (Hno live_mode_envelope r s' E); [done|]. vm_compute. reflexivity.
Defined.
