(* ===== verification/Pool.v ===== *)
(** * The adapters of the execution service

    Models services/execution/app/pool.py with [select_active_bots] of
    packages/db/queries/execution.py: which adapter each active bot gets, from
    which environment variables, and the confirmation that a live bot needs.
    What is built is logged in the order it is built, also when a later bot
    fails.  [json.loads] is a parameter; the bus is any function that takes the
    alert or raises. *)

From S2P Require Import Prelude Json Dec DecText Float64 PyNum Sizing PaperDb PaperExchange RiskGates Scoring Gateway.
From stdpp Require Import sorting.
Open Scope Z_scope.

(** ** packages/db/queries/execution.py *)
#[global] Instance exchange_mode_eq_dec : EqDecision exchange_mode.
Proof. solve_decision. Defined.
Record bots_row := mkBotsRow { bt_bot_id : string; bt_display_name : string; bt_exchange_mode : string; bt_status : string }.
Record BotRow := mkBotRow { br_bot_id : string; br_display_name : string; br_exchange_mode : exchange_mode }.
Definition validate_exchange_mode (value : string) : res exchange_mode :=
  if (value =? "live")%string then Ok em_live else if (value =? "testnet")%string then Ok em_testnet
  else if (value =? "paper")%string then Ok em_paper else if (value =? "demo")%string then Ok em_demo
  else Err (ValueError ("unknown exchange_mode " +:+ value)).
Definition bot_before (a b : bots_row) : Prop := String.leb (bt_bot_id a) (bt_bot_id b) = true.
#[global] Instance bot_before_dec : RelDecision bot_before.
Proof. intros a b. unfold bot_before. apply _. Defined.
Definition bot_row_of (r : bots_row) : res BotRow :=
  m ← validate_exchange_mode (bt_exchange_mode r); Ok (mkBotRow (bt_bot_id r) (bt_display_name r) m).
Fixpoint bot_rows (l : list bots_row) : res (list BotRow) :=
  match l with [] => Ok [] | r :: l' => b ← bot_row_of r; bs ← bot_rows l'; Ok (b :: bs) end.
Definition active (bots : list bots_row) : list bots_row := merge_sort bot_before (filter (fun r => bt_status r = "active") bots).
Definition select_active_bots (bots : list bots_row) : res (list BotRow) := bot_rows (active bots).

(** ** pool.py *)
Definition BYBIT_PROD_REST_URL : string := "https://api.bybit.com".
Definition BYBIT_TESTNET_REST_URL : string := "https://api-testnet.bybit.com".
Definition BYBIT_DEMO_REST_URL : string := "https://api-demo.bybit.com".
Definition BYBIT_PROD_WS_URL : string := "wss://stream.bybit.com/v5/private".
Definition BYBIT_TESTNET_WS_URL : string := "wss://stream-testnet.bybit.com/v5/private".
Definition BYBIT_DEMO_WS_URL : string := "wss://stream-demo.bybit.com/v5/private".
Definition LIVE_MODE_CONFIRM_ENV : string := "BOT_CONFIRM_LIVE".
Definition LIVE_MODE_CONFIRM_VALUE : string := "yes".
Definition LIVE_MODE_ALERT_SUBJECT : string := "system.alerts".

Inductive built :=
| bybit_adapter (api_key api_secret sub_account rest_url ws_url : string)
| paper_adapter (cfg : pe_config).
(** What happens while the pool is built. *)
Inductive pool_event :=
| alerted (subject bot_id : string) (alert : dict)
| constructed (bot_id : string) (b : built).
Record AdapterPoolResult := mkPool { ap_adapters : list (string * built); ap_ws_tasks : list string; ap_paper_tasks : list string; ap_paper_bot_ids : list string }.

Section pool.
Context (env : gmap string string) (json_loads : string → res json).
(** The bus, and the tables a paper adapter is opened on. *)
Context {B : Type} (publish : string → string → dict → ST B unit) (paper_tables : db) (now : Z).
Abbreviation PB := (ST (B * list pool_event)).

Definition note (e : pool_event) : PB unit := modify (fun w => (w.1, w.2 ++ [e])).
Definition require_env (key : string) : res string :=
  match env !! key with
  | Some v => if (v =? "")%string then Err (RuntimeError ("Missing env var: " +:+ key)) else Ok v
  | None => Err (RuntimeError ("Missing env var: " +:+ key))
  end.
Definition validate_slippage_model (value : string) : res slippage_model :=
  if (value =? "fixed_pct")%string then Ok m_fixed_pct else if (value =? "proportional_to_qty")%string then Ok m_proportional_to_qty
  else if (value =? "half_spread")%string then Ok m_half_spread else Err (ValueError ("unknown slippage_model " +:+ value)).
Fixpoint decimals_of (d : dict) : res (list (string * dec)) :=
  match d with [] => Ok [] | (k, v) :: d' => x ← decimal_str v; xs ← decimals_of d'; Ok ((k, x) :: xs) end.
Definition parse_slippage_params (raw : string) : res (gmap string dec) :=
  data ← json_loads raw;
  match data with
  | JObj d => xs ← decimals_of d; Ok (list_to_map xs)
  | _ => Err (ValueError "slippage_params must be JSON object")
  end.

Definition confirmed : bool := (lower (strip (default "" (env !! LIVE_MODE_CONFIRM_ENV))) =? LIVE_MODE_CONFIRM_VALUE)%string.
Definition live_alert (bot_id : string) : dict := [("event", JStr "live_mode_engaged"); ("bot_id", JStr bot_id); ("exchange_mode", JStr "live")].
Definition check_live_mode_safeguard (b : BotRow) : PB unit :=
  match br_exchange_mode b with
  | em_live =>
      if confirmed then
        (fun w => let '(r, bus) := publish LIVE_MODE_ALERT_SUBJECT ("live-mode-" +:+ br_bot_id b) (live_alert (br_bot_id b)) w.1 in (r, (bus, w.2))) ;;
        note (alerted LIVE_MODE_ALERT_SUBJECT (br_bot_id b) (live_alert (br_bot_id b)))
      else throw (RuntimeError "configured for LIVE mode but not confirmed")
  | _ => mret tt
  end.
Definition bybit_urls (m : exchange_mode) : string * string :=
  match m with
  | em_testnet => (BYBIT_TESTNET_REST_URL, BYBIT_TESTNET_WS_URL)
  | em_demo => (BYBIT_DEMO_REST_URL, BYBIT_DEMO_WS_URL)
  | _ => (BYBIT_PROD_REST_URL, BYBIT_PROD_WS_URL)
  end.
Definition construct_bybit_adapter (b : BotRow) : PB built :=
  let prefix := "BOT_" +:+ upper (br_bot_id b) in
  api_key ← lift_res (require_env (prefix +:+ "_BYBIT_API_KEY"));
  api_secret ← lift_res (require_env (prefix +:+ "_BYBIT_API_SECRET"));
  sub_account ← lift_res (require_env (prefix +:+ "_BYBIT_SUB_ACCOUNT"));
  let '(rest_url, ws_url) := bybit_urls (br_exchange_mode b) in
  let a := bybit_adapter api_key api_secret sub_account rest_url ws_url in
  note (constructed (br_bot_id b) a) ;; mret a.
Definition construct_paper_adapter (b : BotRow) : PB built :=
  let prefix := "BOT_" +:+ upper (br_bot_id b) +:+ "_PAPER" in
  seed ← lift_res (v ← require_env (prefix +:+ "_SEED_BALANCE"); dec_of_str v);
  model ← lift_res (v ← require_env (prefix +:+ "_SLIPPAGE_MODEL"); validate_slippage_model v);
  fee_rate ← lift_res (v ← require_env (prefix +:+ "_FEE_RATE"); dec_of_str v);
  params ← lift_res (v ← require_env (prefix +:+ "_SLIPPAGE_PARAMS_JSON"); parse_slippage_params v);
  let cfg := mkConfig (br_bot_id b) seed model fee_rate params live false false None false true true in
  lift_res (paper_exchange_init cfg now paper_tables) ;;
  note (constructed (br_bot_id b) (paper_adapter cfg)) ;; mret (paper_adapter cfg).

(** [adapters[bot_id] = a]; bot ids are the primary key, so none is replaced. *)
Definition build_one (p : AdapterPoolResult) (b : BotRow) : PB AdapterPoolResult :=
  match br_exchange_mode b with
  | em_paper =>
      a ← construct_paper_adapter b;
      mret (mkPool (ap_adapters p ++ [(br_bot_id b, a)]) (ap_ws_tasks p) (ap_paper_tasks p ++ [br_bot_id b]) (ap_paper_bot_ids p ++ [br_bot_id b]))
  | _ =>
      check_live_mode_safeguard b ;;
      a ← construct_bybit_adapter b;
      mret (mkPool (ap_adapters p ++ [(br_bot_id b, a)]) (ap_ws_tasks p ++ [br_bot_id b]) (ap_paper_tasks p) (ap_paper_bot_ids p))
  end.
Fixpoint build_all (p : AdapterPoolResult) (bots : list BotRow) : PB AdapterPoolResult :=
  match bots with [] => mret p | b :: bots' => p' ← build_one p b; build_all p' bots' end.
Definition build_adapter_pool (bots : list bots_row) : PB AdapterPoolResult :=
  rows ← lift_res (select_active_bots bots); build_all (mkPool [] [] [] []) rows.
End pool.

(** ** What the pool guarantees *)
Section guarantees.
Context (env : gmap string string) (json_loads : string → res json).
Context {B : Type} (publish : string → string → dict → ST B unit) (paper_tables : db) (now : Z).

(** The adapter of a bot that trades on Bybit: the URLs of its mode and the
    credentials of its own variables. *)
Definition bybit_of (b : BotRow) (a : built) : Prop :=
  ∃ k s acc, a = bybit_adapter k s acc (bybit_urls (br_exchange_mode b)).1 (bybit_urls (br_exchange_mode b)).2 ∧
    env !! ("BOT_" +:+ upper (br_bot_id b) +:+ "_BYBIT_API_KEY") = Some k ∧
    env !! ("BOT_" +:+ upper (br_bot_id b) +:+ "_BYBIT_API_SECRET") = Some s ∧
    env !! ("BOT_" +:+ upper (br_bot_id b) +:+ "_BYBIT_SUB_ACCOUNT") = Some acc.
Definition adapter_of (b : BotRow) (a : built) : Prop :=
  match br_exchange_mode b with em_paper => ∃ cfg, a = paper_adapter cfg ∧ bot_id cfg = br_bot_id b | _ => bybit_of b a end.
(** What building one bot adds to the log: an alert before a live adapter. *)
Definition announcement (b : BotRow) : list pool_event :=
  match br_exchange_mode b with em_live => [alerted LIVE_MODE_ALERT_SUBJECT (br_bot_id b) (live_alert (br_bot_id b))] | _ => [] end.
Definition added (b : BotRow) (a : option built) (evs : list pool_event) : Prop :=
  match a with
  | Some a => adapter_of b a ∧ evs = announcement b ++ [constructed (br_bot_id b) a] ∧ (br_exchange_mode b = em_live → confirmed env = true)
  | None => evs = [] ∨ evs = announcement b ∧ (br_exchange_mode b = em_live → confirmed env = true)
  end.

Lemma require_env_ok k v : require_env env k = Ok v → env !! k = Some v.
Proof. unfold require_env. destruct (env !! k) as [x|]; [|done]. by destruct (x =? "")%string; intros [= ->]. Qed.
Lemma lift_bind {S A A'} (x : res A) (f : A → ST S A') w r w' :
  (lift_res x ≫= f) w = (r, w') → (∃ a, x = Ok a ∧ f a w = (r, w')) ∨ (∃ e, r = Err e ∧ w' = w).
Proof. unfold mbind, st_bind, lift_res. destruct x as [a|e]; [eauto|]. intros [= <- <-]. eauto. Qed.
Lemma str_app_assoc (a b c : string) : a +:+ (b +:+ c) = (a +:+ b) +:+ c.
Proof. induction a as [|x a IH]; [done|]. exact (f_equal (String x) IH). Qed.

Lemma bybit_run b (w w' : B * list pool_event) r : br_exchange_mode b ≠ em_paper → construct_bybit_adapter env b w = (r, w') →
  match r with
  | Ok a => bybit_of b a ∧ w' = (w.1, w.2 ++ [constructed (br_bot_id b) a])
  | Err _ => w' = w
  end.
Proof.
  intros Hm E. unfold construct_bybit_adapter in E. rewrite <- !str_app_assoc in E.
  destruct (require_env env ("BOT_" +:+ upper (br_bot_id b) +:+ "_BYBIT_API_KEY")) as [k|e] eqn:Hk; [|by injection E as <- <-].
  destruct (require_env env ("BOT_" +:+ upper (br_bot_id b) +:+ "_BYBIT_API_SECRET")) as [s|e] eqn:Hs; [|by injection E as <- <-].
  destruct (require_env env ("BOT_" +:+ upper (br_bot_id b) +:+ "_BYBIT_SUB_ACCOUNT")) as [a|e] eqn:Ha; [|by injection E as <- <-].
  apply require_env_ok in Hk, Hs, Ha. destruct (bybit_urls (br_exchange_mode b)) as [rest ws] eqn:Hu. injection E as <- <-.
  split; [|done]. exists k, s, a. rewrite Hu. by split_and!.
Qed.
Lemma paper_run b (w w' : B * list pool_event) r : br_exchange_mode b = em_paper → construct_paper_adapter env json_loads paper_tables now b w = (r, w') →
  match r with
  | Ok a => adapter_of b a ∧ w' = (w.1, w.2 ++ [constructed (br_bot_id b) a])
  | Err _ => w' = w
  end.
Proof.
  intros Hm E. unfold construct_paper_adapter in E. unfold adapter_of. rewrite Hm.
  apply lift_bind in E as [(seed & _ & E)|(e & -> & ->)]; [|done]. apply lift_bind in E as [(model & _ & E)|(e & -> & ->)]; [|done].
  apply lift_bind in E as [(fee & _ & E)|(e & -> & ->)]; [|done]. apply lift_bind in E as [(params & _ & E)|(e & -> & ->)]; [|done].
  apply lift_bind in E as [(st & _ & E)|(e & -> & ->)]; [|done]. injection E as <- <-. split; [by eexists|done].
Qed.

Definition extend (p : AdapterPoolResult) (b : BotRow) (a : built) : AdapterPoolResult :=
  let id := br_bot_id b in
  match br_exchange_mode b with
  | em_paper => mkPool (ap_adapters p ++ [(id, a)]) (ap_ws_tasks p) (ap_paper_tasks p ++ [id]) (ap_paper_bot_ids p ++ [id])
  | _ => mkPool (ap_adapters p ++ [(id, a)]) (ap_ws_tasks p ++ [id]) (ap_paper_tasks p) (ap_paper_bot_ids p)
  end.
Lemma build_one_run p b (w w' : B * list pool_event) r : build_one env json_loads publish paper_tables now p b w = (r, w') →
  ∃ evs, w'.2 = w.2 ++ evs ∧ match r with Ok p' => ∃ a, p' = extend p b a ∧ added b (Some a) evs | Err _ => added b None evs end.
Proof.
  intros E. unfold build_one in E. unfold extend, added, announcement.
  assert (br_exchange_mode b ≠ em_paper → ∀ w1, (a ← construct_bybit_adapter env b;
      mret (mkPool (ap_adapters p ++ [(br_bot_id b, a)]) (ap_ws_tasks p ++ [br_bot_id b]) (ap_paper_tasks p) (ap_paper_bot_ids p))) w1 = (r, w') →
    match r with
    | Ok p' => ∃ a, p' = extend p b a ∧ adapter_of b a ∧ w'.2 = w1.2 ++ [constructed (br_bot_id b) a]
    | Err _ => w' = w1
    end) as Hby.
  { intros Hm w1 E1. apply st_bind_cases in E1 as [(a & w2 & Ea & E1)|(e & Ea & ->)]; apply bybit_run in Ea as Ha; [|done| |done]; [|done].
    destruct Ha as [Ha ->]. injection E1 as <- <-. exists a. unfold extend, adapter_of. destruct (br_exchange_mode b); done. }
  destruct (br_exchange_mode b) eqn:Hm.
  - apply st_bind_cases in E as [([] & w1 & E1 & E)|(e & E1 & ->)]; unfold check_live_mode_safeguard in E1; rewrite Hm in E1;
      (destruct (confirmed env) eqn:Hc; [|first [done|injection E1 as _ <-; exists []; rewrite app_nil_r; split; [done|by left]]]).
    + apply st_bind_ok_inv in E1 as ([] & w2 & E2 & E1). destruct (publish _ _ _ _) as [x bus] eqn:Hp. injection E2 as -> <-. injection E1 as <-.
      apply Hby in E; [|done]. cbn [snd] in E. destruct r as [p'|e].
      * destruct E as (a & -> & Ha & ->). eexists. rewrite <- app_assoc. split; [done|]. exists a. unfold extend. rewrite Hm. done.
      * subst w'. eexists. split; [done|]. by right.
    + apply st_bind_cases in E1 as [([] & w2 & E2 & E1)|(e' & E2 & [= ->])]; [done|]. destruct (publish _ _ _ _) as [x bus] eqn:Hp. injection E2 as -> <-.
      exists []. rewrite app_nil_r. split; [done|by left].
  - unfold check_live_mode_safeguard in E. rewrite Hm in E. apply (Hby ltac:(done)) in E. destruct r as [p'|e].
    + destruct E as (a & -> & Ha & ->). eexists. split; [done|]. exists a. unfold extend. by rewrite Hm.
    + subst w'. exists []. rewrite app_nil_r. split; [done|by left].
  - apply st_bind_cases in E as [(a & w1 & E1 & E)|(e & E1 & ->)]; apply paper_run in E1; try done.
    + destruct E1 as [Ha ->]. injection E as <- <-. eexists. split; [done|]. by exists a.
    + subst w'. exists []. rewrite app_nil_r. split; [done|by left].
  - unfold check_live_mode_safeguard in E. rewrite Hm in E. apply (Hby ltac:(done)) in E. destruct r as [p'|e].
    + destruct E as (a & -> & Ha & ->). eexists. split; [done|]. exists a. unfold extend. by rewrite Hm.
    + subst w'. exists []. rewrite app_nil_r. split; [done|by left].
Qed.

(** No production adapter without the confirmation and an earlier alert. *)
Definition announced (log : list pool_event) : Prop := ∀ i bot k s acc ws,
  log !! i = Some (constructed bot (bybit_adapter k s acc BYBIT_PROD_REST_URL ws)) →
  confirmed env = true ∧ ∃ j, (j < i)%nat ∧ log !! j = Some (alerted LIVE_MODE_ALERT_SUBJECT bot (live_alert bot)).
Definition only_active (rows : list BotRow) (log : list pool_event) : Prop := ∀ bot a,
  constructed bot a ∈ log → ∃ b, b ∈ rows ∧ br_bot_id b = bot ∧ adapter_of b a.

Lemma production_is_live b k s acc ws : adapter_of b (bybit_adapter k s acc BYBIT_PROD_REST_URL ws) → br_exchange_mode b = em_live.
Proof. unfold adapter_of, bybit_of. destruct (br_exchange_mode b); [done|..]; intros (x & H); naive_solver. Qed.
Lemma announced_added log b a evs : announced log → added b a evs → announced (log ++ evs).
Proof.
  intros Hlog Ha i bot k s acc ws [Hi|[Hge Hi]]%lookup_app_Some.
  { destruct (Hlog _ _ _ _ _ _ Hi) as (? & j & Hj & Hl). split; [done|]. exists j. split; [done|]. by apply lookup_app_l_Some. }
  unfold added, announcement in Ha. destruct a as [a|].
  2:{ exfalso. destruct Ha as [->|[-> _]]; [done|]. apply list_elem_of_lookup_2 in Hi. destruct (br_exchange_mode b); by apply list_elem_of_In in Hi as [Hi|[]] || by apply elem_of_nil in Hi. }
  destruct Ha as (Had & -> & Hc). assert (br_exchange_mode b = em_live) as Hm.
  { apply list_elem_of_lookup_2, elem_of_app in Hi as [Hi|Hi]; [destruct (br_exchange_mode b); [done|by apply elem_of_nil in Hi..]|].
    apply list_elem_of_singleton in Hi as [= -> <-]. by eapply production_is_live. }
  rewrite Hm in Hi. split; [by apply Hc|]. destruct (i - length log)%nat as [|[|n]] eqn:Hn; cbn in Hi; [done| |done].
  injection Hi as <- _. exists (length log). split; [lia|]. rewrite lookup_app_r, Nat.sub_diag by lia. by rewrite Hm.
Qed.
Lemma only_active_added rows b log a evs : b ∈ rows → only_active rows log → added b a evs → only_active rows (log ++ evs).
Proof.
  intros Hb Hlog Ha bot x [Hx|Hx]%elem_of_app; [by apply Hlog|]. unfold added, announcement in Ha.
  assert (∀ l, l = [] ∨ l = [alerted LIVE_MODE_ALERT_SUBJECT (br_bot_id b) (live_alert (br_bot_id b))] → constructed bot x ∉ l) as Hno.
  { intros l [-> | ->]; [apply not_elem_of_nil|]. intros Hin%list_elem_of_singleton. done. }
  assert (constructed bot x ∉ announcement b) as Hann by (apply Hno; unfold announcement; destruct (br_exchange_mode b); auto).
  destruct a as [a|]; [|by destruct Ha as [->|[-> _]]; [apply elem_of_nil in Hx|]].
  destruct Ha as (Had & -> & _). apply elem_of_app in Hx as [Hx|Hx]; [done|]. apply list_elem_of_singleton in Hx as [= -> ->]. by exists b.
Qed.

Lemma build_all_run rows done_ p (w w' : B * list pool_event) r :
  build_all env json_loads publish paper_tables now p rows w = (r, w') → announced w.2 → only_active (done_ ++ rows) w.2 →
  announced w'.2 ∧ only_active (done_ ++ rows) w'.2 ∧
  match r with
  | Ok p' => ∃ l, ap_adapters p' = ap_adapters p ++ l ∧ Forall2 (fun b x => x.1 = br_bot_id b ∧ adapter_of b x.2) rows l ∧
      ap_paper_bot_ids p' = ap_paper_bot_ids p ++ (br_bot_id <$> filter (fun b => br_exchange_mode b = em_paper) rows)
  | Err _ => True
  end.
Proof.
  revert done_ p w. induction rows as [|b rows IH]; intros done_ p w E Hann Hact.
  { injection E as <- <-. split_and!; [done..|]. exists []. rewrite !app_nil_r. by split_and!. }
  cbn [build_all] in E. apply st_bind_cases in E as [(p1 & w1 & E1 & E)|(e & E1 & ->)]; apply build_one_run in E1 as (evs & Hlog & Hev).
  - destruct Hev as (a & -> & Hev). destruct (IH (done_ ++ [b]) (extend p b a) w1 E) as (H1 & H2 & H3).
    { rewrite Hlog. by eapply announced_added. }
    { rewrite <- app_assoc, Hlog. eapply only_active_added; [|done..]. set_solver. }
    rewrite <- app_assoc in H2. split_and!; [done..|]. destruct r as [p'|]; [|done]. destruct H3 as (l & Hl & Hf & Hp).
    exists ((br_bot_id b, a) :: l). destruct Hev as (Had & _ & _). rewrite Hl, Hp. unfold extend. rewrite filter_cons.
    destruct (br_exchange_mode b) eqn:Hm; cbn [ap_adapters ap_paper_bot_ids]; case_decide; try done; cbn [fmap list_fmap]; rewrite <- ?app_assoc; (split_and!; [done| |done]);
      constructor; done.
  - split_and!; [| |done]; rewrite Hlog; [by eapply announced_added|]. eapply only_active_added; [|done..]. set_solver.
Qed.

(** C28: a live bot is wired only on confirmation: whatever bots are active and
    whatever fails on the way, an adapter for the production exchange is built
    only if BOT_CONFIRM_LIVE is yes and after the alert for its bot was
    published; every adapter belongs to an active bot, on the URLs of its mode
    and with the credentials of its own variables; and when the pool is built it
    has one adapter per active bot and lists exactly the paper bots. *)
Theorem live_bots_need_confirmation bots bus r (w' : B * list pool_event) :
  build_adapter_pool env json_loads publish paper_tables now bots (bus, []) = (r, w') →
  announced w'.2 ∧
  match select_active_bots bots with
  | Err e => r = Err e ∧ w' = (bus, [])
  | Ok rows => only_active rows w'.2 ∧
      match r with
      | Ok p => Forall2 (fun b x => x.1 = br_bot_id b ∧ adapter_of b x.2) rows (ap_adapters p) ∧
          ap_paper_bot_ids p = br_bot_id <$> filter (fun b => br_exchange_mode b = em_paper) rows
      | Err _ => True
      end
  end.
Proof.
  unfold build_adapter_pool. destruct (select_active_bots bots) as [rows|e]; intros E.
  - rewrite (st_bind_run (lift_res (Ok rows)) _ (bus, []) rows (bus, []) eq_refl) in E.
    destruct (build_all_run rows [] _ _ _ _ E) as (H1 & H2 & H3); [intros i bot k s acc ws Hi; cbn in Hi; by rewrite lookup_nil in Hi|intros bot a Hin; by apply elem_of_nil in Hin|].
    split_and!; [done..|]. destruct r as [p|]; [|done]. destruct H3 as (l & Hl & Hf & Hp). cbn in Hl, Hp. by rewrite Hl, Hp.
  - injection E as <- <-. by split_and!.
Qed.
End guarantees.

(** ** A concrete pool *)
Definition demo_env : gmap string string :=
  {["BOT_CONFIRM_LIVE" := " Yes "; "BOT_ALPHA_BYBIT_API_KEY" := "k"; "BOT_ALPHA_BYBIT_API_SECRET" := "s"; "BOT_ALPHA_BYBIT_SUB_ACCOUNT" := "acc"]}.
Definition demo_bots : list bots_row := [mkBotsRow "old" "Old" "paper" "archived"; mkBotsRow "alpha" "Alpha" "live" "active"].
Definition accept_alert (subject corr : string) (alert : dict) : ST (list dict) unit := fun l => (Ok tt, l ++ [alert]).
Lemma live_bots_need_confirmation_witness :
  ∃ r w', build_adapter_pool demo_env (fun _ => Err JSONDecodeError) accept_alert empty_db 5 demo_bots ([], []) = (r, w') ∧
    w'.2 = [alerted "system.alerts" "alpha" (live_alert "alpha");
            constructed "alpha" (bybit_adapter "k" "s" "acc" "https://api.bybit.com" "wss://stream.bybit.com/v5/private")] ∧
    confirmed demo_env = true.
Proof.
  destruct (build_adapter_pool demo_env (fun _ => Err JSONDecodeError) accept_alert empty_db 5 demo_bots ([], [])) as [r w'] eqn:E.
  exists r, w'. split; [done|].
  assert (w'.2 = [alerted "system.alerts" "alpha" (live_alert "alpha");
            constructed "alpha" (bybit_adapter "k" "s" "acc" "https://api.bybit.com" "wss://stream.bybit.com/v5/private")]) as Hw by (vm_compute in E; by injection E as _ <-).
  split; [done|]. destruct (live_bots_need_confirmation _ _ _ _ _ _ _ _ _ E) as [Hann _].
  destruct (Hann 1%nat "alpha" "k" "s" "acc" "wss://stream.bybit.com/v5/private") as [Hc _]; [by rewrite Hw|exact Hc].
Defined.
