(* ===== verification/Analytics.v ===== *)
(** * The analytics API: aggregates over closed trades

    Models services/analytics_api/app/{analytics_compute,analytics_cache}.py,
    routers/{analytics,shadow_aggregate}.py and the statements they read with
    (packages/db/queries/{analytics,shadow}.py).  Times are UTC microseconds, as
    asyncpg returns them.  Rows with the same ORDER BY key come in an order of
    the model's choosing.  The random generator of the Monte-Carlo bootstrap is a
    parameter, [random.Random(seed)] and [choices].  The cache is a step machine:
    a request is at one of its awaits, the lock of a key belongs to at most one
    request, and any waiting request may get a free lock. *)

From S2P Require Import Prelude Json Dec Float64 PyNum Sizing PaperDb ExecDb Exchange Consumer Shadow.
From stdpp Require Import sorting gmap pretty.
Open Scope Z_scope.

(** ** select_trades_for_analytics *)
Record TradeRealizedPnlRow := mkPnlRow { tp_realized_pnl : dec; tp_closed_at : option Z; tp_bot_id : string }.

(** A NULL column passes no comparison. *)
Definition compares {A} (c : option A) (p : A → bool) : bool := match c with Some a => p a | None => false end.
Definition analytics_filter (bot_id : option string) (from_at to_at : option Z) (t : live_trade) : bool :=
  bool_decide (trd_status t = st_closed) && bool_decide (is_Some (trd_realized_pnl t)) &&
  given bot_id (fun b => bool_decide (trd_bot_id t = b)) &&
  given from_at (fun f => compares (trd_closed_at t) (fun c => f <=? c)) &&
  given to_at (fun u => compares (trd_closed_at t) (fun c => c <? u)).
(** ORDER BY closed_at ASC, NULLS LAST. *)
Definition closed_before (a b : live_trade) : Prop :=
  match trd_closed_at a, trd_closed_at b with Some x, Some y => x <= y | None, Some _ => False | _, None => True end.
#[global] Instance closed_before_dec : RelDecision closed_before.
Proof. intros a b. unfold closed_before. destruct (trd_closed_at a), (trd_closed_at b); apply _. Defined.
Definition pnl_row_of (t : live_trade) : option TradeRealizedPnlRow :=
  pnl ← trd_realized_pnl t; Some (mkPnlRow pnl (trd_closed_at t) (trd_bot_id t)).
Definition select_trades_for_analytics (bot_id : option string) (from_at to_at : option Z) (d : live_db) : list TradeRealizedPnlRow :=
  omap pnl_row_of (merge_sort closed_before (filter (fun t => analytics_filter bot_id from_at to_at t = true) (snd <$> map_to_list (trades d)))).

(** ** compute_expectancy *)
Record ExpectancyMetrics := mkExpectancy {
  xm_expectancy : b64; xm_win_rate : b64; xm_loss_rate : b64; xm_avg_win : dec; xm_avg_loss : dec;
  xm_total_trades : Z; xm_win_count : Z; xm_loss_count : Z;
}.
(** [sum(l, Decimal("0")) / Decimal(len(l))], or zero for an empty list. *)
Definition mean (l : list dec) : res dec :=
  match l with [] => Ok dzero | _ => ddiv (dsum l) (mkDec (Z.of_nat (length l)) 0) end.
Definition wins_of (pnls : list dec) : list dec := filter (fun p => dltb dzero p = true) pnls.
Definition losses_of (pnls : list dec) : list dec := dneg <$> filter (fun p => dltb p dzero = true) pnls.
Definition compute_expectancy (rows : list TradeRealizedPnlRow) : res ExpectancyMetrics :=
  let total := Z.of_nat (length rows) in
  if total =? 0 then Ok (mkExpectancy bzero bzero bzero dzero dzero 0 0 0)
  else
    let wins := wins_of (tp_realized_pnl <$> rows) in
    let losses := losses_of (tp_realized_pnl <$> rows) in
    let win_count := Z.of_nat (length wins) in
    let loss_count := Z.of_nat (length losses) in
    avg_win ← mean wins;
    avg_loss ← mean losses;
    let win_rate := fl win_count total in
    let loss_rate := fl loss_count total in
    let expectancy := bsub (bmul win_rate (float_of_dec avg_win)) (bmul loss_rate (float_of_dec avg_loss)) in
    Ok (mkExpectancy expectancy win_rate loss_rate avg_win avg_loss total win_count loss_count).

(** ** Calendar *)
Definition day_us : Z := 86400000000.
Definition hour_us : Z := 3600000000.
(** 1 January 1970 was a Thursday, [weekday()] 3. *)
Definition weekday (t : Z) : Z := (t / day_us + 3) mod 7.
Definition hour_of (t : Z) : Z := t mod day_us / hour_us.

(** [r.closed_at] as a datetime: its methods on None raise. *)
Definition stamp (r : TradeRealizedPnlRow) : res (Z * dec) :=
  match tp_closed_at r with Some c => Ok (c, tp_realized_pnl r) | None => Err (AttributeError "NoneType") end.

(** [d.setdefault(key(r), []).append(r)] for every [r]. *)
Definition group {K A} `{Countable K} (key : A → K) (rows : list A) : gmap K (list A) :=
  foldl (fun d r => <[key r := default [] (d !! key r) ++ [r]]> d) ∅ rows.

(** ** compute_hourly_heatmap *)
Record HeatmapCell := mkCell { hc_weekday : Z; hc_hour : Z; hc_trade_count : Z; hc_avg_pnl : option dec }.
Definition grid : list (Z * Z) := wd ← seqZ 0 7; hr ← seqZ 0 24; [(wd, hr)].
Definition heatmap_cell (buckets : gmap (Z * Z) (list (Z * dec))) (k : Z * Z) : res HeatmapCell :=
  let pnl_list := snd <$> default [] (buckets !! k) in
  match pnl_list with
  | [] => Ok (mkCell k.1 k.2 0 None)
  | _ => avg ← mean pnl_list; Ok (mkCell k.1 k.2 (Z.of_nat (length pnl_list)) (Some avg))
  end.
Definition compute_hourly_heatmap (rows : list TradeRealizedPnlRow) : res (list HeatmapCell) :=
  stamped ← mapM stamp rows;
  mapM (heatmap_cell (group (fun r => (weekday r.1, hour_of r.1)) stamped)) grid.

(** ** compute_pnl_series *)
Inductive PnlBucket := hourly | daily.
Record PnlSeriesPoint := mkPoint { ps_bucket_at : Z; ps_bucket_pnl : dec; ps_cumulative_pnl : dec }.
Definition bucket_us (b : PnlBucket) : Z := match b with hourly => hour_us | daily => day_us end.
(** [closed_at.replace(minute=0, ...)]. *)
Definition truncated (b : PnlBucket) (t : Z) : Z := t - t mod bucket_us b.
Definition bucket_sums (b : PnlBucket) (rows : list (Z * dec)) : gmap Z dec :=
  foldl (fun d r => <[truncated b r.1 := dadd (default dzero (d !! truncated b r.1)) r.2]> d) ∅ rows.
Fixpoint cumulate (sums : gmap Z dec) (cumulative : dec) (keys : list Z) : list PnlSeriesPoint :=
  match keys with
  | [] => []
  | k :: keys' =>
      let b_pnl := default dzero (sums !! k) in
      let c := dadd cumulative b_pnl in mkPoint k b_pnl c :: cumulate sums c keys'
  end.
Definition compute_pnl_series (b : PnlBucket) (rows : list TradeRealizedPnlRow) : res (list PnlSeriesPoint) :=
  stamped ← mapM stamp rows;
  let sums := bucket_sums b stamped in
  Ok (cumulate sums dzero (merge_sort Z.le (fst <$> map_to_list sums))).

(** ** compute_monte_carlo *)
Record MonteCarloResult := mkMc {
  mc_n_simulations : nat; mc_seed : Z; mc_p5 : dec; mc_p25 : dec; mc_p50 : dec; mc_p75 : dec; mc_p95 : dec;
}.
(** [int(d)]: towards zero. *)
Definition dint (d : dec) : Z := if 0 <=? dexp d then coef d * 10 ^ dexp d else Z.quot (coef d) (10 ^ (- dexp d)).
(** [l[i]] for a non-negative index. *)
Definition at_index {A} (l : list A) (i : Z) : res A :=
  match l !! Z.to_nat i with Some x => Ok x | None => Err IndexError end.
Definition percentile_linear (sorted_values : list dec) (pct : Z) : res dec :=
  match sorted_values with
  | [] => Ok dzero
  | [v] => Ok v
  | _ =>
      let n := Z.of_nat (length sorted_values) in
      p ← ddiv (mkDec pct 0) (mkDec 100 0);
      let rank_f := dmul p (mkDec (n - 1) 0) in
      let lower_idx := dint rank_f in
      let upper_idx := if lower_idx <? n - 1 then lower_idx + 1 else lower_idx in
      let frac := dsub rank_f (mkDec lower_idx 0) in
      lower_val ← at_index sorted_values lower_idx;
      upper_val ← at_index sorted_values upper_idx;
      Ok (dadd lower_val (dmul frac (dsub upper_val lower_val)))
  end.
Definition dec_leq (a b : dec) : Prop := dleb a b = true.
#[global] Instance dec_leq_dec : RelDecision dec_leq.
Proof. intros a b. unfold dec_leq. apply _. Defined.

Section monte_carlo.
Context {G : Type} (seeded : Z → G) (choices : list dec → nat → G → list dec * G).
Fixpoint simulate (sample : list dec) (n_simulations : nat) (rng : G) : list dec :=
  match n_simulations with
  | O => []
  | S n => let '(draw, rng') := choices sample (length sample) rng in dsum draw :: simulate sample n rng'
  end.
Definition compute_monte_carlo (rows : list TradeRealizedPnlRow) (n_simulations : nat) (seed : Z) : res MonteCarloResult :=
  match rows with
  | [] => Ok (mkMc n_simulations seed dzero dzero dzero dzero dzero)
  | _ =>
      let end_equities := merge_sort dec_leq (simulate (tp_realized_pnl <$> rows) n_simulations (seeded seed)) in
      p5 ← percentile_linear end_equities 5;
      p25 ← percentile_linear end_equities 25;
      p50 ← percentile_linear end_equities 50;
      p75 ← percentile_linear end_equities 75;
      p95 ← percentile_linear end_equities 95;
      Ok (mkMc n_simulations seed p5 p25 p50 p75 p95)
  end.
End monte_carlo.

(** ** compute_variant_aggregate *)
Record ShadowVariantAggregateRow := mkAggRow {
  ag_parent_symbol : string; ag_bot_id : string; ag_variant_name : string; ag_realized_pnl : dec;
  ag_mfe_pct : option b64; ag_mae_pct : option b64; ag_parent_kind : parent_kind; ag_created_at : Z;
}.
Record VariantAggregateMetrics := mkVariantMetrics {
  vm_variant_name : string; vm_n_trades : Z; vm_win_count : Z; vm_win_rate : b64; vm_total_pnl : dec; vm_avg_pnl : dec;
  vm_best_pnl : dec; vm_worst_pnl : dec; vm_avg_mfe_pct : option b64; vm_avg_mae_pct : option b64;
}.
(** [sum] of floats: since Python 3.12 a compensated sum, the low parts kept in
    [c] and added at the end. *)
Definition babs (a : b64) : b64 := mkB (Z.abs (bman a)) (bexp a).
Definition compensate (acc : b64 * b64) (x : b64) : b64 * b64 :=
  let '(s, c) := acc in
  let t := badd s x in
  (t, badd c (if bleb (babs x) (babs s) then badd (bsub s t) x else badd (bsub x t) s)).
Definition fsum (l : list b64) : b64 :=
  match l with [] => bzero | x :: l' => let '(s, c) := foldl compensate (x, bzero) l' in badd s c end.
Definition average_pct (l : list b64) : res (option b64) :=
  match l with [] => Ok None | _ => a ← bdiv (fsum l) (mkB (Z.of_nat (length l)) 0); Ok (Some a) end.
(** [max(pnls)] and [min(pnls)]: the first of equal ones. *)
Definition best (x : dec) (l : list dec) : dec := foldl (fun m p => if dltb m p then p else m) x l.
Definition worst (x : dec) (l : list dec) : dec := foldl (fun m p => if dltb p m then p else m) x l.
Definition variant_metrics (kv : string * list ShadowVariantAggregateRow) : res VariantAggregateMetrics :=
  let pnls := ag_realized_pnl <$> kv.2 in
  let n_trades := Z.of_nat (length kv.2) in
  let win_count := Z.of_nat (length (wins_of pnls)) in
  let total_pnl := dsum pnls in
  avg_pnl ← ddiv total_pnl (mkDec n_trades 0);
  match pnls with
  | [] => Err (ValueError "max() arg is an empty sequence")
  | p :: ps =>
      avg_mfe ← average_pct (omap ag_mfe_pct kv.2);
      avg_mae ← average_pct (omap ag_mae_pct kv.2);
      Ok (mkVariantMetrics kv.1 n_trades win_count (fl win_count n_trades) total_pnl avg_pnl (best p ps) (worst p ps) avg_mfe avg_mae)
  end.
(** The sort key [(-total_pnl, variant_name)], compared as tuples. *)
Definition ranked (a b : VariantAggregateMetrics) : Prop :=
  if deqb (dneg (vm_total_pnl a)) (dneg (vm_total_pnl b)) then String.leb (vm_variant_name a) (vm_variant_name b) = true
  else dleb (dneg (vm_total_pnl a)) (dneg (vm_total_pnl b)) = true.
#[global] Instance ranked_dec : RelDecision ranked.
Proof. intros a b. unfold ranked. destruct (deqb _ _); apply _. Defined.
Definition compute_variant_aggregate (rows : list ShadowVariantAggregateRow) : res (list VariantAggregateMetrics) :=
  metrics ← mapM variant_metrics (map_to_list (group ag_variant_name rows));
  Ok (merge_sort ranked metrics).

(** ** select_shadow_variants_for_aggregate

    [t.symbol] and [pt.symbol] of the two LEFT JOINs; a variant without its
    parent has no symbol and matches none. *)
Abbreviation variant_row := (ShadowVariantRow (F := b64)).
Definition parent_symbol (d : live_db) (p : PaperDb.db) (v : variant_row) : option string :=
  match vr_parent_kind v with
  | kind_live => trd_symbol <$> trades d !! vr_parent_trade_id v
  | kind_paper => pt_symbol <$> paper_trades p !! vr_parent_trade_id v
  end.
Definition aggregate_row (d : live_db) (p : PaperDb.db) (symbol : string) (bot_id : option string) (from_at to_at : option Z)
    (v : variant_row) : option ShadowVariantAggregateRow :=
  s ← parent_symbol d p v;
  pnl ← vr_realized_pnl v;
  if bool_decide (s = symbol) && bool_decide (is_Some (vr_terminated_at v)) &&
     given bot_id (fun b => bool_decide (vr_bot_id v = b)) &&
     given from_at (fun f => f <=? vr_created_at v) && given to_at (fun u => vr_created_at v <? u)
  then Some (mkAggRow s (vr_bot_id v) (vr_variant_name v) pnl (vr_mfe_pct v) (vr_mae_pct v) (vr_parent_kind v) (vr_created_at v))
  else None.
Definition newest_first (a b : ShadowVariantAggregateRow) : Prop := ag_created_at b <= ag_created_at a.
#[global] Instance newest_first_dec : RelDecision newest_first.
Proof. intros a b. unfold newest_first. apply _. Defined.
Definition select_shadow_variants_for_aggregate (d : live_db) (p : PaperDb.db) (sh : shadow_db (F := b64)) (symbol : string)
    (bot_id : option string) (from_at to_at : option Z) : list ShadowVariantAggregateRow :=
  merge_sort newest_first (omap (aggregate_row d p symbol bot_id from_at to_at) (snd <$> map_to_list (sh_variant_rows sh))).
Definition get_variant_aggregate d p sh symbol bot_id from_at to_at : res (list VariantAggregateMetrics) :=
  compute_variant_aggregate (select_shadow_variants_for_aggregate d p sh symbol bot_id from_at to_at).

(** ** routers/analytics.py *)
Definition PNL_SERIES_MAX_POINTS : Z := 5000.
Definition CACHE_TTL_SECONDS : Z := 300.
Definition get_expectancy (bot_id : option string) (from_at to_at : option Z) (d : live_db) : res ExpectancyMetrics :=
  compute_expectancy (select_trades_for_analytics bot_id from_at to_at d).
Definition get_hourly_heatmap (bot_id : option string) (from_at to_at : option Z) (d : live_db) : res (list HeatmapCell) :=
  compute_hourly_heatmap (select_trades_for_analytics bot_id from_at to_at d).
(** [x // n] of a float by a positive integer. *)
Definition bfloordiv (x : b64) (n : Z) : Z :=
  if 0 <=? bexp x then bman x * 2 ^ bexp x / n else bman x / (2 ^ (- bexp x) * n).
Definition estimated_buckets (b : PnlBucket) (from_at to_at : Z) : Z :=
  bfloordiv (total_seconds (to_at - from_at)) (bucket_us b / 1000000) + 1.
Definition get_pnl_series (b : PnlBucket) (bot_id : option string) (from_at to_at : option Z) (d : live_db) : res (list PnlSeriesPoint) :=
  let serve := compute_pnl_series b (select_trades_for_analytics bot_id from_at to_at d) in
  match from_at, to_at with
  | Some f, Some u => if PNL_SERIES_MAX_POINTS <? estimated_buckets b f u then Err (HTTPException 422) else serve
  | _, _ => serve
  end.

(** ** post_monte_carlo: the key of the cache and the computation behind it *)
Section endpoint.
Context {G : Type} (seeded : Z → G) (choices : list dec → nat → G → list dec * G).
Context (sha256_hex : string → string) (sha256_int64 : string → Z) (show_time : Z → string).
Definition str_of {A} (show : A → string) (none : string) (o : option A) : string := match o with Some a => show a | None => none end.
(** The parameters sorted by name. *)
Definition cache_key (bot_id : option string) (from_at to_at : option Z) (n_simulations : nat) : string :=
  sha256_hex ("monte-carlo|bot_id=" +:+ str_of id "None" bot_id +:+ "|from_at=" +:+ str_of show_time "None" from_at +:+
    "|n_simulations=" +:+ pretty n_simulations +:+ "|to_at=" +:+ str_of show_time "None" to_at).
Definition derive_mc_seed (bot_id : option string) (from_at to_at : option Z) (n_simulations : nat) : Z :=
  sha256_int64 (str_of id "" bot_id +:+ "|" +:+ str_of show_time "" from_at +:+ "|" +:+ str_of show_time "" to_at +:+ "|" +:+ pretty n_simulations).
Definition monte_carlo_compute (bot_id : option string) (from_at to_at : option Z) (n_simulations : nat) (d : live_db) : res MonteCarloResult :=
  compute_monte_carlo seeded choices (select_trades_for_analytics bot_id from_at to_at d) n_simulations
    (derive_mc_seed bot_id from_at to_at n_simulations).
End endpoint.

(** ** analytics_cache.py

    Where a request to [get_or_compute] is.  [waiting] is everything from the
    missed fast path to the lock of its key; taking the lock and reading the
    cache again is one turn, [computing] is the await of [compute_fn]. *)
Section cache.
Context {V : Type} (ttl : Z).
Inductive request :=
| arriving (key : string)
| waiting (key : string)
| computing (key : string) (since : Z)
| answered (key : string) (v : V) (at_ : Z)
| failed (key : string).
Record cache_state := mkCache {
  ca_values : gmap string (Z * V); ca_locked : gset string; ca_requests : gmap nat request; ca_now : Z;
}.
Definition fresh_value (c : cache_state) (key : string) : option V :=
  match ca_values c !! key with Some (expiry, v) => if ca_now c <? expiry then Some v else None | None => None end.
Definition set_request (i : nat) (r : request) (c : cache_state) : cache_state :=
  mkCache (ca_values c) (ca_locked c) (<[i := r]> (ca_requests c)) (ca_now c).
(** The fast path. *)
Definition look_up (i : nat) (key : string) (c : cache_state) : cache_state :=
  match fresh_value c key with Some v => set_request i (answered key v (ca_now c)) c | None => set_request i (waiting key) c end.
(** The lock of [key] is acquired and the cache read again; a hit releases it at
    once. *)
Definition take_lock (i : nat) (key : string) (c : cache_state) : cache_state :=
  match fresh_value c key with
  | Some v => set_request i (answered key v (ca_now c)) c
  | None => mkCache (ca_values c) ({[ key ]} ∪ ca_locked c) (<[i := computing key (ca_now c)]> (ca_requests c)) (ca_now c)
  end.
(** [compute_fn] returned or raised: [(now_ts + ttl, value)] with the time read
    before the computation. *)
Definition complete (i : nat) (key : string) (since : Z) (r : option V) (c : cache_state) : cache_state :=
  match r with
  | Some v => mkCache (<[key := (since + ttl, v)]> (ca_values c)) (ca_locked c ∖ {[ key ]}) (<[i := answered key v (ca_now c)]> (ca_requests c)) (ca_now c)
  | None => mkCache (ca_values c) (ca_locked c ∖ {[ key ]}) (<[i := failed key]> (ca_requests c)) (ca_now c)
  end.

Inductive cache_event := started (i : nat) (key : string) (at_ : Z) | returned (i : nat) (key : string) (since at_ : Z) (v : V).
Inductive cache_step : cache_state → list cache_event → cache_state → Prop :=
| step_arrive c i key : ca_requests c !! i = None → cache_step c [] (set_request i (arriving key) c)
| step_look c i key : ca_requests c !! i = Some (arriving key) → cache_step c [] (look_up i key c)
| step_lock c i key : ca_requests c !! i = Some (waiting key) → key ∉ ca_locked c →
    cache_step c (if fresh_value c key then [] else [started i key (ca_now c)]) (take_lock i key c)
| step_complete c i key since r : ca_requests c !! i = Some (computing key since) →
    cache_step c (match r with Some v => [returned i key since (ca_now c) v] | None => [] end) (complete i key since r c)
| step_cancel c i key : ca_requests c !! i = Some (arriving key) ∨ ca_requests c !! i = Some (waiting key) →
    cache_step c [] (set_request i (failed key) c)
| step_clock c t : ca_now c <= t → cache_step c [] (mkCache (ca_values c) (ca_locked c) (ca_requests c) t).
Inductive cache_run : cache_state → list cache_event → cache_state → Prop :=
| run_refl c : cache_run c [] c
| run_step c tr c1 evs c2 : cache_run c tr c1 → cache_step c1 evs c2 → cache_run c (tr ++ evs) c2.
End cache.
