(* ===== verification/AnalyticsFacts.v ===== *)
(** * What the analytics API reports

    The aggregates against their definitions on the list of closed trades: the
    heatmap partitions them, the series is the running sum of its buckets,
    expectancy is the mean trade, the bootstrap's percentiles are exact and
    ordered, variants are ranked; and the cache computes a key once at a time. *)

From S2P Require Import Prelude Json Dec Float64 PyNum Sizing PaperDb ExecDb Exchange Consumer Shadow Analytics.
From stdpp Require Import sorting gmap pretty list.
From Stdlib Require Import QArith Qabs Lqa.
Open Scope Z_scope.

(** ** Grouping *)
Lemma group_snoc {K A} `{Countable K} (key : A → K) rows r :
  group key (rows ++ [r]) = <[key r := default [] (group key rows !! key r) ++ [r]]> (group key rows).
Proof. unfold group. by rewrite foldl_app. Qed.
Lemma group_lookup {K A} `{Countable K} (key : A → K) rows k :
  group key rows !! k = match filter (fun r => key r = k) rows with [] => None | l => Some l end.
Proof.
  induction rows as [|r rows IH] using rev_ind; [done|]. rewrite group_snoc, filter_app, filter_cons, filter_nil.
  destruct (decide (key r = k)) as [<-|Hk].
  - rewrite lookup_insert_eq, IH. by destruct (filter _ rows).
  - by rewrite lookup_insert_ne, app_nil_r by done.
Qed.
Lemma group_default {K A} `{Countable K} (key : A → K) rows k : default [] (group key rows !! k) = filter (fun r => key r = k) rows.
Proof. rewrite group_lookup. by destruct (filter _ rows). Qed.

Lemma mapM_ok {A B} (f : A → res B) l l' : mapM f l = Ok l' ↔ Forall2 (fun a b => f a = Ok b) l l'.
Proof.
  split.
  - revert l'. induction l as [|a l IH]; intros l' E; cbn in E; [injection E as <-; constructor|]. inv_ok. match goal with H : mret _ = Ok _ |- _ => injection H as <- end. constructor; [done|]. by apply IH.
  - induction 1 as [|a b l l' Hab _ IH]; [done|]. cbn. rewrite Hab. cbn. by rewrite IH.
Qed.
Lemma mapM_total {A B} (f : A → res B) l : (∀ a, a ∈ l → ∃ b, f a = Ok b) → ∃ l', mapM f l = Ok l'.
Proof.
  induction l as [|a l IH]; intros Hf; [by exists []|]. destruct (Hf a) as [b Hb]; [by left|]. destruct IH as [l' Hl']; [intros x Hx; apply Hf; by right|].
  exists (b :: l'). cbn. rewrite Hb. cbn. by rewrite Hl'.
Qed.

(** ** Means *)
Lemma mean_ok l : ∃ a, mean l = Ok a.
Proof. destruct l as [|x l]; [by eexists|]. apply ddiv_ok. cbn. lia. Qed.

(** ** The heatmap *)
Lemma weekday_range t : 0 <= weekday t < 7.
Proof. apply Z.mod_pos_bound. lia. Qed.
Lemma hour_range t : 0 <= hour_of t < 24.
Proof.
  unfold hour_of. pose proof (Z.mod_pos_bound t day_us ltac:(done)). split; [apply Z.div_pos; [lia|done]|]. apply Z.div_lt_upper_bound; [done|].
  unfold day_us, hour_us in *. lia.
Qed.
Lemma grid_spec p : p ∈ grid ↔ 0 <= p.1 < 7 ∧ 0 <= p.2 < 24.
Proof.
  destruct p as [wd hr]. unfold grid. rewrite list_elem_of_bind. setoid_rewrite list_elem_of_bind. split.
  - intros (w & (h & [= -> ->]%list_elem_of_singleton & Hh) & Hw). apply elem_of_seqZ in Hw, Hh. cbn. lia.
  - intros [Hw Hh]. exists wd. split; [|apply elem_of_seqZ; cbn in Hw; lia]. exists hr. split; [by left|]. apply elem_of_seqZ. cbn in Hh. lia.
Qed.
Lemma grid_lookup wd hr : 0 <= wd < 7 → 0 <= hr < 24 → grid !! Z.to_nat (24 * wd + hr) = Some (wd, hr).
Proof.
  intros Hw Hh. assert (Forall (fun p => grid !! Z.to_nat (24 * p.1 + p.2) = Some p) grid) as Hall by (vm_compute; repeat constructor).
  rewrite Forall_forall in Hall. by apply (Hall (wd, hr)), grid_spec.
Qed.
Definition zsum (l : list Z) : Z := foldr Z.add 0 l.
Lemma zsum_app l1 l2 : zsum (l1 ++ l2) = zsum l1 + zsum l2.
Proof. induction l1 as [|x l1 IH]; cbn; [done|]. unfold zsum in *. cbn. lia. Qed.
Lemma zsum_add {A} (f g : A → Z) l : zsum ((fun a => f a + g a) <$> l) = zsum (f <$> l) + zsum (g <$> l).
Proof. induction l as [|a l IH]; cbn; [done|]. unfold zsum in *. cbn. lia. Qed.
Lemma zsum_indicator {K} `{EqDecision K} (x : K) ks : NoDup ks → x ∈ ks → zsum ((fun k => if decide (x = k) then 1 else 0) <$> ks) = 1.
Proof.
  induction 1 as [|k ks Hk Hnd IH]; intros Hx; [by apply elem_of_nil in Hx|]. unfold zsum in *. cbn. destruct (decide (x = k)) as [->|Hne].
  - assert (foldr Z.add 0 ((fun k' => if decide (k = k') then 1 else 0) <$> ks) = 0) as ->; [|lia].
    clear IH Hnd Hx. induction ks as [|k' ks IH]; [done|]. cbn. apply not_elem_of_cons in Hk as [H1 H2]. rewrite decide_False, IH by done. lia.
  - apply elem_of_cons in Hx as [?|Hx]; [done|]. rewrite IH by done. lia.
Qed.
Lemma zsum_zero {A} (l : list A) : zsum ((fun _ => 0) <$> l) = 0.
Proof. induction l as [|a l IH]; [done|]. unfold zsum in *. cbn. lia. Qed.
(** Every row weighs in exactly one of the groups. *)
Lemma groups_weighted {K A} `{EqDecision K} (key : A → K) (f : A → Z) ks rows : NoDup ks → (∀ r, r ∈ rows → key r ∈ ks) →
  zsum ((fun k => zsum (f <$> filter (fun r => key r = k) rows)) <$> ks) = zsum (f <$> rows).
Proof.
  intros Hnd. induction rows as [|r rows IH]; intros Hin; [apply zsum_zero|].
  transitivity (zsum ((fun k => f r * (if decide (key r = k) then 1 else 0) + zsum (f <$> filter (fun r => key r = k) rows)) <$> ks)).
  - f_equal. apply list_fmap_ext. intros _ k _. rewrite filter_cons. unfold zsum. destruct (decide _); cbn; lia.
  - rewrite zsum_add, IH by (intros r' Hr'; apply Hin; by right). unfold zsum. cbn. f_equal.
    assert (foldr Z.add 0 ((fun k => f r * (if decide (key r = k) then 1 else 0)) <$> ks) = f r * zsum ((fun k => if decide (key r = k) then 1 else 0) <$> ks)) as ->.
    { clear. unfold zsum. induction ks as [|k ks IH]; cbn; [lia|]. cbn in IH. lia. }
    rewrite zsum_indicator by (try done; apply Hin; by left). lia.
Qed.
Lemma zsum_ones {A} (l : list A) : zsum ((fun _ => 1) <$> l) = Z.of_nat (length l).
Proof. unfold zsum. induction l as [|a l IH]; cbn; [done|]. cbn in IH. lia. Qed.
Lemma groups_partition {K A} `{EqDecision K} (key : A → K) ks rows : NoDup ks → (∀ r, r ∈ rows → key r ∈ ks) →
  zsum ((fun k => Z.of_nat (length (filter (fun r => key r = k) rows))) <$> ks) = Z.of_nat (length rows).
Proof.
  intros Hnd Hin. rewrite <- (zsum_ones rows), <- (groups_weighted key (fun _ => 1) ks rows Hnd Hin). f_equal. apply list_fmap_ext.
  intros _ k _. by rewrite zsum_ones.
Qed.
Lemma grid_NoDup : NoDup grid.
Proof. apply (bool_decide_unpack _). vm_compute. exact I. Qed.

(** The trades that closed in one hour of one weekday. *)
Definition cell_trades (wd hr : Z) (stamped : list (Z * dec)) : list (Z * dec) :=
  filter (fun r => (weekday r.1, hour_of r.1) = (wd, hr)) stamped.
Lemma heatmap_cell_run stamped k :
  ∃ c, heatmap_cell (group (fun r => (weekday r.1, hour_of r.1)) stamped) k = Ok c ∧ hc_weekday c = k.1 ∧ hc_hour c = k.2 ∧
    hc_trade_count c = Z.of_nat (length (cell_trades k.1 k.2 stamped)) ∧
    match snd <$> cell_trades k.1 k.2 stamped with [] => hc_avg_pnl c = None | l => mean l = (default dzero) <$> Ok (hc_avg_pnl c) ∧ is_Some (hc_avg_pnl c) end.
Proof.
  unfold heatmap_cell. rewrite group_default. destruct k as [wd hr]. fold (cell_trades wd hr stamped). cbn [fst snd].
  rewrite <- (length_fmap snd (cell_trades wd hr stamped)). destruct (snd <$> cell_trades wd hr stamped) as [|p ps]; [by eexists|].
  destruct (mean_ok (p :: ps)) as [a Ha]. rewrite Ha. cbn. eexists. split_and!; try done.
Qed.

(** The heatmap partitions the closed trades: it never fails when every
    trade has a closing time, has the 168 cells of a week in order of weekday
    and hour, each with the number and the rounded mean of exactly the trades
    that closed in it (no mean for an empty one), and the counts add up to the
    number of trades. *)
Lemma heatmap_partitions_trades rows stamped : mapM stamp rows = Ok stamped →
  ∃ cells, compute_hourly_heatmap rows = Ok cells ∧ length cells = 168%nat ∧
    (∀ wd hr, 0 <= wd < 7 → 0 <= hr < 24 → ∃ c, cells !! Z.to_nat (24 * wd + hr) = Some c ∧ hc_weekday c = wd ∧ hc_hour c = hr ∧
      hc_trade_count c = Z.of_nat (length (cell_trades wd hr stamped)) ∧
      match snd <$> cell_trades wd hr stamped with
      | [] => hc_avg_pnl c = None
      | l => ∃ a, hc_avg_pnl c = Some a ∧ mean l = Ok a
      end) ∧
    zsum (hc_trade_count <$> cells) = Z.of_nat (length rows).
Proof.
  intros Hst. unfold compute_hourly_heatmap. rewrite Hst. cbn [mbind res_bind]. set (f := heatmap_cell _).
  destruct (mapM_total f grid) as [cells Hc]; [intros k _; destruct (heatmap_cell_run stamped k) as (c & Hc & _); by exists c|].
  exists cells. pose proof Hc as Hf. rewrite mapM_ok in Hf. split; [done|]. split; [by rewrite <- (Forall2_length _ _ _ Hf)|].
  assert (∀ k c, f k = Ok c → hc_weekday c = k.1 ∧ hc_hour c = k.2 ∧ hc_trade_count c = Z.of_nat (length (cell_trades k.1 k.2 stamped)) ∧
    match snd <$> cell_trades k.1 k.2 stamped with [] => hc_avg_pnl c = None | l => ∃ a, hc_avg_pnl c = Some a ∧ mean l = Ok a end) as Hcell.
  { intros k c Hk. destruct (heatmap_cell_run stamped k) as (c' & Hc' & ? & ? & ? & Hm). assert (c' = c) as -> by (unfold f in Hk; congruence).
    split_and!; [done..|]. destruct (snd <$> _); [done|]. destruct Hm as [Hm [a Ha]]. exists a. split; [done|]. rewrite Hm, Ha. done. }
  split.
  - intros wd hr Hw Hh. destruct (Forall2_lookup_l _ _ _ _ _ Hf (grid_lookup wd hr Hw Hh)) as (c & Hl & Hk). exists c.
    destruct (Hcell _ _ Hk) as (? & ? & ? & ?). by split_and!.
  - rewrite (Forall2_length _ _ _ (proj1 (mapM_ok stamp rows stamped) Hst)).
    rewrite <- (groups_partition (fun r : Z * dec => (weekday r.1, hour_of r.1)) grid stamped grid_NoDup).
    2: { intros r _. apply grid_spec. split; [apply weekday_range|apply hour_range]. }
    f_equal. clear Hc. induction Hf as [|k c ks cs Hk _ IH]; [done|]. cbn [fmap list_fmap]. rewrite IH. f_equal. destruct (Hcell _ _ Hk) as (_ & _ & -> & _).
    unfold cell_trades. by destruct k.
Qed.
Definition demo_pnl_rows : list TradeRealizedPnlRow :=
  [mkPnlRow (mkDec 125000 (-4)) (Some (3 * day_us + hour_us)) "a"; mkPnlRow (mkDec (-25000) (-4)) (Some (3 * day_us + hour_us + 5)) "a";
   mkPnlRow (mkDec 40000 (-4)) (Some (4 * day_us)) "a"].

(** ** Sums of money

    NUMERIC(20, 4) columns read as decimals with exponent -4; their sums are
    exact as long as they fit in 28 digits. *)
Definition money (l : list dec) : Prop := Forall (fun d => dexp d = -4) l ∧ zsum ((fun d => Z.abs (coef d)) <$> l) < 10 ^ prec.
Lemma dsum_snoc l x : dsum (l ++ [x]) = dadd (dsum l) x.
Proof. unfold dsum. by rewrite foldl_app. Qed.
Lemma zsum_abs {A} (f : A → Z) l : Z.abs (zsum (f <$> l)) <= zsum ((fun a => Z.abs (f a)) <$> l).
Proof. unfold zsum. induction l as [|a l IH]; cbn; [lia|]. cbn in IH. lia. Qed.
Lemma zsum_mono {A} (f g : A → Z) l : (∀ a, a ∈ l → f a <= g a) → zsum (f <$> l) <= zsum (g <$> l).
Proof.
  unfold zsum. induction l as [|a l IH]; intros Hfg; cbn; [lia|]. pose proof (Hfg a ltac:(by left)).
  specialize (IH ltac:(intros a' Ha'; apply Hfg; by right)). cbn in IH. lia.
Qed.
Lemma money_app l1 l2 : money (l1 ++ l2) → money l1 ∧ money l2.
Proof.
  intros [Hf Hs]. apply Forall_app in Hf as [H1 H2]. rewrite fmap_app, zsum_app in Hs.
  pose proof (zsum_abs (fun d => Z.abs (coef d)) l1). pose proof (zsum_abs (fun d => Z.abs (coef d)) l2).
  assert (∀ l : list dec, 0 <= zsum ((fun d => Z.abs (coef d)) <$> l)) as Hp.
  { intros l. unfold zsum. induction l as [|d l IH]; cbn; [lia|]. cbn in IH. lia. }
  pose proof (Hp l1). pose proof (Hp l2). repeat split; try done; lia.
Qed.
Lemma dsum_money l : money l → l ≠ [] → dsum l = mkDec (zsum (coef <$> l)) (-4).
Proof.
  induction l as [|x l IH] using rev_ind; intros Hm Hne; [done|]. destruct (money_app _ _ Hm) as [Hl Hx]. destruct Hm as [_ Hs].
  destruct Hx as [He _]. apply Forall_cons in He as [He _]. rewrite dsum_snoc.
  assert (at_exp (dsum l) (-4) = zsum (coef <$> l) ∧ common_exp (dsum l) x = -4) as [Ha Hc].
  { destruct (decide (l = [])) as [->|Hn]; [split; [done|]; unfold common_exp; rewrite He; done|]. rewrite IH by done. unfold at_exp, common_exp. cbn [coef dexp]. rewrite He.
    split; [change (10 ^ (-4 - -4)) with 1; lia|done]. }
  unfold dadd. rewrite Hc, Ha. unfold at_exp. rewrite He. change (10 ^ (-4 - -4)) with 1. rewrite Z.mul_1_r, fix_small.
  - by rewrite fmap_app, zsum_app; unfold zsum; cbn; rewrite Z.add_0_r.
  - cbn [coef]. pose proof (zsum_abs coef (l ++ [x])) as Hz. rewrite fmap_app, zsum_app in Hz. unfold zsum in Hz at 2. cbn in Hz. rewrite Z.add_0_r in Hz. lia.
Qed.

(** ** The series *)
Lemma bucket_sums_lookup b rows k :
  bucket_sums b rows !! k = match filter (fun r => truncated b r.1 = k) rows with [] => None | l => Some (dsum (snd <$> l)) end.
Proof.
  induction rows as [|r rows IH] using rev_ind; [done|]. unfold bucket_sums in *. rewrite foldl_app, filter_app, filter_cons, filter_nil. cbn [foldl].
  destruct (decide (truncated b r.1 = k)) as [<-|Hk].
  - rewrite lookup_insert_eq, IH. destruct (filter _ rows) as [|x l]; [done|]. cbn [default from_option id app]. f_equal.
    change (x :: l ++ [r]) with ((x :: l) ++ [r]). rewrite fmap_app. symmetry. apply dsum_snoc.
  - by rewrite lookup_insert_ne, app_nil_r by done.
Qed.
Lemma cumulate_keys sums c keys : ps_bucket_at <$> cumulate sums c keys = keys.
Proof. revert c. induction keys as [|k keys IH]; intros c; cbn; [done|]. by rewrite IH. Qed.
Lemma cumulate_lookup sums c keys i p : cumulate sums c keys !! i = Some p →
  ps_bucket_pnl p = default dzero (sums !! ps_bucket_at p) ∧ ps_cumulative_pnl p = foldl dadd c (ps_bucket_pnl <$> take (S i) (cumulate sums c keys)).
Proof.
  revert c i. induction keys as [|k keys IH]; intros c i; cbn; [done|]. destruct i as [|i]; cbn; [by intros [= <-]|]. intros Hp. by apply IH in Hp.
Qed.
Lemma strictly_sorted (l : list Z) : StronglySorted Z.le l → NoDup l → StronglySorted Z.lt l.
Proof.
  induction 1 as [|x l Hs IH Hx]; intros Hnd; [constructor|]. apply NoDup_cons in Hnd as [Hn Hnd]. constructor; [by apply IH|].
  rewrite Forall_forall in *. intros y Hy. specialize (Hx y Hy). assert (x ≠ y) by (intros ->; done). lia.
Qed.
Lemma series_keys b stamped :
  StronglySorted Z.lt (merge_sort Z.le (fst <$> map_to_list (bucket_sums b stamped))) ∧
  ∀ t, t ∈ merge_sort Z.le (fst <$> map_to_list (bucket_sums b stamped)) ↔ ∃ r, r ∈ stamped ∧ truncated b r.1 = t.
Proof.
  split.
  - apply strictly_sorted; [apply StronglySorted_merge_sort; intros x y; lia|]. rewrite merge_sort_Permutation. apply NoDup_fst_map_to_list.
  - intros t. rewrite merge_sort_Permutation, list_elem_of_fmap. split.
    + intros ([k s] & -> & Hin%elem_of_map_to_list). rewrite bucket_sums_lookup in Hin. destruct (filter _ stamped) as [|r l] eqn:Hl; [done|].
      exists r. apply and_comm, (list_elem_of_filter (fun r => truncated b r.1 = k)). rewrite Hl. by left.
    + intros (r & Hr & Ht). destruct (filter (fun r => truncated b r.1 = t) stamped) as [|x l] eqn:Hl.
      * assert (r ∈ filter (fun r => truncated b r.1 = t) stamped) as Hin by (by apply list_elem_of_filter). rewrite Hl in Hin. by apply elem_of_nil in Hin.
      * exists (t, dsum (snd <$> x :: l)). split; [done|]. apply elem_of_map_to_list. by rewrite bucket_sums_lookup, Hl.
Qed.

Lemma filter_money b k (stamped : list (Z * dec)) : money (snd <$> stamped) → money (snd <$> filter (fun r => truncated b r.1 = k) stamped).
Proof.
  intros [Hf Hs]. split.
  - rewrite Forall_fmap, Forall_forall in *. intros r [_ Hr]%list_elem_of_filter. by apply Hf.
  - eapply Z.le_lt_trans; [|exact Hs]. clear. induction stamped as [|r stamped IH]; [done|]. rewrite filter_cons. unfold zsum in *.
    destruct (decide _); cbn in *; lia.
Qed.
(** Bucket by bucket, the sums of money add up to the sum of all of it. *)
Lemma bucket_sums_money b keys stamped : money (snd <$> stamped) → stamped ≠ [] → NoDup keys → (∀ r, r ∈ stamped → truncated b r.1 ∈ keys) →
  Forall (fun k => filter (fun r => truncated b r.1 = k) stamped ≠ []) keys →
  dsum ((fun k => dsum (snd <$> filter (fun r => truncated b r.1 = k) stamped)) <$> keys) = dsum (snd <$> stamped).
Proof.
  intros Hm Hne Hnd Hin Hk. set (g k := zsum (coef <$> (snd <$> filter (fun r => truncated b r.1 = k) stamped))).
  assert (((fun k => dsum (snd <$> filter (fun r => truncated b r.1 = k) stamped)) <$> keys) = ((fun k => mkDec (g k) (-4)) <$> keys)) as ->.
  { apply list_fmap_ext. intros i k Hi. rewrite Forall_lookup in Hk. apply dsum_money; [by apply filter_money|]. specialize (Hk i k Hi). by destruct (filter _ stamped). }
  assert (keys ≠ []) as Hkeys.
  { intros ->. destruct stamped as [|r l]; [done|]. specialize (Hin r ltac:(by left)). by apply elem_of_nil in Hin. }
  assert (∀ h : Z * dec → Z, zsum ((fun k => zsum (h <$> filter (fun r => truncated b r.1 = k) stamped)) <$> keys) = zsum (h <$> stamped)) as Hg
    by (intros h; by apply groups_weighted).
  rewrite dsum_money; [rewrite dsum_money by (done || by destruct stamped)| |by destruct keys].
  - f_equal. rewrite <- list_fmap_compose. unfold compose. cbn [coef]. change (fun x => g x) with g. unfold g.
    rewrite <- (list_fmap_compose snd coef stamped), <- (Hg (coef ∘ snd)). f_equal. apply list_fmap_ext. intros _ k _. by rewrite <- list_fmap_compose.
  - split; [rewrite Forall_fmap; by apply Forall_forall|]. rewrite <- list_fmap_compose. unfold compose. cbn [coef]. destruct Hm as [_ Hs].
    eapply Z.le_lt_trans; [|exact Hs]. rewrite <- list_fmap_compose, <- (Hg ((fun d => Z.abs (coef d)) ∘ snd)). apply zsum_mono. intros k _. unfold g.
    rewrite <- list_fmap_compose. apply (zsum_abs (coef ∘ snd)).
Qed.

(** The PnL series is the running sum of its buckets: one point for every
    hour (or day) in which a trade closed, in strictly increasing order, each
    with the sum of exactly the trades of its bucket and the sum of all points up
    to it; for money amounts that fit in 28 digits the last point is the exact
    total of all trades. *)
Lemma pnl_series_is_cumulative b rows stamped : mapM stamp rows = Ok stamped →
  ∃ points, compute_pnl_series b rows = Ok points ∧ StronglySorted Z.lt (ps_bucket_at <$> points) ∧
    (∀ t, t ∈ (ps_bucket_at <$> points) ↔ ∃ r, r ∈ stamped ∧ truncated b r.1 = t) ∧
    (∀ i p, points !! i = Some p →
       ps_bucket_pnl p = dsum (snd <$> filter (fun r => truncated b r.1 = ps_bucket_at p) stamped) ∧
       ps_cumulative_pnl p = dsum (ps_bucket_pnl <$> take (S i) points)) ∧
    (money (tp_realized_pnl <$> rows) → ∀ p, last points = Some p → ps_cumulative_pnl p = dsum (tp_realized_pnl <$> rows)).
Proof.
  intros Hst. unfold compute_pnl_series. rewrite Hst. cbn [mbind res_bind]. set (keys := merge_sort _ _). set (points := cumulate _ _ keys).
  destruct (series_keys b stamped) as [Hsort Hin]. fold keys in Hsort, Hin. pose proof (cumulate_keys (bucket_sums b stamped) dzero keys) as Hkeys. fold points in Hkeys.
  assert (∀ p, p ∈ points → ps_bucket_pnl p = dsum (snd <$> filter (fun r => truncated b r.1 = ps_bucket_at p) stamped)) as Hpnl.
  { intros p (i & Hp)%list_elem_of_lookup. destruct (cumulate_lookup _ _ _ _ _ Hp) as [-> _]. rewrite bucket_sums_lookup. by destruct (filter _ stamped). }
  exists points. rewrite Hkeys. split_and!; [done..| |].
  - intros i p Hp. split; [by apply Hpnl; eapply list_elem_of_lookup_2|]. by apply cumulate_lookup in Hp as [_ ->].
  - intros Hm p Hp. assert (snd <$> stamped = tp_realized_pnl <$> rows) as Hsnd.
    { apply mapM_ok in Hst. clear -Hst. induction Hst as [|r x rows stamped Hr _ IH]; [done|]. cbn. rewrite IH. f_equal. unfold stamp in Hr.
      destruct (tp_closed_at r); [|done]. by injection Hr as <-. }
    rewrite <- Hsnd in Hm |- *. pose proof Hp as Hl. rewrite last_lookup in Hl. apply cumulate_lookup in Hl as [_ ->]. fold points.
    rewrite take_ge by lia. fold (dsum (ps_bucket_pnl <$> points)).
    rewrite <- (bucket_sums_money b keys stamped); [|done|..].
    + f_equal. rewrite <- Hkeys, <- list_fmap_compose. apply list_fmap_ext. intros i q Hq. apply Hpnl. by eapply list_elem_of_lookup_2.
    + intros ->. by rewrite (eq_refl : points = []) in Hp.
    + clear -Hsort. induction Hsort as [|k ks _ IH Hk]; [constructor|]. apply NoDup_cons. split; [|done]. rewrite Forall_forall in Hk. intros Hc. specialize (Hk k Hc). lia.
    + intros r Hr. apply Hin. by exists r.
    + apply Forall_forall. intros k (r & Hr & Hk)%Hin He. assert (r ∈ filter (fun r => truncated b r.1 = k) stamped) as Hc by (by apply list_elem_of_filter).
      rewrite He in Hc. by apply elem_of_nil in Hc.
Qed.

(** ** The bootstrap *)
(** The value at a position of the sorted list; past the end, the last one. *)
Definition value_at (l : list dec) (i : Z) : Q := dval (default dzero (l !! Z.to_nat (Z.min i (Z.of_nat (length l) - 1)))).
(** Linear interpolation at [pct] percent of the way through the list. *)
Definition interpolated (l : list dec) (pct : Z) : Q :=
  let k := pct * (Z.of_nat (length l) - 1) in
  (value_at l (k / 100) + inject_Z (k mod 100) / 100 * (value_at l (k / 100 + 1) - value_at l (k / 100)))%Q.
Definition ascending (l : list dec) : Prop := ∀ i j x y, (i <= j)%nat → l !! i = Some x → l !! j = Some y → (dval x <= dval y)%Q.

Lemma value_at_mono l i j : l ≠ [] → ascending l → 0 <= i <= j → (value_at l i <= value_at l j)%Q.
Proof.
  intros Hne Ha Hij. assert (0 < length l)%nat by (destruct l; [done|cbn; lia]). unfold value_at.
  destruct (lookup_lt_is_Some_2 l (Z.to_nat (Z.min i (Z.of_nat (length l) - 1)))) as [x Hx]; [lia|].
  destruct (lookup_lt_is_Some_2 l (Z.to_nat (Z.min j (Z.of_nat (length l) - 1)))) as [y Hy]; [lia|].
  rewrite Hx, Hy. cbn. eapply Ha; [|done|done]. lia.
Qed.
Lemma interpolated_between l pct : l ≠ [] → ascending l → 0 <= pct →
  let k := pct * (Z.of_nat (length l) - 1) in (value_at l (k / 100) <= interpolated l pct <= value_at l (k / 100 + 1))%Q.
Proof.
  intros Hne Ha Hp k. assert (0 < length l)%nat by (destruct l; [done|cbn; lia]). assert (0 <= k) as Hk by (unfold k; nia).
  pose proof (Z.div_pos k 100 Hk ltac:(done)). pose proof (value_at_mono l (k / 100) (k / 100 + 1) Hne Ha ltac:(lia)).
  pose proof (Z.mod_pos_bound k 100 ltac:(done)) as [Hr0 Hr1]. unfold interpolated. fold k. set (r := inject_Z (k mod 100)).
  assert (0 <= r)%Q by (unfold r; change 0%Q with (inject_Z 0); rewrite <- Zle_Qle; lia).
  assert (r <= 100)%Q by (unfold r; change 100%Q with (inject_Z 100); rewrite <- Zle_Qle; lia).
  assert (0 <= r / 100 <= 1)%Q as [Ht0 Ht1]. { split; [apply Qle_shift_div_l; lra|apply Qle_shift_div_r; lra]. }
  set (u := (r / 100)%Q) in *. set (a := value_at l (k / 100)) in *. set (d := (value_at l (k / 100 + 1) - a)%Q).
  assert (0 <= d)%Q by (unfold d; lra). assert (value_at l (k / 100 + 1) == a + d)%Q as -> by (unfold d; ring). split; nra.
Qed.
Lemma interpolated_mono l p q : l ≠ [] → ascending l → 0 <= p <= q → (interpolated l p <= interpolated l q)%Q.
Proof.
  intros Hne Ha Hpq. assert (0 < length l)%nat by (destruct l; [done|cbn; lia]). destruct (interpolated_between l p Hne Ha ltac:(lia)) as [_ Hp].
  destruct (interpolated_between l q Hne Ha ltac:(lia)) as [Hq _]. set (m := Z.of_nat (length l) - 1) in *. assert (0 <= m) by (unfold m; lia).
  assert (p * m <= q * m) as Hle by nia. pose proof (Z.div_le_mono (p * m) (q * m) 100 ltac:(done) Hle) as Hd.
  destruct (decide (p * m / 100 = q * m / 100)) as [He|Hn].
  - unfold interpolated. fold m. rewrite He. assert (p * m mod 100 <= q * m mod 100) as Hr by (rewrite !Z.mod_eq by done; lia).
    pose proof (value_at_mono l (q * m / 100) (q * m / 100 + 1) Hne Ha ltac:(split; [apply Z.div_pos; nia|lia])) as Hv.
    apply Qplus_le_r, Qmult_le_compat_r; [|lra]. apply Qmult_le_compat_r; [by rewrite <- Zle_Qle|done].
  - eapply Qle_trans; [exact Hp|]. eapply Qle_trans; [|exact Hq]. apply value_at_mono; [done..|]. split; [apply Z.add_nonneg_nonneg; [apply Z.div_pos; nia|lia]|lia].
Qed.

(** Amounts of money small enough for the interpolation to be exact. *)
Definition moderate (d : dec) : Prop := dexp d = -4 ∧ Z.abs (coef d) <= 10 ^ 25.
Lemma dmul_small a b : Z.abs (coef a * coef b) < 10 ^ prec → dmul a b = mkDec (coef a * coef b) (dexp a + dexp b).
Proof. intros Hs. unfold dmul. by rewrite fix_small. Qed.
Lemma dsub_same a b e : dexp a = e → dexp b = e → Z.abs (coef a - coef b) < 10 ^ prec → dsub a b = mkDec (coef a - coef b) e.
Proof.
  intros Ha Hb Hs. unfold dsub, common_exp, at_exp. rewrite Ha, Hb, Z.min_id, Z.sub_diag. change (10 ^ 0) with 1. rewrite !Z.mul_1_r. by rewrite fix_small.
Qed.
Lemma big_prec : 10 ^ prec = 1000 * 10 ^ 25 ∧ 0 < 10 ^ 25.
Proof. by vm_compute. Qed.
Lemma interpolation_exact lo up r s e : moderate lo → moderate up → -2 <= e <= 0 → s = 10 ^ (- e) → 0 <= r < s →
  (dval (dadd lo (dmul (mkDec r e) (dsub up lo))) == dval lo + inject_Z r / inject_Z s * (dval up - dval lo))%Q.
Proof.
  intros [Hle Hl] [Hue Hu] He Hs Hr. assert (s <= 100) as Hs100 by (assert (e = -2 ∨ e = -1 ∨ e = 0) as [->|[->| ->]] by lia; subst s; cbn; lia).
  destruct big_prec as (Hp & Hb). set (big := 10 ^ 25) in *. clearbody big. rewrite (dsub_same up lo (-4)); [|exact Hue|exact Hle|lia].
  assert (Z.abs (coef up - coef lo) <= 2 * big) as Hd by lia.
  assert (Z.abs (r * (coef up - coef lo)) <= 200 * big) as Hrd by (rewrite Z.abs_mul; nia).
  rewrite dmul_small by (cbn [coef]; lia). cbn [coef dexp].
  assert (-4 - (e - 4) = - e) as Hexp by lia.
  assert (dadd lo (mkDec (r * (coef up - coef lo)) (e + -4)) = mkDec (coef lo * s + r * (coef up - coef lo)) (e - 4)) as ->.
  { unfold dadd, common_exp, at_exp. cbn [coef dexp]. rewrite Hle. replace (Z.min (-4) (e + -4)) with (e - 4) by lia. rewrite Hexp, <- Hs.
    replace (e + -4 - (e - 4)) with 0 by lia. change (10 ^ 0) with 1. rewrite Z.mul_1_r. apply fix_small. cbn [coef]. assert (Z.abs (coef lo * s) <= 100 * big) by (rewrite Z.abs_mul; nia). lia. }
  unfold dval. cbn [coef dexp]. rewrite Hle, Hue. assert (p10 (-4) == inject_Z s * p10 (e - 4))%Q as ->.
  { rewrite Hs, <- Hexp. apply p10_shift. lia. }
  assert (~ inject_Z s == 0)%Q as Hs0 by (change 0%Q with (inject_Z 0); rewrite inject_Z_injective; lia).
  rewrite inject_Z_plus, !inject_Z_mult, inject_Z_sub. field. done.
Qed.
Lemma percentile_exact l pct c t s e : ddiv (mkDec pct 0) (mkDec 100 0) = Ok (mkDec c e) → -2 <= e <= 0 → s = 10 ^ (- e) → 100 = t * s → pct = t * c →
  0 <= c <= s → 0 < t → l ≠ [] → Forall moderate l → Z.of_nat (length l) <= 10 ^ 25 →
  ∃ v, percentile_linear l pct = Ok v ∧ (dval v == interpolated l pct)%Q.
Proof.
  intros Hdiv He Hs Ht Hpct Hc Htp Hne Hmod Hlen. destruct l as [|x [|y l]]; [done| |].
  { exists x. split; [done|]. unfold interpolated. replace (pct * (Z.of_nat (length [x]) - 1)) with 0 by (cbn; lia).
    change (dval x == dval x + 0 / 100 * (dval x - dval x))%Q. field. }
  remember (x :: y :: l) as vs eqn:Hvs. assert (2 <= Z.of_nat (length vs)) as Hn2 by (rewrite Hvs; cbn; lia).
  set (n := Z.of_nat (length vs)) in *. assert (0 < s) as Hsp by (rewrite Hs; apply pow10_gt0; lia).
  assert (s <= 100) as Hs100 by nia. set (k := c * (n - 1)). assert (0 <= k <= s * (n - 1)) as Hk by (unfold k; nia).
  destruct big_prec as (Hp & Hb). assert (s * (n - 1) <= 100 * 10 ^ 25) as Hbig.
  { clearbody n. clear -Hlen Hs100 Hn2 Hsp. generalize dependent (10 ^ 25). intros M Hlen. nia. }
  pose proof (Z.div_mod k s ltac:(lia)) as Hdm. pose proof (Z.mod_pos_bound k s Hsp) as Hr.
  assert (0 <= k / s <= n - 1) as Hq by (split; [apply Z.div_pos; lia|apply Z.div_le_upper_bound; lia]).
  destruct (lookup_lt_is_Some_2 vs (Z.to_nat (k / s))) as [lo Hlo]; [unfold n in *; lia|].
  set (u := if k / s <? n - 1 then k / s + 1 else k / s). assert (u = Z.min (k / s + 1) (n - 1)) as Hu by (unfold u; destruct (Z.ltb_spec (k / s) (n - 1)); lia).
  destruct (lookup_lt_is_Some_2 vs (Z.to_nat u)) as [up Hup]; [unfold n in *; lia|].
  rewrite Forall_lookup in Hmod. pose proof (Hmod _ _ Hlo) as Hmlo. pose proof (Hmod _ _ Hup) as Hmup.
  exists (dadd lo (dmul (mkDec (k mod s) e) (dsub up lo))). split.
  - rewrite Hvs. cbn [percentile_linear]. rewrite <- Hvs. fold n. rewrite Hdiv. cbn [mbind res_bind].
    assert (dmul (mkDec c e) (mkDec (n - 1) 0) = mkDec k e) as -> by (rewrite dmul_small; cbn [coef dexp]; [by rewrite Z.add_0_r|fold k; rewrite Hp; lia]).
    assert (dint (mkDec k e) = k / s) as ->.
    { unfold dint. cbn [coef dexp]. destruct (Z.leb_spec 0 e) as [H0|H0]; [assert (e = 0) as -> by lia; rewrite Hs; cbn; by rewrite Z.mul_1_r, Z.div_1_r|].
      rewrite <- Hs. apply Z.quot_div_nonneg; lia. }
    fold u. unfold at_index. rewrite Hlo, Hup. cbn. do 3 f_equal.
    unfold dsub, common_exp, at_exp. cbn [coef dexp]. rewrite Z.min_l, Z.sub_diag by lia. change (10 ^ 0) with 1. rewrite Z.mul_1_r, Z.sub_0_l, <- Hs.
    rewrite fix_small by (cbn [coef]; rewrite Hp; lia). f_equal. lia.
  - rewrite (interpolation_exact lo up (k mod s) s e Hmlo Hmup He Hs Hr). unfold interpolated. fold n.
    replace (pct * (n - 1)) with (t * k) by (rewrite Hpct; unfold k; ring). rewrite Ht, Z.div_mul_cancel_l, Z.mul_mod_distr_l by lia.
    unfold value_at. fold n. rewrite (Z.min_l (k / s)), <- Hu, Hlo, Hup by lia. cbn [default from_option id].
    assert (~ inject_Z s == 0)%Q by (change 0%Q with (inject_Z 0); rewrite inject_Z_injective; lia).
    assert (~ inject_Z t == 0)%Q by (change 0%Q with (inject_Z 0); rewrite inject_Z_injective; lia).
    change (t * s # 1)%Q with (inject_Z (t * s)). rewrite !inject_Z_mult.
    generalize dependent (inject_Z t). generalize dependent (inject_Z s). generalize (dval lo) (dval up) (inject_Z (k mod s)). clear. intros. field. done.
Qed.

#[local] Instance dec_le_total : Total dec_leq.
Proof. intros a b. unfold dec_leq. rewrite !dleb_spec. destruct (Qlt_le_dec (dval a) (dval b)); [left; lra|right; lra]. Qed.
#[local] Instance dec_le_trans : Transitive dec_leq.
Proof. intros a b c. unfold dec_leq. rewrite !dleb_spec. intros. lra. Qed.
Lemma sorted_ascending l : ascending (merge_sort dec_leq l).
Proof.
  assert (StronglySorted dec_leq (merge_sort dec_leq l)) as Hs by (apply StronglySorted_merge_sort; apply _). revert Hs. generalize (merge_sort dec_leq l).
  clear. intros l Hs. induction Hs as [|z l _ IH Hz]; intros i j x y Hij Hx Hy; [by rewrite lookup_nil in Hx|].
  destruct i as [|i], j as [|j]; cbn in Hx, Hy; [simplify_eq; lra| |lia|].
  - injection Hx as <-. rewrite Forall_lookup in Hz. apply dleb_spec. exact (Hz j y Hy).
  - eapply (IH i j); [lia|done|done].
Qed.
(** [random.choices]: [k] elements of the population. *)
Definition draws {G} (choices : list dec → nat → G → list dec * G) : Prop :=
  ∀ l k g, l ≠ [] → length (choices l k g).1 = k ∧ ∀ x, x ∈ (choices l k g).1 → x ∈ l.
Lemma zsum_bounds (l : list dec) lo hi : Forall (fun d => lo <= coef d <= hi) l →
  Z.of_nat (length l) * lo <= zsum (coef <$> l) <= Z.of_nat (length l) * hi.
Proof. unfold zsum. induction 1 as [|d l Hd _ IH]; cbn; [lia|]. cbn in IH. lia. Qed.
Lemma simulated_bounds {G} (choices : list dec → nat → G → list dec * G) sample n rng lo hi : draws choices → sample ≠ [] →
  Forall (fun d => dexp d = -4 ∧ lo <= coef d <= hi) sample →
  - 10 ^ 25 <= Z.of_nat (length sample) * lo → Z.of_nat (length sample) * hi <= 10 ^ 25 →
  Forall (fun d => dexp d = -4 ∧ Z.of_nat (length sample) * lo <= coef d <= Z.of_nat (length sample) * hi) (simulate choices sample n rng).
Proof.
  intros Hd Hne Hs Hlo Hhi.
  assert (Z.of_nat (length sample) * Z.max (Z.abs lo) (Z.abs hi) < 10 ^ prec) as Hsmall.
  { destruct sample as [|x sample]; [done|]. apply Forall_cons in Hs as [[_ Hx] _]. destruct big_prec as [-> Hb]. generalize dependent (10 ^ 25). intros M HM1 HM2 HM.
    assert (0 <= Z.of_nat (length (x :: sample))) as Hk by lia. set (k := Z.of_nat (length (x :: sample))) in *. clearbody k. destruct (Z.max_spec (Z.abs lo) (Z.abs hi)) as [[_ ->]|[_ ->]]; nia. }
  revert rng. induction n as [|n IH]; intros rng; cbn [simulate]; [constructor|]. destruct (choices sample (length sample) rng) as [draw rng'] eqn:E.
  destruct (Hd sample (length sample) rng Hne) as [Hlen Hin]. rewrite E in Hlen, Hin. cbn in Hlen, Hin. constructor; [|apply IH].
  assert (Forall (fun d => dexp d = -4 ∧ lo <= coef d <= hi) draw) as Hdr.
  { apply Forall_forall. intros x Hx. rewrite Forall_forall in Hs. by apply Hs, Hin. }
  assert (Forall (fun d => dexp d = -4) draw ∧ Forall (fun d => lo <= coef d <= hi) draw) as [He Hc] by (by apply Forall_and in Hdr).
  pose proof (zsum_bounds draw lo hi Hc) as Hz. rewrite Hlen in Hz.
  rewrite dsum_money; [by split| |intros ->; destruct sample; done]. split; [done|]. eapply Z.le_lt_trans; [|exact Hsmall]. rewrite <- Hlen. clear -Hc.
  unfold zsum. induction Hc as [|d l Hd _ IH]; cbn; [lia|]. cbn in IH. lia.
Qed.
Lemma value_at_bounds l i a b : l ≠ [] → Forall (fun d => dexp d = -4 ∧ a <= coef d <= b) l →
  (inject_Z a * p10 (-4) <= value_at l i <= inject_Z b * p10 (-4))%Q.
Proof.
  intros Hne Hf. assert (0 < length l)%nat by (destruct l; [done|cbn; lia]). unfold value_at.
  destruct (lookup_lt_is_Some_2 l (Z.to_nat (Z.min i (Z.of_nat (length l) - 1)))) as [x Hx]; [lia|]. rewrite Hx. cbn [default from_option id].
  rewrite Forall_lookup in Hf. destruct (Hf _ _ Hx) as [He Hc]. unfold dval. rewrite He, !Qmul_p10_le. lia.
Qed.

(** The bootstrap's percentiles are what they claim: for closed trades
    between [lo] and [hi] in ten-thousandths, with sums that fit, the simulation
    returns percentiles that interpolate its sorted outcomes exactly, in
    increasing order, none outside what so many trades can lose or win, whatever
    the random generator draws. *)
Lemma monte_carlo_percentiles {G} (seeded : Z → G) choices rows n seed lo hi : draws choices → rows ≠ [] → (0 < n)%nat → Z.of_nat n <= 10 ^ 25 →
  Forall (fun d => dexp d = -4 ∧ lo <= coef d <= hi) (tp_realized_pnl <$> rows) →
  - 10 ^ 25 <= Z.of_nat (length rows) * lo → Z.of_nat (length rows) * hi <= 10 ^ 25 →
  ∃ r equities, compute_monte_carlo seeded choices rows n seed = Ok r ∧ ascending equities ∧
    equities ≡ₚ simulate choices (tp_realized_pnl <$> rows) n (seeded seed) ∧ length equities = n ∧
    (dval (mc_p5 r) == interpolated equities 5 ∧ dval (mc_p25 r) == interpolated equities 25 ∧ dval (mc_p50 r) == interpolated equities 50 ∧
     dval (mc_p75 r) == interpolated equities 75 ∧ dval (mc_p95 r) == interpolated equities 95)%Q ∧
    (inject_Z (Z.of_nat (length rows) * lo) * p10 (-4) <= dval (mc_p5 r) ∧ dval (mc_p5 r) <= dval (mc_p25 r) ∧ dval (mc_p25 r) <= dval (mc_p50 r) ∧
     dval (mc_p50 r) <= dval (mc_p75 r) ∧ dval (mc_p75 r) <= dval (mc_p95 r) ∧ dval (mc_p95 r) <= inject_Z (Z.of_nat (length rows) * hi) * p10 (-4))%Q.
Proof.
  intros Hd Hne Hn Hn25 Hs Hlo Hhi. set (eq_ := merge_sort dec_leq (simulate choices (tp_realized_pnl <$> rows) n (seeded seed))).
  assert (length (tp_realized_pnl <$> rows) = length rows) as Hlr by apply length_fmap.
  assert (Forall (fun d => dexp d = -4 ∧ Z.of_nat (length rows) * lo <= coef d <= Z.of_nat (length rows) * hi) eq_) as Hb.
  { unfold eq_. rewrite merge_sort_Permutation, <- Hlr. apply simulated_bounds; rewrite ?Hlr; try done. by destruct rows. }
  assert (length eq_ = n) as Hlen.
  { unfold eq_. rewrite merge_sort_Permutation. generalize (seeded seed). clear. induction n as [|n IH]; intros g; cbn; [done|].
    destruct (choices _ _ g). cbn. by rewrite IH. }
  assert (eq_ ≠ []) as Hne' by (intros Heq; rewrite Heq in Hlen; cbn in Hlen; lia).
  pose proof (sorted_ascending (simulate choices (tp_realized_pnl <$> rows) n (seeded seed))) as Ha. fold eq_ in Ha.
  assert (Forall moderate eq_) as Hm by (eapply Forall_impl; [exact Hb|]; intros d [? ?]; split; [done|lia]). rewrite <- Hlen in Hn25.
  destruct (percentile_exact eq_ 5 5 1 100 (-2)) as (v5 & E5 & H5); [done..|].
  destruct (percentile_exact eq_ 25 25 1 100 (-2)) as (v25 & E25 & H25); [done..|].
  destruct (percentile_exact eq_ 50 5 10 10 (-1)) as (v50 & E50 & H50); [done..|].
  destruct (percentile_exact eq_ 75 75 1 100 (-2)) as (v75 & E75 & H75); [done..|].
  destruct (percentile_exact eq_ 95 95 1 100 (-2)) as (v95 & E95 & H95); [done..|].
  exists (mkMc n seed v5 v25 v50 v75 v95), eq_. cbn [mc_p5 mc_p25 mc_p50 mc_p75 mc_p95]. split_and!; try done.
  - destruct rows as [|r rows]; [done|]. cbn [compute_monte_carlo]. fold eq_. rewrite E5, E25, E50, E75, E95. done.
  - apply merge_sort_Permutation.
  - rewrite H5. eapply Qle_trans; [|by apply interpolated_between]. by eapply value_at_bounds.
  - rewrite H5, H25. by apply interpolated_mono.
  - rewrite H25, H50. by apply interpolated_mono.
  - rewrite H50, H75. by apply interpolated_mono.
  - rewrite H75, H95. by apply interpolated_mono.
  - rewrite H95. eapply Qle_trans; [by apply interpolated_between|]. by eapply value_at_bounds.
Qed.
(** A generator that counts and picks in turn. *)
Definition pick (l : list dec) (k g : nat) : list dec * nat :=
  ((fun i => default dzero (l !! ((g + i) mod length l)%nat)) <$> seq 0 k, S g).
Lemma pick_draws : draws pick.
Proof.
  intros l k g Hl. split; [cbn; by rewrite length_fmap, length_seq|]. cbn. intros x (i & -> & _)%list_elem_of_fmap.
  destruct (lookup_lt_is_Some_2 l ((g + i) mod length l)) as [y Hy]; [apply Nat.mod_upper_bound; by destruct l|]. rewrite Hy. by eapply list_elem_of_lookup_2.
Qed.

(** ** Expectancy *)
Definition within (u x y : Q) : Prop := (x * (1 - u) <= y /\ y <= x * (1 + u))%Q.
Lemma within_abs u x y : (0 <= x → Qabs (y - x) <= u * Qabs x → within u x y)%Q.
Proof. intros Hx Hu. rewrite (Qabs_pos x) in Hu by done. apply Qabs_Qle_condition in Hu as [H1 H2]. split; lra. Qed.
Lemma float_of_dec_rel d : (Qabs (bval (float_of_dec d) - dval d) <= roundoff * Qabs (dval d))%Q.
Proof.
  unfold float_of_dec. set (n := coef d * 10 ^ Z.max 0 (dexp d)). set (s := 10 ^ Z.max 0 (- dexp d)).
  assert (0 < s) as Hs by (apply pow10_gt0; lia). assert (0 < inject_Z s)%Q as Hsq by by apply inject_Z_pos.
  assert (inject_Z n == dval d * inject_Z s)%Q as Hn.
  { unfold dval, n, s. rewrite inject_Z_mult. destruct (Z.le_ge_cases 0 (dexp d)).
    - rewrite Z.max_r, (Z.max_l 0 (- _)), p10_Z by lia. change (10 ^ 0) with 1. ring.
    - rewrite Z.max_l, (Z.max_r 0 (- _)) by lia. change (10 ^ 0) with 1. rewrite <- (p10_Z (- dexp d)), <- Qmult_assoc, <- p10_add, Z.add_opp_diag_r by lia. done. }
  pose proof (fl_rel n s Hs) as Hr. rewrite Hn in Hr.
  assert (bval (fl n s) * inject_Z s - dval d * inject_Z s == (bval (fl n s) - dval d) * inject_Z s)%Q as He by ring.
  rewrite He, !Qabs_Qmult, (Qabs_pos (inject_Z s)), Qmult_assoc in Hr by lra. by apply Qmult_le_r in Hr.
Qed.
(** A rate times an average, all rounded, against the exact share. *)
Lemma share_accurate (W wc n a f g T u v : Q) : (0 <= u <= 1 → 0 <= v <= 1 → 0 <= W → 0 <= wc → 0 < n → 0 <= a → 0 <= g →
  within v W (a * wc) → within u a f → within u wc (g * n) → within u (g * f) T →
  W * ((1 - v) * (1 - u) * (1 - u) * (1 - u)) <= T * n /\ T * n <= W * ((1 + v) * (1 + u) * (1 + u) * (1 + u)))%Q.
Proof.
  intros Hu Hv HW Hwc Hn Ha Hg [Ha1 Ha2] [Hf1 Hf2] [Hg1 Hg2] [HT1 HT2].
  assert (0 <= a * (1 - u))%Q as Hau by (apply Qmult_le_0_compat; lra). assert (0 <= wc * (1 - u))%Q as Hwu by (apply Qmult_le_0_compat; lra).
  assert (0 <= f)%Q as Hf by lra. assert (0 <= g * n)%Q as Hgn by lra. split.
  - apply Qle_trans with (g * f * (1 - u) * n)%Q; [|apply Qmult_le_compat_r; lra].
    apply Qle_trans with ((wc * (1 - u)) * (a * (1 - u)) * (1 - u))%Q.
    + apply Qle_trans with ((a * wc) * ((1 - u) * (1 - u) * (1 - u)))%Q; [|apply Qle_lteq; right; ring].
      apply Qle_trans with (W * (1 - v) * ((1 - u) * (1 - u) * (1 - u)))%Q; [apply Qle_lteq; right; ring|].
      apply Qmult_le_compat_r; [done|]. repeat apply Qmult_le_0_compat; lra.
    + apply Qle_trans with ((g * n) * f * (1 - u))%Q; [|apply Qle_lteq; right; ring]. apply Qmult_le_compat_r; [|lra].
      apply Qle_trans with ((g * n) * (a * (1 - u)))%Q; [by apply Qmult_le_compat_r|]. rewrite !(Qmult_comm (g * n)). by apply Qmult_le_compat_r.
  - apply Qle_trans with (g * f * (1 + u) * n)%Q; [apply Qmult_le_compat_r; lra|].
    apply Qle_trans with ((wc * (1 + u)) * (a * (1 + u)) * (1 + u))%Q.
    + apply Qle_trans with ((g * n) * f * (1 + u))%Q; [apply Qle_lteq; right; ring|]. apply Qmult_le_compat_r; [|lra].
      apply Qle_trans with ((g * n) * (a * (1 + u)))%Q; [rewrite !(Qmult_comm (g * n)); by apply Qmult_le_compat_r|].
      apply Qmult_le_compat_r; [done|]. apply Qmult_le_0_compat; lra.
    + apply Qle_trans with ((a * wc) * ((1 + u) * (1 + u) * (1 + u)))%Q; [apply Qle_lteq; right; ring|].
      apply Qle_trans with (W * (1 + v) * ((1 + u) * (1 + u) * (1 + u)))%Q; [|apply Qle_lteq; right; ring].
      apply Qmult_le_compat_r; [done|]. repeat apply Qmult_le_0_compat; lra.
Qed.
Lemma roundings_small : (1 - 4 * roundoff <= (1 - p10 (-27)) * (1 - roundoff) * (1 - roundoff) * (1 - roundoff))%Q ∧
  ((1 + p10 (-27)) * (1 + roundoff) * (1 + roundoff) * (1 + roundoff) <= 1 + 4 * roundoff)%Q ∧ (0 <= roundoff <= 1 # 8)%Q ∧ (0 <= p10 (-27) <= 1)%Q.
Proof. repeat split; vm_compute; discriminate. Qed.
Definition money_value (l : list dec) : Q := (inject_Z (zsum (coef <$> l)) * p10 (-4))%Q.
Lemma zsum_nonneg (l : list Z) : Forall (fun x => 0 <= x) l → 0 <= zsum l.
Proof. unfold zsum. induction 1; cbn; lia. Qed.
Lemma mean_within l a : money l → Forall (fun d => 0 <= coef d) l → mean l = Ok a →
  (within (p10 (-27)) (money_value l) (dval a * inject_Z (Z.of_nat (length l))) /\ 0 <= dval a)%Q.
Proof.
  intros Hm Hp E. assert (0 <= money_value l)%Q as HW.
  { unfold money_value. apply Qmult_le_0_compat; [apply inject_Z_nonneg, zsum_nonneg; by rewrite Forall_fmap|]. apply Qlt_le_weak, p10_pos. }
  destruct l as [|x l]; [injection E as <-; split; [split; vm_compute; discriminate|vm_compute; discriminate]|].
  unfold mean in E. assert (dval (dsum (x :: l)) == money_value (x :: l))%Q as Hv by (rewrite dsum_money by done; reflexivity).
  pose proof (ddiv_rel _ _ _ E) as Hr. rewrite Hv in Hr. split.
  - apply within_abs; [done|]. eapply Qle_trans; [|exact Hr]. apply Qle_lteq. right. apply Qabs_wd. unfold dval at 3. cbn [coef dexp]. change (p10 0) with 1%Q. ring.
  - apply dval_sign. eapply ddiv_nonneg; [exact E| |cbn; lia]. rewrite dsum_money by done. cbn [coef]. apply zsum_nonneg. by rewrite Forall_fmap.
Qed.
Lemma share_within l a n : money l → Forall (fun d => 0 <= coef d) l → mean l = Ok a → 0 < n →
  (within (4 * roundoff) (money_value l) (bval (bmul (fl (Z.of_nat (length l)) n) (float_of_dec a)) * inject_Z n) /\ 0 <= money_value l)%Q.
Proof.
  intros Hm Hp Ha Hn. destruct (mean_within l a Hm Hp Ha) as [Hw Ha0]. destruct roundings_small as (Hs1 & Hs2 & Hu & Hv).
  assert (0 <= money_value l)%Q as HW.
  { unfold money_value. apply Qmult_le_0_compat; [apply inject_Z_nonneg, zsum_nonneg; by rewrite Forall_fmap|]. apply Qlt_le_weak, p10_pos. }
  split; [|done]. set (wc := Z.of_nat (length l)) in *. assert (0 <= inject_Z wc)%Q as Hwc by (apply inject_Z_nonneg; lia).
  assert (0 <= bval (fl wc n))%Q as Hg by (apply bval_nonneg, fl_nonneg; lia).
  assert (within roundoff (inject_Z wc) (bval (fl wc n) * inject_Z n)) as Hgw by (apply within_abs; [done|]; by apply fl_rel).
  assert (within roundoff (dval a) (bval (float_of_dec a))) as Hfw by (apply within_abs; [done|apply float_of_dec_rel]).
  assert (0 <= bval (float_of_dec a))%Q as Hf.
  { destruct Hfw as [Hf _]. eapply Qle_trans; [|exact Hf]. apply Qmult_le_0_compat; lra. }
  assert (within roundoff (bval (fl wc n) * bval (float_of_dec a)) (bval (bmul (fl wc n) (float_of_dec a)))) as HT
    by (apply within_abs; [by apply Qmult_le_0_compat|apply bmul_rel]).
  assert (0 < inject_Z n)%Q as Hnq by by apply inject_Z_pos. assert (0 <= roundoff <= 1)%Q as Hu1 by lra.
  destruct (share_accurate _ _ _ _ _ _ _ _ _ Hu1 Hv HW Hwc Hnq Ha0 Hg Hw Hfw Hgw HT) as [H1 H2].
  split; [eapply Qle_trans; [|exact H1]|eapply Qle_trans; [exact H2|]]; rewrite !(Qmult_comm (money_value l)); by apply Qmult_le_compat_r.
Qed.

Lemma sign_tests p : (dltb dzero p = true ↔ 0 < coef p) ∧ (dltb p dzero = true ↔ coef p < 0).
Proof.
  split; [rewrite dltb_spec, dval_zero; apply dval_sign|]. rewrite dltb_spec, dval_zero. destruct (dval_sign p) as [H1 H2]. split; intros Hx.
  - apply Z.nle_gt. rewrite <- H1. lra.
  - apply Qnot_le_lt. rewrite H1. lia.
Qed.
Lemma zsum_abs_nonneg (l : list dec) : Forall (fun d => 0 <= coef d) l →
  zsum ((fun d => Z.abs (coef d)) <$> l) = zsum (coef <$> l) ∧ 0 <= zsum (coef <$> l).
Proof. unfold zsum. induction 1 as [|d l Hd _ IH]; cbn; [done|]. cbn in IH. lia. Qed.
Lemma wins_losses l : money l →
  money (wins_of l) ∧ money (losses_of l) ∧ Forall (fun d => 0 <= coef d) (wins_of l) ∧ Forall (fun d => 0 <= coef d) (losses_of l) ∧
  zsum (coef <$> l) = zsum (coef <$> wins_of l) - zsum (coef <$> losses_of l) ∧
  zsum ((fun d => Z.abs (coef d)) <$> l) = zsum (coef <$> wins_of l) + zsum (coef <$> losses_of l).
Proof.
  induction l as [|p l IH]; intros Hm; [by repeat split; try constructor|].
  destruct (money_app [p] l Hm) as [Hp Hl]. destruct (IH Hl) as ([Hw1 Hw2] & [Hl1 Hl2] & Hwp & Hlp & Hz & Ha). clear IH. destruct Hm as [_ Hs]. cbn in Hs.
  destruct Hp as [He Hsp]. apply Forall_cons in He as [He _]. unfold zsum in Hsp; cbn in Hsp. destruct (sign_tests p) as [Hpos Hneg].
  pose proof (zsum_abs_nonneg _ Hwp) as [Hwa Hw0]. pose proof (zsum_abs_nonneg _ Hlp) as [Hla Hl0].
  unfold wins_of, losses_of in *. rewrite !filter_cons. unfold money, zsum in *. cbn in *.
  assert (dneg p = mkDec (- coef p) (-4)) as Hd by (unfold dneg; rewrite He; apply fix_small; cbn; lia).
  destruct (decide (dltb dzero p = true)) as [Hw|Hw]; destruct (decide (dltb p dzero = true)) as [Hn|Hn]; cbn; rewrite ?Hd; cbn;
    try (apply Hpos in Hw); try (apply Hneg in Hn); try (rewrite Hpos in Hw); try (rewrite Hneg in Hn); try lia; split_and!; try done; try lia;
    try (constructor; [done|done]); try (constructor; cbn; [lia|done]).
Qed.
(** The rounding of the difference of two such shares. *)
Lemma expectancy_error (W L Tw Tl E n u : Q) : (0 <= u <= 1 # 8 → 0 < n → 0 <= W → 0 <= L → W * (1 - 4 * u) <= Tw * n → Tw * n <= W * (1 + 4 * u) →
  L * (1 - 4 * u) <= Tl * n → Tl * n <= L * (1 + 4 * u) → Qabs (E - (Tw - Tl)) <= u * Qabs (Tw - Tl) →
  Qabs (E * n - (W - L)) <= 6 * u * (W + L))%Q.
Proof.
  intros Hu Hn HW HL Hw1 Hw2 Hl1 Hl2 HE.
  assert (0 <= u * W)%Q as HuW by (apply Qmult_le_0_compat; lra). assert (0 <= u * L)%Q as HuL by (apply Qmult_le_0_compat; lra).
  assert (Qabs ((E - (Tw - Tl)) * n) <= u * Qabs ((Tw - Tl) * n))%Q as HEn.
  { rewrite !Qabs_Qmult, (Qabs_pos n), Qmult_assoc by lra. apply Qmult_le_compat_r; lra. }
  assert (Qabs ((Tw - Tl) * n) <= 2 * (W + L))%Q as Hd.
  { apply Qabs_Qle_condition.
    assert (u * W <= (1 # 8) * W)%Q by (apply Qmult_le_compat_r; lra). assert (u * L <= (1 # 8) * L)%Q by (apply Qmult_le_compat_r; lra).
    assert ((Tw - Tl) * n == Tw * n - Tl * n)%Q as -> by ring. split; lra. }
  assert (u * Qabs ((Tw - Tl) * n) <= u * (2 * (W + L)))%Q as Hud by (rewrite !(Qmult_comm u); apply Qmult_le_compat_r; lra).
  assert (Qabs ((E - (Tw - Tl)) * n) <= 2 * (u * W) + 2 * (u * L))%Q as Hfin by (eapply Qle_trans; [exact HEn|]; eapply Qle_trans; [exact Hud|]; apply Qle_lteq; right; ring).
  apply Qabs_Qle_condition in Hfin as [H1 H2]. apply Qabs_Qle_condition.
  assert (E * n == (E - (Tw - Tl)) * n + Tw * n - Tl * n)%Q as -> by ring. split; lra.
Qed.

(** Expectancy is the mean trade: for money amounts that fit in 28 digits
    compute_expectancy never fails, counts the winning and the losing trades, and
    its result times the number of trades differs from the exact sum of all PnL
    by at most six roundings of a double in the sum of the absolute values. *)
Lemma expectancy_is_mean rows : rows ≠ [] → money (tp_realized_pnl <$> rows) →
  ∃ m, compute_expectancy rows = Ok m ∧ xm_total_trades m = Z.of_nat (length rows) ∧
    xm_win_count m = Z.of_nat (length (filter (fun p => 0 < coef p) (tp_realized_pnl <$> rows))) ∧
    xm_loss_count m = Z.of_nat (length (filter (fun p => coef p < 0) (tp_realized_pnl <$> rows))) ∧
    (Qabs (bval (xm_expectancy m) * inject_Z (Z.of_nat (length rows)) - inject_Z (zsum (coef <$> (tp_realized_pnl <$> rows))) * p10 (-4)) <=
       6 * roundoff * (inject_Z (zsum ((fun d => Z.abs (coef d)) <$> (tp_realized_pnl <$> rows))) * p10 (-4)))%Q.
Proof.
  intros Hne Hm. set (pnls := tp_realized_pnl <$> rows) in *. destruct (wins_losses pnls Hm) as (Hmw & Hml & Hw & Hl & Hz & Ha).
  destruct (mean_ok (wins_of pnls)) as [aw Haw]. destruct (mean_ok (losses_of pnls)) as [al Hal].
  set (n := Z.of_nat (length rows)). assert (0 < n) as Hn by (unfold n; destruct rows; [done|cbn; lia]).
  unfold compute_expectancy. fold n pnls. destruct (Z.eqb_spec n 0) as [?|_]; [lia|]. rewrite Haw, Hal. cbn [mbind res_bind]. eexists. split; [reflexivity|].
  cbn [xm_total_trades xm_win_count xm_loss_count xm_expectancy]. split_and!; [done|..].
  - unfold wins_of. do 2 f_equal. apply list_filter_iff. intros p. apply sign_tests.
  - unfold losses_of. rewrite length_fmap. do 2 f_equal. apply list_filter_iff. intros p. apply sign_tests.
  - destruct (share_within _ _ n Hmw Hw Haw Hn) as [[HW1 HW2] HW0]. destruct (share_within _ _ n Hml Hl Hal Hn) as [[HL1 HL2] HL0].
    set (Tw := bval (bmul _ (float_of_dec aw))) in *. set (Tl := bval (bmul _ (float_of_dec al))) in *. set (E := bval (bsub _ _)).
    assert (Qabs (E - (Tw - Tl)) <= roundoff * Qabs (Tw - Tl))%Q as HE by apply bsub_rel.
    assert (inject_Z (zsum (coef <$> pnls)) * p10 (-4) == money_value (wins_of pnls) - money_value (losses_of pnls))%Q as ->
      by (unfold money_value; rewrite Hz, inject_Z_sub; ring).
    assert (inject_Z (zsum ((fun d => Z.abs (coef d)) <$> pnls)) * p10 (-4) == money_value (wins_of pnls) + money_value (losses_of pnls))%Q as ->
      by (unfold money_value; rewrite Ha, inject_Z_plus; ring).
    destruct roundings_small as (_ & _ & Hu & _). assert (0 < inject_Z n)%Q as Hnq by by apply inject_Z_pos.
    eapply expectancy_error; [exact Hu|exact Hnq|done..].
Qed.

(** ** Variants *)
Lemma extremes_spec x l : (∀ p, p ∈ x :: l → (dval (worst x l) <= dval p <= dval (best x l))%Q) ∧ best x l ∈ x :: l ∧ worst x l ∈ x :: l.
Proof.
  unfold best, worst. induction l as [|y l IH] using rev_ind; [split; [intros p Hp; apply list_elem_of_singleton in Hp as ->; cbn; lra|by split; left]|].
  destruct IH as (Hb & Hbin & Hwin). rewrite !foldl_app. cbn [foldl]. fold (best x l) (worst x l) in *. set (bst := best x l) in *. set (wst := worst x l) in *. pose proof (Hb _ Hbin) as Hbst.
  change (x :: l ++ [y]) with ((x :: l) ++ [y]). split_and!.
  - intros p [Hp|Hp%list_elem_of_singleton]%elem_of_app; [specialize (Hb p Hp)|subst p];
      destruct (dltb bst y) eqn:E1; destruct (dltb y wst) eqn:E2; rewrite ?dltb_spec, ?dltb_false in E1; rewrite ?dltb_spec, ?dltb_false in E2; cbn; lra.
  - destruct (dltb bst y); apply elem_of_app; [right; by left|by left].
  - destruct (dltb y wst); apply elem_of_app; [right; by left|by left].
Qed.
Definition named (name : string) (rows : list ShadowVariantAggregateRow) : list ShadowVariantAggregateRow :=
  filter (fun r => ag_variant_name r = name) rows.
(** What the metrics of a variant say about its rows. *)
Definition metrics_of (rows : list ShadowVariantAggregateRow) (m : VariantAggregateMetrics) : Prop :=
  let mine := ag_realized_pnl <$> named (vm_variant_name m) rows in
  vm_n_trades m = Z.of_nat (length mine) ∧ vm_win_count m = Z.of_nat (length (wins_of mine)) ∧ vm_win_rate m = fl (vm_win_count m) (vm_n_trades m) ∧
  vm_total_pnl m = dsum mine ∧ mean mine = Ok (vm_avg_pnl m) ∧ vm_best_pnl m ∈ mine ∧ vm_worst_pnl m ∈ mine ∧
  (∀ p, p ∈ mine → (dval (vm_worst_pnl m) <= dval p <= dval (vm_best_pnl m))%Q) ∧
  (vm_avg_mfe_pct m = None ↔ omap ag_mfe_pct (named (vm_variant_name m) rows) = []) ∧
  (vm_avg_mae_pct m = None ↔ omap ag_mae_pct (named (vm_variant_name m) rows) = []).
Lemma average_pct_ok l : ∃ a, average_pct l = Ok a ∧ (a = None ↔ l = []).
Proof.
  destruct l as [|x l]; [by exists None|]. unfold average_pct. unfold bdiv. cbn [bman].
  destruct (Z.eqb_spec (Z.of_nat (length (x :: l))) 0) as [H0|_]; [cbn in H0; lia|]. cbn [mbind res_bind]. eexists. by split.
Qed.
Lemma variant_metrics_run rows name : named name rows ≠ [] →
  ∃ m, variant_metrics (name, named name rows) = Ok m ∧ vm_variant_name m = name ∧ metrics_of rows m.
Proof.
  intros Hne. unfold variant_metrics. cbn [fst snd]. set (mine := ag_realized_pnl <$> named name rows).
  assert (length (named name rows) = length mine) as Hlen by (unfold mine; by rewrite length_fmap). rewrite Hlen.
  destruct (average_pct_ok (omap ag_mfe_pct (named name rows))) as (mfe & Hmfe & Hmfe0). destruct (average_pct_ok (omap ag_mae_pct (named name rows))) as (mae & Hmae & Hmae0).
  assert (mine ≠ []) as Hm by (unfold mine; by destruct (named name rows)). destruct mine as [|p ps] eqn:E; [done|].
  destruct (mean_ok (p :: ps)) as [a Ha]. unfold mean in Ha. rewrite Ha. cbn [mbind res_bind]. rewrite Hmfe, Hmae. cbn [mbind res_bind]. eexists. split; [reflexivity|]. split; [done|].
  destruct (extremes_spec p ps) as (Hx & Hb & Hw). unfold metrics_of. cbn [vm_variant_name vm_n_trades vm_win_count vm_win_rate vm_total_pnl vm_avg_pnl vm_best_pnl vm_worst_pnl vm_avg_mfe_pct vm_avg_mae_pct].
  fold mine. rewrite E. by split_and!.
Qed.

Lemma dsum_bounded l : Z.abs (coef (dsum l)) < 10 ^ prec.
Proof. induction l as [|x l _] using rev_ind; [done|]. rewrite dsum_snoc. apply fix_bounded. Qed.
Definition rank_spec (a b : VariantAggregateMetrics) : Prop :=
  (dval (vm_total_pnl b) < dval (vm_total_pnl a))%Q ∨ (dval (vm_total_pnl a) == dval (vm_total_pnl b))%Q ∧ String.leb (vm_variant_name a) (vm_variant_name b) = true.
Lemma ranked_lex a b : ranked a b ↔ (dval (dneg (vm_total_pnl a)) < dval (dneg (vm_total_pnl b)))%Q ∨
  (dval (dneg (vm_total_pnl a)) == dval (dneg (vm_total_pnl b)))%Q ∧ String.leb (vm_variant_name a) (vm_variant_name b) = true.
Proof.
  unfold ranked. destruct (deqb _ _) eqn:E.
  - apply deqb_spec in E. split; [by right|]. intros [?|[_ ?]]; [lra|done].
  - rewrite dleb_spec. assert (¬ (dval (dneg (vm_total_pnl a)) == dval (dneg (vm_total_pnl b)))%Q) as Hn by (rewrite <- deqb_spec, E; done).
    split; [intros [?|?]%Qle_lteq; [by left|done]|intros [?|[? _]]; [lra|done]].
Qed.
#[local] Instance ranked_total : Total ranked.
Proof.
  intros a b. rewrite !ranked_lex. set (x := dval (dneg (vm_total_pnl a))). set (y := dval (dneg (vm_total_pnl b))).
  destruct (Qlt_le_dec x y) as [?|Hle]; [by left; left|]. apply Qle_lteq in Hle as [?|He]; [by right; left|].
  destruct (String.leb_total (vm_variant_name a) (vm_variant_name b)); [left|right]; right; split; done.
Qed.
#[local] Instance ranked_trans : Transitive ranked.
Proof.
  intros a b c. rewrite !ranked_lex. intros [?|[? ?]] [?|[? ?]]; [left; lra..|]. right. split; [lra|]. by eapply string_leb_trans.
Qed.
Lemma ranked_spec a b : Z.abs (coef (vm_total_pnl a)) < 10 ^ prec → Z.abs (coef (vm_total_pnl b)) < 10 ^ prec → ranked a b ↔ rank_spec a b.
Proof.
  intros Ha Hb. rewrite ranked_lex, !dneg_value by done. unfold rank_spec. split; (intros [?|[? ?]]; [left; lra|right; split; [lra|done]]).
Qed.
Lemma metrics_bounded rows m : metrics_of rows m → Z.abs (coef (vm_total_pnl m)) < 10 ^ prec.
Proof. intros (_ & _ & _ & -> & _). apply dsum_bounded. Qed.

(** The variants of a symbol are ranked by what they earned: one line per
    variant that has a terminated run, with the counts, sum, mean, best and worst
    of exactly its runs and no average percentage only when none was recorded,
    ordered by decreasing total, equal totals by name. *)
Lemma variants_ranked_by_total rows : ∃ ms, compute_variant_aggregate rows = Ok ms ∧ NoDup (vm_variant_name <$> ms) ∧
  (∀ name, name ∈ (vm_variant_name <$> ms) ↔ named name rows ≠ []) ∧ Forall (metrics_of rows) ms ∧ StronglySorted rank_spec ms.
Proof.
  unfold compute_variant_aggregate. set (groups := map_to_list (group ag_variant_name rows)).
  assert (∀ kv, kv ∈ groups ↔ kv.2 = named kv.1 rows ∧ kv.2 ≠ []) as Hg.
  { intros [name l]. unfold groups. rewrite elem_of_map_to_list, group_lookup. cbn. fold (named name rows).
    destruct (named name rows) as [|r l'] eqn:E; split; [done|by intros [-> ?]|by intros [= <-]|by intros [-> _]]. }
  assert (∀ kv, kv ∈ groups → ∃ m, variant_metrics kv = Ok m ∧ vm_variant_name m = kv.1 ∧ metrics_of rows m) as Hrun.
  { intros [name l] [Hl Hne]%Hg. cbn in Hl, Hne. subst l. by apply variant_metrics_run. }
  destruct (mapM_total variant_metrics groups) as [ms Hms]; [intros kv Hkv; destruct (Hrun kv Hkv) as (m & Hm & _); by exists m|].
  rewrite Hms. cbn [mbind res_bind]. exists (merge_sort ranked ms). apply mapM_ok in Hms.
  assert (vm_variant_name <$> ms = groups.*1 ∧ Forall (metrics_of rows) ms) as [Hn Hall].
  { assert (Forall (fun kv => kv ∈ groups) groups) as Hin by (by apply Forall_forall). clear Hg. revert Hin Hrun Hms. generalize groups at 1 3 as G. intros G Hin Hrun Hms. revert Hin. induction Hms as [|kv m ks ms Hm _ IH]; intros Hin; [by split|]. apply Forall_cons in Hin as [Hk Hin].
    destruct (IH Hin) as [H1 H2]. destruct (Hrun kv Hk) as (m' & Hm' & Hname & Hof). assert (m' = m) as -> by congruence. cbn. rewrite H1, Hname. split; [done|by constructor]. }
  split_and!; [done|..].
  - rewrite merge_sort_Permutation, Hn. apply NoDup_fst_map_to_list.
  - intros name. rewrite merge_sort_Permutation, Hn, list_elem_of_fmap. split.
    + intros ([k l] & -> & [Hl Hne]%Hg). cbn in *. by subst l.
    + intros Hne. exists (name, named name rows). split; [done|]. by apply Hg.
  - by rewrite merge_sort_Permutation.
  - assert (Forall (metrics_of rows) (merge_sort ranked ms)) as Hf by (by rewrite merge_sort_Permutation).
    pose proof (StronglySorted_merge_sort ranked ms) as Hs. revert Hf Hs. generalize (merge_sort ranked ms). clear. intros l Hf Hs.
    induction Hs as [|m l _ IH Hm]; [constructor|]. apply Forall_cons in Hf as [H1 H2]. constructor; [by apply IH|].
    rewrite Forall_forall in *. intros m' Hin. apply ranked_spec; [by eapply metrics_bounded|eapply metrics_bounded, H2, Hin|by apply Hm].
Qed.

(** ** The cache *)
Section cache_facts.
Context {V : Type} (ttl : Z) (Httl : 0 < ttl).
Implicit Types c : cache_state (V := V).
Implicit Types tr : list (cache_event (V := V)).

Record cache_inv tr c : Prop := mkCacheInv {
  ci_locked : ∀ i key s, ca_requests c !! i = Some (computing key s) → key ∈ ca_locked c;
  ci_unique : ∀ i j key s t, ca_requests c !! i = Some (computing key s) → ca_requests c !! j = Some (computing key t) → i = j;
  ci_values : ∀ key e v, ca_values c !! key = Some (e, v) → ∃ i s t, returned i key s t v ∈ tr ∧ e = s + ttl;
  ci_kept : ∀ i key s t v, returned i key s t v ∈ tr → ∃ e v', ca_values c !! key = Some (e, v') ∧ s + ttl <= e;
  ci_after : ∀ i key s j s' t v, ca_requests c !! i = Some (computing key s) → returned j key s' t v ∈ tr → s' + ttl <= s;
  ci_answers : ∀ i key v at_, ca_requests c !! i = Some (answered key v at_) → ∃ j s t, returned j key s t v ∈ tr ∧ (j = i ∨ at_ < s + ttl);
  ci_started : ∀ i key s, ca_requests c !! i = Some (computing key s) → started i key s ∈ tr;
}.
Lemma inv_empty t : cache_inv [] (mkCache ∅ ∅ ∅ t).
Proof. split; cbn; intros; try done; by apply elem_of_nil in H. Qed.
(** A request that is neither computing nor answered changes nothing else. *)
Lemma inv_set_request tr c i r : cache_inv tr c → (∀ key s, ca_requests c !! i ≠ Some (computing key s)) →
  (∀ key s, r ≠ computing key s) → (∀ key v at_, r = answered key v at_ → ∃ j s t, returned j key s t v ∈ tr ∧ (j = i ∨ at_ < s + ttl)) →
  cache_inv tr (set_request i r c).
Proof.
  intros [H1 H2 H3 H4 H5 H6 H7] Hi Hr Ha. split; cbn; [| |done|done|..].
  - intros j key s. rewrite lookup_insert_Some. intros [[_ ?]|[_ ?]]; [by destruct (Hr key s)|by eapply H1].
  - intros j k key s t. rewrite !lookup_insert_Some. intros [[_ ?]|[_ Hj]] [[_ ?]|[_ Hk]]; try (by destruct (Hr key s)); try (by destruct (Hr key t)). by eapply H2.
  - intros j key s k s' t v. rewrite lookup_insert_Some. intros [[_ ?]|[_ ?]]; [by destruct (Hr key s)|by eapply H5].
  - intros j key v at_. rewrite lookup_insert_Some. intros [[<- ?]|[_ ?]]; [by apply Ha|by apply H6].
  - intros j key s. rewrite lookup_insert_Some. intros [[_ ?]|[_ ?]]; [by destruct (Hr key s)|by apply H7].
Qed.
Lemma fresh_value_some tr c key v : cache_inv tr c → fresh_value c key = Some v → ∃ j s t, returned j key s t v ∈ tr ∧ ca_now c < s + ttl.
Proof.
  intros Hi. unfold fresh_value. destruct (ca_values c !! key) as [[e v']|] eqn:E; [|done]. destruct (Z.ltb_spec (ca_now c) e); [|done].
  intros [= <-]. destruct (ci_values _ _ Hi _ _ _ E) as (j & s & t & Hr & ->). by exists j, s, t.
Qed.
Lemma fresh_value_none tr c key : cache_inv tr c → fresh_value c key = None → ∀ j s t v, returned j key s t v ∈ tr → s + ttl <= ca_now c.
Proof.
  intros Hi Hf j s t v Hr. destruct (ci_kept _ _ Hi _ _ _ _ _ Hr) as (e & v' & He & Hle). unfold fresh_value in Hf. rewrite He in Hf.
  destruct (Z.ltb_spec (ca_now c) e); [done|lia].
Qed.
Lemma inv_lock tr c i key : cache_inv tr c → ca_requests c !! i = Some (waiting key) → key ∉ ca_locked c →
  cache_inv (tr ++ if fresh_value c key then [] else [started i key (ca_now c)]) (take_lock i key c).
Proof.
  intros Hi Hw Hfree. unfold take_lock. destruct (fresh_value c key) as [v|] eqn:Hf.
  - rewrite app_nil_r. destruct (fresh_value_some _ _ _ _ Hi Hf) as (j & s & t & Hr & Hlt). apply inv_set_request; [done|intros ? ?; by rewrite Hw|done|].
    intros k v' a [= <- <- <-]. exists j, s, t. auto.
  - pose proof (fresh_value_none _ _ _ Hi Hf) as Hold. destruct Hi as [H1 H2 H3 H4 H5 H6 H7].
    assert (∀ j k s, j ≠ i → ca_requests c !! j = Some (computing k s) → k ≠ key) as Hother by (intros j k s _ Hj ->; apply H1 in Hj; done).
    assert (∀ e, e ∈ tr ++ [started i key (ca_now c)] ↔ e ∈ tr ∨ e = started i key (ca_now c)) as Htr by (intros e; by rewrite elem_of_app, list_elem_of_singleton).
    split; cbn.
    + intros j k s. rewrite lookup_insert_Some. intros [[_ [= <- _]]|[_ Hj]]; [set_solver|]. apply elem_of_union_r. by eapply H1.
    + intros j l k s t. rewrite !lookup_insert_Some. intros [[Hi1 He1]|[Hn Hj]] [[Hi2 He2]|[Hn' Hl]]; simplify_eq; [done|..].
      * by destruct (Hother l k t).
      * by destruct (Hother j k s).
      * by eapply H2.
    + intros k e v Hv. destruct (H3 _ _ _ Hv) as (j & s & t & Hr & ->). exists j, s, t. rewrite Htr. auto.
    + intros j k s t v [Hr|?]%Htr; [by eapply H4|done].
    + intros j k s l s' t v. rewrite lookup_insert_Some. intros [[_ [= <- <-]]|[_ Hj]] [Hr|?]%Htr; try done; [by eapply Hold|by eapply H5].
    + intros j k v a. rewrite lookup_insert_Some. intros [[_ ?]|[_ Hj]]; [done|]. destruct (H6 _ _ _ _ Hj) as (l & s & t & Hr & Hx). exists l, s, t. rewrite Htr. auto.
    + intros j k s. rewrite lookup_insert_Some, Htr. intros [[<- [= <- <-]]|[_ Hj]]; [by right|left; by apply H7].
Qed.
Lemma inv_complete tr c i key s r : cache_inv tr c → ca_requests c !! i = Some (computing key s) →
  cache_inv (tr ++ match r with Some v => [returned i key s (ca_now c) v] | None => [] end) (complete ttl i key s r c).
Proof.
  intros [H1 H2 H3 H4 H5 H6 H7] Hc.
  assert (∀ j k t, j ≠ i → ca_requests c !! j = Some (computing k t) → k ≠ key) as Hother by (intros j k t Hn Hj ->; by eapply Hn, H2).
  destruct r as [v|]; cbn [complete].
  - assert (∀ e, e ∈ tr ++ [returned i key s (ca_now c) v] ↔ e ∈ tr ∨ e = returned i key s (ca_now c) v) as Htr by (intros e; by rewrite elem_of_app, list_elem_of_singleton).
    split; cbn.
    + intros j k t. rewrite lookup_insert_Some. intros [[_ ?]|[Hn Hj]]; [done|]. apply elem_of_difference. split; [by eapply H1|]. rewrite elem_of_singleton. eapply Hother; [|done]. congruence.
    + intros j l k t t'. rewrite !lookup_insert_Some. intros [[_ ?]|[_ Hj]] [[_ ?]|[_ Hl]]; try done. by eapply H2.
    + intros k e v'. rewrite lookup_insert_Some. intros [[<- [= <- <-]]|[_ Hv]]; [exists i, s, (ca_now c); rewrite Htr; auto|].
      destruct (H3 _ _ _ Hv) as (j & s' & t & Hr & ->). exists j, s', t. rewrite Htr. auto.
    + intros j k s' t v' Hr%Htr. destruct (decide (k = key)) as [->|Hk].
      * exists (s + ttl), v. rewrite lookup_insert_eq. split; [done|]. destruct Hr as [Hr|[= -> -> -> ->]]; [pose proof (H5 _ _ _ _ _ _ _ Hc Hr); lia|lia].
      * rewrite lookup_insert_ne by done. destruct Hr as [Hr|[= -> -> -> -> ->]]; [by eapply H4|done].
    + intros j k s' l s'' t v'. rewrite lookup_insert_Some. intros [[_ ?]|[Hn Hj]] Hr%Htr; [done|]. destruct Hr as [Hr|[= -> -> -> -> ->]]; [by eapply H5|].
      exfalso. by eapply (Hother j key s').
    + intros j k v' a. rewrite lookup_insert_Some. intros [[<- [= <- <- <-]]|[_ Hj]]; [exists i, s, (ca_now c); rewrite Htr; auto|].
      destruct (H6 _ _ _ _ Hj) as (l & s' & t & Hr & Hx). exists l, s', t. rewrite Htr. auto.
    + intros j k s'. rewrite lookup_insert_Some, Htr. intros [[_ ?]|[_ Hj]]; [done|left; by apply H7].
  - rewrite app_nil_r. split; cbn; [| |done|done|..].
    + intros j k t. rewrite lookup_insert_Some. intros [[_ ?]|[Hn Hj]]; [done|]. apply elem_of_difference. split; [by eapply H1|]. rewrite elem_of_singleton. eapply Hother; [|done]. congruence.
    + intros j l k t t'. rewrite !lookup_insert_Some. intros [[_ ?]|[_ Hj]] [[_ ?]|[_ Hl]]; try done. by eapply H2.
    + intros j k s' l s'' t v'. rewrite lookup_insert_Some. intros [[_ ?]|[Hn Hj]]; [done|]. by eapply H5.
    + intros j k v' a. rewrite lookup_insert_Some. intros [[_ ?]|[_ Hj]]; [done|by apply H6].
    + intros j k s'. rewrite lookup_insert_Some. intros [[_ ?]|[_ Hj]]; [done|by apply H7].
Qed.
Lemma inv_step tr c evs c' : cache_inv tr c → cache_step ttl c evs c' → cache_inv (tr ++ evs) c'.
Proof.
  intros Hi. destruct 1 as [c i key Hn|c i key Hn|c i key Hn Hf|c i key s r Hn|c i key Hn|c t Ht].
  - rewrite app_nil_r. apply inv_set_request; [done|intros ? ?; by rewrite Hn|done..].
  - rewrite app_nil_r. unfold look_up. destruct (fresh_value c key) as [v|] eqn:Hf; (apply inv_set_request; [done|intros ? ?; by rewrite Hn|done|]); [|done].
    destruct (fresh_value_some _ _ _ _ Hi Hf) as (j & s & t & Hr & Hlt). intros k v' a [= <- <- <-]. exists j, s, t. auto.
  - by apply inv_lock.
  - by apply inv_complete.
  - rewrite app_nil_r. apply inv_set_request; [done|intros ? ?; by destruct Hn as [-> | ->]|done..].
  - rewrite app_nil_r. destruct Hi as [H1 H2 H3 H4 H5 H6 H7]. by split.
Qed.

(** Computations of a key that start after one returned are a time to live apart. *)
Definition reuses tr : Prop := ∀ i j a b key s1 t1 v s2, (i < j)%nat →
  tr !! i = Some (returned a key s1 t1 v) → tr !! j = Some (started b key s2) → s1 + ttl <= s2.
Definition started_first tr : Prop := ∀ i a key s t v, tr !! i = Some (returned a key s t v) → started a key s ∈ take i tr.
Lemma trace_step tr c evs c' : cache_inv tr c → reuses tr ∧ started_first tr → cache_step ttl c evs c' → reuses (tr ++ evs) ∧ started_first (tr ++ evs).
Proof.
  intros Hi [Hre Hst] Hs. assert (evs = [] ∨ (∃ i key, evs = [started i key (ca_now c)] ∧ fresh_value c key = None) ∨
    (∃ i key s v, evs = [returned i key s (ca_now c) v] ∧ ca_requests c !! i = Some (computing key s))) as He.
  { destruct Hs as [| |c i key _ _|c i key s [v|] Hn| |]; try (by left); [destruct (fresh_value c key) eqn:Hf; [by left|]; right; left; by exists i, key|].
    right. right. by exists i, key, s, v. }
  destruct He as [->|He]; [by rewrite app_nil_r|]. assert (∃ e, evs = [e]) as [e ->] by (destruct He as [(?&?&->&_)|(?&?&?&?&->&_)]; by eexists).
  assert (∀ k x, (tr ++ [e]) !! k = Some x → tr !! k = Some x ∧ (k < length tr)%nat ∨ k = length tr ∧ x = e) as Hlook.
  { intros k x Hk. apply lookup_app_Some in Hk as [Hk|[Hle Hk]]; [left; split; [done|by eapply lookup_lt_Some]|]. right. apply list_lookup_singleton_Some in Hk as [? <-]. split; [lia|done]. }
  split.
  - intros i j a b key s1 t1 v s2 Hij Hx Hy. destruct (Hlook _ _ Hx) as [[Hx' Hlx]|[-> Hx']]; destruct (Hlook _ _ Hy) as [[Hy' Hly]|[-> Hy']]; [by eapply (Hre i j)| |lia..].
    destruct He as [(i0 & key0 & [= He] & Hf)|(?&?&?&?&[= He]&_)]; [|congruence]. rewrite He in Hy'. injection Hy' as -> -> ->.
    eapply fresh_value_none; [done|done|]. by eapply list_elem_of_lookup_2.
  - intros i a key s t v Hx. destruct (Hlook _ _ Hx) as [[Hx' Hlx]|[-> Hx']]; [rewrite take_app_le by lia; by eapply Hst|].
    rewrite take_app_length. destruct He as [(?&?&[= He]&_)|(i0 & key0 & s0 & v0 & [= He] & Hc)]; [congruence|]. rewrite He in Hx'. injection Hx' as -> -> -> _ _.
    by eapply ci_started.
Qed.

(** C40: the analytics cache computes a key in one place at a time and not again
    while it is fresh: over any interleaving of requests, computations that
    return or raise, cancellations and a clock that does not go back, two computations in flight have
    different keys; a computation of a key that starts after another one returned
    starts at least the time to live after that one did; and every request is
    answered with a value computed for its own key, by itself or by a
    computation that was still fresh. *)
Theorem cache_single_flight t0 tr c : cache_run ttl (mkCache ∅ ∅ ∅ t0) tr c →
  (∀ i j key s t, ca_requests c !! i = Some (computing key s) → ca_requests c !! j = Some (computing key t) → i = j) ∧
  reuses tr ∧ started_first tr ∧
  ∀ i key v at_, ca_requests c !! i = Some (answered key v at_) → ∃ j s t, returned j key s t v ∈ tr ∧ (j = i ∨ at_ < s + ttl).
Proof.
  intros Hrun. remember (mkCache ∅ ∅ ∅ t0) as c0 eqn:H0. assert (cache_inv tr c ∧ reuses tr ∧ started_first tr) as (Hi & Hre & Hst).
  { induction Hrun as [c|c tr c1 evs c2 Hrun IH Hs]; [subst c; split; [apply inv_empty|]; split; intros i; intros; by rewrite lookup_nil in *|].
    destruct (IH H0) as (Hi & Htr). split; [by eapply inv_step|by eapply trace_step]. }
  split_and!; [by eapply ci_unique|done..|by eapply ci_answers].
Qed.
End cache_facts.
Lemma cache_single_flight_witness : ∃ c : cache_state (V := Z),
  ca_requests c !! 1%nat = Some (answered "k" 7 3) ∧ ∃ j s t, returned j "k" s t 7 ∈ [started 0 "k" 1; returned 0 "k" 1 3 7] ∧ (j = 1%nat ∨ 3 < s + 300).
Proof.
  pose proof (run_refl 300 (mkCache (V := Z) ∅ ∅ ∅ 1)) as R.
  eapply run_step in R; [|apply (step_arrive 300 _ 0 "k"); reflexivity].
  eapply run_step in R; [|apply (step_look 300 _ 0 "k"); reflexivity].
  eapply run_step in R; [|apply (step_arrive 300 _ 1 "k"); reflexivity].
  eapply run_step in R; [|apply (step_look 300 _ 1 "k"); reflexivity].
  eapply run_step in R; [|apply (step_lock 300 _ 0 "k"); [reflexivity|vm_compute; intros ?; done]].
  eapply run_step in R; [|apply (step_clock 300 _ 3); vm_compute; discriminate].
  eapply run_step in R; [|apply (step_complete 300 _ 0 "k" 1 (Some 7)); reflexivity].
  eapply run_step in R; [|apply (step_lock 300 _ 1 "k"); [reflexivity|vm_compute; intros ?; done]].
  destruct (cache_single_flight 300 ltac:(done) 1 _ _ R) as (_ & _ & _ & H).
  match type of R with cache_run _ _ _ ?c => exists c end. split; [reflexivity|]. exact (H 1%nat "k" 7 3 eq_refl).
Defined.

(** ** The endpoints *)
(** The cap on the series is off by one: a window that begins inside an hour
    touches one hour more than its length, so a request estimated at the maximum
    of 5000 points is accepted and answered with 5001. *)
Definition hourly_trade (i : nat) : live_trade :=
  mkLiveTrade "a" None 0 None "BTCUSDT" buy (mkDec 1 0) None (mkDec 1 0) (mkDec 1 0) (Some (mkDec 10000 (-4))) None None 0
    (Some (Z.max (hour_us / 2) (Z.of_nat i * hour_us))) st_closed None None.
Definition many_trades : live_db := mkLive ∅ (list_to_map ((fun i => (Z.of_nat i, hourly_trade i)) <$> seq 0 5001)) [] ∅ [] 1 5002.
Lemma series_cap_off_by_one :
  length <$> get_pnl_series hourly None (Some (hour_us / 2)) (Some (hour_us / 2 + 5000 * hour_us - 1)) many_trades = Ok 5001%nat.
Proof. vm_compute. reflexivity. Qed.
(** The key of the Monte-Carlo cache writes a missing filter as the text None:
    the answer for all bots is also the answer for a bot of that name. *)
Lemma cache_key_of_none sha256_hex show_time from_at to_at n :
  cache_key sha256_hex show_time None from_at to_at n = cache_key sha256_hex show_time (Some "None") from_at to_at n.
Proof. done. Qed.
