(* ===== verification/Backtest.v ===== *)
(** * Backtests: the run table, the worker and the replay's bookkeeping

    Models scripts/backtest.py, services/analytics_api/app/backtest_worker.py and
    the backtest statements of packages/db/queries/analytics.py over the tables of
    migrations 0012 and 0013.  The replay between subscribing the handlers and
    the drained bus is a parameter; it leaves the paper tables and reports the
    fills that the dispatcher task took from the stream, which that task then
    handles with the dispatcher of the execution service.  Loading the
    configuration is a parameter too.  Every statement draws the next of
    [bw_faults].  The columns of a statement are resolved against the columns the
    migrations create. *)

From S2P Require Import Prelude Json Dec DecText Float64 PyNum Sizing PaperDb PaperExchange ExecDb Exchange PaperClient Dedup Dispatcher Analytics.
From stdpp Require Import sorting gmap.
Open Scope Z_scope.

(** ** Tables *)
Inductive BacktestStatus := QUEUED | RUNNING | COMPLETED | FAILED.
#[global] Instance BacktestStatus_eq_dec : EqDecision BacktestStatus.
Proof. solve_decision. Defined.
Record Summary := mkSummary { sm_total_trades : Z; sm_wr : option b64; sm_pnl : dec; sm_pf : option b64; sm_mdd : dec }.
Inductive run_summary := metrics (m : Summary) | error_text (text : string).
Record BacktestRunRow := mkRun {
  run_name : string; run_bot_id : string; run_config_yaml : string; run_config_hash : string; run_range_start : Z; run_range_end : Z;
  run_status : BacktestStatus; run_started_at : Z; run_finished_at : option Z; run_result : option run_summary; run_notes : option string;
}.
Record BacktestTradeRow := mkBtTrade {
  bk_run_id : Z; bk_bot_id : string; bk_signal_id : option Z; bk_open_order_id : option Z; bk_close_order_id : option Z; bk_symbol : string;
  bk_side : side; bk_entry_price : dec; bk_exit_price : option dec; bk_qty : dec; bk_notional_usd : dec; bk_realized_pnl : option dec;
  bk_fees_paid : option dec; bk_close_reason : option string; bk_opened_at : Z; bk_closed_at : option Z; bk_status : trade_status;
}.
Record bt_db := mkBtDb { runs : gmap Z BacktestRunRow; bk_trades : list BacktestTradeRow; run_seq : Z }.
(** Migration 0012. *)
Definition backtest_runs_columns : list string :=
  ["id"; "name"; "bot_id"; "config_yaml"; "config_hash"; "date_range_start"; "date_range_end"; "status"; "started_at"; "finished_at"; "summary"; "notes"].

(** ** Statements *)
Definition insert_backtest_run (name bot_id config_yaml config_hash : string) (range_start range_end started_at : Z) (notes : option string) :
    ST bt_db (Z * BacktestRunRow) := fun d =>
  let r := mkRun name bot_id config_yaml config_hash range_start range_end QUEUED started_at None None notes in
  (Ok (run_seq d, r), mkBtDb (<[run_seq d := r]> (runs d)) (bk_trades d) (run_seq d + 1)).
Definition select_backtest_run_by_id (id : Z) (d : bt_db) : option BacktestRunRow := runs d !! id.
Definition to_running (started_at : Z) (r : BacktestRunRow) : BacktestRunRow :=
  mkRun (run_name r) (run_bot_id r) (run_config_yaml r) (run_config_hash r) (run_range_start r) (run_range_end r)
    RUNNING started_at (run_finished_at r) (run_result r) (run_notes r).
Definition to_completion (status : BacktestStatus) (summary : run_summary) (finished_at : Z) (r : BacktestRunRow) : BacktestRunRow :=
  mkRun (run_name r) (run_bot_id r) (run_config_yaml r) (run_config_hash r) (run_range_start r) (run_range_end r)
    status (run_started_at r) (Some finished_at) (Some summary) (run_notes r).
(** An UPDATE of a missing row changes nothing. *)
Definition update_run (id : Z) (f : BacktestRunRow → BacktestRunRow) : ST bt_db unit := modify (fun d => mkBtDb (alter f id (runs d)) (bk_trades d) (run_seq d)).
Definition update_backtest_run_to_running (id started_at : Z) : ST bt_db unit := update_run id (to_running started_at).
Definition update_backtest_run_completion (id : Z) (status : BacktestStatus) (summary : run_summary) (finished_at : Z) : ST bt_db unit :=
  update_run id (to_completion status summary finished_at).
(** The columns a claim names. *)
Definition claim_columns : list string :=
  ["status"; "started_at"; "id"; "created_at"; "name"; "bot_id"; "config_yaml"; "config_hash"; "date_range_start"; "date_range_end";
   "finished_at"; "summary"; "notes"].
(** UPDATE ... WHERE id IN (SELECT ... ORDER BY created_at LIMIT 1 FOR UPDATE
    SKIP LOCKED) RETURNING, for a table with the given columns; [created_at] is
    the value of that column where there is one. *)
Definition oldest_first (created_at : Z → Z) (a b : Z * BacktestRunRow) : Prop := created_at a.1 <= created_at b.1.
#[global] Instance oldest_first_dec created_at : RelDecision (oldest_first created_at).
Proof. intros a b. unfold oldest_first. apply _. Defined.
Definition is_queued (kv : Z * BacktestRunRow) : Prop := run_status kv.2 = QUEUED.
#[global] Instance is_queued_dec kv : Decision (is_queued kv).
Proof. unfold is_queued. apply _. Defined.
Definition claim_next_backtest_run (columns : list string) (created_at : Z → Z) (started_at : Z) : ST bt_db (option (Z * BacktestRunRow)) :=
  match filter (fun c => c ∉ columns) claim_columns with
  | c :: _ => throw (UndefinedColumn c)
  | [] => fun d =>
      match merge_sort (oldest_first created_at) (filter is_queued (map_to_list (runs d))) with
      | [] => (Ok None, d)
      | (id, r) :: _ => (Ok (Some (id, to_running started_at r)), mkBtDb (alter (to_running started_at) id (runs d)) (bk_trades d) (run_seq d))
      end
  end.
(** [paper_trades.signal_id] is copied as well, a column that insert_paper_trade
    does not set. *)
Definition copied (run_id : Z) (t : paper_trade) : BacktestTradeRow :=
  mkBtTrade run_id (pt_bot_id t) None (Some (pt_open_order_id t)) (pt_close_order_id t) (pt_symbol t) (pt_side t) (pt_entry_price t) (pt_exit_price t)
    (pt_qty t) (pt_notional_usd t) (pt_realized_pnl t) (pt_fees_paid t) (pt_close_reason t) (pt_opened_at t) (pt_closed_at t) (pt_status t).
Definition copyable (bot_id : string) (t : paper_trade) : bool := bool_decide (pt_bot_id t = bot_id) && bool_decide (pt_status t = st_closed).
Definition copy_paper_trades_to_backtest (run_id : Z) (bot_id : string) (p : PaperDb.db) : ST bt_db Z := fun d =>
  let rows := copied run_id <$> filter (fun t => copyable bot_id t = true) (snd <$> map_to_list (paper_trades p)) in
  (Ok (Z.of_nat (length rows)), mkBtDb (runs d) (bk_trades d ++ rows) (run_seq d)).

(** ** _compute_summary *)
(** [round(x, 4)]: the double nearest to the exact value rounded half to even at
    four decimals. *)
Definition bround4 (x : b64) : b64 :=
  fl (Z.sgn (bman x) * div_half_even (Z.abs (bman x) * 10000 * 2 ^ Z.max 0 (bexp x)) (2 ^ Z.max 0 (- bexp x))) 10000.
(** One step of the drawdown loop over (cum, peak, mdd). *)
Definition drawdown_step (acc : dec * dec * dec) (p : dec) : dec * dec * dec :=
  let '(cum0, peak0, mdd0) := acc in
  let cum := dadd cum0 p in
  let peak := if dltb peak0 cum then cum else peak0 in
  let drawdown := dsub peak cum in
  (cum, peak, if dltb mdd0 drawdown then drawdown else mdd0).
Definition summary_of (pnls : list dec) : res Summary :=
  match pnls with
  | [] => Ok (mkSummary 0 None dzero None dzero)
  | _ =>
      let total_trades := Z.of_nat (length pnls) in
      let wins := Z.of_nat (length (wins_of pnls)) in
      let gross_wins := dsum (wins_of pnls) in
      let gross_losses := dsum (losses_of pnls) in
      pf ← (if deqb gross_wins dzero || deqb gross_losses dzero then Ok None
            else q ← bdiv (float_of_dec gross_wins) (float_of_dec gross_losses); Ok (Some (bround4 q)));
      let '(_, _, mdd) := foldl drawdown_step (dzero, dzero, dzero) pnls in
      Ok (mkSummary total_trades (Some (bround4 (fl wins total_trades))) (dsum pnls) pf mdd)
  end.
Definition bk_closed_before (a b : BacktestTradeRow) : Prop :=
  match bk_closed_at a, bk_closed_at b with Some x, Some y => x <= y | None, Some _ => False | _, None => True end.
#[global] Instance bk_closed_before_dec : RelDecision bk_closed_before.
Proof. intros a b. unfold bk_closed_before. destruct (bk_closed_at a), (bk_closed_at b); apply _. Defined.
Definition of_run (run_id : Z) (t : BacktestTradeRow) : bool := (bk_run_id t =? run_id) && bool_decide (bk_status t = st_closed).
Definition decimal_of_pnl (t : BacktestTradeRow) : res dec :=
  match bk_realized_pnl t with Some p => Ok p | None => Err (TypeError "conversion from NoneType to Decimal is not supported") end.
Definition compute_summary (run_id : Z) : ST bt_db Summary := fun d =>
  ((pnls ← mapM decimal_of_pnl (merge_sort bk_closed_before (filter (fun t => of_run run_id t = true) (bk_trades d))); summary_of pnls), d).

(** ** --compare *)
Record DivergingTradeRow := mkDiverging {
  dv_signal_id : Z; dv_a_close_reason : option string; dv_a_realized_pnl : option dec; dv_b_close_reason : option string; dv_b_realized_pnl : option dec;
}.
(** The pairs of the join on signal_id; NULL joins nothing. *)
Definition common (run_a run_b : Z) (d : bt_db) : list (Z * BacktestTradeRow * BacktestTradeRow) :=
  a ← filter (fun t => bk_run_id t = run_a) (bk_trades d);
  b ← filter (fun t => bk_run_id t = run_b) (bk_trades d);
  match bk_signal_id a, bk_signal_id b with Some s, Some s' => if s =? s' then [(s, a, b)] else [] | _, _ => [] end.
Definition same_pnl (a b : option dec) : bool :=
  match a, b with Some x, Some y => deqb x y | None, None => true | _, _ => false end.
Definition diverges (p : Z * BacktestTradeRow * BacktestTradeRow) : bool :=
  let '(_, a, b) := p in
  negb (default "" (bk_close_reason a) =? default "" (bk_close_reason b))%string || negb (same_pnl (bk_realized_pnl a) (bk_realized_pnl b)).
Definition signal_before (a b : DivergingTradeRow) : Prop := dv_signal_id a <= dv_signal_id b.
#[global] Instance signal_before_dec : RelDecision signal_before.
Proof. intros a b. unfold signal_before. apply _. Defined.
Definition select_diverging_trades_for_compare (run_a run_b : Z) (d : bt_db) : list DivergingTradeRow :=
  merge_sort signal_before ((fun '(s, a, b) => mkDiverging s (bk_close_reason a) (bk_realized_pnl a) (bk_close_reason b) (bk_realized_pnl b)) <$>
    filter (fun p => diverges p = true) (common run_a run_b d)).
Definition count_common_signals_for_compare (run_a run_b : Z) (d : bt_db) : Z := Z.of_nat (length (common run_a run_b d)).
Definition select_backtest_run_summary (id : Z) (d : bt_db) : option run_summary := r ← runs d !! id; run_result r.
(** main_compare up to the tables it prints; the exit code. *)
Definition main_compare (run_a run_b : Z) (d : bt_db) : Z * option (run_summary * run_summary * list DivergingTradeRow * Z) :=
  match select_backtest_run_summary run_a d, select_backtest_run_summary run_b d with
  | Some a, Some b => (0, Some (a, b, select_diverging_trades_for_compare run_a run_b d, count_common_signals_for_compare run_a run_b d))
  | _, _ => (1, None)
  end.

(** ** main *)
Record BacktestArgs := mkArgs {
  ba_bot : string; ba_from_at : Z; ba_to_at : Z; ba_config : string; ba_overrides : list string; ba_name : option string; ba_notes : option string;
  ba_run_id : option Z;
}.
Record bworld := mkBWorld { bw_x : xworld pe_state; bw_bt : bt_db; bw_clock : Z; bw_faults : list bool }.
Abbreviation BW := (ST bworld).
Definition bt_now : BW Z := gets bw_clock.
(** A statement on the backtest tables: a failing connection leaves them. *)
Definition stmt {A} (m : ST bt_db A) : BW A := fun w =>
  match bw_faults w with
  | true :: fs => (Err (RuntimeError "connection"), mkBWorld (bw_x w) (bw_bt w) (bw_clock w) fs)
  | fs => let '(r, d) := m (bw_bt w) in (r, mkBWorld (bw_x w) d (bw_clock w) (tail fs))
  end.
Definition bt_transaction {A} (m : BW A) : BW A := fun w =>
  match m w with
  | (Ok a, w') => (Ok a, w')
  | (Err e, w') => (Err e, mkBWorld (bw_x w') (bw_bt w) (bw_clock w') (bw_faults w'))
  end.

Section run.
Context `{PgNumeric} (pg_div : dec → dec → dec) (config : pe_config) (accepts : xmessage → bool) (capacity : nat).
Context (load_config : BacktestArgs → res (string * string)) (show_time : Z → string) (show_exn : exn → string).
Context (replay : BacktestArgs → ST (xworld pe_state) (list ExecutionEvent)).

Definition on_x {A} (m : ST (xworld pe_state) A) : BW A := fun w =>
  let '(r, x) := m (bw_x w) in (r, mkBWorld x (bw_bt w) (bw_clock w) (bw_faults w)).
(** The replay with the dispatcher task beside it: the task is cancelled and
    awaited at the end, and what it raised before is raised again.  [replay] is
    any computation over the exchange that hands over the fills it queued; Feed.v
    models its gathered tasks. *)
Definition replay_phase (args : BacktestArgs) : BW unit :=
  events ← on_x (replay args);
  on_x (fun x => let '(r, (_, x')) := run_dispatcher_for_bot (paper_client pg_div config) (ba_bot args) (ba_bot args) 0 accepts capacity events ([], x) in (r, x')).
Definition finish (args : BacktestArgs) (run_id : Z) : BW unit := bt_transaction (
  tables ← gets (fun w => tables (x_exchange (bw_x w)));
  stmt (copy_paper_trades_to_backtest run_id (ba_bot args) tables) ;;
  summary ← stmt (compute_summary run_id);
  finished_at ← bt_now;
  stmt (update_backtest_run_completion run_id COMPLETED (metrics summary) finished_at)).
Definition new_run (args : BacktestArgs) (config_yaml config_hash : string) : BW Z :=
  started_at ← bt_now;
  let name := if (default "" (ba_name args) =? "")%string then "cli-" +:+ ba_bot args +:+ "-" +:+ show_time (ba_from_at args) +:+ "-" +:+ show_time (ba_to_at args)
              else default "" (ba_name args) in
  r ← stmt (insert_backtest_run name (ba_bot args) config_yaml config_hash (ba_from_at args) (ba_to_at args) started_at (ba_notes args));
  mret r.1.
(** From [run_id] on, an exception marks the run failed. *)
Definition supervised (args : BacktestArgs) (run_id : Z) (start : BW unit) : BW Z :=
  r ← attempt is_exception (start ;; replay_phase args ;; finish args run_id);
  match r with
  | Ok _ => mret 0
  | Err e =>
      finished_at ← bt_now;
      stmt (update_backtest_run_completion run_id FAILED (error_text (String.substring 0 500 (show_exn e))) finished_at) ;;
      mret 1
  end.
Definition main (args : BacktestArgs) : BW Z :=
  cfg ← lift_res (load_config args);
  match ba_run_id args with
  | Some run_id => supervised args run_id (mret tt)
  | None =>
      r ← attempt is_exception (new_run args cfg.1 cfg.2);
      match r with
      | Ok run_id => supervised args run_id (started_at ← bt_now; stmt (update_backtest_run_to_running run_id started_at))
      | Err _ => mret 1
      end
  end.

(** ** backtest_worker.py *)
Context (columns : list string) (created_at : Z → Z) (poll_interval : Z).
Definition dispatch_args (run_id : Z) (r : BacktestRunRow) : BacktestArgs :=
  mkArgs (run_bot_id r) (run_range_start r) (run_range_end r) (run_config_yaml r) [] None None (Some run_id).
Definition worker_turn : BW unit :=
  started_at ← bt_now;
  claimed ← stmt (claim_next_backtest_run columns created_at started_at);
  match claimed with
  | None => modify (fun w => mkBWorld (bw_x w) (bw_bt w) (bw_clock w + poll_interval) (bw_faults w))
  | Some (id, r) =>
      o ← attempt is_exception (main (dispatch_args id r));
      match o with
      | Ok _ => mret tt
      | Err e =>
          finished_at ← bt_now;
          stmt (update_backtest_run_completion id FAILED (error_text (String.substring 0 500 ("worker dispatch failed: " +:+ show_exn e))) finished_at)
      end
  end.
(** The loop, until it raises or for the given number of turns. *)
Fixpoint run_backtest_worker_loop (turns : nat) : BW unit :=
  match turns with O => mret tt | S n => worker_turn ;; run_backtest_worker_loop n end.
End run.
