(* ===== verification/BacktestFacts.v ===== *)
(** * What a backtest run records

    The drawdown of the summary against its definition, what every outcome of
    [main] leaves in the tables, and where the code falls short: the worker's
    claim names a column that does not exist, a fill ends the dispatcher of a
    paper backtest and fails the run, and the comparison finds no common signal. *)

From S2P Require Import Prelude Json Dec DecText Float64 PyNum Sizing PaperDb PaperExchange ExecDb Exchange PaperClient Dedup Dispatcher Placement Lifecycle Recovery Ledger LiveFacts Analytics AnalyticsFacts Backtest.
From stdpp Require Import sorting gmap list.
From Stdlib Require Import QArith Qabs Lqa.
Open Scope Z_scope.

(** ** The drawdown *)
(** A decimal that stands for [z] ten-thousandths; the zero the loop starts with
    has no places. *)
Definition amount (d : dec) (z : Z) : Prop := d = mkDec z (-4) ∨ d = dzero ∧ z = 0.
Lemma amount_value d z : amount d z → (dval d == inject_Z z * p10 (-4))%Q.
Proof. intros [->|[-> ->]]; [done|]. vm_compute. reflexivity. Qed.
Lemma amount_lt a b x y : amount a x → amount b y → dltb a b = true ↔ x < y.
Proof.
  intros Ha Hb. rewrite dltb_spec, (amount_value a x Ha), (amount_value b y Hb). rewrite !(Qmult_comm _ (p10 (-4))).
  rewrite (Qmult_lt_l _ _ _ (p10_pos (-4))), Zlt_Qlt. done.
Qed.
Lemma amount_at a x : amount a x → dexp a <> -4 → at_exp a (-4) = x ∧ dexp a = 0.
Proof. intros [->|[-> ->]]; done. Qed.
Lemma amount_cases a x : amount a x → at_exp a (-4) = x ∧ (dexp a = -4 ∨ dexp a = 0).
Proof. intros [->|[-> ->]]; [|by split; [|right]]. unfold at_exp. cbn. split; [lia|by left]. Qed.
Lemma amount_combine a b x y (f : Z → Z → Z) : amount a x → amount b y → f 0 0 = 0 → Z.abs (f x y) < 10 ^ prec →
  amount (let e := common_exp a b in fix_ (mkDec (f (at_exp a e) (at_exp b e)) e)) (f x y).
Proof.
  intros Ha Hb Hf Hs. destruct (amount_cases a x Ha) as [Hax Hae]. destruct (amount_cases b y Hb) as [Hbx Hbe]. cbn zeta.
  assert (common_exp a b = -4 ∨ a = dzero ∧ b = dzero ∧ x = 0 ∧ y = 0) as [->|(-> & -> & -> & ->)].
  { unfold common_exp. destruct Ha as [->|[-> ->]], Hb as [->|[-> ->]]; cbn; auto. }
  - rewrite Hax, Hbx, fix_small by exact Hs. by left.
  - right. split; [|exact Hf]. change (fix_ (mkDec (f 0 0) 0) = dzero). by rewrite Hf.
Qed.
Lemma amount_add a b x y : amount a x → amount b y → Z.abs (x + y) < 10 ^ prec → amount (dadd a b) (x + y).
Proof. intros. by apply (amount_combine a b x y Z.add). Qed.
Lemma amount_sub a b x y : amount a x → amount b y → Z.abs (x - y) < 10 ^ prec → amount (dsub a b) (x - y).
Proof. intros. by apply (amount_combine a b x y Z.sub). Qed.

(** The running total after [i] trades, in ten-thousandths. *)
Definition total_after (pnls : list dec) (i : nat) : Z := zsum (coef <$> take i pnls).
(** [m] is the largest fall of the running total from an earlier value, the
    initial zero included. *)
Definition max_drawdown (pnls : list dec) (m : Z) : Prop :=
  (∀ i j, (i <= j <= length pnls)%nat → total_after pnls i - total_after pnls j <= m) ∧
  ∃ i j, (i <= j <= length pnls)%nat ∧ total_after pnls i - total_after pnls j = m.
Lemma total_after_snoc pnls p i : (i <= length pnls)%nat → total_after (pnls ++ [p]) i = total_after pnls i.
Proof. intros Hi. unfold total_after. by rewrite take_app_le. Qed.
Lemma total_after_all pnls p : total_after (pnls ++ [p]) (S (length pnls)) = total_after pnls (length pnls) + coef p.
Proof.
  unfold total_after. rewrite take_ge by (rewrite length_app; cbn; lia). rewrite (take_ge pnls) by lia.
  rewrite fmap_app, zsum_app. unfold zsum. cbn. lia.
Qed.
(** Every fall is a sum of consecutive trades, so it fits. *)
Lemma fall_bound pnls i j : (i <= j <= length pnls)%nat → Z.abs (total_after pnls i - total_after pnls j) <= zsum ((fun d => Z.abs (coef d)) <$> pnls).
Proof.
  intros Hij. set (mid := drop i (take j pnls)).
  assert (take j pnls = take i pnls ++ mid) as Hj by (rewrite <- (take_drop i (take j pnls)) at 1; by rewrite take_take, Nat.min_l by lia).
  assert (pnls = take i pnls ++ mid ++ drop j pnls) as Hp by (rewrite app_assoc, <- Hj; by rewrite take_drop).
  unfold total_after. rewrite Hj. assert (∀ l : list dec, 0 <= zsum ((fun d => Z.abs (coef d)) <$> l)) as Hpos.
  { intros l. apply zsum_nonneg. rewrite Forall_fmap. apply Forall_forall. intros d _. cbn. lia. }
  replace (zsum ((fun d => Z.abs (coef d)) <$> pnls)) with (zsum ((fun d => Z.abs (coef d)) <$> (take i pnls ++ mid ++ drop j pnls))) by (by rewrite <- Hp).
  rewrite !fmap_app, !zsum_app. pose proof (zsum_abs coef mid). pose proof (Hpos (take i pnls)). pose proof (Hpos (drop j pnls)). lia.
Qed.
Lemma drawdown_loop pnls : money pnls → ∃ cum peak mdd k m, foldl drawdown_step (dzero, dzero, dzero) pnls = (cum, peak, mdd) ∧
  amount cum (total_after pnls (length pnls)) ∧ amount peak k ∧ amount mdd m ∧
  (∀ i, (i <= length pnls)%nat → total_after pnls i <= k) ∧ (∃ i, (i <= length pnls)%nat ∧ total_after pnls i = k) ∧ max_drawdown pnls m.
Proof.
  induction pnls as [|p pnls IH] using rev_ind; intros Hm.
  { exists dzero, dzero, dzero, 0, 0. split_and!; try (by right); [done| | |split].
    - intros i _. by rewrite (eq_refl : total_after [] i = zsum (coef <$> take i [])), take_nil.
    - by exists 0%nat.
    - intros i j _. unfold total_after. rewrite !take_nil. done.
    - by exists 0%nat, 0%nat. }
  destruct (money_app _ _ Hm) as [Hl Hp]. destruct (IH Hl) as (cum & peak & mdd & k & m & E & Hc & Hk & Hd & Hmax & (i0 & Hi0 & Hik) & Hall & (i1 & j1 & Hij1 & Hm1)).
  rewrite foldl_app, E. cbn [foldl drawdown_step]. destruct Hp as [Hp _]. apply Forall_cons in Hp as [Hpe _].
  assert (amount p (coef p)) as Hpa by (left; destruct p as [c e]; cbn in Hpe; by subst e).
  set (c' := total_after pnls (length pnls) + coef p). assert (total_after (pnls ++ [p]) (S (length pnls)) = c') as Hc' by apply total_after_all.
  assert (∀ i j, (i <= j <= S (length pnls))%nat → Z.abs (total_after (pnls ++ [p]) i - total_after (pnls ++ [p]) j) < 10 ^ prec) as Hfit.
  { intros i j Hij. eapply Z.le_lt_trans; [apply fall_bound; rewrite length_app; cbn; lia|]. apply Hm. }
  assert (total_after (pnls ++ [p]) 0 = 0) as H0 by done.
  assert (amount (dadd cum p) c') as Hcum.
  { apply amount_add; [done|done|]. fold c'. rewrite <- Hc'. specialize (Hfit 0%nat (S (length pnls)) ltac:(lia)). rewrite H0 in Hfit. lia. }
  set (peak' := if dltb peak (dadd cum p) then dadd cum p else peak). set (k' := Z.max k c').
  assert (amount peak' k') as Hpeak.
  { unfold peak', k'. pose proof (amount_lt _ _ _ _ Hk Hcum) as Hlt. destruct (dltb peak (dadd cum p)).
    - rewrite Z.max_r; [done|]. apply Z.lt_le_incl. by apply Hlt.
    - rewrite Z.max_l; [done|]. apply Z.nlt_ge. intros ?%Hlt. done. }
  assert (∃ i, (i <= S (length pnls))%nat ∧ total_after (pnls ++ [p]) i = k') as (i' & Hi' & Hik').
  { unfold k'. destruct (Z.max_spec k c') as [[_ ->]|[_ ->]]; [by exists (S (length pnls))|]. exists i0. rewrite total_after_snoc by lia. split; [lia|done]. }
  assert (amount (dsub peak' (dadd cum p)) (k' - c')) as Hdd.
  { apply amount_sub; [done|done|]. rewrite <- Hik', <- Hc'. apply Hfit. lia. }
  set (mdd' := if dltb mdd (dsub peak' (dadd cum p)) then dsub peak' (dadd cum p) else mdd). set (m' := Z.max m (k' - c')).
  assert (amount mdd' m') as Hmdd.
  { unfold mdd', m'. pose proof (amount_lt _ _ _ _ Hd Hdd) as Hlt. destruct (dltb mdd _).
    - rewrite Z.max_r; [done|]. apply Z.lt_le_incl. by apply Hlt.
    - rewrite Z.max_l; [done|]. apply Z.nlt_ge. intros ?%Hlt. done. }
  exists (dadd cum p), peak', mdd', k', m'. rewrite length_app, Nat.add_comm. cbn [length Nat.add]. rewrite Hc'.
  assert (∀ i, (i <= S (length pnls))%nat → total_after (pnls ++ [p]) i <= k') as Hmax'.
  { intros i Hi. unfold k'. destruct (decide (i = S (length pnls))) as [->|]; [rewrite Hc'; lia|]. rewrite total_after_snoc by lia. specialize (Hmax i ltac:(lia)). lia. }
  split_and!; try done; [by exists i'|split].
  - intros i j Hij. rewrite length_app in Hij. cbn in Hij. destruct (decide (j = S (length pnls))) as [->|].
    + rewrite Hc'. specialize (Hmax' i ltac:(lia)). unfold m'. lia.
    + rewrite !total_after_snoc by lia. specialize (Hall i j ltac:(lia)). unfold m'. lia.
  - rewrite length_app. cbn. unfold m'. destruct (Z.max_spec m (k' - c')) as [[_ ->]|[_ ->]].
    + exists i', (S (length pnls)). rewrite Hik', Hc'. split; [lia|done].
    + exists i1, j1. rewrite !total_after_snoc by lia. split; [lia|done].
Qed.

Lemma filter_empty_iff {A} (R : A → Prop) `{∀ x, Decision (R x)} l : filter R l = [] ↔ Forall (fun x => ¬ R x) l.
Proof.
  split; [|intros Hl; apply filter_none; intros x Hx; rewrite Forall_forall in Hl; by apply Hl].
  intros He. apply Forall_forall. intros x Hx HR. assert (x ∈ filter R l) as Hin by (by apply list_elem_of_filter). rewrite He in Hin. by apply elem_of_nil in Hin.
Qed.
Lemma gross_zero l : money l → Forall (fun d => 0 < coef d) l → deqb (dsum l) dzero = true ↔ l = [].
Proof.
  intros Hm Hp. destruct l as [|x l]; [done|]. rewrite deqb_spec, dsum_money, dval_zero by done. split; [|done]. intros Hz. exfalso.
  assert (0 < zsum (coef <$> x :: l)) as Hpos.
  { apply Forall_cons in Hp as [Hx Hl]. pose proof (zsum_nonneg (coef <$> l)) as H0. rewrite Forall_fmap in H0.
    specialize (H0 ltac:(eapply Forall_impl; [exact Hl|]; cbn; lia)). unfold zsum in *. cbn. lia. }
  assert (0 < dval (mkDec (zsum (coef <$> x :: l)) (-4)))%Q as Hv by (by apply dval_sign). rewrite Hz in Hv. by apply Qlt_irrefl in Hv.
Qed.
Lemma signed_lists l : money l → Forall (fun d => 0 < coef d) (wins_of l) ∧ Forall (fun d => 0 < coef d) (losses_of l).
Proof.
  intros [He Hs]. split; apply Forall_forall; intros d Hd.
  - apply list_elem_of_filter in Hd as [Hd _]. by apply sign_tests.
  - apply list_elem_of_fmap in Hd as (p & -> & [Hp Hin]%list_elem_of_filter). apply sign_tests in Hp.
    unfold dneg. rewrite fix_small; cbn [coef]; [lia|]. apply list_elem_of_split in Hin as (l1 & l2 & ->). rewrite fmap_app, fmap_cons, zsum_app in Hs.
    pose proof (zsum_nonneg ((fun d => Z.abs (coef d)) <$> l1)) as H1. pose proof (zsum_nonneg ((fun d => Z.abs (coef d)) <$> l2)) as H2.
    rewrite Forall_fmap in H1, H2. specialize (H1 ltac:(apply Forall_forall; intros; cbn; lia)). specialize (H2 ltac:(apply Forall_forall; intros; cbn; lia)).
    unfold zsum in *. cbn in Hs. lia.
Qed.
Lemma float_nonzero d : (¬ dval d == 0)%Q → bman (float_of_dec d) ≠ 0.
Proof.
  intros Hd H0. pose proof (float_of_dec_rel d) as Hr. assert (bval (float_of_dec d) == 0)%Q as Hz by (unfold bval; rewrite H0; ring). rewrite Hz in Hr.
  assert (Qabs (0 - dval d) == Qabs (dval d))%Q as Ha by (rewrite <- Qabs_opp; apply Qabs_wd; ring). rewrite Ha in Hr.
  destruct roundings_small as (_ & _ & Hu & _). assert (0 < Qabs (dval d))%Q as Hp.
  { destruct (Qlt_le_dec 0 (Qabs (dval d))) as [?|Hle]; [done|]. destruct Hd. apply Qabs_Qle_condition in Hle as [H1 H2]. apply Qle_antisym; lra. }
  assert (roundoff * Qabs (dval d) <= (1 # 8) * Qabs (dval d))%Q by (apply Qmult_le_compat_r; lra). lra.
Qed.

(** C38: the summary of a backtest is exact: for money amounts that fit in 28
    digits it is always computed, its PnL is the exact sum, its drawdown is the
    largest fall of the running total from any earlier value (the initial zero
    included), and the profit factor is missing exactly when there is no winning
    or no losing trade. *)
Theorem summary_is_exact pnls : money pnls → ∃ s m, summary_of pnls = Ok s ∧ sm_total_trades s = Z.of_nat (length pnls) ∧
  (dval (sm_pnl s) == inject_Z (zsum (coef <$> pnls)) * p10 (-4))%Q ∧ max_drawdown pnls m ∧ (dval (sm_mdd s) == inject_Z m * p10 (-4))%Q ∧
  (sm_pf s = None ↔ Forall (fun d => coef d <= 0) pnls ∨ Forall (fun d => 0 <= coef d) pnls) ∧ (sm_wr s = None ↔ pnls = []).
Proof.
  intros Hm. destruct (drawdown_loop pnls Hm) as (cum & peak & mdd & k & m & E & _ & _ & Hd & _ & _ & Hmax).
  destruct (wins_losses pnls Hm) as (Hmw & Hml & _). destruct (signed_lists pnls Hm) as [Hw Hl].
  assert (wins_of pnls = [] ↔ Forall (fun d => coef d <= 0) pnls) as Hw0.
  { unfold wins_of. rewrite filter_empty_iff. apply Forall_iff. intros d. rewrite (proj1 (sign_tests d)). lia. }
  assert (losses_of pnls = [] ↔ Forall (fun d => 0 <= coef d) pnls) as Hl0.
  { unfold losses_of. split.
    - intros H0%fmap_nil_inv%filter_empty_iff. eapply Forall_impl; [exact H0|]. intros d. cbn. rewrite (proj2 (sign_tests d)). lia.
    - intros H0. assert (filter (fun p => dltb p dzero = true) pnls = []) as ->; [|done]. apply filter_empty_iff. eapply Forall_impl; [exact H0|].
      intros d. cbn. rewrite (proj2 (sign_tests d)). lia. }
  destruct pnls as [|p ps] eqn:Hp.
  { exists (mkSummary 0 None dzero None dzero), 0. split_and!; try done; [split; [intros i j _; unfold total_after; by rewrite !take_nil|by exists 0%nat, 0%nat]|].
    split; [|done]. intros _. left. constructor. }
  rewrite <- Hp in *. assert (pnls ≠ []) as Hne by (by rewrite Hp). unfold summary_of. rewrite Hp. rewrite <- Hp, E.
  destruct (gross_zero _ Hmw Hw) as [G1 G2]. destruct (gross_zero _ Hml Hl) as [G3 G4].
  destruct (deqb (dsum (wins_of pnls)) dzero || deqb (dsum (losses_of pnls)) dzero) eqn:Hz; cbn [mbind res_bind].
  - eexists _, m. split; [reflexivity|]. cbn [sm_total_trades sm_pnl sm_mdd sm_pf sm_wr]. split_and!; try done.
    + by rewrite dsum_money.
    + by apply amount_value.
    + split; [|done]. intros _. apply orb_prop in Hz as [Hz|Hz]; [left; by apply Hw0, G1|right; by apply Hl0, G3].
  - apply orb_false_elim in Hz as [Hz1 Hz2]. assert (bman (float_of_dec (dsum (losses_of pnls))) ≠ 0) as Hb.
    { apply float_nonzero. rewrite <- dval_zero, <- deqb_spec, Hz2. done. }
    unfold bdiv. rewrite (proj2 (Z.eqb_neq _ _) Hb). cbn [mbind res_bind]. eexists _, m. split; [reflexivity|]. cbn [sm_total_trades sm_pnl sm_mdd sm_pf sm_wr]. split_and!; try done.
    + by rewrite dsum_money.
    + by apply amount_value.
    + split; [done|]. intros [H0%Hw0|H0%Hl0]; [rewrite G2 in Hz1 by done|rewrite G4 in Hz2 by done]; done.
Qed.
Lemma summary_is_exact_witness : ∃ s m, summary_of [mkDec 30000 (-4); mkDec (-50000) (-4); mkDec 10000 (-4)] = Ok s ∧
  max_drawdown [mkDec 30000 (-4); mkDec (-50000) (-4); mkDec 10000 (-4)] m ∧ (dval (sm_mdd s) == inject_Z m * p10 (-4))%Q ∧ sm_pf s ≠ None.
Proof.
  destruct (summary_is_exact [mkDec 30000 (-4); mkDec (-50000) (-4); mkDec 10000 (-4)]) as (s & m & Hs & _ & _ & Hm & Hd & Hpf & _); [split; [repeat constructor|reflexivity]|].
  exists s, m. split; [exact Hs|]. split; [exact Hm|]. split; [exact Hd|]. rewrite Hpf. intros [H|H]; repeat (apply Forall_cons in H as [? H]; cbn in *); lia.
Defined.

(** ** The outcome of a run *)
Lemma stmt_run {A} (m : ST bt_db A) w r w' : stmt m w = (r, w') →
  bw_x w' = bw_x w ∧ bw_clock w' = bw_clock w ∧ ((∃ e, r = Err e) ∧ bw_bt w' = bw_bt w ∨ m (bw_bt w) = (r, bw_bt w')).
Proof.
  unfold stmt. destruct (bw_faults w) as [|[] fs]; [destruct (m (bw_bt w)) as [r0 d] eqn:E| |destruct (m (bw_bt w)) as [r0 d] eqn:E];
    intros [= <- <-]; split_and!; try done; [by right| |by right]. left. split; [by eexists|done].
Qed.
(** The rows of a run in the transaction that ends it. *)
Definition paper_closed (bot_id : string) (w : bworld) : list paper_trade :=
  filter (fun t => copyable bot_id t = true) (snd <$> map_to_list (paper_trades (tables (x_exchange (bw_x w))))).
Lemma compute_summary_trades id d d' : bk_trades d = bk_trades d' → (compute_summary id d).1 = (compute_summary id d').1.
Proof. intros Hd. unfold compute_summary. cbn. by rewrite Hd. Qed.
Lemma finish_run args id w r w' : finish args id w = (r, w') → bw_x w' = bw_x w ∧
  match r with
  | Ok _ => ∃ s, bk_trades (bw_bt w') = bk_trades (bw_bt w) ++ (copied id <$> paper_closed (ba_bot args) w) ∧ (compute_summary id (bw_bt w')).1 = Ok s ∧
      runs (bw_bt w') = alter (to_completion COMPLETED (metrics s) (bw_clock w)) id (runs (bw_bt w)) ∧ run_seq (bw_bt w') = run_seq (bw_bt w)
  | Err _ => bw_bt w' = bw_bt w
  end.
Proof.
  unfold finish, bt_transaction. set (body := mbind _ _). destruct (body w) as [r0 w0] eqn:E. intros H0.
  assert (bw_x w0 = bw_x w ∧ match r0 with
    | Ok _ => ∃ s, bk_trades (bw_bt w0) = bk_trades (bw_bt w) ++ (copied id <$> paper_closed (ba_bot args) w) ∧ (compute_summary id (bw_bt w0)).1 = Ok s ∧
      runs (bw_bt w0) = alter (to_completion COMPLETED (metrics s) (bw_clock w)) id (runs (bw_bt w)) ∧ run_seq (bw_bt w0) = run_seq (bw_bt w)
    | Err _ => True end) as [Hx Hr]; [|destruct r0; injection H0 as <- <-; by split].
  clear H0. unfold body in E. rewrite (st_bind_run (gets _) _ w (tables (x_exchange (bw_x w))) w eq_refl) in E.
  apply st_bind_cases in E as [(n & w1 & E1 & E)|(e & E1 & ->)]; [|apply stmt_run in E1 as (-> & _); by split].
  apply stmt_run in E1 as (Hx1 & Hc1 & [[[? ?] _]|E1]); [done|]. unfold copy_paper_trades_to_backtest in E1. injection E1 as <- E1.
  apply st_bind_cases in E as [(s & w2 & E2 & E)|(e & E2 & ->)]; [|apply stmt_run in E2 as (-> & _); by split].
  apply stmt_run in E2 as (Hx2 & Hc2 & [[[? ?] _]|E2]); [done|].
  assert (bw_bt w2 = bw_bt w1 ∧ (compute_summary id (bw_bt w1)).1 = Ok s) as [Hb2 Hs] by (unfold compute_summary in E2 |- *; injection E2 as <- ->; done).
  rewrite (st_bind_run bt_now _ w2 (bw_clock w2) w2 eq_refl) in E. apply stmt_run in E as (Hx3 & _ & HE). split; [congruence|].
  destruct r0 as [u|]; [|done]. destruct HE as [[[? ?] _]|HE]; [done|]. unfold update_backtest_run_completion, update_run, modify in HE. injection HE as _ HE.
  assert (bw_bt w0 = mkBtDb (alter (to_completion COMPLETED (metrics s) (bw_clock w)) id (runs (bw_bt w))) (bk_trades (bw_bt w) ++ (copied id <$> paper_closed (ba_bot args) w)) (run_seq (bw_bt w))) as ->.
  { rewrite <- HE, Hb2, <- E1, Hc2, Hc1. done. }
  exists s. split_and!; try done. rewrite <- Hs. apply compute_summary_trades. rewrite <- E1. done.
Qed.

Section outcome.
Context `{PgNumeric} (pg_div : dec → dec → dec) (config : pe_config) (accepts : xmessage → bool) (capacity : nat).
Context (load_config : BacktestArgs → res (string * string)) (show_time : Z → string) (show_exn : exn → string).
Context (replay : BacktestArgs → ST (xworld pe_state) (list ExecutionEvent)).
Abbreviation phase := (replay_phase pg_div config accepts capacity replay).
Abbreviation guarded := (supervised pg_div config accepts capacity show_exn replay).
Abbreviation backtest_main := (main pg_div config accepts capacity load_config show_time show_exn replay).

Lemma replay_phase_bt args w r w' : phase args w = (r, w') → bw_bt w' = bw_bt w ∧ bw_clock w' = bw_clock w.
Proof.
  unfold replay_phase, on_x, mbind, st_bind. destruct (replay args (bw_x w)) as [[evs|e] x]; [|by intros [= <- <-]]. cbn.
  destruct (run_dispatcher_for_bot _ _ _ _ _ _ _ _) as [r1 [? x1]]. by intros [= <- <-].
Qed.
(** What a supervised run leaves behind, from the tables [d0] before it started. *)
Definition recorded (args : BacktestArgs) (id : Z) (d0 : bt_db) (r : res Z) (w' : bworld) : Prop :=
  (∀ j, j ≠ id → runs (bw_bt w') !! j = runs d0 !! j) ∧
  match r with
  | Ok code =>
      code = 0 ∧ (∃ row s, runs (bw_bt w') !! id = Some row ∧ run_status row = COMPLETED ∧ run_result row = Some (metrics s) ∧ is_Some (run_finished_at row) ∧
        bk_trades (bw_bt w') = bk_trades d0 ++ (copied id <$> paper_closed (ba_bot args) w') ∧ (compute_summary id (bw_bt w')).1 = Ok s) ∨
      code = 1 ∧ bk_trades (bw_bt w') = bk_trades d0 ∧
        ∃ row text, runs (bw_bt w') !! id = Some row ∧ run_status row = FAILED ∧ run_result row = Some (error_text text) ∧ is_Some (run_finished_at row)
  | Err _ => bk_trades (bw_bt w') = bk_trades d0
  end.
Definition starts (id : Z) (start : BW unit) : Prop := ∀ w r w', start w = (r, w') → bw_x w' = bw_x w ∧ bk_trades (bw_bt w') = bk_trades (bw_bt w) ∧
  (∀ j, j ≠ id → runs (bw_bt w') !! j = runs (bw_bt w) !! j) ∧ (is_Some (runs (bw_bt w) !! id) → is_Some (runs (bw_bt w') !! id)).
Lemma body_run args id start w r w' : starts id start → is_Some (runs (bw_bt w) !! id) →
  (start ;; phase args ;; finish args id) w = (r, w') →
  match r with
  | Ok _ => recorded args id (bw_bt w) (Ok 0) w'
  | Err _ => (∀ j, j ≠ id → runs (bw_bt w') !! j = runs (bw_bt w) !! j) ∧ bk_trades (bw_bt w') = bk_trades (bw_bt w) ∧ is_Some (runs (bw_bt w') !! id)
  end.
Proof.
  intros Hstart Hid E. apply st_bind_cases in E as [(u & w2 & E2 & E)|(e & E2 & ->)]; [|apply Hstart in E2 as (_ & ? & ? & Hs); by auto].
  apply Hstart in E2 as (Hx2 & Ht2 & Hr2 & Hs2). specialize (Hs2 Hid).
  apply st_bind_cases in E as [(u' & w3 & E3 & E)|(e & E3 & ->)]; [|apply replay_phase_bt in E3 as [Hb3 _]; by rewrite Hb3].
  apply replay_phase_bt in E3 as [Hb3 Hc3]. apply finish_run in E as [Hx4 Hfin]. destruct r as [u4|e4]; [|by rewrite Hfin, Hb3].
  destruct Hfin as (s & Ht4 & Hsum & Hruns & _). rewrite Hb3 in Ht4, Hruns. split; [intros j Hj; rewrite Hruns, lookup_alter_ne by done; by apply Hr2|].
  left. split; [done|]. destruct Hs2 as [row Hrow]. eexists _, s. rewrite Hruns, lookup_alter_eq, Hrow. split_and!; try done.
  rewrite Ht4, Ht2. unfold paper_closed. by rewrite Hx4.
Qed.
Lemma supervised_run args id start w r w' : starts id start → is_Some (runs (bw_bt w) !! id) → guarded args id start w = (r, w') → recorded args id (bw_bt w) r w'.
Proof.
  intros Hstart Hid E. unfold supervised in E. apply st_bind_cases in E as [(o & w1 & E1 & E)|(e & E1 & ->)]; apply attempt_inv in E1 as (x & Hx & Ho);
    pose proof (body_run _ _ _ _ _ _ Hstart Hid Hx) as Hb; destruct x as [u|e0].
  - injection Ho as ->. injection E as <- <-. done.
  - destruct (is_exception e0); [|done]. injection Ho as ->. destruct Hb as (Hr0 & Ht0 & [row Hrow]).
    rewrite (st_bind_run bt_now _ w1 (bw_clock w1) w1 eq_refl) in E. apply st_bind_cases in E as [(u & w2 & E2 & E)|(e2 & E2 & ->)].
    + apply stmt_run in E2 as (_ & _ & [[[? ?] _]|E2]); [done|]. injection E as <- <-. unfold update_backtest_run_completion, update_run, modify in E2. injection E2 as _ E2.
      split; [intros j Hj; rewrite <- E2; cbn; rewrite lookup_alter_ne by done; by apply Hr0|].
      right. rewrite <- E2. cbn. split_and!; try done. eexists _, _. rewrite lookup_alter_eq, Hrow. by split_and!.
    + apply stmt_run in E2 as (_ & _ & [[_ Hb]|E2]); [unfold recorded; rewrite Hb; by split|]. by unfold update_backtest_run_completion, update_run, modify in E2.
  - done.
  - destruct (is_exception e0); [done|]. destruct Hb as (Hr0 & Ht0 & _). by split.
Qed.

(** C37: a backtest accounts for its run: whatever the replay does and whichever
    statement fails, [main] touches no other run; exit code 0 means its run is
    completed with a finish time, the closed paper trades of the bot were copied
    to it and the stored summary is the one of the run's trades; exit code 1
    means nothing was copied and the run, if there is one, is failed with the
    error; nothing is copied when [main] raises. *)
Theorem backtest_accounts_for_run args w r w' : (∀ id, ba_run_id args = Some id → is_Some (runs (bw_bt w) !! id)) →
  backtest_main args w = (r, w') →
  let id := default (run_seq (bw_bt w)) (ba_run_id args) in
  recorded args id (bw_bt w) r w' ∨ r = Ok 1 ∧ ba_run_id args = None ∧ bw_bt w' = bw_bt w.
Proof.
  intros Hid E id. unfold main in E. destruct (load_config args) as [cfg|e]; [|injection E as <- <-; by left; split].
  rewrite (st_bind_run (lift_res (Ok cfg)) _ w cfg w eq_refl) in E. destruct (ba_run_id args) as [i|].
  - left. apply supervised_run in E; [done| |by apply Hid]. intros w0 r0 w1 [= <- <-]. by split_and!.
  - apply st_bind_cases in E as [(o & w1 & E1 & E)|(e & E1 & ->)]; apply attempt_inv in E1 as (x & Hx & Ho).
    all: unfold new_run in Hx; rewrite (st_bind_run bt_now _ w (bw_clock w) w eq_refl) in Hx; apply st_bind_cases in Hx as [(q & w2 & E2 & Hx)|(e2 & E2 & ->)].
    + injection Hx as <- <-. injection Ho as ->. apply stmt_run in E2 as (_ & _ & [[[? ?] _]|E2]); [done|]. unfold insert_backtest_run in E2. injection E2 as <- E2.
      left. apply supervised_run in E; [|clear; intros w0 r0 w1 E0|rewrite <- E2; cbn; by rewrite lookup_insert_eq].
      * unfold recorded in *. rewrite <- E2 in E. cbn in E. destruct E as [Hr E]. split; [|done]. intros j Hj. rewrite Hr by done. by rewrite lookup_insert_ne by done.
      * rewrite (st_bind_run bt_now _ w0 (bw_clock w0) w0 eq_refl) in E0. apply stmt_run in E0 as (Hx & _ & [[_ Hb]|E0]); [by rewrite Hb|].
        unfold update_backtest_run_to_running, update_run, modify in E0. injection E0 as _ E0. rewrite <- E0. cbn. split_and!; try done.
        -- intros j Hj. by rewrite lookup_alter_ne.
        -- intros [row Hrow]. rewrite lookup_alter_eq, Hrow. by eexists.
    + destruct (is_exception e2); [|done]. injection Ho as ->. injection E as <- <-. right. apply stmt_run in E2 as (_ & _ & [[_ Hb]|E2]); [done|].
      by unfold insert_backtest_run in E2.
    + by injection Hx as <- <-.
    + left. apply stmt_run in E2 as (_ & _ & [[_ Hb]|E2]); [|by unfold insert_backtest_run in E2]. split; by rewrite Hb.
Qed.

(** ** The worker *)
Context (created_at : Z → Z) (poll_interval : Z).
Abbreviation worker_loop columns := (run_backtest_worker_loop pg_div config accepts capacity load_config show_time show_exn replay columns created_at poll_interval).

(** The worker claims no run: its statement orders by and returns
    created_at, a column the migrations do not create, so every turn raises, the
    loop ends with its first turn and the queued runs stay as they are. *)
Lemma worker_claims_nothing turns w :
  ∃ e w', worker_loop backtest_runs_columns (S turns) w = (Err e, w') ∧ bw_bt w' = bw_bt w ∧ (head (bw_faults w) ≠ Some true → e = UndefinedColumn "created_at").
Proof.
  cbn [run_backtest_worker_loop]. unfold worker_turn. unfold mbind, st_bind. cbn [bt_now gets]. unfold gets, stmt.
  assert (claim_next_backtest_run backtest_runs_columns created_at (bw_clock w) = throw (UndefinedColumn "created_at")) as -> by reflexivity.
  destruct (bw_faults w) as [|[] fs]; eexists _, _; (split; [reflexivity|]); split; try done.
Qed.
(** With the column, a claim takes the oldest queued run, marks it running and
    leaves the others. *)
Lemma claim_takes_oldest columns started_at d : Forall (fun c => c ∈ columns) claim_columns →
  match claim_next_backtest_run columns created_at started_at d with
  | (Ok None, d') => d' = d ∧ ∀ id row, runs d !! id = Some row → run_status row ≠ QUEUED
  | (Ok (Some (id, row)), d') => run_status row = RUNNING ∧ runs d' !! id = Some row ∧ (∀ j, j ≠ id → runs d' !! j = runs d !! j) ∧ bk_trades d' = bk_trades d ∧
      (∃ row0, runs d !! id = Some row0 ∧ run_status row0 = QUEUED) ∧ ∀ j row1, runs d !! j = Some row1 → run_status row1 = QUEUED → created_at id <= created_at j
  | (Err _, _) => False
  end.
Proof.
  intros Hcols. unfold claim_next_backtest_run. rewrite filter_none by (intros c Hc Hn; rewrite Forall_forall in Hcols; by apply Hn, Hcols).
  set (l := merge_sort _ _). assert (∀ kv, kv ∈ l ↔ runs d !! kv.1 = Some kv.2 ∧ run_status kv.2 = QUEUED) as Hl.
  { intros kv. unfold l. rewrite merge_sort_Permutation, list_elem_of_filter. destruct kv as [k v]. rewrite elem_of_map_to_list. unfold is_queued. cbn. tauto. }
  assert (StronglySorted (oldest_first created_at) l) as Hs.
  { apply StronglySorted_merge_sort; [intros a b c; unfold oldest_first; lia|intros a b; unfold oldest_first; lia]. }
  destruct l as [|[id row] l].
  - split; [done|]. intros id row Hr Hq. assert ((id, row) ∈ ([] : list (Z * BacktestRunRow))) as Hin by (by apply Hl). by apply elem_of_nil in Hin.
  - destruct (proj1 (Hl (id, row)) ltac:(by left)) as [Hr Hq]. cbn in Hr, Hq. cbn [runs bk_trades]. split_and!; try done.
    + by rewrite lookup_alter_eq, Hr.
    + intros j Hj. by rewrite lookup_alter_ne.
    + by exists row.
    + intros j row1 Hj Hq1. assert ((j, row1) ∈ (id, row) :: l) as Hin by (by apply Hl). apply elem_of_cons in Hin as [[= -> ->]|Hin]; [lia|].
      apply StronglySorted_inv in Hs as [_ Hs]. rewrite Forall_forall in Hs. by apply (Hs (j, row1)).
Qed.

(** ** Fills in a paper backtest *)
(** A fill the dispatcher cannot attribute fails the backtest: when the replay
    hands over a fill that has no order and no position in the live tables, the
    task beside the replay raises, the replay raises it again at the end, the
    run is marked failed and none of its trades is copied. *)
Lemma paper_fill_fails_backtest args id w x cfg ev evs : load_config args = Ok cfg → ba_run_id args = Some id → is_Some (runs (bw_bt w) !! id) →
  replay args (bw_x w) = (Ok (ev :: evs), x) → ledger (x_live x) → not_an_opening (ba_bot args) ev (x_live x) → (0 < capacity)%nat →
  Forall (eq false) (bw_faults w) →
  ∃ w' row text, main pg_div config accepts capacity load_config show_time show_exn replay args w = (Ok 1, w') ∧ runs (bw_bt w') !! id = Some row ∧ run_status row = FAILED ∧ run_result row = Some (error_text text) ∧
    bk_trades (bw_bt w') = bk_trades (bw_bt w).
Proof.
  intros Hcfg Hid [row0 Hrow] Hrep Hled Hno Hcap Hf.
  destruct (unattributed_fill_ends_dispatcher (paper_client pg_div config) (ba_bot args) (ba_bot args) 0 accepts capacity ev evs [] x Hled Hno
    ltac:(apply not_elem_of_nil) Hcap) as (e & seen & Hd & _ & He).
  set (w1 := mkBWorld x (bw_bt w) (bw_clock w) (bw_faults w)).
  assert (phase args w = (Err e, w1)) as Hphase.
  { unfold replay_phase, mbind, st_bind, on_x. rewrite Hrep. cbn -[run_dispatcher_for_bot]. by rewrite Hd. }
  assert (attempt is_exception (mret tt ;; phase args ;; finish args id) w = (Ok (Err e), w1)) as Hatt.
  { unfold attempt, mbind at 1 2, st_bind. cbn [mret st_ret]. unfold mret, st_ret. by rewrite Hphase, He. }
  unfold main. rewrite Hcfg, Hid. rewrite (st_bind_run (lift_res (Ok cfg)) _ w cfg w eq_refl).
  unfold supervised. rewrite (st_bind_run _ _ _ _ _ Hatt), (st_bind_run bt_now _ w1 (bw_clock w1) w1 eq_refl).
  set (upd := update_backtest_run_completion _ _ _ _). destruct (stmt upd w1) as [r w2] eqn:Es.
  assert (r = Ok tt ∧ bw_bt w2 = (upd (bw_bt w)).2) as [-> Hb].
  { unfold stmt in Es. cbn [w1 bw_faults bw_bt bw_x bw_clock] in Es. destruct (bw_faults w) as [|f fs]; [by injection Es as <- <-|].
    apply Forall_cons in Hf as [<- _]. by injection Es as <- <-. }
  eexists w2, _, _. rewrite (st_bind_run _ _ _ _ _ Es). split; [done|]. rewrite Hb. cbn. rewrite lookup_alter_eq, Hrow. by split_and!.
Qed.

(** ** The comparison *)
Definition unsignalled (w : bworld) : Prop := Forall (fun t => bk_signal_id t = None) (bk_trades (bw_bt w)).
Definition keeps {A} (m : BW A) : Prop := ∀ w, unsignalled w → unsignalled (m w).2.
Lemma keeps_bind {A B} (m : BW A) (f : A → BW B) : keeps m → (∀ a, keeps (f a)) → keeps (m ≫= f).
Proof. intros Hm Hf w Hw. unfold mbind, st_bind. specialize (Hm w Hw). destruct (m w) as [[a|e] w1]; [by apply Hf|done]. Qed.
Lemma keeps_stmt {A} (m : ST bt_db A) : (∀ d, Forall (fun t => bk_signal_id t = None) (bk_trades d) → Forall (fun t => bk_signal_id t = None) (bk_trades (m d).2)) → keeps (stmt m).
Proof.
  intros Hm w Hw. unfold stmt, unsignalled in *. specialize (Hm (bw_bt w) Hw). destruct (bw_faults w) as [|[] fs]; [|done|]; destruct (m (bw_bt w)) as [r d]; done.
Qed.
Lemma keeps_attempt {A} (m : BW A) h : keeps m → keeps (attempt h m).
Proof. intros Hm w Hw. specialize (Hm w Hw). unfold attempt. destruct (m w) as [[a|e] w1]; [done|]. by destruct (h e). Qed.
Lemma keeps_transaction {A} (m : BW A) : keeps m → keeps (bt_transaction m).
Proof. intros Hm w Hw. specialize (Hm w Hw). unfold bt_transaction. by destruct (m w) as [[a|e] w1]. Qed.
Lemma keeps_on_x {A} (m : ST (xworld pe_state) A) : keeps (on_x m).
Proof. intros w Hw. unfold on_x. by destruct (m (bw_x w)). Qed.
Lemma keeps_update id f : keeps (stmt (update_run id f)).
Proof. by apply keeps_stmt. Qed.
Lemma keeps_finish args id : keeps (finish args id).
Proof.
  apply keeps_transaction, keeps_bind; [by intros w|]. intros tb. apply keeps_bind.
  { apply keeps_stmt. intros d Hd. cbn. apply Forall_app. split; [done|]. apply Forall_fmap, Forall_forall. by intros t _. }
  intros _. apply keeps_bind; [by apply keeps_stmt|]. intros s. apply keeps_bind; [by intros w|]. intros t. apply keeps_update.
Qed.
Lemma keeps_supervised args id start : keeps start → keeps (guarded args id start).
Proof.
  intros Hs. unfold supervised. apply keeps_bind.
  - apply keeps_attempt, keeps_bind; [done|]. intros _. apply keeps_bind; [|intros _; apply keeps_finish]. unfold replay_phase.
    apply keeps_bind; [apply keeps_on_x|]. intros evs. apply keeps_on_x.
  - intros [u|e]; [by intros w|]. apply keeps_bind; [by intros w|]. intros t. apply keeps_bind; [apply keeps_update|]. by intros _ w.
Qed.
Lemma keeps_main args : keeps (backtest_main args).
Proof.
  unfold main. apply keeps_bind; [by intros w|]. intros cfg. destruct (ba_run_id args); [apply keeps_supervised; by intros w|].
  apply keeps_bind.
  - apply keeps_attempt, keeps_bind; [by intros w|]. intros t. apply keeps_bind; [by apply keeps_stmt|]. by intros a w.
  - intros [id|e]; [|by intros w]. apply keeps_supervised, keeps_bind; [by intros w|]. intros t. apply keeps_update.
Qed.
Lemma keeps_claim columns t : keeps (stmt (claim_next_backtest_run columns created_at t)).
Proof.
  apply keeps_stmt. intros d Hd. unfold claim_next_backtest_run. destruct (filter _ _); [|done]. by destruct (merge_sort _ _) as [|[id row] l].
Qed.
Lemma keeps_worker columns n : keeps (worker_loop columns n).
Proof.
  induction n as [|n IH]; [by intros w|]. cbn [run_backtest_worker_loop]. apply keeps_bind; [|by intros _]. unfold worker_turn. apply keeps_bind; [by intros w|].
  intros t. apply keeps_bind; [apply keeps_claim|]. intros [[id r]|]; [|by intros w]. apply keeps_bind; [apply keeps_attempt, keeps_main|].
  intros [u|e]; [by intros w|]. apply keeps_bind; [by intros w|]. intros t'. apply keeps_update.
Qed.
(** Everything that happens to the backtest tables: runs of the CLI and of the
    worker, queued runs, and whatever the rest of the system does meanwhile. *)
Inductive bt_history : bworld → Prop :=
| history_start w : bk_trades (bw_bt w) = [] → bt_history w
| history_main w args : bt_history w → bt_history (backtest_main args w).2
| history_worker w columns n : bt_history w → bt_history (worker_loop columns n w).2
| history_queued w name bot yaml hash a b t notes : bt_history w → bt_history (stmt (insert_backtest_run name bot yaml hash a b t notes) w).2
| history_elsewhere w x t fs : bt_history w → bt_history (mkBWorld x (bw_bt w) t fs).

(** The comparison of two runs never finds a common signal: the trades of a
    run are copied from paper_trades, whose signal_id is never written, so over
    any history the join of any two runs is empty and the per-trade differences
    are reported as not applicable. *)
Lemma compare_finds_nothing w run_a run_b : bt_history w →
  select_diverging_trades_for_compare run_a run_b (bw_bt w) = [] ∧ count_common_signals_for_compare run_a run_b (bw_bt w) = 0.
Proof.
  intros Hh. assert (unsignalled w) as Hu.
  { induction Hh as [w H0|w args _ IH|w cols n _ IH|w name bot yaml hash a b t notes _ IH|w x t fs _ IH].
    - unfold unsignalled. by rewrite H0.
    - by apply keeps_main.
    - by apply keeps_worker.
    - revert w IH. by apply keeps_stmt.
    - done. }
  assert (common run_a run_b (bw_bt w) = []) as Hc; [|unfold select_diverging_trades_for_compare, count_common_signals_for_compare; by rewrite Hc].
  unfold common. apply elem_of_nil_inv. intros q (a & Hq & Ha)%list_elem_of_bind. apply list_elem_of_filter in Ha as [_ Ha]. apply list_elem_of_bind in Hq as (b & Hq & _).
  unfold unsignalled in Hu. rewrite Forall_forall in Hu. rewrite (Hu a Ha) in Hq. by apply elem_of_nil in Hq.
Qed.
End outcome.

(** ** Concrete runs *)
#[local] Existing Instance pg_half_away.
Definition bt_cfg : pe_config := mkConfig "alpha" (1000 @ 0) m_fixed_pct dzero {["fixed_slippage_pct" := 5 @ (-4)]} live false false None false false true.
(** One paper order at the last price; the dispatcher sees its fill. *)
Definition one_order (args : BacktestArgs) : ST (xworld pe_state) (list ExecutionEvent) :=
  on_exchange (place_market_order bt_cfg "BTCUSDT" buy (1 @ 0) false) ;; gets (fun w => execution_queue (x_exchange w)).
Definition bt_args (id : option Z) : BacktestArgs := mkArgs "alpha" 0 86400000000 "bot_id: alpha" [] None None id.
Definition bt_world : bworld :=
  mkBWorld (mkXWorld (set_market "BTCUSDT" (100 @ 0) (mkCandle "BTCUSDT" 0 (100 @ 0) (100 @ 0) (100 @ 0) (100 @ 0) (1 @ 0) true) (initial_state 5 empty_db)) empty_live [] 5 ∅)
    (mkBtDb {[1 := mkRun "r" "alpha" "bot_id: alpha" "h" 0 86400000000 RUNNING 1 None None None]} [] 2) 9 [].
Abbreviation bt_main := (main (fun a b => default dzero (match ddiv a b with Ok q => Some q | Err _ => None end)) bt_cfg (fun _ => true) 10
  (fun _ => Ok ("bot_id: alpha", "h")) (fun _ => "t") (fun _ => "error") one_order).
Definition no_order (args : BacktestArgs) : ST (xworld pe_state) (list ExecutionEvent) := mret [].
Lemma backtest_accounts_for_run_witness : ∃ w' row, main (fun a b => a) bt_cfg (fun _ => true) 10 (fun _ => Ok ("y", "h")) (fun _ => "t") (fun _ => "error") no_order (bt_args None) bt_world = (Ok 0, w') ∧
  runs (bw_bt w') !! 2 = Some row ∧ run_status row = COMPLETED.
Proof.
  destruct (main (fun a b => a) bt_cfg (fun _ => true) 10 (fun _ => Ok ("y", "h")) (fun _ => "t") (fun _ => "error") no_order (bt_args None) bt_world) as [r w'] eqn:E.
  assert (r = Ok 0) as -> by (vm_compute in E; by injection E as <- _).
  destruct (backtest_accounts_for_run _ _ _ _ _ _ _ _ (bt_args None) bt_world _ _ ltac:(done) E) as [[_ [[_ (row & s & Hr & Hs & _)]|[? _]]]|[? _]]; [|done..].
  exists w', row. split; [reflexivity|]. exact (conj Hr Hs).
Defined.
