(* ===== verification/Admin.v ===== *)
(** * The control plane: configurations, symbol map, queued backtests and their audit trail

    Models the writing endpoints of services/analytics_api/app/routers/
    {configs,symbol_map,backtests}.py with packages/db/queries/audit.py and the
    statements of packages/db/queries/analytics.py they run, over the tables of
    migrations 0001, 0011 and 0012.

    Requests run side by side, so every await is a point of its own: a request is
    about to run the statement its constructor names, and [advance] runs it.  The
    tables hold what is committed; a transaction reads them as they are at each
    statement (PostgreSQL's READ COMMITTED) and carries its own writes along
    until [commit] applies them at once.  A statement that writes a row, or
    inserts a key, which another open transaction has written waits for that
    transaction to end.  Identity values are drawn when a row is inserted and
    are not given back.  Parsing a configuration, SHA-256 and [str] of a time are
    parameters. *)

From S2P Require Import Prelude Json Sizing RiskGates Analytics Backtest.
From stdpp Require Import sorting gmap pretty.
Open Scope Z_scope.

(** ** Tables *)
Inductive BotStatus := ACTIVE | PAUSED | ARCHIVED.
Inductive ExchangeSource := BINANCE | BYBIT | CUSTOM.
#[global] Instance ExchangeSource_eq_dec : EqDecision ExchangeSource.
Proof. solve_decision. Defined.
(** A row of [bots], whose enum columns are text. *)
Record bots_table_row := mkBotsTableRow {
  bd_display_name : string; bd_created_at : Z; bd_status : string; bd_exchange_mode : string; bd_config_hash : string; bd_config_applied_at : Z; bd_meta : json;
}.
Record BotConfigRow := mkBotConfig {
  cf_id : Z; cf_bot_id : string; cf_version : Z; cf_applied_at : Z; cf_applied_by : string; cf_config_yaml : string; cf_config_hash : string; cf_notes : option string;
}.
Record SymbolMapRow := mkSymbolMap {
  sy_input_symbol : string; sy_canonical_symbol : string; sy_exchange_source : ExchangeSource; sy_notes : option string; sy_created_at : Z; sy_updated_at : Z;
}.
Record AuditEventRow := mkAudit {
  au_id : Z; au_occurred_at : Z; au_actor : string; au_action : string; au_entity_type : string; au_entity_id : string;
  au_before_state : option json; au_after_state : option json; au_correlation_id : option string;
}.
Record admin_db := mkAdminDb {
  ad_bots : gmap string bots_table_row; ad_configs : gmap (string * Z) BotConfigRow; ad_symbols : gmap string SymbolMapRow;
  ad_runs : gmap Z BacktestRunRow; ad_audit : list AuditEventRow;
}.

(** ** Reads *)
(** ORDER BY version DESC. *)
Definition newer_version (a b : BotConfigRow) : Prop := cf_version b <= cf_version a.
#[global] Instance newer_version_dec : RelDecision newer_version.
Proof. intros a b. unfold newer_version. apply _. Defined.
Definition configs_of (bot_id : string) (d : admin_db) : list BotConfigRow :=
  merge_sort newer_version (filter (fun r => cf_bot_id r = bot_id) (snd <$> map_to_list (ad_configs d))).
Definition select_bot_config_current (bot_id : string) (d : admin_db) : option BotConfigRow := head (configs_of bot_id d).
Definition select_bot_config_versions (bot_id : string) (limit offset : nat) (d : admin_db) : list BotConfigRow := take limit (drop offset (configs_of bot_id d)).
Definition count_bot_config_versions (bot_id : string) (d : admin_db) : Z := Z.of_nat (length (configs_of bot_id d)).
Definition select_bot_config_by_version (bot_id : string) (version : Z) (d : admin_db) : option BotConfigRow := ad_configs d !! (bot_id, version).
(** COALESCE(MAX(version), 0). *)
Definition select_max_bot_config_version (bot_id : string) (d : admin_db) : Z :=
  match cf_version <$> configs_of bot_id d with [] => 0 | v :: vs => foldl Z.max v vs end.
Definition select_symbol_map_entry (input_symbol : string) (d : admin_db) : option SymbolMapRow := ad_symbols d !! input_symbol.
Definition symbol_text_before (a b : SymbolMapRow) : Prop := String.leb (sy_input_symbol a) (sy_input_symbol b) = true.
#[global] Instance symbol_text_before_dec : RelDecision symbol_text_before.
Proof. intros a b. unfold symbol_text_before. apply _. Defined.
Definition select_all_symbol_map_entries (d : admin_db) : list SymbolMapRow := merge_sort symbol_text_before (snd <$> map_to_list (ad_symbols d)).
(** The enum constructors of [_row_to_bot_detail] refuse other texts. *)
Record BotDetailRow := mkBotDetail {
  bo_bot_id : string; bo_display_name : string; bo_created_at : Z; bo_status : BotStatus; bo_exchange_mode : exchange_mode; bo_config_hash : string;
  bo_config_applied_at : Z; bo_meta : dict;
}.
Definition BotStatus_of (s : string) : res BotStatus :=
  if (s =? "active")%string then Ok ACTIVE else if (s =? "paused")%string then Ok PAUSED else if (s =? "archived")%string then Ok ARCHIVED
  else Err (ValueError (s +:+ " is not a valid BotStatus")).
Definition ExchangeMode_of (s : string) : res exchange_mode :=
  if (s =? "live")%string then Ok em_live else if (s =? "testnet")%string then Ok em_testnet else if (s =? "paper")%string then Ok em_paper
  else if (s =? "demo")%string then Ok em_demo else Err (ValueError (s +:+ " is not a valid ExchangeMode")).
Definition row_to_bot_detail (kv : string * bots_table_row) : res BotDetailRow :=
  status ← BotStatus_of (bd_status kv.2);
  mode ← ExchangeMode_of (bd_exchange_mode kv.2);
  Ok (mkBotDetail kv.1 (bd_display_name kv.2) (bd_created_at kv.2) status mode (bd_config_hash kv.2) (bd_config_applied_at kv.2)
    (match bd_meta kv.2 with JObj o => o | _ => [] end)).
Definition bot_id_before (a b : string * bots_table_row) : Prop := String.leb a.1 b.1 = true.
#[global] Instance bot_id_before_dec : RelDecision bot_id_before.
Proof. intros a b. unfold bot_id_before. apply _. Defined.
Definition select_all_bots (d : admin_db) : res (list BotDetailRow) := mapM row_to_bot_detail (merge_sort bot_id_before (map_to_list (ad_bots d))).
Definition select_bot_by_id (bot_id : string) (d : admin_db) : res (option BotDetailRow) :=
  match ad_bots d !! bot_id with Some r => b ← row_to_bot_detail (bot_id, r); Ok (Some b) | None => Ok None end.

(** ** Audit states *)
Section admin.
Context (load_bot_config : string → res (string * Z)) (sha256_hex : string → string) (show_time : Z → string).

(** [asdict(row)] without config_yaml, through [_to_jsonable]: times are texts. *)
Definition opt_text (s : option string) : json := match s with Some t => JStr t | None => JNull end.
Definition config_state (r : BotConfigRow) : json := JObj [
  ("id", JInt (cf_id r)); ("bot_id", JStr (cf_bot_id r)); ("version", JInt (cf_version r)); ("applied_at", JStr (show_time (cf_applied_at r)));
  ("applied_by", JStr (cf_applied_by r)); ("config_hash", JStr (cf_config_hash r)); ("notes", opt_text (cf_notes r))].
Definition ExchangeSource_value (e : ExchangeSource) : string := match e with BINANCE => "binance" | BYBIT => "bybit" | CUSTOM => "custom" end.
Definition symbol_state (r : SymbolMapRow) : json := JObj [
  ("input_symbol", JStr (sy_input_symbol r)); ("canonical_symbol", JStr (sy_canonical_symbol r));
  ("exchange_source", JStr (ExchangeSource_value (sy_exchange_source r))); ("notes", opt_text (sy_notes r));
  ("created_at", JStr (show_time (sy_created_at r))); ("updated_at", JStr (show_time (sy_updated_at r)))].
(** Of a run that was just inserted: neither finished nor summarised. *)
Definition queued_state (id : Z) (r : BacktestRunRow) : json := JObj [
  ("id", JStr (pretty id)); ("name", JStr (run_name r)); ("bot_id", JStr (run_bot_id r)); ("config_hash", JStr (run_config_hash r));
  ("date_range_start", JStr (show_time (run_range_start r))); ("date_range_end", JStr (show_time (run_range_end r))); ("status", JStr "queued");
  ("started_at", JStr (show_time (run_started_at r))); ("finished_at", JNull); ("summary", JNull); ("notes", opt_text (run_notes r))].

(** ** Requests *)
(** [_resolve_actor] and [_resolve_correlation_id]. *)
Record caller := mkCaller { cl_host : option string; cl_correlation_header : option string }.
Definition resolve_actor (c : caller) : string := match cl_host c with Some h => "lan:" +:+ h | None => "lan:unknown" end.
Definition is_space (c : Ascii.ascii) : bool := let n := Ascii.nat_of_ascii c in bool_decide (9 <= n <= 13 ∨ 28 <= n <= 32 ∨ n = 133 ∨ n = 160)%nat.
Definition resolve_correlation_id (c : caller) : option string :=
  h ← cl_correlation_header c; if forallb is_space (String.list_ascii_of_string h) then None else Some h.
(** What a write request carries into its transaction. *)
Record apply_request := mkApply {
  ar_bot_id : string; ar_yaml_text : string; ar_applied_by : string; ar_notes : option string; ar_occurred_at : Z; ar_caller : caller;
}.
Inductive symbol_op :=
| op_create (canonical : string) (source : ExchangeSource) (notes : option string)
| op_update (canonical : string) (source : ExchangeSource) (notes : option string)
| op_delete.
Record symbol_request := mkSymbolRequest { sq_input_symbol : string; sq_op : symbol_op; sq_occurred_at : Z; sq_caller : caller }.
Record run_request := mkRunRequest {
  rq_name : string; rq_bot_id : string; rq_config_yaml : string; rq_range_start : Z; rq_range_end : Z; rq_notes : option string; rq_started_at : Z; rq_caller : caller;
}.
Inductive request :=
| apply_current (p : apply_request)
| apply_max (p : apply_request) (before : option BotConfigRow)
| apply_insert (p : apply_request) (before : option BotConfigRow) (next_version : Z)
| apply_update (p : apply_request) (before : option BotConfigRow) (row : BotConfigRow)
| apply_audit (p : apply_request) (before : option BotConfigRow) (row : BotConfigRow)
| apply_commit (p : apply_request) (row : BotConfigRow) (ev : AuditEventRow)
| symbol_read (p : symbol_request)
| symbol_write (p : symbol_request) (before : option SymbolMapRow)
| symbol_audit (p : symbol_request) (before after : option SymbolMapRow)
| symbol_commit (p : symbol_request) (after : option SymbolMapRow) (ev : AuditEventRow)
| run_check (p : run_request)
| run_insert (p : run_request)
| run_audit (p : run_request) (id : Z) (row : BacktestRunRow)
| run_commit (p : run_request) (id : Z) (row : BacktestRunRow) (ev : AuditEventRow)
| answered_config (row : BotConfigRow)
| answered_symbol (after : option SymbolMapRow)
| answered_run (id : Z)
| answered_error (status : Z).
Record admin_state := mkAdminState { as_db : admin_db; as_requests : gmap nat request; as_config_seq : Z; as_audit_seq : Z; as_run_seq : Z }.

(** ** Reading endpoints *)
Definition found {A} (row : option A) : res A := match row with Some a => Ok a | None => Err (HTTPException 404) end.
Definition get_symbol_map_entry_endpoint (input_symbol : string) (d : admin_db) : res SymbolMapRow := found (select_symbol_map_entry input_symbol d).
Definition get_current_bot_config (bot_id : string) (d : admin_db) : res BotConfigRow := found (select_bot_config_current bot_id d).
Definition get_bot_config_version (bot_id : string) (version : Z) (d : admin_db) : res BotConfigRow := found (select_bot_config_by_version bot_id version d).
Definition get_bot (bot_id : string) (d : admin_db) : res BotDetailRow := r ← select_bot_by_id bot_id d; found r.
Definition get_backtest_run (id : Z) (d : bt_db) : res BacktestRunRow := found (select_backtest_run_by_id id d).
(** [valid], [parsed_version] and [errors]. *)
Definition validate_bot_config (show_exn : exn → string) (yaml_text : string) : bool * option Z * list string :=
  match load_bot_config yaml_text with Ok (_, version) => (true, Some version, []) | Err e => (false, None, [show_exn e]) end.

(** ** Before the transaction *)
(** Parsing, then the bot's name against the one in the text. *)
Definition apply_bot_config (p : apply_request) : request :=
  match load_bot_config (ar_yaml_text p) with
  | Err _ => answered_error 422
  | Ok (bot_id, _) => if (bot_id =? ar_bot_id p)%string then apply_current p else answered_error 409
  end.
Definition symbol_map_endpoint (p : symbol_request) : request :=
  match sq_op p with op_create _ _ _ => symbol_write p None | _ => symbol_read p end.
(** The request model refuses an empty range. *)
Definition trigger_backtest_run (p : run_request) : request :=
  if rq_range_end p <=? rq_range_start p then answered_error 422
  else match load_bot_config (rq_config_yaml p) with
       | Err _ => answered_error 422
       | Ok (bot_id, _) => if (bot_id =? rq_bot_id p)%string then run_check p else answered_error 422
       end.

(** ** Statements *)
Definition insert_bot_config (p : apply_request) (version id : Z) : BotConfigRow :=
  mkBotConfig id (ar_bot_id p) version (ar_occurred_at p) (ar_applied_by p) (ar_yaml_text p) (sha256_hex (ar_yaml_text p)) (ar_notes p).
Definition update_bot_config_applied (config_hash : string) (config_applied_at : Z) (b : bots_table_row) : bots_table_row :=
  mkBotsTableRow (bd_display_name b) (bd_created_at b) (bd_status b) (bd_exchange_mode b) config_hash config_applied_at (bd_meta b).
(** INSERT, UPDATE ... RETURNING and DELETE of [symbol_map] on the committed row:
    the row left behind, or the status of the refusal. *)
Definition write_symbol (p : symbol_request) (current : option SymbolMapRow) : option SymbolMapRow + Z :=
  match sq_op p, current with
  | op_create c e n, None => inl (Some (mkSymbolMap (sq_input_symbol p) c e n (sq_occurred_at p) (sq_occurred_at p)))
  | op_create _ _ _, Some _ => inr 409
  | op_update c e n, Some r => inl (Some (mkSymbolMap (sy_input_symbol r) c e n (sy_created_at r) (sq_occurred_at p)))
  | op_delete, Some _ => inl None
  | _, None => inr 404
  end.
(** UPDATE and DELETE wait for the lock of a row they see and not for an INSERT
    of the key that is not committed: they find no row and answer at once. *)
Definition sees_no_row (p : symbol_request) (current : option SymbolMapRow) : bool :=
  match sq_op p, current with op_update _ _ _, None | op_delete, None => true | _, _ => false end.
Definition insert_audit_event (id occurred_at : Z) (c : caller) (action entity_type entity_id : string) (before after : option json) : AuditEventRow :=
  mkAudit id occurred_at (resolve_actor c) action entity_type entity_id before after (resolve_correlation_id c).
Definition config_event (id : Z) (p : apply_request) (before : option BotConfigRow) (row : BotConfigRow) : AuditEventRow :=
  insert_audit_event id (ar_occurred_at p) (ar_caller p) "bot_config.apply" "bot_config" (ar_bot_id p) (config_state <$> before) (Some (config_state row)).
Definition symbol_action (op : symbol_op) : string :=
  match op with op_create _ _ _ => "symbol_map.create" | op_update _ _ _ => "symbol_map.update" | op_delete => "symbol_map.delete" end.
Definition symbol_event (id : Z) (p : symbol_request) (before after : option SymbolMapRow) : AuditEventRow :=
  insert_audit_event id (sq_occurred_at p) (sq_caller p) (symbol_action (sq_op p)) "symbol_map" (sq_input_symbol p) (symbol_state <$> before) (symbol_state <$> after).
Definition queued_run (p : run_request) : BacktestRunRow :=
  mkRun (rq_name p) (rq_bot_id p) (rq_config_yaml p) (sha256_hex (rq_config_yaml p)) (rq_range_start p) (rq_range_end p) QUEUED (rq_started_at p) None None (rq_notes p).
Definition run_event (id : Z) (p : run_request) (run_id : Z) (row : BacktestRunRow) : AuditEventRow :=
  insert_audit_event id (rq_started_at p) (rq_caller p) "backtest_run.queued" "backtest_run" (pretty run_id) None (Some (queued_state run_id row)).

(** ** Locks *)
(** The rows and keys that an open transaction has written. *)
Inductive lock := config_key (bot_id : string) (version : Z) | bot_row (bot_id : string) | symbol_key (input_symbol : string).
#[global] Instance lock_eq_dec : EqDecision lock.
Proof. solve_decision. Defined.
Definition holds (r : request) : list lock :=
  match r with
  | apply_update p _ row => [config_key (ar_bot_id p) (cf_version row)]
  | apply_audit p _ row | apply_commit p row _ => [config_key (ar_bot_id p) (cf_version row); bot_row (ar_bot_id p)]
  | symbol_audit p _ _ | symbol_commit p _ _ => [symbol_key (sq_input_symbol p)]
  | _ => []
  end.
Definition is_free (l : lock) (i : nat) (c : admin_state) : bool :=
  forallb (fun kv => bool_decide (kv.1 = i) || negb (bool_decide (l ∈ holds kv.2))) (map_to_list (as_requests c)).

(** ** One statement of a request; [None] while it waits for a lock *)
Definition set_request (i : nat) (r : request) (c : admin_state) : admin_state :=
  mkAdminState (as_db c) (<[i := r]> (as_requests c)) (as_config_seq c) (as_audit_seq c) (as_run_seq c).
Definition draw_config_id (c : admin_state) : admin_state := mkAdminState (as_db c) (as_requests c) (as_config_seq c + 1) (as_audit_seq c) (as_run_seq c).
Definition draw_audit_id (c : admin_state) : admin_state := mkAdminState (as_db c) (as_requests c) (as_config_seq c) (as_audit_seq c + 1) (as_run_seq c).
Definition draw_run_id (c : admin_state) : admin_state := mkAdminState (as_db c) (as_requests c) (as_config_seq c) (as_audit_seq c) (as_run_seq c + 1).
Definition set_db (d : admin_db) (c : admin_state) : admin_state := mkAdminState d (as_requests c) (as_config_seq c) (as_audit_seq c) (as_run_seq c).
(** What the writes of a transaction make of the committed tables. *)
Definition commit (r : request) (d : admin_db) : admin_db :=
  match r with
  | apply_commit p row ev =>
      mkAdminDb (alter (update_bot_config_applied (cf_config_hash row) (cf_applied_at row)) (ar_bot_id p) (ad_bots d))
        (<[(ar_bot_id p, cf_version row) := row]> (ad_configs d)) (ad_symbols d) (ad_runs d) (ad_audit d ++ [ev])
  | symbol_commit p after ev =>
      mkAdminDb (ad_bots d) (ad_configs d) (partial_alter (fun _ => after) (sq_input_symbol p) (ad_symbols d)) (ad_runs d) (ad_audit d ++ [ev])
  | run_commit p id row ev => mkAdminDb (ad_bots d) (ad_configs d) (ad_symbols d) (<[id := row]> (ad_runs d)) (ad_audit d ++ [ev])
  | _ => d
  end.
Definition advance (i : nat) (c : admin_state) : option admin_state :=
  let d := as_db c in
  match as_requests c !! i with
  | Some (apply_current p) => Some (set_request i (apply_max p (select_bot_config_current (ar_bot_id p) d)) c)
  | Some (apply_max p before) => Some (set_request i (apply_insert p before (select_max_bot_config_version (ar_bot_id p) d + 1)) c)
  | Some (apply_insert p before next_version) =>
      if is_free (config_key (ar_bot_id p) next_version) i c then
        let c' := draw_config_id c in
        match ad_configs d !! (ar_bot_id p, next_version), ad_bots d !! ar_bot_id p with
        | Some _, _ => Some (set_request i (answered_error 409) c')
        | None, None => Some (set_request i (answered_error 500) c')
        | None, Some _ => Some (set_request i (apply_update p before (insert_bot_config p next_version (as_config_seq c))) c')
        end
      else None
  | Some (apply_update p before row) =>
      if is_free (bot_row (ar_bot_id p)) i c then
        match ad_bots d !! ar_bot_id p with
        | Some _ => Some (set_request i (apply_audit p before row) c)
        | None => Some (set_request i (answered_error 500) c)
        end
      else None
  | Some (apply_audit p before row) => Some (draw_audit_id (set_request i (apply_commit p row (config_event (as_audit_seq c) p before row)) c))
  | Some (symbol_read p) =>
      match select_symbol_map_entry (sq_input_symbol p) d with
      | Some r => Some (set_request i (symbol_write p (Some r)) c)
      | None => Some (set_request i (answered_error 404) c)
      end
  | Some (symbol_write p before) =>
      if is_free (symbol_key (sq_input_symbol p)) i c || sees_no_row p (ad_symbols d !! sq_input_symbol p) then
        match write_symbol p (ad_symbols d !! sq_input_symbol p) with
        | inl after => Some (set_request i (symbol_audit p before after) c)
        | inr status => Some (set_request i (answered_error status) c)
        end
      else None
  | Some (symbol_audit p before after) => Some (draw_audit_id (set_request i (symbol_commit p after (symbol_event (as_audit_seq c) p before after)) c))
  | Some (run_check p) =>
      match select_bot_by_id (rq_bot_id p) d with
      | Ok (Some _) => Some (set_request i (run_insert p) c)
      | Ok None => Some (set_request i (answered_error 404) c)
      | Err _ => Some (set_request i (answered_error 500) c)
      end
  | Some (run_insert p) => Some (draw_run_id (set_request i (run_audit p (as_run_seq c) (queued_run p)) c))
  | Some (run_audit p id row) => Some (draw_audit_id (set_request i (run_commit p id row (run_event (as_audit_seq c) p id row)) c))
  | Some (apply_commit p row ev as r) => Some (set_request i (answered_config row) (set_db (commit r d) c))
  | Some (symbol_commit p after ev as r) => Some (set_request i (answered_symbol after) (set_db (commit r d) c))
  | Some (run_commit p id row ev as r) => Some (set_request i (answered_run id) (set_db (commit r d) c))
  | Some (answered_config _ | answered_symbol _ | answered_run _ | answered_error _) | None => None
  end.
Definition is_open (r : request) : bool :=
  match r with answered_config _ | answered_symbol _ | answered_run _ | answered_error _ => false | _ => true end.

(** A request arrives, runs its next statement, or loses its connection: before
    its COMMIT, which rolls back, or after it. *)
Inductive admin_step : admin_state → admin_state → Prop :=
| step_apply c i p : as_requests c !! i = None → admin_step c (set_request i (apply_bot_config p) c)
| step_symbol c i p : as_requests c !! i = None → admin_step c (set_request i (symbol_map_endpoint p) c)
| step_run c i p : as_requests c !! i = None → admin_step c (set_request i (trigger_backtest_run p) c)
| step_advance c i c' : advance i c = Some c' → admin_step c c'
| step_lost c i r : as_requests c !! i = Some r → is_open r = true → admin_step c (set_request i (answered_error 500) c)
| step_lost_answer c i r : as_requests c !! i = Some r → is_open r = true → admin_step c (set_request i (answered_error 500) (set_db (commit r (as_db c)) c)).
Definition admin_run := rtc admin_step.
End admin.
