(* ===== verification/AdminFacts.v ===== *)
(** * What the control plane guarantees when requests race

    The history of a bot's configuration stays linear and the audit trail explains
    every row of the symbol map, over any interleaving of requests and any lost
    connection; the before-state of an audit event is the one thing a race can
    get wrong. *)

From S2P Require Import Prelude Json Sizing RiskGates Analytics Backtest Admin.
From stdpp Require Import sorting gmap pretty.
Open Scope Z_scope.

(** ** Reads *)
Lemma configs_of_elem b d row : row ∈ configs_of b d ↔ cf_bot_id row = b ∧ ∃ k, ad_configs d !! k = Some row.
Proof.
  unfold configs_of. rewrite merge_sort_Permutation, list_elem_of_filter, list_elem_of_fmap. split.
  - intros [Hb ([k r] & -> & Hk)]. apply elem_of_map_to_list in Hk. split; [done|]. by exists k.
  - intros [Hb [k Hk]]. split; [done|]. exists (k, row). split; [done|]. by apply elem_of_map_to_list.
Qed.
Lemma foldl_max_spec (v : Z) vs : (∀ x, x ∈ v :: vs → x <= foldl Z.max v vs) ∧ foldl Z.max v vs ∈ v :: vs.
Proof.
  revert v. induction vs as [|y vs IH]; intros v; cbn.
  - split; [|by left]. intros x Hx. apply list_elem_of_singleton in Hx. lia.
  - destruct (IH (v `max` y)) as [H1 H2]. split.
    + intros x [->|[->|Hx]%elem_of_cons]%elem_of_cons.
      * specialize (H1 (v `max` y) ltac:(left)). lia.
      * specialize (H1 (v `max` y) ltac:(left)). lia.
      * apply H1. by right.
    + apply elem_of_cons in H2 as [->|H2]; [|by right; right]. destruct (Z.max_spec v y) as [[_ ->]|[_ ->]]; [right; left|left].
Qed.

Section facts.
Context (load_bot_config : string → res (string * Z)) (sha256_hex : string → string) (show_time : Z → string).
Abbreviation step := (admin_step load_bot_config sha256_hex show_time).
Abbreviation run_statement := (advance sha256_hex show_time).

(** ** The audit trail *)
Definition about (entity_type entity_id : string) (ev : AuditEventRow) : Prop := au_entity_type ev = entity_type ∧ au_entity_id ev = entity_id.
#[local] Instance about_dec t i ev : Decision (about t i ev).
Proof. unfold about. apply _. Defined.
Definition trail (entity_type entity_id : string) (d : admin_db) : list AuditEventRow := filter (about entity_type entity_id) (ad_audit d).
Definition versions (b : string) (d : admin_db) : Z := Z.of_nat (length (trail "bot_config" b d)).

(** The versions of a bot are 1 to the number of its audit events, each event
    holds the state of its version, and the bot's row names the latest one. *)
Definition linear (b : string) (d : admin_db) : Prop :=
  (∀ v, is_Some (ad_configs d !! (b, v)) ↔ 1 <= v <= versions b d) ∧
  (∀ v row, ad_configs d !! (b, v) = Some row → cf_bot_id row = b ∧ cf_version row = v ∧
     ∃ ev, trail "bot_config" b d !! Z.to_nat (v - 1) = Some ev ∧ au_after_state ev = Some (config_state show_time row)) ∧
  (∀ row, ad_configs d !! (b, versions b d) = Some row → ∃ bot, ad_bots d !! b = Some bot ∧
     bd_config_hash bot = cf_config_hash row ∧ bd_config_applied_at bot = cf_applied_at row).

(** The row of a symbol after the audited requests, one after the other. *)
Inductive explained (k : string) (s : option SymbolMapRow) : list AuditEventRow → option SymbolMapRow → Prop :=
| explained_nil : explained k s [] s
| explained_snoc evs s1 p ev s2 : explained k s evs s1 → sq_input_symbol p = k → write_symbol p s1 = inl s2 →
    au_action ev = symbol_action (sq_op p) → au_occurred_at ev = sq_occurred_at p → au_after_state ev = symbol_state show_time <$> s2 →
    explained k s (evs ++ [ev]) s2.

(** What a request knows at each point. *)
Definition new_version (p : apply_request) (row : BotConfigRow) (d : admin_db) : Prop :=
  cf_bot_id row = ar_bot_id p ∧ cf_version row = versions (ar_bot_id p) d + 1 ∧ is_Some (ad_bots d !! ar_bot_id p).
Definition knows (r : request) (d : admin_db) : Prop :=
  match r with
  | apply_insert p _ next => 1 <= next <= versions (ar_bot_id p) d + 1
  | apply_update p _ row | apply_audit p _ row => new_version p row d
  | apply_commit p row ev => new_version p row d ∧ about "bot_config" (ar_bot_id p) ev ∧ au_after_state ev = Some (config_state show_time row)
  | symbol_audit p _ after => write_symbol p (ad_symbols d !! sq_input_symbol p) = inl after
  | symbol_commit p after ev => write_symbol p (ad_symbols d !! sq_input_symbol p) = inl after ∧ about "symbol_map" (sq_input_symbol p) ev ∧
      au_action ev = symbol_action (sq_op p) ∧ au_occurred_at ev = sq_occurred_at p ∧ au_after_state ev = symbol_state show_time <$> after
  | run_commit _ id _ ev => about "backtest_run" (pretty id) ev
  | answered_config row => ad_configs d !! (cf_bot_id row, cf_version row) = Some row
  | _ => True
  end.
Record admin_inv (d0 : admin_db) (c : admin_state) : Prop := {
  ai_linear b : linear b (as_db c);
  ai_explained k : explained k (ad_symbols d0 !! k) (trail "symbol_map" k (as_db c)) (ad_symbols (as_db c) !! k);
  ai_knows i r : as_requests c !! i = Some r → knows r (as_db c);
  ai_locks i j ri rj l : as_requests c !! i = Some ri → as_requests c !! j = Some rj → l ∈ holds ri → l ∈ holds rj → i = j;
  ai_answers i j ri rj : as_requests c !! i = Some (answered_config ri) → as_requests c !! j = Some (answered_config rj) →
    cf_bot_id ri = cf_bot_id rj → cf_version ri = cf_version rj → i = j;
}.

(** ** Steps that leave the tables *)
Lemma inv_set d0 c c' i r : admin_inv d0 c → as_db c' = as_db c → as_requests c' = <[i := r]> (as_requests c) → knows r (as_db c) →
  (∀ l j rj, l ∈ holds r → j ≠ i → as_requests c !! j = Some rj → l ∉ holds rj) → (∀ row, r ≠ answered_config row) → admin_inv d0 c'.
Proof.
  intros [Hl He Hk Hlk Ha] Hd Hr Hn Hfree Hna. split.
  - intros b. rewrite Hd. apply Hl.
  - intros k. rewrite Hd. apply He.
  - intros j rj. rewrite Hd, Hr. destruct (decide (j = i)) as [->|]; [rewrite lookup_insert_eq; by intros [= <-]|rewrite lookup_insert_ne by done; apply Hk].
  - intros j1 j2 r1 r2 l. rewrite Hr. destruct (decide (j1 = i)) as [->|], (decide (j2 = i)) as [->|]; rewrite ?lookup_insert_eq, ?lookup_insert_ne by done; [done|..].
    + intros [= <-] H2 Hi Hj. by destruct (Hfree l j2 r2 Hi ltac:(done) H2).
    + intros H1 [= <-] Hi Hj. by destruct (Hfree l j1 r1 Hj ltac:(done) H1).
    + apply Hlk.
  - intros j1 j2 r1 r2. rewrite Hr. destruct (decide (j1 = i)) as [->|]; [rewrite lookup_insert_eq; intros [= H1]; by destruct (Hna r1)|].
    destruct (decide (j2 = i)) as [->|]; [rewrite (lookup_insert_eq _ i); intros _ [= H1]; by destruct (Hna r2)|]. rewrite !lookup_insert_ne by done. apply Ha.
Qed.
(** A request that takes no new lock. *)
Lemma inv_set_keep d0 c c' i r0 r : admin_inv d0 c → as_requests c !! i = Some r0 → as_db c' = as_db c → as_requests c' = <[i := r]> (as_requests c) →
  knows r (as_db c) → (∀ l, l ∈ holds r → l ∈ holds r0) → (∀ row, r ≠ answered_config row) → admin_inv d0 c'.
Proof.
  intros Hi H0 Hd Hr Hk Hh Hn. eapply inv_set; [done..| |done]. intros l j rj Hl Hj Hrj Hin. apply Hj. eapply (ai_locks _ _ Hi); eauto.
Qed.
Lemma inv_set_idle d0 c c' i r : admin_inv d0 c → as_db c' = as_db c → as_requests c' = <[i := r]> (as_requests c) → knows r (as_db c) → holds r = [] →
  (∀ row, r ≠ answered_config row) → admin_inv d0 c'.
Proof. intros Hi Hd Hr Hk Hh Hn. eapply inv_set; [done..| |done]. rewrite Hh. intros l j rj []%elem_of_nil. Qed.
Lemma is_free_spec l i c : is_free l i c = true → ∀ j rj, j ≠ i → as_requests c !! j = Some rj → l ∉ holds rj.
Proof.
  unfold is_free. rewrite forallb_forall. intros H j rj Hj Hr Hin. specialize (H (j, rj)). rewrite <- list_elem_of_In, elem_of_map_to_list in H.
  specialize (H Hr). cbn in H. rewrite bool_decide_false in H by done. rewrite bool_decide_true in H by done. done.
Qed.

(** ** Commits *)
Lemma trail_snoc t e d d' ev : ad_audit d' = ad_audit d ++ [ev] → trail t e d' = trail t e d ++ (if decide (about t e ev) then [ev] else []).
Proof. intros H. unfold trail. rewrite H, filter_app, filter_cons, filter_nil. done. Qed.
Lemma trail_other t e t' e' d d' ev : ad_audit d' = ad_audit d ++ [ev] → about t' e' ev → t ≠ t' ∨ e ≠ e' → trail t e d' = trail t e d.
Proof. intros H [Ht He] Hne. rewrite (trail_snoc _ _ _ _ _ H), decide_False; [by rewrite app_nil_r|]. intros [? ?]. destruct Hne; congruence. Qed.
Lemma linear_same b d d' : linear b d → trail "bot_config" b d' = trail "bot_config" b d → (∀ v, ad_configs d' !! (b, v) = ad_configs d !! (b, v)) →
  ad_bots d' !! b = ad_bots d !! b → linear b d'.
Proof.
  intros (H1 & H2 & H3) Ht Hc Hb. unfold linear, versions. rewrite Ht, Hb. split_and!.
  - intros v. rewrite Hc. apply H1.
  - intros v row. rewrite Hc. apply H2.
  - intros row. rewrite Hc. apply H3.
Qed.
Lemma linear_commit p row ev d : linear (ar_bot_id p) d → knows (apply_commit p row ev) d → linear (ar_bot_id p) (commit (apply_commit p row ev) d).
Proof.
  set (b := ar_bot_id p). set (d' := commit _ d). intros (H1 & H2 & H3) [(Hb & Hv & [bot Hbot]) [Hab Haf]]. fold b in Hb, Hv, Hab, Hbot.
  assert (trail "bot_config" b d' = trail "bot_config" b d ++ [ev]) as Ht by (rewrite (trail_snoc _ _ d d' ev eq_refl), decide_True by done; done).
  assert (versions b d' = versions b d + 1) as Hn by (unfold versions; rewrite Ht, length_app; cbn; lia).
  assert (ad_configs d' = <[(b, cf_version row) := row]> (ad_configs d)) as Hc by done. split_and!.
  - intros v. rewrite Hn, Hc. destruct (decide (v = cf_version row)) as [->|].
    + rewrite lookup_insert_eq. split; [intros _; rewrite Hv; unfold versions; lia|by eexists].
    + rewrite lookup_insert_ne by congruence. rewrite H1. lia.
  - intros v r. rewrite Hc, Ht. destruct (decide (v = cf_version row)) as [->|].
    + rewrite lookup_insert_eq. intros [= <-]. split_and!; [done..|]. exists ev. split; [|done].
      rewrite Hv. unfold versions. rewrite lookup_app_r by lia. replace (Z.to_nat _ - _)%nat with 0%nat by lia. done.
    + rewrite lookup_insert_ne by congruence. intros Hr. destruct (H2 v r Hr) as (? & ? & e & He & ?). split_and!; [done..|]. exists e. split; [|done].
      by apply lookup_app_l_Some.
  - intros r. rewrite Hn, Hc, <- Hv, lookup_insert_eq. intros [= <-].
    exists (update_bot_config_applied (cf_config_hash row) (cf_applied_at row) bot). split; [|done]. unfold d'. cbn. fold b. by rewrite lookup_alter_eq, Hbot.
Qed.
Lemma config_fresh p row d : linear (ar_bot_id p) d → new_version p row d → ad_configs d !! (ar_bot_id p, cf_version row) = None.
Proof.
  intros (H1 & _) (_ & Hv & _). destruct (ad_configs d !! (ar_bot_id p, cf_version row)) eqn:E; [|done]. assert (is_Some (ad_configs d !! (ar_bot_id p, cf_version row))) as Hs by (by eexists).
  apply H1 in Hs. lia.
Qed.
(** Another open transaction's knowledge survives a commit. *)
Lemma knows_commit r rj d : (∀ b, linear b d) → knows r d → knows rj d → (∀ l, l ∈ holds r → l ∉ holds rj) → knows rj (commit r d).
Proof.
  intros Hlin Hr Hj Hlk. destruct r; try done; destruct Hr as [Hr Hev] || idtac.
  - assert (∀ q, ar_bot_id q ≠ ar_bot_id p → versions (ar_bot_id q) (commit (apply_commit p row ev) d) = versions (ar_bot_id q) d) as Hv.
    { intros q Hq. unfold versions. erewrite trail_other; [done|done|apply Hev|by right]. }
    assert (∀ q, versions (ar_bot_id q) d <= versions (ar_bot_id q) (commit (apply_commit p row ev) d)) as Hmono.
    { intros q. unfold versions. rewrite (trail_snoc _ _ d (commit (apply_commit p row ev) d) ev eq_refl), length_app. lia. }
    assert (∀ q r', new_version q r' d → config_key (ar_bot_id q) (cf_version r') ∈ holds rj → new_version q r' (commit (apply_commit p row ev) d)) as Hnew.
    { intros q r' (Hb & Hvr & Hbot) Hin. destruct (decide (ar_bot_id q = ar_bot_id p)) as [Heq|Hne].
      - exfalso. destruct (Hlk (config_key (ar_bot_id p) (cf_version row))); [by left|]. destruct Hr as (_ & Hv' & _). rewrite Hv', <- Heq, <- Hvr. done.
      - split_and!; [done|by rewrite Hv|]. cbn. by rewrite lookup_alter_ne. }
    destruct rj; cbn [knows] in *; try done.
    + specialize (Hmono p0). lia.
    + apply Hnew; [done|by left].
    + apply Hnew; [done|by left].
    + destruct Hj as [Hj ?]. split; [|done]. apply Hnew; [done|by left].
    + cbn. rewrite lookup_insert_ne; [done|]. intros Heq. rewrite <- Heq in Hj. rewrite config_fresh in Hj by done. done.
  - assert (∀ q a, write_symbol q (ad_symbols d !! sq_input_symbol q) = inl a → symbol_key (sq_input_symbol q) ∈ holds rj →
      write_symbol q (ad_symbols (commit (symbol_commit p after ev) d) !! sq_input_symbol q) = inl a) as Hsym.
    { intros q a Hq Hin. cbn. rewrite lookup_partial_alter_ne; [done|]. intros Heq. destruct (Hlk (symbol_key (sq_input_symbol p))); [by left|by rewrite Heq]. }
    assert (∀ b, trail "bot_config" b (commit (symbol_commit p after ev) d) = trail "bot_config" b d) as Ht.
    { intros b. erewrite trail_other; [done|done|apply Hev|by left]. }
    destruct rj; cbn [knows] in *; unfold new_version, versions in *; rewrite ?Ht; try done.
    + apply Hsym; [done|by left].
    + destruct Hj as [Hj ?]. split; [|done]. apply Hsym; [done|by left].
  - assert (∀ b, trail "bot_config" b (commit (run_commit p id row ev) d) = trail "bot_config" b d) as Ht.
    { intros b. erewrite trail_other; [done|done|exact (conj Hr Hev)|by left]. }
    destruct rj; cbn [knows] in *; unfold new_version, versions in *; by rewrite ?Ht.
Qed.

(** The committed tables after a commit, whichever transaction it is. *)
Lemma linear_commits r d b : (∀ b, linear b d) → knows r d → linear b (commit r d).
Proof.
  intros Hlin Hr. destruct r; try apply Hlin.
  - destruct (decide (b = ar_bot_id p)) as [->|Hne]; [by apply linear_commit|]. apply (linear_same b d); [done|..].
    + erewrite trail_other; [done|done|apply Hr|by right].
    + intros v. cbn. rewrite lookup_insert_ne by congruence. done.
    + cbn. by rewrite lookup_alter_ne by done.
  - apply (linear_same b d); [done| |done..]. erewrite trail_other; [done|done|apply Hr|by left].
  - apply (linear_same b d); [done| |done..]. erewrite trail_other; [done|done|exact Hr|by left].
Qed.
Lemma explained_commits r d s k : explained k s (trail "symbol_map" k d) (ad_symbols d !! k) → knows r d →
  explained k s (trail "symbol_map" k (commit r d)) (ad_symbols (commit r d) !! k).
Proof.
  intros He Hr. destruct r; try exact He.
  - erewrite trail_other; [exact He|done|apply Hr|by left].
  - destruct Hr as (Hw & Hab & Hact & Hat & Haf). destruct (decide (k = sq_input_symbol p)) as [->|Hne].
    + rewrite (trail_snoc _ _ d (commit (symbol_commit p after ev) d) ev eq_refl), decide_True by done. cbn. rewrite lookup_partial_alter_eq. by eapply explained_snoc.
    + erewrite trail_other; [|done|exact Hab|by right]. cbn. by rewrite lookup_partial_alter_ne.
  - erewrite trail_other; [exact He|done|exact Hr|by left].
Qed.
Definition answers (r a : request) : Prop := a = answered_error 500 ∨ a = match r with
  | apply_commit _ row _ => answered_config row | symbol_commit _ after _ => answered_symbol after | run_commit _ id _ _ => answered_run id | _ => answered_error 500 end.
Lemma inv_commit d0 c c' i r a : admin_inv d0 c → as_requests c !! i = Some r → answers r a → as_db c' = commit r (as_db c) → as_requests c' = <[i := a]> (as_requests c) →
  admin_inv d0 c'.
Proof.
  intros Hinv Hi Ha Hd Hr. pose proof (ai_knows _ _ Hinv i r Hi) as Hk.
  assert (∀ j rj, j ≠ i → as_requests c !! j = Some rj → knows rj (commit r (as_db c))) as Hothers.
  { intros j rj Hj Hrj. apply knows_commit; [apply (ai_linear _ _ Hinv)|done|by eapply ai_knows|]. intros l Hl Hl'. apply Hj. by eapply (ai_locks _ _ Hinv). }
  assert (∀ row, a = answered_config row → ∃ p ev, r = apply_commit p row ev) as Hans.
  { intros row ->. destruct Ha as [?|Ha]; [done|]. destruct r; try done. injection Ha as ->. by eexists _, _. }
  assert (knows a (commit r (as_db c))) as Hka.
  { destruct Ha as [->| ->]; [done|]. destruct r; try done. cbn. destruct Hk as [(Hb & _) _]. by rewrite Hb, lookup_insert_eq. }
  assert (holds a = []) as Hh by (destruct Ha as [->| ->]; [done|]; by destruct r).
  assert (∀ j row rj, a = answered_config row → j ≠ i → as_requests c !! j = Some (answered_config rj) → cf_bot_id row = cf_bot_id rj → cf_version row = cf_version rj → False) as Hnew.
  { intros j row rj Hrow Hj Hrj Hb Hv. destruct (Hans row Hrow) as (p & ev & ->). destruct Hk as [Hk _]. pose proof (ai_knows _ _ Hinv j _ Hrj) as Hin. cbn in Hin.
    pose proof (config_fresh p row _ (ai_linear _ _ Hinv _) Hk) as Hfresh. destruct Hk as (Hpb & _). rewrite <- Hb, <- Hv, Hpb in Hin. congruence. }
  split.
  - intros b. rewrite Hd. apply linear_commits; [apply (ai_linear _ _ Hinv)|done].
  - intros k. rewrite Hd. apply explained_commits; [apply (ai_explained _ _ Hinv)|done].
  - intros j rj. rewrite Hd, Hr. destruct (decide (j = i)) as [->|]; [rewrite lookup_insert_eq; by intros [= <-]|rewrite lookup_insert_ne by done; by apply Hothers].
  - intros j1 j2 r1 r2 l. rewrite Hr. destruct (decide (j1 = i)) as [->|]; [rewrite lookup_insert_eq; intros [= <-]; rewrite Hh; by intros _ []%elem_of_nil|].
    destruct (decide (j2 = i)) as [->|]; [rewrite (lookup_insert_eq _ i); intros _ [= <-]; rewrite Hh; by intros _ []%elem_of_nil|].
    rewrite !lookup_insert_ne by done. apply (ai_locks _ _ Hinv).
  - intros j1 j2 r1 r2. rewrite Hr. destruct (decide (j1 = i)) as [->|], (decide (j2 = i)) as [->|]; rewrite ?lookup_insert_eq, ?lookup_insert_ne by done; [done|..].
    + intros [= H1] H2 Hb Hv. by destruct (Hnew j2 r1 r2).
    + intros H1 [= H2] Hb Hv. by destruct (Hnew j1 r2 r1).
    + apply (ai_answers _ _ Hinv).
Qed.

(** ** Every step *)
Lemma max_version_spec b d : (∀ b, linear b d) → select_max_bot_config_version b d = versions b d.
Proof.
  intros Hlin. assert (∀ v, v ∈ (cf_version <$> configs_of b d) ↔ 1 <= v <= versions b d) as Hin.
  { intros v. rewrite <- (proj1 (Hlin b) v), list_elem_of_fmap. split.
    - intros (row & -> & [Hb [[b' v'] Hk]]%configs_of_elem). destruct (proj1 (proj2 (Hlin b')) v' row Hk) as (Hb' & Hv' & _). rewrite Hv', <- Hb, Hb'. by eexists.
    - intros [row Hk]. destruct (proj1 (proj2 (Hlin b)) v row Hk) as (Hb' & Hv' & _). exists row. split; [done|]. apply configs_of_elem. split; [done|]. by eexists. }
  unfold select_max_bot_config_version. destruct (cf_version <$> configs_of b d) as [|v vs] eqn:E.
  - assert (¬ 1 <= versions b d <= versions b d) as Hno by (rewrite <- Hin; by intros ?%elem_of_nil). unfold versions in *. lia.
  - destruct (foldl_max_spec v vs) as [H1 H2]. apply Hin in H2. assert (versions b d <= foldl Z.max v vs) by (apply H1, Hin; lia). lia.
Qed.
Ltac keep_idle i := eapply (inv_set_idle _ _ _ i); [eassumption|reflexivity|reflexivity| |reflexivity|done].
Lemma writes_seen_row p s after b : write_symbol p s = inl after → b || sees_no_row p s = true → b = true.
Proof. unfold write_symbol, sees_no_row. destruct b, (sq_op p), s; try done. Qed.
Lemma inv_advance d0 c i c' : admin_inv d0 c → run_statement i c = Some c' → admin_inv d0 c'.
Proof.
  intros Hinv E. unfold advance in E. destruct (as_requests c !! i) as [r|] eqn:Hi; [|done]. pose proof (ai_knows _ _ Hinv i r Hi) as Hk. pose proof (ai_linear _ _ Hinv) as Hlin.
  destruct r; try done.
  - injection E as <-. by keep_idle i.
  - injection E as <-. keep_idle i. cbn. rewrite max_version_spec by done. unfold versions. lia.
  - destruct (is_free _ i c) eqn:Hf; [|done]. cbn in Hk. destruct (ad_configs (as_db c) !! _) eqn:Hc; [injection E as <-; by keep_idle i|].
    destruct (ad_bots (as_db c) !! _) eqn:Hb; injection E as <-; [|by keep_idle i]. eapply (inv_set _ _ _ i); [done..| | |done].
    + cbn. unfold new_version. cbn. split_and!; [done| |by eexists]. pose proof (proj1 (Hlin (ar_bot_id p)) next_version) as Hv. rewrite Hc in Hv.
      assert (¬ 1 <= next_version <= versions (ar_bot_id p) (as_db c)) as Hno by (rewrite <- Hv; by intros [? ?]). lia.
    + cbn. intros l j rj ->%list_elem_of_singleton Hj Hrj. by eapply is_free_spec.
  - destruct (is_free _ i c) eqn:Hf; [|done]. destruct (ad_bots (as_db c) !! _) eqn:Hb; injection E as <-; [|by keep_idle i]. eapply (inv_set _ _ _ i); [done..| | |done].
    + done.
    + cbn. intros l j rj [->|[->|[]%elem_of_nil]%elem_of_cons]%elem_of_cons Hj Hrj; [|by eapply is_free_spec].
      intros Hin. apply Hj. eapply (ai_locks _ _ Hinv); [done..|]. cbn. left.
  - injection E as <-. eapply (inv_set_keep _ _ _ i); [done..| |done|done]. cbn. by split_and!.
  - injection E as <-. eapply (inv_commit _ _ _ i); [done..|by right|done|done].
  - destruct (select_symbol_map_entry _ _); injection E as <-; by keep_idle i.
  - destruct (_ || _) eqn:Hf; [|done]. destruct (write_symbol _ _) as [after|status] eqn:Hw; injection E as <-; [|by keep_idle i].
    apply (writes_seen_row _ _ _ _ Hw) in Hf.
    eapply (inv_set _ _ _ i); [done..| |done]. cbn. intros l j rj ->%list_elem_of_singleton Hj Hrj. by eapply is_free_spec.
  - injection E as <-. eapply (inv_set_keep _ _ _ i); [done..| |done|done]. cbn. by split_and!.
  - injection E as <-. eapply (inv_commit _ _ _ i); [done..|by right|done|done].
  - destruct (select_bot_by_id _ _) as [[b|]|e]; injection E as <-; by keep_idle i.
  - injection E as <-. by keep_idle i.
  - injection E as <-. by keep_idle i.
  - injection E as <-. eapply (inv_commit _ _ _ i); [done..|by right|done|done].
Qed.
Lemma inv_admin_step d0 c c' : admin_inv d0 c → step c c' → admin_inv d0 c'.
Proof.
  intros Hinv Hs. destruct Hs as [c i p Hi|c i p Hi|c i p Hi|c i c' Hi|c i r Hi Ho|c i r Hi Ho].
  - unfold apply_bot_config. destruct (load_bot_config _) as [[b v]|e]; [destruct (b =? _)%string|]; by keep_idle i.
  - unfold symbol_map_endpoint. destruct (sq_op p); by keep_idle i.
  - unfold trigger_backtest_run. destruct (_ <=? _); [by keep_idle i|]. destruct (load_bot_config _) as [[b v]|e]; [destruct (b =? _)%string|]; by keep_idle i.
  - by eapply inv_advance.
  - by keep_idle i.
  - eapply (inv_commit _ _ _ i); [done..|by left|done|done].
Qed.
(** The tables to start with: any bots, symbols and runs, no applied version. *)
Definition fresh (d : admin_db) : Prop := ad_configs d = ∅ ∧ ad_audit d = [].
Lemma inv_start d n m k : fresh d → admin_inv d (mkAdminState d ∅ n m k).
Proof.
  intros [Hc Ha]. assert (∀ t e, trail t e d = []) as Ht by (intros t e; unfold trail; by rewrite Ha). split; cbn.
  - intros b. unfold linear, versions. rewrite Ht, Hc. cbn. split_and!.
    + intros v. rewrite lookup_empty. split; [by intros [? ?]|lia].
    + intros v row. by rewrite lookup_empty.
    + intros row. by rewrite lookup_empty.
  - intros s. rewrite Ht. constructor.
  - intros i r. by rewrite lookup_empty.
  - intros i j ri rj l. by rewrite lookup_empty.
  - intros i j ri rj. by rewrite lookup_empty.
Qed.
Lemma inv_reachable d n m k c : fresh d → admin_run load_bot_config sha256_hex show_time (mkAdminState d ∅ n m k) c → admin_inv d c.
Proof.
  intros Hf Hrun. pose proof (inv_start d n m k Hf) as Hinv. revert Hinv. generalize (mkAdminState d ∅ n m k) Hrun. clear Hrun. intros c0 Hrun.
  induction Hrun as [|c1 c2 c3 Hs _ IH]; [done|]. intros Hinv. by apply IH, (inv_admin_step _ c1).
Qed.

(** C31: the history of a bot's configuration is linear: however the requests of
    the control plane interleave and whichever connection is lost, the versions
    of a bot are exactly 1 to n, with n audit events that hold their states in
    order; its row in bots names the hash and the time of version n; a request
    that was answered with a version owns it, and the version is stored as
    answered. *)
Theorem config_history_is_linear d n m k c : fresh d → admin_run load_bot_config sha256_hex show_time (mkAdminState d ∅ n m k) c →
  (∀ b, linear b (as_db c)) ∧
  (∀ i row, as_requests c !! i = Some (answered_config row) → ad_configs (as_db c) !! (cf_bot_id row, cf_version row) = Some row) ∧
  (∀ i j ri rj, as_requests c !! i = Some (answered_config ri) → as_requests c !! j = Some (answered_config rj) →
     cf_bot_id ri = cf_bot_id rj → cf_version ri = cf_version rj → i = j).
Proof.
  intros Hf Hrun. pose proof (inv_reachable _ _ _ _ _ Hf Hrun) as [Hl _ Hk _ Ha]. split_and!; [done| |done]. intros i row Hi. exact (Hk i _ Hi).
Qed.

(** C35: the audit trail explains the symbol map: however the requests of the
    control plane interleave and whichever connection is lost, the row of every
    symbol is what its audited requests, executed one after the other in the
    order of the trail, make of the row it started with; in particular no write
    is without its event and no event without its write. *)
Theorem audit_explains_symbol_map d n m k c : fresh d → admin_run load_bot_config sha256_hex show_time (mkAdminState d ∅ n m k) c →
  ∀ s, explained s (ad_symbols d !! s) (trail "symbol_map" s (as_db c)) (ad_symbols (as_db c) !! s).
Proof. intros Hf Hrun. apply (ai_explained _ _ (inv_reachable _ _ _ _ _ Hf Hrun)). Qed.
End facts.

(** ** Concrete runs *)
Definition parse_any (text : string) : res (string * Z) := Ok ("alpha", 1).
Definition same_text (text : string) : string := text.
Definition no_time (t : Z) : string := "t".
Definition one_bot : admin_db :=
  mkAdminDb {["alpha" := mkBotsTableRow "Alpha" 0 "active" "paper" "" 0 (JObj [])]} ∅ {["BTCUSDT.P" := mkSymbolMap "BTCUSDT.P" "BTCUSDT" BINANCE None 0 0]} ∅ [].
Definition lan (h : string) : caller := mkCaller (Some h) None.
Definition apply_text (text : string) (t : Z) : apply_request := mkApply "alpha" text "operator" None t (lan "10.0.0.1").
(** The requests in the order in which they run their next statement. *)
Fixpoint schedule (is_ : list nat) (c : admin_state) : option admin_state :=
  match is_ with [] => Some c | i :: is' => c' ← advance same_text no_time i c; schedule is' c' end.
Lemma schedule_run load is_ c c' : schedule is_ c = Some c' → admin_run load same_text no_time c c'.
Proof.
  revert c. induction is_ as [|i is_ IH]; intros c; [by intros [= ->]; apply rtc_refl|]. cbn. destruct (advance _ _ i c) as [c1|] eqn:E; [|done].
  intros H. apply rtc_l with c1; [by apply (step_advance _ _ _ _ i)|by apply IH].
Qed.
Definition two_applies : admin_state :=
  mkAdminState one_bot {[0%nat := apply_current (apply_text "a" 1); 1%nat := apply_current (apply_text "b" 2)]} 1 1 1.
Lemma two_applies_run : admin_run parse_any same_text no_time (mkAdminState one_bot ∅ 1 1 1) two_applies.
Proof.
  unfold admin_run. eapply rtc_l; [apply (step_apply _ _ _ _ 1 (apply_text "b" 2)); reflexivity|]. eapply rtc_l; [apply (step_apply _ _ _ _ 0 (apply_text "a" 1)); reflexivity|].
  apply rtc_refl.
Qed.
(** The second writer waits for the first one's key and is refused. *)
Definition raced : option admin_state := schedule [0; 1; 0; 1; 0; 0; 0; 0; 1]%nat two_applies.
Lemma config_history_is_linear_witness : ∃ c, raced = Some c ∧ as_requests c !! 1%nat = Some (answered_error 409) ∧ versions "alpha" (as_db c) = 1 ∧
  ∃ row, ad_configs (as_db c) !! ("alpha", 1) = Some row ∧ cf_config_hash row = "a".
Proof.
  destruct raced as [c|] eqn:E; [|vm_compute in E; discriminate E]. exists c. split; [reflexivity|].
  assert (as_requests c !! 1%nat = Some (answered_error 409)) as H1 by (vm_compute in E; injection E as <-; reflexivity).
  assert (versions "alpha" (as_db c) = 1) as Hn by (vm_compute in E; injection E as <-; reflexivity).
  destruct (config_history_is_linear parse_any same_text no_time one_bot 1 1 1 c) as (Hl & _ & _).
  - split; reflexivity.
  - etransitivity; [apply two_applies_run|]. eapply schedule_run. exact E.
  - split; [exact H1|]. split; [exact Hn|]. destruct (proj1 (Hl "alpha") 1) as [_ Hv]. destruct Hv as [row Hrow]; [rewrite Hn; lia|]. exists row. split; [exact Hrow|].
    vm_compute in E. injection E as <-. vm_compute in Hrow. injection Hrow as <-. reflexivity.
Defined.
Definition two_edits : admin_state :=
  mkAdminState one_bot {[0%nat := symbol_read (mkSymbolRequest "BTCUSDT.P" (op_update "ETHUSDT" BYBIT None) 1 (lan "a"));
                         1%nat := symbol_read (mkSymbolRequest "BTCUSDT.P" op_delete 2 (lan "b"))]} 1 1 1.
(** Both read the row; the deletion commits first, the update finds nothing. *)
Definition edited : option admin_state := schedule [0; 1; 1; 1; 1; 0]%nat two_edits.
Lemma audit_explains_symbol_map_witness : ∃ c, edited = Some c ∧ ad_symbols (as_db c) !! "BTCUSDT.P" = None ∧ as_requests c !! 0%nat = Some (answered_error 404) ∧
  explained no_time "BTCUSDT.P" (ad_symbols one_bot !! "BTCUSDT.P") (trail "symbol_map" "BTCUSDT.P" (as_db c)) None.
Proof.
  destruct edited as [c|] eqn:E; [|vm_compute in E; discriminate E]. exists c. split; [reflexivity|].
  assert (ad_symbols (as_db c) !! "BTCUSDT.P" = None) as Hs by (vm_compute in E; injection E as <-; reflexivity). split; [exact Hs|].
  split; [vm_compute in E; injection E as <-; reflexivity|]. rewrite <- Hs.
  apply (audit_explains_symbol_map parse_any same_text no_time one_bot 1 1 1 c); [split; reflexivity|].
  etransitivity; [|eapply schedule_run; exact E].
  eapply rtc_l; [apply (step_symbol _ _ _ _ 1 (mkSymbolRequest "BTCUSDT.P" op_delete 2 (lan "b"))); reflexivity|].
  eapply rtc_l; [apply (step_symbol _ _ _ _ 0 (mkSymbolRequest "BTCUSDT.P" (op_update "ETHUSDT" BYBIT None) 1 (lan "a"))); reflexivity|]. apply rtc_refl.
Defined.
(** A race makes the trail lie about what was replaced: the first request reads
    the current version, none, the second one applies version 1, and the first
    one then applies version 2 with an event that says there was none before. *)
Lemma stale_before_state : ∃ c ev1 ev2, schedule [0; 1; 1; 1; 1; 1; 1; 0; 0; 0; 0; 0]%nat two_applies = Some c ∧
  trail "bot_config" "alpha" (as_db c) = [ev1; ev2] ∧ is_Some (au_after_state ev1) ∧ au_before_state ev2 = None.
Proof.
  destruct (schedule _ _) as [c|] eqn:E; [|vm_compute in E; discriminate E]. vm_compute in E. injection E as <-. eexists _, _, _. split; [reflexivity|].
  split; [vm_compute; reflexivity|]. split; [by eexists|reflexivity].
Qed.
