(* ===== verification/Reads.v ===== *)
(** * The reading endpoints: filters, pages and totals

    Models the list statements of packages/db/queries/analytics.py with the WHERE
    clauses they build, and the endpoints of services/analytics_api/app/routers/
    {trades,paper_trades,signals,features,audit,backtests,positions,scoring,
    shadow_rejected}.py that serve them.

    A clause is kept as the builder makes it: predicates that name a column, an
    operator and a placeholder, beside the arguments to bind.  A row is what its
    columns say, NULL as [None].  PostgreSQL may return rows that ORDER BY leaves
    tied in any order, another one at every request: [answer_of] has every
    admissible page, [fetch] is one of them.  Texts are ASCII and ordered by
    code point. *)

From S2P Require Import Prelude Json Dec Float64 PyNum Sizing PaperDb RiskGates Scoring Consumer ExecDb Exchange Gateway Shadow Analytics Backtest Admin.
From Stdlib Require Import Ascii.
From stdpp Require Import sorting gmap pretty strings.
Open Scope Z_scope.

(** ** LIKE *)
Fixpoint like (p : list ascii) : list ascii → bool :=
  match p with
  | [] => fun s => match s with [] => true | _ => false end
  | c :: p' =>
      if bool_decide (c = "%"%char) then
        fix any (s : list ascii) : bool := like p' s || match s with [] => false | _ :: s' => any s' end
      else if bool_decide (c = "_"%char) then fun s => match s with [] => false | _ :: s' => like p' s' end
      else if bool_decide (c = "\"%char) then
        match p' with
        | [] => fun _ => false
        | c' :: p'' => fun s => match s with [] => false | x :: s' => bool_decide (x = c') && like p'' s' end
        end
      else fun s => match s with [] => false | x :: s' => bool_decide (x = c) && like p' s' end
  end.
Definition text_like (s pattern : string) : bool := like (String.list_ascii_of_string pattern) (String.list_ascii_of_string s).

(** ** Clauses *)
Inductive sql_value := SqlText (s : string) | SqlTime (t : Z) | SqlInt (z : Z).
Inductive sql_op := cmp_eq | cmp_ge | cmp_lt | cmp_like.
Record predicate := mkPredicate { pr_column : string; pr_op : sql_op; pr_placeholder : nat }.
Abbreviation clause := (list predicate * list sql_value)%type.
(** [if value is not None: bind_args.append(value); predicates.append(f"{column} {op} ${len(bind_args)}")]. *)
Definition add_filter (column : string) (op : sql_op) (value : option sql_value) (c : clause) : clause :=
  match value with
  | None => c
  | Some v => let bind_args := c.2 ++ [v] in (c.1 ++ [mkPredicate column op (length bind_args)], bind_args)
  end.
Definition no_filter : clause := ([], []).
Definition op_text (op : sql_op) : string := match op with cmp_eq => "=" | cmp_ge => ">=" | cmp_lt => "<" | cmp_like => "LIKE" end.
Definition predicate_text (p : predicate) : string := pr_column p +:+ " " +:+ op_text (pr_op p) +:+ " $" +:+ pretty (pr_placeholder p).
Definition clause_text (c : clause) : string :=
  match c.1 with [] => "" | ps => "WHERE " +:+ String.concat " AND " (predicate_text <$> ps) end.

(** ** What a clause selects *)
Definition sql_compare (op : sql_op) (x v : sql_value) : bool :=
  match op, x, v with
  | cmp_eq, SqlText a, SqlText b => (a =? b)%string
  | cmp_eq, SqlTime a, SqlTime b | cmp_eq, SqlInt a, SqlInt b => a =? b
  | cmp_ge, SqlTime a, SqlTime b | cmp_ge, SqlInt a, SqlInt b => b <=? a
  | cmp_lt, SqlTime a, SqlTime b | cmp_lt, SqlInt a, SqlInt b => a <? b
  | cmp_like, SqlText a, SqlText b => text_like a b
  | _, _, _ => false
  end.
Definition bound_value (args : list sql_value) (placeholder : nat) : option sql_value :=
  match placeholder with O => None | S n => args !! n end.
Definition satisfies (column : string → option sql_value) (args : list sql_value) (p : predicate) : bool :=
  compares (bound_value args (pr_placeholder p)) (fun v => compares (column (pr_column p)) (fun x => sql_compare (pr_op p) x v)).
Definition selects {R} (column : R → string → option sql_value) (c : clause) (r : R) : bool := forallb (satisfies (column r) c.2) c.1.

(** ** Pages *)
Record query := mkQuery { q_where : list predicate; q_limit : nat; q_offset : nat; q_args : list sql_value }.
(** [LIMIT ${len(where_args) + 1} OFFSET ${len(where_args) + 2}], with [limit] and [offset] bound last. *)
Definition paged (c : clause) (limit offset : Z) : query :=
  mkQuery c.1 (length c.2 + 1) (length c.2 + 2) (c.2 ++ [SqlInt limit; SqlInt offset]).
Definition bound_int (args : list sql_value) (placeholder : nat) : option Z :=
  v ← bound_value args placeholder; match v with SqlInt z => Some z | _ => None end.
Definition slice {R} (q : query) (l : list R) : option (list R) :=
  limit ← bound_int (q_args q) (q_limit q);
  offset ← bound_int (q_args q) (q_offset q);
  Some (take (Z.to_nat limit) (drop (Z.to_nat offset) l)).
Inductive answer_of {R} (column : R → string → option sql_value) (order : relation R) (q : query) (table : list R) : list R → Prop :=
| an_answer l page : l ≡ₚ filter (fun r => selects column (q_where q, q_args q) r = true) table → StronglySorted order l → slice q l = Some page →
    answer_of column order q table page.
Definition fetch {R} (column : R → string → option sql_value) (order : relation R) `{!RelDecision order} (q : query) (table : list R) : res (list R) :=
  match slice q (merge_sort order (filter (fun r => selects column (q_where q, q_args q) r = true) table)) with
  | Some l => Ok l
  | None => Err (RuntimeError "there is no such parameter")
  end.
Definition count {R} (column : R → string → option sql_value) (c : clause) (table : list R) : Z :=
  Z.of_nat (length (filter (fun r => selects column c r = true) table)).

(** [Query(ge=1, le=max)] and [Query(ge=0)], the page and the total. *)
Record listing_response (R : Type) := mkListing { ls_rows : list R; ls_total : Z; ls_limit : Z; ls_offset : Z }.
Arguments mkListing {R}. Arguments ls_rows {R}. Arguments ls_total {R}. Arguments ls_limit {R}. Arguments ls_offset {R}.
Definition list_rows {R} (max limit offset : Z) (rows : res (list R)) (total : Z) : res (listing_response R) :=
  if (1 <=? limit) && (limit <=? max) && (0 <=? offset) then l ← rows; Ok (mkListing l total limit offset) else Err (HTTPException 422).

(** The order of rows by what [f] reads of them. *)
Definition by_key {A B} (order : relation B) (f : A → B) : relation A := fun a b => order (f a) (f b).
#[global] Instance by_key_dec {A B} (order : relation B) (f : A → B) `{!RelDecision order} : RelDecision (by_key order f).
Proof. intros a b. unfold by_key. apply _. Defined.
(** A list endpoint: its filters, the clause they make, the columns and the order. *)
Class Listing (F R : Type) := {
  where_clause : F → clause;
  column_of : R → string → option sql_value;
  listed_before : relation R;
  #[global] listed_before_dec :: RelDecision listed_before;
}.
Definition select_paginated {F R} `{Listing F R} (f : F) (limit offset : Z) (table : list R) : res (list R) :=
  fetch column_of listed_before (paged (where_clause f) limit offset) table.
Definition count_rows {F R} `{Listing F R} (f : F) (table : list R) : Z := count column_of (where_clause f) table.

(** ** /api/trades and /api/paper-trades *)
Inductive TradeStatus := OPEN | CLOSED | ERROR.
Definition TradeStatus_value (s : TradeStatus) : string := match s with OPEN => "open" | CLOSED => "closed" | ERROR => "error" end.
Definition status_column (s : trade_status) : string := match s with st_open => "open" | st_closed => "closed" end.
Record trades_filter := mkTradesFilter {
  tf_bot_id : option string; tf_symbol : option string; tf_status : option TradeStatus; tf_from_at : option Z; tf_to_at : option Z;
}.
Definition build_trades_where_clause (f : trades_filter) : clause :=
  add_filter "closed_at" cmp_lt (SqlTime <$> tf_to_at f) (add_filter "closed_at" cmp_ge (SqlTime <$> tf_from_at f)
    (add_filter "status" cmp_eq ((fun s => SqlText (TradeStatus_value s)) <$> tf_status f) (add_filter "symbol" cmp_eq (SqlText <$> tf_symbol f)
      (add_filter "bot_id" cmp_eq (SqlText <$> tf_bot_id f) no_filter)))).
(** The columns the clause names and the id, of either table. *)
Definition trade_columns (id : Z) (bot_id symbol : string) (status : trade_status) (closed_at : option Z) (name : string) : option sql_value :=
  if (name =? "id")%string then Some (SqlInt id) else if (name =? "bot_id")%string then Some (SqlText bot_id)
  else if (name =? "symbol")%string then Some (SqlText symbol) else if (name =? "status")%string then Some (SqlText (status_column status))
  else if (name =? "closed_at")%string then SqlTime <$> closed_at else None.
(** ORDER BY closed_at DESC NULLS FIRST, id DESC. *)
Definition latest_close_first (a b : Z * option Z) : Prop :=
  match a.2, b.2 with
  | None, None => b.1 <= a.1
  | None, Some _ => True
  | Some _, None => False
  | Some x, Some y => y < x ∨ x = y ∧ b.1 <= a.1
  end.
#[global] Instance latest_close_first_dec : RelDecision latest_close_first.
Proof. intros [i [x|]] [j [y|]]; unfold latest_close_first; cbn; apply _. Defined.
#[global] Instance trades_listing : Listing trades_filter (Z * live_trade) := {|
  where_clause := build_trades_where_clause;
  column_of r := trade_columns r.1 (trd_bot_id r.2) (trd_symbol r.2) (trd_status r.2) (trd_closed_at r.2);
  listed_before := by_key latest_close_first (fun r => (r.1, trd_closed_at r.2)) |}.
Definition select_trades_paginated (f : trades_filter) (limit offset : Z) (d : live_db) : res (list (Z * live_trade)) :=
  select_paginated f limit offset (map_to_list (trades d)).
Definition count_trades (f : trades_filter) (d : live_db) : Z := count_rows f (map_to_list (trades d)).
Definition list_trades (limit offset : Z) (f : trades_filter) (d : live_db) : res (listing_response (Z * live_trade)) :=
  list_rows 200 limit offset (select_trades_paginated f limit offset d) (count_trades f d).
Definition get_trade (id : Z) (d : live_db) : res live_trade := found (trades d !! id).
Definition build_paper_trades_where_clause : trades_filter → clause := build_trades_where_clause.
#[global] Instance paper_trades_listing : Listing trades_filter (Z * paper_trade) := {|
  where_clause := build_paper_trades_where_clause;
  column_of r := trade_columns r.1 (pt_bot_id r.2) (pt_symbol r.2) (pt_status r.2) (pt_closed_at r.2);
  listed_before := by_key latest_close_first (fun r => (r.1, pt_closed_at r.2)) |}.
Definition select_paper_trades_paginated (f : trades_filter) (limit offset : Z) (d : PaperDb.db) : res (list (Z * paper_trade)) :=
  select_paginated f limit offset (map_to_list (paper_trades d)).
Definition count_paper_trades (f : trades_filter) (d : PaperDb.db) : Z := count_rows f (map_to_list (paper_trades d)).
Definition list_paper_trades (limit offset : Z) (f : trades_filter) (d : PaperDb.db) : res (listing_response (Z * paper_trade)) :=
  list_rows 200 limit offset (select_paper_trades_paginated f limit offset d) (count_paper_trades f d).
Definition get_paper_trade (id : Z) (d : PaperDb.db) : res paper_trade := found (paper_trades d !! id).

(** ** /api/signals *)
Definition ingestion_text (s : ingestion_status) : string := match s with st_validated => "validated" | st_invalid => "invalid" | st_duplicate => "duplicate" end.
Record signals_filter := mkSignalsFilter {
  sf_source : option string; sf_symbol : option string; sf_action : option string; sf_ingestion_status : option ingestion_status;
  sf_from_at : option Z; sf_to_at : option Z;
}.
Definition build_signals_where_clause (f : signals_filter) : clause :=
  add_filter "received_at" cmp_lt (SqlTime <$> sf_to_at f) (add_filter "received_at" cmp_ge (SqlTime <$> sf_from_at f)
    (add_filter "ingestion_status" cmp_eq ((fun s => SqlText (ingestion_text s)) <$> sf_ingestion_status f)
      (add_filter "action" cmp_eq (SqlText <$> sf_action f) (add_filter "symbol" cmp_eq (SqlText <$> sf_symbol f)
        (add_filter "source" cmp_eq (SqlText <$> sf_source f) no_filter))))).
Definition signal_column (r : Gateway.signal_row) (name : string) : option sql_value :=
  if (name =? "id")%string then Some (SqlInt (sr_id r)) else if (name =? "source")%string then Some (SqlText (sr_source r))
  else if (name =? "symbol")%string then Some (SqlText (sr_symbol r)) else if (name =? "action")%string then Some (SqlText (sr_action r))
  else if (name =? "ingestion_status")%string then Some (SqlText (ingestion_text (sr_status r)))
  else if (name =? "received_at")%string then Some (SqlTime (sr_received_at r)) else None.
(** ORDER BY a time DESC, id DESC. *)
Definition latest_first (a b : Z * Z) : Prop := b.1 < a.1 ∨ a.1 = b.1 ∧ b.2 <= a.2.
#[global] Instance latest_first_dec : RelDecision latest_first.
Proof. intros a b. unfold latest_first. apply _. Defined.
#[global] Instance signals_listing : Listing signals_filter Gateway.signal_row := {|
  where_clause := build_signals_where_clause; column_of := signal_column;
  listed_before := by_key latest_first (fun r => (sr_received_at r, sr_id r)) |}.
Definition select_signals_paginated (f : signals_filter) (limit offset : Z) (table : list Gateway.signal_row) : res (list Gateway.signal_row) := select_paginated f limit offset table.
Definition count_signals (f : signals_filter) (table : list Gateway.signal_row) : Z := count_rows f table.
Definition list_signals (limit offset : Z) (f : signals_filter) (table : list Gateway.signal_row) : res (listing_response Gateway.signal_row) :=
  list_rows 200 limit offset (select_signals_paginated f limit offset table) (count_signals f table).
(** By id alone: any row that has it. *)
Definition get_signal (id : Z) (table : list Gateway.signal_row) : res Gateway.signal_row := found (List.find (fun r => sr_id r =? id) table).

(** ** /api/audit *)
Record audit_filter := mkAuditFilter {
  af_entity_type : option string; af_entity_id : option string; af_actor : option string; af_action_prefix : option string;
  af_from_at : option Z; af_to_at : option Z;
}.
Definition build_audit_where_clause (f : audit_filter) : clause :=
  add_filter "occurred_at" cmp_lt (SqlTime <$> af_to_at f) (add_filter "occurred_at" cmp_ge (SqlTime <$> af_from_at f)
    (add_filter "action" cmp_like ((fun p => SqlText (p +:+ "%")) <$> af_action_prefix f) (add_filter "actor" cmp_eq (SqlText <$> af_actor f)
      (add_filter "entity_id" cmp_eq (SqlText <$> af_entity_id f) (add_filter "entity_type" cmp_eq (SqlText <$> af_entity_type f) no_filter))))).
Definition audit_column (r : AuditEventRow) (name : string) : option sql_value :=
  if (name =? "id")%string then Some (SqlInt (au_id r)) else if (name =? "entity_type")%string then Some (SqlText (au_entity_type r))
  else if (name =? "entity_id")%string then Some (SqlText (au_entity_id r)) else if (name =? "actor")%string then Some (SqlText (au_actor r))
  else if (name =? "action")%string then Some (SqlText (au_action r)) else if (name =? "occurred_at")%string then Some (SqlTime (au_occurred_at r)) else None.
#[global] Instance audit_listing : Listing audit_filter AuditEventRow := {|
  where_clause := build_audit_where_clause; column_of := audit_column;
  listed_before := by_key latest_first (fun r => (au_occurred_at r, au_id r)) |}.
Definition select_audit_events_paginated (f : audit_filter) (limit offset : Z) (d : admin_db) : res (list AuditEventRow) := select_paginated f limit offset (ad_audit d).
Definition count_audit_events (f : audit_filter) (d : admin_db) : Z := count_rows f (ad_audit d).
Definition list_audit_events (limit offset : Z) (f : audit_filter) (d : admin_db) : res (listing_response AuditEventRow) :=
  list_rows 200 limit offset (select_audit_events_paginated f limit offset d) (count_audit_events f d).
Definition get_audit_event (occurred_at id : Z) (d : admin_db) : res AuditEventRow :=
  found (List.find (fun r => (au_occurred_at r =? occurred_at) && (au_id r =? id)) (ad_audit d)).

(** ** /api/backtests *)
Definition BacktestStatus_value (s : BacktestStatus) : string :=
  match s with QUEUED => "queued" | RUNNING => "running" | COMPLETED => "completed" | FAILED => "failed" end.
Record backtests_filter := mkBacktestsFilter { bf_bot_id : option string; bf_status : option BacktestStatus; bf_from_at : option Z; bf_to_at : option Z }.
Definition build_backtests_where_clause (f : backtests_filter) : clause :=
  add_filter "started_at" cmp_lt (SqlTime <$> bf_to_at f) (add_filter "started_at" cmp_ge (SqlTime <$> bf_from_at f)
    (add_filter "status" cmp_eq ((fun s => SqlText (BacktestStatus_value s)) <$> bf_status f) (add_filter "bot_id" cmp_eq (SqlText <$> bf_bot_id f) no_filter))).
Definition backtest_column (r : Z * BacktestRunRow) (name : string) : option sql_value :=
  if (name =? "bot_id")%string then Some (SqlText (run_bot_id r.2)) else if (name =? "status")%string then Some (SqlText (BacktestStatus_value (run_status r.2)))
  else if (name =? "started_at")%string then Some (SqlTime (run_started_at r.2)) else None.
(** ORDER BY started_at DESC. *)
#[global] Instance backtests_listing : Listing backtests_filter (Z * BacktestRunRow) := {|
  where_clause := build_backtests_where_clause; column_of := backtest_column;
  listed_before := by_key Z.ge (fun r => run_started_at r.2) |}.
Definition select_backtest_runs_paginated (f : backtests_filter) (limit offset : Z) (d : bt_db) : res (list (Z * BacktestRunRow)) :=
  select_paginated f limit offset (map_to_list (runs d)).
Definition count_backtest_runs (f : backtests_filter) (d : bt_db) : Z := count_rows f (map_to_list (runs d)).
Definition list_backtest_runs (limit offset : Z) (f : backtests_filter) (d : bt_db) : res (listing_response (Z * BacktestRunRow)) :=
  list_rows 200 limit offset (select_backtest_runs_paginated f limit offset d) (count_backtest_runs f d).
(** ORDER BY opened_at ASC LIMIT $2 OFFSET $3 of one run. *)
Definition opened_before (a b : BacktestTradeRow) : Prop := bk_opened_at a <= bk_opened_at b.
#[global] Instance opened_before_dec : RelDecision opened_before.
Proof. intros a b. unfold opened_before. apply _. Defined.
Definition select_trades_by_run (run_id : Z) (limit offset : nat) (d : bt_db) : list BacktestTradeRow :=
  take limit (drop offset (merge_sort opened_before (filter (fun t => bk_run_id t = run_id) (bk_trades d)))).

(** ** /api/features *)
Record history_filter := mkHistoryFilter { hf_feature_name : string; hf_symbol : string; hf_from_at : option Z; hf_to_at : option Z }.
Definition build_features_history_where_clause (f : history_filter) : clause :=
  add_filter "computed_at" cmp_lt (SqlTime <$> hf_to_at f) (add_filter "computed_at" cmp_ge (SqlTime <$> hf_from_at f)
    ([mkPredicate "feature_name" cmp_eq 1; mkPredicate "symbol" cmp_eq 2], [SqlText (hf_feature_name f); SqlText (hf_symbol f)])).
Definition feature_column (r : feature_row) (name : string) : option sql_value :=
  if (name =? "feature_name")%string then Some (SqlText (fr_feature_name r)) else if (name =? "symbol")%string then Some (SqlText (fr_symbol r))
  else if (name =? "computed_at")%string then Some (SqlTime (fr_computed_at r)) else None.
#[global] Instance history_listing : Listing history_filter feature_row := {|
  where_clause := build_features_history_where_clause; column_of := feature_column;
  listed_before := by_key Z.ge fr_computed_at |}.
Definition select_features_history (f : history_filter) (limit offset : Z) (table : list feature_row) : res (list feature_row) := select_paginated f limit offset table.
Definition count_features_history (f : history_filter) (table : list feature_row) : Z := count_rows f table.
(** [Query(min_length=1)] on both names. *)
Definition list_feature_history (limit offset : Z) (f : history_filter) (table : list feature_row) : res (listing_response feature_row) :=
  if (hf_feature_name f =? "")%string || (hf_symbol f =? "")%string then Err (HTTPException 422) 
  else list_rows 5000 limit offset (select_features_history f limit offset table) (count_features_history f table).
(** DISTINCT ON (feature_name, symbol) ... ORDER BY feature_name, symbol, computed_at DESC. *)
Definition text_before (a b : string) : Prop := String.leb a b = true.
Definition same_feature (a b : feature_row) : Prop := fr_feature_name a = fr_feature_name b ∧ fr_symbol a = fr_symbol b.
#[global] Instance same_feature_dec a b : Decision (same_feature a b).
Proof. unfold same_feature. apply _. Defined.
Definition feature_before (a b : feature_row) : Prop :=
  if (fr_feature_name a =? fr_feature_name b)%string then
    if (fr_symbol a =? fr_symbol b)%string then fr_computed_at b <= fr_computed_at a else text_before (fr_symbol a) (fr_symbol b)
  else text_before (fr_feature_name a) (fr_feature_name b).
#[global] Instance feature_before_dec : RelDecision feature_before.
Proof. intros a b. unfold feature_before, text_before. destruct (_ =? _)%string; [destruct (_ =? _)%string|]; apply _. Defined.
Fixpoint distinct_on (l : list feature_row) : list feature_row :=
  match l with
  | [] => []
  | r :: l' => r :: filter (fun r' => ¬ same_feature r r') (distinct_on l')
  end.
Definition prefix_selects (prefix : option string) (r : feature_row) : bool :=
  match prefix with
  | None => true
  | Some p => (p =? "")%string || text_like (fr_feature_name r) (p +:+ "%")
  end.
Definition latest_features (prefix : option string) (table : list feature_row) : list feature_row :=
  distinct_on (merge_sort feature_before (filter (fun r => prefix_selects prefix r = true) table)).
Definition select_latest_features (prefix : option string) (limit offset : nat) (table : list feature_row) : list feature_row :=
  take limit (drop offset (latest_features prefix table)).
Definition count_latest_features (prefix : option string) (table : list feature_row) : Z :=
  Z.of_nat (length (remove_dups ((fun r => (fr_feature_name r, fr_symbol r)) <$> filter (fun r => prefix_selects prefix r = true) table))).
Definition list_latest_features (limit offset : Z) (prefix : option string) (table : list feature_row) : res (listing_response feature_row) :=
  list_rows 500 limit offset (Ok (select_latest_features prefix (Z.to_nat limit) (Z.to_nat offset) table)) (count_latest_features prefix table).

(** ** /api/positions, /api/scoring and the variants of a trade *)
Definition position_before (a b : (string * string) * position_state_row) : Prop :=
  if (a.1.1 =? b.1.1)%string then text_before a.1.2 b.1.2 else text_before a.1.1 b.1.1.
#[global] Instance position_before_dec : RelDecision position_before.
Proof. intros a b. unfold position_before, text_before. destruct (_ =? _)%string; apply _. Defined.
Definition select_open_positions (bot_id : option string) (d : live_db) : list ((string * string) * position_state_row) :=
  merge_sort position_before (filter (fun r => given bot_id (fun b => (r.1.1 =? b)%string) = true) (map_to_list (position_states d))).
Definition evaluation_before (a b : eval_row) : Prop := text_before (se_bot_id a) (se_bot_id b).
#[global] Instance evaluation_before_dec : RelDecision evaluation_before.
Proof. intros a b. unfold evaluation_before, text_before. apply _. Defined.
Definition select_scoring_evaluations_by_signal_id (signal_id : Z) (table : list eval_row) : list eval_row :=
  merge_sort evaluation_before (filter (fun r => se_signal_id r = signal_id) table).
Definition variant_before (a b : Z * variant_row) : Prop := text_before (vr_variant_name a.2) (vr_variant_name b.2).
#[global] Instance variant_before_dec : RelDecision variant_before.
Proof. intros a b. unfold variant_before, text_before. apply _. Defined.
#[global] Instance parent_kind_eq_dec : EqDecision parent_kind.
Proof. solve_decision. Defined.
Definition select_shadow_variants_by_parent (parent_trade_id : Z) (k : parent_kind) (d : shadow_db (F := b64)) : list (Z * variant_row) :=
  merge_sort variant_before (filter (fun r => vr_parent_trade_id r.2 = parent_trade_id ∧ vr_parent_kind r.2 = k) (map_to_list (sh_variant_rows d))).
(** /api/shadow/rejected over the statements of Shadow.v, on a pool that decodes JSONB. *)
Definition list_shadow_rejected (limit offset : Z) (q : rejected_filter) (d : shadow_db (F := b64)) : res (listing_response (Z * ShadowRejectedRow (F := b64))) :=
  list_rows 200 limit offset (Ok (select_shadow_rejected_paginated true q (Z.to_nat limit) (Z.to_nat offset) d)) (count_shadow_rejected q d).
(** /api/configs/{bot_id}/versions over the statements of Admin.v. *)
Definition list_bot_config_versions (limit offset : Z) (bot_id : string) (d : admin_db) : res (listing_response BotConfigRow) :=
  list_rows 200 limit offset (Ok (select_bot_config_versions bot_id (Z.to_nat limit) (Z.to_nat offset) d)) (count_bot_config_versions bot_id d).
