(* ===== verification/ReadFacts.v ===== *)
(** * What the reading endpoints promise

    The clauses mean the filters they were built from, pages of a list without
    ties are its consecutive pieces whatever order PostgreSQL picks, and where
    the code falls short: a prefix with an underscore matches more than its
    prefix, and the pages of the backtest list can miss a run. *)

From S2P Require Import Prelude Json Dec Float64 PyNum Sizing PaperDb RiskGates Scoring Consumer ExecDb Exchange Gateway Shadow Analytics Backtest Admin Reads.
From Stdlib Require Import Ascii.
From stdpp Require Import sorting gmap pretty strings list.
Open Scope Z_scope.

(** ** Clauses *)
(** Every placeholder is bound. *)
Definition well_bound (c : clause) : Prop := Forall (fun p => 1 <= pr_placeholder p <= length c.2)%nat c.1.
Lemma satisfies_app column args more p : (1 <= pr_placeholder p <= length args)%nat → satisfies column (args ++ more) p = satisfies column args p.
Proof.
  intros Hp. unfold satisfies. assert (bound_value (args ++ more) (pr_placeholder p) = bound_value args (pr_placeholder p)) as ->; [|done].
  unfold bound_value. destruct (pr_placeholder p) as [|n]; [lia|]. apply lookup_app_l. lia.
Qed.
Lemma selects_app {R} (column : R → string → option sql_value) (c : clause) more r : well_bound c → selects column (c.1, c.2 ++ more) r = selects column c r.
Proof.
  unfold well_bound, selects. destruct c as [ps args]. cbn. induction ps as [|p ps IH]; intros Hw; [done|]. apply Forall_cons in Hw as [Hp Hw]. cbn. by rewrite satisfies_app, IH.
Qed.
Lemma add_filter_well_bound name op v c : well_bound c → well_bound (add_filter name op v c).
Proof.
  destruct v as [v|]; [|done]. unfold well_bound, add_filter. cbn. rewrite length_app. cbn. intros Hc. apply Forall_app. split.
  - eapply Forall_impl; [exact Hc|]. cbn. lia.
  - constructor; [cbn; lia|done].
Qed.
Lemma add_filter_selects {R} (column : R → string → option sql_value) name op v c r : well_bound c →
  selects column (add_filter name op v c) r = selects column c r && given v (fun v => compares (column r name) (fun x => sql_compare op x v)).
Proof.
  intros Hc. destruct v as [v|]; cbn [given]; [|by rewrite andb_true_r]. unfold selects, add_filter. cbn. rewrite forallb_app. cbn. rewrite andb_true_r. f_equal.
  - change (selects column (c.1, c.2 ++ [v]) r = selects column c r). by apply selects_app.
  - unfold satisfies. cbn. rewrite length_app. cbn. replace (length c.2 + 1)%nat with (S (length c.2)) by lia. cbn. by rewrite list_lookup_middle.
Qed.
Create HintDb clauses.
#[export] Hint Resolve add_filter_well_bound : clauses.
Lemma no_filter_well_bound : well_bound no_filter.
Proof. constructor. Qed.
#[export] Hint Resolve no_filter_well_bound : clauses.

(** What a list endpoint means by its filters, and an order that sorts. *)
Class ListingLaws (F R : Type) `{Listing F R} := {
  admitted : F → R → bool;
  clause_well_bound f : well_bound (where_clause f);
  clause_admits f r : selects column_of (where_clause f) r = admitted f r;
  #[global] listed_before_total :: Total listed_before;
  #[global] listed_before_trans :: Transitive listed_before;
}.

(** ** Pages *)
Section pages.
Context {F R : Type} `{ListingLaws F R}.
(** No two rows the filters admit are tied. *)
Definition untied (f : F) (table : list R) : Prop :=
  ∀ a b, a ∈ table → b ∈ table → admitted f a = true → admitted f b = true → listed_before a b → listed_before b a → a = b.
Definition matching (f : F) (table : list R) : list R := filter (fun r => admitted f r = true) table.
Lemma paged_selects f limit offset r : selects column_of (q_where (paged (where_clause f) limit offset), q_args (paged (where_clause f) limit offset)) r = admitted f r.
Proof. cbn [paged q_where q_args]. rewrite selects_app by apply clause_well_bound. apply clause_admits. Qed.
Lemma paged_slice f limit offset (l : list R) : slice (paged (where_clause f) limit offset) l = Some (take (Z.to_nat limit) (drop (Z.to_nat offset) l)).
Proof.
  assert (∀ (args : list sql_value) a b, bound_int (args ++ [SqlInt a; SqlInt b]) (length args + 1) = Some a ∧ bound_int (args ++ [SqlInt a; SqlInt b]) (length args + 2) = Some b) as Hb.
  { intros args a b. unfold bound_int. replace (length args + 1)%nat with (S (length args)) by lia. replace (length args + 2)%nat with (S (length args + 1)) by lia.
    cbn [bound_value]. rewrite !lookup_app_r by lia. replace (length args - length args)%nat with 0%nat by lia. by replace (length args + 1 - length args)%nat with 1%nat by lia. }
  unfold slice. cbn [paged q_args q_limit q_offset]. destruct (Hb (where_clause f).2 limit offset) as [-> ->]. done.
Qed.
Lemma paged_filter f limit offset table :
  filter (fun r => selects column_of (q_where (paged (where_clause f) limit offset), q_args (paged (where_clause f) limit offset)) r = true) table = matching f table.
Proof. apply list_filter_iff. intros r. by rewrite paged_selects. Qed.
Lemma count_rows_spec f table : count_rows f table = Z.of_nat (length (matching f table)).
Proof. unfold count_rows, count. do 2 f_equal. apply list_filter_iff. intros r. by rewrite clause_admits. Qed.
(** The list the pages are cut from. *)
Definition whole (f : F) (table : list R) : list R := merge_sort listed_before (matching f table).
Lemma whole_sorted f table : StronglySorted listed_before (whole f table).
Proof. apply StronglySorted_merge_sort; apply _. Qed.
(** A page that was served is one PostgreSQL may answer. *)
Lemma select_paginated_answers f limit offset table :
  ∃ page, select_paginated f limit offset table = Ok page ∧ answer_of column_of listed_before (paged (where_clause f) limit offset) table page.
Proof.
  unfold select_paginated, fetch. rewrite paged_filter, paged_slice. eexists. split; [reflexivity|].
  apply (an_answer _ _ _ _ (whole f table)); [rewrite paged_filter; apply merge_sort_Permutation|apply whole_sorted|apply paged_slice].
Qed.
Lemma answer_unique f limit offset table page : untied f table → answer_of column_of listed_before (paged (where_clause f) limit offset) table page →
  page = take (Z.to_nat limit) (drop (Z.to_nat offset) (whole f table)).
Proof.
  intros Hu [l page' Hp Hs Hsl]. rewrite paged_filter in Hp. rewrite paged_slice in Hsl. injection Hsl as <-. do 2 f_equal.
  apply (StronglySorted_unique_strong listed_before); [|done|apply whole_sorted|by unfold whole; rewrite Hp, merge_sort_Permutation].
  intros a b Ha Hb. rewrite Hp in Ha. unfold whole in Hb. rewrite merge_sort_Permutation in Hb. apply list_elem_of_filter in Ha as [? ?], Hb as [? ?]. by apply Hu.
Qed.
Lemma pieces {A} (l : list A) k n : concat ((fun i => take k (drop (i * k) l)) <$> seq 0 n) = take (n * k) l.
Proof.
  induction n as [|n IH]; [done|]. rewrite seq_S, fmap_app, concat_app, IH. cbn. rewrite app_nil_r. replace (k + n * k)%nat with (n * k + k)%nat by lia. by rewrite take_take_drop.
Qed.

(** The pages of a list partition what its filters admit: for a list endpoint
    whose clause means its filters and whose order leaves no admitted rows tied,
    the pages at offsets 0, limit, 2 limit, ..., each any answer PostgreSQL may
    give, together are exactly the rows of the table that the filters admit, in
    order and none twice or missing, once they reach the reported total; no page
    is longer than the limit. *)
Lemma pages_partition_list f table limit n pages : 0 < limit → untied f table →
  (∀ i, (i < n)%nat → answer_of column_of listed_before (paged (where_clause f) limit (Z.of_nat i * limit)) table (pages i)) →
  count_rows f table <= Z.of_nat n * limit →
  concat (pages <$> seq 0 n) ≡ₚ filter (fun r => admitted f r = true) table ∧ StronglySorted listed_before (concat (pages <$> seq 0 n)) ∧
  count_rows f table = Z.of_nat (length (concat (pages <$> seq 0 n))) ∧ ∀ i, (i < n)%nat → Z.of_nat (length (pages i)) <= limit.
Proof.
  intros Hl Hu Hp Hn. assert (∀ i, (i < n)%nat → pages i = take (Z.to_nat limit) (drop (i * Z.to_nat limit) (whole f table))) as Hpage.
  { intros i Hi. rewrite (answer_unique f _ _ _ _ Hu (Hp i Hi)). do 2 f_equal. lia. }
  assert (concat (pages <$> seq 0 n) = whole f table) as Hall.
  { transitivity (concat ((fun i => take (Z.to_nat limit) (drop (i * Z.to_nat limit) (whole f table))) <$> seq 0 n)).
    - f_equal. apply list_fmap_ext. intros i x Hx. apply lookup_seq in Hx as [-> ?]. by apply Hpage.
    - rewrite pieces, take_ge; [done|]. rewrite count_rows_spec in Hn. unfold whole. rewrite merge_sort_Permutation. lia. }
  rewrite Hall, count_rows_spec. unfold whole at 1 3. rewrite merge_sort_Permutation. split_and!; [done|apply whole_sorted|done|].
  intros i Hi. rewrite Hpage, length_take by done. lia.
Qed.
End pages.

(** ** The list endpoints *)
Lemma selects_no_filter {R} (column : R → string → option sql_value) r : selects column no_filter r = true.
Proof. done. Qed.
Lemma given_fmap {A B} (g : A → B) (v : option A) (p : B → bool) : given (g <$> v) p = given v (fun a => p (g a)).
Proof. by destruct v. Qed.
Ltac clause_means := intros; rewrite ?add_filter_selects by auto 10 with clauses; rewrite ?selects_no_filter, ?given_fmap; cbn; rewrite <- ?andb_assoc; cbn.
Lemma latest_close_first_total : Total latest_close_first.
Proof. intros [i [x|]] [j [y|]]; unfold latest_close_first; cbn; lia. Qed.
Lemma latest_close_first_trans : Transitive latest_close_first.
Proof. intros [i [x|]] [j [y|]] [k [z|]]; unfold latest_close_first; cbn; lia. Qed.
Lemma latest_first_total : Total latest_first.
Proof. intros [x i] [y j]; unfold latest_first; cbn; lia. Qed.
Lemma latest_first_trans : Transitive latest_first.
Proof. intros [x i] [y j] [z k]; unfold latest_first; cbn; lia. Qed.
Lemma by_key_total {A B} (order : relation B) (f : A → B) : Total order → Total (by_key order f).
Proof. intros Ht a b. apply Ht. Qed.
Lemma by_key_trans {A B} (order : relation B) (f : A → B) : Transitive order → Transitive (by_key order f).
Proof. intros Ht a b c. apply Ht. Qed.
Lemma ge_total : Total Z.ge.
Proof. intros a b. lia. Qed.
Lemma ge_trans : Transitive Z.ge.
Proof. intros a b c. lia. Qed.

Definition trade_admitted (f : trades_filter) (bot_id symbol : string) (status : trade_status) (closed_at : option Z) : bool :=
  given (tf_bot_id f) (fun b => (bot_id =? b)%string) && (given (tf_symbol f) (fun s => (symbol =? s)%string) &&
    (given (tf_status f) (fun s => (status_column status =? TradeStatus_value s)%string) &&
      (given (tf_from_at f) (fun t => compares closed_at (fun c => t <=? c)) && given (tf_to_at f) (fun t => compares closed_at (fun c => c <? t))))).
Lemma trade_clause_admits {R} (id : R → Z) (bot symbol : R → string) (status : R → trade_status) (closed : R → option Z) f r :
  selects (fun r => trade_columns (id r) (bot r) (symbol r) (status r) (closed r)) (build_trades_where_clause f) r =
  trade_admitted f (bot r) (symbol r) (status r) (closed r).
Proof. unfold build_trades_where_clause, trade_admitted. clause_means. by destruct (closed r). Qed.
Lemma trade_clause_well_bound f : well_bound (build_trades_where_clause f).
Proof. unfold build_trades_where_clause. auto 10 with clauses. Qed.
#[global] Instance trades_laws : ListingLaws trades_filter (Z * live_trade) := {|
  admitted f r := trade_admitted f (trd_bot_id r.2) (trd_symbol r.2) (trd_status r.2) (trd_closed_at r.2);
  clause_well_bound := trade_clause_well_bound;
  clause_admits f r := trade_clause_admits fst (fun r => trd_bot_id r.2) (fun r => trd_symbol r.2) (fun r => trd_status r.2) (fun r => trd_closed_at r.2) f r;
  listed_before_total := by_key_total _ _ latest_close_first_total; listed_before_trans := by_key_trans _ _ latest_close_first_trans |}.
#[global] Instance paper_trades_laws : ListingLaws trades_filter (Z * paper_trade) := {|
  admitted f r := trade_admitted f (pt_bot_id r.2) (pt_symbol r.2) (pt_status r.2) (pt_closed_at r.2);
  clause_well_bound := trade_clause_well_bound;
  clause_admits f r := trade_clause_admits fst (fun r => pt_bot_id r.2) (fun r => pt_symbol r.2) (fun r => pt_status r.2) (fun r => pt_closed_at r.2) f r;
  listed_before_total := by_key_total _ _ latest_close_first_total; listed_before_trans := by_key_trans _ _ latest_close_first_trans |}.
Lemma close_order_same a b : latest_close_first a b → latest_close_first b a → a.1 = b.1.
Proof. destruct a as [i [x|]], b as [j [y|]]; unfold latest_close_first; cbn; lia. Qed.
(** Ids are unique, so nothing is tied. *)
Lemma trades_untied f (m : gmap Z live_trade) : untied f (map_to_list m).
Proof.
  intros a b Ha Hb _ _ Hab Hba. pose proof (close_order_same _ _ Hab Hba) as Hid. cbn in Hid. destruct a as [i x], b as [j y]. cbn in Hid. subst j.
  apply elem_of_map_to_list in Ha, Hb. congruence.
Qed.
Lemma paper_trades_untied f (m : gmap Z paper_trade) : untied f (map_to_list m).
Proof.
  intros a b Ha Hb _ _ Hab Hba. pose proof (close_order_same _ _ Hab Hba) as Hid. cbn in Hid. destruct a as [i x], b as [j y]. cbn in Hid. subst j.
  apply elem_of_map_to_list in Ha, Hb. congruence.
Qed.

Definition signal_admitted (f : signals_filter) (r : Gateway.signal_row) : bool :=
  given (sf_source f) (fun s => (sr_source r =? s)%string) && (given (sf_symbol f) (fun s => (sr_symbol r =? s)%string) &&
    (given (sf_action f) (fun s => (sr_action r =? s)%string) && (given (sf_ingestion_status f) (fun s => (ingestion_text (sr_status r) =? ingestion_text s)%string) &&
      (given (sf_from_at f) (fun t => t <=? sr_received_at r) && given (sf_to_at f) (fun t => sr_received_at r <? t))))).
Lemma signal_clause_admits f r : selects signal_column (build_signals_where_clause f) r = signal_admitted f r.
Proof. unfold build_signals_where_clause, signal_admitted. by clause_means. Qed.
Lemma signal_clause_well_bound f : well_bound (build_signals_where_clause f).
Proof. unfold build_signals_where_clause. auto 10 with clauses. Qed.
#[global] Instance signals_laws : ListingLaws signals_filter Gateway.signal_row := {|
  admitted := signal_admitted; clause_well_bound := signal_clause_well_bound; clause_admits := signal_clause_admits;
  listed_before_total := by_key_total _ _ latest_first_total; listed_before_trans := by_key_trans _ _ latest_first_trans |}.
Definition audit_admitted (f : audit_filter) (r : AuditEventRow) : bool :=
  given (af_entity_type f) (fun s => (au_entity_type r =? s)%string) && (given (af_entity_id f) (fun s => (au_entity_id r =? s)%string) &&
    (given (af_actor f) (fun s => (au_actor r =? s)%string) && (given (af_action_prefix f) (fun p => text_like (au_action r) (p +:+ "%")) &&
      (given (af_from_at f) (fun t => t <=? au_occurred_at r) && given (af_to_at f) (fun t => au_occurred_at r <? t))))).
Lemma audit_clause_admits f r : selects audit_column (build_audit_where_clause f) r = audit_admitted f r.
Proof. unfold build_audit_where_clause, audit_admitted. by clause_means. Qed.
Lemma audit_clause_well_bound f : well_bound (build_audit_where_clause f).
Proof. unfold build_audit_where_clause. auto 10 with clauses. Qed.
#[global] Instance audit_laws : ListingLaws audit_filter AuditEventRow := {|
  admitted := audit_admitted; clause_well_bound := audit_clause_well_bound; clause_admits := audit_clause_admits;
  listed_before_total := by_key_total _ _ latest_first_total; listed_before_trans := by_key_trans _ _ latest_first_trans |}.
Definition backtest_admitted (f : backtests_filter) (r : Z * BacktestRunRow) : bool :=
  given (bf_bot_id f) (fun s => (run_bot_id r.2 =? s)%string) && (given (bf_status f) (fun s => (BacktestStatus_value (run_status r.2) =? BacktestStatus_value s)%string) &&
    (given (bf_from_at f) (fun t => t <=? run_started_at r.2) && given (bf_to_at f) (fun t => run_started_at r.2 <? t))).
Lemma backtest_clause_admits f r : selects backtest_column (build_backtests_where_clause f) r = backtest_admitted f r.
Proof. unfold build_backtests_where_clause, backtest_admitted. by clause_means. Qed.
Lemma backtest_clause_well_bound f : well_bound (build_backtests_where_clause f).
Proof. unfold build_backtests_where_clause. auto 10 with clauses. Qed.
#[global] Instance backtests_laws : ListingLaws backtests_filter (Z * BacktestRunRow) := {|
  admitted := backtest_admitted; clause_well_bound := backtest_clause_well_bound; clause_admits := backtest_clause_admits;
  listed_before_total := by_key_total _ _ ge_total; listed_before_trans := by_key_trans _ _ ge_trans |}.
Definition history_admitted (f : history_filter) (r : feature_row) : bool :=
  (fr_feature_name r =? hf_feature_name f)%string && ((fr_symbol r =? hf_symbol f)%string &&
    (given (hf_from_at f) (fun t => t <=? fr_computed_at r) && given (hf_to_at f) (fun t => fr_computed_at r <? t))).
Lemma pair_well_bound f : well_bound ([mkPredicate "feature_name" cmp_eq 1; mkPredicate "symbol" cmp_eq 2], [SqlText (hf_feature_name f); SqlText (hf_symbol f)]).
Proof. unfold well_bound. cbn. repeat constructor; cbn; lia. Qed.
#[export] Hint Resolve pair_well_bound : clauses.
Lemma history_clause_admits f r : selects feature_column (build_features_history_where_clause f) r = history_admitted f r.
Proof. unfold build_features_history_where_clause, history_admitted. by clause_means. Qed.
Lemma history_clause_well_bound f : well_bound (build_features_history_where_clause f).
Proof. unfold build_features_history_where_clause. auto 10 with clauses. Qed.
#[global] Instance history_laws : ListingLaws history_filter feature_row := {|
  admitted := history_admitted; clause_well_bound := history_clause_well_bound; clause_admits := history_clause_admits;
  listed_before_total := by_key_total _ _ ge_total; listed_before_trans := by_key_trans _ _ ge_trans |}.
(** The primary key of features leaves one row per name, symbol and time. *)
Lemma history_untied f (table : list feature_row) :
  (∀ a b, a ∈ table → b ∈ table → fr_feature_name a = fr_feature_name b → fr_symbol a = fr_symbol b → fr_computed_at a = fr_computed_at b → a = b) → untied f table.
Proof.
  intros Hpk a b Ha Hb Aa Ab Hab Hba. cbn in Aa, Ab. unfold history_admitted in *.
  apply andb_prop in Aa as [N1%String.eqb_eq [S1%String.eqb_eq _]%andb_prop], Ab as [N2%String.eqb_eq [S2%String.eqb_eq _]%andb_prop].
  apply Hpk; [done..|congruence|congruence|]. unfold listed_before, by_key in *. cbn in *. unfold by_key in *. lia.
Qed.

(** ** Concrete pages *)
Definition closed_trade (bot : string) (closed : option Z) : live_trade :=
  mkLiveTrade bot None 1 None "BTCUSDT" buy (100 @ 0) None (1 @ 0) (100 @ 0) None None None 0 closed (if closed then st_closed else st_open) None None.
Definition some_trades : gmap Z live_trade :=
  {[1 := closed_trade "alpha" (Some 10); 2 := closed_trade "alpha" (Some 10); 3 := closed_trade "beta" (Some 11); 4 := closed_trade "alpha" None; 5 := closed_trade "alpha" (Some 9)]}.
Definition alpha_closed : trades_filter := mkTradesFilter (Some "alpha") None (Some CLOSED) None None.
Example alpha_clause : clause_text (build_trades_where_clause (mkTradesFilter (Some "alpha") None (Some CLOSED) (Some 1) None)) = "WHERE bot_id = $1 AND status = $2 AND closed_at >= $3".
Proof. reflexivity. Qed.
Definition page (i : nat) : list (Z * live_trade) :=
  match select_paginated alpha_closed 2 (Z.of_nat i * 2) (map_to_list some_trades) with Ok l => l | Err _ => [] end.

(** The list of backtest runs is ordered by their start alone: of two runs that
    started at the same time, two requests for the pages of one row each may both
    answer with the first run, and the second one is on no page. *)
Definition tied_runs : list (Z * BacktestRunRow) :=
  [(1, mkRun "a" "alpha" "" "" 0 1 QUEUED 7 None None None); (2, mkRun "b" "alpha" "" "" 0 1 QUEUED 7 None None None)].
Lemma backtest_pages_can_miss : let every := mkBacktestsFilter None None None None in
  ∃ p0 p1, answer_of column_of listed_before (paged (where_clause every) 1 0) tied_runs p0 ∧
    answer_of column_of listed_before (paged (where_clause every) 1 1) tied_runs p1 ∧ count_rows every tied_runs = 2 ∧ fst <$> p0 ++ p1 = [1; 1].
Proof.
  set (r1 := mkRun "a" "alpha" "" "" 0 1 QUEUED 7 None None None). set (r2 := mkRun "b" "alpha" "" "" 0 1 QUEUED 7 None None None).
  exists [(1, r1)], [(1, r1)]. assert (∀ a b : Z * BacktestRunRow, run_started_at a.2 = 7 → run_started_at b.2 = 7 → StronglySorted listed_before [a; b]) as Hs.
  { intros a b Ha Hb. repeat constructor. unfold listed_before, backtests_listing, by_key. lia. }
  split_and!; [| |reflexivity|reflexivity].
  - apply (an_answer _ _ _ _ tied_runs); [rewrite paged_filter; reflexivity|by apply Hs|reflexivity].
  - apply (an_answer _ _ _ _ [(2, r2); (1, r1)]); [rewrite paged_filter; apply perm_swap|by apply Hs|reflexivity].
Qed.

(** ** Prefixes *)
Definition plain (c : ascii) : Prop := c ≠ "%"%char ∧ c ≠ "_"%char ∧ c ≠ "\"%char.
Lemma like_any s : like ["%"%char] s = true.
Proof. induction s as [|c s IH]; [done|]. cbn in *. done. Qed.
(** A prefix of plain characters selects exactly what it starts. *)
Lemma like_prefix p s : Forall plain p → like (p ++ ["%"%char]) s = bool_decide (p `prefix_of` s).
Proof.
  revert s. induction p as [|c p IH]; intros s Hp.
  { rewrite bool_decide_true by apply prefix_nil. apply like_any. }
  apply Forall_cons in Hp as [(H1 & H2 & H3) Hp]. cbn [app like]. rewrite !bool_decide_false by done. destruct s as [|x s].
  - rewrite bool_decide_false; [done|]. apply prefix_nil_not.
  - rewrite IH by done. destruct (decide (x = c)) as [->|Hne].
    + rewrite bool_decide_true by done. cbn. apply bool_decide_ext. split; [apply prefix_cons|apply prefix_cons_inv_2].
    + rewrite bool_decide_false by done. cbn. rewrite bool_decide_false; [done|]. intros Hpre. by apply prefix_cons_inv_1 in Hpre.
Qed.
(** The underscore of every action's prefix is a wildcard. *)
Lemma action_prefix_matches_more : text_like "botXconfig.apply" ("bot_config." +:+ "%") = true.
Proof. reflexivity. Qed.

(** ** The latest features *)
Definition feature_key (r : feature_row) : string * string := (fr_feature_name r, fr_symbol r).
Lemma feature_before_total : Total feature_before.
Proof.
  intros a b. unfold feature_before, text_before. rewrite (String.eqb_sym (fr_feature_name b)), (String.eqb_sym (fr_symbol b)).
  destruct (fr_feature_name a =? fr_feature_name b)%string; [destruct (fr_symbol a =? fr_symbol b)%string; [lia|]|]; apply String.leb_total.
Qed.
Lemma text_before_antisym a b : text_before a b → text_before b a → a = b.
Proof. apply String.leb_antisym. Qed.
Lemma feature_before_trans : Transitive feature_before.
Proof.
  assert (∀ x y z, x ≠ y → text_before x y → text_before y z → x ≠ z) as Hne by (intros x y z Hxy H1 H2 <-; apply Hxy; by apply text_before_antisym).
  assert (∀ x y z, text_before x y → text_before y z → text_before x z) as Htr by (intros x y z; apply string_leb_trans).
  intros a b c. unfold feature_before. destruct (String.eqb_spec (fr_feature_name a) (fr_feature_name b)) as [Nab|Nab].
  - rewrite Nab. destruct (fr_feature_name b =? fr_feature_name c)%string; [|done].
    destruct (String.eqb_spec (fr_symbol a) (fr_symbol b)) as [Sab|Sab]; [rewrite Sab; destruct (fr_symbol b =? fr_symbol c)%string; [lia|done]|].
    destruct (String.eqb_spec (fr_symbol b) (fr_symbol c)) as [<-|Sbc]; intros H1 H2; rewrite (proj2 (String.eqb_neq _ _)); eauto.
  - destruct (String.eqb_spec (fr_feature_name b) (fr_feature_name c)) as [<-|Nbc]; intros H1 H2; rewrite (proj2 (String.eqb_neq _ _)); eauto.
Qed.
Lemma same_feature_key a b : same_feature a b ↔ feature_key a = feature_key b.
Proof. unfold same_feature, feature_key. split; [intros [-> ->]; done|by intros [= -> ->]]. Qed.
Lemma distinct_on_spec l : StronglySorted feature_before l → (∀ x, x ∈ distinct_on l → x ∈ l) ∧ NoDup (feature_key <$> distinct_on l) ∧
  ∀ x, x ∈ l → ∃ y, y ∈ distinct_on l ∧ feature_key y = feature_key x ∧ fr_computed_at x <= fr_computed_at y.
Proof.
  induction l as [|r l IH]; intros Hs; cbn [distinct_on]; [split_and!; [done|constructor|by intros x ?%elem_of_nil]|].
  apply StronglySorted_inv in Hs as [Hs Hr]. destruct (IH Hs) as (Hin & Hnd & Hmax). split_and!.
  - intros x [->|[_ Hx]%list_elem_of_filter]%elem_of_cons; [by left|right; by apply Hin].
  - rewrite fmap_cons. apply NoDup_cons. split.
    + rewrite list_elem_of_fmap. intros (y & Hy & [Hn _]%list_elem_of_filter). apply Hn, same_feature_key. done.
    + clear -Hnd. induction (distinct_on l) as [|y d IHd]; [constructor|]. rewrite fmap_cons in Hnd. apply NoDup_cons in Hnd as [Hy Hd]. rewrite filter_cons.
      destruct (decide _); [|by apply IHd]. rewrite fmap_cons. apply NoDup_cons. split; [|by apply IHd]. intros (z & Hz & [_ Hzd]%list_elem_of_filter)%list_elem_of_fmap.
      apply Hy, list_elem_of_fmap. by exists z.
  - intros x [->|Hx]%elem_of_cons; [exists r; split; [by left|done]|]. destruct (Hmax x Hx) as (y & Hy & Hk & Hc). destruct (decide (same_feature r y)) as [Hry|Hry].
    + exists r. split; [by left|]. apply same_feature_key in Hry. split; [congruence|]. rewrite Forall_forall in Hr. specialize (Hr x Hx). rewrite <- Hry in Hk.
      unfold feature_key in Hk. injection Hk as Hn Hsy. unfold feature_before in Hr. rewrite Hn, Hsy, !String.eqb_refl in Hr. done.
    + exists y. split; [right; by apply list_elem_of_filter|done].
Qed.
(** /api/features/latest has one row for every feature and symbol the prefix
    admits, the newest one, and its total counts them. *)
Lemma latest_features_newest prefix table :
  (∀ x, x ∈ latest_features prefix table → x ∈ table ∧ prefix_selects prefix x = true) ∧ NoDup (feature_key <$> latest_features prefix table) ∧
  (∀ x, x ∈ table → prefix_selects prefix x = true → ∃ y, y ∈ latest_features prefix table ∧ feature_key y = feature_key x ∧ fr_computed_at x <= fr_computed_at y) ∧
  count_latest_features prefix table = Z.of_nat (length (latest_features prefix table)).
Proof.
  unfold latest_features. set (l := filter _ table). pose proof feature_before_total as Ht. pose proof feature_before_trans as Htr.
  destruct (distinct_on_spec (merge_sort feature_before l)) as (Hin & Hnd & Hmax); [by apply StronglySorted_merge_sort|].
  assert (∀ x, x ∈ merge_sort feature_before l ↔ x ∈ table ∧ prefix_selects prefix x = true) as Hl.
  { intros x. rewrite merge_sort_Permutation. unfold l. rewrite list_elem_of_filter. tauto. }
  split_and!.
  - intros x Hx. by apply Hl, Hin.
  - done.
  - intros x Hx Hp. apply Hmax. by apply Hl.
  - unfold count_latest_features. fold l. rewrite <- (length_fmap feature_key). f_equal. apply Permutation_length, NoDup_Permutation; [apply NoDup_remove_dups|done|].
    intros k. rewrite elem_of_remove_dups, !list_elem_of_fmap. split.
    + intros (x & -> & Hx). destruct (Hmax x) as (y & Hy & Hk & _); [by rewrite merge_sort_Permutation|]. exists y. done.
    + intros (y & -> & Hy). exists y. split; [done|]. apply Hin in Hy. by rewrite merge_sort_Permutation in Hy.
Qed.
