(* ===== verification/Loader.v ===== *)
(** * Bot configurations and plugins out of YAML

    Models packages/scoring/yaml_loader.py, packages/scoring/registry.py and the
    validators of packages/scoring/types.py and packages/scoring/conditions/:
    from the value a YAML text parses to, to the [BotConfig] the services read.

    Parameters: [safe_load] is the YAML parser; [coerce_int], [coerce_bool] and
    [coerce_dec] are the conversions pydantic makes outside strict mode for a
    value that is not of the field's type; [repr] is the text of a container;
    [import_class] resolves a module and a class name.  Every validation error
    is a [ValueError].  Timestamps, binaries and sets of YAML, white space and
    underscores in numbers, non-ASCII text and the sign of a zero weight are not
    represented; Python's recursion limit neither. *)

From S2P Require Import Prelude Dec DecText Float64 PyNum Sizing RiskGates Scoring Consumer.
From stdpp Require Import pretty.
From Stdlib Require Import Ascii SpecFloat.
Open Scope Z_scope.

(** ** Values: what the parser builds, and the Decimals the loader puts there *)
Inductive float_value := FNum (text : string) | FInf (negative : bool) | FNan.
Inductive yaml :=
| YNone | YBool (b : bool) | YInt (z : Z) | YFloat (f : float_value) | YStr (s : string)
| YList (l : list yaml) | YDict (kvs : list (yaml * yaml))
| YDec (d : dec) | YNonFinite.
Abbreviation mapping := (list (yaml * yaml)).

(** [v == "k"], and [d.get(k)] for a string key. *)
Definition eq_str (k : string) (v : yaml) : bool := match v with YStr s => (s =? k)%string | _ => false end.
Fixpoint get (k : string) (d : mapping) : option yaml :=
  match d with
  | [] => None
  | (k', v) :: d' => if eq_str k k' then Some v else get k d'
  end.
Definition getn (k : string) (d : mapping) : yaml := default YNone (get k d).
(** [v.get], [v.items] of anything but a dict. *)
Definition items (v : yaml) : res mapping := match v with YDict d => Ok d | _ => Err (AttributeError "no such attribute") end.
Definition truthy (v : yaml) : bool :=
  match v with
  | YNone => false
  | YBool b => b
  | YInt z => negb (z =? 0)
  | YFloat (FNum text) => match dec_of_str text with Ok d => negb (coef d =? 0) | Err _ => true end
  | YStr s => negb (s =? "")%string
  | YList l => match l with [] => false | _ => true end
  | YDict d => match d with [] => false | _ => true end
  | YDec d => negb (coef d =? 0)
  | YFloat _ | YNonFinite => true
  end.
(** [v or w]. *)
Definition py_or (v w : yaml) : yaml := if truthy v then v else w.
Definition py_iter (v : yaml) : res (list yaml) :=
  match v with
  | YList l => Ok l
  | YDict d => Ok d.*1
  | YStr s => Ok ((fun c => YStr (String c EmptyString)) <$> String.list_ascii_of_string s)
  | _ => Err (TypeError "object is not iterable")
  end.
Definition is_dict (v : yaml) : bool := match v with YDict _ => true | _ => false end.
Fixpoint collect {A B} (f : A → res B) (l : list A) : res (list B) :=
  match l with [] => Ok [] | x :: l' => y ← f x; ys ← collect f l'; Ok (y :: ys) end.

(** [float(x)]. *)
Definition pyfloat_of (b : b64) : pyfloat := binary_normalize 53 1024 (bman b) (bexp b) false.
Definition special_float (s : string) : option pyfloat :=
  if bool_decide (s ∈ ["nan"; "+nan"; "-nan"]) then Some S754_nan
  else if bool_decide (s ∈ ["inf"; "infinity"; "+inf"; "+infinity"]) then Some (S754_infinity false)
  else if bool_decide (s ∈ ["-inf"; "-infinity"]) then Some (S754_infinity true) else None.
Definition float_of_text (text : string) : res pyfloat :=
  match special_float (lower text), dec_of_str text with
  | Some x, _ => Ok x
  | None, Ok d => Ok (pyfloat_of (float_of_dec d))
  | None, Err _ => Err (ValueError "could not convert string to float")
  end.
Definition float_of_int (z : Z) : res pyfloat :=
  match pyfloat_of (mkB z 0) with S754_infinity _ => Err OverflowError | x => Ok x end.
Definition py_float (v : yaml) : res pyfloat :=
  match v with
  | YInt z => float_of_int z
  | YBool b => float_of_int (if b then 1 else 0)
  | YFloat (FNum text) | YStr text => float_of_text text
  | YFloat (FInf n) => Ok (S754_infinity n)
  | YFloat FNan => Ok S754_nan
  | YDec d => Ok (pyfloat_of (float_of_dec d))
  | _ => Err (TypeError "float() argument must be a string or a real number")
  end.
(** The exact decimal value of a finite float. *)
Definition dec_of_pyfloat (x : pyfloat) : option dec :=
  match x with
  | S754_zero _ => Some dzero
  | S754_finite s m e => Some (dec_of_float (mkB (if s then Z.neg m else Z.pos m) e))
  | _ => None
  end.

(** ** _to_decimal *)
Fixpoint to_decimal (v : yaml) : res yaml :=
  match v with
  | YInt z => Ok (YDec (mkDec z 0))
  | YFloat (FNum text) => d ← dec_of_str text; Ok (YDec d)
  | YFloat _ => Ok YNonFinite
  | YStr text => Ok (match dec_of_str text with Ok d => YDec d | Err _ => v end)
  | YList l =>
      l' ← (fix all (l : list yaml) : res (list yaml) :=
              match l with [] => Ok [] | x :: l' => y ← to_decimal x; ys ← all l'; Ok (y :: ys) end) l;
      Ok (YList l')
  | _ => Ok v
  end.
Definition coerce_fields (fields : list string) (d : mapping) : res mapping :=
  collect (fun '(k, v) =>
    if existsb (fun f => eq_str f k) fields then v' ← to_decimal v; Ok (k, v') else Ok (k, v)) d.
Definition coerce_values (d : mapping) : res mapping := collect (fun '(k, v) => v' ← to_decimal v; Ok (k, v')) d.

(** ** Fields of a model: strict mode, and the conversions outside it *)
Definition invalid {A} (k : string) : res A := Err (ValueError k).
Definition field {A} (k : string) (f : yaml → res A) (d : mapping) : res A :=
  match get k d with Some v => f v | None => invalid k end.
Definition field_or {A} (k : string) (a : A) (f : yaml → res A) (d : mapping) : res A :=
  match get k d with Some v => f v | None => Ok a end.
Definition as_str (v : yaml) : res string := match v with YStr s => Ok s | _ => invalid "str" end.
Definition as_int (v : yaml) : res Z := match v with YInt z => Ok z | _ => invalid "int" end.
Definition as_bool (v : yaml) : res bool := match v with YBool b => Ok b | _ => invalid "bool" end.
Definition as_dec (v : yaml) : res dec := match v with YDec d => Ok d | _ => invalid "decimal" end.
Definition as_scalar (v : yaml) : res scalar :=
  match v with YDec d => Ok (s_num d) | YBool b => Ok (s_bool b) | _ => invalid "decimal or bool" end.
Definition as_list {A} (f : yaml → res A) (v : yaml) : res (list A) := match v with YList l => collect f l | _ => invalid "list" end.
Definition as_opt {A} (f : yaml → res A) (v : yaml) : res (option A) := match v with YNone => Ok None | _ => a ← f v; Ok (Some a) end.
Definition guard {A} (b : bool) (k : string) (a : A) : res A := if b then Ok a else invalid k.
(** [cls( **v )]: the keywords are strings. *)
Definition kwargs (v : yaml) : res mapping :=
  match v with
  | YDict d => if forallb (fun '(k, _) => match k with YStr _ => true | _ => false end) d then Ok d
               else Err (TypeError "keywords must be strings")
  | _ => Err (TypeError "argument after ** must be a mapping")
  end.
(** [extra="forbid"]. *)
Definition known_keys (fields : list string) (d : mapping) : bool := forallb (fun '(k, _) => existsb (fun f => eq_str f k) fields) d.

(** ** Conditions *)
Inductive cond_kind :=
| K_equals | K_not_equals | K_gt | K_gte | K_lt | K_lte | K_between | K_in | K_rising | K_falling
| K_ema_stack | K_and | K_or | K_not | K_when_then_else | K_plugin.
Definition DISPATCH : list (string * cond_kind) := [
  ("equals", K_equals); ("not_equals", K_not_equals); ("gt", K_gt); ("gte", K_gte); ("lt", K_lt); ("lte", K_lte);
  ("between", K_between); ("in", K_in); ("rising", K_rising); ("falling", K_falling); ("ema_stack", K_ema_stack);
  ("and", K_and); ("or", K_or); ("not", K_not); ("when_then_else", K_when_then_else); ("plugin", K_plugin)].
Definition DECIMAL_FIELDS_BY_TYPE (k : cond_kind) : list string :=
  match k with
  | K_equals | K_not_equals | K_gt | K_gte | K_lt | K_lte => ["value"]
  | K_between => ["min"; "max"]
  | K_in => ["values"]
  | _ => []
  end.
Definition dispatch (cond_type : yaml) : res cond_kind :=
  match cond_type with
  | YNone => Err (ValueError "unknown condition type: missing 'type' key")
  | YList _ | YDict _ => Err (TypeError "unhashable type")
  | YStr s => match find (fun '(t, _) => (t =? s)%string) DISPATCH with
              | Some (_, k) => Ok k
              | None => Err (ValueError ("unknown condition type: " +:+ s))
              end
  | _ => Err (ValueError "unknown condition type")
  end.
Definition strip_meta (d : mapping) : mapping := List.filter (fun '(k, _) => negb (eq_str "type" k || eq_str "feature" k)) d.
Definition min_2 (n : Z) : res Z := guard (2 <=? n) "n_samples" n.
Definition build_model (k : cond_kind) (d : mapping) : res condition :=
  match k with
  | K_equals => EqualsCondition <$> field "value" as_scalar d
  | K_not_equals => NotEqualsCondition <$> field "value" as_scalar d
  | K_gt => GtCondition <$> field "value" as_dec d
  | K_gte => GteCondition <$> field "value" as_dec d
  | K_lt => LtCondition <$> field "value" as_dec d
  | K_lte => LteCondition <$> field "value" as_dec d
  | K_between =>
      mn ← field "min" as_dec d; mx ← field "max" as_dec d; guard (dleb mn mx) "min > max" (BetweenCondition mn mx)
  | K_in =>
      vs ← field "values" (as_list as_scalar) d; guard (negb (bool_decide (length vs = 0%nat))) "values" (InCondition vs)
  | K_rising => RisingCondition <$> (field "n_samples" as_int d ≫= min_2)
  | K_falling => FallingCondition <$> (field "n_samples" as_int d ≫= min_2)
  | _ => invalid "not a simple condition"
  end.
Definition build_simple (k : cond_kind) (spec : mapping) : res condition :=
  d ← coerce_fields (DECIMAL_FIELDS_BY_TYPE k) spec; kw ← kwargs (YDict (strip_meta d)); build_model k kw.

(** A plugin: the class of a [Rule], which its parameters make an instance. *)
Abbreviation rule_instance := (option Z * (RuleContext → res outcome))%type.
Record rule_class := mkClass { cl_name : option string; cl_version : option string; cl_init : yaml → res rule_instance }.
Abbreviation plugin_registry := (gmap (string * string) rule_class).

Section loader.
Context (coerce_int : yaml → res Z) (coerce_bool : yaml → res bool) (coerce_dec : yaml → res dec) (repr : yaml → string).

Definition py_str (v : yaml) : string :=
  match v with
  | YStr s => s
  | YInt z => pretty z
  | YFloat (FNum text) => text
  | YBool b => if b then "True" else "False"
  | YNone => "None"
  | _ => repr v
  end.

Definition parse_ema_stack (spec : mapping) : res condition :=
  let direction := getn "direction" spec in
  if eq_str "from_signal" direction then Err (ValueError "direction='from_signal' not supported in v1")
  else if negb (eq_str "up" direction || eq_str "down" direction) then Err (ValueError "ema_stack direction must be 'up' or 'down'")
  else match getn "short" spec, getn "mid" spec, getn "long" spec with
       | YNone, _, _ | _, YNone, _ | _, _, YNone =>
           if forallb (fun '(k, _) => match k with YStr _ => true | _ => false end) spec
           then Err (ValueError "ema_stack requires 'short', 'mid', 'long' keys") else Err (TypeError "'<' not supported")
       | s, m, l => refs ← collect as_str [s; m; l]; Ok (EmaStackCondition refs (eq_str "up" direction))
       end.
(** The [conditions] of [and] and [or]: a non-empty list. *)
Definition parse_subs (rec : yaml → res condition) (spec : mapping) : res (list condition) :=
  match default (YList []) (get "conditions" spec) with
  | YList subs => cs ← collect rec subs; guard (negb (bool_decide (length cs = 0%nat))) "conditions" cs
  | _ => Err (ValueError "'conditions' must be a list")
  end.
Definition parse_not (rec : yaml → res condition) (spec : mapping) : res condition :=
  match getn "condition" spec with
  | YDict sub => NotCondition <$> rec (YDict sub)
  | _ => Err (ValueError "not condition: 'condition' must be a dict")
  end.
Definition branch (k alias : string) (spec : mapping) : yaml := match get k spec with Some v => v | None => getn alias spec end.
Definition parse_when_then_else (rec : yaml → res condition) (spec : mapping) : res condition :=
  match getn "when" spec, branch "then_" "then" spec, branch "else_" "else" spec with
  | YDict w, YDict t, YDict e => cw ← rec (YDict w); ct ← rec (YDict t); ce ← rec (YDict e); Ok (WhenThenElseCondition cw ct ce)
  | _, _, _ => Err (ValueError "when_then_else requires dict subs")
  end.
Definition parse_plugin (registry : option plugin_registry) (spec : mapping) : res condition :=
  match registry with
  | None => Err (ValueError "plugin condition requires plugin_registry")
  | Some reg =>
      let name := getn "name" spec in
      let version := py_str (default (YStr "") (get "version" spec)) in
      if negb (truthy name) || (version =? "")%string then Err (ValueError "plugin condition requires 'name' and 'version'")
      else match reg !! (py_str name, version) with
           | None => Err (ValueError "plugin not in registry")
           | Some cls => r ← cl_init cls (default (YDict []) (get "params" spec)); Ok (PluginCondition r.1 r.2)
           end
  end.

Definition parse_step (registry : option plugin_registry) (rec : yaml → res condition) (spec : mapping) : res condition :=
  k ← dispatch (getn "type" spec);
  match k with
  | K_ema_stack => parse_ema_stack spec
  | K_and => AndCondition <$> parse_subs rec spec
  | K_or => OrCondition <$> parse_subs rec spec
  | K_not => parse_not rec spec
  | K_when_then_else => parse_when_then_else rec spec
  | K_plugin => parse_plugin registry spec
  | _ => build_simple k spec
  end.
(** The recursion descends into the value, so its depth is enough fuel. *)
Fixpoint depth (v : yaml) : nat :=
  match v with
  | YList l => S (max_list_with depth l)
  | YDict d => S (max_list_with (fun kv => Nat.max (depth kv.1) (depth kv.2)) d)
  | _ => 0
  end.
Fixpoint parse_fuel (registry : option plugin_registry) (n : nat) (v : yaml) : res condition :=
  match n with
  | O => Err (RuntimeError "out of fuel")
  | S n' => d ← items v; parse_step registry (parse_fuel registry n') d
  end.
Definition parse_condition (registry : option plugin_registry) (v : yaml) : res condition := parse_fuel registry (S (depth v)) v.

(** ** The feature of a rule: the first one a pre-order walk meets *)
Fixpoint first_feature (rec : mapping → res (option string)) (subs : list yaml) : res (option string) :=
  match subs with
  | [] => Ok None
  | YDict d :: rest => o ← rec d; match o with Some f => Ok (Some f) | None => first_feature rec rest end
  | _ :: rest => first_feature rec rest
  end.
Definition str_of (v : yaml) : option string := match v with YStr s => Some s | _ => None end.
Definition extract_step (rec : mapping → res (option string)) (spec : mapping) : res (option string) :=
  let cond_type := getn "type" spec in
  match str_of (getn "feature" spec), str_of (getn "short" spec) with
  | Some f, _ => Ok (Some f)
  | None, short =>
      match (if eq_str "ema_stack" cond_type then short else None) with
      | Some s => Ok (Some s)
      | None =>
          if eq_str "and" cond_type || eq_str "or" cond_type then
            subs ← py_iter (py_or (default (YList []) (get "conditions" spec)) (YList [])); first_feature rec subs
          else if eq_str "not" cond_type then match getn "condition" spec with YDict d => rec d | _ => Ok None end
          else if eq_str "when_then_else" cond_type then
            first_feature rec ((fun k => getn k spec) <$> ["when"; "then_"; "then"; "else_"; "else"])
          else Ok None
      end
  end.
Fixpoint extract_fuel (n : nat) (spec : mapping) : res (option string) :=
  match n with
  | O => Err (RuntimeError "out of fuel")
  | S n' => extract_step (extract_fuel n') spec
  end.
Definition extract_feature (spec : mapping) : res (option string) := extract_fuel (depth (YDict spec)) spec.

(** ** Rules *)
Definition as_on_error (v : yaml) : res on_error_policy :=
  match v with YStr "skip" => Ok oe_skip | YStr "reject" => Ok oe_reject | _ => invalid "on_error" end.
Definition as_str_dict (v : yaml) : res unit :=
  match v with
  | YDict d => if forallb (fun '(k, _) => match k with YStr _ => true | _ => false end) d then Ok tt else invalid "applies_when"
  | _ => invalid "applies_when"
  end.
Definition weight_of (v : yaml) : res pyfloat :=
  match v with YInt _ | YFloat _ => py_float v | _ => Err (ValueError "weight must be a number") end.
Definition build_rule (registry : option plugin_registry) (rule_yaml : mapping) : res ScoringRule :=
  match getn "condition" rule_yaml with
  | YDict cond_spec =>
      feature ← (if truthy (getn "feature" rule_yaml) then Ok (getn "feature" rule_yaml)
                 else o ← extract_feature cond_spec;
                      match o with Some f => Ok (YStr f) | None => Err (ValueError "feature required") end);
      condition ← parse_condition registry (YDict cond_spec);
      weight ← weight_of (getn "weight" rule_yaml);
      name ← subscript "name" (get "name" rule_yaml);
      name ← as_str name;
      feature ← as_str feature;
      as_opt as_str_dict (getn "applies_when" rule_yaml) ≫= fun _ =>
      on_error ← field_or "on_error" oe_skip as_on_error rule_yaml;
      required ← field_or "required" false as_bool rule_yaml;
      staleness ← as_opt as_int (getn "max_staleness_sec" rule_yaml);
      Ok (Scoring.mkRule name weight feature condition on_error required staleness)
  | _ => Err (ValueError "'condition' must be a dict")
  end.
(** ScoringConfig, with _rule_names_unique. *)
Definition as_scoring_mode (v : yaml) : res scoring_mode :=
  match v with YStr "active" => Ok sm_active | YStr "passthrough" => Ok sm_passthrough | _ => invalid "mode" end.
Definition scoring_config (mode : scoring_mode) (threshold : pyfloat) (rules : list ScoringRule) : res ScoringConfig :=
  guard (bool_decide (NoDup (rl_name <$> rules))) "duplicate rule name" (mkScoring mode threshold rules).
Definition dicts_of (l : list yaml) : list mapping := omap (fun v => match v with YDict d => Some d | _ => None end) l.
Definition parse_scoring (registry : option plugin_registry) (v : yaml) : res ScoringConfig :=
  match v with
  | YDict d =>
      raw ← py_iter (py_or (default (YList []) (get "rules" d)) (YList []));
      rules ← collect (build_rule registry) (dicts_of raw);
      threshold ← py_float (default (YFloat (FNum "0.0")) (get "trigger_threshold" d));
      mode ← as_scoring_mode (default (YStr "active") (get "mode" d));
      scoring_config mode threshold rules
  | _ => Err (ValueError "scoring section must be a mapping")
  end.

(** ** Sections *)
Record ExchangeSection := mkExchange { xs_mode : exchange_mode; xs_account : string; xs_api_key_env : string; xs_api_secret_env : string }.
Record SignalsSection := mkSignals { si_source_filter : option (list string); si_ttl_seconds : Z }.
Definition as_exchange_mode (v : yaml) : res exchange_mode :=
  match v with
  | YStr "live" => Ok em_live | YStr "testnet" => Ok em_testnet | YStr "paper" => Ok em_paper | YStr "demo" => Ok em_demo
  | _ => invalid "mode"
  end.
Definition parse_exchange (spec : yaml) : res ExchangeSection :=
  d ← kwargs spec;
  mode ← field "mode" as_exchange_mode d; account ← field "account" as_str d;
  key ← field "api_key_env" as_str d; secret ← field "api_secret_env" as_str d;
  Ok (mkExchange mode account key secret).
Definition parse_signals (spec : yaml) : res SignalsSection :=
  d ← kwargs spec;
  filter ← field_or "source_filter" None (as_opt (as_list as_str)) d; ttl ← field_or "ttl_seconds" 120 as_int d;
  Ok (mkSignals filter ttl).
Definition EXECUTION_DECIMAL_FIELDS : list string :=
  ["qty"; "sl_pct"; "tp_pct"; "tp_qty_pct"; "be_trigger"; "be_sl_level"; "trail_pct"; "fee_rate"].
Definition parse_execution (spec : yaml) : res ExecutionSection :=
  raw ← items spec; coerced ← coerce_fields EXECUTION_DECIMAL_FIELDS raw; d ← kwargs (YDict coerced);
  qty ← field "qty" as_dec d; leverage ← field "leverage" as_int d; sl ← field "sl_pct" as_dec d; tp ← field "tp_pct" as_dec d;
  tp_qty ← field "tp_qty_pct" as_dec d; be ← field "be_trigger" as_dec d; be_sl ← field "be_sl_level" as_dec d;
  trail ← field "trail_pct" as_dec d; fee ← field "fee_rate" as_dec d;
  retries ← field_or "sl_retry_count" 3 as_int d; emergency ← field_or "emergency_close_on_sl_fail" true as_bool d;
  Ok (mkExecution qty leverage sl tp tp_qty be be_sl trail fee retries emergency).

(** Fields of a model that is not strict. *)
Definition lax_int (v : yaml) : res Z := match v with YInt z => Ok z | _ => coerce_int v end.
Definition lax_bool (v : yaml) : res bool := match v with YBool b => Ok b | _ => coerce_bool v end.
Definition lax_dec (v : yaml) : res dec := match v with YDec d => Ok d | YNonFinite => invalid "finite_number" | _ => coerce_dec v end.
(** [dict[str, Decimal]]. *)
Definition as_dec_dict (v : yaml) : res (gmap string dec) :=
  match v with
  | YDict d => kvs ← collect (fun '(k, v) => s ← as_str k; x ← lax_dec v; Ok (s, x)) d; Ok (list_to_map kvs)
  | _ => invalid "dict"
  end.

(** *** shadow *)
Definition EXECUTION_OVERRIDE_FIELDS : list string :=
  ["qty"; "leverage"; "sl_pct"; "tp_pct"; "tp_qty_pct"; "be_trigger"; "be_sl_level"; "trail_pct"; "fee_rate"].
Definition override_keys_known (m : gmap string dec) : bool := forallb (fun k => bool_decide (k ∈ EXECUTION_OVERRIDE_FIELDS)) (map_to_list m).*1.
Definition parse_variant (v : mapping) : res ShadowVariant :=
  raw ← items (py_or (default (YDict []) (get "overrides" v)) (YDict []));
  coerced ← coerce_values raw;
  name ← as_str (default (YStr "") (get "name" v));
  overrides ← as_dec_dict (YDict coerced);
  guard (negb (name =? "")%string && override_keys_known overrides) "shadow variant" (mkVariant name overrides).
(** ShadowConfig: the bounds, _variant_names_unique, _enabled_requires_variants. *)
Definition shadow_valid (c : ShadowConfig) : bool :=
  dltb dzero (sh_max_duration_hours c) && dleb (sh_max_duration_hours c) (mkDec 24 0) &&
  bool_decide (NoDup (sv_name <$> sh_variants c)) && (negb (sh_enabled c) || negb (bool_decide (length (sh_variants c) = 0%nat))).
Definition parse_shadow (spec : yaml) : res (option ShadowConfig) :=
  if negb (truthy spec) then Ok None
  else
    d ← items spec;
    raw ← py_iter (py_or (default (YList []) (get "variants" d)) (YList []));
    variants ← collect parse_variant (dicts_of raw);
    hours ← py_float (default (YFloat (FNum "4.0")) (get "max_duration_hours" d));
    match dec_of_pyfloat hours with
    | None => invalid "max_duration_hours"
    | Some h =>
        let c := mkShadow (truthy (default (YBool false) (get "enabled" d))) variants h in
        guard (shadow_valid c) "shadow" (Some c)
    end.

(** *** risk *)
Definition RISK_DECIMAL_FIELDS : list string := ["daily_loss_limit_usd"; "max_drawdown_pct"].
Definition RISK_FIELDS : list string :=
  ["cooldown_after_loss_minutes"; "cooldown_after_streak_n_losses"; "cooldown_after_streak_n_losses_minutes";
   "max_open_trades_per_bot"; "max_open_trades_global"; "daily_loss_limit_usd"; "max_drawdown_pct"; "block_opposite_side"].
Definition risk_section (d : mapping) : res RiskSection :=
  loss ← field_or "cooldown_after_loss_minutes" 0 lax_int d;
  streak ← field_or "cooldown_after_streak_n_losses" 0 lax_int d;
  streak_min ← field_or "cooldown_after_streak_n_losses_minutes" 0 lax_int d;
  per_bot ← field_or "max_open_trades_per_bot" 0 lax_int d;
  global ← field_or "max_open_trades_global" 0 lax_int d;
  daily ← field_or "daily_loss_limit_usd" dzero lax_dec d;
  drawdown ← field_or "max_drawdown_pct" dzero lax_dec d;
  block ← field_or "block_opposite_side" true lax_bool d;
  let r := mkRisk loss streak streak_min per_bot global daily drawdown block in
  guard (known_keys RISK_FIELDS d && risk_valid r) "risk" r.
Definition parse_risk (spec : yaml) : res RiskSection :=
  if negb (truthy spec) then risk_section []
  else raw ← items spec; coerced ← coerce_fields RISK_DECIMAL_FIELDS raw; d ← kwargs (YDict coerced); risk_section d.

(** *** sizing *)
(** [dict(v)]: of a mapping, or of an iterable of pairs. *)
Fixpoint dict_set (k v : yaml) (d : mapping) : mapping :=
  match d, k with
  | [], _ => [(k, v)]
  | (YStr s', v') :: d', YStr s => if (s =? s')%string then (YStr s', v) :: d' else (YStr s', v') :: dict_set k v d'
  | kv :: d', _ => kv :: dict_set k v d'
  end.
Definition hashable (v : yaml) : bool := match v with YList _ | YDict _ => false | _ => true end.
Definition pair_of (v : yaml) : res (yaml * yaml) :=
  l ← py_iter v;
  match l with
  | [k; x] => if hashable k then Ok (k, x) else Err (TypeError "unhashable type")
  | _ => Err (ValueError "dictionary update sequence element")
  end.
Definition py_dict (v : yaml) : res mapping :=
  match v with
  | YDict d => Ok d
  | _ => l ← py_iter v; kvs ← collect pair_of l; Ok (foldl (fun d kv => dict_set kv.1 kv.2 d) [] kvs)
  end.
Definition parse_tier (t : mapping) : res SizingTier :=
  bm ← to_decimal (getn "balance_min" t); sz ← to_decimal (getn "size" t);
  bm ← as_dec bm; sz ← as_dec sz; guard (valid_tier (mkTier bm sz)) "tier" (mkTier bm sz).
Definition SIZING_FIELDS : list string := ["method"; "tiers"; "score_multipliers"; "risk_pct"; "max_notional_per_symbol"].
Definition as_method (v : yaml) : res sizing_method :=
  match v with YStr "tier" => Ok tier | YStr "risk_per_sl" => Ok risk_per_sl | _ => invalid "method" end.
Definition coerced_dict (k : string) (d : mapping) : res (option yaml) :=
  match get k d with
  | None => Ok None
  | Some v => raw ← items (py_or v (YDict [])); c ← coerce_values raw; Ok (Some (YDict c))
  end.
Definition parse_sizing (spec : yaml) : res (option SizingSection) :=
  if negb (truthy spec) then Ok None
  else
    d ← py_dict spec;
    ts ← (match get "tiers" d with
          | None => Ok []
          | Some v => raw ← py_iter (py_or v (YList [])); collect parse_tier (dicts_of raw)
          end);
    mults ← coerced_dict "score_multipliers" d;
    caps ← coerced_dict "max_notional_per_symbol" d;
    pct ← match get "risk_pct" d with None => Ok YNone | Some v => to_decimal v end;
    kw ← kwargs (YDict d);
    m ← field_or "method" tier as_method kw;
    mults ← as_dec_dict (default (YDict []) mults);
    pct ← as_opt lax_dec pct;
    caps ← match caps with None => invalid "max_notional_per_symbol" | Some v => as_dec_dict v end;
    if known_keys SIZING_FIELDS kw then s ← structural_guards (mkSizing m ts mults pct caps); Ok (Some s) else invalid "extra_forbidden".

(** ** BotConfig *)
Definition is_lower (c : ascii) : bool := let n := nat_of_ascii c in (97 <=? n)%nat && (n <=? 122)%nat.
Definition id_char (c : ascii) : bool :=
  let n := nat_of_ascii c in is_lower c || ((48 <=? n)%nat && (n <=? 57)%nat) || (n =? 95)%nat || (n =? 45)%nat.
Definition newline : ascii := ascii_of_nat 10.
(** [$] also matches before a final newline. *)
Fixpoint id_tail (s : list ascii) : bool :=
  match s with
  | [] => true
  | [c] => id_char c || bool_decide (c = newline)
  | c :: s' => id_char c && id_tail s'
  end.
Definition bot_id_charset (s : string) : bool :=
  match String.list_ascii_of_string s with [] => false | c :: s' => is_lower c && id_tail s' end.
Definition bot_config (bot_id version symbols : yaml) (x : ExchangeSection) (sg : SignalsSection) (ex : ExecutionSection)
    (sc : ScoringConfig) (sh : option ShadowConfig) (rk : RiskSection) (sz : option SizingSection) : res BotConfig :=
  id ← as_str bot_id; v ← lax_int version; syms ← as_list as_str symbols;
  guard (bot_id_charset id && (1 <=? v)) "bot_id" (mkBot id v syms (xs_mode x) (si_source_filter sg) ex sc sh rk sz).
Definition load_data (registry : option plugin_registry) (data : yaml) : res BotConfig :=
  match data with
  | YDict d =>
      scoring ← parse_scoring registry (default (YDict []) (get "scoring" d));
      trading ← items (py_or (default (YDict []) (get "trading" d)) (YDict []));
      bot_id ← subscript "bot_id" (get "bot_id" d);
      symbols ← py_iter (py_or (default (YList []) (get "universe" trading)) (YList []));
      exchange ← parse_exchange (default (YDict []) (get "exchange" d));
      signals ← parse_signals (default (YDict []) (get "signals" d));
      execution ← parse_execution (default (YDict []) (get "execution" d));
      shadow ← parse_shadow (getn "shadow" d);
      risk ← parse_risk (getn "risk" d);
      sizing ← parse_sizing (getn "sizing" d);
      bot_config bot_id (default (YInt 1) (get "version" d)) (YList symbols) exchange signals execution scoring shadow risk sizing
  | _ => Err (ValueError "yaml top-level must be a mapping")
  end.
Definition load_bot_config_from_string (safe_load : string → res yaml) (registry : option plugin_registry) (yaml_text : string) : res BotConfig :=
  data ← safe_load yaml_text; load_data registry data.
Definition load_bot_config (read_text : string → res string) (safe_load : string → res yaml) (registry : option plugin_registry)
    (path : string) : res BotConfig :=
  text ← read_text path; load_bot_config_from_string safe_load registry text.

(** ** registry.py *)
Fixpoint split_colons (s : list ascii) : list (list ascii) :=
  match s with
  | [] => [[]]
  | c :: s' =>
      if bool_decide (c = ":"%char) then [] :: split_colons s'
      else match split_colons s' with w :: ws => (c :: w) :: ws | [] => [[c]] end
  end.
(** [None]: an object that is not a subclass of [Rule]. *)
Context (import_class : string → string → res (option rule_class)).
Definition resolve_entry_point (entry_point : string) : res rule_class :=
  match split_colons (String.list_ascii_of_string entry_point) with
  | [m; c] =>
      o ← import_class (String.string_of_list_ascii m) (String.string_of_list_ascii c);
      match o with Some cls => Ok cls | None => Err (TypeError "entry_point is not a Rule subclass") end
  | _ => Err (ValueError "invalid entry_point format")
  end.
Definition class_attr (o : option string) : res string := match o with Some s => Ok s | None => Err (AttributeError "name") end.
Definition register (reg : plugin_registry) (entry : yaml) : res plugin_registry :=
  match entry with
  | YDict e =>
      match get "name" e, get "version" e, get "entry_point" e with
      | Some n, Some v, Some p =>
          let key := (py_str n, py_str v) in
          if bool_decide (is_Some (reg !! key)) then Err (ValueError "duplicate plugin entry")
          else
            cls ← resolve_entry_point (py_str p);
            name ← class_attr (cl_name cls);
            if negb (name =? key.1)%string then Err (ValueError "class.name != YAML name")
            else
              version ← class_attr (cl_version cls);
              if negb (version =? key.2)%string then Err (ValueError "class.version != YAML version")
              else Ok (<[key := cls]> reg)
      | _, _, _ => Err (ValueError "rule entry missing required field")
      end
  | _ => Err (ValueError "each rule entry must be a mapping")
  end.
Fixpoint register_all (reg : plugin_registry) (entries : list yaml) : res plugin_registry :=
  match entries with [] => Ok reg | e :: rest => reg' ← register reg e; register_all reg' rest end.
Definition load_plugin_registry (data : yaml) : res plugin_registry :=
  match data with
  | YNone => Ok ∅
  | YDict d =>
      match get "rules" d with
      | None => Err (ValueError "top-level must be a mapping with 'rules' key")
      | Some YNone => Ok ∅
      | Some (YList entries) => register_all ∅ entries
      | Some _ => Err (ValueError "'rules' must be a list")
      end
  | _ => Err (ValueError "top-level must be a mapping with 'rules' key")
  end.

(** ** services/strategy_engine/app/main.py: the start of an engine

    What is open or subscribed, in order, and the risk tables.  The handler runs
    under the bot id of the settings. *)
Inductive resource := pool_open | bus_open | subscribed (handler_of : BotConfig).
Record engine := mkEngine { en_resources : list resource; en_db : risk_db }.
(** Which of the outside calls of the start fail. *)
Record start_faults := mkStart { sf_pool : option exn; sf_bus : option exn; sf_reconcile : bool; sf_subscribe : option exn }.
Definition run_as (bot_id : string) (b : BotConfig) : BotConfig :=
  mkBot bot_id (b_version b) (b_symbols b) (b_mode b) (b_source_filter b) (b_execution b) (b_scoring b) (b_shadow b) (b_risk b) (b_sizing b).
Definition open_resource (failure : option exn) (r : resource) : ST engine unit :=
  match failure with
  | Some e => throw e
  | None => modify (fun s => mkEngine (en_resources s ++ [r]) (en_db s))
  end.
Definition reconcile_step (fails : bool) (bot_id : string) (now : Z) : ST engine unit :=
  if fails then mret tt
  else modify (fun s => mkEngine (en_resources s) (reconcile_kill_switch_on_startup bot_id now (en_db s)).2).
Definition lifespan (read_text : string → res string) (safe_load : string → res yaml) (registry_path config_dir bot_id : string)
    (f : start_faults) (now : Z) : ST engine BotConfig :=
  registry_yaml ← lift_res (read_text registry_path ≫= safe_load);
  registry ← lift_res (load_plugin_registry registry_yaml);
  cfg ← lift_res (load_bot_config read_text safe_load (Some registry) (config_dir +:+ "/" +:+ bot_id +:+ ".yaml"));
  open_resource (sf_pool f) pool_open ≫= fun _ =>
  open_resource (sf_bus f) bus_open ≫= fun _ =>
  reconcile_step (sf_reconcile f) bot_id now ≫= fun _ =>
  open_resource (sf_subscribe f) (subscribed (run_as bot_id cfg)) ≫= fun _ =>
  mret cfg.
End loader.
