(* ===== verification/LoaderFacts.v ===== *)
(** * What the configuration loader guarantees, and what it lets pass

    A configuration that loads satisfies the validators the rest of the library
    assumes (risk knobs, sizing guards, condition shapes, unique names); the
    recursive descent ends with the depth of the value as fuel; the parts of a
    condition test the feature of their rule and none they name; the plugin registry agrees
    with the classes it holds. *)

From S2P Require Import Prelude Dec DecText Float64 PyNum Sizing RiskGates Scoring Consumer Analytics Backtest Admin AdminFacts Loader.
From Stdlib Require Import Ascii SpecFloat.
Open Scope Z_scope.

(** ** Successful validations *)
Lemma guard_ok_inv {A} b k (a a' : A) : Loader.guard b k a = Ok a' → b = true ∧ a' = a.
Proof. unfold Loader.guard. destruct b; [|done]. intros [= <-]. done. Qed.
Lemma fmap_ok_inv {A B} (f : A → B) (m : res A) b : f <$> m = Ok b → ∃ a, m = Ok a ∧ b = f a.
Proof. destruct m; cbn; [|done]. intros [= <-]. eauto. Qed.
Ltac load_inv :=
  repeat first
    [ progress inv_ok
    | match goal with
      | H : Loader.guard _ _ _ = Ok _ |- _ => let E := fresh in apply guard_ok_inv in H; destruct H as [H E]; first [subst | injection E as E; subst]
      | H : fmap _ _ = Ok _ |- _ => apply fmap_ok_inv in H; destruct H as (? & H & ->)
      | H : invalid _ = Ok _ |- _ => discriminate H
      end ].
Lemma collect_Forall2 {A B} (f : A → res B) l ys : collect f l = Ok ys → Forall2 (fun x y => f x = Ok y) l ys.
Proof. revert ys. induction l as [|x l IH]; intros ys H; cbn in H; load_inv; subst; constructor; auto. Qed.
Lemma collect_Forall {A B} (f : A → res B) (P : B → Prop) l ys :
  (∀ x y, x ∈ l → f x = Ok y → P y) → collect f l = Ok ys → Forall P ys.
Proof.
  intros HP H%collect_Forall2. induction H as [|x y l ys Hxy _ IH]; constructor.
  - eapply HP, Hxy. left.
  - apply IH. intros x' y' Hx. apply HP. by right.
Qed.
Lemma collect_ext {A B} (f g : A → res B) l : (∀ x, x ∈ l → f x = g x) → collect f l = collect g l.
Proof.
  induction l as [|x l IH]; intros H; cbn; [done|]. rewrite (H x) by left.
  destruct (g x); cbn; [|done]. rewrite IH; [done|]. intros y Hy. apply H. by right.
Qed.

(** ** The shapes of a condition *)
Fixpoint wf_condition (c : condition) : bool :=
  match c with
  | BetweenCondition mn mx => dleb mn mx
  | InCondition vs => negb (bool_decide (length vs = 0%nat))
  | RisingCondition n | FallingCondition n => 2 <=? n
  | EmaStackCondition refs _ => bool_decide (length refs = 3%nat)
  | AndCondition cs | OrCondition cs => negb (bool_decide (length cs = 0%nat)) && forallb wf_condition cs
  | NotCondition c => wf_condition c
  | WhenThenElseCondition w t e => wf_condition w && wf_condition t && wf_condition e
  | _ => true
  end.

(** ** Another feature for every part of a condition *)
Definition sub_keys : list string := ["conditions"; "condition"; "when"; "then_"; "then"; "else_"; "else"].
Definition is_sub_key (k : yaml) : bool := existsb (fun s => eq_str s k) sub_keys.
(** [g] applied to the [feature] of the condition [v] and of all its parts. *)
Fixpoint refeature (g : yaml → yaml) (v : yaml) : yaml :=
  match v with
  | YDict d => YDict (map (fun kv => (kv.1, if eq_str "feature" kv.1 then g kv.2 else if is_sub_key kv.1 then refeature g kv.2 else kv.2)) d)
  | YList l => YList (map (refeature g) l)
  | _ => v
  end.
Definition refeature_dict (g : yaml → yaml) (d : mapping) : mapping :=
  map (fun kv => (kv.1, if eq_str "feature" kv.1 then g kv.2 else if is_sub_key kv.1 then refeature g kv.2 else kv.2)) d.

(** ** A condition over one value

    The meaning of a condition when every part tests the value [x] and its
    history [h].  Three references over one value are never strictly ordered,
    so a stack is false. *)
Definition on_num (x : FeatureValue) (test : dec → bool) : bool := match x with value_num d => test d | _ => false end.
Definition on_bool (x : FeatureValue) (test : bool → bool) : bool := match x with value_bool b => test b | _ => false end.
Definition on_history (h : list FeatureValue) (R : dec → dec → bool) (n : Z) : bool :=
  (n <=? Z.of_nat (length h)) && match nums_of (last_n n h) with Some ds => pairwise R ds | None => false end.
Fixpoint on_value (x : FeatureValue) (h : list FeatureValue) (c : condition) : bool :=
  match c with
  | EqualsCondition (s_num d) => on_num x (fun y => deqb y d)
  | EqualsCondition (s_bool b) => on_bool x (fun y => Bool.eqb y b)
  | NotEqualsCondition (s_num d) => on_num x (fun y => negb (deqb y d))
  | NotEqualsCondition (s_bool b) => on_bool x (fun y => negb (Bool.eqb y b))
  | GtCondition d => on_num x (fun y => dltb d y)
  | GteCondition d => on_num x (fun y => dleb d y)
  | LtCondition d => on_num x (fun y => dltb y d)
  | LteCondition d => on_num x (fun y => dleb y d)
  | BetweenCondition a b => on_num x (fun y => dleb a y && dleb y b)
  | InCondition ((s_bool _ :: _) as vs) => on_bool x (fun y => py_in (bool_dec y) vs)
  | InCondition vs => on_num x (fun y => py_in y vs)
  | RisingCondition n => on_history h dltb n
  | FallingCondition n => on_history h (fun a b => dltb b a) n
  | EmaStackCondition _ _ => false
  | AndCondition cs => forallb (on_value x h) cs
  | OrCondition cs => existsb (on_value x h) cs
  | NotCondition c => negb (on_value x h c)
  | WhenThenElseCondition w t e => if on_value x h w then on_value x h t else on_value x h e
  | PluginCondition _ _ => false
  end.
Lemma series_on_history sg ref x h R n : (2 <=? n) = true → series_test (context_of sg ref x h) R n = on_history h R n.
Proof.
  intros Hn%Z.leb_le. unfold series_test, on_history, context_of. cbn. destruct (decide (h = [])) as [->|Hh].
  - rewrite lookup_empty. cbn. by rewrite (proj2 (Z.leb_gt _ _)) by lia.
  - by rewrite lookup_singleton_eq.
Qed.
Lemma stack_on_value sg ref x h refs up :
  length refs = 3%nat → Scoring.holds (context_of sg ref x h) (EmaStackCondition refs up) = false.
Proof.
  intros Hl. cbn. destruct (stack_values refs _) as [ds|] eqn:Hs; [|done]. apply stack_of_singleton in Hs as [Hlen [d Hd]].
  apply (pairwise_const _ d); [destruct up; apply dltb_irrefl|lia|done].
Qed.
Lemma holds_on_value sg ref x h c : wf_condition c = true → Scoring.holds (context_of sg ref x h) c = on_value x h c.
Proof.
  induction c as [c Hc|cs IH|cs IH|c IH|w t e IHw IHt IHe] using condition_tree_ind; intros Hwf.
  - destruct c; try done; try (rewrite stack_on_value; [done|by apply bool_decide_eq_true in Hwf]; fail);
      cbn [Scoring.holds on_value wf_condition] in *; try (by apply series_on_history);
      unfold scalar_test, num_test, bool_test, on_num, on_bool, context_of; cbn [rc_feature_snapshot rc_feature_ref];
      rewrite ?lookup_singleton_eq; repeat case_match; try done.
  - cbn in *. apply andb_true_iff in Hwf as [_ Hwf]. induction IH as [|c cs Hc _ IHcs]; cbn in *; [done|]. bool_simpl. by rewrite Hc, IHcs.
  - cbn in *. apply andb_true_iff in Hwf as [_ Hwf]. induction IH as [|c cs Hc _ IHcs]; cbn in *; [done|]. bool_simpl. by rewrite Hc, IHcs.
  - cbn in *. by rewrite IH.
  - cbn in *. bool_simpl. by rewrite IHw, IHt, IHe.
Qed.

(** ** A valid configuration *)
Definition valid_bot_id (s : string) : Prop :=
  ∃ c body nl, String.list_ascii_of_string s = c :: body ++ nl ∧ is_lower c = true ∧ Forall (fun a => id_char a = true) body ∧
    (nl = [] ∨ nl = [newline]).
Definition valid_variant (v : ShadowVariant) : Prop :=
  sv_name v ≠ "" ∧ ∀ k, is_Some (sv_overrides v !! k) → k ∈ EXECUTION_OVERRIDE_FIELDS.
Definition valid_config (b : BotConfig) : Prop :=
  valid_bot_id (b_bot_id b) ∧ 1 <= b_version b ∧
  NoDup (rl_name <$> sc_rules (b_scoring b)) ∧ Forall (fun r => wf_condition (rl_condition r) = true) (sc_rules (b_scoring b)) ∧
  risk_valid (b_risk b) = true ∧
  (∀ s, b_sizing b = Some s → structural_guards s = Ok s) ∧
  (∀ c, b_shadow b = Some c → shadow_valid c = true ∧ Forall valid_variant (sh_variants c)).

Section facts.
Context (coerce_int : yaml → res Z) (coerce_bool : yaml → res bool) (coerce_dec : yaml → res dec) (repr : yaml → string).
#[local] Abbreviation parse_step := (parse_step repr).
#[local] Abbreviation parse_fuel := (parse_fuel repr).
#[local] Abbreviation parse_condition := (parse_condition repr).

Lemma build_simple_wf k spec c : build_simple k spec = Ok c → wf_condition c = true.
Proof.
  unfold build_simple. intros H. load_inv. destruct k; cbn in *; load_inv; try done.
  all: unfold min_2 in *; load_inv; done.
Qed.
Lemma parse_ema_stack_wf spec c : parse_ema_stack spec = Ok c → wf_condition c = true.
Proof.
  unfold parse_ema_stack. intros H. repeat case_match; load_inv; try done.
  all: match goal with H : collect _ _ = Ok _ |- _ => apply collect_Forall2, Forall2_length in H end.
  all: subst; cbn in *; by apply bool_decide_eq_true_2.
Qed.
Lemma parse_step_wf reg rec spec c :
  (∀ v c, rec v = Ok c → wf_condition c = true) → parse_step reg rec spec = Ok c → wf_condition c = true.
Proof.
  intros Hrec. unfold Loader.parse_step. intros H. load_inv.
  assert (∀ cs, parse_subs rec spec = Ok cs → negb (bool_decide (length cs = 0%nat)) && forallb wf_condition cs = true) as Hsubs.
  { unfold parse_subs. intros cs Hcs. case_match; load_inv; try done. apply andb_true_iff. split; [done|].
    apply forallb_forall, List.Forall_forall. eapply collect_Forall; [|eassumption]. cbn. eauto. }
  destruct a; load_inv; eauto using build_simple_wf, parse_ema_stack_wf; cbn.
  - unfold parse_not in *. case_match; load_inv; try done. cbn. eauto.
  - unfold parse_when_then_else in *. repeat case_match; load_inv; try done. subst. cbn.
    repeat match goal with H : rec _ = Ok _ |- _ => apply Hrec in H; rewrite H end. done.
  - unfold parse_plugin in *. repeat case_match; load_inv; try done. by subst.
Qed.
Lemma parse_fuel_wf reg n v c : parse_fuel reg n v = Ok c → wf_condition c = true.
Proof.
  revert v c. induction n as [|n IH]; intros v c H; [done|]. cbn in H. load_inv. eauto using parse_step_wf.
Qed.

(** ** The depth of the value is enough fuel *)
Lemma max_list_with_le {A} (f : A → nat) l x : x ∈ l → (f x <= max_list_with f l)%nat.
Proof. induction l as [|y l IH]; intros Hx; [set_solver|]. apply elem_of_cons in Hx as [->|Hx]; cbn; [lia|]. specialize (IH Hx). lia. Qed.
Lemma elem_depth v l : v ∈ l → (depth v < depth (YList l))%nat.
Proof. intros Hv. cbn. apply (max_list_with_le depth) in Hv. lia. Qed.
Lemma get_elem k d v : get k d = Some v → ∃ k', (k', v) ∈ d.
Proof.
  induction d as [|[k' v'] d IH]; cbn; [done|]. destruct (eq_str k k').
  - intros [= ->]. exists k'. left.
  - intros (k2 & H)%IH. exists k2. by right.
Qed.
Lemma get_depth k d v : get k d = Some v → (depth v < depth (YDict d))%nat.
Proof. intros (k' & Hin)%get_elem. cbn. apply (max_list_with_le (fun kv : yaml * yaml => Nat.max (depth kv.1) (depth kv.2))) in Hin. cbn in Hin. lia. Qed.
Lemma getn_depth k d v : getn k d = YDict v → (depth (YDict v) < depth (YDict d))%nat.
Proof. unfold getn. destruct (get k d) as [y|] eqn:E; intros H; cbv in H; [subst y; exact (get_depth _ _ _ E)|done]. Qed.
Lemma branch_depth k a d v : branch k a d = YDict v → (depth (YDict v) < depth (YDict d))%nat.
Proof. unfold branch. destruct (get k d) eqn:E; [intros ->; exact (get_depth _ _ _ E) | apply getn_depth]. Qed.

Lemma list_depth k d l x : default (YList []) (get k d) = YList l → x ∈ l → (depth x < depth (YDict d))%nat.
Proof.
  destruct (get k d) as [v|] eqn:E; intros H Hx; cbv in H; [subst v; apply get_depth in E; apply elem_depth in Hx; lia|].
  injection H as <-. set_solver.
Qed.

Lemma parse_step_ext reg r1 r2 spec :
  (∀ v, (depth v < depth (YDict spec))%nat → r1 v = r2 v) → parse_step reg r1 spec = parse_step reg r2 spec.
Proof.
  intros Hr. unfold Loader.parse_step. destruct (dispatch _) as [k|]; cbn; [|done].
  assert (parse_subs r1 spec = parse_subs r2 spec) as Hs.
  { unfold parse_subs. case_match; try done. rewrite (collect_ext r1 r2); [done|]. intros x Hx. apply Hr.
    eauto using list_depth. }
  destruct k; try done; try by rewrite Hs.
  - unfold parse_not. case_match eqn:E; try done. rewrite Hr; [done|]. eauto using getn_depth.
  - unfold parse_when_then_else. repeat case_match; try done.
    rewrite !Hr by eauto using getn_depth, branch_depth. done.
Qed.
Lemma parse_fuel_enough reg n m v : (depth v < n)%nat → (depth v < m)%nat → parse_fuel reg n v = parse_fuel reg m v.
Proof.
  revert m v. induction n as [|n IH]; intros m v Hn Hm; [lia|]. destruct m as [|m]; [lia|]. cbn.
  destruct v; cbn [items]; try done. unfold mbind, res_bind. apply parse_step_ext.
  intros v Hv. apply IH; lia.
Qed.
(** The recursive equation of the source holds: no call runs out of fuel. *)
Lemma parse_condition_unfold reg v : parse_condition reg v = (d ← items v; parse_step reg (parse_condition reg) d).
Proof.
  unfold Loader.parse_condition at 1. cbn. destruct v as [| | | | | |d| |]; try done. unfold items, mbind, res_bind.
  apply parse_step_ext. intros v' Hv'. apply parse_fuel_enough; lia.
Qed.
Lemma keys_depth (d : mapping) v : v ∈ d.*1 → (depth v < depth (YDict d))%nat.
Proof.
  intros ([k x] & -> & Hin)%list_elem_of_fmap. cbn.
  apply (max_list_with_le (fun kv : yaml * yaml => Nat.max (depth kv.1) (depth kv.2))) in Hin. cbn in Hin. lia.
Qed.
Lemma iter_depth k (d : mapping) l v :
  py_iter (py_or (default (YList []) (get k d)) (YList [])) = Ok l → v ∈ l → (depth v < depth (YDict d))%nat.
Proof.
  unfold py_or. destruct (get k d) as [w|] eqn:E; cbn -[depth]; [|intros [= <-]; set_solver].
  apply get_depth in E. revert E. generalize (depth (YDict d)). intros n E. destruct (truthy w); cbn; [|intros [= <-]; set_solver].
  destruct w; cbn; intros [= <-] Hv; try done.
  - apply list_elem_of_fmap in Hv as (c & -> & _). cbn. lia.
  - apply elem_depth in Hv. lia.
  - apply keys_depth in Hv. lia.
Qed.
Lemma extract_step_ext r1 r2 spec :
  (∀ d, (depth (YDict d) < depth (YDict spec))%nat → r1 d = r2 d) → extract_step r1 spec = extract_step r2 spec.
Proof.
  intros Hr.
  assert (∀ l, (∀ v, v ∈ l → (depth v < depth (YDict spec))%nat) → first_feature r1 l = first_feature r2 l) as Hf.
  { induction l as [|v l IH]; intros Hl; [done|]. cbn. specialize (IH (fun x Hx => Hl x (list_elem_of_further _ _ _ Hx))).
    destruct v; try done. rewrite Hr by (apply Hl; left). by rewrite IH. }
  assert (∀ ks, first_feature r1 ((fun k => getn k spec) <$> ks) = first_feature r2 ((fun k => getn k spec) <$> ks)) as Hk.
  { intros ks. apply Hf. intros v (k & -> & _)%list_elem_of_fmap. unfold getn.
    destruct (get k spec) as [v|] eqn:E; [exact (get_depth _ _ _ E) | cbn; lia]. }
  assert (∀ k, py_iter (py_or (default (YList []) (get k spec)) (YList [])) ≫= first_feature r1 =
               py_iter (py_or (default (YList []) (get k spec)) (YList [])) ≫= first_feature r2) as Hi.
  { intros k. destruct (py_iter _) eqn:E; cbn; [|done]. apply Hf. eauto using iter_depth. }
  unfold extract_step. destruct (str_of _); [done|]. case_match; [done|]. rewrite Hi, Hk.
  destruct (getn "condition" spec) eqn:E; try done. by rewrite Hr by eauto using getn_depth.
Qed.
Lemma extract_fuel_enough n m d : (depth (YDict d) <= n)%nat → (depth (YDict d) <= m)%nat → extract_fuel n d = extract_fuel m d.
Proof.
  revert m d. induction n as [|n IH]; intros m d Hn Hm; [cbn in *; lia|]. destruct m as [|m]; [cbn in *; lia|].
  cbn [extract_fuel]. apply extract_step_ext. intros d' Hd. apply IH; lia.
Qed.
Lemma extract_feature_unfold d : extract_feature d = extract_step extract_feature d.
Proof.
  unfold extract_feature at 1. destruct (depth (YDict d)) as [|n] eqn:E; [done|]. cbn [extract_fuel].
  apply extract_step_ext. intros d' Hd. apply extract_fuel_enough; lia.
Qed.

(** ** Conditions ignore the features of their parts *)
Lemma get_refeature g k d :
  get k (refeature_dict g d) =
    if (k =? "feature")%string then g <$> get k d else if is_sub_key (YStr k) then refeature g <$> get k d else get k d.
Proof.
  induction d as [|[k' v] d IH]; cbn [refeature_dict map get fst snd].
  { by destruct (k =? "feature")%string, (is_sub_key (YStr k)). }
  destruct (eq_str k k') eqn:E; [|exact IH].
  destruct k'; try done. cbn in E. apply String.eqb_eq in E as ->. cbn [eq_str].
  destruct (k =? "feature")%string; [done|]. by destruct (is_sub_key (YStr k)).
Qed.
Lemma getn_refeature g k d :
  (k =? "feature")%string = false → is_sub_key (YStr k) = false → getn k (refeature_dict g d) = getn k d.
Proof. intros Hf Hk. unfold getn. by rewrite get_refeature, Hf, Hk. Qed.
Lemma getn_refeature_sub g k d :
  (k =? "feature")%string = false → is_sub_key (YStr k) = true → getn k (refeature_dict g d) = refeature g (getn k d).
Proof. intros Hf Hk. unfold getn. rewrite get_refeature, Hf, Hk. by destruct (get k d). Qed.
Lemma branch_refeature g k a d :
  (k =? "feature")%string = false → is_sub_key (YStr k) = true → (a =? "feature")%string = false → is_sub_key (YStr a) = true →
  branch k a (refeature_dict g d) = refeature g (branch k a d).
Proof. intros Hf Hk Haf Ha. unfold branch. rewrite get_refeature, Hf, Hk. destruct (get k d); [done|]. by apply getn_refeature_sub. Qed.
Lemma keys_refeature g d (f : yaml → bool) : forallb (fun '(k, _) => f k) (refeature_dict g d) = forallb (fun '(k, _) => f k) d.
Proof. induction d as [|[k v] d IH]; [done|]. cbn. by f_equal. Qed.

(** Keys the two operations of [build_simple] treat alike. *)
Definition plain_fields (fs : list string) : bool := forallb (fun f => negb (f =? "feature")%string && negb (is_sub_key (YStr f))) fs.
Lemma coerce_refeature g fs d :
  plain_fields fs = true → coerce_fields fs (refeature_dict g d) = refeature_dict g <$> coerce_fields fs d.
Proof.
  intros Hfs. unfold coerce_fields. induction d as [|[k v] d IH]; [done|]. cbn [refeature_dict map collect fst snd].
  fold (refeature_dict g d). destruct (existsb (fun f => eq_str f k) fs) eqn:E.
  - apply existsb_exists in E as (f & Hf & He). destruct k; try done. cbn in He. apply String.eqb_eq in He as ->.
    unfold plain_fields in Hfs. rewrite forallb_forall in Hfs. apply Hfs in Hf. bool_simpl.
    cbn [eq_str]. rewrite H, H0. destruct (to_decimal v); [|done]. cbn -[is_sub_key]. rewrite IH.
    destruct (collect _ d); [|done]. cbn -[is_sub_key]. by rewrite H, H0.
  - cbn. rewrite IH. by destruct (collect _ d).
Qed.
Lemma strip_refeature g d : strip_meta (refeature_dict g d) = refeature_dict g (strip_meta d).
Proof. induction d as [|[k v] d IH]; [done|]. cbn. destruct (negb _); [|exact IH]. cbn. by f_equal. Qed.
Lemma build_model_refeature g k d : build_model k (refeature_dict g d) = build_model k d.
Proof. unfold build_model, field. by rewrite !get_refeature. Qed.
Lemma build_simple_refeature g k d : build_simple k (refeature_dict g d) = build_simple k d.
Proof.
  unfold build_simple. rewrite coerce_refeature by by destruct k. destruct (coerce_fields _ d) as [d'|]; [|done].
  cbn [fmap res_fmap mbind res_bind]. rewrite strip_refeature. unfold kwargs.
  rewrite (keys_refeature g _ (fun k => match k with YStr _ => true | _ => false end)).
  destruct (forallb _ _); cbn; [apply build_model_refeature|done].
Qed.
Lemma collect_map {A B C} (h : A → B) (f : B → res C) l : collect f (map h l) = collect (fun x => f (h x)) l.
Proof. induction l as [|x l IH]; cbn; [done|]. by rewrite IH. Qed.

Lemma parse_step_refeature reg g rec d :
  (∀ v, rec (refeature g v) = rec v) → parse_step reg rec (refeature_dict g d) = parse_step reg rec d.
Proof.
  intros Hrec. unfold Loader.parse_step. rewrite getn_refeature by done. destruct (dispatch _) as [k|]; [|done].
  cbn [mbind res_bind].
  assert (parse_subs rec (refeature_dict g d) = parse_subs rec d) as Hs.
  { unfold parse_subs. rewrite get_refeature. cbn. destruct (get "conditions" d) as [[]|]; cbn; try done.
    by rewrite collect_map, (collect_ext _ rec). }
  destruct k; try apply build_simple_refeature; try by rewrite Hs.
  - unfold parse_ema_stack. rewrite !getn_refeature by done.
    by rewrite (keys_refeature g _ (fun k => match k with YStr _ => true | _ => false end)).
  - unfold parse_not. rewrite getn_refeature_sub by done. destruct (getn "condition" d) as [| | | | | |d'| |] eqn:E; cbn; try done.
    exact (f_equal (fmap NotCondition) (Hrec (YDict d'))).
  - unfold parse_when_then_else. rewrite getn_refeature_sub, !branch_refeature by done.
    destruct (getn "when" d) as [| | | | | |w| |]; try done; destruct (branch "then_" "then" d) as [| | | | | |t| |]; try done;
    destruct (branch "else_" "else" d) as [| | | | | |e| |]; try done.
    pose proof (Hrec (YDict w)) as Hw. pose proof (Hrec (YDict t)) as Ht. pose proof (Hrec (YDict e)) as He.
    cbn [refeature] in *. by rewrite Hw, Ht, He.
  - unfold parse_plugin. rewrite getn_refeature by done. by rewrite !get_refeature.
Qed.

Lemma parse_fuel_refeature reg g n v : parse_fuel reg n (refeature g v) = parse_fuel reg n v.
Proof.
  revert v. induction n as [|n IH]; intros v; [done|]. cbn. destruct v; try done. by apply parse_step_refeature.
Qed.

(** ** The sections *)
Lemma bot_id_charset_valid s : bot_id_charset s = true → valid_bot_id s.
Proof.
  unfold bot_id_charset, valid_bot_id. destruct (String.list_ascii_of_string s) as [|c l]; [done|]. intros [Hc Ht]%andb_true_iff.
  enough (∃ body nl, l = body ++ nl ∧ Forall (fun a => id_char a = true) body ∧ (nl = [] ∨ nl = [newline])) as (b & nl & -> & ? & ?).
  { exists c, b, nl. auto. }
  clear Hc. induction l as [|a l IH]; [exists [], []; auto|]. destruct l as [|a' l'].
  - cbn in Ht. apply orb_true_iff in Ht as [H|H%bool_decide_eq_true].
    + exists [a], []. auto.
    + subst. exists [], [newline]. auto.
  - apply andb_true_iff in Ht as [Ha Ht]. destruct (IH Ht) as (b & nl & -> & Hb & Hn). exists (a :: b), nl. auto.
Qed.
Lemma build_rule_wf reg d r : build_rule repr reg d = Ok r → wf_condition (rl_condition r) = true.
Proof.
  unfold build_rule. intros H. case_match; load_inv; try done.
  all: subst r; cbn; eapply parse_fuel_wf; eassumption.
Qed.
Lemma parse_scoring_ok reg v sc :
  parse_scoring repr reg v = Ok sc →
  NoDup (rl_name <$> sc_rules sc) ∧ Forall (fun r => wf_condition (rl_condition r) = true) (sc_rules sc).
Proof.
  unfold parse_scoring. intros H. case_match; load_inv; try done. unfold scoring_config in *. load_inv.
  cbn. split; [by eapply bool_decide_eq_true_1|].
  eapply collect_Forall; [|eassumption]. cbn. eauto using build_rule_wf.
Qed.
Lemma parse_risk_valid v r : parse_risk coerce_int coerce_bool coerce_dec v = Ok r → risk_valid r = true.
Proof.
  unfold parse_risk. intros H. case_match; load_inv; unfold risk_section in *; load_inv; cbn zeta in *; load_inv;
    match goal with H : _ && _ = true |- _ => apply andb_true_iff in H as [_ H]; exact H end.
Qed.
Lemma structural_guards_same s s' : structural_guards s = Ok s' → s' = s.
Proof. unfold structural_guards. intros H. repeat case_match; by simplify_eq. Qed.
Lemma parse_sizing_ok v s : parse_sizing coerce_dec v = Ok (Some s) → structural_guards s = Ok s.
Proof.
  unfold parse_sizing. intros H. case_match; load_inv; [done|]. case_match; load_inv; try done.
  match goal with H : structural_guards _ = Ok ?x |- _ => pose proof (structural_guards_same _ _ H) as E end.
  simplify_eq. congruence.
Qed.
Lemma parse_variant_ok d v : parse_variant coerce_dec d = Ok v → valid_variant v.
Proof.
  unfold parse_variant. intros H. load_inv. match goal with H : _ && _ = true |- _ => apply andb_true_iff in H as [Hn Hk] end.
  split; cbn.
  - intros ->. done.
  - intros k [x Hx]. unfold override_keys_known in Hk. rewrite forallb_forall in Hk. eapply bool_decide_eq_true_1, Hk, list_elem_of_In.
    apply list_elem_of_fmap. exists (k, x). split; [done|]. by apply elem_of_map_to_list.
Qed.
Lemma parse_shadow_ok v c : parse_shadow coerce_dec v = Ok (Some c) → shadow_valid c = true ∧ Forall valid_variant (sh_variants c).
Proof.
  unfold parse_shadow. intros H. case_match; load_inv; [done|]. case_match; load_inv; try done. simplify_eq. split; [done|].
  cbn. eapply collect_Forall; [|eassumption]. cbn. eauto using parse_variant_ok.
Qed.
Lemma load_data_valid reg v b : load_data coerce_int coerce_bool coerce_dec repr reg v = Ok b → valid_config b.
Proof.
  unfold load_data. intros H. case_match; load_inv; try done. unfold bot_config in *. load_inv. bool_simpl.
  repeat match goal with H : parse_scoring _ _ _ = Ok _ |- _ => apply parse_scoring_ok in H as [? ?] end.
  unfold valid_config; cbn. split_and!; eauto using bot_id_charset_valid, parse_risk_valid.
  - intros s ->. eauto using parse_sizing_ok.
  - intros s ->. eauto using parse_shadow_ok.
Qed.

(** ** Unknown keys of the risk and sizing blocks *)
Lemma coerce_fields_keys fs d d' : coerce_fields fs d = Ok d' → d'.*1 = d.*1.
Proof.
  unfold coerce_fields. intros H%collect_Forall2. induction H as [|[k v] [k' v'] l l' Hk _ IH]; [done|].
  cbn in *. rewrite IH. case_match; load_inv; by simplify_eq.
Qed.
Lemma known_keys_fst fs d d' : d'.*1 = d.*1 → known_keys fs d' = known_keys fs d.
Proof.
  revert d'. induction d as [|[k v] d IH]; intros [|[k' v'] d'] H; try done. cbn in H. injection H as -> H.
  cbn. f_equal. by apply IH.
Qed.
Lemma kwargs_same d d' : kwargs (YDict d) = Ok d' → d' = d.
Proof. cbn. destruct (forallb _ d); congruence. Qed.
(** A misspelt knob of the [risk] block, or an unknown key of [sizing], is refused. *)
Lemma risk_keys_known d r : d ≠ [] → parse_risk coerce_int coerce_bool coerce_dec (YDict d) = Ok r → known_keys RISK_FIELDS d = true.
Proof.
  intros Hd. unfold parse_risk. destruct d as [|kv d]; [done|]. cbn [truthy negb]. intros H. load_inv.
  match goal with H : items _ = Ok _ |- _ => injection H as <- end.
  match goal with H : kwargs _ = Ok _ |- _ => apply kwargs_same in H as -> end.
  unfold risk_section in *. load_inv. cbn zeta in *. load_inv.
  match goal with H : _ && _ = true |- _ => apply andb_true_iff in H as [H _] end.
  match goal with H : coerce_fields _ _ = Ok _ |- _ => apply coerce_fields_keys in H as Hk end.
  rewrite <- (known_keys_fst _ _ _ Hk). done.
Qed.
Lemma sizing_keys_known d s : parse_sizing coerce_dec (YDict d) = Ok (Some s) → known_keys SIZING_FIELDS d = true.
Proof.
  unfold parse_sizing. intros H. case_match; load_inv; [done|]. case_match; load_inv; try done.
  match goal with H : kwargs _ = Ok _ |- _ => apply kwargs_same in H as -> end.
  match goal with H : py_dict _ = Ok _ |- _ => cbn in H; injection H as <- end. done.
Qed.

(** ** The plugin registry *)
Context (import_class : string → string → res (option rule_class)).
Definition registry_agrees (reg : plugin_registry) : Prop :=
  map_Forall (fun key cls => cl_name cls = Some key.1 ∧ cl_version cls = Some key.2) reg.
Lemma register_agrees reg e reg' :
  register repr import_class reg e = Ok reg' → registry_agrees reg → registry_agrees reg' ∧ base.size reg' = S (base.size reg).
Proof.
  unfold register. intros H Hr. repeat (case_match; load_inv; try done).
  all: repeat match goal with H : negb _ = false |- _ => apply negb_false_iff, String.eqb_eq in H end.
  all: repeat match goal with H : class_attr ?o = Ok _ |- _ => destruct o eqn:?; cbn in H; [injection H as H|done] end.
  subst. cbn in *. split.
  - apply map_Forall_insert_2; [|done]. cbn. naive_solver.
  - apply map_size_insert_None. match goal with H : bool_decide _ = false |- _ => apply bool_decide_eq_false_1, eq_None_not_Some in H; exact H end.
Qed.
Lemma register_all_agrees entries reg reg' :
  register_all repr import_class reg entries = Ok reg' → registry_agrees reg →
  registry_agrees reg' ∧ base.size reg' = (base.size reg + length entries)%nat.
Proof.
  revert reg. induction entries as [|e l IH]; intros reg H Hr; cbn in H; load_inv; [subst; split; [done|cbn; lia]|].
  match goal with H : register _ _ _ _ = Ok _ |- _ => apply register_agrees in H as [Ha Hs]; [|done] end.
  destruct (IH _ ltac:(eassumption) Ha) as [Hb Ht]. split; [done|]. cbn. lia.
Qed.
(** A registry that loads holds every entry of the file, under the name and
    version of its class. *)
Lemma loaded_registry_agrees d entries reg :
  get "rules" d = Some (YList entries) → load_plugin_registry repr import_class (YDict d) = Ok reg →
  registry_agrees reg ∧ base.size reg = length entries.
Proof.
  intros Hd. cbn. rewrite Hd. intros H%register_all_agrees; [by rewrite map_size_empty in H|]. apply map_Forall_empty.
Qed.
Lemma loaded_registry_agrees_all v reg : load_plugin_registry repr import_class v = Ok reg → registry_agrees reg.
Proof.
  unfold load_plugin_registry. intros H. repeat case_match; load_inv; subst; try done; try apply map_Forall_empty.
  eapply register_all_agrees; [eassumption|apply map_Forall_empty].
Qed.

(** ** The start of an engine *)
Section start.
Context (read_text : string → res string) (safe_load : string → res yaml).
#[local] Abbreviation lifespan := (lifespan coerce_int coerce_bool coerce_dec repr import_class read_text safe_load).
Lemma reconciled_not_stale bot_id now d x d' st :
  reconcile_kill_switch_on_startup bot_id now d = (x, d') → bot_kill_switch_state d' !! bot_id = Some st → is_stale_daily_latch st now = false.
Proof.
  unfold reconcile_kill_switch_on_startup. intros H Hst. rewrite (st_bind_run _ _ d d d) in H by done. destruct (bot_kill_switch_state d !! bot_id) as [st0|] eqn:E0.
  - destruct (is_stale_daily_latch st0 now) eqn:Es.
    + unfold clear_kill_switch, modify in H. cbn in H. injection H as <- <-. cbn in Hst. rewrite lookup_insert_eq in Hst. by injection Hst as <-.
    + cbn in H. injection H as <- <-. congruence.
  - cbn in H. injection H as <- <-. congruence.
Qed.

(** C26: an engine that starts has loaded a configuration that satisfies every
    validator (characters of the bot id, version, unique rule names, shapes of
    the conditions, risk knobs, sizing guards, shadow variants); it has opened
    the pool and the bus before it subscribed, the handler runs under the bot id
    of the settings, and a daily latch of an earlier day is gone unless the
    database could not be reached.  A start that fails has not subscribed. *)
Theorem engine_starts_on_valid_config registry_path config_dir bot_id f now db r s' :
  lifespan registry_path config_dir bot_id f now (mkEngine [] db) = (r, s') →
  match r with
  | Ok cfg =>
      valid_config cfg ∧ en_resources s' = [pool_open; bus_open; subscribed (run_as bot_id cfg)] ∧
      (sf_reconcile f = false → ∀ st, bot_kill_switch_state (en_db s') !! bot_id = Some st → is_stale_daily_latch st now = false)
  | Err _ => ∀ b, subscribed b ∉ en_resources s'
  end.
Proof.
  unfold Loader.lifespan, open_resource, reconcile_step. intros H.
  destruct (sf_pool f), (sf_bus f), (sf_reconcile f) eqn:Ef, (sf_subscribe f); st_inv; subst; cbn; try set_solver.
  all: repeat match goal with H : load_bot_config _ _ _ _ _ _ _ _ = Ok _ |- _ => unfold load_bot_config, load_bot_config_from_string in H; inv_ok end.
  all: split_and!; [by eapply load_data_valid|done|]; intros ?; try done.
  intros st Hst. destruct (reconcile_kill_switch_on_startup bot_id now db) eqn:E. eauto using reconciled_not_stale.
Qed.
End start.

Lemma parse_condition_refeature reg g v : parse_condition reg (refeature g v) = parse_condition reg v.
Proof.
  unfold Loader.parse_condition.
  rewrite (parse_fuel_enough reg _ (S (depth (refeature g v) + depth v)) (refeature g v)) by lia.
  rewrite (parse_fuel_enough reg _ (S (depth (refeature g v) + depth v)) v) by lia.
  apply parse_fuel_refeature.
Qed.

End facts.

(** ** The texts the control plane stores

    [POST /configs/{bot_id}/apply] and [POST /backtests] load the text before
    they write it, without a plugin registry. *)
Section stored.
Context (load : string → res (string * Z)) (sha256_hex : string → string) (show_time : Z → string).
Definition loads (text bot_id : string) : Prop := ∃ v, load text = Ok (bot_id, v).
Definition vetted_request (r : request) : Prop :=
  match r with
  | apply_current p | apply_max p _ | apply_insert p _ _ => loads (ar_yaml_text p) (ar_bot_id p)
  | apply_update p _ row | apply_audit p _ row | apply_commit p row _ => loads (cf_config_yaml row) (ar_bot_id p)
  | run_check p | run_insert p => loads (rq_config_yaml p) (rq_bot_id p)
  | run_audit _ _ row | run_commit _ _ row _ => loads (run_config_yaml row) (run_bot_id row)
  | _ => True
  end.
Record vetted (d0 : admin_db) (c : admin_state) : Prop := {
  ve_configs b v row : ad_configs (as_db c) !! (b, v) = Some row → ad_configs d0 !! (b, v) = Some row ∨ loads (cf_config_yaml row) b;
  ve_runs id row : ad_runs (as_db c) !! id = Some row → ad_runs d0 !! id = Some row ∨ loads (run_config_yaml row) (run_bot_id row);
  ve_requests : map_Forall (fun _ => vetted_request) (as_requests c);
}.
Lemma vetted_set d0 c c' i r :
  vetted d0 c → as_db c' = as_db c → as_requests c' = <[i := r]> (as_requests c) → vetted_request r → vetted d0 c'.
Proof.
  intros [Hc Hr Hq] Hd Hi Hv. split; [by rewrite Hd|by rewrite Hd|]. rewrite Hi. by apply map_Forall_insert_2.
Qed.
Lemma vetted_commit d0 c c' i r r' :
  vetted d0 c → as_requests c !! i = Some r → as_db c' = commit r (as_db c) → as_requests c' = <[i := r']> (as_requests c) →
  vetted_request r' → vetted d0 c'.
Proof.
  intros [Hc Hr Hq] Hi Hd Hi' Hv. pose proof (Hq i r Hi) as Hvr. split.
  - intros b v row. rewrite Hd. destruct r; cbn; try apply Hc.
    intros [[[= <- <-] <-]|[_ H]]%lookup_insert_Some; [by right|by apply Hc].
  - intros id row. rewrite Hd. destruct r; cbn; try apply Hr.
    intros [[<- <-]|[_ H]]%lookup_insert_Some; [by right|by apply Hr].
  - rewrite Hi'. by apply map_Forall_insert_2.
Qed.
Lemma vetted_advance d0 c i c' : vetted d0 c → advance sha256_hex show_time i c = Some c' → vetted d0 c'.
Proof.
  intros Hv E. unfold advance in E. destruct (as_requests c !! i) as [r|] eqn:Hi; [|done]. pose proof (ve_requests _ _ Hv i r Hi) as Hr.
  destruct r; try done; repeat case_match; try done; injection E as <-;
    first [eapply (vetted_set _ _ _ i); done | eapply (vetted_commit _ _ _ i); done].
Qed.
Lemma vetted_step d0 c c' : vetted d0 c → admin_step load sha256_hex show_time c c' → vetted d0 c'.
Proof.
  intros Hv Hs. destruct Hs as [c i p Hi|c i p Hi|c i p Hi|c i c' Hi|c i r Hi Ho|c i r Hi Ho].
  - eapply (vetted_set _ _ _ i); [done..|]. unfold apply_bot_config. destruct (load _) as [[b v]|e] eqn:E; [|done].
    destruct (String.eqb_spec b (ar_bot_id p)); [subst; by exists v|done].
  - eapply (vetted_set _ _ _ i); [done..|]. unfold symbol_map_endpoint. by destruct (sq_op p).
  - eapply (vetted_set _ _ _ i); [done..|]. unfold trigger_backtest_run. destruct (_ <=? _); [done|].
    destruct (load _) as [[b v]|e] eqn:E; [|done]. destruct (String.eqb_spec b (rq_bot_id p)); [subst; by exists v|done].
  - by eapply vetted_advance.
  - by eapply (vetted_set _ _ _ i).
  - by eapply (vetted_commit _ _ _ i).
Qed.
Lemma vetted_reachable d n m k c : admin_run load sha256_hex show_time (mkAdminState d ∅ n m k) c → vetted d c.
Proof.
  assert (vetted d (mkAdminState d ∅ n m k)) as Hv by (split; [by left|by left|apply map_Forall_empty]).
  revert Hv. generalize (mkAdminState d ∅ n m k). intros c0 Hv Hrun. induction Hrun as [|c1 c2 c3 Hs _ IH]; [done|]. by apply IH, (vetted_step _ c1).
Qed.
End stored.

Section api.
Context (coerce_int : yaml → res Z) (coerce_bool : yaml → res bool) (coerce_dec : yaml → res dec) (repr : yaml → string).
Context (safe_load : string → res yaml) (sha256_hex : string → string) (show_time : Z → string).
Definition load_text : string → res BotConfig := load_bot_config_from_string coerce_int coerce_bool coerce_dec repr safe_load None.
Definition api_load (text : string) : res (string * Z) := (fun b => (b_bot_id b, b_version b)) <$> load_text text.
Lemma api_load_valid text b : loads api_load text b → ∃ cfg, load_text text = Ok cfg ∧ b_bot_id cfg = b ∧ valid_config cfg.
Proof.
  intros [v H]. unfold api_load in H. destruct (load_text text) as [cfg|] eqn:E; [|done]. cbn in H. injection H as <- _.
  exists cfg. split_and!; [done|done|]. unfold load_text, load_bot_config_from_string in E. inv_ok. by eapply load_data_valid.
Qed.

(** C32: however the requests of the control plane interleave and whichever
    connection is lost, every stored version of a bot's configuration, and the
    text of every queued backtest, loads again: to a configuration of that bot
    which satisfies every validator. *)
Theorem stored_configs_are_valid d n m k c :
  ad_configs d = ∅ → ad_runs d = ∅ → admin_run api_load sha256_hex show_time (mkAdminState d ∅ n m k) c →
  (∀ b v row, ad_configs (as_db c) !! (b, v) = Some row →
     ∃ cfg, load_text (cf_config_yaml row) = Ok cfg ∧ b_bot_id cfg = b ∧ valid_config cfg) ∧
  (∀ id row, ad_runs (as_db c) !! id = Some row →
     ∃ cfg, load_text (run_config_yaml row) = Ok cfg ∧ b_bot_id cfg = run_bot_id row ∧ valid_config cfg).
Proof.
  intros Hc Hr [Hvc Hvr _]%vetted_reachable. split.
  - intros b v row [H|H]%Hvc; [by rewrite Hc, lookup_empty in H|by apply api_load_valid].
  - intros id row [H|H]%Hvr; [by rewrite Hr, lookup_empty in H|by apply api_load_valid].
Qed.
End api.

(** ** A configuration, and what the loader lets pass *)
Section examples.
#[local] Abbreviation no_int := (fun _ : yaml => @invalid Z "int").
#[local] Abbreviation no_bool := (fun _ : yaml => @invalid bool "bool").
#[local] Abbreviation no_dec := (fun _ : yaml => @invalid dec "decimal").
#[local] Abbreviation no_repr := (fun _ : yaml => "").
#[local] Abbreviation load := (load_data no_int no_bool no_dec no_repr None).

Definition dict_of (l : list (string * yaml)) : yaml := YDict ((fun '(k, v) => (YStr k, v)) <$> l).
Definition num (text : string) : yaml := YFloat (FNum text).
Definition gt_rsi : yaml := dict_of [("type", YStr "gt"); ("feature", YStr "ind.btcusdt.1m.rsi_14"); ("value", YInt 50)].
Definition lt_adx : yaml := dict_of [("type", YStr "lt"); ("feature", YStr "ind.btcusdt.1m.adx_14"); ("value", YStr "20.5")].
Definition demo_and : yaml := dict_of [("type", YStr "and"); ("conditions", YList [gt_rsi; lt_adx])].
Definition demo_rule_yaml : yaml := dict_of [("name", YStr "trend"); ("weight", num "1.5"); ("condition", demo_and)].
Definition demo_execution : yaml := dict_of [
  ("qty", YStr "0.001"); ("leverage", YInt 10); ("sl_pct", YStr "0.01"); ("tp_pct", YStr "0.015"); ("tp_qty_pct", YStr "0.5");
  ("be_trigger", YStr "0.005"); ("be_sl_level", YStr "0.003"); ("trail_pct", num "0.005"); ("fee_rate", num "0.00055")].
Definition demo_sizing : yaml := dict_of [
  ("tiers", YList [dict_of [("balance_min", YInt 0); ("size", YInt 500)]; dict_of [("balance_min", YInt 500); ("size", YInt 700)]]);
  ("score_multipliers", dict_of [("4", num "0.5"); ("5", YInt 1)]); ("max_notional_per_symbol", dict_of [("default", YInt 1000)])].
Definition demo_shadow : yaml := dict_of [
  ("enabled", YBool true); ("variants", YList [dict_of [("name", YStr "tight"); ("overrides", dict_of [("sl_pct", num "0.002")])]])].
Definition demo_config_with (trading shadow sizing : yaml) : yaml := dict_of [
  ("bot_id", YStr "demo"); ("version", YInt 1);
  ("exchange", dict_of [("mode", YStr "demo"); ("account", YStr "sub_demo"); ("api_key_env", YStr "KEY"); ("api_secret_env", YStr "SECRET")]);
  ("signals", dict_of [("ttl_seconds", YInt 120); ("source_filter", YList [YStr "tv_demo"])]);
  ("trading", trading); ("execution", demo_execution);
  ("scoring", dict_of [("mode", YStr "active"); ("trigger_threshold", num "1.0"); ("rules", YList [demo_rule_yaml])]);
  ("shadow", shadow); ("risk", dict_of [("max_open_trades_per_bot", YInt 1); ("daily_loss_limit_usd", num "100.5")]); ("sizing", sizing)].
Definition demo_trading : yaml := dict_of [("universe", YList [YStr "BTCUSDT"])].
Definition demo_config : yaml := demo_config_with demo_trading demo_shadow demo_sizing.
Definition demo_files (path : string) : res string := Ok path.
Definition demo_load (text : string) : res yaml := if (text =? "plugins")%string then Ok YNone else Ok demo_config.
Definition no_import (_ _ : string) : res (option rule_class) := Err (RuntimeError "no module").
Definition demo_db (now : Z) : risk_db :=
  mkRiskDb [] [] {["demo" := mkKill true (Some daily_loss_limit) (Some 0) (Some (utc_date now - 1)) None 0]} ∅.

Lemma engine_starts_on_valid_config_witness :
  ∃ cfg s', lifespan no_int no_bool no_dec no_repr no_import demo_files demo_load "plugins" "bots" "demo"
      (mkStart None None false None) 86400000000 (mkEngine [] (demo_db 86400000000)) = (Ok cfg, s') ∧
    valid_config cfg ∧ b_symbols cfg = ["BTCUSDT"] ∧ ks_tripped <$> bot_kill_switch_state (en_db s') !! "demo" = Some false.
Proof.
  destruct (lifespan no_int no_bool no_dec no_repr no_import demo_files demo_load "plugins" "bots" "demo"
      (mkStart None None false None) 86400000000 (mkEngine [] (demo_db 86400000000))) as [r s'] eqn:E.
  pose proof (engine_starts_on_valid_config _ _ _ _ _ _ _ _ _ _ _ _ _ _ _ E) as H.
  vm_compute in E. injection E as <- <-. eexists _, _. split; [reflexivity|]. destruct H as (Hv & _ & _). split; [exact Hv|].
  split; reflexivity.
Defined.

(** [rsi > 20], the ADX below 30, and no stack of averages, over an RSI of 25:
    the ADX is never read. *)
Definition demo_composite : yaml := dict_of [("type", YStr "and"); ("conditions", YList [
  dict_of [("type", YStr "gt"); ("feature", YStr "ind.btcusdt.1m.rsi_14"); ("value", YInt 20)];
  dict_of [("type", YStr "lt"); ("feature", YStr "ind.btcusdt.1m.adx_14"); ("value", YInt 30)];
  dict_of [("type", YStr "not"); ("condition", dict_of [("type", YStr "ema_stack"); ("direction", YStr "up");
    ("short", YStr "ind.btcusdt.1m.ema_9"); ("mid", YStr "ind.btcusdt.1m.ema_21"); ("long", YStr "ind.btcusdt.1m.ema_50")])]])].

Definition demo_bots : admin_db := mkAdminDb {["demo" := mkBotsTableRow "Demo" 0 "active" "demo" "" 0 (Json.JObj [])]} ∅ ∅ ∅ [].
Definition apply_demo : apply_request := mkApply "demo" "text" "operator" None 1 (lan "10.0.0.1").
Lemma stored_configs_are_valid_witness :
  ∃ c row cfg, admin_run (api_load no_int no_bool no_dec no_repr demo_load) same_text no_time (mkAdminState demo_bots ∅ 1 1 1) c ∧
    ad_configs (as_db c) !! ("demo", 1) = Some row ∧ load_text no_int no_bool no_dec no_repr demo_load (cf_config_yaml row) = Ok cfg ∧ valid_config cfg.
Proof.
  assert (∃ c, schedule [0; 0; 0; 0; 0; 0]%nat (mkAdminState demo_bots {[0%nat := apply_current apply_demo]} 1 1 1) = Some c ∧
    is_Some (ad_configs (as_db c) !! ("demo", 1))) as (c & Hs & [row Hrow]) by (eexists; split; [reflexivity|vm_compute; eauto]).
  assert (admin_run (api_load no_int no_bool no_dec no_repr demo_load) same_text no_time (mkAdminState demo_bots ∅ 1 1 1) c) as Hrun.
  { unfold admin_run. eapply rtc_l; [apply (step_apply _ _ _ _ 0 apply_demo); reflexivity|]. apply (schedule_run _ [0; 0; 0; 0; 0; 0]%nat), Hs. }
  destruct (stored_configs_are_valid no_int no_bool no_dec no_repr demo_load same_text no_time demo_bots 1 1 1 c eq_refl eq_refl Hrun) as [H _].
  destruct (H "demo" 1 row Hrow) as (cfg & Hl & _ & Hv). exists c, row, cfg. split_and!; assumption.
Defined.
(** A configuration with a plugin condition is refused by the control plane,
    which has no registry. *)
Lemma api_refuses_plugins spec c : eq_str "plugin" (getn "type" spec) = true → Loader.parse_condition no_repr None (YDict spec) ≠ Ok c.
Proof.
  intros H. rewrite parse_condition_unfold. cbn [items mbind res_bind]. unfold parse_step.
  destruct (getn "type" spec); try done. cbn in H. apply String.eqb_eq in H as ->. done.
Qed.
(** The rule tests the RSI against both numbers. *)
Lemma composite_reads_one_feature :
  match demo_and, demo_rule_yaml with
  | YDict c, YDict r =>
      Loader.parse_condition no_repr None demo_and = Ok (AndCondition [GtCondition (mkDec 50 0); LtCondition (mkDec 205 (-1))]) ∧
      rl_feature <$> build_rule no_repr None r = Ok "ind.btcusdt.1m.rsi_14"
  | _, _ => False
  end.
Proof. vm_compute. auto. Qed.
(** A universe given as one string becomes its letters. *)
Lemma universe_string_splits :
  b_symbols <$> load (demo_config_with (dict_of [("universe", YStr "BTC")]) YNone YNone) = Ok ["B"; "T"; "C"].
Proof. vm_compute. reflexivity. Qed.
(** A misspelt key of the shadow block, and a tier that is not a mapping, are dropped. *)
Lemma shadow_typo_dropped :
  fmap sh_enabled <$> (b_shadow <$> load (demo_config_with demo_trading (dict_of [("enabld", YBool true)]) YNone)) = Ok (Some false).
Proof. vm_compute. reflexivity. Qed.
Lemma tier_dropped :
  fmap (length ∘ tiers) <$> (b_sizing <$> load (demo_config_with demo_trading YNone (dict_of [
    ("tiers", YList [dict_of [("balance_min", YInt 0); ("size", YInt 500)]; YStr "500: 700"]);
    ("score_multipliers", dict_of [("4", num "0.5")]); ("max_notional_per_symbol", dict_of [("default", YInt 1000)])]))) = Ok (Some 1%nat).
Proof. vm_compute. reflexivity. Qed.
(** [$] of the pattern admits a final newline. *)
Lemma bot_id_newline_accepted : bot_id_charset (String "a" (String newline "")) = true.
Proof. reflexivity. Qed.
End examples.
