(* ===== verification/Sse.v ===== *)
(** * Server-sent events of the analytics API

    Models services/analytics_api/app/{sse,routers/events,models/events}.py: the
    multiplexer that gives every browser its bus subscriptions and a bounded
    queue, and the generator that writes the stream.  Every [await] is a point
    where other clients run, where the library call fails, or where the task is
    cancelled: [CancelledError] passes the [except Exception] of the code.

    A set of event types is a list without repetition.  Times are microseconds;
    the wire text of an event is not built, an output is the event itself. *)

From S2P Require Import Prelude Json Bus.
From Stdlib Require Import Ascii.
Open Scope Z_scope.

(** ** models/events.py *)
Inductive EventType := POSITIONS | SIGNALS | TRADES | SCORING | ALERTS.
#[global] Instance EventType_eq_dec : EqDecision EventType.
Proof. solve_decision. Defined.
Definition EventType_value (t : EventType) : string :=
  match t with POSITIONS => "positions" | SIGNALS => "signals" | TRADES => "trades" | SCORING => "scoring" | ALERTS => "alerts" end.
Definition event_type_of (s : string) : res EventType :=
  match find (fun t => (EventType_value t =? s)%string) [POSITIONS; SIGNALS; TRADES; SCORING; ALERTS] with
  | Some t => Ok t
  | None => Err (ValueError ("unknown event type " +:+ s))
  end.
Definition is_space (c : ascii) : bool := let n := nat_of_ascii c in (n =? 32)%nat || ((9 <=? n)%nat && (n <=? 13)%nat).
Fixpoint lstrip (s : list ascii) : list ascii := match s with c :: s' => if is_space c then lstrip s' else s | [] => [] end.
Definition strip (s : list ascii) : list ascii := reverse (lstrip (reverse (lstrip s))).
Fixpoint split_commas (s : list ascii) : list (list ascii) :=
  match s with
  | [] => [[]]
  | c :: s' =>
      if bool_decide (c = ","%char) then [] :: split_commas s'
      else match split_commas s' with w :: ws => (c :: w) :: ws | [] => [[c]] end
  end.
Definition add_type (t : EventType) (ts : list EventType) : list EventType := if bool_decide (t ∈ ts) then ts else ts ++ [t].
Fixpoint parse_tokens (tokens : list (list ascii)) (parsed : list EventType) : res (list EventType) :=
  match tokens with
  | [] => Ok parsed
  | token :: rest =>
      match strip token with
      | [] => parse_tokens rest parsed
      | t => e ← event_type_of (String.string_of_list_ascii t); parse_tokens rest (add_type e parsed)
      end
  end.
Definition parse_types (raw : string) : res (list EventType) :=
  match strip (String.list_ascii_of_string raw) with
  | [] => Err (ValueError "types query param is required and non-empty")
  | stripped =>
      parsed ← parse_tokens (split_commas stripped) [];
      match parsed with [] => Err (ValueError "types query param is required and non-empty") | _ => Ok parsed end
  end.

(** ** Subjects and filters *)
Abbreviation Envelope := (MessageEnvelope dict).
Record sse_event := mkEvent { ev_type : EventType; ev_payload : dict; ev_correlation_id : string; ev_published_at : Z }.
Definition envelope_to_sse_event (e : Envelope) (t : EventType) : sse_event := mkEvent t (payload e) (correlation_id e) (published_at e).
(** [payload.get("event_type") in names]: a list or a dict has no hash. *)
Definition event_type_in (names : list string) (p : dict) : res bool :=
  match dict_get "event_type" p with
  | Some (JStr s) => Ok (bool_decide (s ∈ names))
  | Some (JList _) | Some (JObj _) => Err (TypeError "unhashable type")
  | _ => Ok false
  end.
Definition POSITIONS_EVENT_TYPES : list string := ["order_closed"; "sl_moved"].
Definition TRADES_EVENT_TYPES : list string := ["order_placed"; "order_filled"].
Definition filter_for_type (e : Envelope) (t : EventType) : res bool :=
  match t with
  | POSITIONS => event_type_in POSITIONS_EVENT_TYPES (payload e)
  | TRADES => event_type_in TRADES_EVENT_TYPES (payload e)
  | _ => Ok true
  end.
Abbreviation subscription := (string * list EventType)%type.
Definition subjects_for_types (types : list EventType) : list subscription :=
  let has t := bool_decide (t ∈ types) in
  let shared_orders := (if has POSITIONS then [POSITIONS] else []) ++ (if has TRADES then [TRADES] else []) in
  (match shared_orders with [] => [] | _ => [("orders.events.>", shared_orders)] end) ++
  (if has SIGNALS then [("signals.validated", [SIGNALS])] else []) ++
  (if has SCORING then [("signals.rejected.>", [SCORING])] else []) ++
  (if has ALERTS then [("system.alerts", [ALERTS])] else []).

(** ** A client: where its registration is, its queue and its stream *)
Inductive phase :=
| subscribing (todo : list subscription)   (** awaits the first one *)
| rolling_back (todo : list subscription)
| streaming
| unregistering (todo : list subscription)
| gone
| lost.                                    (** cancelled at an await of these *)
Inductive wire := w_connected | w_heartbeat | w_data (ev : sse_event).
Record ClientHandle := mkClient {
  cl_phase : phase;
  cl_subscriptions : list subscription;    (** [handle.subscriptions] *)
  cl_live : list subscription;             (** those the server delivers to *)
  cl_queue : list (option sse_event);      (** [None] is the sentinel *)
  cl_overflow_count : Z; cl_last_overflow_log : Z; cl_warnings : Z;
  cl_is_active : bool;
  cl_generator : bool;                     (** the response is being streamed *)
  cl_heartbeat_at : Z; cl_out : list wire;
}.
Record multiplexer := mkMux { mx_clients : gmap nat ClientHandle; mx_active_count : Z }.

Definition set_phase (p : phase) (h : ClientHandle) : ClientHandle :=
  mkClient p (cl_subscriptions h) (cl_live h) (cl_queue h) (cl_overflow_count h) (cl_last_overflow_log h) (cl_warnings h) (cl_is_active h)
    (cl_generator h) (cl_heartbeat_at h) (cl_out h).
Definition set_queue (q : list (option sse_event)) (h : ClientHandle) : ClientHandle :=
  mkClient (cl_phase h) (cl_subscriptions h) (cl_live h) q (cl_overflow_count h) (cl_last_overflow_log h) (cl_warnings h) (cl_is_active h)
    (cl_generator h) (cl_heartbeat_at h) (cl_out h).
Definition set_live (l : list subscription) (h : ClientHandle) : ClientHandle :=
  mkClient (cl_phase h) (cl_subscriptions h) l (cl_queue h) (cl_overflow_count h) (cl_last_overflow_log h) (cl_warnings h) (cl_is_active h)
    (cl_generator h) (cl_heartbeat_at h) (cl_out h).
Definition put_client (i : nat) (h : ClientHandle) (m : multiplexer) : multiplexer := mkMux (<[i := h]> (mx_clients m)) (mx_active_count m).
Definition add_count (n : Z) (m : multiplexer) : multiplexer := mkMux (mx_clients m) (mx_active_count m + n).

Section mux.
Context (maxsize : nat) (max_connections overflow_log_interval heartbeat_interval : Z).

(** ** The queue: [asyncio.Queue(maxsize)] *)
Definition full (q : list (option sse_event)) : bool := (0 <? maxsize)%nat && (maxsize <=? length q)%nat.
(** [put_nowait], dropping the oldest entry of a full queue. *)
Definition put_dropping (x : option sse_event) (q : list (option sse_event)) : list (option sse_event) :=
  if full q then tail q ++ [x] else q ++ [x].
Definition enqueue_with_overflow (now : Z) (ev : sse_event) (h : ClientHandle) : ClientHandle :=
  if full (cl_queue h) then
    let logs := overflow_log_interval <=? now - cl_last_overflow_log h in
    mkClient (cl_phase h) (cl_subscriptions h) (cl_live h) (put_dropping (Some ev) (cl_queue h)) (cl_overflow_count h + 1)
      (if logs then now else cl_last_overflow_log h) (if logs then cl_warnings h + 1 else cl_warnings h) (cl_is_active h)
      (cl_generator h) (cl_heartbeat_at h) (cl_out h)
  else set_queue (put_dropping (Some ev) (cl_queue h)) h.
(** The closure of [_make_handler]; the bus swallows what it raises. *)
Fixpoint handler (now : Z) (subject_types : list EventType) (e : Envelope) (h : ClientHandle) : ClientHandle :=
  match subject_types with
  | [] => h
  | t :: rest =>
      match filter_for_type e t with
      | Err _ => h
      | Ok false => handler now rest e h
      | Ok true => handler now rest e (enqueue_with_overflow now (envelope_to_sse_event e t) h)
      end
  end.

(** ** register_client *)
Definition new_client (todo : list subscription) : ClientHandle :=
  mkClient (match todo with [] => streaming | _ => subscribing todo end) [] [] [] 0 0 0 true (match todo with [] => true | _ => false end) 0 [].
(** Up to the first await; [None]: SSEConnectionLimitError, answered 503. *)
Definition register_client (i : nat) (types : list EventType) (m : multiplexer) : option multiplexer :=
  if max_connections <=? mx_active_count m then None
  else Some (put_client i (new_client (subjects_for_types types)) (add_count 1 m)).
(** The request: 422 for unreadable types, 503 when there is no slot left. *)
Inductive stream_answer := refused (status : Z) | accepted (m : multiplexer).
Definition stream_events (i : nat) (raw : string) (m : multiplexer) : stream_answer :=
  match parse_types raw with
  | Err _ => refused 422
  | Ok types => match register_client i types m with None => refused 503 | Some m' => accepted m' end
  end.
Definition subscribe_done (h : ClientHandle) : option ClientHandle :=
  match cl_phase h with
  | subscribing (s :: rest) =>
      Some (mkClient (match rest with [] => streaming | _ => subscribing rest end) (cl_subscriptions h ++ [s]) (cl_live h ++ [s]) (cl_queue h)
        (cl_overflow_count h) (cl_last_overflow_log h) (cl_warnings h) (cl_is_active h) (match rest with [] => true | _ => false end)
        (cl_heartbeat_at h) (cl_out h))
  | _ => None
  end.
(** The slot is given back when the last subscription is rolled back. *)
Definition release (i : nat) (h : ClientHandle) (m : multiplexer) : multiplexer := add_count (-1) (put_client i (set_phase gone h) m).
Definition roll_back (i : nat) (todo : list subscription) (h : ClientHandle) (m : multiplexer) : multiplexer :=
  match todo with [] => release i h m | _ => put_client i (set_phase (rolling_back todo) h) m end.
Definition subscribe_failed (i : nat) (h : ClientHandle) (m : multiplexer) : option multiplexer :=
  match cl_phase h with subscribing (_ :: _) => Some (roll_back i (cl_subscriptions h) h m) | _ => None end.

(** ** unregister_client *)
Definition finish (i : nat) (h : ClientHandle) (m : multiplexer) : multiplexer := release i (set_queue (put_dropping None (cl_queue h)) h) m.
Definition unsubscribe_all (i : nat) (todo : list subscription) (h : ClientHandle) (m : multiplexer) : multiplexer :=
  match todo with [] => finish i h m | _ => put_client i (set_phase (unregistering todo) h) m end.
Definition deactivate (h : ClientHandle) : ClientHandle :=
  mkClient (cl_phase h) (cl_subscriptions h) (cl_live h) (cl_queue h) (cl_overflow_count h) (cl_last_overflow_log h) (cl_warnings h) false
    (cl_generator h) (cl_heartbeat_at h) (cl_out h).
Definition unregister_client (i : nat) (h : ClientHandle) (m : multiplexer) : multiplexer :=
  if negb (cl_is_active h) then m else unsubscribe_all i (cl_subscriptions h) (deactivate h) m.
(** The server has answered an unsubscribe, or the call raised: either way the
    loop goes on. *)
Definition drop_live (fails : bool) (s : subscription) (h : ClientHandle) : ClientHandle :=
  if fails then h else set_live (filter (fun x => x ≠ s) (cl_live h)) h.
Definition unsubscribed (fails : bool) (i : nat) (h : ClientHandle) (m : multiplexer) : option multiplexer :=
  match cl_phase h with
  | rolling_back (s :: rest) => Some (roll_back i rest (drop_live fails s h) m)
  | unregistering (s :: rest) => Some (unsubscribe_all i rest (drop_live fails s h) m)
  | _ => None
  end.
Definition cancelled (i : nat) (h : ClientHandle) (m : multiplexer) : option multiplexer :=
  match cl_phase h with
  | subscribing _ | rolling_back _ | unregistering _ => Some (put_client i (set_phase lost h) m)
  | _ => None
  end.

(** ** The generator of routers/events.py *)
Definition emit (w : wire) (now : Z) (h : ClientHandle) : ClientHandle :=
  mkClient (cl_phase h) (cl_subscriptions h) (cl_live h) (cl_queue h) (cl_overflow_count h) (cl_last_overflow_log h) (cl_warnings h) (cl_is_active h)
    (cl_generator h) (now + heartbeat_interval) (cl_out h ++ [w]).
Definition end_generator (h : ClientHandle) : ClientHandle :=
  mkClient (cl_phase h) (cl_subscriptions h) (cl_live h) (cl_queue h) (cl_overflow_count h) (cl_last_overflow_log h) (cl_warnings h) (cl_is_active h)
    false (cl_heartbeat_at h) (cl_out h).
(** Leaving the loop runs the [finally]. *)
Definition leave (i : nat) (h : ClientHandle) (m : multiplexer) : multiplexer :=
  let h' := end_generator h in unregister_client i h' (put_client i h' m).
(** One round of the loop: the first line, a time-out, an event or the sentinel. *)
Definition stream_round (now : Z) (i : nat) (h : ClientHandle) (m : multiplexer) : option multiplexer :=
  if negb (cl_generator h) then None
  else match cl_out h with
       | [] => Some (put_client i (emit w_connected now h) m)
       | _ =>
           if cl_heartbeat_at h <=? now then Some (put_client i (emit w_heartbeat now h) m)
           else match cl_queue h with
                | [] => None
                | Some ev :: q => Some (put_client i (emit (w_data ev) now (set_queue q h)) m)
                | None :: q => Some (leave i (set_queue q h) m)
                end
       end.

(** What a message is to the types of a subscription. *)
Fixpoint matching (subject_types : list EventType) (e : Envelope) : list sse_event :=
  match subject_types with
  | [] => []
  | t :: rest =>
      match filter_for_type e t with
      | Err _ => []
      | Ok false => matching rest e
      | Ok true => envelope_to_sse_event e t :: matching rest e
      end
  end.

(** ** The service: requests, messages, answers of the bus.  The label holds the
    events a step offers to a client. *)
Inductive sse_step : list (nat * sse_event) → multiplexer → multiplexer → Prop :=
| step_register i raw m m' : mx_clients m !! i = None → stream_events i raw m = accepted m' → sse_step [] m m'
| step_subscribed i h h' m : mx_clients m !! i = Some h → subscribe_done h = Some h' → sse_step [] m (put_client i h' m)
| step_subscribe_failed i h m m' : mx_clients m !! i = Some h → subscribe_failed i h m = Some m' → sse_step [] m m'
| step_unsubscribed fails i h m m' : mx_clients m !! i = Some h → unsubscribed fails i h m = Some m' → sse_step [] m m'
| step_cancelled i h m m' : mx_clients m !! i = Some h → cancelled i h m = Some m' → sse_step [] m m'
| step_message i h s now e m : mx_clients m !! i = Some h → s ∈ cl_live h →
    sse_step (pair i <$> matching s.2 e) m (put_client i (handler now s.2 e h) m)
| step_round now i h m m' : mx_clients m !! i = Some h → stream_round now i h m = Some m' → sse_step [] m m'
| step_disconnected i h m : mx_clients m !! i = Some h → cl_generator h = true → sse_step [] m (leave i h m)
| step_shutdown i h m : mx_clients m !! i = Some h → cl_phase h = streaming → sse_step [] m (unregister_client i h m).
Inductive sse_run : list (nat * sse_event) → multiplexer → multiplexer → Prop :=
| run_nil m : sse_run [] m m
| run_snoc l l' m m' m'' : sse_run l m m' → sse_step l' m' m'' → sse_run (l ++ l') m m''.
End mux.
