(* ===== verification/SseFacts.v ===== *)
(** * The event stream: slots, order and losses

    The connection counter counts exactly the clients that hold a slot; what a
    browser is sent is what was offered to it, in order, less counted losses; a
    cancellation at an await of the registration keeps its slot for ever. *)

From S2P Require Import Prelude Json Bus Sse.
Open Scope Z_scope.

Definition occupied (h : ClientHandle) : bool := match cl_phase h with gone => false | _ => true end.
Definition slots (m : multiplexer) : Z := Z.of_nat (base.size (filter (fun kv => occupied kv.2 = true) (mx_clients m))).
Definition occ (h : ClientHandle) : Z := if occupied h then 1 else 0.

Lemma slots_insert_new i h (m : multiplexer) : mx_clients m !! i = None → slots (put_client i h m) = slots m + occ h.
Proof.
  intros Hi. unfold slots, occ; cbn. destruct (occupied h) eqn:E.
  - rewrite map_filter_insert_True by done. rewrite map_size_insert_None; [lia|].
    apply map_lookup_filter_None. by left.
  - rewrite map_filter_insert_False by (cbn; congruence). rewrite delete_id by done. lia.
Qed.
Lemma slots_insert i h h' (m : multiplexer) : mx_clients m !! i = Some h → slots (put_client i h' m) = slots m - occ h + occ h'.
Proof.
  intros Hi. set (m0 := mkMux (delete i (mx_clients m)) (mx_active_count m)).
  assert (∀ x, slots (put_client i x m) = slots m0 + occ x) as H.
  { intros x. rewrite <- (slots_insert_new i) by (cbn; apply lookup_delete_eq). unfold put_client, m0. cbn. by rewrite insert_delete_eq. }
  specialize (H h) as H1. assert (put_client i h m = m) as E by (destruct m; unfold put_client; cbn in *; by rewrite insert_id).
  rewrite E in H1. rewrite H. lia.
Qed.

(** What the phase of a client says about its flags. *)
Definition client_ok (h : ClientHandle) : Prop :=
  match cl_phase h with
  | subscribing _ => cl_generator h = false ∧ cl_is_active h = true
  | rolling_back _ => cl_generator h = false
  | streaming => cl_is_active h = true
  | unregistering _ => cl_is_active h = false
  | gone | lost => cl_generator h = true → cl_is_active h = false
  end.

Section facts.
Context (maxsize : nat) (max_connections overflow_log_interval heartbeat_interval : Z).
#[local] Abbreviation step := (sse_step maxsize max_connections overflow_log_interval heartbeat_interval).
#[local] Abbreviation run := (sse_run maxsize max_connections overflow_log_interval heartbeat_interval).
#[local] Abbreviation handle_message := (handler maxsize overflow_log_interval).
#[local] Abbreviation enqueue := (enqueue_with_overflow maxsize overflow_log_interval).
Lemma accepted_registers i raw m m' : stream_events max_connections i raw m = accepted m' →
  mx_active_count m < max_connections ∧ ∃ ts, m' = put_client i (new_client (subjects_for_types ts)) (add_count 1 m).
Proof.
  unfold stream_events, register_client. destruct (parse_types raw) as [ts|]; [|done]. destruct (_ <=? _) eqn:E; [done|].
  intros [= <-]. bool_simpl. split; [lia|eauto].
Qed.

Record slot_inv (m : multiplexer) : Prop := {
  si_count : mx_active_count m = slots m;
  si_max : mx_active_count m <= max_connections;
  si_clients : map_Forall (fun _ => client_ok) (mx_clients m);
}.
(** A client that keeps its slot, and one that gives it back. *)
Lemma slot_put i h h' m : mx_clients m !! i = Some h → slot_inv m → occ h' = occ h → client_ok h' → slot_inv (put_client i h' m).
Proof.
  intros Hi [Hc Hm Hk] Ho Hok. split; [rewrite (slots_insert i h) by done; cbn; lia|done|by apply map_Forall_insert_2].
Qed.
Lemma slot_release i h h' m : mx_clients m !! i = Some h → slot_inv m → occ h = 1 →
  (cl_generator h' = true → cl_is_active h' = false) → slot_inv (release i h' m).
Proof.
  intros Hi [Hc Hm Hk] Ho Hok. unfold release. split; cbn; [|lia|by apply map_Forall_insert_2].
  change (slots (add_count (-1) (put_client i (set_phase gone h') m))) with (slots (put_client i (set_phase gone h') m)).
  rewrite (slots_insert i h) by done. unfold occ at 2. cbn. lia.
Qed.
Lemma occ_new todo : occ (new_client todo) = 1.
Proof. by destruct todo. Qed.
Lemma client_ok_new todo : client_ok (new_client todo).
Proof. by destruct todo. Qed.
Lemma occ_phase h h' : cl_phase h' = cl_phase h → occ h' = occ h.
Proof. unfold occ, occupied. by intros ->. Qed.
Lemma handler_flags now ts e h :
  cl_phase (handle_message now ts e h) = cl_phase h ∧ cl_generator (handle_message now ts e h) = cl_generator h ∧
  cl_is_active (handle_message now ts e h) = cl_is_active h.
Proof.
  revert h. induction ts as [|t ts IH]; intros h; cbn; [done|]. destruct (filter_for_type e t) as [[]|]; [|apply IH|done].
  destruct (IH (enqueue now (envelope_to_sse_event e t) h)) as (-> & -> & ->). unfold enqueue_with_overflow. by destruct (full _ _).
Qed.
Lemma client_ok_same h h' : cl_phase h' = cl_phase h → cl_generator h' = cl_generator h → cl_is_active h' = cl_is_active h → client_ok h → client_ok h'.
Proof. unfold client_ok. by intros -> -> ->. Qed.

Lemma slot_roll_back i todo h h0 m : mx_clients m !! i = Some h0 → slot_inv m → occ h0 = 1 → cl_generator h = false → slot_inv (roll_back i todo h m).
Proof.
  intros Hi Hinv Ho Hg. unfold roll_back. destruct todo.
  - eapply slot_release; [done..|]. by rewrite Hg.
  - by eapply slot_put.
Qed.
Lemma slot_unsubscribe_all i todo h h0 m : mx_clients m !! i = Some h0 → slot_inv m → occ h0 = 1 → cl_is_active h = false →
  slot_inv (unsubscribe_all maxsize i todo h m).
Proof.
  intros Hi Hinv Ho Hg. unfold unsubscribe_all, finish. destruct todo.
  - by eapply slot_release.
  - eapply slot_put; [done..|]. by cbn.
Qed.
Lemma slot_leave i h0 h m : mx_clients m !! i = Some h0 → slot_inv m → occ h = occ h0 → client_ok h → cl_generator h = true →
  slot_inv (leave maxsize i h m).
Proof.
  intros Hi Hinv Ho Hok Hg. unfold leave.
  assert (slot_inv (put_client i (end_generator h) m)) as Hinv'.
  { eapply slot_put; [done..|]. unfold client_ok in *. cbn. rewrite Hg in Hok. destruct (cl_phase h); intuition congruence. }
  unfold unregister_client. destruct (cl_is_active (end_generator h)) eqn:Ha; [|done]. cbn in Ha |- *.
  eapply slot_unsubscribe_all; [cbn; apply lookup_insert_eq|done| |done].
  unfold occ, occupied, client_ok in *. cbn. destruct (cl_phase h); try done. exfalso. specialize (Hok Hg). congruence.
Qed.
Lemma slot_step l m m' : slot_inv m → step l m m' → slot_inv m'.
Proof.
  intros Hinv Hs. destruct Hs as [i ts m m' Hi Hr|i h h' m Hi Hr|i h m m' Hi Hr|fails i h m m' Hi Hr|i h m m' Hi Hr|i h s now e m Hi Hs|now i h m m' Hi Hr|i h m Hi Hg|i h m Hi Hp].
  all: try pose proof (si_clients _ Hinv i h Hi) as Hok.
  - apply accepted_registers in Hr as (E & ts' & ->). destruct Hinv as [Hc Hm Hk]. split; cbn; [|lia|].
    + change (mx_active_count m + 1 = slots (put_client i (new_client (subjects_for_types ts')) m)). rewrite slots_insert_new by done.
      rewrite occ_new. lia.
    + apply map_Forall_insert_2; [apply client_ok_new|done].
  - unfold subscribe_done in Hr. unfold client_ok in Hok. destruct (cl_phase h) as [[|s rest]| | | | |] eqn:Ep; try done. injection Hr as <-.
    eapply slot_put; [done..| |].
    + unfold occ, occupied. cbn. rewrite Ep. by destruct rest.
    + unfold client_ok. cbn. destruct Hok as [_ Ha]. destruct rest; cbn; auto.
  - unfold subscribe_failed in Hr. unfold client_ok in Hok. destruct (cl_phase h) as [[|s rest]| | | | |] eqn:Ep; try done. injection Hr as <-.
    eapply slot_roll_back; [done..| |]; [unfold occ, occupied; by rewrite Ep|]. by destruct Hok.
  - unfold unsubscribed in Hr. unfold client_ok in Hok. destruct (cl_phase h) as [|[|s rest]| |[|s rest]| |] eqn:Ep; try done; injection Hr as <-.
    + eapply slot_roll_back; [done..| |]; [unfold occ, occupied; by rewrite Ep|]. by destruct fails.
    + eapply slot_unsubscribe_all; [done..| |]; [unfold occ, occupied; by rewrite Ep|]. by destruct fails.
  - unfold cancelled in Hr. unfold client_ok in Hok. destruct (cl_phase h) eqn:Ep; try done; injection Hr as <-;
      (eapply slot_put; [done..| |]; [unfold occ, occupied; by rewrite Ep|]); unfold client_ok; cbn; intros; [destruct Hok|..]; congruence.
  - destruct (handler_flags now s.2 e h) as (H1 & H2 & H3). eapply slot_put; [done..|by apply occ_phase|by eapply client_ok_same].
  - unfold stream_round in Hr. destruct (cl_generator h) eqn:Hg; [|done]. cbn in Hr.
    assert (∀ w q, slot_inv (put_client i (emit heartbeat_interval w now (set_queue q h)) m)) as He.
    { intros w q. eapply slot_put; [done..| |by eapply client_ok_same]. by apply occ_phase. }
    destruct (cl_out h); [injection Hr as <-; exact (He w_connected (cl_queue h))|].
    destruct (_ <=? now); [injection Hr as <-; exact (He w_heartbeat (cl_queue h))|].
    destruct (cl_queue h) as [|[ev|] q]; [done|injection Hr as <-; apply He|]. injection Hr as <-.
    by eapply slot_leave.
  - by eapply slot_leave.
  - unfold unregister_client. destruct (cl_is_active h); [|done]. eapply slot_unsubscribe_all; [done..| |done]. unfold occ, occupied. by rewrite Hp.
Qed.
Lemma slot_run l m m' : slot_inv m → run l m m' → slot_inv m'.
Proof. intros Hinv Hr. induction Hr; [done|]. eapply slot_step; [by apply IHHr|done]. Qed.
Lemma slot_start : 0 <= max_connections → slot_inv (mkMux ∅ 0).
Proof. intros H. split; [done|done|apply map_Forall_empty]. Qed.


(** ** What a client is sent *)
Definition sent (h : ClientHandle) : list sse_event := omap (fun w => match w with w_data ev => Some ev | _ => None end) (cl_out h).
Definition pending (h : ClientHandle) : list sse_event := omap id (cl_queue h).
Definition is_gone (h : ClientHandle) : bool := negb (occupied h).
(** Sent and pending events are offered ones in their order; the others were
    dropped from a full queue and counted, the one the sentinel displaced apart. *)
Record stream_ok (offered : list sse_event) (h : ClientHandle) : Prop := {
  so_bound : (0 < maxsize)%nat → (length (cl_queue h) <= maxsize)%nat;
  so_order : sublist (sent h ++ pending h) offered;
  so_losses : if is_gone h
    then Z.of_nat (length offered) - Z.of_nat (length (sent h ++ pending h)) <= cl_overflow_count h + 1
    else Z.of_nat (length offered) - Z.of_nat (length (sent h ++ pending h)) = cl_overflow_count h ∧ None ∉ cl_queue h;
}.
Lemma ok_same off h h' :
  cl_queue h' = cl_queue h → sent h' = sent h → cl_overflow_count h' = cl_overflow_count h → (is_gone h = true → is_gone h' = true) →
  stream_ok off h → stream_ok off h'.
Proof.
  intros Hq Hs Ho Hg [Hb Hor Hl]. assert (pending h' = pending h) as Hp by (unfold pending; by rewrite Hq).
  split; rewrite ?Hq, ?Hs, ?Hp, ?Ho; [done|done|]. destruct (is_gone h); [by rewrite Hg|]. destruct (is_gone h'); [lia|done].
Qed.
Lemma pending_app q q' : omap id (q ++ q') = omap id q ++ omap (M:=list) (@id (option sse_event)) q'.
Proof. apply omap_app. Qed.
Lemma put_bound x q : (0 < maxsize)%nat → (length q <= maxsize)%nat → (length (put_dropping maxsize x q) <= maxsize)%nat.
Proof.
  intros Hm Hq. unfold put_dropping, full. rewrite (proj2 (Nat.ltb_lt _ _) Hm). cbn.
  destruct (Nat.leb_spec maxsize (length q)); rewrite length_app; [destruct q|]; cbn in *; lia.
Qed.
Lemma full_cons q : full maxsize q = true → ∃ x q', q = x :: q'.
Proof. unfold full. intros [H1%Nat.ltb_lt H2%Nat.leb_le]%andb_true_iff. destruct q; cbn in *; [lia|eauto]. Qed.
Lemma drop_sublist (s q : list sse_event) x off : sublist (s ++ x :: q) off → sublist (s ++ q) off.
Proof. intros H. etrans; [|exact H]. apply sublist_app; [done|]. by constructor. Qed.
Lemma ok_enqueue off now ev h : stream_ok off h → stream_ok (off ++ [ev]) (enqueue now ev h).
Proof.
  intros [Hb Hor Hl]. unfold enqueue_with_overflow.
  assert (sublist ((sent h ++ pending h) ++ [ev]) (off ++ [ev])) as Hor' by (by apply sublist_app).
  rewrite <- app_assoc in Hor'. unfold put_dropping. destruct (full maxsize (cl_queue h)) eqn:Ef.
  - destruct (full_cons _ Ef) as ([x|] & q & Eq); split; unfold is_gone, occupied, sent, pending in *; cbn in *; rewrite Eq in *; cbn in *.
    all: rewrite ?omap_app, ?length_app; cbn.
    + intros Hm. specialize (Hb Hm). cbn in *. lia.
    + by apply drop_sublist in Hor'.
    + rewrite !length_app in *. cbn in *. destruct (cl_phase h); cbn in *; try lia; destruct Hl; split; try lia; set_solver.
    + intros Hm. specialize (Hb Hm). cbn in *. lia.
    + done.
    + rewrite !length_app in *. cbn in *. destruct (cl_phase h); cbn in *; try lia; destruct Hl as [_ []]; left.
  - split; unfold is_gone, occupied, sent, pending in *; cbn in *; rewrite ?omap_app; cbn.
    + intros Hm. pose proof (put_bound (Some ev) (cl_queue h) Hm (Hb Hm)) as H. unfold put_dropping in H. by rewrite Ef in H.
    + done.
    + rewrite !length_app in *. cbn in *. destruct (cl_phase h); cbn in *; try lia; destruct Hl; split; try lia; set_solver.
Qed.
Lemma ok_handler off now ts e h : stream_ok off h → stream_ok (off ++ matching ts e) (handle_message now ts e h).
Proof.
  revert off h. induction ts as [|t ts IH]; intros off h Hok; cbn; [by rewrite app_nil_r|].
  destruct (filter_for_type e t) as [[]|]; [|by apply IH|by rewrite app_nil_r].
  change (envelope_to_sse_event e t :: matching ts e) with ([envelope_to_sse_event e t] ++ matching ts e).
  rewrite app_assoc. apply IH. by apply ok_enqueue.
Qed.

Lemma ok_finish off h : is_gone h = false → stream_ok off h → stream_ok off (set_phase gone (set_queue (put_dropping maxsize None (cl_queue h)) h)).
Proof.
  intros Hg [Hb Hor Hl]. rewrite Hg in Hl. destruct Hl as [Hl Hn]. split; unfold is_gone, sent, pending in *; cbn in *.
  - intros Hm. by apply put_bound, Hb.
  - unfold put_dropping. destruct (full maxsize (cl_queue h)) eqn:Ef; rewrite omap_app; cbn; rewrite app_nil_r; [|done].
    destruct (full_cons _ Ef) as ([x|] & q & Eq); rewrite Eq in *; cbn in *; [by eapply drop_sublist|done].
  - unfold put_dropping. destruct (full maxsize (cl_queue h)) eqn:Ef; rewrite omap_app; cbn; rewrite app_nil_r; [|lia].
    destruct (full_cons _ Ef) as ([x|] & q & Eq); rewrite Eq in *; cbn in *; rewrite !length_app in *; cbn in *; lia.
Qed.
Lemma ok_take off ev q now h : cl_queue h = Some ev :: q → stream_ok off h → stream_ok off (emit heartbeat_interval (w_data ev) now (set_queue q h)).
Proof.
  intros Hq [Hb Hor Hl]. split; unfold is_gone, occupied, sent, pending in *; cbn in *; rewrite Hq in *; cbn in *.
  - intros Hm. specialize (Hb Hm). lia.
  - rewrite omap_app, <- app_assoc. done.
  - rewrite omap_app, <- app_assoc. cbn. destruct (cl_phase h); cbn in *; try done; destruct Hl; split; try done; set_solver.
Qed.
Lemma ok_sentinel off q h : cl_queue h = None :: q → stream_ok off h → stream_ok off (set_queue q h).
Proof.
  intros Hq [Hb Hor Hl]. split; unfold is_gone, occupied, sent, pending in *; cbn in *; rewrite Hq in *; cbn in *; [|done|].
  - intros Hm. specialize (Hb Hm). lia.
  - destruct (cl_phase h); cbn in *; try done; destruct Hl as [_ []]; left.
Qed.

Definition offered (i : nat) (l : list (nat * sse_event)) : list sse_event := (filter (fun p => p.1 = i) l).*2.
Lemma offered_app i l l' : offered i (l ++ l') = offered i l ++ offered i l'.
Proof. unfold offered. by rewrite filter_app, fmap_app. Qed.
Lemma offered_own i evs : offered i (pair i <$> evs) = evs.
Proof. unfold offered. induction evs as [|x l IH]; [done|]. rewrite fmap_cons, filter_cons_True by done. cbn. by f_equal. Qed.
Lemma offered_other i j evs : i ≠ j → offered i (pair j <$> evs) = [].
Proof. intros Hij. unfold offered. induction evs as [|x l IH]; [done|]. rewrite fmap_cons, filter_cons_False by (cbn; congruence). done. Qed.

(** Every client's stream, and no offers before it is registered. *)
Definition stream_inv (tr : list (nat * sse_event)) (m : multiplexer) : Prop :=
  ∀ i, match mx_clients m !! i with Some h => stream_ok (offered i tr) h | None => offered i tr = [] end.
Lemma stream_put tr m i h : stream_inv tr m → stream_ok (offered i tr) h → stream_inv tr (put_client i h m).
Proof. intros Hm Hok j. cbn. destruct (decide (j = i)) as [->|]; [by rewrite lookup_insert_eq|rewrite lookup_insert_ne by done; apply Hm]. Qed.
Lemma stream_count tr m n : stream_inv tr m → stream_inv tr (add_count n m).
Proof. done. Qed.
Lemma stream_roll_back tr i todo h m : stream_inv tr m → stream_ok (offered i tr) h → is_gone h = false → stream_inv tr (roll_back i todo h m).
Proof.
  intros Hm Hok Hg. unfold roll_back, release. destruct todo; [apply stream_count|]; (apply stream_put; [done|]);
    apply (ok_same _ h); try done; by rewrite Hg.
Qed.
Lemma stream_unsubscribe_all tr i todo h m : stream_inv tr m → stream_ok (offered i tr) h → is_gone h = false →
  stream_inv tr (unsubscribe_all maxsize i todo h m).
Proof.
  intros Hm Hok Hg. unfold unsubscribe_all, finish, release. destruct todo; [apply stream_count|]; (apply stream_put; [done|]).
  - by apply ok_finish.
  - apply (ok_same _ h); try done; by rewrite Hg.
Qed.
Lemma stream_unregister tr i h m : stream_inv tr m → stream_ok (offered i tr) h → (cl_is_active h = true → is_gone h = false) →
  stream_inv tr (unregister_client maxsize i h m).
Proof.
  intros Hm Hok Hg. unfold unregister_client. destruct (cl_is_active h); [|done]. apply stream_unsubscribe_all; [done| |by apply Hg].
  by apply (ok_same _ h).
Qed.
Lemma stream_leave tr i h m : stream_inv tr m → stream_ok (offered i tr) h → client_ok h → cl_generator h = true → stream_inv tr (leave maxsize i h m).
Proof.
  intros Hm Hok Hc Hg. unfold leave. assert (stream_ok (offered i tr) (end_generator h)) as Hok' by by apply (ok_same _ h).
  apply stream_unregister; [by apply stream_put|done|]. cbn. intros Ha. unfold is_gone, occupied, client_ok in *. cbn.
  destruct (cl_phase h); try done. specialize (Hc Hg). congruence.
Qed.
Lemma drop_live_ok fails s off h : stream_ok off h → stream_ok off (drop_live fails s h).
Proof. destruct fails; [done|]. by apply ok_same. Qed.
Lemma drop_live_gone fails s h : is_gone (drop_live fails s h) = is_gone h.
Proof. by destruct fails. Qed.

Lemma stream_step tr l m m' : slot_inv m → stream_inv tr m → step l m m' → stream_inv (tr ++ l) m'.
Proof.
  intros Hinv Hm Hs.
  destruct Hs as [i ts m m' Hi Hr|i h h' m Hi Hr|i h m m' Hi Hr|fails i h m m' Hi Hr|i h m m' Hi Hr|i h s now e m Hi Hs|now i h m m' Hi Hr|i h m Hi Hg|i h m Hi Hp].
  all: try (pose proof (si_clients _ Hinv i h Hi) as Hc; pose proof (Hm i) as Hok; rewrite Hi in Hok). all: rewrite ?app_nil_r.
  - apply accepted_registers in Hr as (_ & ts' & ->). apply stream_put; [by apply stream_count|].
    pose proof (Hm i) as H0. rewrite Hi in H0. rewrite H0.
    split; destruct (subjects_for_types ts'); cbn; try done; try lia; split; try done; set_solver.
  - unfold subscribe_done in Hr. destruct (cl_phase h) as [[|s rest]| | | | |] eqn:Ep; try done. injection Hr as <-. apply stream_put; [done|].
    apply (ok_same _ h); try done. unfold is_gone, occupied. by rewrite Ep.
  - unfold subscribe_failed in Hr. destruct (cl_phase h) as [[|s rest]| | | | |] eqn:Ep; try done. injection Hr as <-.
    apply stream_roll_back; [done..|]. unfold is_gone, occupied. by rewrite Ep.
  - unfold unsubscribed in Hr. destruct (cl_phase h) as [|[|s rest]| |[|s rest]| |] eqn:Ep; try done; injection Hr as <-;
      [apply stream_roll_back|apply stream_unsubscribe_all]; try done; try (by apply drop_live_ok);
      rewrite drop_live_gone; unfold is_gone, occupied; by rewrite Ep.
  - unfold cancelled in Hr. destruct (cl_phase h) eqn:Ep; try done; injection Hr as <-; (apply stream_put; [done|]);
      apply (ok_same _ h); try done; unfold is_gone, occupied; by rewrite Ep.
  - intros j. cbn. rewrite offered_app. destruct (decide (j = i)) as [->|].
    + rewrite lookup_insert_eq, offered_own. by apply ok_handler.
    + rewrite lookup_insert_ne by done. rewrite offered_other, app_nil_r by done. apply Hm.
  - unfold stream_round in Hr. destruct (cl_generator h) eqn:Hg; [|done]. cbn in Hr.
    assert (∀ w, (∀ ev, w ≠ w_data ev) → stream_inv tr (put_client i (emit heartbeat_interval w now h) m)) as He.
    { intros w Hw. apply stream_put; [done|]. apply (ok_same _ h); try done. unfold sent. cbn. rewrite omap_app. destruct w; cbn; rewrite ?app_nil_r; try done.
      by destruct (Hw ev). }
    destruct (cl_out h); [injection Hr as <-; by apply He|].
    destruct (_ <=? now); [injection Hr as <-; by apply He|].
    destruct (cl_queue h) as [|[ev|] q] eqn:Eq; [done|injection Hr as <-|injection Hr as <-].
    + apply stream_put; [done|]. by apply ok_take.
    + apply stream_leave; [done| | |done]; [by apply ok_sentinel|]. by eapply client_ok_same.
  - by apply stream_leave.
  - apply stream_unregister; [done..|]. intros _. unfold is_gone, occupied. by rewrite Hp.
Qed.
Lemma stream_run tr m : 0 <= max_connections → run tr (mkMux ∅ 0) m → stream_inv tr m.
Proof.
  intros Hmax Hr. remember (mkMux ∅ 0) as m0. induction Hr as [m|l l' m1 m2 m3 Hr IH Hs]; subst.
  - intros i. cbn. by rewrite lookup_empty.
  - eapply stream_step; [by eapply slot_run; [apply slot_start|]|by apply IH|done].
Qed.


(** ** Slots lost to a cancellation *)
Lemma roll_back_other i todo h m k : k ≠ i → mx_clients (roll_back i todo h m) !! k = mx_clients m !! k.
Proof. intros Hk. destruct todo; cbn; by rewrite lookup_insert_ne. Qed.
Lemma unsubscribe_all_other i todo h m k : k ≠ i → mx_clients (unsubscribe_all maxsize i todo h m) !! k = mx_clients m !! k.
Proof. intros Hk. destruct todo; cbn; by rewrite lookup_insert_ne. Qed.
Lemma unregister_other i h m k : k ≠ i → mx_clients (unregister_client maxsize i h m) !! k = mx_clients m !! k.
Proof. intros Hk. unfold unregister_client. destruct (negb _); [done|by apply unsubscribe_all_other]. Qed.
Lemma leave_other i h m k : k ≠ i → mx_clients (leave maxsize i h m) !! k = mx_clients m !! k.
Proof. intros Hk. unfold leave. rewrite unregister_other by done. cbn. by rewrite lookup_insert_ne. Qed.
Lemma leave_lost i h m : cl_phase h = lost → client_ok h → cl_generator h = true →
  ∃ h', mx_clients (leave maxsize i h m) !! i = Some h' ∧ cl_phase h' = lost.
Proof.
  intros Hp Hc Hg. unfold client_ok in Hc. rewrite Hp in Hc. unfold leave, unregister_client. cbn. rewrite (Hc Hg). cbn.
  rewrite lookup_insert_eq. eauto.
Qed.
Lemma lost_step l m m' k : slot_inv m → step l m m' → (∃ h, mx_clients m !! k = Some h ∧ cl_phase h = lost) →
  ∃ h', mx_clients m' !! k = Some h' ∧ cl_phase h' = lost.
Proof.
  intros Hinv Hs (h0 & Hk & Hp0).
  destruct Hs as [i ts m m' Hi Hr|i h h' m Hi Hr|i h m m' Hi Hr|fails i h m m' Hi Hr|i h m m' Hi Hr|i h s now e m Hi Hs|now i h m m' Hi Hr|i h m Hi Hg|i h m Hi Hp].
  all: destruct (decide (k = i)) as [->|Hki]; [rewrite Hi in Hk; try discriminate Hk; try (injection Hk as <-)|].
  - apply accepted_registers in Hr as (_ & ts' & ->). cbn. rewrite lookup_insert_ne by done. eauto.
  - unfold subscribe_done in Hr. by rewrite Hp0 in Hr.
  - cbn. rewrite lookup_insert_ne by done. eauto.
  - unfold subscribe_failed in Hr. by rewrite Hp0 in Hr.
  - unfold subscribe_failed in Hr. destruct (cl_phase h) as [[|? ?]| | | | |]; try done. injection Hr as <-. rewrite roll_back_other by done. eauto.
  - unfold unsubscribed in Hr. by rewrite Hp0 in Hr.
  - unfold unsubscribed in Hr. destruct (cl_phase h) as [|[|? ?]| |[|? ?]| |]; try done; injection Hr as <-;
      rewrite ?roll_back_other, ?unsubscribe_all_other by done; eauto.
  - unfold cancelled in Hr. by rewrite Hp0 in Hr.
  - unfold cancelled in Hr. destruct (cl_phase h); try done; injection Hr as <-; cbn; rewrite lookup_insert_ne by done; eauto.
  - cbn. rewrite lookup_insert_eq. eexists. split; [done|]. by rewrite (proj1 (handler_flags now s.2 e h)).
  - cbn. rewrite lookup_insert_ne by done. eauto.
  - pose proof (si_clients _ Hinv i h Hi) as Hc. unfold stream_round in Hr. destruct (cl_generator h) eqn:Hg; [|done]. cbn in Hr.
    destruct (cl_out h); [injection Hr as <-; cbn; rewrite lookup_insert_eq; eauto|].
    destruct (_ <=? now); [injection Hr as <-; cbn; rewrite lookup_insert_eq; eauto|].
    destruct (cl_queue h) as [|[ev|] q]; [done|injection Hr as <-; cbn; rewrite lookup_insert_eq; eauto|injection Hr as <-].
    apply leave_lost; [done| |done]. by eapply client_ok_same.
  - unfold stream_round in Hr. destruct (cl_generator h); [|done]. cbn in Hr. destruct (cl_out h); [injection Hr as <-; cbn; rewrite lookup_insert_ne by done; eauto|].
    destruct (_ <=? now); [injection Hr as <-; cbn; rewrite lookup_insert_ne by done; eauto|].
    destruct (cl_queue h) as [|[ev|] q]; [done|injection Hr as <-; cbn; rewrite lookup_insert_ne by done; eauto|injection Hr as <-].
    rewrite leave_other by done. eauto.
  - apply leave_lost; [done|by apply (si_clients _ Hinv i)|done].
  - rewrite leave_other by done. eauto.
  - congruence.
  - rewrite unregister_other by done. eauto.
Qed.
(** C33: the counter of connections is exactly the number of clients that hold a
    slot, and never exceeds the limit, however registrations, deliveries,
    disconnects and failures interleave; a client cancelled while it waits for
    the bus to subscribe or unsubscribe holds its slot in every later state. *)
Theorem connection_slots_are_counted tr m tr' m' :
  0 <= max_connections → run tr (mkMux ∅ 0) m → run tr' m m' →
  mx_active_count m' = slots m' ∧ slots m' <= max_connections ∧
  (∀ k h, mx_clients m !! k = Some h → cl_phase h = lost → ∃ h', mx_clients m' !! k = Some h' ∧ occupied h' = true ∧ cl_phase h' = lost).
Proof.
  intros Hmax Hr Hr'. pose proof (slot_run _ _ _ (slot_start Hmax) Hr) as Hinv. pose proof (slot_run _ _ _ Hinv Hr') as Hinv'.
  split_and!; [apply Hinv'|rewrite <- (si_count _ Hinv'); apply Hinv'|]. intros k h Hk Hp.
  enough (∃ h', mx_clients m' !! k = Some h' ∧ cl_phase h' = lost) as (h' & ? & Hp') by (exists h'; unfold occupied; by rewrite Hp').
  clear Hinv'. induction Hr' as [m|l l' m1 m2 m3 Hr1 IH Hs]; [eauto|]. eapply lost_step; [|done|by apply IH]. by eapply slot_run.
Qed.

(** C34: whatever happens, a browser is sent events that were offered to it, in
    their order and each at most once; its queue never exceeds its size; while
    it holds its slot the events neither sent nor pending are exactly as many as
    the overflow counter says, and at the end at most one more, which the
    closing sentinel displaced. *)
Theorem stream_is_faithful tr m i h :
  0 <= max_connections → run tr (mkMux ∅ 0) m → mx_clients m !! i = Some h →
  sublist (sent h ++ pending h) (offered i tr) ∧
  ((0 < maxsize)%nat → (length (cl_queue h) <= maxsize)%nat) ∧
  (let losses := Z.of_nat (length (offered i tr)) - Z.of_nat (length (sent h ++ pending h)) in
   if occupied h then losses = cl_overflow_count h else losses <= cl_overflow_count h + 1).
Proof.
  intros Hmax Hr Hi. pose proof (stream_run tr m Hmax Hr i) as H. rewrite Hi in H. destruct H as [Hb Ho Hl].
  split_and!; [done|done|]. unfold is_gone in Hl. cbn. destruct (occupied h); cbn in Hl; [apply Hl|done].
Qed.
End facts.

(** Positions and trades share a subject, but no message is both. *)
Lemma message_offered_once types s e : s ∈ subjects_for_types types → (length (matching s.2 e) <= 1)%nat.
Proof.
  assert (∀ ts, ts = [POSITIONS] ∨ ts = [TRADES] ∨ ts = [POSITIONS; TRADES] ∨ ts = [SIGNALS] ∨ ts = [SCORING] ∨ ts = [ALERTS] →
    (length (matching ts e) <= 1)%nat) as H.
  { intros ts [->|[->|[->|[->|[->| ->]]]]]; cbn; unfold event_type_in; destruct (dict_get "event_type" (payload e)) as [[]|]; cbn; try lia;
      repeat case_bool_decide; cbn; try lia. set_solver. }
  intros Hs. apply H. unfold subjects_for_types in Hs. repeat case_bool_decide; cbn in Hs; set_solver.
Qed.

(** ** Concrete runs: queues of two events, one connection *)
Definition alert (n : Z) : Envelope := mkMessage n "c" n "alerting" [("n", JInt n)].
Definition alert_event (n : Z) : sse_event := envelope_to_sse_event (alert n) ALERTS.
Definition alerts_sub : subscription := ("system.alerts", [ALERTS]).
#[local] Abbreviation demo_run := (sse_run 2 1 60 15).
Definition alerts_handle : ClientHandle := mkClient streaming [alerts_sub] [alerts_sub] [] 0 0 0 true true 0 [].
Definition alerts_mux : multiplexer := mkMux {[0%nat := alerts_handle]} 1.
Lemma alerts_registered : demo_run [] (mkMux ∅ 0) alerts_mux.
Proof.
  apply (run_snoc _ _ _ _ [] [] _ (mkMux {[0%nat := new_client [alerts_sub]]} 1)).
  - apply (run_snoc _ _ _ _ [] [] _ (mkMux ∅ 0)); [apply run_nil|]. by apply (step_register _ _ _ _ 0 " alerts,"%string).
  - exact (step_subscribed 2 1 60 15 0 (new_client [alerts_sub]) alerts_handle (mkMux {[0%nat := new_client [alerts_sub]]} 1) eq_refl eq_refl).
Qed.
Lemma offer_alert tr m h n now : demo_run tr (mkMux ∅ 0) m → mx_clients m !! 0%nat = Some h → cl_live h = [alerts_sub] →
  demo_run (tr ++ [(0%nat, alert_event n)]) (mkMux ∅ 0) (put_client 0 (handler 2 60 now [ALERTS] (alert n) h) m).
Proof.
  intros Hr Hi Hl. eapply run_snoc; [exact Hr|]. apply (step_message _ _ _ _ 0 h alerts_sub now (alert n) m Hi). rewrite Hl. by left.
Qed.
Lemma stream_is_faithful_witness :
  ∃ tr m h, demo_run tr (mkMux ∅ 0) m ∧ mx_clients m !! 0%nat = Some h ∧ offered 0 tr = [alert_event 1; alert_event 2; alert_event 3] ∧
    cl_overflow_count h = 1 ∧ sublist (sent h ++ pending h) (offered 0 tr) ∧ sent h ++ pending h = [alert_event 2; alert_event 3].
Proof.
  pose proof (offer_alert _ _ _ 1 0 alerts_registered eq_refl eq_refl) as H1. pose proof (offer_alert _ _ _ 2 0 H1 eq_refl eq_refl) as H2.
  pose proof (offer_alert _ _ _ 3 0 H2 eq_refl eq_refl) as H3. cbn in H3.
  eexists _, _, _. split; [exact H3|]. split; [reflexivity|]. split; [reflexivity|]. split; [reflexivity|]. split; [|reflexivity].
  eapply (stream_is_faithful 2 1 60 15 _ _ 0%nat); [lia|exact H3|reflexivity].
Defined.
(** One cancellation, and a service for one browser answers 503 for ever. *)
Definition lost_mux : multiplexer := mkMux {[0%nat := set_phase lost (new_client [alerts_sub])]} 1.
Lemma alerts_lost : demo_run [] (mkMux ∅ 0) lost_mux.
Proof.
  apply (run_snoc _ _ _ _ [] [] _ (mkMux {[0%nat := new_client [alerts_sub]]} 1)).
  - apply (run_snoc _ _ _ _ [] [] _ (mkMux ∅ 0)); [apply run_nil|]. by apply (step_register _ _ _ _ 0 " alerts,"%string).
  - exact (step_cancelled 2 1 60 15 0 (new_client [alerts_sub]) (mkMux {[0%nat := new_client [alerts_sub]]} 1) _ eq_refl eq_refl).
Qed.
Lemma connection_slots_are_counted_witness :
  demo_run [] (mkMux ∅ 0) lost_mux ∧ mx_active_count lost_mux = slots lost_mux ∧ register_client 1 1 [ALERTS] lost_mux = None.
Proof.
  split; [exact alerts_lost|]. split; [|reflexivity].
  exact (proj1 (connection_slots_are_counted 2 1 60 15 _ _ _ _ ltac:(lia) alerts_lost (run_nil _ _ _ _ _))).
Defined.
Lemma lost_slot_refuses_all tr m i types : demo_run tr lost_mux m → register_client 1 i types m = None.
Proof.
  intros Hr. pose proof (slot_run 2 1 60 15 _ _ _ (slot_start 1 ltac:(lia)) alerts_lost) as Hinv.
  assert (∃ h, mx_clients m !! 0%nat = Some h ∧ cl_phase h = lost) as (h & Hh & Hp).
  { clear i types. remember lost_mux as m0. induction Hr as [m1|l l' m1 m2 m3 Hr1 IH Hs]; subst; [by eexists|].
    eapply lost_step; [|exact Hs|by apply IH]. eapply slot_run; [exact Hinv|exact Hr1]. }
  pose proof (slot_run 2 1 60 15 _ _ _ Hinv Hr) as [Hc _ _].
  unfold register_client.
  assert (1 <= slots m) as Hs.
  { unfold slots. assert (filter (fun kv : nat * ClientHandle => occupied kv.2 = true) (mx_clients m) !! 0%nat = Some h) as Hf.
    { apply map_lookup_filter_Some. split; [done|]. cbn. unfold occupied. by rewrite Hp. }
    destruct (base.size _) eqn:E; [|lia]. apply map_size_empty_inv in E. by rewrite E, lookup_empty in Hf. }
  rewrite Hc. destruct (Z.leb_spec 1 (slots m)); [done|lia].
Qed.
