(* ===== verification/Feed.v ===== *)
(** * Feeding a backtest

    Models packages/exchange/paper/{historical_ohlc_source,historical_signal_source}.py
    and the feeding half of scripts/backtest.py: the two sources over their
    tables, [_publish_signals], the tasks [main] gathers, and the handlers the
    replay bus then runs.  The replay clock is the clock of the paper exchange,
    one object both tasks move.

    A cursor answers any list PostgreSQL may answer: the selected rows in the
    order of time, rows of one time in any order.  A step of the feed is one
    turn of one task; each turn runs between two awaits of its cursor.  Times
    are microseconds; sleeping has no effect but to let the other task run. *)

From S2P Require Import Prelude Json Dec Float64 PyNum Bus Scoring PaperDb PaperExchange Market Gateway Consumer.
From stdpp Require Import pretty.
Open Scope Z_scope.

(** ** historical_ohlc_source.py *)
(** [_PACE_FACTOR]; infinity is [None]. *)
Definition PACE_FACTOR (pace : string) : option (option b64) :=
  if (pace =? "1x")%string then Some (Some (mkB 1 0))
  else if (pace =? "10x")%string then Some (Some (mkB 10 0))
  else if (pace =? "max")%string then Some None
  else None.
Definition VALID_SOURCES : list string := ["binance"; "bybit"].
Record HistoricalOHLCSource := mkOhlcSource {
  ho_symbols : list string; ho_from_at : Z; ho_to_at : Z; ho_pace_factor : option b64; ho_source : string;
}.
Definition ohlc_source_init (symbols : list string) (from_at to_at : Z) (pace source : string) : res HistoricalOHLCSource :=
  if bool_decide (symbols = []) then Err (ValueError "HistoricalOHLCSource: symbols must not be empty")
  else if to_at <=? from_at then Err (ValueError "HistoricalOHLCSource: to_at must be > from_at")
  else match PACE_FACTOR pace with
       | None => Err (ValueError "HistoricalOHLCSource: invalid pace")
       | Some factor =>
           if negb (bool_decide (source ∈ VALID_SOURCES)) then Err (ValueError "HistoricalOHLCSource: invalid source")
           else Ok (mkOhlcSource symbols from_at to_at factor source)
       end.
(** The WHERE clause of [_SELECT_OHLC_REPLAY_SQL], and [_row_to_ohlc]. *)
Definition in_replay (s : HistoricalOHLCSource) (kv : ohlc_pk * OhlcRow) : Prop :=
  let '((symbol, bucket_start, source), _) := kv in
  symbol ∈ ho_symbols s ∧ ho_from_at s <= bucket_start < ho_to_at s ∧ source = ho_source s.
#[global] Instance in_replay_dec s kv : Decision (in_replay s kv).
Proof. destruct kv as [[[] ] ]. unfold in_replay. apply _. Defined.
Definition row_to_ohlc (kv : ohlc_pk * OhlcRow) : candle :=
  let '((symbol, bucket_start, _), r) := kv in
  mkCandle symbol bucket_start (or_open r) (or_high r) (or_low r) (or_close r) (or_volume r) true.
Definition bucket_before (a b : candle) : Prop := c_bucket_start a <= c_bucket_start b.
Record ohlc_answer (s : HistoricalOHLCSource) (t : ohlc_table) (rows : list candle) : Prop := mkOhlcAnswer {
  oa_rows : rows ≡ₚ row_to_ohlc <$> filter (in_replay s) (map_to_list t);
  oa_order : StronglySorted bucket_before rows;
}.
(** [__aiter__]: the rows to come, and the real time and bucket of the first. *)
Record ohlc_iter := mkIter { oi_rows : list candle; oi_started : option (Z * Z) }.
Definition sleep_for (factor : option b64) (replay_start_real first_bucket_at bucket_start now : Z) : res b64 :=
  match factor with
  | None => Ok bzero
  | Some pace_factor =>
      let sim_dt := total_seconds (bucket_start - first_bucket_at) in
      target_real_dt ← bdiv sim_dt pace_factor;
      let elapsed := total_seconds (now - replay_start_real) in
      let d := bsub target_real_dt elapsed in
      Ok (if bltb bzero d then d else bzero)
  end.
(** The next row with the sleep before it. *)
Definition ohlc_next (s : HistoricalOHLCSource) (now : Z) (i : ohlc_iter) : option (res b64 * candle * ohlc_iter) :=
  match oi_rows i with
  | [] => None
  | c :: rows =>
      match oi_started i with
      | None => Some (Ok bzero, c, mkIter rows (Some (now, c_bucket_start c)))
      | Some (start, first_bucket) =>
          Some (sleep_for (ho_pace_factor s) start first_bucket (c_bucket_start c) now, c, mkIter rows (oi_started i))
      end
  end.

(** ** historical_signal_source.py *)
Record HistoricalSignalSource := mkSignalSource { hs_symbol_universe : list string; hs_from_at : Z; hs_to_at : Z }.
Definition signal_source_init (symbol_universe : list string) (from_at to_at : Z) : res HistoricalSignalSource :=
  if bool_decide (symbol_universe = []) then Err (ValueError "HistoricalSignalSource: symbol_universe must not be empty")
  else if to_at <=? from_at then Err (ValueError "HistoricalSignalSource: to_at must be > from_at")
  else Ok (mkSignalSource symbol_universe from_at to_at).
(** The WHERE clause of [_SELECT_SIGNALS_REPLAY_SQL]. *)
Definition replayed (s : HistoricalSignalSource) (r : Gateway.signal_row) : Prop :=
  sr_symbol r ∈ hs_symbol_universe s ∧ hs_from_at s <= sr_received_at r < hs_to_at s ∧ sr_status r = st_validated.
#[global] Instance ingestion_status_eq_dec : EqDecision ingestion_status.
Proof. solve_decision. Defined.
#[global] Instance replayed_dec s r : Decision (replayed s r).
Proof. unfold replayed. apply _. Defined.
Definition received_earlier (a b : Gateway.signal_row) : Prop := sr_received_at a <= sr_received_at b.
Record signal_answer (s : HistoricalSignalSource) (t rows : list Gateway.signal_row) : Prop := mkSignalAnswer {
  sa_rows : rows ≡ₚ filter (replayed s) t;
  sa_order : StronglySorted received_earlier rows;
}.
(** A JSONB column as the driver gives it: text, or a value when a codec is
    registered. *)
Inductive jsonb := jsonb_text (s : string) | jsonb_value (d : dict).
Record SignalRow := mkReplaySignal { rs_row : Gateway.signal_row; rs_action : action; rs_payload : dict }.

(** ** The run *)
Inductive bus_payload := signal_payload (p : validated_payload) | engine_payload (m : message).
Inductive bus_handler := signal_handler | order_handler.
Abbreviation bus := (Replay.replay_bus bus_payload bus_handler).
Record feed_state := mkFeed { fd_paper : pe_state; fd_bus : bus; fd_uuid : Z }.

Section feed.
Context `{PgNumeric} (driver : dict → jsonb) (json_loads : string → res dict) (cfg : pe_config).
Context (ttl_seconds : Z).

Definition row_to_signal_replay (r : Gateway.signal_row) : res SignalRow :=
  payload ← match driver (sr_payload r) with jsonb_text s => json_loads s | jsonb_value d => Ok d end;
  match action_of (Some (JStr (sr_action r))) with
  | None => Err (ValueError (sr_action r +:+ " is not a valid Action"))
  | Some a => Ok (mkReplaySignal r a payload)
  end.

(** ** _publish_signals *)
Definition signal_validated_of (s : SignalRow) : validated_payload :=
  let r := rs_row s in
  mkValidated (mkSignal (sr_source r) (sr_idempotency_key r) (sr_received_at r) (sr_symbol r) (rs_action s)
                 (sr_received_at r + ttl_seconds * 1000000))
    (match sr_original_symbol r with Some o => if (o =? "")%string then sr_symbol r else o | None => sr_symbol r end)
    (rs_payload s).
Definition on_bus {A} (m : ST bus A) : ST feed_state A := fun st =>
  let '(r, b) := m (fd_bus st) in (r, mkFeed (fd_paper st) b (fd_uuid st)).
Definition on_paper {A} (m : PE A) : ST feed_state A := fun st =>
  let '(r, p) := m (fd_paper st) in (r, mkFeed p (fd_bus st) (fd_uuid st)).
Definition next_uuid : ST feed_state Z := fun st => (Ok (fd_uuid st), mkFeed (fd_paper st) (fd_bus st) (fd_uuid st + 1)).
(** One turn of the loop. *)
Definition publish_signal (row : Gateway.signal_row) : ST feed_state unit :=
  s ← lift_res (row_to_signal_replay row);
  on_paper (modify (replay_clock_set (sr_received_at row))) ;;
  if bool_decide (rs_action s = CLOSE) then mret tt else
  n ← next_uuid;
  on_bus (Replay.publish "signals.validated"
    (mkMessage n ("backtest-" +:+ pretty n) (sr_received_at row) "backtest-cli" (signal_payload (signal_validated_of s)))).

(** ** The gathered tasks *)
Record feed_config := mkFeedConfig {
  fc_signals : list Gateway.signal_row; fc_candles : ohlc_iter; fc_state : feed_state; fc_raised : option exn;
}.
Definition raised_by {A} (r : res A) : option exn := match r with Ok _ => None | Err e => Some e end.
Inductive feed_step (src : HistoricalOHLCSource) : feed_config → feed_config → Prop :=
| step_signal row rows candles st r st' :
    publish_signal row st = (r, st') →
    feed_step src (mkFeedConfig (row :: rows) candles st None) (mkFeedConfig rows candles st' (raised_by r))
| step_candle now signals i d c i' st r st' :
    ohlc_next src now i = Some (Ok d, c, i') → on_paper (process_replay_candle cfg c) st = (r, st') →
    feed_step src (mkFeedConfig signals i st None) (mkFeedConfig signals i' st' (raised_by r))
| step_no_sleep now signals i e c i' st :
    ohlc_next src now i = Some (Err e, c, i') →
    feed_step src (mkFeedConfig signals i st None) (mkFeedConfig signals i' st (Some e)).
(** [gather] returns when both tasks have. *)
Definition gathered (c : feed_config) : Prop := fc_signals c = [] ∧ oi_rows (fc_candles c) = [] ∧ fc_raised c = None.

(** ** Construction, in the order of [main]; the replay clock starts at [from_at] *)
Record backtest_parts := mkParts { bp_ohlc : HistoricalOHLCSource; bp_signals : HistoricalSignalSource; bp_start : feed_state }.
Definition subject_for_orders_request (bot : string) : string := "orders.requests." +:+ bot.
Definition open_backtest (symbols : list string) (from_at to_at : Z) (pace source : string) (d : db) : res backtest_parts :=
  ohlc_source ← ohlc_source_init symbols from_at to_at pace source;
  signal_source ← signal_source_init symbols from_at to_at;
  paper ← paper_exchange_init cfg from_at d;
  let wire := Replay.subscribe "signals.validated" signal_handler ;;
              Replay.subscribe (subject_for_orders_request (bot_id cfg)) order_handler in
  match wire Replay.empty_bus with
  | (Ok _, b) => Ok (mkParts ohlc_source signal_source (mkFeed paper b 0))
  | (Err e, _) => Err e
  end.
End feed.

(** ** The handlers [run_until_empty] then runs *)
Section drain.
Context `{PgNumeric} (b : BotConfig) (ttl_seconds : Z) (f : faults) (wall_clock : Z).
(** The handler of order requests, on the bus and the two states. *)
Context (handle_order : MessageEnvelope bus_payload → ST (bus * (pe_state * world)) unit).

Definition subject_of (m : message) : string :=
  match m with
  | orders_request _ => "orders.requests." +:+ b_bot_id b
  | signals_rejected _ => "signals.rejected." +:+ b_bot_id b
  | shadow_rejected_start _ => "shadow.rejected.start." +:+ b_bot_id b
  end.
(** The engine builds its envelopes without a time: they carry the wall clock,
    here one value for the whole drain (equal times keep their order). *)
Fixpoint publish_all (ms : list (string * message)) : ST bus unit :=
  match ms with
  | [] => mret tt
  | (corr, m) :: rest =>
      Replay.publish (subject_of m) (mkMessage 0 corr wall_clock "strategy-engine" (engine_payload m)) ;; publish_all rest
  end.
(** [make_signal_handler] with [now_fn=replay_clock.now] and the age of a
    signal bounded by its time to live. *)
Definition handle_signal (e : MessageEnvelope bus_payload) : ST (bus * (pe_state * world)) unit := fun '(q, (p, w)) =>
  let sg := match payload e with signal_payload v => Some (vp_signal v) | engine_payload _ => None end in
  let '(r, w') := handle b ttl_seconds f (clock p) (mkEnvelope (correlation_id e) sg) w in
  let '(r', q') := publish_all (drop (length (w_published w)) (w_published w')) q in
  (match r with Ok _ => r' | Err x => Err x end, (q', (p, w'))).
Definition run_handler (h : bus_handler) : MessageEnvelope bus_payload → ST (bus * (pe_state * world)) unit :=
  match h with signal_handler => handle_signal | order_handler => handle_order end.
End drain.
