(* ===== verification/FeedFacts.v ===== *)
(** * What a backtest judges, and when

    The two feeding tasks run to the end of the range before the first signal
    is judged.  Whatever their interleaving, the candles meet an empty book, the
    replay clock ends at the last time of both sources, and a signal whose time
    to live has passed by then is dropped. *)

From S2P Require Import Prelude Json Dec Float64 PyNum Bus BusFacts RiskGates Scoring PaperDb PaperExchange PaperInv Market Gateway Consumer Feed.
From stdpp Require Import pretty.
Open Scope Z_scope.

(** ** The clock *)
Abbreviation latest := (foldr Z.max).
Lemma latest_ge t l : t <= latest t l.
Proof. induction l; cbn; lia. Qed.
Lemma latest_snoc t l x l' : latest t ((l ++ [x]) ++ l') = Z.max (latest t (l ++ l')) x.
Proof. induction l as [|y l IH]; cbn; [lia|]. rewrite IH. lia. Qed.
Lemma latest_app t l l' : latest t (l ++ l') = Z.max (latest t l) (latest t l').
Proof.
  induction l as [|x l IH]; cbn; [pose proof (latest_ge t l'); lia|]. rewrite IH. lia.
Qed.
Lemma latest_bounds t l hi : t < hi → Forall (fun x => x < hi) l → t <= latest t l < hi.
Proof. intros Ht. induction 1; cbn; lia. Qed.
Lemma clock_set t s : clock (replay_clock_set t s) = Z.max (clock s) t.
Proof. unfold replay_clock_set. destruct (Z.ltb_spec (clock s) t); cbn; lia. Qed.

(** ** A candle on an empty book *)
(** Two states of the exchange that differ in prices and clock at most. *)
Record market_only (s s' : pe_state) : Prop := mkMarketOnly {
  mo_positions : active_positions s' = active_positions s; mo_pending : pending_sl_tp_fills s' = pending_sl_tp_fills s;
  mo_executions : execution_queue s' = execution_queue s; mo_events : position_queue s' = position_queue s;
  mo_terminals : terminals s' = terminals s; mo_published : published s' = published s;
  mo_uuids : uuids s' = uuids s; mo_tables : tables s' = tables s;
}.
#[global] Instance market_only_preorder : PreOrder market_only.
Proof.
  split; [intros s; by constructor|]. intros s1 s2 s3 [] []. constructor; congruence.
Qed.
Lemma market_clock_set t s : market_only s (replay_clock_set t s).
Proof. unfold replay_clock_set. by destruct (_ <? _); constructor. Qed.
Definition empty_book (s : pe_state) : Prop := active_positions s = ∅ ∧ pending_sl_tp_fills s = [].
Lemma empty_book_market s s' : market_only s s' → empty_book s → empty_book s'.
Proof. intros [] []. split; congruence. Qed.

Section candle.
Context `{PgNumeric} (cfg : pe_config).
Lemma segments_on_empty_book symbol segs s : empty_book s → replay_segments cfg symbol segs s = (Ok tt, s).
Proof.
  intros [Hp Hq]. induction segs as [|[a b] segs IH]; [done|]. cbn [replay_segments].
  unfold check_sl_tp_crosses_replay, check_crosses, drain_pending, mbind, st_bind, get_st, mret, st_ret in *.
  rewrite Hp, lookup_empty. rewrite Hq. cbn. exact IH.
Qed.
Lemma candle_on_empty_book c s r s' : has_replay_clock cfg = true → empty_book s → process_replay_candle cfg c s = (r, s') →
  market_only s s' ∧ clock s' = Z.max (clock s) (c_bucket_start c).
Proof.
  intros Hc Hb E. unfold process_replay_candle in E. unfold modify, lift_res, mbind, st_bind in E. rewrite Hc in E.
  set (s1 := set_market _ _ _ _) in E.
  assert (market_only s s1) as Hm by (etrans; [apply market_clock_set|by constructor]).
  assert (clock s1 = Z.max (clock s) (c_bucket_start c)) as Ht by (unfold s1; cbn; apply clock_set).
  destruct (generate_intra_candle_path _ _ _ _) as [[[[o p1] p2] cl]|e]; [|by injection E as <- <-].
  rewrite segments_on_empty_book in E by (by eapply empty_book_market). by injection E as <- <-.
Qed.
End candle.

(** ** The feed *)
Section feed.
Context `{PgNumeric} (driver : dict → jsonb) (json_loads : string → res dict) (cfg : pe_config) (ttl_seconds : Z).
#[local] Abbreviation read_row := (row_to_signal_replay driver json_loads).
#[local] Abbreviation step := (feed_step driver json_loads cfg ttl_seconds).

(** The message of a signal, less its identifiers. *)
Definition heap_entry (it : Replay.item bus_payload) : Z * string * bus_payload :=
  (Replay.it_ts it, Replay.it_subject it, payload (Replay.it_envelope it)).
Definition entry_of (s : SignalRow) : Z * string * bus_payload :=
  (sr_received_at (rs_row s), "signals.validated"%string, signal_payload (signal_validated_of ttl_seconds s)).
Definition entries (ss : list SignalRow) := entry_of <$> filter (fun s => rs_action s ≠ CLOSE) ss.
Lemma entries_app ss ss' : entries (ss ++ ss') = entries ss ++ entries ss'.
Proof. unfold entries. by rewrite filter_app, fmap_app. Qed.

(** The bus after the signals [ss]: wired, open, one message for each entry. *)
Record fed (ss : list SignalRow) (b : bus) : Prop := mkFed {
  fed_open : Replay.closed b = false;
  fed_subscriptions : Replay.subscriptions b =
    [Replay.mkSub "signals.validated" signal_handler true; Replay.mkSub (subject_for_orders_request (bot_id cfg)) order_handler true];
  fed_heap : heap_entry <$> Replay.heap b = entries ss;
}.
Lemma fed_publish ss s b n corr :
  fed ss b → rs_action s ≠ CLOSE →
  ∃ b', Replay.publish "signals.validated" (mkMessage n corr (sr_received_at (rs_row s)) "backtest-cli" (signal_payload (signal_validated_of ttl_seconds s))) b
        = (Ok tt, b') ∧ fed (ss ++ [s]) b'.
Proof.
  intros [Ho Hs Hh] Ha. unfold Replay.publish, mbind, st_bind, get_st, modify. cbn. rewrite Ho. eexists. split; [done|].
  constructor; cbn; [done|done|]. rewrite fmap_app, Hh, entries_app. f_equal. unfold entries. rewrite filter_cons_True by done. done.
Qed.
Lemma read_row_of row s : read_row row = Ok s → rs_row s = row.
Proof. unfold row_to_signal_replay. intros Hr. inv_ok. destruct (action_of _); inv_ok. by subst. Qed.
Lemma publish_signal_effect ss row st r st' :
  publish_signal driver json_loads ttl_seconds row st = (r, st') → fed ss (fd_bus st) →
  market_only (fd_paper st) (fd_paper st') ∧
  (r = Ok tt → clock (fd_paper st') = Z.max (clock (fd_paper st)) (sr_received_at row) ∧
     ∃ s, read_row row = Ok s ∧ fed (ss ++ [s]) (fd_bus st')).
Proof.
  intros E Hf. unfold publish_signal, lift_res, mbind, st_bind in E.
  destruct (read_row row) as [s|e] eqn:Er; [|by injection E as <- <-].
  pose proof (read_row_of _ _ Er) as Hrow.
  cbn in E. pose proof (market_clock_set (sr_received_at row) (fd_paper st)) as Hm.
  pose proof (clock_set (sr_received_at row) (fd_paper st)) as Hc.
  case_bool_decide as Ha.
  - injection E as <- <-. cbn. split; [done|]. intros _. split; [done|]. exists s. split; [done|].
    destruct Hf as [Ho Hs Hh]. constructor; [done|done|]. rewrite Hh, entries_app. unfold entries at 3.
    rewrite filter_cons_False by (by intros []). cbn. by rewrite app_nil_r.
  - destruct (fed_publish ss s (fd_bus st) (fd_uuid st) ("backtest-" +:+ pretty (fd_uuid st)) Hf Ha) as (b' & Hb & Hfed).
    rewrite Hrow in Hb. unfold next_uuid, on_bus in E. cbn in E. rewrite Hb in E. injection E as <- <-. cbn. eauto.
Qed.

(** Where the tasks stand: [ss] and [cs] are what they have been through. *)
Record progress (sigs : list Gateway.signal_row) (candles : list candle) (st0 : feed_state) (ss : list SignalRow) (cs : list candle)
    (c : feed_config) : Prop := mkProgress {
  pr_signals : sigs = (rs_row <$> ss) ++ fc_signals c;
  pr_candles : candles = cs ++ oi_rows (fc_candles c);
  pr_read : Forall (fun s => read_row (rs_row s) = Ok s) ss;
  pr_market : market_only (fd_paper st0) (fd_paper (fc_state c));
  pr_clock : clock (fd_paper (fc_state c)) = latest (clock (fd_paper st0)) ((sr_received_at ∘ rs_row <$> ss) ++ (c_bucket_start <$> cs));
  pr_fed : fed ss (fd_bus (fc_state c));
}.
Lemma progress_step src sigs candles st0 ss cs c c' :
  has_replay_clock cfg = true → empty_book (fd_paper st0) → progress sigs candles st0 ss cs c → step src c c' → fc_raised c' = None →
  ∃ ss' cs', progress sigs candles st0 ss' cs' c'.
Proof.
  intros Hrc Hb [Hs Hcd Hr Hm Hc Hf] Hstep Hok. destruct Hstep as [row rows i st r st' E|now sg i d k i' st r st' Hn E|]; cbn in *; [..|done].
  - destruct r as [[]|]; [|done]. destruct (publish_signal_effect ss _ _ _ _ E Hf) as [Hm' He].
    destruct (He eq_refl) as (Ht & s & Hrow & Hf'). pose proof (read_row_of _ _ Hrow) as Heq. exists (ss ++ [s]), cs.
    constructor; cbn; [by rewrite Hs, fmap_app, <- app_assoc, <- Heq|done| |by etrans| |done].
    + apply Forall_app. split; [done|]. constructor; [by rewrite Heq|constructor].
    + rewrite Ht, Hc, fmap_app. cbn. by rewrite latest_snoc, Heq.
  - destruct r as [[]|]; [|done]. unfold on_paper in E. destruct (process_replay_candle cfg k (fd_paper st)) as [r p] eqn:Ep. injection E as -> <-.
    destruct (candle_on_empty_book cfg _ _ _ _ Hrc (empty_book_market _ _ Hm Hb) Ep) as [Hm' Ht].
    assert (oi_rows i = k :: oi_rows i') as Hi.
    { unfold ohlc_next in Hn. destruct (oi_rows i) as [|k' l]; [done|]. destruct (oi_started i) as [[]|]; by injection Hn as ? <- <-. }
    exists ss, (cs ++ [k]). constructor; cbn; [done|by rewrite Hcd, Hi, <- app_assoc|done|by etrans| |done].
    rewrite Ht, Hc, fmap_app, app_assoc. cbn. rewrite <- (app_nil_r (_ ++ [_])), latest_snoc, app_nil_r. done.
Qed.
Lemma step_raised src c c' : step src c c' → fc_raised c = None.
Proof. by destruct 1. Qed.
Lemma progress_run src sigs candles st0 c :
  has_replay_clock cfg = true → empty_book (fd_paper st0) → fed [] (fd_bus st0) →
  rtc (step src) (mkFeedConfig sigs (mkIter candles None) st0 None) c → fc_raised c = None → ∃ ss cs, progress sigs candles st0 ss cs c.
Proof.
  intros Hrc Hb Hf Hrun. revert c Hrun. apply (rtc_ind_r (fun c => fc_raised c = None → ∃ ss cs, progress sigs candles st0 ss cs c)).
  - intros _. exists [], []. constructor; cbn; done.
  - intros c c' _ Hstep IH Hok. destruct (IH (step_raised _ _ _ Hstep)) as (ss & cs & Hp). by eapply progress_step.
Qed.

(** Both tasks end: a step consumes a row, and there is one until both are done. *)
Definition rows_left (c : feed_config) : nat := length (fc_signals c) + length (oi_rows (fc_candles c)).
Lemma feed_consumes src c c' : step src c c' → rows_left c = S (rows_left c').
Proof.
  assert (∀ now i x k i', ohlc_next src now i = Some (x, k, i') → length (oi_rows i) = S (length (oi_rows i'))) as Hn.
  { intros now i x k i' E. unfold ohlc_next in E. destruct (oi_rows i); [done|]. destruct (oi_started i) as [[]|]; by injection E as _ _ <-. }
  destruct 1 as [| ??????????Hx|??????? Hx]; unfold rows_left; cbn; [done|..]; rewrite (Hn _ _ _ _ _ Hx); lia.
Qed.
Lemma feed_moves src c : fc_raised c = None → ¬ gathered c → ∃ c', step src c c'.
Proof.
  destruct c as [[|row rows] [[|k cs] st0] st []]; try done; intros _ Hg; [by destruct Hg| |eexists; by apply step_signal, surjective_pairing..].
  assert (∃ x i', ohlc_next src 0 (mkIter (k :: cs) st0) = Some (x, k, i')) as ([d|e] & i' & Hx) by (destruct st0 as [[]|]; cbn; eauto).
  - eexists. eapply step_candle; [done|]. apply surjective_pairing.
  - eexists. by eapply step_no_sleep.
Qed.
End feed.

(** ** A drain whose handlers change nothing *)
Section ignored.
Context {S P H : Type} (run_handler : H → MessageEnvelope P → ST (Replay.replay_bus P H * S) unit).
#[local] Abbreviation run := (Replay.run_until_empty run_handler).
Definition ignores (s : S) (subs : list (Replay.ReplaySubscription H)) (it : Replay.item P) : Prop :=
  ∀ sub q, sub ∈ subs → Replay.subject_matches (Replay.subject_pattern sub) (Replay.it_subject it) = true →
    run_handler (Replay.handler sub) (Replay.it_envelope it) (q, s) = (Ok tt, (q, s)).
Lemma run_plus n m c : run (n + m) c = run m (run n c).
Proof. revert c. induction n as [|n IH]; intros c; cbn; [done|]. apply IH. Qed.
Lemma dispatch_ignored it s post : ∀ pre b pp, Replay.subscriptions b = pre ++ post → ignores s (Replay.subscriptions b) it →
  run (1 + length post) (Replay.mkConfig (Replay.dispatching it (length pre)) b s pp) = Replay.mkConfig Replay.at_loop b s pp.
Proof.
  induction post as [|sub post IH]; intros pre b pp Hs Hi.
  - cbn. rewrite Hs, app_nil_r, (proj2 (lookup_ge_None pre _)) by lia. done.
  - change (length (sub :: post)) with (1 + length post)%nat. rewrite run_plus.
    assert (run 1 (Replay.mkConfig (Replay.dispatching it (length pre)) b s pp)
      = Replay.mkConfig (Replay.dispatching it (length (pre ++ [sub]))) b s pp) as ->.
    { rewrite length_app, Nat.add_comm. cbn. rewrite Hs, list_lookup_middle by done.
      destruct (Replay.active sub); [|done]. destruct (Replay.subject_matches _ _) eqn:Em; [|done]. cbn.
      rewrite Hi; [done| |done]. rewrite Hs. set_solver. }
    apply (IH (pre ++ [sub])); [by rewrite Hs, <-app_assoc|done].
Qed.
Lemma drain_ignored s n : ∀ b pp, length (Replay.heap b) = n → (∀ it, it ∈ Replay.heap b → ignores s (Replay.subscriptions b) it) →
  ∃ pp', run (1 + n * (2 + length (Replay.subscriptions b))) (Replay.mkConfig Replay.at_loop b s pp)
    = Replay.mkConfig Replay.finished (Replay.mkReplay [] (Replay.subscriptions b) (Replay.insertion_seq b) (Replay.closed b)) s pp'.
Proof.
  induction n as [|n IH]; intros b pp Hlen Hi; destruct b as [[|x l] subs q cl]; try discriminate Hlen; [by eexists|].
  cbn [Replay.heap Replay.subscriptions Replay.insertion_seq Replay.closed] in *. destruct (Replay.heappop x l) as [m rest] eqn:E.
  pose proof (heappop_spec _ _ _ _ E) as [Hp _].
  replace (1 + Datatypes.S n * (2 + length subs))%nat with (1 + ((1 + length subs) + (1 + n * (2 + length subs))))%nat by lia.
  rewrite run_plus. cbn [Replay.run_until_empty Replay.run_step Replay.ctl Replay.bus Replay.heap]. rewrite E.
  cbn [Replay.subscriptions Replay.insertion_seq Replay.closed Replay.user Replay.popped]. rewrite run_plus.
  rewrite (dispatch_ignored m s subs []); [|done|apply Hi; rewrite <-Hp; by left].
  apply (IH (Replay.mkReplay rest subs q cl)); cbn; [apply Permutation_length in Hp; cbn in *; lia|].
  intros it Hin. apply Hi. rewrite <-Hp. by right.
Qed.
End ignored.

(** ** The handlers after the feed *)
Section drain.
Context `{PgNumeric} (b : BotConfig) (ttl_seconds : Z) (f : faults) (wall_clock : Z).
Context (handle_order : MessageEnvelope bus_payload → ST (bus * (pe_state * world)) unit).
#[local] Abbreviation handler := (run_handler b ttl_seconds f wall_clock handle_order).

Definition outlived (now : Z) (e : MessageEnvelope bus_payload) : Prop :=
  match payload e with signal_payload v => sg_expires_at (vp_signal v) < now | engine_payload _ => False end.
Lemma outlived_ignored e q p w : outlived (clock p) e → handler signal_handler e (q, (p, w)) = (Ok tt, (q, (p, w))).
Proof.
  unfold outlived. intros Ho. cbn. destruct (payload e) as [v|]; [|done].
  unfold handle. cbn. rewrite (proj2 (Z.ltb_lt _ _) Ho). cbn. rewrite drop_all. done.
Qed.
Lemma orders_subject_differs bot : Replay.subject_matches (subject_for_orders_request bot) "signals.validated" = false.
Proof. done. Qed.
End drain.

Lemma opened_parts `{PgNumeric} cfg symbols from_at to_at pace source d parts :
  open_backtest cfg symbols from_at to_at pace source d = Ok parts →
  bp_signals parts = mkSignalSource symbols from_at to_at ∧ ho_from_at (bp_ohlc parts) = from_at ∧ ho_to_at (bp_ohlc parts) = to_at ∧
  fd_paper (bp_start parts) = initial_state from_at d ∧ (∀ ttl, fed cfg ttl [] (fd_bus (bp_start parts))) ∧ from_at < to_at.
Proof.
  unfold open_backtest. intros E. apply bind_ok_inv in E as (o & Ho & E). apply bind_ok_inv in E as (g & Hg & E).
  apply bind_ok_inv in E as (p & Hp & E). cbn in E. injection E as <-. cbn.
  assert (p = initial_state from_at d) as -> by (unfold paper_exchange_init in Hp; repeat case_match; by inv_ok).
  revert Ho Hg. unfold ohlc_source_init, signal_source_init. destruct (bool_decide (symbols = [])); [discriminate|].
  destruct (Z.leb_spec to_at from_at); [discriminate|]. destruct (PACE_FACTOR pace); [|discriminate].
  destruct (negb _); [discriminate|]. by intros [= <-] [= <-].
Qed.
Lemma answer_times s t sigs : signal_answer s t sigs → Forall (fun x => x < hs_to_at s) (sr_received_at <$> sigs).
Proof.
  intros [Hp _]. apply Forall_fmap, Forall_forall. intros r Hr. rewrite Hp, list_elem_of_filter in Hr. destruct Hr as [(_ & ? & _) _]. cbn. lia.
Qed.
Lemma answer_buckets s t candles : ohlc_answer s t candles → Forall (fun x => x < ho_to_at s) (c_bucket_start <$> candles).
Proof.
  intros [Hp _]. apply Forall_fmap, Forall_forall. intros c Hc. rewrite Hp in Hc.
  apply list_elem_of_fmap in Hc as ([[[sy bk] so] r] & -> & Hf). apply list_elem_of_filter in Hf as [(_ & ? & _) _]. cbn. lia.
Qed.
Lemma read_close driver json_loads s : row_to_signal_replay driver json_loads (rs_row s) = Ok s → sr_action (rs_row s) = "CLOSE"%string → rs_action s = CLOSE.
Proof.
  unfold row_to_signal_replay. intros Hr Ha. rewrite Ha in Hr. inv_ok. cbn in *. inv_ok. by rewrite <- H0.
Qed.

(** Every entry of the heap is a signal of the feed. *)
Lemma fed_ignored `{PgNumeric} driver json_loads cfg ttl b f wall handle_order ss q p w it :
  fed cfg ttl ss q → Forall (fun s => row_to_signal_replay driver json_loads (rs_row s) = Ok s) ss →
  (∀ s, s ∈ ss → sr_action (rs_row s) = "CLOSE"%string ∨ sr_received_at (rs_row s) + ttl * 1000000 < clock p) →
  it ∈ Replay.heap q → ignores (run_handler b ttl f wall handle_order) (p, w) (Replay.subscriptions q) it.
Proof.
  intros [_ Hsubs Hheap] Hread Hall Hit sub q' Hsub Hm. rewrite Hsubs in Hsub.
  assert (heap_entry it ∈ entries ttl ss) as Hin by (rewrite <- Hheap; apply list_elem_of_fmap; eauto).
  unfold entries in Hin. apply list_elem_of_fmap in Hin as (s & He & Hs). apply list_elem_of_filter in Hs as [Hnc Hs].
  rewrite Forall_forall in Hread. pose proof (Hread s Hs) as Hr. injection He as _ Hsubj Hpay. rewrite Hsubj in Hm.
  apply elem_of_cons in Hsub as [->|Hsub].
  - apply outlived_ignored. unfold outlived. rewrite Hpay. cbn.
    destruct (Hall s Hs) as [Hc|?]; [|done]. by destruct Hnc, (read_close _ _ _ Hr Hc).
  - apply list_elem_of_singleton in Hsub as ->. cbn [Replay.subject_pattern] in Hm. by rewrite orders_subject_differs in Hm.
Qed.

(** C36: the two feeding tasks of a backtest run to the end of the range before a
    signal is judged.  However they interleave, the replay clock then stands at
    the last time of both sources, the candles have met an empty book (nothing
    but prices and clock has changed), and the bus holds one message for every
    entry signal of the range; the handler of signals drops each one whose time
    to live has passed by that clock, whatever the state, and when all have, the
    drain ends with nothing evaluated, ordered or traded. *)
Theorem backtest_judges_after_range `{PgNumeric} driver json_loads cfg ttl b f wall handle_order
    symbols from_at to_at pace source d parts t sigs ohlc candles c w :
  open_backtest cfg symbols from_at to_at pace source d = Ok parts → has_replay_clock cfg = true →
  signal_answer (bp_signals parts) t sigs → ohlc_answer (bp_ohlc parts) ohlc candles →
  rtc (feed_step driver json_loads cfg ttl (bp_ohlc parts)) (mkFeedConfig sigs (mkIter candles None) (bp_start parts) None) c → gathered c →
  let p := fd_paper (fc_state c) in let q := fd_bus (fc_state c) in
  clock p = latest from_at ((sr_received_at <$> sigs) ++ (c_bucket_start <$> candles)) ∧ from_at <= clock p < to_at ∧
  market_only (initial_state from_at d) p ∧
  (∃ ss, rs_row <$> ss = sigs ∧ Forall (fun s => row_to_signal_replay driver json_loads (rs_row s) = Ok s) ss ∧
         heap_entry <$> Replay.heap q = entries ttl ss) ∧
  (∀ e q' w', outlived (clock p) e → run_handler b ttl f wall handle_order signal_handler e (q', (p, w')) = (Ok tt, (q', (p, w')))) ∧
  ((∀ r, r ∈ sigs → sr_action r = "CLOSE"%string ∨ sr_received_at r + ttl * 1000000 < clock p) →
   ∃ q' popped, Replay.run_until_empty (run_handler b ttl f wall handle_order) (1 + length (Replay.heap q) * 4)
     (Replay.mkConfig Replay.at_loop q (p, w) []) = Replay.mkConfig Replay.finished q' (p, w) popped).
Proof.
  intros Hopen Hrc Hsig Hohlc Hrun (Hg1 & Hg2 & Hg3) p q.
  destruct (opened_parts _ _ _ _ _ _ _ _ Hopen) as (Hps & Hfrom & Hto & Hpaper & Hfed & Hlt).
  destruct (progress_run driver json_loads cfg ttl (bp_ohlc parts) sigs candles (bp_start parts) c Hrc) as (ss & cs & [Hs Hc Hr Hm Ht Hf]); [by rewrite Hpaper|done..|].
  rewrite Hg1, app_nil_r in Hs. rewrite Hg2, app_nil_r in Hc. subst sigs cs. rewrite Hpaper in Hm, Ht. cbn in Ht.
  assert (clock p = latest from_at ((sr_received_at <$> (rs_row <$> ss)) ++ (c_bucket_start <$> candles))) as Hclock.
  { unfold p. rewrite Ht. by rewrite <- list_fmap_compose. }
  assert (from_at <= clock p < to_at) as Hb.
  { rewrite Hclock. apply latest_bounds; [done|]. apply Forall_app. split.
    - pose proof (answer_times _ _ _ Hsig) as Ha. by rewrite Hps in Ha.
    - pose proof (answer_buckets _ _ _ Hohlc) as Ha. by rewrite Hto in Ha. }
  split; [done|]. split; [done|]. split_and!.
  - done.
  - exists ss. split_and!; [done|done|apply Hf].
  - intros e q' w' Ho. by apply outlived_ignored.
  - intros Hall. destruct (drain_ignored (run_handler b ttl f wall handle_order) (p, w) (length (Replay.heap q)) q []) as (pp & Hd); [done| |].
    + intros it. eapply fed_ignored; [done..|]. intros s Hin. apply Hall, list_elem_of_fmap. eauto.
    + assert (length (Replay.subscriptions q) = 2%nat) as Hlen by (unfold q; by rewrite (fed_subscriptions _ _ _ _ Hf)).
      rewrite Hlen in Hd. eauto.
Qed.

(** ** A concrete backtest: a signal after one minute, candles after none and five *)
Definition feed_cfg : pe_config :=
  mkConfig "bot" (1000 @ 0) m_fixed_pct (1 @ (-3)) {["fixed_slippage_pct" := 1 @ (-3)]} replay true true None false false false.
Definition feed_signals : list Gateway.signal_row :=
  [Gateway.mkSignalRow 1 60000000 "tv" "key" "BTCUSDT" None "LONG" [] st_validated "corr"].
Definition feed_row : OhlcRow := mkOhlcRow (100 @ 0) (101 @ 0) (99 @ 0) (100 @ 0) (1 @ 0).
Definition feed_table : ohlc_table :=
  {[("BTCUSDT"%string, 0, "binance"%string) := feed_row; ("BTCUSDT"%string, 300000000, "binance"%string) := feed_row]}.
Definition feed_candles : list candle :=
  row_to_ohlc <$> [("BTCUSDT"%string, 0, "binance"%string, feed_row); ("BTCUSDT"%string, 300000000, "binance"%string, feed_row)].
Definition feed_source : HistoricalOHLCSource := mkOhlcSource ["BTCUSDT"%string] 0 600000000 None "binance".
Definition feed_reads : SignalRow := mkReplaySignal (default (Gateway.mkSignalRow 0 0 "" "" "" None "" [] st_invalid "") (head feed_signals)) LONG [].

Lemma feed_answers : ohlc_answer feed_source feed_table feed_candles.
Proof.
  constructor; [|repeat constructor; done].
  assert (feed_candles ≡ₚ row_to_ohlc <$> filter (in_replay feed_source) (map_to_list feed_table)) as Hp; [|exact Hp].
  vm_compute. first [reflexivity|apply Permutation_swap].
Qed.
Section witnesses.
#[local] Existing Instance pg_half_away.
Definition no_json (s : string) : res dict := Err (ValueError s).
Definition feed_parts : backtest_parts :=
  match open_backtest feed_cfg ["BTCUSDT"%string] 0 600000000 "max" "binance" empty_db with
  | Ok parts => parts
  | Err _ => mkParts feed_source (mkSignalSource [] 0 0) (mkFeed (initial_state 0 empty_db) Replay.empty_bus 0)
  end.
(** The first candle, the signal, the second candle. *)
Definition candle_at (t : Z) : candle := row_to_ohlc ("BTCUSDT"%string, t, "binance"%string, feed_row).
Definition candle_turn (c : candle) (st : feed_state) : res unit * feed_state := on_paper (process_replay_candle feed_cfg c) st.
Definition signal_turn (st : feed_state) : res unit * feed_state := publish_signal jsonb_value no_json 120 (rs_row feed_reads) st.
Definition feed_1 : feed_state := (candle_turn (candle_at 0) (bp_start feed_parts)).2.
Definition feed_2 : feed_state := (signal_turn feed_1).2.
Definition feed_end : feed_state := (candle_turn (candle_at 300000000) feed_2).2.
Definition feed_finish : feed_config := mkFeedConfig [] (mkIter [] (Some (0, 0))) feed_end None.
Lemma turn_ok {A B} (x : res A * B) a : x.1 = Ok a → x = (Ok a, x.2).
Proof. destruct x. by intros [= ->]. Qed.
Lemma feed_runs :
  rtc (feed_step jsonb_value no_json feed_cfg 120 feed_source) (mkFeedConfig feed_signals (mkIter feed_candles None) (bp_start feed_parts) None) feed_finish.
Proof.
  apply (rtc_l _ _ (mkFeedConfig feed_signals (mkIter [candle_at 300000000] (Some (0, 0))) feed_1 (raised_by (Ok tt)))).
  { apply (step_candle _ _ _ _ _ 0 _ _ bzero (candle_at 0)); [by vm_compute|]. apply turn_ok. by vm_compute. }
  apply (rtc_l _ _ (mkFeedConfig [] (mkIter [candle_at 300000000] (Some (0, 0))) feed_2 (raised_by (Ok tt)))).
  { apply step_signal, (turn_ok (signal_turn feed_1)). by vm_compute. }
  apply (rtc_l _ _ (mkFeedConfig [] (mkIter [] (Some (0, 0))) feed_end (raised_by (Ok tt)))); [|apply rtc_refl].
  apply (step_candle _ _ _ _ _ 0 _ _ bzero (candle_at 300000000)); [by vm_compute|]. apply turn_ok. by vm_compute.
Qed.
Lemma backtest_judges_after_range_witness :
  clock (fd_paper (fc_state feed_finish)) = 300000000 ∧ length (Replay.heap (fd_bus (fc_state feed_finish))) = 1%nat ∧
  ∃ q' popped, Replay.run_until_empty (run_handler (demo_bot em_paper) 120 no_faults 900000000 (fun _ => mret tt))
    (1 + length (Replay.heap (fd_bus (fc_state feed_finish))) * 4)
    (Replay.mkConfig Replay.at_loop (fd_bus (fc_state feed_finish)) (fd_paper (fc_state feed_finish), demo_world ∅) [])
    = Replay.mkConfig Replay.finished q' (fd_paper (fc_state feed_finish), demo_world ∅) popped.
Proof.
  split; [by vm_compute|]. split; [by vm_compute|].
  destruct (backtest_judges_after_range jsonb_value no_json feed_cfg 120 (demo_bot em_paper) no_faults 900000000 (fun _ => mret tt)
    ["BTCUSDT"%string] 0 600000000 "max" "binance" empty_db feed_parts feed_signals feed_signals feed_table feed_candles feed_finish (demo_world ∅))
    as (_ & _ & _ & _ & _ & Hdrain); [by vm_compute|done| |apply feed_answers|apply feed_runs|done|].
  - split; [by vm_compute|repeat constructor].
  - apply Hdrain. intros r Hr. apply list_elem_of_singleton in Hr as ->. right. by vm_compute.
Defined.
End witnesses.
