(* ===== verification/Engine.v ===== *)
(** * The feature engine around its pipeline

    Models packages/features/yaml.py, the table reads of
    packages/db/queries/feature_engine.py, services/feature_engine/app/auto_backfill.py
    (which features are backfilled), the start and stop of
    services/feature_engine/app/main.py and scripts/backfill_features.py.  The
    pipeline, the buffers and the loop over the rows are those of Features.v.
    At the awaits of the start after the subscription the candles of the
    subscription and the backfills created so far take turns in any order.

    Parameters: [safe_load] is the YAML parser, [fromisoformat] reads a date.
    Periods that are not integers, braces in an interval and non-ASCII symbols
    are not represented.  A table of candles per interval; the continuous
    aggregates are tables like [ohlc_1m]. *)

From S2P Require Import Prelude Dec DecText Bus PyNum PaperExchange Scoring Loader Features Market.
From stdpp Require Import pretty sorting.
From Stdlib Require Import Ascii.
Open Scope Z_scope.

(** ** packages/features/yaml.py *)
Inductive feature_class := c_ema | c_rsi | c_atr | c_bollinger | c_macd | c_vwap.
Definition TYPE_TO_FEATURE (type_ : string) : option feature_class :=
  (if type_ =? "builtin.ema" then Some c_ema
   else if type_ =? "builtin.rsi" then Some c_rsi
   else if type_ =? "builtin.atr" then Some c_atr
   else if type_ =? "builtin.bollinger" then Some c_bollinger
   else if type_ =? "builtin.macd" then Some c_macd
   else if type_ =? "builtin.vwap" then Some c_vwap
   else None)%string.

(** The call with the entries of [params] and [interval] as keywords: a mapping
    with string keys, all of them parameters other than [interval]. *)
Definition call_args (allowed : list string) (params : yaml) : res mapping :=
  match params with
  | YDict d =>
      if forallb (fun kv => existsb (fun k => eq_str k kv.1) allowed) d then Ok d
      else Err (TypeError "unexpected keyword argument")
  | _ => Err (TypeError "argument after ** must be a mapping")
  end.
Definition int_arg (k : string) (default_ : option Z) (d : mapping) : res Z :=
  match get k d, default_ with
  | Some (YInt z), _ => Ok z
  | Some _, _ => Err (TypeError "not an integer")
  | None, Some z => Ok z
  | None, None => Err (TypeError "missing argument")
  end.
Definition period_arg (least : Z) (k : string) (default_ : option Z) (d : mapping) : res nat :=
  z ← int_arg k default_ d; if z <? least then Err (ValueError "period") else Ok (Z.to_nat z).
(** A multiplier of the YAML is an int or a float, which has no [normalize]. *)
Definition multiplier_arg (d : mapping) : res dec :=
  match get "std_dev_multiplier" d with
  | None => Ok (mkDec 2 0)
  | Some (YInt z) => if z <=? 0 then Err (ValueError "std_dev_multiplier must be > 0") else Err (AttributeError "normalize")
  | Some (YBool b) => if b then Err (AttributeError "normalize") else Err (ValueError "std_dev_multiplier must be > 0")
  | Some (YFloat (FNum text)) =>
      match dec_of_str text with
      | Ok x => if coef x <=? 0 then Err (ValueError "std_dev_multiplier must be > 0") else Err (AttributeError "normalize")
      | Err e => Err e
      end
  | Some (YFloat (FInf true)) => Err (ValueError "std_dev_multiplier must be > 0")
  | Some (YFloat _) => Err (AttributeError "normalize")
  | Some _ => Err (TypeError "not comparable")
  end.
Definition construct (c : feature_class) (params : yaml) : res builtin :=
  match c with
  | c_ema => d ← call_args ["period"] params; p ← period_arg 1 "period" None d; Ok (EmaFeature p)
  | c_rsi => d ← call_args ["period"] params; p ← period_arg 1 "period" None d; Ok (RsiFeature p)
  | c_atr => d ← call_args ["period"] params; p ← period_arg 1 "period" None d; Ok (AtrFeature p)
  | c_bollinger =>
      d ← call_args ["period"; "std_dev_multiplier"] params;
      p ← period_arg 2 "period" (Some 20) d; m ← multiplier_arg d; Ok (BollingerFeature p m)
  | c_macd =>
      d ← call_args ["fast"; "slow"; "signal"] params;
      fast ← period_arg 1 "fast" (Some 12) d; slow ← period_arg 1 "slow" (Some 26) d; signal ← period_arg 1 "signal" (Some 9) d;
      if (slow <=? fast)%nat then Err (ValueError "fast must be < slow") else Ok (MacdFeature fast slow signal)
  | c_vwap =>
      d ← call_args ["session"] params;
      match get "session" d with
      | None => Ok VwapFeature
      | Some v => if eq_str "daily" v then Ok VwapFeature else Err (ValueError "session must be 'daily'")
      end
  end.

(** [format(m.normalize(), "f")] of a positive number of at most 28 digits. *)
Fixpoint drop_zeros (l : list Z) : list Z := match l with 0 :: l' => drop_zeros l' | _ => l end.
Definition fixed_text (m : dec) : string :=
  if 0 <=? dexp m then pretty (coef m * 10 ^ dexp m)
  else let scale := 10 ^ (- dexp m) in
       let frac := digits_of (coef m mod scale) in
       let padded := repeat 0 (Z.to_nat (- dexp m) - length frac) ++ frac in
       match drop_zeros (reverse padded) with
       | [] => pretty (coef m / scale)
       | ds => pretty (coef m / scale) +:+ "." +:+ String.string_of_list_ascii (chars_of (reverse ds))
       end.
(** The part of [name_template] after the interval. *)
Definition name_suffix (f : builtin) : string :=
  match f with
  | EmaFeature p => "ema_" +:+ pretty p
  | RsiFeature p => "rsi_" +:+ pretty p
  | AtrFeature p => "atr_" +:+ pretty p
  | BollingerFeature p m => "bollinger_" +:+ pretty p +:+ "_" +:+ fixed_text m
  | MacdFeature fa sl si => "macd_" +:+ pretty fa +:+ "_" +:+ pretty sl +:+ "_" +:+ pretty si
  | VwapFeature => "vwap_session"
  end.
(** The template with its interval, and the name of a symbol. *)
Definition expected_yaml_template (f : builtin) (interval : string) : string := "ind.{symbol}." +:+ interval +:+ "." +:+ name_suffix f.
Definition feature_name_of (f : builtin) (symbol interval : string) : string := "ind." +:+ lower symbol +:+ "." +:+ interval +:+ "." +:+ name_suffix f.

Abbreviation feature_map := (list (buffer_key * list (string * builtin))).
(** [result.setdefault(key, []).append(x)]. *)
Fixpoint setdefault_append (key : buffer_key) (x : string * builtin) (m : feature_map) : feature_map :=
  match m with
  | [] => [(key, [x])]
  | (k, l) :: m' => if bool_decide (k = key) then (k, l ++ [x]) :: m' else (k, l) :: setdefault_append key x m'
  end.
Definition subscript_yaml (k : string) (v : yaml) : res yaml :=
  match v with
  | YDict d => match get k d with Some x => Ok x | None => Err (KeyError k) end
  | _ => Err (TypeError "not subscriptable by a string")
  end.
Definition class_of (type_ : yaml) : res feature_class :=
  match type_ with
  | YStr s => match TYPE_TO_FEATURE s with Some c => Ok c | None => Err (KeyError s) end
  | YList _ | YDict _ => Err (TypeError "unhashable type")
  | _ => Err (KeyError "type")
  end.
Definition add_symbol (c : feature_class) (interval params version template : yaml) (symbol : string) (m : feature_map) : res feature_map :=
  f ← construct c params;
  if negb (eq_str (source_version f) version) then Err (ValueError "source_version mismatch") else
  match interval with
  | YStr i =>
      if negb (eq_str (expected_yaml_template f i) template) then Err (ValueError "name_template mismatch")
      else Ok (setdefault_append (symbol, i) (feature_name_of f symbol i, f) m)
  | _ => Err (TypeError "replace() argument 2 must be str")
  end.
Fixpoint fold_res {A S} (step : A → S → res S) (l : list A) (s : S) : res S :=
  match l with [] => Ok s | x :: l' => s' ← step x s; fold_res step l' s' end.
Definition add_entry (symbols : list string) (entry : yaml) (m : feature_map) : res feature_map :=
  type_ ← subscript_yaml "type" entry; c ← class_of type_;
  interval ← subscript_yaml "interval" entry;
  d ← items entry;
  let params := default (YDict []) (get "params" d) in
  version ← subscript_yaml "source_version" entry;
  template ← subscript_yaml "name_template" entry;
  fold_res (add_symbol c interval params version template) symbols m.
Definition load_indicators (symbols : list string) (raw : yaml) : res feature_map :=
  if negb (truthy raw) then Ok [] else
  match raw with
  | YDict d =>
      match get "features" d with
      | None => Ok []
      | Some v => entries ← py_iter v; fold_res (add_entry symbols) entries []
      end
  | YList l => if existsb (eq_str "features") l then Err (TypeError "list indices must be integers") else Ok []
  | YStr s => match String.index 0 "features" s with Some _ => Err (TypeError "string indices must be integers") | None => Ok [] end
  | _ => Err (TypeError "argument is not iterable")
  end.
(** [text] is the file, when it exists. *)
Definition load_indicators_yaml (safe_load : string → res yaml) (text : option string) (symbols : list string) : res feature_map :=
  match text with None => Ok [] | Some t => raw ← safe_load t; load_indicators symbols raw end.

(** ** packages/db/queries/feature_engine.py: candles by interval *)
Definition INTERVAL_TO_TABLE (interval : string) : option string :=
  (if interval =? "1m" then Some "ohlc_1m"
   else if interval =? "5m" then Some "ohlc_5m"
   else if interval =? "15m" then Some "ohlc_15m"
   else if interval =? "1h" then Some "ohlc_1h"
   else if interval =? "4h" then Some "ohlc_4h"
   else if interval =? "1d" then Some "ohlc_1d"
   else None)%string.
Abbreviation ohlc_tables := (string → ohlc_table).
Definition bucket_ge (a b : Z * OhlcRow) : Prop := bucket_le b a.
#[global] Instance bucket_ge_dec : RelDecision bucket_ge.
Proof. intros a b. unfold bucket_ge. apply _. Defined.
#[global] Instance bucket_le_rel : RelDecision bucket_le.
Proof. intros a b. apply _. Defined.
Definition candle_of_row (symbol interval source : string) (x : Z * OhlcRow) : OhlcCandle :=
  mkOhlc symbol interval x.1 (or_open x.2) (or_high x.2) (or_low x.2) (or_close x.2) (or_volume x.2) source.
(** The newest [n] rows, oldest first. *)
Definition fetch_warmup_window (t : ohlc_tables) (symbol interval : string) (n : nat) (source : string) : res (list OhlcCandle) :=
  match INTERVAL_TO_TABLE interval with
  | None => Err (ValueError ("unknown interval " +:+ interval))
  | Some table =>
      let recent := take n (merge_sort bucket_ge (ohlc_rows symbol source (t table))) in
      Ok (candle_of_row symbol interval source <$> merge_sort bucket_le recent)
  end.
(** Both ends included. *)
Definition in_range (from_dt to_dt : Z) (x : Z * OhlcRow) : Prop := from_dt <= x.1 <= to_dt.
#[global] Instance in_range_dec from_dt to_dt x : Decision (in_range from_dt to_dt x).
Proof. unfold in_range. apply _. Defined.
Definition fetch_ohlc_range (t : ohlc_tables) (symbol interval source : string) (from_dt to_dt : Z) : res (list OhlcCandle) :=
  match INTERVAL_TO_TABLE interval with
  | None => Err (ValueError ("unknown interval " +:+ interval))
  | Some table =>
      Ok (candle_of_row symbol interval source <$> merge_sort bucket_le (filter (in_range from_dt to_dt) (ohlc_rows symbol source (t table))))
  end.

Section engine.
Context {B H F : Type} (to_float : dec → F) (bus : bus_ops B (@FeatureUpdate F) H) (isoformat : Z → string).
Abbreviation world := (@fworld B F).
Abbreviation FWorld := (ST world).

(** ** services/feature_engine/app/auto_backfill.py *)
Definition KV_BUCKET : string := "feature_registry_seen".
Record backfill_task := mkTask { bt_key : buffer_key; bt_name : string; bt_feature : builtin }.
(** One task run to its end, over the window that ends now; what it raises is
    swallowed. *)
Definition run_task (t : ohlc_tables) (source : string) (window_days now : Z) (task : backfill_task) : FWorld unit :=
  let '(symbol, interval) := bt_key task in
  match fetch_ohlc_range t symbol interval source (now - window_days * DAY) now with
  | Err _ => mret tt
  | Ok rows => backfill_and_mark to_float bus (bt_name task) symbol interval (bt_feature task) rows (isoformat now)
  end.

(** The same coroutine as the event loop runs it, from one await to the next:
    the fetch, then one write at a time, then the mark. *)
Inductive task_stage := ts_created | ts_rows (buf rows : list OhlcCandle) (mark : string) | ts_ended.
Record running := mkRunning { rt_task : backfill_task; rt_stage : task_stage }.
Fixpoint next_write (name symbol interval : string) (f : builtin) (buf rows : list OhlcCandle)
  : FWorld (option (list OhlcCandle * list OhlcCandle)) :=
  match rows with
  | [] => mret None
  | c :: rest =>
      let buf' := dq_append (warmup_candles f) buf c in
      if (length buf' <? warmup_candles f)%nat then next_write name symbol interval f buf' rest else
      v ← lift_res (compute f buf');
      match INTERVAL_DELTA interval with
      | None => throw (KeyError interval)
      | Some d =>
          insert_feature (name, symbol, oc_bucket_start c + d, source_version f) (to_wire to_float v) ;;
          mret (Some (buf', rest))
      end
  end.
Definition task_turn (t : ohlc_tables) (source : string) (window_days now : Z) (r : running) : FWorld running :=
  let task := rt_task r in
  let '(symbol, interval) := bt_key task in
  match rt_stage r with
  | ts_created =>
      mret (mkRunning task (match fetch_ohlc_range t symbol interval source (now - window_days * DAY) now with
                            | Err _ => ts_ended
                            | Ok rows => ts_rows [] rows (isoformat now)
                            end))
  | ts_rows buf rows mark =>
      x ← attempt is_exception (
            w ← next_write (bt_name task) symbol interval (bt_feature task) buf rows;
            match w with
            | Some (buf', rest) => mret (ts_rows buf' rest mark)
            | None => on_fbus (bus_kv_put bus KV_BUCKET (bt_name task) mark) ;; mret ts_ended
            end);
      mret (mkRunning task (match x with Ok st => st | Err _ => ts_ended end))
  | ts_ended => mret r
  end.

(** What else runs at an await of the start once the engine is subscribed: the
    handler of the subscription on an envelope, or a created task; tables and
    clock are those of the moment. *)
Inductive turn :=
| t_envelope (now : Z) (payload : option (OhlcCandle * bool))
| t_task (i : nat) (t : ohlc_tables) (now : Z).
Section schedule.
Context (dump : @FeatureUpdate F → string) (source : string) (window_days : Z) (features_by_key : feature_map).

(** An exception of the handler stays with the subscription, one of a task with
    the task. *)
Definition take_turn (x : turn) (ts : list running) : FWorld (list running) := fun w =>
  match x with
  | t_envelope now payload => (Ok ts, (on_envelope to_float bus dump isoformat now features_by_key payload w).2)
  | t_task i t now =>
      match ts !! i with
      | None => (Ok ts, w)
      | Some r => match task_turn t source window_days now r w with
                  | (Ok r', w') => (Ok (<[i := r']> ts), w')
                  | (Err _, w') => (Ok (<[i := mkRunning (rt_task r) ts_ended]> ts), w')
                  end
      end
  end.
Fixpoint take_turns (l : list turn) (ts : list running) : FWorld (list running) :=
  match l with [] => mret ts | x :: l' => ts' ← take_turn x ts; take_turns l' ts' end.

(** The flattened loop: each [kv_get] is an await, with turns of the others
    before the store answers and after; [awaits] are those turns in order. *)
Fixpoint schedule_entries (entries : list (buffer_key * (string * builtin))) (awaits : list (list turn)) (ts : list running)
  : FWorld (list running) :=
  match entries with
  | [] => mret ts
  | (key, (name, f)) :: rest =>
      ts1 ← take_turns (default [] (awaits !! 0%nat)) ts;
      seen ← on_fbus (bus_kv_get bus KV_BUCKET name);
      ts2 ← take_turns (default [] (awaits !! 1%nat)) ts1;
      schedule_entries rest (drop 2 awaits)
        (match seen with Some _ => ts2 | None => ts2 ++ [mkRunning (mkTask key name f) ts_created] end)
  end.
End schedule.
Definition flat_entries (m : feature_map) : list (buffer_key * (string * builtin)) := m ≫= fun kv => pair kv.1 <$> kv.2.
Definition schedule_auto_backfills (dump : @FeatureUpdate F → string) (source : string) (window_days : Z) (features_by_key : feature_map)
    (awaits : list (list turn)) : FWorld (list running) :=
  schedule_entries dump source window_days features_by_key (flat_entries features_by_key) awaits [].

(** ** services/feature_engine/app/main.py *)
(** Which of the outside calls of the start fail; [ff_fetch] those of the warm-up. *)
Record start_failures := mkFailures { ff_pool : option exn; ff_bus : option exn; ff_fetch : buffer_key → bool }.
Definition fails (failure : option exn) : FWorld unit := match failure with Some e => throw e | None => mret tt end.
Definition capacity_of (features_by_key : feature_map) : gmap buffer_key nat :=
  list_to_map ((fun kv => (kv.1, max_warmup kv.2)) <$> features_by_key).
Definition fetch_warmup (t : ohlc_tables) (source : string) (ff : start_failures) (key : buffer_key) (n : nat) : res (list OhlcCandle) :=
  if ff_fetch ff key then Err (RuntimeError "connection") else fetch_warmup_window t key.1 key.2 n source.
(** Registry and buffers, pool, bus, handles before the warm-up before the
    subscription, then the tasks, beside which the subscription and the tasks
    already created run. *)
Definition lifespan (dump : @FeatureUpdate F → string) (safe_load : string → res yaml) (indicators : option string) (symbols : list string)
    (t : ohlc_tables) (source : string) (window_days : Z) (on_message : H) (ff : start_failures) (awaits : list (list turn))
  : FWorld (feature_map * list running) :=
  features_by_key ← lift_res (load_indicators_yaml safe_load indicators symbols);
  modify (set_registry (mkRegistry (capacity_of features_by_key) ∅ ∅)) ;;
  fails (ff_pool ff) ;;
  fails (ff_bus ff) ;;
  acquire_handles features_by_key ;;
  modify (fun w => set_registry (warmup_load (fetch_warmup t source ff) features_by_key (fw_registry w)) w) ;;
  match features_by_key with [] => mret tt | _ => on_fbus (bus_subscribe bus "market.ohlc.1m.>" on_message) end ≫= fun _ =>
  tasks ← schedule_auto_backfills dump source window_days features_by_key awaits;
  mret (features_by_key, tasks).

(** ** scripts/backfill_features.py *)
Definition join_dots (l : list string) : string := match l with [] => "" | x :: l' => foldl (fun acc y => acc +:+ "." +:+ y) x l' end.
Definition parse_feature_name (name : string) : res (string * string * string) :=
  match Replay.split name with
  | prefix :: symbol_lower :: interval :: r :: rest =>
      if (prefix =? "ind")%string then Ok (upper symbol_lower, interval, join_dots (r :: rest)) else Err (ValueError "feature_name")
  | _ => Err (ValueError "feature_name")
  end.
Definition parse_iso_datetime (fromisoformat : string → res datetime) (value : string) : res Z :=
  d ← fromisoformat value;
  match dt_utcoffset d with
  | None => Ok (dt_local d)
  | Some off => if off =? 0 then Ok (dt_local d) else Err (ValueError "datetime must be UTC")
  end.
(** The two loops over the registry: the first entry of that name. *)
Definition find_feature (name : string) (m : feature_map) : option builtin :=
  snd <$> find (fun nf => (nf.1 =? name)%string) (m ≫= snd).
Record backfill_args := mkBackfill { ba_feature : string; ba_from : string; ba_to : string; ba_source : string; ba_yaml : option string }.
(** [_main]: its exit code; what it raises past the arguments ends the process. *)
Definition backfill_main (safe_load : string → res yaml) (fromisoformat : string → res datetime) (t : ohlc_tables) (args : backfill_args) : FWorld Z :=
  match (p ← parse_feature_name (ba_feature args); from_dt ← parse_iso_datetime fromisoformat (ba_from args);
         to_dt ← parse_iso_datetime fromisoformat (ba_to args); Ok (p, from_dt, to_dt)) with
  | Err (ValueError _) => mret 1
  | Err e => throw e
  | Ok (symbol, interval, _, from_dt, to_dt) =>
      registry ← lift_res (load_indicators_yaml safe_load (ba_yaml args) [symbol]);
      match find_feature (ba_feature args) registry with
      | None => mret 1
      | Some f =>
          rows ← lift_res (fetch_ohlc_range t symbol interval (ba_source args) from_dt to_dt);
          backfill_rows to_float (ba_feature args) symbol interval f [] rows ;; mret 0
      end
  end.
End engine.
