(* ===== verification/EngineFacts.v ===== *)
(** * The feature engine: a warm start and repeatable backfills

    What the indicators file loads to, the buffers an engine starts with,
    whatever runs beside the start, and what a backfill leaves however often it
    was interrupted. *)

From S2P Require Import Prelude Dec DecText Bus PyNum PaperExchange Scoring Loader Features FeatureFacts PaperInv Market Engine.
From stdpp Require Import pretty sorting.
Open Scope Z_scope.

(** ** What is loaded *)
Definition entry_ok (key : buffer_key) (nf : string * builtin) : Prop :=
  constructible nf.2 = true ∧ nf.1 = feature_name_of nf.2 key.1 key.2.
Record map_ok (m : feature_map) : Prop := mkMapOk {
  mk_keys : NoDup m.*1;
  mk_entries : Forall (fun kv => kv.2 ≠ [] ∧ Forall (entry_ok kv.1) kv.2) m;
}.
Lemma append_keys key x m : (setdefault_append key x m).*1 = if bool_decide (key ∈ m.*1) then m.*1 else m.*1 ++ [key].
Proof.
  induction m as [|[k l] m IH]; cbn [setdefault_append].
  - rewrite bool_decide_eq_false_2; [done|]. by intros ?%elem_of_nil.
  - destruct (decide (k = key)) as [->|Hk].
    + rewrite (bool_decide_eq_true_2 (key = key)) by done. rewrite !fmap_cons, bool_decide_eq_true_2; [done|left].
    + rewrite (bool_decide_eq_false_2 (k = key)) by done. rewrite !fmap_cons, IH. destruct (decide (key ∈ m.*1)) as [Hin|Hin].
      * rewrite !bool_decide_eq_true_2; [done|by right|done].
      * rewrite !bool_decide_eq_false_2; [done| |done]. intros [->|?]%elem_of_cons; done.
Qed.
Lemma append_ok key x m : entry_ok key x → map_ok m → map_ok (setdefault_append key x m).
Proof.
  intros Hx [Hk He]. split.
  - rewrite append_keys. case_bool_decide; [done|]. apply NoDup_app. split_and!; [done|set_solver|apply NoDup_singleton].
  - clear Hk. induction He as [|[k l] m [Hne Hl] He IH]; cbn; [constructor; [split; [done|by apply Forall_singleton]|constructor]|].
    case_bool_decide; [subst|by constructor]. constructor; [|done]. split; [by destruct l|]. apply Forall_app. split; [done|by constructor].
Qed.
Lemma period_arg_ok least k dflt d p : 0 <= least → period_arg least k dflt d = Ok p → (Z.to_nat least <= p)%nat.
Proof. unfold period_arg. intros Hl Hp. inv_ok. destruct (Z.ltb_spec a least); inv_ok. subst. lia. Qed.
Lemma multiplier_arg_ok d m : multiplier_arg d = Ok m → m = mkDec 2 0.
Proof. unfold multiplier_arg. intros Hm. repeat case_match; inv_ok; try done. Qed.
Lemma construct_ok c params f : construct c params = Ok f → constructible f = true.
Proof.
  destruct c; cbn [construct]; intros Hc; inv_ok; subst; cbn [constructible];
    repeat match goal with H : period_arg _ _ _ _ = Ok _ |- _ => apply period_arg_ok in H; [|lia] end.
  1-3: by apply Nat.leb_le.
  - match goal with H : multiplier_arg _ = Ok _ |- _ => apply multiplier_arg_ok in H as -> end. by rewrite (proj2 (Nat.leb_le _ _)) by lia.
  - match goal with H : (if (?x <=? ?y)%nat then _ else _) = _ |- _ => destruct (Nat.leb_spec x y); inv_ok end. subst. cbn [constructible].
    rewrite !(proj2 (Nat.leb_le _ _)), (proj2 (Nat.ltb_lt _ _)) by lia. done.
  - repeat case_match; inv_ok; by subst.
Qed.
Lemma fold_res_inv {A S} (P : S → Prop) step (l : list A) s s' :
  (∀ x s s', P s → step x s = Ok s' → P s') → P s → fold_res step l s = Ok s' → P s'.
Proof. intros Hstep. revert s. induction l as [|x l IH]; intros s Hs Hf; cbn in Hf; inv_ok; [by subst|]. eauto. Qed.
Lemma add_symbol_ok c interval params version template symbol m m' :
  map_ok m → add_symbol c interval params version template symbol m = Ok m' → map_ok m'.
Proof.
  unfold add_symbol. intros Hm Ha. inv_ok. repeat case_match; inv_ok; subst; try done.
  apply append_ok; [|done]. split; [by eapply construct_ok|done].
Qed.
Lemma load_ok safe_load text symbols m : load_indicators_yaml safe_load text symbols = Ok m → map_ok m.
Proof.
  assert (map_ok []) as H0 by (split; [apply NoDup_nil_2|constructor]).
  unfold load_indicators_yaml, load_indicators. destruct text; [|by intros [= <-]]. intros Hl. inv_ok.
  repeat case_match; inv_ok; subst; try done.
  eapply (fold_res_inv map_ok); [|exact H0|done]. intros entry s0 s1 Hs He. unfold add_entry in He. inv_ok.
  eapply (fold_res_inv map_ok); [|exact Hs|done]. intros. by eapply add_symbol_ok.
Qed.

(** ** The newest rows, oldest first *)
Lemma StronglySorted_app_one {A} (R : A → A → Prop) l x : StronglySorted R l → Forall (fun y => R y x) l → StronglySorted R (l ++ [x]).
Proof.
  induction l as [|y l IH]; intros Hl Hx; [repeat constructor|]. apply StronglySorted_inv in Hl as [Hl Hy]. apply Forall_cons in Hx as [Hyx Hx].
  cbn. constructor; [by apply IH|]. apply Forall_app. split; [done|by constructor].
Qed.
Lemma StronglySorted_reverse {A} (R : A → A → Prop) l : StronglySorted R l → StronglySorted (flip R) (reverse l).
Proof.
  induction 1 as [|x l Hl IH Hx]; [constructor|]. rewrite reverse_cons. apply StronglySorted_app_one; [done|].
  apply Forall_reverse. done.
Qed.
#[global] Instance bucket_le_trans : Transitive bucket_le.
Proof. intros x y z ? ?. unfold bucket_le in *. lia. Qed.
#[global] Instance bucket_le_total : Total bucket_le.
Proof. intros x y. unfold bucket_le. lia. Qed.
#[global] Instance bucket_ge_trans : Transitive bucket_ge.
Proof. intros x y z ? ?. unfold bucket_ge, bucket_le in *. lia. Qed.
#[global] Instance bucket_ge_total : Total bucket_ge.
Proof. intros x y. unfold bucket_ge, bucket_le. lia. Qed.
Abbreviation by_time := (merge_sort bucket_le).
Lemma bucket_inj (l : list (Z * OhlcRow)) x y : NoDup l.*1 → x ∈ l → y ∈ l → x.1 = y.1 → x = y.
Proof.
  intros Hnd [i Hi]%list_elem_of_lookup [j Hj]%list_elem_of_lookup Heq.
  assert (i = j) as ->; [|congruence]. eapply (NoDup_lookup l.*1); [done|by rewrite list_lookup_fmap, Hi|rewrite list_lookup_fmap, Hj; cbn; by rewrite Heq].
Qed.
Lemma newest_first l : NoDup l.*1 → merge_sort bucket_ge l = reverse (by_time l).
Proof.
  intros Hnd. apply (StronglySorted_unique_strong bucket_ge).
  - intros x y Hx Hy H1 H2. rewrite merge_sort_Permutation in Hx. rewrite reverse_Permutation, merge_sort_Permutation in Hy.
    apply (bucket_inj l); try done. unfold bucket_ge, bucket_le in *. lia.
  - apply StronglySorted_merge_sort; apply _.
  - apply (StronglySorted_reverse bucket_le), (StronglySorted_merge_sort bucket_le).
  - by rewrite reverse_Permutation, !merge_sort_Permutation.
Qed.
Lemma lastn_reverse {A} n (l : list A) : take n (reverse l) = reverse (lastn n l).
Proof.
  unfold lastn. apply (inj reverse). rewrite reverse_involutive. rewrite <- (take_drop (length l - n) l) at 1. rewrite reverse_app.
  destruct (Nat.le_gt_cases n (length l)).
  - rewrite take_app_length'; [by rewrite reverse_involutive|]. rewrite length_reverse, length_drop. lia.
  - replace (length l - n)%nat with 0%nat by lia. cbn. rewrite drop_0, app_nil_r. rewrite take_ge by (rewrite length_reverse; lia). by rewrite reverse_involutive.
Qed.
Lemma lastn_sorted n l : StronglySorted bucket_le l → StronglySorted bucket_le (lastn n l).
Proof.
  unfold lastn. generalize (length l - n)%nat. intros k. revert l. induction k as [|k IH]; intros [|x l] Hl; try done.
  apply StronglySorted_inv in Hl as [Hl _]. by apply IH.
Qed.
Lemma newest_rows n l : NoDup l.*1 → by_time (take n (merge_sort bucket_ge l)) = lastn n (by_time l).
Proof.
  intros Hnd. rewrite newest_first, lastn_reverse by done. apply (StronglySorted_unique_strong bucket_le).
  - intros x y Hx Hy H1 H2. rewrite merge_sort_Permutation, reverse_Permutation in Hx.
    assert (∀ z, z ∈ lastn n (by_time l) → z ∈ l) as Hin.
    { intros z Hz. rewrite <- (merge_sort_Permutation bucket_le l). unfold lastn in Hz. by eapply subseteq_drop. }
    apply (bucket_inj l); auto. unfold bucket_le in *. lia.
  - apply StronglySorted_merge_sort; apply _.
  - apply lastn_sorted, StronglySorted_merge_sort; apply _.
  - by rewrite merge_sort_Permutation, reverse_Permutation.
Qed.
Lemma rows_keys symbol source t : NoDup (ohlc_rows symbol source t).*1.
Proof.
  unfold ohlc_rows. pose proof (NoDup_fst_map_to_list t) as Hnd. revert Hnd. generalize (map_to_list t) as l.
  induction l as [|[[[s b] src] r] l IH]; [intros; apply NoDup_nil_2|]. rewrite fmap_cons, NoDup_cons. intros [Hn Hl]. cbn [omap list_omap].
  case_bool_decide as Hs; cbn [andb]; [|by apply IH]. case_bool_decide as Hr; [|by apply IH]. subst. rewrite fmap_cons. constructor; [|by apply IH].
  intros ([b' r'] & Hb & Hin)%list_elem_of_fmap. cbn in Hb. subst b'. apply Hn. cbn.
  apply list_elem_of_omap in Hin as ([[[s2 b2] src2] r2] & Hin & Hsome). repeat case_bool_decide; cbn in Hsome; try discriminate. simplify_eq.
  apply list_elem_of_fmap. by exists (symbol, b, source, r').
Qed.

(** ** The buffers an engine starts with *)
(** The stored candles of a key, oldest first. *)
Definition stored (t : ohlc_tables) (table source : string) (key : buffer_key) : list OhlcCandle :=
  candle_of_row key.1 key.2 source <$> by_time (ohlc_rows key.1 source (t table)).
Lemma lastn_fmap {A C} (g : A → C) n l : g <$> lastn n l = lastn n (g <$> l).
Proof. unfold lastn. by rewrite fmap_drop, length_fmap. Qed.
Lemma warmup_window t key n source :
  fetch_warmup_window t key.1 key.2 n source =
  match INTERVAL_TO_TABLE key.2 with
  | None => Err (ValueError ("unknown interval " +:+ key.2))
  | Some table => Ok (lastn n (stored t table source key))
  end.
Proof. unfold fetch_warmup_window, stored. destruct (INTERVAL_TO_TABLE _); [|done]. by rewrite newest_rows, lastn_fmap by apply rows_keys. Qed.

Lemma push_rows key rows r h cap : capacity_map r !! key = Some cap → buffers r !! key = Some (lastn cap h) →
  let r' := fold_left (fun r c => push key c r) rows r in
  capacity_map r' = capacity_map r ∧ counts r' = counts r ∧ buffers r' !! key = Some (lastn cap (h ++ rows)) ∧
  ∀ k, k ≠ key → buffers r' !! k = buffers r !! k.
Proof.
  revert r h. induction rows as [|c rows IH]; intros r h Hc Hb; cbn [fold_left]; [by rewrite app_nil_r|].
  assert (push key c r = mkRegistry (capacity_map r) (<[key := lastn cap (h ++ [c])]> (buffers r)) (counts r)) as ->.
  { unfold push. rewrite Hb, Hc. cbn. by rewrite dq_append_lastn. }
  destruct (IH (mkRegistry (capacity_map r) (<[key := lastn cap (h ++ [c])]> (buffers r)) (counts r)) (h ++ [c])) as (H1 & H2 & H3 & H4);
    [done|cbn; apply lookup_insert_eq|].
  cbn in *. rewrite <- app_assoc in H3. split_and!; [done..|]. intros k Hk. rewrite H4 by done. cbn. by rewrite lookup_insert_ne.
Qed.
(** What the warm-up leaves under each key. *)
Definition primed (fetch : buffer_key → nat → res (list OhlcCandle)) (key : buffer_key) (fs : list (string * builtin)) : list OhlcCandle :=
  match fetch key (max_warmup fs) with Ok rows => lastn (max_warmup fs) rows | Err _ => [] end.
Lemma lastn_nil {A} n : lastn n ([] : list A) = [].
Proof. unfold lastn. by rewrite drop_nil. Qed.
Lemma warmup_load_primes fetch m : ∀ r, NoDup m.*1 →
  (∀ key fs, (key, fs) ∈ m → capacity_map r !! key = Some (max_warmup fs) ∧ buffers r !! key = Some []) →
  let r' := warmup_load fetch m r in
  capacity_map r' = capacity_map r ∧ (∀ k, k ∉ m.*1 → buffers r' !! k = buffers r !! k) ∧
  ∀ key fs, (key, fs) ∈ m → buffers r' !! key = Some (primed fetch key fs).
Proof.
  induction m as [|[key fs] m IH]; intros r Hnd Hr; cbn [warmup_load].
  { split_and!; [done|done|]. by intros ? ? ?%elem_of_nil. }
  rewrite fmap_cons in Hnd. apply NoDup_cons in Hnd as [Hn Hnd]. destruct (Hr key fs) as [Hc Hb]; [left|].
  assert (∀ k fs', (k, fs') ∈ m → k ≠ key) as Hne by (intros k fs' Hin ->; apply Hn, list_elem_of_fmap; by exists (key, fs')).
  set (rows := match fetch key (max_warmup fs) with Ok rows => rows | Err _ => [] end).
  assert (warmup_load fetch m (fold_left (fun r c => push key c r) rows r) =
    match fetch key (max_warmup fs) with Ok rows => warmup_load fetch m (fold_left (fun r c => push key c r) rows r) | Err _ => warmup_load fetch m r end) as <-.
  { unfold rows. by destruct (fetch key (max_warmup fs)). }
  destruct (push_rows key rows r [] (max_warmup fs)) as (H1 & _ & H3 & H4); [done|by rewrite lastn_nil|].
  set (r1 := fold_left _ rows r) in *. destruct (IH r1) as (J1 & J2 & J3); [done| |].
  { intros k fs' Hin. rewrite H1, H4 by (by eapply Hne). apply Hr. by right. }
  split_and!; [by rewrite J1|..].
  - intros k Hk. rewrite fmap_cons, not_elem_of_cons in Hk. cbn in Hk. destruct Hk. rewrite J2, H4 by done. done.
  - intros k fs' [Heq|Hin]%elem_of_cons; [|by apply J3]. injection Heq as -> ->. rewrite J2, H3 by done. cbn.
    f_equal. unfold primed, rows. by destruct (fetch key (max_warmup fs)); [|apply (lastn_nil (A := OhlcCandle) (max_warmup fs))].
Qed.

Section start.
Context {B H F : Type} (to_float : dec → F) (bus : bus_ops B (@FeatureUpdate F) H).
#[local] Abbreviation world := (@fworld B F).

(** The handles: one for each key, on an empty buffer. *)
Lemma acquire_keys_all keys : ∀ w : world, NoDup keys →
  (∀ k, k ∈ keys → is_Some (capacity_map (fw_registry w) !! k) ∧ counts (fw_registry w) !! k = None) →
  ∃ w', acquire_keys keys w = (Ok tt, w') ∧ capacity_map (fw_registry w') = capacity_map (fw_registry w) ∧
    fw_features w' = fw_features w ∧
    (∀ k, k ∈ keys → buffers (fw_registry w') !! k = Some [] ∧ fw_handles w' !! k = Some (mkHandle k false)) ∧
    (∀ k, k ∉ keys → buffers (fw_registry w') !! k = buffers (fw_registry w) !! k ∧ fw_handles w' !! k = fw_handles w !! k).
Proof.
  induction keys as [|key keys IH]; intros w Hnd Hk.
  { exists w. split_and!; try done. by intros ? ?%elem_of_nil. }
  apply NoDup_cons in Hnd as [Hn Hnd]. destruct (Hk key) as [[cap Hc] Hz]; [left|].
  cbn [acquire_keys]. unfold mbind, st_bind, get_st, acquire. rewrite Hc, Hz. cbn [default Z.eqb modify].
  edestruct IH as (w' & Hw & H1 & H2 & H3 & H4); [exact Hnd| |].
  2: { exists w'. split; [exact Hw|]. cbn in *. split_and!; [done|done|..].
       - intros k [->|Hin]%elem_of_cons; [|by apply H3]. destruct (H4 key Hn) as [-> ->]. by rewrite !lookup_insert_eq.
       - intros k [Hne Hk']%not_elem_of_cons. destruct (H4 k Hk') as [-> ->]. by rewrite !lookup_insert_ne. }
  cbn. intros k Hin. assert (k ≠ key) by congruence. rewrite lookup_insert_ne by done. apply Hk. by right.
Qed.

(** What neither pushes nor releases. *)
Definition same_buffers (w w' : world) : Prop := fw_registry w' = fw_registry w ∧ fw_handles w' = fw_handles w.
Lemma on_fbus_same {A} (m : ST B A) w0 : preserves (same_buffers w0) (on_fbus (F := F) m).
Proof. intros w r w' Hw E. unfold on_fbus in E. destruct (m (fw_bus w)). by injection E as <- <-. Qed.
Lemma insert_feature_same pk v w0 : preserves (same_buffers w0) (insert_feature (B := B) (F := F) pk v).
Proof. intros w r w' Hw E. unfold insert_feature in E. destruct (fw_faults w) as [|[]]; by injection E as <- <-. Qed.
Lemma attempt_same {A} h (m : ST world A) w0 : preserves (same_buffers w0) m → preserves (same_buffers w0) (attempt h m).
Proof. intros Hm w r w' Hw (x & Hx & _)%attempt_inv. by eapply Hm. Qed.
#[local] Hint Resolve on_fbus_same insert_feature_same : scalper.
#[local] Ltac same := repeat first [solve [auto with scalper] | apply attempt_same | apply preserves_bind; [|intros ?] | case_match].

Lemma run_features_same dump isoformat now h c fs w0 : preserves (same_buffers w0) (run_features to_float bus dump isoformat now h c fs).
Proof.
  induction fs as [|nf fs IH]; cbn [run_features]; [same|]. apply preserves_bind; [|done].
  unfold run_feature, persist_kv_publish. same.
Qed.
Lemma task_turn_same isoformat t source days now r w0 : preserves (same_buffers w0) (task_turn to_float bus isoformat t source days now r).
Proof.
  assert (∀ name sym i f rows buf, preserves (same_buffers w0) (next_write (B := B) to_float name sym i f buf rows)) as Hn.
  { intros name sym i f rows. induction rows as [|c rows IH]; intros buf; cbn [next_write]; [same|]. destruct (_ <? _)%nat; [done|same]. }
  unfold task_turn. destruct (bt_key (rt_task r)). destruct (rt_stage r); same.
Qed.

(** The engine serves [m] with the candles [hist] seen so far. *)
Definition serving (m : feature_map) (hist : buffer_key → list OhlcCandle) (w : world) : Prop :=
  ∀ key entries, (key, entries) ∈ m →
    fw_handles w !! key = Some (mkHandle key false) ∧ capacity_map (fw_registry w) !! key = Some (max_warmup entries) ∧
    buffers (fw_registry w) !! key = Some (lastn (max_warmup entries) (hist key)).
Lemma serving_same m hist w w' : same_buffers w w' → serving m hist w → serving m hist w'.
Proof. intros [Hr Hh] Hs key entries Hin. rewrite Hr, Hh. by apply Hs. Qed.
Lemma serving_ext m h1 h2 w : (∀ k, h1 k = h2 k) → serving m h1 w → serving m h2 w.
Proof. intros He Hs key entries Hin. rewrite <- He. by apply Hs. Qed.

(** The candles of a key that arrive in the turns of the other coroutines. *)
Definition arrived (key : buffer_key) (l : list turn) : list OhlcCandle :=
  omap (fun x => match x with
                 | t_envelope _ (Some (c, true)) => if bool_decide ((oc_symbol c, "1m"%string) = key) then Some c else None
                 | _ => None
                 end) l.

Section beside.
Context (dump : @FeatureUpdate F → string) (isoformat : Z → string) (source : string) (days : Z) (m : feature_map).
Hypothesis Hne : Forall (fun kv => kv.2 ≠ []) m.

Lemma features_for_spec key : match features_for m key with [] => key ∉ m.*1 | fs => (key, fs) ∈ m end.
Proof.
  unfold features_for. destruct (list_find (fun kv => kv.1 = key) m) as [[i [k fs]]|] eqn:Hf.
  - apply list_find_Some in Hf as (Hi & Hk & _). cbn in Hk. subst k. apply list_elem_of_lookup_2 in Hi.
    rewrite Forall_forall in Hne. specialize (Hne _ Hi). by destruct fs.
  - apply list_find_None in Hf. intros ([k fs] & -> & Hin)%list_elem_of_fmap. rewrite Forall_forall in Hf. by apply (Hf _ Hin).
Qed.

Lemma push_serving key entries c hist w :
  (key, entries) ∈ m → serving m hist w →
  serving m (fun k => hist k ++ if bool_decide (key = k) then [c] else []) (set_registry (push key c (fw_registry w)) w).
Proof.
  intros Hin Hs k es Hk. destruct (Hs _ _ Hin) as (_ & Hc & Hb). destruct (Hs _ _ Hk) as (Hh' & Hc' & Hb').
  destruct (push_rows key [c] (fw_registry w) (hist key) _ Hc Hb) as (H1 & _ & H3 & H4). cbn in H1, H3, H4. cbn.
  rewrite H1. split; [done|]. split; [done|]. case_bool_decide as Hkey.
  - subst k. rewrite H3. by rewrite Hc in Hc'; injection Hc' as ->.
  - rewrite H4 by congruence. by rewrite app_nil_r.
Qed.

Lemma envelope_serving now payload hist w :
  serving m hist w →
  serving m (fun k => hist k ++ arrived k [t_envelope now payload]) (on_envelope to_float bus dump isoformat now m payload w).2.
Proof.
  intros Hs. unfold on_envelope, arrived. destruct payload as [[c []]|]; cbn [negb omap list_omap];
    [|by eapply serving_ext; [|exact Hs]; intros k; rewrite app_nil_r..].
  unfold dispatch_candle. set (key := (oc_symbol c, "1m"%string)). unfold mbind, st_bind, get_st. pose proof (features_for_spec key) as Hf.
  destruct (features_for m key) as [|nf fs] eqn:Hfs.
  - intros k es Hk. assert (k ≠ key) as Hkey by (intros ->; apply Hf, list_elem_of_fmap; by exists (key, es)).
    rewrite bool_decide_false by congruence. rewrite app_nil_r. by apply Hs.
  - destruct (Hs _ _ Hf) as (Hh & _ & _). rewrite Hh. cbn [modify].
    pose proof (push_serving key (nf :: fs) c hist w Hf Hs) as Hp.
    set (w1 := set_registry (push key c (fw_registry w)) w) in *.
    destruct (run_features to_float bus dump isoformat now (mkHandle key false) c (nf :: fs) w1) as [r w2] eqn:E. cbn [snd].
    apply (run_features_same _ _ _ _ _ _ w1) in E; [|done]. eapply serving_same; [exact E|]. eapply serving_ext; [|exact Hp].
    intros k. cbn. by case_bool_decide.
Qed.

Lemma turns_serving l : ∀ ts hist w r w',
  serving m hist w → take_turns to_float bus isoformat dump source days m l ts w = (r, w') →
  serving m (fun k => hist k ++ arrived k l) w'.
Proof.
  induction l as [|x l IH]; intros ts hist w r w' Hs E; cbn [take_turns] in E.
  { injection E as <- <-. eapply serving_ext; [|exact Hs]. intros k. by rewrite app_nil_r. }
  assert (∀ ts1 w1, take_turn to_float bus isoformat dump source days m x ts w = (ts1, w1) → serving m (fun k => hist k ++ arrived k [x]) w1) as Hx.
  { intros ts1 w1. unfold take_turn. destruct x as [now payload|i t now]; [intros [= <- <-]; by apply envelope_serving|].
    intros Ht. assert (same_buffers w w1) as Hsame.
    { destruct (ts !! i) as [rt|]; [|by injection Ht as <- <-]. destruct (task_turn _ _ _ _ _ _ _ _ w) as [[r1|e] w2] eqn:E2;
        injection Ht as <- <-; by eapply task_turn_same; [|exact E2]. }
    eapply serving_same; [exact Hsame|]. eapply serving_ext; [|exact Hs]. intros k. by rewrite app_nil_r. }
  assert (∀ k, arrived k [x] ++ arrived k l = arrived k (x :: l)) as Happ by (intros k; unfold arrived; by rewrite <- omap_app).
  apply st_bind_cases in E as [(ts1 & w1 & E1 & E)|(e & E1 & ->)].
  - apply Hx in E1. apply (IH _ _ _ _ _ E1) in E. eapply serving_ext; [|exact E]. intros k. cbv beta. by rewrite <- app_assoc, Happ.
  - unfold take_turn in E1. repeat case_match; discriminate.
Qed.

(** The turns at the awaits of a scheduling of [n] features. *)
Definition meanwhile (n : nat) (awaits : list (list turn)) : list turn := concat (take (2 * n) awaits).
Lemma meanwhile_succ n awaits :
  meanwhile (S n) awaits = default [] (awaits !! 0%nat) ++ default [] (awaits !! 1%nat) ++ meanwhile n (drop 2 awaits).
Proof.
  unfold meanwhile. replace (2 * S n)%nat with (S (S (2 * n))) by lia. destruct awaits as [|a [|b l]]; cbn [take drop concat lookup list_lookup default];
    [by rewrite take_nil|by rewrite take_nil|done].
Qed.
Lemma arrived_app k l l' : arrived k (l ++ l') = arrived k l ++ arrived k l'.
Proof. apply omap_app. Qed.

Lemma entries_serving entries : ∀ awaits ts hist w ts' w',
  serving m hist w → schedule_entries to_float bus isoformat dump source days m entries awaits ts w = (Ok ts', w') →
  serving m (fun k => hist k ++ arrived k (meanwhile (length entries) awaits)) w'.
Proof.
  induction entries as [|[key [name f]] entries IH]; intros awaits ts hist w ts' w' Hs E; cbn [schedule_entries] in E.
  { injection E as <- <-. eapply serving_ext; [|exact Hs]. intros k. cbn. by rewrite app_nil_r. }
  apply st_bind_ok_inv in E as (ts1 & w1 & E1 & E). apply (turns_serving _ _ _ _ _ _ Hs) in E1.
  apply st_bind_ok_inv in E as (seen & w2 & E2 & E). apply (on_fbus_same _ w1) in E2; [|done]. apply (serving_same _ _ _ _ E2) in E1.
  apply st_bind_ok_inv in E as (ts2 & w3 & E3 & E). apply (turns_serving _ _ _ _ _ _ E1) in E3.
  apply (IH _ _ _ _ _ _ E3) in E. eapply serving_ext; [|exact E]. intros k. cbv beta. cbn [length].
  by rewrite meanwhile_succ, !arrived_app, !app_assoc.
Qed.
End beside.

Lemma capacity_lookup m key fs : NoDup m.*1 → (key, fs) ∈ m → capacity_of m !! key = Some (max_warmup fs).
Proof.
  intros Hnd Hin. unfold capacity_of. apply elem_of_list_to_map_1.
  - rewrite <- list_fmap_compose. exact Hnd.
  - apply list_elem_of_fmap. by exists (key, fs).
Qed.
Lemma max_warmup_ge name f fs : (name, f) ∈ fs → (warmup_candles f <= max_warmup fs)%nat.
Proof.
  induction fs as [|[name' f'] fs IH]; intros Hin; [by apply elem_of_nil in Hin|]. cbn.
  apply elem_of_cons in Hin as [[= <- <-]|Hin]; [lia|]. specialize (IH Hin). unfold max_warmup in IH. lia.
Qed.

Lemma tail_of key n cap r h : buffers r !! key = Some (lastn cap h) → (n <= cap)%nat → handle_tail (mkHandle key false) n r = Ok (lastn n h).
Proof.
  intros Hb Hn. unfold handle_tail, registry_tail. cbn. rewrite Hb. fold (lastn n (lastn cap h)). rewrite lastn_lastn. do 2 f_equal. lia.
Qed.
(** The history an engine starts from. *)
Definition known (t : ohlc_tables) (source : string) (ff : start_failures) (key : buffer_key) : list OhlcCandle :=
  if ff_fetch ff key then [] else match INTERVAL_TO_TABLE key.2 with None => [] | Some table => stored t table source key end.
Lemma primed_known t source ff key fs : primed (fetch_warmup t source ff) key fs = lastn (max_warmup fs) (known t source ff key).
Proof.
  unfold primed, fetch_warmup, known. destruct (ff_fetch ff key); [by rewrite lastn_nil|]. rewrite warmup_window.
  destruct (INTERVAL_TO_TABLE key.2); [by rewrite lastn_lastn, Nat.min_id|by rewrite lastn_nil].
Qed.

(** C12: an engine that starts has loaded its indicators (keys distinct, every
    feature within its constructor's checks, under the name its template gives)
    and holds a handle for each of them.  Its buffers hold the newest candles
    of the table, oldest first, followed by the live candles that arrived since
    the engine subscribed, while the backfills were being scheduled and were
    already running: nothing arrives before the stored history or within it,
    and a feature reads as many candles of that sequence as it needs, the next
    candle included.  A key whose rows cannot be read has the live candles
    alone. *)
Theorem engine_starts_warm dump isoformat safe_load text symbols t source days on_message ff awaits (w w' : world) m tasks :
  lifespan to_float bus isoformat dump safe_load text symbols t source days on_message ff awaits w = (Ok (m, tasks), w') →
  map_ok m ∧
  ∀ key entries name f, (key, entries) ∈ m → (name, f) ∈ entries →
    let seen := known t source ff key ++ arrived key (meanwhile (length (flat_entries m)) awaits) in
    ∃ h, fw_handles w' !! key = Some h ∧
    handle_tail h (warmup_candles f) (fw_registry w') = Ok (lastn (warmup_candles f) seen) ∧
    ∀ c, handle_tail h (warmup_candles f) (push key c (fw_registry w')) = Ok (lastn (warmup_candles f) (seen ++ [c])).
Proof.
  intros E. unfold lifespan in E. st_inv. rename a into m. subst s6. pose proof (load_ok _ _ _ _ E1) as [Hnd Hent].
  unfold fails in E2, E3. destruct (ff_pool ff); [discriminate|]. destruct (ff_bus ff); [discriminate|]. injection E2 as <- <-. injection E3 as <- <-.
  set (w0 := set_registry _ w) in E4.
  destruct (acquire_keys_all (map fst m) w0) as (s3' & Ha & Hcap & _ & Hin & _); [done| |].
  { intros k (fs & Hk)%list_elem_of_fmap. cbn. destruct Hk as [-> Hk]. destruct fs as [k fs]. split; [|done]. eexists. by eapply capacity_lookup. }
  assert (s3' = s3) as -> by (unfold acquire_handles in E4; congruence).
  destruct (warmup_load_primes (fetch_warmup t source ff) m (fw_registry s3)) as (Hc & _ & Hp); [done| |].
  { intros key fs Hk. rewrite Hcap. split; [by apply capacity_lookup|]. apply Hin, list_elem_of_fmap. by exists (key, fs). }
  set (s4 := set_registry _ s3) in E6.
  assert (serving m (known t source ff) s4) as Hs4.
  { intros key entries Hk. split; [apply Hin, list_elem_of_fmap; by exists (key, entries)|]. cbn. rewrite Hc, Hcap.
    split; [by apply capacity_lookup|]. rewrite <- primed_known. by apply Hp. }
  assert (serving m (known t source ff) s5) as Hs5.
  { eapply serving_same; [|exact Hs4].
    assert (preserves (same_buffers s4) (match m with [] => mret tt | _ => on_fbus (bus_subscribe bus "market.ohlc.1m.>" on_message) end)) as Hpr
      by (destruct m; [preserve|apply on_fbus_same]). by eapply Hpr; [|exact E6]. }
  assert (Forall (fun kv : buffer_key * list (string * builtin) => kv.2 ≠ []) m) as Hne by (eapply Forall_impl; [exact Hent|]; by intros ? []).
  apply (entries_serving dump isoformat source days m Hne _ _ _ _ _ _ _ Hs5) in E7.
  split; [done|]. intros key entries name f Hk Hnf seen. destruct (E7 _ _ Hk) as (Hh & Hcw & Hbw). exists (mkHandle key false).
  pose proof (max_warmup_ge _ _ _ Hnf) as Hle. split_and!; [done|by eapply tail_of|].
  intros c. destruct (push_rows key [c] (fw_registry w') seen _ Hcw Hbw) as (_ & _ & Hb' & _). by eapply tail_of.
Qed.
End start.

(** ** A task in turns *)
Section turns.
Context {B H F : Type} (to_float : dec → F) (bus : bus_ops B (@FeatureUpdate F) H) (isoformat : Z → string).
Context (t : ohlc_tables) (source : string) (days now : Z).
#[local] Abbreviation world := (@fworld B F).

Fixpoint undisturbed (n : nat) (r : running) : ST world running :=
  match n with O => mret r | S k => r' ← task_turn to_float bus isoformat t source days now r; undisturbed k r' end.

(** The writes up to the next one, and then the rest. *)
Lemma backfill_rows_next name sym i f rows : ∀ buf (w : world),
  backfill_rows to_float name sym i f buf rows w =
  match next_write to_float name sym i f buf rows w with
  | (Ok (Some (buf', rest)), w1) => backfill_rows to_float name sym i f buf' rest w1
  | (Ok None, w1) => (Ok tt, w1)
  | (Err e, w1) => (Err e, w1)
  end ∧ ∀ buf' rest w1, next_write to_float name sym i f buf rows w = (Ok (Some (buf', rest)), w1) → (length rest < length rows)%nat.
Proof.
  induction rows as [|c rows IH]; intros buf w; cbn [backfill_rows next_write]; [done|].
  destruct (_ <? _)%nat. { destruct (IH (dq_append (warmup_candles f) buf c) w) as [H1 H2]. split; [done|]. intros ? ? ? E. apply H2 in E. cbn. lia. }
  unfold mbind, st_bind, lift_res. destruct (compute f _) as [v|e]; [|done]. destruct (INTERVAL_DELTA i) as [d|]; [|done].
  destruct (insert_feature _ _ w) as [[u|e] w1]; [|done]. split; [done|]. intros ? ? ? [= <- <- <-]. cbn. lia.
Qed.

Lemma rows_in_turns task sym i mark : bt_key task = (sym, i) → ∀ n rows buf (w w' : world) u, (length rows < n)%nat →
  (attempt is_exception (backfill_rows to_float (bt_name task) sym i (bt_feature task) buf rows ;;
     on_fbus (bus_kv_put bus KV_BUCKET (bt_name task) mark)) ;; mret tt) w = (Ok u, w') →
  ∃ k, undisturbed k (mkRunning task (ts_rows buf rows mark)) w = (Ok (mkRunning task ts_ended), w').
Proof.
  intros Hkey n. induction n as [|n IH]; intros rows buf w w' u Hn E; [lia|].
  apply st_bind_ok_inv in E as (x & w1 & Ha & [= _ <-]). pose proof Ha as Ha'. unfold attempt, mbind, st_bind in Ha'.
  destruct (backfill_rows_next (bt_name task) sym i (bt_feature task) rows buf w) as [Hb Hlt]. rewrite Hb in Ha'.
  destruct (next_write to_float (bt_name task) sym i (bt_feature task) buf rows w) as [[[[buf' rest]|]|e] w2] eqn:Ew.
  - destruct (IH rest buf' w2 w1 tt) as [k Hk]; [specialize (Hlt _ _ _ eq_refl); lia| |].
    { unfold attempt, mbind, st_bind. destruct (backfill_rows _ _ _ _ _ buf' rest w2) as [[v|e] w3].
      - destruct (on_fbus _ w3) as [[z|e] w4]; [by injection Ha' as <- <-|]. destruct (is_exception e); [by injection Ha' as <- <-|discriminate].
      - destruct (is_exception e); [by injection Ha' as <- <-|discriminate]. }
    exists (S k). cbn [undisturbed]. erewrite st_bind_run; [exact Hk|].
    unfold task_turn. cbn. rewrite Hkey. unfold attempt, mbind, st_bind. by rewrite Ew.
  - exists 1%nat. cbn [undisturbed]. erewrite st_bind_run; [reflexivity|].
    unfold task_turn. cbn. rewrite Hkey. unfold attempt, mbind, st_bind. rewrite Ew.
    destruct (on_fbus _ w2) as [[z|e] w4]; [by injection Ha' as <- <-|]. destruct (is_exception e); [by injection Ha' as <- <-|discriminate].
  - exists 1%nat. cbn [undisturbed]. erewrite st_bind_run; [reflexivity|].
    unfold task_turn. cbn. rewrite Hkey. unfold attempt, mbind, st_bind. rewrite Ew.
    destruct (is_exception e); [by injection Ha' as <- <-|discriminate].
Qed.

(** A task nothing comes between does what [run_task] does. *)
Lemma task_runs_in_turns task (w w' : world) u :
  run_task to_float bus isoformat t source days now task w = (Ok u, w') →
  ∃ n, undisturbed n (mkRunning task ts_created) w = (Ok (mkRunning task ts_ended), w').
Proof.
  unfold run_task. destruct (bt_key task) as [sym i] eqn:Hkey. destruct (fetch_ohlc_range t sym i source _ now) as [rows|e] eqn:Hf; intros E.
  - apply (rows_in_turns task sym i (isoformat now) Hkey (S (length rows))) in E as [k Hk]; [|lia].
    exists (S k). cbn [undisturbed]. erewrite st_bind_run; [exact Hk|]. unfold task_turn. cbn. by rewrite Hkey, Hf.
  - injection E as _ <-. exists 1%nat. cbn [undisturbed]. erewrite st_bind_run; [reflexivity|]. unfold task_turn. cbn. by rewrite Hkey, Hf.
Qed.
End turns.

(** ** Interrupted backfills *)
Section resume.
Context {B H F : Type} (to_float : dec → F).
#[local] Abbreviation world := (@fworld B F).
#[local] Abbreviation table := (gmap (string * string * Z * string) (@wire_value F)).
#[local] Abbreviation row := (string * string * Z * string * @wire_value F)%type.

Definition set_features (m : table) (fs : list bool) (w : world) : world := mkFworld (fw_registry w) (fw_handles w) m fs (fw_bus w).
Definition upserts (m : table) (l : list row) : table := foldl (fun m kv => <[kv.1 := kv.2]> m) m l.
Lemma upserts_union m l : upserts m l = upserts ∅ l ∪ m.
Proof.
  induction l as [|[k v] l IH] using rev_ind; [unfold upserts; cbn; by rewrite (left_id_L ∅ (∪))|].
  unfold upserts in *. rewrite !foldl_app. cbn. by rewrite IH, insert_union_l.
Qed.
Lemma upserts_app m l l' : upserts m (l ++ l') = upserts (upserts m l) l'.
Proof. apply foldl_app. Qed.
(** A part of the writes, then all of them. *)
Lemma upserts_resume m l k : upserts (upserts m (take k l)) l = upserts m l.
Proof.
  rewrite (upserts_union _ l), (upserts_union m (take k l)), (upserts_union m l).
  assert (upserts ∅ l = upserts ∅ (drop k l) ∪ upserts ∅ (take k l)) as HL
    by (rewrite <- (take_drop k l) at 1; by rewrite upserts_app, upserts_union).
  apply map_eq. intros p. rewrite !lookup_union. destruct (upserts ∅ l !! p) as [v|] eqn:E; [by destruct (upserts ∅ (take k l) !! p), (m !! p)|].
  revert E. rewrite HL, lookup_union. by destruct (upserts ∅ (drop k l) !! p), (upserts ∅ (take k l) !! p), (m !! p).
Qed.

(** The rows a backfill writes, and how it ends. *)
Fixpoint backfill_writes (name symbol interval : string) (f : builtin) (buf rows : list OhlcCandle) : list row * res unit :=
  match rows with
  | [] => ([], Ok tt)
  | c :: rest =>
      let buf' := dq_append (warmup_candles f) buf c in
      if (length buf' <? warmup_candles f)%nat then backfill_writes name symbol interval f buf' rest else
      match compute f buf', INTERVAL_DELTA interval with
      | Err e, _ => ([], Err e)
      | Ok _, None => ([], Err (KeyError interval))
      | Ok v, Some d =>
          let '(l, r) := backfill_writes name symbol interval f buf' rest in
          ((name, symbol, oc_bucket_start c + d, source_version f, to_wire to_float v) :: l, r)
      end
  end.
Lemma backfill_clean name symbol interval f rows : ∀ buf (w : world), fw_faults w = [] →
  backfill_rows to_float name symbol interval f buf rows w =
  ((backfill_writes name symbol interval f buf rows).2, set_features (upserts (fw_features w) (backfill_writes name symbol interval f buf rows).1) [] w).
Proof.
  assert (∀ w : world, fw_faults w = [] → set_features (fw_features w) [] w = w) as Hid by (intros [] ?; cbn in *; by subst).
  induction rows as [|c rows IH]; intros buf w Hw; cbn [backfill_rows backfill_writes]; [cbn; by rewrite Hid|].
  destruct (_ <? _)%nat; [by apply IH|]. unfold mbind, st_bind, lift_res. destruct (compute f _) as [v|e]; [|cbn; by rewrite Hid].
  destruct (INTERVAL_DELTA interval) as [d|]; [|cbn; by rewrite Hid]. unfold insert_feature. rewrite Hw. cbn [tail]. rewrite IH by done. cbn.
  by destruct (backfill_writes _ _ _ _ _ rows).
Qed.
Lemma backfill_dirty name symbol interval f rows : ∀ buf (w : world) r w', backfill_rows to_float name symbol interval f buf rows w = (r, w') →
  ∃ k, w' = set_features (upserts (fw_features w) (take k (backfill_writes name symbol interval f buf rows).1)) (fw_faults w') w.
Proof.
  assert (∀ w : world, w = set_features (upserts (fw_features w) (take 0 [])) (fw_faults w) w) as Hid by (by intros []).
  induction rows as [|c rows IH]; intros buf w r w' E; cbn [backfill_rows backfill_writes] in *; [injection E as <- <-; by exists 0%nat|].
  destruct (_ <? _)%nat; [by eapply IH|]. unfold mbind, st_bind, lift_res in E. destruct (compute f _) as [v|e]; [|injection E as <- <-; by exists 0%nat].
  destruct (INTERVAL_DELTA interval) as [d|]; [|injection E as <- <-; by exists 0%nat]. unfold insert_feature in E.
  destruct (backfill_writes name symbol interval f (dq_append (warmup_candles f) buf c) rows) as [l r0] eqn:El.
  destruct (fw_faults w) as [|[] fs]; [|injection E as <- <-; by exists 0%nat|];
    apply IH in E as [k ->]; rewrite El; by exists (S k).
Qed.

Context (safe_load : string → res yaml) (fromisoformat : string → res datetime) (t : ohlc_tables) (args : backfill_args).
#[local] Abbreviation main := (backfill_main to_float safe_load fromisoformat t args).

(** C14: a backfill can be repeated.  Whatever an earlier run of the same command
    wrote before the database failed it, a run that meets no failure leaves the
    table of features exactly as one undisturbed run would, and running it again
    changes nothing. *)
Theorem backfill_resumes (w w1 wc : world) r1 :
  main w = (r1, w1) → main (set_features (fw_features w) [] w) = (Ok 0, wc) →
  ∃ w2, main (set_features (fw_features w1) [] w1) = (Ok 0, w2) ∧ fw_features w2 = fw_features wc ∧
        main w2 = (Ok 0, w2).
Proof.
  unfold backfill_main. destruct (_ ≫= _) as [[[[[symbol interval] rest] from_dt] to_dt]|e]; [|destruct e; by intros _ [=]].
  unfold lift_res, mret, st_ret, mbind, st_bind. destruct (load_indicators_yaml safe_load (ba_yaml args) [symbol]) as [m|e]; [|by intros _ [=]].
  destruct (find_feature (ba_feature args) m) as [f|]; [|by intros _ [=]].
  destruct (fetch_ohlc_range t symbol interval (ba_source args) from_dt to_dt) as [rows|e]; [|by intros _ [=]]. intros E1 Ec.
  rewrite backfill_clean in Ec by done. destruct (backfill_writes (ba_feature args) symbol interval f [] rows).2 as [[]|] eqn:Eok; [|discriminate]. injection Ec as <-.
  set (l := (backfill_writes (ba_feature args) symbol interval f [] rows).1).
  assert (∃ k, fw_features w1 = upserts (fw_features w) (take k l)) as [k Hk].
  { destruct (backfill_rows to_float (ba_feature args) symbol interval f [] rows w) as [[] w'] eqn:E; injection E1 as _ <-; apply backfill_dirty in E as [k ->]; by exists k. }
  rewrite backfill_clean by done. rewrite Eok. eexists. split; [done|]. cbn. rewrite Hk, upserts_resume. split; [done|].
  pose proof (upserts_resume (fw_features w) l (length l)) as Hr. rewrite take_ge in Hr by done.
  rewrite backfill_clean, Eok by done. cbn. fold l. by rewrite Hr.
Qed.
End resume.

(** ** A concrete engine: one average of two closes, three stored minutes *)
Definition demo_indicators : yaml := YDict [(YStr "features", YList [YDict [
  (YStr "name_template", YStr "ind.{symbol}.1m.ema_2"); (YStr "type", YStr "builtin.ema"); (YStr "interval", YStr "1m");
  (YStr "params", YDict [(YStr "period", YInt 2)]); (YStr "source_version", YStr "builtin.ema.v1")]])].
Definition demo_row (px : Z) : OhlcRow := mkOhlcRow (px @ 0) (px @ 0) (px @ 0) (px @ 0) (1 @ 0).
Definition demo_tables (name : string) : ohlc_table :=
  if (name =? "ohlc_1m")%string then
    {[("BTCUSDT"%string, 0, "binance"%string) := demo_row 100; ("BTCUSDT"%string, 60000000, "binance"%string) := demo_row 102;
      ("BTCUSDT"%string, 120000000, "binance"%string) := demo_row 104]}
  else ∅.
Abbreviation demo_bus := (Replay.replay_bus (@FeatureUpdate dec) unit).
Definition demo_ops : bus_ops demo_bus (@FeatureUpdate dec) unit := Replay.replay_ops.
Definition demo_engine (faults : list bool) : @fworld demo_bus dec := mkFworld (mkRegistry ∅ ∅ ∅) ∅ ∅ faults Replay.empty_bus.
Definition demo_load (text : string) : res yaml := Ok demo_indicators.
(** A minute arrives while the mark of the feature is being looked up. *)
Definition demo_candle : OhlcCandle := candle_of_row "BTCUSDT" "1m" "binance" (180000000, demo_row 106).
Definition demo_start : res (feature_map * list running) * @fworld demo_bus dec :=
  lifespan (fun d : dec => d) demo_ops (fun _ => "") (fun _ => "") demo_load (Some "") ["BTCUSDT"%string] demo_tables "binance" 30 tt
    (mkFailures None None (fun _ => false)) [[t_envelope 240000000 (Some (demo_candle, true))]] (demo_engine []).
Lemma engine_starts_warm_witness :
  ∃ m tasks h, demo_start.1 = Ok (m, tasks) ∧ length tasks = 1%nat ∧ fw_handles demo_start.2 !! ("BTCUSDT"%string, "1m"%string) = Some h ∧
    handle_tail h 2 (fw_registry demo_start.2) =
      Ok (candle_of_row "BTCUSDT" "1m" "binance" <$> [(120000000, demo_row 104); (180000000, demo_row 106)]).
Proof.
  assert (∃ m tasks, demo_start.1 = Ok (m, tasks) ∧ length tasks = 1%nat ∧ length (flat_entries m) = 1%nat ∧
    (("BTCUSDT"%string, "1m"%string), [("ind.btcusdt.1m.ema_2"%string, EmaFeature 2)]) ∈ m) as (m & tasks & Hs & Ht & Hl & Hm).
  { eexists _, _. split; [by vm_compute|]. split; [by vm_compute|]. split; [by vm_compute|left]. }
  destruct (engine_starts_warm (fun d : dec => d) demo_ops (fun _ => "") (fun _ => "") demo_load (Some "") ["BTCUSDT"%string] demo_tables "binance" 30 tt
    (mkFailures None None (fun _ => false)) [[t_envelope 240000000 (Some (demo_candle, true))]]
    (demo_engine []) demo_start.2 m tasks) as (_ & Hwarm); [by rewrite <- Hs; apply surjective_pairing|].
  destruct (Hwarm _ _ "ind.btcusdt.1m.ema_2"%string (EmaFeature 2) Hm ltac:(left)) as (h & Hh & Htail & _).
  exists m, tasks, h. split; [done|]. split; [done|]. split; [done|]. cbn [warmup_candles] in Htail. rewrite Hl in Htail. rewrite Htail. by vm_compute.
Defined.

Definition demo_date (text : string) : res datetime := Ok (mkDatetime (if (text =? "to")%string then 120000000 else 0) (Some 0)).
Definition demo_args : backfill_args := mkBackfill "ind.btcusdt.1m.ema_2" "from" "to" "binance" (Some "").
Definition demo_backfill (w : @fworld demo_bus dec) : res Z * @fworld demo_bus dec :=
  backfill_main (B := demo_bus) (fun d : dec => d) demo_load demo_date demo_tables demo_args w.
(** The second write meets a failed connection. *)
Definition demo_cut : @fworld demo_bus dec := (demo_backfill (demo_engine [false; true])).2.
Definition demo_whole : @fworld demo_bus dec := (demo_backfill (demo_engine [])).2.
Lemma backfill_resumes_witness :
  base.size (fw_features demo_cut) = 1%nat ∧ base.size (fw_features demo_whole) = 2%nat ∧
  ∃ w2, demo_backfill (set_features (fw_features demo_cut) [] demo_cut) = (Ok 0, w2) ∧ fw_features w2 = fw_features demo_whole.
Proof.
  split; [by vm_compute|]. split; [by vm_compute|].
  destruct (backfill_resumes (fun d : dec => d) demo_load demo_date demo_tables demo_args (demo_engine [false; true]) demo_cut demo_whole
    (demo_backfill (demo_engine [false; true])).1) as (w2 & Hrun & Hf & _).
  - apply surjective_pairing.
  - assert ((demo_backfill (demo_engine [])).1 = Ok 0) as <- by by vm_compute. apply surjective_pairing.
  - exists w2. by split.
Defined.

(** A multiplier given in the file stops the start, whatever it is. *)
Lemma bollinger_multiplier_refused d v : get "std_dev_multiplier" d = Some v → ∃ e, construct c_bollinger (YDict d) = Err e.
Proof.
  intros Hv. destruct (construct c_bollinger (YDict d)) as [f|e] eqn:E; [|eauto]. cbn [construct] in E. inv_ok. exfalso.
  match goal with H : multiplier_arg _ = Ok _ |- _ => revert H end. unfold call_args in *. repeat case_match; inv_ok; subst; try done.
  all: unfold multiplier_arg; rewrite Hv; repeat case_match; intros; inv_ok; done.
Qed.
