(* ===== verification/Cli.v ===== *)
(** * The command line of the backtest

    Models the rest of scripts/backtest.py: overrides of a configuration, the
    configuration a run stores and loads, the choice between the two modes with
    its checks, and the text of a comparison.

    Parameters: [safe_load] and [safe_dump] are the YAML library, [sha256] the
    hash, [fromisoformat] the date parser, [uuid_of] and [uuid_str] the UUID type,
    [format_4f] the text of a float with four decimals.  Digits are ASCII.  The value of a configuration is a
    tree: anchors of YAML, which would share nodes, are not represented. *)

From S2P Require Import Prelude Dec DecText Float64 PyNum Bus Scoring Consumer Loader Backtest.
From stdpp Require Import pretty.
From Stdlib Require Import Ascii.
Open Scope Z_scope.

(** ** _apply_overrides *)
(** [str.isdigit] and [int] of such a text. *)
Fixpoint all_digits (s : list ascii) : bool :=
  match s with [] => true | c :: s' => match digit_val c with Some _ => all_digits s' | None => false end end.
Definition isdigit (s : string) : bool :=
  match String.list_ascii_of_string s with [] => false | l => all_digits l end.
Definition index_of (s : string) : nat := Z.to_nat (read_digits 0 0 (String.list_ascii_of_string s)).1.1.
(** [kv.partition("=")], when there is a separator. *)
Fixpoint partition_eq (s : string) : option (string * string) :=
  match s with
  | EmptyString => None
  | String c s' => if Ascii.eqb c "="%char then Some (EmptyString, s')
                   else match partition_eq s' with Some (a, b) => Some (String c a, b) | None => None end
  end.
Definition no_path : exn := ValueError "--override path does not exist on YAML".
(** The child a segment names, and the node with that child replaced; a list is
    indexed by digits, a dict by its string keys. *)
Definition child (seg : string) (v : yaml) : res yaml :=
  match v with
  | YList l => if isdigit seg then match l !! index_of seg with Some x => Ok x | None => Err IndexError end else Err no_path
  | YDict d => match get seg d with Some x => Ok x | None => Err no_path end
  | _ => Err no_path
  end.
Definition assign (seg : string) (x v : yaml) : res yaml :=
  match v with
  | YList l =>
      if isdigit seg then
        match l !! index_of seg with Some _ => Ok (YList (<[index_of seg := x]> l)) | None => Err IndexError end
      else Err no_path
  | YDict d => Ok (YDict (dict_set (YStr seg) x d))
  | _ => Err no_path
  end.
(** The walk: every segment but the last must exist. *)
Fixpoint set_path (segments : list string) (x v : yaml) : res yaml :=
  match segments with
  | [] => Err no_path
  | [last] => assign last x v
  | seg :: rest => c ← child seg v; c' ← set_path rest x c; assign seg c' v
  end.
Section overrides.
Context (safe_load : string → res yaml).
Definition apply_override (v : yaml) (kv : string) : res yaml :=
  match partition_eq kv with
  | None => Err (ValueError "--override missing '=' separator")
  | Some (path, value_raw) => value ← safe_load value_raw; set_path (Replay.split path) value v
  end.
Fixpoint apply_overrides (v : yaml) (overrides : list string) : res yaml :=
  match overrides with [] => Ok v | kv :: rest => v' ← apply_override v kv; apply_overrides v' rest end.
(** The text a run stores, its hash and the configuration loaded from it. *)
Definition load_bot_config_with_overrides (load : string → res BotConfig) (safe_dump : yaml → string) (sha256 : string → string)
    (raw : string) (overrides : list string) : res (string * string * BotConfig) :=
  config_yaml ← match overrides with
                | [] => Ok raw
                | _ => v ← safe_load raw; v' ← apply_overrides v overrides; Ok (safe_dump v')
                end;
  bot_config ← load config_yaml;
  Ok (config_yaml, sha256 config_yaml, bot_config).
End overrides.

(** ** cli_main *)
Record cli_args := mkCli {
  cli_compare : option (string * string); cli_bot : option string; cli_from : option string; cli_to : option string; cli_config_path : option string;
}.
(** What the command does: end with a code (argument errors are 2), compare two
    runs, or run a backtest over a range. *)
Inductive cli_outcome := cli_exit (code : Z) | cli_compares (run_a run_b : string) | cli_runs (bot : string) (from_at to_at : Z) (config_path : string).
Definition given (o : option string) : option string := match o with Some s => if (s =? "")%string then None else Some s | None => None end.
Section cli.
Context (fromisoformat : string → res datetime).
(** [None] is the exit with code 2. *)
Definition parse_utc_datetime (raw : string) : option Z :=
  match fromisoformat raw with
  | Err _ => None
  | Ok d => match dt_utcoffset d with Some off => if off =? 0 then Some (dt_local d) else None | None => None end
  end.
Definition cli_main (args : cli_args) : cli_outcome :=
  match cli_compare args with
  | Some (a, b) =>
      if existsb (fun o : option string => match o with Some _ => true | None => false end) [cli_bot args; cli_from args; cli_to args; cli_config_path args]
      then cli_exit 2
      else if (a =? b)%string then cli_exit 2
      else cli_compares a b
  | None =>
      match given (cli_bot args), given (cli_from args), given (cli_to args), cli_config_path args with
      | Some bot, Some f, Some t, Some path =>
          match parse_utc_datetime f with
          | None => cli_exit 2
          | Some from_at =>
              match parse_utc_datetime t with
              | None => cli_exit 2
              | Some to_at => if to_at <=? from_at then cli_exit 2 else cli_runs bot from_at to_at path
              end
          end
      | _, _, _, _ => cli_exit 2
      end
  end.
End cli.

(** ** The text of a comparison *)
(** Characters of UTF-8: continuation bytes do not count. *)
Definition is_continuation (c : ascii) : bool := let n := nat_of_ascii c in (128 <=? n)%nat && (n <=? 191)%nat.
Definition width (s : string) : nat := length (List.filter (fun c => negb (is_continuation c)) (String.list_ascii_of_string s)).
Definition repeated (n : nat) (c : string) : string := String.concat "" (repeat c n).
Definition left_aligned (n : nat) (s : string) : string := s +:+ repeated (n - width s) " ".
Definition line (cells : list (nat * string)) : string := "  " +:+ String.concat "  " ((fun '(n, s) => left_aligned n s) <$> cells).
Definition newline : string := String "010"%char EmptyString.
Definition text (lines : list string) : string := String.concat newline lines +:+ newline.

Inductive metric := int_metric (z : Z) | dec_metric (d : dec) | float_metric (x : option b64).
(** The five rows; a run that failed has the defaults. *)
Definition metrics_of (s : run_summary) : list (string * metric) :=
  match s with
  | metrics m => [("total_trades"%string, int_metric (sm_total_trades m)); ("wr"%string, float_metric (sm_wr m)); ("pnl"%string, dec_metric (sm_pnl m));
                  ("pf"%string, float_metric (sm_pf m)); ("mdd"%string, dec_metric (sm_mdd m))]
  | error_text _ => [("total_trades"%string, int_metric 0); ("wr"%string, float_metric None); ("pnl"%string, dec_metric (mkDec 0 0));
                     ("pf"%string, float_metric None); ("mdd"%string, dec_metric (mkDec 0 0))]
  end.
Section texts.
Context (format_4f : b64 → string).
Definition format_metric_value (v : metric) : string :=
  match v with
  | int_metric z => pretty z
  | dec_metric d => dec_str d
  | float_metric (Some x) => format_4f (bround4 x)
  | float_metric None => "—"
  end.
Definition format_metric_delta (a b : metric) : string :=
  match a, b with
  | int_metric x, int_metric y => (if 0 <=? y - x then "+" else "") +:+ pretty (y - x)
  | dec_metric x, dec_metric y => let d := dsub y x in (if dleb dzero d then "+" else "") +:+ dec_str d
  | float_metric (Some x), float_metric (Some y) => let d := bsub y x in (if bleb bzero d then "+" else "") +:+ format_4f (bround4 d)
  | _, _ => "n/a"
  end.
Definition metric_row (ab : (string * metric) * (string * metric)) : string :=
  let '((name, a), (_, b)) := ab in
  line [(14%nat, name); (12%nat, format_metric_value a); (12%nat, format_metric_value b); (12%nat, format_metric_delta a b)].
Definition format_aggregate_diff (a b : run_summary) : string :=
  text ("Aggregate metrics:" ::
        line [(14%nat, "Metric"%string); (12%nat, "A"%string); (12%nat, "B"%string); (12%nat, "Δ (B-A)"%string)] ::
        line [(14%nat, repeated 14 "-"); (12%nat, repeated 12 "-"); (12%nat, repeated 12 "-"); (12%nat, repeated 12 "-")] ::
        (metric_row <$> zip (metrics_of a) (metrics_of b))).
Definition trade_row (r : DivergingTradeRow) : string :=
  let pnl (o : option dec) := match o with Some d => dec_str d | None => ""%string end in
  line [(10%nat, pretty (dv_signal_id r)); (15%nat, default "" (dv_a_close_reason r)); (15%nat, pnl (dv_a_realized_pnl r));
        (15%nat, default "" (dv_b_close_reason r)); (15%nat, pnl (dv_b_realized_pnl r))].
Definition format_per_trade_diff (rows : list DivergingTradeRow) (common_count : Z) : string :=
  if common_count =? 0 then "No common signals between run_A and run_B; per-trade diff not applicable." +:+ newline else
  match rows with
  | [] => "No diverging trades found." +:+ newline
  | _ =>
      text (("Per-trade differences (" +:+ pretty (Z.of_nat (length rows)) +:+ " of " +:+ pretty common_count +:+ " common signals diverged):") ::
            line [(10%nat, "signal_id"%string); (15%nat, "A.close_reason"%string); (15%nat, "A.realized_pnl"%string);
                  (15%nat, "B.close_reason"%string); (15%nat, "B.realized_pnl"%string)] ::
            line [(10%nat, repeated 10 "-"); (15%nat, repeated 15 "-"); (15%nat, repeated 15 "-"); (15%nat, repeated 15 "-"); (15%nat, repeated 15 "-")] ::
            (trade_row <$> rows))
  end.
(** [main_compare]: the identifiers are parsed first, then the address of the
    database is looked for; what it prints starts with the two identifiers. *)
Context (uuid_of : string → option Z) (uuid_str : Z → string).
Definition compare_report (run_a run_b : Z) (d : bt_db) : Z * string :=
  match main_compare run_a run_b d with
  | (code, None) => (code, ""%string)
  | (code, Some (a, b, diverging, common_count)) =>
      (code, "Backtest comparison: A=" +:+ String.substring 0 8 (uuid_str run_a) +:+ " vs B=" +:+ String.substring 0 8 (uuid_str run_b) +:+ newline +:+
             repeated 64 "=" +:+ newline +:+ newline +:+ format_aggregate_diff a b +:+ newline +:+ format_per_trade_diff diverging common_count)
  end.
Definition require_db_url (db_url env : option string) : option string := match given db_url with Some u => Some u | None => env end.
Definition compare_command (a b : string) (db_url env : option string) (d : bt_db) : Z * string :=
  match uuid_of a, uuid_of b, require_db_url db_url env with
  | Some run_a, Some run_b, Some _ => compare_report run_a run_b d
  | _, _, _ => (2, ""%string)
  end.
End texts.
