(* ===== verification/CliFacts.v ===== *)
(** * Overrides change one place

    Reading a configuration along a path after an override gives the value of
    the override at its own path and what was there before at every other. *)

From S2P Require Import Prelude Dec DecText Bus Loader Cli.
Open Scope Z_scope.

Fixpoint read_path (segments : list string) (v : yaml) : option yaml :=
  match segments with
  | [] => Some v
  | seg :: rest => match child seg v with Ok c => read_path rest c | Err _ => None end
  end.
(** Segments that never name the same child: "01" and "1" are one index. *)
Definition distinct_segments (a b : string) : Prop := a ≠ b ∧ (isdigit a = true → isdigit b = true → index_of a ≠ index_of b).
(** Paths that part ways. *)
Inductive apart : list string → list string → Prop :=
| apart_here a b p q : distinct_segments a b → apart (a :: p) (b :: q)
| apart_later s p q : apart p q → apart (s :: p) (s :: q).

Lemma get_set_same k x d : get k (dict_set (YStr k) x d) = Some x.
Proof.
  induction d as [|[k' v] d IH]; cbn; [by rewrite String.eqb_refl|]. destruct k'; cbn; try done.
  destruct (String.eqb_spec k s) as [->|]; cbn; [by rewrite String.eqb_refl|]. rewrite (proj2 (String.eqb_neq s k)) by done. done.
Qed.
Lemma get_set_other k k' x d : k ≠ k' → get k' (dict_set (YStr k) x d) = get k' d.
Proof.
  intros Hk. induction d as [|[j v] d IH]; cbn; [by rewrite (proj2 (String.eqb_neq k k'))|]. destruct j; cbn; try done.
  destruct (String.eqb_spec k s) as [->|]; cbn; [by rewrite (proj2 (String.eqb_neq s k')) by done|]. by rewrite IH.
Qed.
Lemma child_assign seg x v v' : assign seg x v = Ok v' → child seg v' = Ok x.
Proof.
  unfold assign. destruct v; try done.
  - destruct (isdigit seg) eqn:Hd; [|done]. destruct (l !! index_of seg) eqn:Hl; [|done]. intros [= <-]. cbn. rewrite Hd.
    rewrite list_lookup_insert_eq by (by eapply lookup_lt_Some). done.
  - intros [= <-]. cbn. by rewrite get_set_same.
Qed.
Lemma child_assign_other seg seg' x v v' : distinct_segments seg seg' → assign seg x v = Ok v' → child seg' v' = child seg' v.
Proof.
  intros [Hne Hix]. unfold assign. destruct v; try done.
  - destruct (isdigit seg) eqn:Hd; [|done]. destruct (l !! index_of seg); [|done]. intros [= <-]. cbn.
    destruct (isdigit seg') eqn:Hd'; [|done]. by rewrite list_lookup_insert_ne by auto.
  - intros [= <-]. cbn. by rewrite get_set_other.
Qed.
Lemma set_then_read p : ∀ x v v', set_path p x v = Ok v' → read_path p v' = Some x.
Proof.
  induction p as [|seg [|seg' p] IH]; intros x v v' Hs; [done| |].
  - cbn in *. by rewrite (child_assign _ _ _ _ Hs).
  - change (set_path (seg :: seg' :: p) x v) with (c ← child seg v; c' ← set_path (seg' :: p) x c; assign seg c' v) in Hs. inv_ok.
    cbn [read_path]. erewrite child_assign by done. by eapply IH.
Qed.
Lemma set_leaves_others p q : apart p q → ∀ x v v', set_path p x v = Ok v' → read_path q v' = read_path q v.
Proof.
  induction 1 as [a b p q Hd|s p q Hpq IH]; intros x v v' Hs.
  - assert (∃ c, assign a c v = Ok v') as [c Ha].
    { destruct p; cbn in Hs; [eauto|]. inv_ok. eauto. }
    cbn. by rewrite (child_assign_other _ _ _ _ _ Hd Ha).
  - destruct p as [|s' p]; [by inversion Hpq|].
    change (set_path (s :: s' :: p) x v) with (c ← child s v; c' ← set_path (s' :: p) x c; assign s c' v) in Hs. inv_ok.
    cbn [read_path]. rewrite (child_assign _ _ _ _ H2), H. by eapply IH.
Qed.

(** The last override holds at its path, and only there is anything changed by
    it; what reaches the loader is the text of that value. *)
Lemma last_override safe_load v kvs kv path raw x v1 v2 :
  apply_overrides safe_load v kvs = Ok v1 → partition_eq kv = Some (path, raw) → safe_load raw = Ok x →
  apply_overrides safe_load v (kvs ++ [kv]) = Ok v2 →
  read_path (Replay.split path) v2 = Some x ∧ ∀ q, apart (Replay.split path) q → read_path q v2 = read_path q v1.
Proof.
  intros H1 Hp Hx H2. assert (set_path (Replay.split path) x v1 = Ok v2) as Hs.
  { revert v H1 H2. induction kvs as [|k kvs IH]; intros v H1 H2; cbn in *.
    - injection H1 as ->. inv_ok. unfold apply_override in H. rewrite Hp in H. inv_ok. congruence.
    - destruct (apply_override safe_load v k) as [v0|]; [|done]. cbn in *. by eapply IH. }
  split; [by eapply set_then_read|]. intros q Hq. by eapply set_leaves_others.
Qed.
Lemma overrides_are_loaded safe_load load safe_dump sha256 raw o overrides v v' :
  (∀ y, safe_load (safe_dump y) = Ok y) → safe_load raw = Ok v → apply_overrides safe_load v (o :: overrides) = Ok v' →
  load_bot_config_with_overrides safe_load (fun text => y ← safe_load text; load y) safe_dump sha256 raw (o :: overrides)
  = (b ← load v'; Ok (safe_dump v', sha256 (safe_dump v'), b)).
Proof. intros Hrt Hr Ha. unfold load_bot_config_with_overrides. rewrite Hr. cbn -[apply_overrides]. rewrite Ha. cbn. by rewrite Hrt. Qed.
(** The order of the arguments of a run has been checked. *)
Lemma run_has_range fromisoformat args bot from_at to_at path : cli_main fromisoformat args = cli_runs bot from_at to_at path → from_at < to_at ∧ cli_compare args = None.
Proof. unfold cli_main. intros E. repeat case_match; try discriminate. injection E as <- <- <- <-. bool_simpl. split; [lia|done]. Qed.
