(* ===== verification/Sockets.v ===== *)
(** * The reconnect loops of the two sockets, and the REST client

    Models [run], [_reconnect_loop] and [close] of packages/market/ws.py and
    packages/exchange/bybit_v5/ws.py as one machine whose points are the awaits,
    the two clients differing in what they do with a fresh connection, and
    packages/market/rest.py.  What passes over an open socket is in Market.v and
    Bybit.v.  Times are microseconds of the monotonic clock, delays whole seconds
    (the ceiling of the jitter; the delay drawn lies below it). *)

From S2P Require Import Prelude Json Dec DecText Float64 PyNum PaperExchange Market.
From stdpp Require Import relations pretty.
Open Scope Z_scope.

(** ** The loop *)
Inductive socket := market_ws | private_ws.
(** Where the task is: before [run], awaiting the connection, setting it up
    (subscription; authentication and subscription), receiving, asleep, or done. *)
Inductive point := pt_idle | pt_connecting | pt_setup | pt_receiving | pt_sleeping (ceiling : Z) | pt_returned | pt_raised (e : exn).
Record loop := mkLoop {
  lp_point : point; lp_state : WsState; lp_open : bool;         (** [self._ws is not None] *)
  lp_disconnect_started_at : option Z; lp_long_disconnect_logged : bool; lp_attempt : Z; lp_delays : nat; lp_long_disconnect_count : Z;
}.
Definition new_loop : loop := mkLoop pt_idle ws_disconnected false None false 0 0 0.
Definition at_point (p : point) (st : WsState) (open : bool) (l : loop) : loop :=
  mkLoop p st open (lp_disconnect_started_at l) (lp_long_disconnect_logged l) (lp_attempt l) (lp_delays l) (lp_long_disconnect_count l).
Definition BACKOFF_BASE : Z := 1.
Definition BACKOFF_CAP : Z := 60.

Section loop.
Context (kind : socket) (long_disconnect_threshold : Z).

(** [while self._state is not CLOSED]. *)
Definition loop_head (l : loop) : loop :=
  if bool_decide (lp_state l = ws_closed) then at_point pt_returned ws_closed (lp_open l) l
  else at_point pt_connecting (match lp_disconnect_started_at l with None => ws_connecting | Some _ => ws_reconnecting end) (lp_open l) l.
Definition run_socket (l : loop) : loop :=
  if bool_decide (lp_state l = ws_disconnected) then loop_head l
  else at_point (pt_raised (match kind with market_ws => NotConnected | private_ws => RuntimeError "run() called twice" end)) (lp_state l) (lp_open l) l.
Definition opened (l : loop) : loop := at_point pt_setup ws_connected true l.
(** The connection is set up: the outage is over. *)
Definition set_up (l : loop) : loop :=
  mkLoop pt_receiving (lp_state l) (lp_open l) None false 0 (lp_delays l) (lp_long_disconnect_count l).
Definition asleep (started : Z) (logged : bool) (count : Z) (l : loop) : loop :=
  mkLoop (pt_sleeping (backoff_ceiling BACKOFF_BASE BACKOFF_CAP (lp_delays l))) (lp_state l) false (Some started) logged (lp_attempt l + 1)
    (S (lp_delays l)) count.
(** The exchange refuses the credentials. *)
Definition auth_refused (now : Z) (l : loop) : loop :=
  asleep (default now (lp_disconnect_started_at l)) (lp_long_disconnect_logged l) (lp_long_disconnect_count l) l.
(** A [WebSocketException] or an [OSError]. *)
Definition dropped (now : Z) (l : loop) : loop :=
  if bool_decide (lp_state l = ws_closed) then at_point pt_returned ws_closed (lp_open l) l
  else
    let started := default now (lp_disconnect_started_at l) in
    let long := negb (lp_long_disconnect_logged l) && (long_disconnect_threshold <=? now - started) in
    asleep started (long || lp_long_disconnect_logged l) (if long then lp_long_disconnect_count l + 1 else lp_long_disconnect_count l) l.
Definition close_socket (l : loop) : loop :=
  if bool_decide (lp_state l = ws_closed) then l else at_point (lp_point l) ws_closed false l.

Definition waits (p : point) : bool := match p with pt_connecting | pt_setup | pt_receiving | pt_sleeping _ => true | _ => false end.
(** The outcomes of the awaits, the cancellation of the task among them; [close] may be called at any of them. *)
Inductive loop_step : loop → loop → Prop :=
| step_run l : lp_point l = pt_idle → loop_step l (run_socket l)
| step_opened l : lp_point l = pt_connecting → loop_step l (opened l)
| step_set_up l : lp_point l = pt_setup → loop_step l (set_up l)
| step_refused now l : kind = private_ws → lp_point l = pt_setup → loop_step l (auth_refused now l)
| step_dropped now l : lp_point l ∈ [pt_connecting; pt_setup; pt_receiving] → loop_step l (dropped now l)
| step_other e l : lp_point l ∈ [pt_setup; pt_receiving] → loop_step l (at_point (pt_raised e) (lp_state l) (lp_open l) l)
| step_cancelled l : waits (lp_point l) = true → loop_step l (at_point (pt_raised CancelledError) (lp_state l) (lp_open l) l)
| step_ended l : lp_point l = pt_receiving → loop_step l (loop_head l)
| step_woke c l : lp_point l = pt_sleeping c → loop_step l (loop_head l)
| step_close l : loop_step l (close_socket l).

(** ** What closing does *)
Definition closing (l : loop) : Prop := lp_state l = ws_closed ∧ lp_point l ≠ pt_connecting.
Lemma closing_step l l' : closing l → loop_step l l' → closing l'.
Proof.
  intros [Hs Hp] Hstep. destruct Hstep; unfold closing, run_socket, loop_head, opened, set_up, auth_refused, dropped, close_socket, asleep, at_point in *;
    rewrite ?Hs; cbn; rewrite ?bool_decide_eq_true_2 by done; cbn; try done; try (split; [done|congruence]).
Qed.
(** A loop closed anywhere but while it connects never opens a socket again. *)
Lemma closed_stays_closed l l' : closing l → rtc loop_step l l' → closing l'.
Proof. intros Hc Hr. induction Hr; [done|]. apply IHHr. by eapply closing_step. Qed.
(** And every await that ends brings it nearer to its return. *)
Definition rank (p : point) : nat :=
  match p with pt_idle | pt_setup => 2 | pt_receiving | pt_sleeping _ => 1 | pt_connecting | pt_returned | pt_raised _ => 0 end%nat.
Lemma closed_returns l l' : closing l → loop_step l l' → l' = l ∨ (rank (lp_point l') < rank (lp_point l))%nat.
Proof.
  intros [Hs Hp] Hstep.
  destruct Hstep as [l H|l H|l H|now l Hk H|now l H|e l H|l H|l H|c l H|l];
    unfold run_socket, loop_head, opened, set_up, auth_refused, dropped, close_socket, asleep, at_point; rewrite ?Hs; cbn;
    rewrite ?bool_decide_eq_true_2 by done; rewrite ?H; cbn; try (right; lia); try done; try (by left).
  - right. rewrite bool_decide_eq_false_2 by done. cbn. lia.
  - right. rewrite !elem_of_cons, elem_of_nil in H. destruct H as [H|[H|[H|[]]]]; rewrite H; cbn; [done|lia..].
  - right. rewrite !elem_of_cons, elem_of_nil in H. destruct H as [H|[H|[]]]; rewrite H; cbn; lia.
  - right. destruct (lp_point l); try done; cbn; lia.
Qed.
(** Closed while it connects, it connects all the same: the state is overwritten. *)
Lemma close_lost_while_connecting l : lp_point l = pt_connecting →
  loop_step l (close_socket l) ∧ loop_step (close_socket l) (opened (close_socket l)) ∧
  lp_state (opened (close_socket l)) = ws_connected ∧ ∃ l', rtc loop_step (opened (close_socket l)) l' ∧ lp_point l' = pt_connecting.
Proof.
  intros Hp. assert (lp_point (close_socket l) = pt_connecting) as Hc by (unfold close_socket; by case_bool_decide).
  split; [constructor|]. split; [by constructor|]. split; [done|].
  eexists. split; [eapply rtc_l; [by apply step_set_up|]; eapply rtc_l; [by apply step_ended|]; apply rtc_refl|]. done.
Qed.

(** ** Outages and delays *)
(** The delays of the whole life of a loop; the generator is never restarted. *)
Definition loop_ok (l : loop) : Prop :=
  0 <= lp_long_disconnect_count l ∧
  match lp_point l with pt_sleeping c => 1 <= c <= BACKOFF_CAP ∧ c = backoff_ceiling BACKOFF_BASE BACKOFF_CAP (pred (lp_delays l)) | _ => True end.
Lemma ceiling_bounds n : 1 <= backoff_ceiling BACKOFF_BASE BACKOFF_CAP n <= BACKOFF_CAP.
Proof. unfold backoff_ceiling, BACKOFF_BASE, BACKOFF_CAP. pose proof (Z.pow_pos_nonneg 2 (Z.of_nat n)). lia. Qed.
Lemma asleep_ok started logged count l : 0 <= count → loop_ok (asleep started logged count l).
Proof. intros Hc. split; [done|]. cbn. split; [apply ceiling_bounds|done]. Qed.
Lemma loop_ok_step l l' : loop_ok l → loop_step l l' → loop_ok l'.
Proof.
  intros [Hc Hp] Hstep. destruct Hstep as [l H|l H|l H|now l Hk H|now l H|e l H|l H|l H|c l H|l]; try (split; [done|done]).
  - unfold run_socket, loop_head. by repeat case_bool_decide.
  - by apply asleep_ok.
  - unfold dropped. case_bool_decide; [done|]. apply asleep_ok. destruct (_ && _); lia.
  - unfold loop_head. by case_bool_decide.
  - unfold loop_head. by case_bool_decide.
  - unfold close_socket. case_bool_decide; by split.
Qed.
(** An outage is reported once: while it is not over, a report is made only if
    none was. *)
Lemma one_report_per_outage now l : lp_long_disconnect_logged l = true → lp_long_disconnect_count (dropped now l) = lp_long_disconnect_count l.
Proof. intros Hl. unfold dropped. case_bool_decide; [done|]. by rewrite Hl. Qed.
(** Refused credentials are never reported, however long they are refused. *)
Lemma refusals_unreported now l : lp_long_disconnect_count (auth_refused now l) = lp_long_disconnect_count l ∧
  lp_long_disconnect_logged (auth_refused now l) = lp_long_disconnect_logged l.
Proof. done. Qed.
End loop.

(** ** packages/market/rest.py *)
(** What httpx gives: an answer, or a failure of the transport. *)
Record http_answer := mkAnswer { ha_status : Z; ha_body : option json }.
Inductive BinanceRestError := rest_error (status : option Z) (api_code : option Z) (api_message : option string).
Definition KLINES_LIMIT : Z := 500.
Definition to_millis_of (when : Z) : Z := to_millis (total_seconds when).
Definition klines_params (symbol interval : string) (start_time end_time : option Z) (limit : Z) : list (string * json) :=
  [("symbol"%string, JStr symbol); ("interval"%string, JStr interval); ("limit"%string, JInt limit)] ++
  (match start_time with Some t => [("startTime"%string, JInt (to_millis_of t))] | None => [] end) ++
  (match end_time with Some t => [("endTime"%string, JInt (to_millis_of t))] | None => [] end).
(** [row[i]] of any value, and what iterating one gives: the keys of a dict, the
    characters of a string. *)
Definition column (i : nat) (row : json) : res json :=
  match row with
  | JList l => match l !! i with Some v => Ok v | None => Err IndexError end
  | JStr s => match String.get i s with Some c => Ok (JStr (String c EmptyString)) | None => Err IndexError end
  | JObj _ => Err (KeyError (pretty i))
  | _ => Err (TypeError "not subscriptable")
  end.
Definition iterated (v : json) : res (list json) :=
  match v with
  | JList l => Ok l
  | JObj d => Ok ((fun kv => JStr kv.1) <$> d)
  | JStr s => Ok ((fun c => JStr (String c EmptyString)) <$> String.list_ascii_of_string s)
  | _ => Err (TypeError "not iterable")
  end.
(** [datetime.fromtimestamp] of a float: whole seconds, and the rest rounded half
    to even to the microsecond. *)
Definition nearest (x : b64) : Z := Z.sgn (bman x) * div_half_even (Z.abs (bman x) * 2 ^ Z.max 0 (bexp x)) (2 ^ Z.max 0 (- bexp x)).
Definition from_seconds (x : b64) : res Z :=
  let whole := btrunc x in
  let us := whole * 1000000 + nearest (bmul (bsub x (mkB whole 0)) (mkB 1000000 0)) in
  if (-62135596800000000 <=? us) && (us <=? 253402300799999999) then Ok us else Err (ValueError "year is out of range").
(** One row: twelve columns, of which the first six are read. *)
Definition open_time (v : json) : res Z :=
  match v with
  | JInt ms => from_millis ms
  | JBool b => from_millis (if b then 1 else 0)
  | JFloat t => d ← dec_of_str t; bdiv (float_of_dec d) (mkB 1000 0) ≫= from_seconds
  | _ => Err (TypeError "unsupported operand")
  end.
Definition parse_kline_row (symbol : string) (row : json) : res candle :=
  bucket_start ← column 0 row ≫= open_time;
  o ← column 1 row ≫= decimal_str; h ← column 2 row ≫= decimal_str; lo ← column 3 row ≫= decimal_str;
  c ← column 4 row ≫= decimal_str; v ← column 5 row ≫= decimal_str;
  Ok (mkCandle symbol bucket_start o h lo c v true).
Definition api_error (a : http_answer) : BinanceRestError :=
  match ha_body a with
  | Some (JObj d) =>
      rest_error (Some (ha_status a))
        (match dict_get "code" d with Some (JInt z) => Some z | Some (JBool b) => Some (if b then 1 else 0) | _ => None end)
        (match dict_get "msg" d with Some (JStr m) => Some m | _ => None end)
  | _ => rest_error (Some (ha_status a)) None None
  end.
Inductive klines := candles_ok (l : list candle) | failed_with (e : BinanceRestError) | raised_by_parsing (e : exn).
(** [None]: the transport failed. *)
Definition get_klines (symbol : string) (answer : option http_answer) : klines :=
  match answer with
  | None => failed_with (rest_error None None None)
  | Some a =>
      if 400 <=? ha_status a then failed_with (api_error a)
      else match ha_body a with
           | None => raised_by_parsing JSONDecodeError
           | Some body => match iterated body ≫= mapM (parse_kline_row symbol) with Ok l => candles_ok l | Err e => raised_by_parsing e end
           end
  end.
(** Every candle of an answer is a row of it, in the order of the answer. *)
Lemma klines_follow_rows symbol a l : get_klines symbol (Some a) = candles_ok l →
  ∃ body rows, ha_body a = Some body ∧ iterated body = Ok rows ∧ ha_status a < 400 ∧
    Forall2 (fun row c => parse_kline_row symbol row = Ok c ∧ c_symbol c = symbol) rows l.
Proof.
  unfold get_klines. destruct (Z.leb_spec 400 (ha_status a)); [done|]. destruct (ha_body a) as [body|]; [|done].
  destruct (_ ≫= _) as [l'|] eqn:E; [|done]. intros [= ->]. apply bind_ok_inv in E as (rows & Hr & E). exists body, rows. split_and!; try done.
  clear Hr. revert l E. induction rows as [|row rows IH]; intros cs E; cbn in E.
  - injection E as <-. constructor.
  - apply bind_ok_inv in E as (c & Hc & E). apply bind_ok_inv in E as (cs' & Hcs & E). injection E as <-. constructor; [|by apply IH].
    split; [done|]. unfold parse_kline_row in Hc. inv_ok. by subst.
Qed.
