(* ===== verification/Services.v ===== *)
(** * Starting and stopping the services

    Models the lifespans of services/*/app/main.py (execution, market_data,
    signal_gateway, analytics_api, feature_engine, strategy_engine, alerting), and
    [OhlcPipeline.start] and [stop] of packages/market/ohlc.py.

    A process has handles (pool, bus, REST client, adapters, Telegram client) and
    tasks, of a kind each.  A start is a list of awaits with their effects, of
    which any may raise; the shutdown of a [finally] block is a list of operations
    between which the tasks go on: they end, and those not cancelled start others.
    What the components do in between is in their own files.

    Parameters: whether the scheduler's [shutdown(wait=True)] waits for its jobs,
    and what unsubscribing a drained subscription of the bus gives. *)

From S2P Require Import Prelude Json Lifecycle Sse.
From stdpp Require Import relations.
From Stdlib Require Import Ascii.
Open Scope Z_scope.

(** ** Processes *)
Inductive handle := h_pool | h_bus | h_rest | h_telegram | h_ws | h_adapter (bot : string).
Inductive handle_kind := hk_pool | hk_bus | hk_rest | hk_telegram | hk_ws | hk_adapters.
#[global] Instance handle_kind_eq_dec : EqDecision handle_kind.
Proof. solve_decision. Defined.
Definition kind_of (h : handle) : handle_kind :=
  match h with h_pool => hk_pool | h_bus => hk_bus | h_rest => hk_rest | h_telegram => hk_telegram | h_ws => hk_ws | h_adapter _ => hk_adapters end.
(** The tasks: subscriptions of the bus (those of the order requests and of the two
    shadow workers apart),
    position monitors, dispatchers, the
    background task of an adapter, shadow variants, observations, scheduled jobs,
    the relay, the backtest worker, event streams, backfills of features, the
    candles of a symbol, the socket's loop and the backfill it starts. *)
Inductive kind :=
| k_consumer | k_orders | k_shadow_sub | k_rejected_sub | k_monitor | k_dispatcher | k_background | k_variant | k_observation | k_job
| k_relay | k_worker | k_stream | k_auto_backfill | k_symbol | k_ws_run | k_gap_fill.
#[global] Instance kind_eq_dec : EqDecision kind.
Proof. solve_decision. Defined.
Definition kinds : list kind :=
  [k_consumer; k_orders; k_shadow_sub; k_rejected_sub; k_monitor; k_dispatcher; k_background; k_variant; k_observation; k_job; k_relay; k_worker; k_stream; k_auto_backfill; k_symbol; k_ws_run; k_gap_fill].
(** What a task of a kind uses, and what it still uses once it is cancelled (its
    [finally] blocks). *)
Definition needs (k : kind) : list handle_kind :=
  match k with
  | k_consumer => [hk_pool; hk_bus; hk_telegram]
  | k_orders | k_dispatcher | k_monitor | k_job => [hk_pool; hk_bus; hk_adapters]
  | k_background => [hk_pool; hk_bus; hk_adapters]
  | k_shadow_sub | k_rejected_sub | k_variant | k_observation | k_relay | k_auto_backfill => [hk_pool; hk_bus]
  | k_worker => [hk_pool]
  | k_stream => [hk_bus]
  | k_symbol => [hk_pool; hk_bus; hk_ws]
  | k_ws_run => [hk_ws]
  | k_gap_fill => [hk_pool; hk_rest]
  end.
Definition finalizer_needs (k : kind) : list handle_kind :=
  match k with k_variant | k_observation => [hk_bus] | k_symbol => [hk_ws] | _ => [] end.
(** Which tasks start which: an order request starts a monitor, a shadow message
    its runs, a new connection of the socket a backfill. *)
Definition spawns (k k' : kind) : bool :=
  match k, k' with
  | k_orders, k_monitor | k_shadow_sub, k_variant | k_rejected_sub, k_observation => true
  | k_ws_run, k_gap_fill => true
  | _, _ => false
  end.
Record task := mkTask { tk_kind : kind; tk_id : Z; tk_cancelled : bool }.
Definition uses (t : task) : list handle_kind := if tk_cancelled t then finalizer_needs (tk_kind t) else needs (tk_kind t).
Definition cancelled (t : task) : task := mkTask (tk_kind t) (tk_id t) true.
Definition cancel_kind (k : kind) (t : task) : task := if bool_decide (tk_kind t = k) then cancelled t else t.
Definition of_kind (k : kind) (t : task) : Prop := tk_kind t = k.
#[global] Instance of_kind_dec k t : Decision (of_kind k t).
Proof. unfold of_kind. apply _. Defined.

(** ** Shutdown *)
(** [so_join]: wait until no task of the kind is left; [so_give_up]: the same, but
    a timeout ends the wait; [so_unsubscribe]: of a subscription the worker kept. *)
Inductive stop_op := so_close (h : handle) | so_cancel (k : kind) | so_join (k : kind) | so_give_up (k : kind) | so_unsubscribe.
Record process := mkProc { pr_closed : list handle; pr_tasks : list task; pr_todo : list stop_op; pr_raised : option exn }.
Definition bus_close : list stop_op := [so_join k_consumer; so_join k_orders; so_join k_shadow_sub; so_join k_rejected_sub; so_close h_bus].
Definition cancel_and_gather (k : kind) : list stop_op := [so_cancel k; so_join k].

(** The [finally] blocks. *)
Definition execution_stop (scheduler_waits rejected_enabled : bool) (bots : list string) : list stop_op :=
  bus_close ++
  (if rejected_enabled then [so_unsubscribe; so_cancel k_observation] else []) ++
  [so_unsubscribe; so_unsubscribe; so_cancel k_variant] ++
  cancel_and_gather k_monitor ++ cancel_and_gather k_dispatcher ++ cancel_and_gather k_background ++
  (if scheduler_waits then [so_join k_job] else []) ++
  ((fun b => so_close (h_adapter b)) <$> bots) ++ [so_close h_pool].
Definition market_data_stop : list stop_op :=
  [so_cancel k_symbol; so_give_up k_symbol; so_close h_ws; so_give_up k_ws_run; so_cancel k_ws_run; so_join k_ws_run] ++
  bus_close ++ [so_close h_rest; so_close h_pool].
Definition signal_gateway_stop : list stop_op := cancel_and_gather k_relay ++ bus_close ++ [so_close h_pool].
Definition analytics_api_stop : list stop_op := cancel_and_gather k_worker ++ [so_cancel k_stream] ++ bus_close ++ [so_close h_pool].
Definition feature_engine_stop : list stop_op := cancel_and_gather k_auto_backfill ++ bus_close ++ [so_close h_pool].
Definition strategy_engine_stop : list stop_op := bus_close ++ [so_close h_pool].
Definition alerting_stop : list stop_op := bus_close ++ [so_close h_telegram].

Section shutdown.
Context (unsubscribe_drained : res unit).
(** The next operation, given that its wait is over. *)
Definition run_op (op : stop_op) (rest : list stop_op) (p : process) : option process :=
  match op with
  | so_close h => Some (mkProc (h :: pr_closed p) (pr_tasks p) rest None)
  | so_cancel k => Some (mkProc (pr_closed p) (cancel_kind k <$> pr_tasks p) rest None)
  | so_join k => if bool_decide (List.Exists (of_kind k) (pr_tasks p)) then None else Some (mkProc (pr_closed p) (pr_tasks p) rest None)
  | so_give_up _ => Some (mkProc (pr_closed p) (pr_tasks p) rest None)
  | so_unsubscribe =>
      match unsubscribe_drained with
      | Ok _ => Some (mkProc (pr_closed p) (pr_tasks p) rest None)
      | Err e => Some (mkProc (pr_closed p) (pr_tasks p) [] (Some e))
      end
  end.
Inductive stop_step : process → process → Prop :=
| stop_next op rest p p' : pr_todo p = op :: rest → run_op op rest p = Some p' → stop_step p p'
| stop_ended p l t l' : pr_tasks p = l ++ t :: l' → stop_step p (mkProc (pr_closed p) (l ++ l') (pr_todo p) (pr_raised p))
| stop_spawned p t k id : t ∈ pr_tasks p → tk_cancelled t = false → spawns (tk_kind t) k = true →
    stop_step p (mkProc (pr_closed p) (mkTask k id false :: pr_tasks p) (pr_todo p) (pr_raised p)).
End shutdown.

(** ** Starts *)
(** What an await of the start does: open a handle, or start tasks. *)
Inductive start_op := st_open (h : handle) | st_spawn (k : kind) (id : Z) | st_call (name : string).
Definition open_of (op : start_op) : list handle := match op with st_open h => [h] | _ => [] end.
Definition task_of (op : start_op) : list task := match op with st_spawn k id => [mkTask k id false] | _ => [] end.
Record started := mkStarted { su_open : list handle; su_tasks : list task; su_failed : option exn }.
(** [faults]: what the successive awaits raise; the handler that closes the
    resources is entered only after the last. *)
Fixpoint run_start (ops : list start_op) (faults : list (option exn)) (s : started) : started :=
  match ops with
  | [] => s
  | op :: ops' =>
      match head faults with
      | Some (Some e) => mkStarted (su_open s) (su_tasks s) (Some e)
      | _ => run_start ops' (tail faults) (mkStarted (su_open s ++ open_of op) (su_tasks s ++ task_of op) None)
      end
  end.
(** A bot of the pool: its sub-account, the attribute papers have instead, and
    whether it is in [paper_bot_ids]. *)
Record bot := mkBotAdapter { bo_id : string; bo_sub_account : option string; bo_bot_id : option string; bo_paper : bool }.
Definition resolve_sub_account (b : bot) : res string :=
  match bo_sub_account b with
  | Some s => Ok s
  | None => match bo_bot_id b with Some s => Ok s | None => Err (RuntimeError "adapter has no _sub_account or _bot_id attribute") end
  end.
Definition indexed {A} (f : Z → A → start_op) (l : list A) : list start_op := imap (fun i x => f (Z.of_nat i) x) l.
(** One lock per sub-account of a live bot, in the order of the bots; the
    dispatcher of a bot holds the number of its lock. *)
Definition lock_for (locks : list string) (sub : string) : list string := if bool_decide (sub ∈ locks) then locks else locks ++ [sub].
Fixpoint dispatchers (locks : list string) (bots : list bot) : res (list (string * nat) * list string) :=
  match bots with
  | [] => Ok ([], locks)
  | b :: bots' =>
      if bo_paper b then dispatchers locks bots'
      else
        sub ← resolve_sub_account b;
        let locks' := lock_for locks sub in
        r ← dispatchers locks' bots';
        Ok ((bo_id b, default 0%nat (fst <$> list_find (eq sub) locks')) :: r.1, r.2)
  end.
Definition JOBS : list string := ["pnl_audit"; "equity_snapshot"; "funding_fee_poll"; "sl_watchdog"; "trail_audit"]%string.
(** The monitors of the reconciliation and the resumed runs are arguments. *)
Definition execution_start (bots : list bot) (rejected_enabled : bool) (monitors variants observations : list Z) : list start_op :=
  [st_open h_pool; st_open h_bus] ++
  (bots ≫= fun b => [st_open (h_adapter (bo_id b)); st_spawn k_background 0]) ++
  indexed (fun i _ => st_spawn k_orders i) bots ++
  (st_call "reconcile_on_startup" :: (st_spawn k_monitor <$> monitors)) ++
  indexed (fun i _ => st_spawn k_dispatcher i) (List.filter (fun b => negb (bo_paper b)) bots) ++
  [st_spawn k_shadow_sub 0; st_spawn k_shadow_sub 1] ++
  (st_call "resume_active_variants_on_startup" :: (st_spawn k_variant <$> variants)) ++
  (if rejected_enabled then st_spawn k_rejected_sub 0 :: st_call "resume_active_observations_on_startup" :: (st_spawn k_observation <$> observations) else []) ++
  indexed (fun i _ => st_spawn k_job i) JOBS.
Definition market_data_start (symbols : list string) : list start_op :=
  [st_open h_pool; st_open h_bus; st_open h_rest; st_open h_ws; st_spawn k_ws_run 0] ++ indexed (fun i _ => st_spawn k_symbol i) symbols.
Definition signal_gateway_start : list start_op := [st_open h_pool; st_open h_bus; st_spawn k_relay 0].
Definition analytics_api_start (worker_enabled : bool) : list start_op :=
  [st_open h_pool; st_open h_bus] ++ if worker_enabled then [st_spawn k_worker 0] else [].
Definition alerting_start : list start_op := [st_open h_telegram; st_open h_bus; st_spawn k_consumer 0].
(** [Settings.symbols] of market_data and feature_engine. *)
Definition symbols (raw : string) : list string :=
  String.string_of_list_ascii <$> List.filter (fun s => negb (bool_decide (s = []))) (strip <$> split_commas (String.list_ascii_of_string raw)).

(** ** OhlcPipeline *)
(** [pl_tasks]: [_tasks], by symbol; [pl_running]: the tasks of the loop. *)
Record pipeline := mkPipeline { pl_started : bool; pl_tasks : list (string * Z); pl_running : list (Z * bool) }.
Fixpoint start_symbols (symbols : list string) (p : pipeline) : pipeline :=
  match symbols with
  | [] => p
  | s :: rest =>
      let id := Z.of_nat (length (pl_running p)) in
      start_symbols rest (mkPipeline (pl_started p) (dict_set s id (pl_tasks p)) (pl_running p ++ [(id, false)]))
  end.
Definition pipeline_start (symbols : list string) (p : pipeline) : pipeline :=
  if pl_started p then p else start_symbols symbols (mkPipeline true (pl_tasks p) (pl_running p)).
Definition pipeline_stop (p : pipeline) : pipeline :=
  if pl_started p then
    mkPipeline false [] ((fun t => if existsb (fun kv => kv.2 =? t.1) (pl_tasks p) then (t.1, true) else t) <$> pl_running p)
  else p.
