(* ===== verification/ServiceFacts.v ===== *)
(** * No task outlives what it uses

    A checker of shutdown orders, proved sound by induction over the steps of the
    machine of Services.v, and its verdict on the [finally] block of each service;
    the runs that show where an order falls short. *)

From S2P Require Import Prelude Json Lifecycle Sse Services.
From stdpp Require Import relations.
Open Scope Z_scope.

(** ** The checker *)
(** How far the tasks of a kind have been brought. *)
Inductive phase := running | told | gone.
#[global] Instance phase_eq_dec : EqDecision phase.
Proof. solve_decision. Defined.
Abbreviation phases := (kind → phase).
(** At first the tasks of a service run, and there are no others. *)
Definition only (ks : list kind) : phases := fun k => if bool_decide (k ∈ ks) then running else gone.
Definition set_phase (k : kind) (x : phase) (ph : phases) : phases := fun k' => if bool_decide (k' = k) then x else ph k'.
(** No task that could still start one of this kind is left. *)
Definition no_source (ph : phases) (k : kind) : bool := forallb (fun k' => negb (bool_decide (ph k' = running) && spawns k' k)) kinds.
Definition released (ph : phases) (hk : handle_kind) : bool :=
  forallb (fun k => match ph k with
                    | running => negb (bool_decide (hk ∈ needs k))
                    | told => negb (bool_decide (hk ∈ finalizer_needs k))
                    | gone => true
                    end) kinds.
Definition next_phases (op : stop_op) (ph : phases) : phases :=
  match op with
  | so_cancel k => if no_source ph k && negb (bool_decide (ph k = gone)) then set_phase k told ph else ph
  | so_join k => if no_source ph k then set_phase k gone ph else ph
  | _ => ph
  end.
Section checker.
Context (protected : list handle_kind).
Fixpoint check_stop (ph : phases) (ops : list stop_op) : bool :=
  match ops with
  | [] => true
  | op :: ops' =>
      match op with so_close h => negb (bool_decide (kind_of h ∈ protected)) || released ph (kind_of h) | _ => true end &&
      check_stop (next_phases op ph) ops'
  end.

(** ** Soundness *)
Definition fits (ph : phases) (t : task) : Prop :=
  match ph (tk_kind t) with running => True | told => tk_cancelled t = true | gone => False end.
Definition guarded (ph : phases) (p : process) : Prop :=
  Forall (fits ph) (pr_tasks p) ∧
  (∀ k, ph k ≠ running → no_source ph k = true) ∧
  (∀ h, h ∈ pr_closed p → kind_of h ∈ protected → released ph (kind_of h) = true) ∧
  check_stop ph (pr_todo p) = true.
(** What the checker promises: no live task uses a protected handle that is closed. *)
Definition safe (p : process) : Prop :=
  ∀ t h, t ∈ pr_tasks p → h ∈ pr_closed p → kind_of h ∈ protected → kind_of h ∉ uses t.

Lemma in_kinds k : In k kinds.
Proof. destruct k; cbn; tauto. Qed.
Lemma no_source_spec ph k k' : no_source ph k = true → ph k' = running → spawns k' k = false.
Proof.
  unfold no_source. rewrite forallb_forall. intros H Hr. specialize (H k' (in_kinds k')).
  rewrite bool_decide_eq_true_2 in H by done. by destruct (spawns k' k).
Qed.
Lemma released_spec ph hk k : released ph hk = true →
  match ph k with running => hk ∉ needs k | told => hk ∉ finalizer_needs k | gone => True end.
Proof.
  unfold released. rewrite forallb_forall. intros H. specialize (H k (in_kinds k)).
  destruct (ph k); [| |done]; apply negb_true_iff, bool_decide_eq_false in H; done.
Qed.
Lemma finalizer_needs_less k hk : hk ∈ finalizer_needs k → hk ∈ needs k.
Proof. destruct k; cbn; rewrite ?elem_of_cons, ?elem_of_nil; tauto. Qed.
Lemma guarded_safe ph p : guarded ph p → safe p.
Proof.
  intros (Hf & _ & Hc & _) t h Ht Hh Hp. rewrite Forall_forall in Hf. specialize (Hf t Ht). specialize (Hc h Hh Hp).
  apply (released_spec _ _ (tk_kind t)) in Hc. unfold fits, uses in *. destruct (ph (tk_kind t)); [|by rewrite Hf|done].
  destruct (tk_cancelled t); [|done]. intros Hin. by apply Hc, finalizer_needs_less.
Qed.

Lemma set_phase_same k x ph : set_phase k x ph k = x.
Proof. unfold set_phase. by rewrite bool_decide_eq_true_2. Qed.
Lemma set_phase_other k k' x ph : k' ≠ k → set_phase k x ph k' = ph k'.
Proof. intros H. unfold set_phase. by rewrite bool_decide_eq_false_2. Qed.
(** Bringing a kind further leaves no new sources and releases no less. *)
Lemma further_no_source ph k x k' : x ≠ running → no_source ph k' = true → no_source (set_phase k x ph) k' = true.
Proof.
  unfold no_source. rewrite !forallb_forall. intros Hx H k'' Hin. specialize (H k'' Hin).
  destruct (decide (k'' = k)) as [->|Hk]; [|by rewrite set_phase_other]. by rewrite set_phase_same, bool_decide_eq_false_2.
Qed.
Lemma further_released ph k x hk : x ≠ running → (x = told → ph k ≠ gone) → released ph hk = true → released (set_phase k x ph) hk = true.
Proof.
  intros Hx Hg H. unfold released. apply forallb_forall. intros k' _. pose proof (released_spec _ _ k' H) as H'.
  destruct (decide (k' = k)) as [->|Hk]; [rewrite set_phase_same|rewrite set_phase_other by done].
  - destruct x; [done| |done]. apply negb_true_iff, bool_decide_eq_false. intros Hin.
    destruct (ph k); [by apply H', finalizer_needs_less|done|by apply Hg].
  - by destruct (ph k'); [apply negb_true_iff, bool_decide_eq_false..|].
Qed.
Lemma further_sources ph k x : x ≠ running → no_source ph k = true → (∀ k', ph k' ≠ running → no_source ph k' = true) →
  ∀ k', set_phase k x ph k' ≠ running → no_source (set_phase k x ph) k' = true.
Proof.
  intros Hx Hn Hs k' Hr. apply further_no_source; [done|].
  destruct (decide (k' = k)) as [->|Hk]; [done|]. rewrite set_phase_other in Hr by done. by apply Hs.
Qed.
Lemma guarded_further ph p k x tasks ops : x ≠ running → (x = told → ph k ≠ gone) → no_source ph k = true →
  guarded ph p → Forall (fits (set_phase k x ph)) tasks → check_stop (set_phase k x ph) ops = true →
  guarded (set_phase k x ph) (mkProc (pr_closed p) tasks ops None).
Proof.
  intros Hx Hg Hn (_ & Hs & Hc & _) Hf Hck. split_and!; [done| |cbn|done].
  - by apply further_sources.
  - intros h Hh Hp. apply further_released; [done..|]. by apply Hc.
Qed.
Lemma fits_cancelled ph k t : fits ph t → fits ph (cancel_kind k t).
Proof. unfold fits, cancel_kind. case_bool_decide; [|done]. cbn. by destruct (ph (tk_kind t)). Qed.
Lemma fits_told ph k t : fits ph t → fits (set_phase k told ph) (cancel_kind k t).
Proof.
  unfold fits, cancel_kind. case_bool_decide as Hk; cbn; [subst; by rewrite set_phase_same|by rewrite set_phase_other].
Qed.
Lemma fits_gone ph k tasks : Forall (fits ph) tasks → ¬ Exists (of_kind k) tasks → Forall (fits (set_phase k gone ph)) tasks.
Proof.
  rewrite !Forall_forall. intros Hf Hn t Ht. unfold fits. rewrite set_phase_other; [by apply Hf|].
  intros Hk. apply Hn, Exists_exists. by exists t.
Qed.
Lemma guarded_op unsub ph p p' op rest : guarded ph p → pr_todo p = op :: rest → run_op unsub op rest p = Some p' →
  ∃ ph', guarded ph' p'.
Proof.
  intros Hg Htodo Hrun. destruct Hg as (Hf & Hs & Hc & Hck) eqn:Eg. clear Eg. rewrite Htodo in Hck. cbn [check_stop] in Hck.
  apply andb_prop in Hck as [Hop Hck]. destruct op as [h|k|k|k|]; cbn [run_op next_phases] in *.
  - injection Hrun as <-. exists ph. split_and!; [done..| |done]. cbn. intros h' Hin Hp.
    apply elem_of_cons in Hin as [->|Hin]; [|by apply Hc]. by rewrite bool_decide_eq_true_2 in Hop by done.
  - injection Hrun as <-. destruct (no_source ph k && _) eqn:E.
    + apply andb_prop in E as [Hn Hng]. apply negb_true_iff, bool_decide_eq_false in Hng. exists (set_phase k told ph).
      apply guarded_further; try done. apply Forall_fmap. eapply Forall_impl; [done|]. intros t. apply fits_told.
    + exists ph. split_and!; [|done..]. apply Forall_fmap. eapply Forall_impl; [done|]. intros t. apply fits_cancelled.
  - case_bool_decide as Hex; [done|]. injection Hrun as <-. destruct (no_source ph k) eqn:Hn; [|by exists ph].
    exists (set_phase k gone ph). apply guarded_further; try done. by apply fits_gone.
  - injection Hrun as <-. by exists ph.
  - destruct unsub; injection Hrun as <-; exists ph; by split_and!.
Qed.
Lemma guarded_step unsub ph p p' : guarded ph p → stop_step unsub p p' → ∃ ph', guarded ph' p'.
Proof.
  intros Hg Hstep. destruct Hstep as [op rest p p' Ht Hr|p l t l' Ht|p t k id Hin Hc Hsp]; [by eapply guarded_op|exists ph..].
  - destruct Hg as (Hf & Hrest). split; [|done]. cbn. rewrite Ht, Forall_app, Forall_cons in Hf. rewrite Forall_app. tauto.
  - destruct Hg as (Hf & Hs & Hrest). split; [|done]. cbn. constructor; [|done]. unfold fits. cbn.
    rewrite Forall_forall in Hf. specialize (Hf t Hin). unfold fits in Hf.
    assert (ph (tk_kind t) = running) as Hr by (destruct (ph (tk_kind t)); [done|congruence|done]).
    destruct (ph k) eqn:E; [done| |]; pose proof (no_source_spec ph k (tk_kind t) (Hs k ltac:(congruence)) Hr); congruence.
Qed.
(** Whatever tasks of these kinds are alive when the block starts, and however
    they go on. *)
Definition check_service (ks : list kind) (ops : list stop_op) : bool :=
  forallb (fun k => bool_decide (only ks k = running) || no_source (only ks) k) kinds && check_stop (only ks) ops.
Lemma check_service_sound unsub ks tasks ops p : check_service ks ops = true → Forall (fun t => tk_kind t ∈ ks) tasks →
  rtc (stop_step unsub) (mkProc [] tasks ops None) p → safe p.
Proof.
  intros Hck Hks Hrun. apply andb_prop in Hck as [Hsrc Hck]. rewrite forallb_forall in Hsrc.
  assert (∃ ph, guarded ph (mkProc [] tasks ops None)) as [ph Hg].
  { exists (only ks). split_and!; [| | |done]; cbn.
    - eapply Forall_impl; [done|]. intros t Ht. unfold fits, only. by rewrite bool_decide_eq_true_2.
    - intros k Hk. specialize (Hsrc k (in_kinds k)). by rewrite bool_decide_eq_false_2 in Hsrc.
    - intros h Hh. by apply elem_of_nil in Hh. }
  revert ph Hg. remember (mkProc [] tasks ops None) as q. clear Heqq Hck Hsrc. induction Hrun as [q|q q' q'' Hs _ IH]; intros ph Hg.
  - by eapply guarded_safe.
  - destruct (guarded_step _ _ _ _ Hg Hs) as [ph' Hg']. by eapply IH.
Qed.
Lemma check_close_adapters ph bots ops : released ph hk_adapters = true → check_stop ph ops = true →
  check_stop ph (((fun b => so_close (h_adapter b)) <$> bots) ++ ops) = true.
Proof. intros Hr Hck. induction bots as [|b bots IH]; [done|].
  cbn [fmap list_fmap app check_stop kind_of next_phases]. by rewrite Hr, orb_true_r, IH. Qed.
End checker.

(** ** The services *)
(** The execution service: pool and adapters outlive every task, given that the
    scheduler waits; the bus does not (below). *)
Definition execution_tasks (rejected_enabled : bool) : list kind :=
  [k_orders; k_shadow_sub; k_monitor; k_dispatcher; k_background; k_variant; k_job] ++ if rejected_enabled then [k_rejected_sub; k_observation] else [].
Lemma execution_stop_checked rejected_enabled bots :
  check_service [hk_pool; hk_adapters] (execution_tasks rejected_enabled) (execution_stop true rejected_enabled bots) = true.
Proof.
  unfold check_service. apply andb_true_intro. split; [by destruct rejected_enabled; vm_compute|].
  destruct rejected_enabled; unfold execution_stop; cbn [app bus_close cancel_and_gather];
    repeat match goal with |- check_stop _ _ (_ ++ _) = true => fail 1 | _ => cbn [check_stop]; apply andb_true_intro; split; [done|] end;
    apply check_close_adapters; by vm_compute.
Qed.
Lemma execution_stop_is_safe unsub rejected_enabled bots tasks p : Forall (fun t => tk_kind t ∈ (execution_tasks rejected_enabled)) tasks →
  rtc (stop_step unsub) (mkProc [] tasks (execution_stop true rejected_enabled bots) None) p → safe [hk_pool; hk_adapters] p.
Proof. apply check_service_sound, execution_stop_checked. Qed.
(** All the handles of the other services but market data. *)
Definition other_services : list (list kind * list stop_op) :=
  [([k_relay], signal_gateway_stop); ([k_worker; k_stream], analytics_api_stop); ([k_auto_backfill; k_consumer], feature_engine_stop);
   ([k_consumer], strategy_engine_stop); ([k_consumer], alerting_stop)].
Lemma other_services_checked : forallb (fun s => check_service [hk_pool; hk_bus; hk_telegram] s.1 s.2) other_services = true.
Proof. by vm_compute. Qed.
Lemma other_stops_are_safe ks ops unsub tasks p : (ks, ops) ∈ other_services → Forall (fun t => tk_kind t ∈ ks) tasks →
  rtc (stop_step unsub) (mkProc [] tasks ops None) p → safe [hk_pool; hk_bus; hk_telegram] p.
Proof.
  intros Hin. apply check_service_sound. pose proof other_services_checked as H. rewrite forallb_forall in H.
  apply list_elem_of_In in Hin. apply (H (ks, ops) Hin).
Qed.

(** ** Where an order falls short *)
(** The bus is closed while dispatchers and monitors run: what they commit in
    between cannot be published. *)
Lemma bus_closed_before_dispatchers unsub rejected_enabled bots id : ∃ p,
  rtc (stop_step unsub) (mkProc [] [mkTask k_dispatcher id false] (execution_stop true rejected_enabled bots) None) p ∧
  h_bus ∈ pr_closed p ∧ mkTask k_dispatcher id false ∈ pr_tasks p ∧ hk_bus ∈ uses (mkTask k_dispatcher id false).
Proof.
  eexists. split; [do 5 (eapply rtc_l; [by eapply stop_next; [reflexivity|]|]); apply rtc_refl|]. cbn. set_solver.
Qed.
(** If unsubscribing a subscription of a closed bus raises, the block ends there:
    dispatchers run on and neither adapters nor pool are closed. *)
Lemma stop_ends_at_unsubscribe e rejected_enabled bots id : ∃ p,
  rtc (stop_step (Err e)) (mkProc [] [mkTask k_dispatcher id false] (execution_stop true rejected_enabled bots) None) p ∧
  pr_raised p = Some e ∧ pr_todo p = [] ∧ pr_closed p = [h_bus] ∧ pr_tasks p = [mkTask k_dispatcher id false].
Proof.
  destruct rejected_enabled; (eexists; split; [do 6 (eapply rtc_l; [by eapply stop_next; [reflexivity|]|]); apply rtc_refl|done]).
Qed.
(** The backfill a connection started is neither cancelled nor awaited: it may
    still run when the REST client and the pool are closed. *)
Lemma gap_fill_outlives_pool unsub id : ∃ p,
  rtc (stop_step unsub) (mkProc [] [mkTask k_gap_fill id false] market_data_stop None) p ∧
  pr_todo p = [] ∧ h_pool ∈ pr_closed p ∧ h_rest ∈ pr_closed p ∧ mkTask k_gap_fill id false ∈ pr_tasks p.
Proof.
  eexists. split; [do 13 (eapply rtc_l; [by eapply stop_next; [reflexivity|]|]); apply rtc_refl|]. cbn. set_solver.
Qed.

(** ** A shutdown can always go on to its end *)
Lemma tasks_can_end unsub p : rtc (stop_step unsub) p (mkProc (pr_closed p) [] (pr_todo p) (pr_raised p)).
Proof.
  destruct p as [closed tasks todo raised]. cbn. induction tasks as [|t tasks IH]; [apply rtc_refl|].
  eapply rtc_l; [by apply (stop_ended _ _ [] t tasks)|]. done.
Qed.
Lemma stop_can_complete p : pr_raised p = None → ∃ p', rtc (stop_step (Ok ())) p p' ∧ pr_todo p' = [] ∧ pr_raised p' = None.
Proof.
  intros Hr. destruct p as [closed tasks todo raised]. cbn in Hr. subst raised.
  assert (∃ p', rtc (stop_step (Ok ())) (mkProc closed [] todo None) p' ∧ pr_todo p' = [] ∧ pr_raised p' = None) as (p' & Hrun & Hp').
  { clear tasks. revert closed. induction todo as [|op todo IH]; intros closed; [by eexists; split; [apply rtc_refl|]|].
    destruct op as [h|k|k|k|]; [destruct (IH (h :: closed)) as (p' & Hrun & Hp')|destruct (IH closed) as (p' & Hrun & Hp')..];
      exists p'; (split; [eapply rtc_l; [by eapply stop_next|done]|done]). }
  exists p'. split; [|done]. etrans; [apply (tasks_can_end (Ok ()) (mkProc closed tasks todo None))|done].
Qed.

(** ** Starts *)
(** A start that raises has done exactly the awaits before, and nothing of it is
    undone: the [finally] block belongs to the part after. *)
Lemma run_start_prefix ops faults s : su_failed s = None →
  ∃ done rest, ops = done ++ rest ∧ su_open (run_start ops faults s) = su_open s ++ (done ≫= open_of) ∧
    su_tasks (run_start ops faults s) = su_tasks s ++ (done ≫= task_of) ∧ (su_failed (run_start ops faults s) = None → rest = []).
Proof.
  revert faults s. induction ops as [|op ops IH]; intros faults s Hs.
  - exists [], []. cbn. by rewrite !app_nil_r.
  - cbn [run_start]. destruct (head faults) as [[e|]|].
    { exists [], (op :: ops). cbn. by rewrite !app_nil_r. }
    all: destruct (IH (tail faults) (mkStarted (su_open s ++ open_of op) (su_tasks s ++ task_of op) None) eq_refl) as (d & r & -> & Ho & Ht & Hf);
      exists (op :: d), r; rewrite Ho, Ht; cbn [su_open su_tasks]; by rewrite !bind_cons, <-!app_assoc.
Qed.
(** Dispatchers run for exactly the live bots, and two of them share a lock just
    when they share a sub-account. *)
Lemma lock_for_spec locks sub : NoDup locks → NoDup (lock_for locks sub) ∧ locks `prefix_of` lock_for locks sub ∧
  ∃ n, list_find (eq sub) (lock_for locks sub) = Some (n, sub).
Proof.
  intros Hnd. unfold lock_for. case_bool_decide as Hin.
  - split_and!; [done..|]. destruct (list_find_elem_of (eq sub) locks sub Hin eq_refl) as [[n y] Hy]. exists n. rewrite Hy.
    apply list_find_Some in Hy as (_ & -> & _). done.
  - split_and!; [by apply NoDup_app; split_and!; [done|set_solver|apply NoDup_singleton]|by eexists|].
    destruct (list_find_elem_of (eq sub) (locks ++ [sub]) sub ltac:(set_solver) eq_refl) as [[n y] Hy]. exists n. rewrite Hy.
    apply list_find_Some in Hy as (_ & -> & _). done.
Qed.
Lemma dispatchers_spec locks bots ds locks' : dispatchers locks bots = Ok (ds, locks') → NoDup locks →
  NoDup locks' ∧ locks `prefix_of` locks' ∧
  Forall2 (fun b d => d.1 = bo_id b ∧ ∃ s, resolve_sub_account b = Ok s ∧ locks' !! d.2 = Some s) (List.filter (fun b => negb (bo_paper b)) bots) ds.
Proof.
  revert locks ds. induction bots as [|b bots IH]; intros locks ds; cbn [dispatchers].
  - intros [= <- <-] Hnd. by split_and!.
  - destruct (bo_paper b) eqn:Hp; cbn [List.filter]; rewrite Hp; [by apply IH|]. cbn [negb]. intros H Hnd.
    apply bind_ok_inv in H as (sub & Hsub & H). apply bind_ok_inv in H as ([ds' l'] & Hrest & [= <- <-]). cbn.
    destruct (lock_for_spec locks sub Hnd) as (Hnd' & Hpre & n & Hn). destruct (IH _ _ Hrest Hnd') as (Hnd'' & Hpre' & Hall).
    split_and!; [done|by etrans|]. constructor; [|done]. split; [done|]. exists sub. split; [done|]. rewrite Hn. cbn.
    apply list_find_Some in Hn as (Hn & _ & _). by eapply prefix_lookup_Some.
Qed.
Lemma locks_follow_sub_accounts bots ds locks : dispatchers [] bots = Ok (ds, locks) →
  ds.*1 = bo_id <$> List.filter (fun b => negb (bo_paper b)) bots ∧
  ∀ i j b b' d d', List.filter (fun b => negb (bo_paper b)) bots !! i = Some b → List.filter (fun b => negb (bo_paper b)) bots !! j = Some b' →
    ds !! i = Some d → ds !! j = Some d' → (d.2 = d'.2 ↔ resolve_sub_account b = resolve_sub_account b').
Proof.
  intros H. destruct (dispatchers_spec _ _ _ _ H (NoDup_nil_2)) as (Hnd & _ & Hall). split.
  - clear H Hnd. induction Hall as [|b d bs ds' [Hd _] _ IH]; [done|]. rewrite !fmap_cons. by rewrite Hd, IH.
  - intros i j b b' d d' Hb Hb' Hd Hd'. destruct (Forall2_lookup_lr _ _ _ _ _ _ Hall Hb Hd) as (_ & s & Hs & Hl).
    destruct (Forall2_lookup_lr _ _ _ _ _ _ Hall Hb' Hd') as (_ & s' & Hs' & Hl'). rewrite Hs, Hs'. split.
    + intros E. rewrite E in Hl. congruence.
    + intros [= ->]. by eapply NoDup_lookup.
Qed.
(** A symbol that is listed twice is consumed by two tasks, of which the pipeline
    knows one: the other is never cancelled. *)
Lemma repeated_symbol_leaks s : pl_running (pipeline_stop (pipeline_start [s; s] (mkPipeline false [] []))) = [(0, false); (1, true)].
Proof. cbn. by rewrite bool_decide_eq_true_2. Qed.
Lemma repeated_symbols_kept : symbols "BTCUSDT,, BTCUSDT" = ["BTCUSDT"; "BTCUSDT"]%string.
Proof. reflexivity. Qed.
